(* ===== verification/_CoqProject ===== *)
-Q . S2P
Prelude.v
Fcall.v
Wire.v
ConvS2M.v
ConvM2S.v
ConvDir.v
Codec.v
Utf.v
UtfString.v
Intmap.v
Lib9p.v
File.v
Pool.v
Srv.v
SrvRun.v
SrvExample.v
SrvProps.v
SrvFlush.v
Mpvec.v
Mpmul.v
Mpint.v
MpintProps.v
Mpshift.v
Mpdiv.v
Mpconv.v
Mpbytes.v
Mpexp.v
Mpcalc.v
Mpgcd.v
MpgcdProps.v
Avl.v
AvlRep.v
AvlOrder.v
AvlInsert.v
AvlDelete.v
AvlWalk.v
AvlProps.v
Bio.v
BioRead.v
BioWrite.v
BioStr.v
BioProps.v
Thread.v
Chan.v
ThreadRep.v
ThreadLock.v
ThreadQueues.v
ChanRep.v
ChanWait.v
ChanExec.v
ChanRun.v
ChanProps.v
RwlockProps.v
QlockProps.v
Regexec.v
Regcomp.v
RegexecRun.v
RegexecProps.v
RegexecRoom.v
RegexLang.v
RegexCode.v
RegcompParse.v
RegcompLex.v
RegcompProps.v
RegcompRoom.v
RegexpProps.v
Regsub.v
