(* ===== verification/Prelude.v ===== *)
(** * Plan 9 from User Space: a verified model of its core libraries

    plan9port is a port of the Plan 9 user programs. Its own logic sits in libraries under
    [src/src]: [lib9] packs and unpacks the messages of the file protocol 9P and handles UTF-8
    text, [lib9p] is the file server every program that serves files is built on, [libmp] is the
    arithmetic under its cryptography, [libavl] keeps ordered collections, [libbio] is the
    buffered input and output of nearly every command, [libthread] is the threads, locks and
    channels of the concurrent ones, and [libregexp] is the regular expressions of the editors
    and filters. This development translates those libraries into executable definitions and
    proves what they compute. File names below are relative to [src/src].

    ** The parts and how they interact

    A 9P server reads a message from a descriptor ([lib9/read9pmsg.c]), unpacks it in place
    ([lib9/convM2S.c]), files it under its tag in a pool of requests and finds its fids in a
    pool of fids ([lib9p/req.c], [lib9p/fid.c], both over the hash table [lib9p/intmap.c]),
    runs the handler of its type, perhaps on a tree of files ([lib9p/file.c]), and answers
    with [respond] ([lib9p/srv.c]), which packs the reply ([lib9/convS2M.c]) and releases the
    references the request holds. Directory entries travel inside messages as counted arrays
    ([lib9/convD2M.c], [lib9/convM2D.c]). Numbers in [libmp/port] are objects with an array of
    32-bit digits; the arithmetic on objects calls inner routines on vectors of digits, and the
    extended greatest common divisor and the modular inverse call the arithmetic. A tree of
    [libavl/avl.c] links nodes that are part of its client's structures, and knows the walks
    that are under way so that a deletion can move them. A buffer of [libbio] sits between its
    client and the descriptor of an open file, and reads and writes runes with the functions of
    [lib9/utf]. The threads of [libthread/thread.c] belong to procs, each of which runs one of
    its threads at a time from a queue; a thread that waits is on the list of a lock or of a
    rendezvous, or has its alternatives in the arrays of channels. [libthread/channel.c] protects
    all channels with one of the locks, and makes a thread ready when it serves it. A regular
    expression is a string of runes that [libregexp/regcomp.c] turns into a program, by a parser
    with a stack of operators and one of operands; [libregexp/regexec.c] runs the program over a
    string, all threads of it side by side in arrays of fixed size, and [libregexp/regsub.c] puts
    what was matched into another string.

    ** Which file models what

    - [Prelude]: machine integers as [Z] with [wrap] and [swrap] written out, memory with
      bounds ([load], [store]), tactics, hints and generic lemmas.
    - [Fcall]: the structures and macros of [include/fcall.h] and [include/libc.h].
    - [Wire]: the protocol as a specification, an inductive type [msg] of messages and their
      bytes [encode]; [msg_of] is the message that a C structure stands for.
    - [ConvS2M], [ConvM2S]: the two translations of messages, every type, as programs on a
      buffer in which an access out of bounds is a fault.
    - [ConvDir]: the same for directory entries, with [statcheck].
    - [Codec]: the two translations together, [readn] and [read9pmsg] against the class
      [Stream], the promise of a descriptor.
    - [Utf]: [lib9/utf/rune.c] and the [utf*.c] functions; [UtfString]: their theorems.
    - [Intmap]: the hash table, the interface [KeyMap] its clients use, and the proof that
      the table is an instance of it.
    - [Lib9p]: the structures of [include/9p.h] in a heap, and the monad [comp] of
      computations that change the state of a server or stop the process.
    - [File]: [lib9p/file.c] and [lib9p/uid.c]; [Pool]: [lib9p/fid.c] and [lib9p/req.c];
      [Srv]: [lib9p/srv.c] whole, with [util.c] and [dirread.c]. All are written over any
      [KeyMapOps] and any callbacks of the served program ([Srv], a record of operations).
    - [SrvRun], [SrvProps], [SrvFlush]: the theorems on the server; [SrvExample]: a server
      with a handler that delays its replies, to run them on.
    - [Mpvec]: the routines on vectors of digits; [Mpmul]: schoolbook and Karatsuba
      multiplication; [Mpint]: objects on a heap, with operands and results that may be the
      same object, comparison, sums and products; [MpintProps]: their theorems; [Mpshift],
      [Mpdiv], [Mpexp]: shifts, Knuth's division, powers; [Mpconv], [Mpbytes]: conversions;
      [Mpcalc]: sequences of operations; [Mpgcd]: the loops of [mpextendedgcd.c], and
      [mpinvert.c]; [MpgcdProps]: what they compute.
    - [Avl]: [libavl/avl.c] whole, on a heap of nodes with parent pointers; [AvlRep]: the
      tree that a heap represents; [AvlOrder]: the class [Ordering] of comparison functions
      and the operations on sorted lists; [AvlInsert], [AvlDelete], [AvlWalk], [AvlProps]:
      the theorems.
    - [Bio]: [libbio], a buffer as the record of [include/bio.h] with its array, the system
      calls as the class [Sys] and what they promise as [Readable] and [Writable]; [BioRead],
      [BioWrite], [BioStr]: the operations that read, that write, and [Brdstr]; [BioProps]:
      sequences of operations against a plain file.
    - [Thread]: [libthread/thread.c], the structures of [threadimpl.h] and the locks in one
      memory: the linked lists of threads, the scheduler, [QLock], [RWLock], [Rendez]; a
      function that switches to another thread in the middle is two definitions, before the
      switch and after it. [Chan]: [libthread/channel.c]. [ThreadRep]: the queues that the
      linked lists represent; [ThreadLock]: waiting, waking and choosing the next thread;
      [ThreadQueues]: the queues read off the memory; [ChanRep], [ChanWait], [ChanExec]: the
      contents of a buffer, the arrays of alternatives that wait, and the invariant [chan_inv]
      of channels; [ChanRun]: runs of calls, whose events are read off the memory before and
      after each call; [ChanProps], [RwlockProps], [QlockProps]: the theorems, on runs in which
      threads take steps in any order.
    - [Regexec]: [libregexp/regexec.c] and [regaux.c], where the run can find the arrays full or
      write past them; [Regcomp]: [regcomp.c] whole, its static variables as a state and its
      errors as results; [Regsub]: [regsub.c] and its theorem. [RegexecRun]: what the threads of
      one character do; [RegexecProps]: whole runs against the automaton of the program;
      [RegexecRoom]: weights of instructions that bound the threads. [RegexLang]: regular
      expressions, what they match and the shape of the code for them; [RegexCode]: that shape
      through [optimize]; [RegcompParse]: the parser against a grammar with priorities;
      [RegcompLex]: classes and tokens; [RegcompProps], [RegcompRoom]: compiled programs and
      their weights; [RegexpProps]: the theorems.

    ** What the theorems show

    - Messages. Packing a structure that stands for a message writes exactly the bytes of the
      specification and unpacking gives the message back ([convS2M_correct], [codec_roundtrip]);
      unpacking never leaves the buffer whatever the bytes ([convM2S_safe]); a message is read
      whole from a descriptor that delivers it in pieces ([read9pmsg_message]); directory
      entries come back as they were packed ([dir_roundtrip]), and [statcheck] accepts what
      [convM2D] can decode ([statcheck_spec]).
    - Text. [chartorune] decodes exactly the shortest encodings and gives one error rune for
      one byte otherwise, and the string functions are searches over that decoding.
    - Server. The hash table refines a finite map ([intmap_refines]). For the bytes of one
      message in any sound state, [serve] writes the stated replies and leaves the pools as
      stated: errors for unknown fids and tags in use, version negotiation, and flushes, whose
      replies come after that of the request they flush, when it is answered with an error or
      with a success that changes nothing else ([respond_flushed]). These theorems are about
      servers without [destroyreq] and with a [destroyfid] that does nothing ([plain_srv]).
    - Arithmetic. Every operation computes the integer function it is named for, on operands of
      any size, with operands and results that may be the same object where the theorems do not
      say otherwise; division is Knuth's algorithm D, whose trial digit is found in three rounds
      ([trial_digit_terminates]); the object of a quotient must not have a negative sign
      ([mpdiv_correct]). Any sequence of operations on a heap of numbers in normal form, within
      the conditions of [result], refines the same sequence on integers ([run_all_refines]). The
      extended binary algorithm ends with the greatest common divisor and its coefficients
      ([mpextendedgcd_correct]), and [mpinvert] gives the inverse or aborts.
    - Trees. Whatever is inserted, deleted and searched, a tree gives the results of a sorted
      list ([avl_refines]) and stays balanced, so that a lookup takes logarithmic time
      ([lookup_steps]); a walk goes on after a deletion, even of the node it is at
      ([walk_survives_delete]).
    - Buffers. Sequences of reads and seeks, and of writes and seeks, have the results and
      the effect on the file that they have without a buffer ([bio_read_refines], but for a
      [Bgetc] at an end of the file that was met already; [bio_write_refines], but for seeks
      from the current place), in whatever pieces the system delivers the file; runes and lines
      come back as they were written; errors of the system are reported and stick.
    - Threads. In any run of the code, a [QLock] is never given to two threads, and those that
      wait get it in the order in which they came ([qlock_mutex], [qlock_fifo]); the runs ask of
      the threads only that they unlock what they hold and call once at a time. Every operation
      does what it does on an abstract lock ([qlock_progress], [rwlock_refines]), with writers
      excluded from readers and nobody waiting for a free lock ([rwlock_exclusion]). The
      scheduler takes the threads of a proc in turn ([procnext_refines], [yield_round_robin]). A
      wakeup wakes the threads that sleep, and none can come between the release of the lock and
      the sleep ([rwakeup_wakes], [rsleep_sleeps]).
    - Channels. In any run of the code, what is received on a channel is what was sent, in
      order, with or without a buffer and whatever the random choices ([channels_fifo]); a call
      of [chanalt] that finds the lock of the channels free executes one alternative, returns -1
      or waits with all of them ([chanalt_correct]); no thread waits for one that waits for it
      ([no_missed_rendezvous]), and a thread that was served returns the alternative that was
      executed ([woken_returns]).
    - Regular expressions. The program that [regcomp] or [regcompnl] makes of a string that is
      an expression takes exactly what the expression matches ([regcomp_correct]); of several
      postfix operators in a row, the grammar has [?] before [+] before [*] only. A run that
      returns has found the leftmost and longest match ([regexec_finds]), and it returns when
      the loops of the expression take characters and its weight fits the arrays
      ([regexec_returns], [regexec2_returns]); these ask that the expression is [searchable],
      that is, does not begin with [^], and that no end is given to the search if it begins with
      an ASCII character. A class holds the characters that were written ([bldcclass_correct]).
      A substitution is cut to its destination ([regsub_expands]).
    - Some theorems state what the code does where it was meant to do something else: the
      messages that stop a server, a flush of itself, negative zeros, signs and digits left
      over in a result, walks that a replacement strands, seeks within a buffer that holds
      something else, an alternative without a channel, arrays of threads that overflow, lines
      that [^] does not find, and where a manual page says something else. They are the
      "findings" of the manifest.

    ** Bounds and fuel

    Integers keep their C width where the code computes with data: sizes of messages are 32-bit
    sums that can wrap, digits are 32 bits, runes are 32 bits. Counts of objects in memory are
    not bounded: the digits and bits of a number in [libmp], which are [int]s (the definitions
    are those of the code for numbers of fewer than 2 ^ 26 digits, and [Mpcalc] asks for
    operands and shifts below that), the readers of a [RWLock], the threads and the switches of
    a proc. Loops that are not structural get fuel that is enough by construction: [readn] one
    more than the bytes asked for, [mpvecmul] one more than the longer operand (each Karatsuba
    level halves it), the trial digit of [mpdiv] three rounds, the loops over the bits of a
    digit 32, over its bytes 4, [dirread_loop] one more than the bytes of the buffer. [closereq]
    and [respond] recur along chains of requests, with fuel one more than the number of
    requests. The recursions of [libavl] have one more than the number of nodes, which bounds
    every path; the loops of [mpextendedgcd] the bits of the numbers they halve, and its main
    loop one more than those of both, since each turn halves their product. [Bgetc] and [Bputc]
    go round twice at most, [Bread] and [Bwrite] twice for every byte, [Brdline] once for every
    byte of the buffer; [Brdstr], which reads as long as the line is, takes its fuel as an
    argument, and twice the length of the file is enough. Loops along a list of threads have one
    more than the number of threads, along an array of alternatives one more than the number of
    alternatives; [procnext] goes round twice at most, since the idle threads are then ready.
    [regexec1] goes round once for every byte of the string, a thread along every instruction,
    the compiler once for every byte of the expression, [optimize] along every instruction. The
    stacks of the compiler hold 20 entries, a program 128 classes and brackets, a class 31
    ranges: the theorems ask that the expression fits. Running out of fuel is an outcome of its
    own ([None], [Endless], [NoFuel] or [Loops]); the theorems state results, so they show that
    it does not happen where they apply.

    ** Not modelled

    - Locks in the other libraries: there one function runs at a time. The lock order of
      [lib9p] and the reclaiming of directory cells while readers are active are left out. In
      [libthread] every section that the code protects with the [Lock] of a structure is one
      step, together with the switch or the waking that follows it at once (the release of
      [l->l] before [_threadswitch] and [_threadready], and of [chanlock] before the switch of
      [chanalt]), so that what other procs do between the two is not a step of its own; sleeping
      and waking in the operating system is the choice of the next step.
    - In [lib9p], the callback [inc] that [lookupkey] applies to what it finds is applied by its
      callers [lookupfid] and [lookupreq], which are the only ones that set it.
    - In [libthread]: the start of the program and of procs, the list of all threads of a proc
      and names (for debugging), [exec.c], the I/O procs and the operations on channels that
      send a pointer or a number, which pass the address of a local variable to [_chanop].
    - In [libmp], that the arrays of the constants [mpzero], [mpone] and [mptwo] are static: growing
      one of them is not a fault. The theorems on sequences do not write to [mpzero] and [mpone].
    - Allocation that fails (the libraries stop the process), debugging output, and the
      posting of services ([lib9p/post.c], [rfork.c], [thread.c]: processes and pipes).
    - In [lib9]: formatted printing, quoting, base-64 and system calls; in [libmp]: text,
      random numbers, [mpeuclid], factorials, the Chinese remainder theorem; in [lib9p]:
      [parse.c]; in [libbio]: [Bopen] (it opens the file), [Bgetd] and [Bprint], which call the
      number scanner and the formatter of [lib9].
    - In [libregexp]: [rregexec.c] and [rregsub.c], the same over arrays of runes. The theorems
      on matches are about the match as a whole, not about its subexpressions.
    - The other libraries and the commands. The manifest lists them.

    Next: the base-N conversions of [lib9], fields, tokens and quoting, the Chinese remainder
    theorem and the text form of numbers in [libmp], more of the handlers of [lib9p] on file
    trees. *)

From stdpp Require Export base tactics option list list_numbers numbers gmap.
From Stdlib Require Export ZArith Lia.

#[global] Open Scope Z_scope.

(** ** Notations of the development *)

Declare Scope c_scope.
Delimit Scope c_scope with C.

(** C's bitwise operators on machine integers kept as [Z]. *)
Notation "x '.<<' k" := (Z.shiftl x k) (at level 42, left associativity) : c_scope.
Notation "x '.>>' k" := (Z.shiftr x k) (at level 42, left associativity) : c_scope.
Notation "x '.&' y" := (Z.land x y) (at level 44, left associativity) : c_scope.
Notation "x '.^' y" := (Z.lxor x y) (at level 46, left associativity) : c_scope.
Notation "x '.|' y" := (Z.lor x y) (at level 48, left associativity) : c_scope.
#[global] Open Scope c_scope.

(** ** Machine integers *)

(** The value of a [w]-bit unsigned object after storing [z] in it. *)
Definition wrap (w z : Z) : Z := z mod 2 ^ w.

(** The value of a [w]-bit two's complement object after storing [z] in it. *)
Definition swrap (w z : Z) : Z :=
  let r := z mod 2 ^ w in if r <? 2 ^ (w - 1) then r else r - 2 ^ w.

Abbreviation u8 := (wrap 8).
Abbreviation u16 := (wrap 16).
Abbreviation u32 := (wrap 32).
Abbreviation u64 := (wrap 64).
Abbreviation s8 := (swrap 8).
Abbreviation s32 := (swrap 32).
Abbreviation s64 := (swrap 64).

(** [z] is a value of a [w]-bit unsigned object. *)
Definition in_u (w z : Z) : Prop := 0 <= z < 2 ^ w.
(** [z] is a value of a [w]-bit two's complement object. *)
Definition in_s (w z : Z) : Prop := - 2 ^ (w - 1) <= z < 2 ^ (w - 1).

#[global] Instance in_u_dec w z : Decision (in_u w z).
Proof. unfold in_u. apply _. Defined.
#[global] Instance in_s_dec w z : Decision (in_s w z).
Proof. unfold in_s. apply _. Defined.

(** A byte is a [Z] below 256, a piece of memory a list of bytes. *)
Abbreviation bytes := (list Z).
Abbreviation is_bytes := (Forall (in_u 8)).

(** ** Record update *)

(** [upd p f r] is the record [r] with [f] applied to its field [p]: the C assignment
    [r->p = v] is [r <| p := v |>]. The instances are found by a tactic. *)
Class Updater {R T : Type} (p : R -> T) := upd : (T -> T) -> R -> R.
Arguments upd {R T} p {_} _ _.

Ltac find_updater :=
  match goal with
  | |- @Updater ?R ?T ?p =>
    let f := fresh "f" in let r := fresh "r" in
    let whole := fresh "whole" in let fld := fresh "fld" in
    unfold Updater; intros f r;
    pose (whole := r); pose (fld := p r); destruct r;
    let x := eval cbv in fld in
    let b := eval unfold whole in whole in
    match b with context C [x] => let b' := context C [f x] in exact b' end
  end.

#[global] Hint Extern 1 (Updater _) => find_updater : typeclass_instances.

Notation "r <| p := v |>" := (upd p (fun _ => v) r)
  (at level 1, left associativity, p at level 9, v at level 200).


(** ** Tactics *)

(** Case analysis on the boolean comparisons of the goal and the hypotheses. *)
Ltac bcase :=
  repeat match goal with
  | |- context [Z.ltb ?a ?b] => destruct (Z.ltb_spec a b)
  | |- context [Z.leb ?a ?b] => destruct (Z.leb_spec a b)
  | |- context [Z.eqb ?a ?b] => destruct (Z.eqb_spec a b)
  | H : context [Z.ltb ?a ?b] |- _ => destruct (Z.ltb_spec a b)
  | H : context [Z.leb ?a ?b] |- _ => destruct (Z.leb_spec a b)
  | H : context [Z.eqb ?a ?b] |- _ => destruct (Z.eqb_spec a b)
  end.

(** Unfolds the range predicates and calls [lia]. *)
Ltac range :=
  unfold in_u, in_s in *;
  change (2 ^ (32 - 1)) with (2 ^ 31) in *; change (2 ^ (64 - 1)) with (2 ^ 63) in *; lia.

(** [lia] with quotients and remainders by constants replaced by their equations. *)
Ltac divlia :=
  unfold in_u, in_s in *;
  cbn [Z.pow Z.pow_pos Pos.iter Z.mul Pos.mul Z.sub Z.opp Z.add Z.pos_sub Pos.pred_double] in *;
  Z.to_euclidean_division_equations; lia.

(** Inverts an equation [e = Some x] between option computations, without touching the goal. *)
Ltac inv_opt H :=
  repeat match type of H with
  | (if ?b then _ else _) = Some _ => destruct b eqn:?; try discriminate H
  | mbind _ ?o = Some _ =>
      let E := fresh "E" in destruct o eqn:E; [cbn [mbind option_bind] in H|discriminate H]
  | Some _ = Some _ => injection H as <-
  | None = Some _ => discriminate H
  end.

(** A decidable proposition about concrete data, by evaluation. *)
Ltac by_decide := apply (bool_decide_unpack _); vm_compute; exact I.

Create HintDb c_hints.
Create Rewrite HintDb c_length.

(** ** Integer lemmas *)

Lemma wrap_small w z : in_u w z -> wrap w z = z.
Proof. intros ?. unfold wrap. by rewrite Z.mod_small. Qed.

Lemma wrap_range w z : 0 <= w -> in_u w (wrap w z).
Proof. intros. apply Z.mod_pos_bound. by apply Z.pow_pos_nonneg. Qed.

Lemma wrap_wrap w v z : 0 <= w <= v -> wrap w (wrap v z) = wrap w z.
Proof.
  intros. unfold wrap. replace v with (w + (v - w)) by lia.
  rewrite Z.pow_add_r by lia. rewrite Z.rem_mul_r by lia.
  rewrite Z.mul_comm, Z_mod_plus_full, Z.mod_mod; lia.
Qed.

Lemma swrap_range w z : 0 < w -> in_s w (swrap w z).
Proof.
  intros. unfold swrap, in_s.
  pose proof (Z.mod_pos_bound z (2 ^ w) ltac:(lia)).
  replace w with (1 + (w - 1)) in * by lia. rewrite Z.pow_add_r in * by lia.
  replace (1 + (w - 1) - 1) with (w - 1) in * by lia.
  bcase; lia.
Qed.

Lemma swrap_small w z : 0 < w -> in_s w z -> swrap w z = z.
Proof.
  intros Hw Hz. unfold swrap, in_s in *.
  assert (2 ^ w = 2 * 2 ^ (w - 1)) as E.
  { replace w with (1 + (w - 1)) at 1 by lia. rewrite Z.pow_add_r by lia. lia. }
  destruct (Z.neg_nonneg_cases z).
  - rewrite <- (Zmod_unique_full z (2 ^ w) (-1) (z + 2 ^ w)); [|left; lia|lia].
    bcase; lia.
  - rewrite Z.mod_small by lia. bcase; lia.
Qed.

Lemma wrap_swrap w z : 0 < w -> wrap w (swrap w z) = wrap w z.
Proof.
  intros. unfold wrap, swrap. bcase.
  - by rewrite Z.mod_mod by lia.
  - replace (z mod 2 ^ w - 2 ^ w) with (z mod 2 ^ w + (-1) * 2 ^ w) by lia.
    rewrite Z_mod_plus_full. by rewrite Z.mod_mod by lia.
Qed.

Lemma swrap_wrap w z : 0 < w -> swrap w (wrap w z) = swrap w z.
Proof. intros. unfold wrap, swrap. by rewrite Z.mod_mod by lia. Qed.

(** The bits of [a] and of [b] shifted above them do not overlap. *)
Lemma lor_shiftl_add a b k : 0 <= k -> in_u k a -> a .| (b .<< k) = a + b * 2 ^ k.
Proof.
  intros Hk Ha.
  assert (Z.land a (b .<< k) = 0) as E.
  { apply Z.bits_inj'. intros i Hi. rewrite Z.land_spec, Z.bits_0.
    rewrite Z.shiftl_spec by lia.
    destruct (Z.lt_ge_cases i k).
    - rewrite (Z.testbit_neg_r b) by lia. apply andb_false_r.
    - rewrite <- (Z.mod_small a (2 ^ k)) by done.
      rewrite Z.mod_pow2_bits_high by lia. done. }
  rewrite <- Z.shiftl_mul_pow2 by lia.
  rewrite <- Z.lxor_lor, <- Z.add_nocarry_lxor; done.
Qed.

Lemma land_ones_wrap z w : 0 <= w -> z .& Z.ones w = wrap w z.
Proof. intros. by rewrite Z.land_ones. Qed.

Lemma shiftr_div z k : 0 <= k -> z .>> k = z / 2 ^ k.
Proof. apply Z.shiftr_div_pow2. Qed.

(** ** Memory *)

(** A C object of bytes is a list; an access outside of it has no defined result. *)
Abbreviation len l := (Z.of_nat (length l)).

(** The [n] elements at offset [p]; [None] when the access leaves the object. *)
Definition load {A} (m : list A) (p n : Z) : option (list A) :=
  if (0 <=? p) && (0 <=? n) && (p + n <=? len m)
  then Some (take (Z.to_nat n) (drop (Z.to_nat p) m)) else None.

(** [m] with the elements [bs] at offset [p]; [None] when the access leaves the object. *)
Definition store {A} (m : list A) (p : Z) (bs : list A) : option (list A) :=
  if (0 <=? p) && (p + len bs <=? len m)
  then Some (take (Z.to_nat p) m ++ bs ++ drop (Z.to_nat (p + len bs)) m) else None.

(** The element at offset [p]. *)
Definition load1 {A} (m : list A) (p : Z) : option A :=
  if 0 <=? p then m !! Z.to_nat p else None.

Section memory.
Context {A : Type}.
Implicit Types (m pre old post bs : list A) (p n : Z).

Lemma load_app pre bs post p n :
  p = len pre -> n = len bs -> load (pre ++ bs ++ post) p n = Some bs.
Proof.
  intros -> ->. unfold load. rewrite !length_app.
  rewrite !Nat2Z.id.
  replace (_ && _) with true by (symmetry; rewrite !andb_true_iff, !Z.leb_le; lia).
  by rewrite drop_app_length, take_app_length.
Qed.

Lemma store_app pre old bs post p :
  p = len pre -> length old = length bs ->
  store (pre ++ old ++ post) p bs = Some (pre ++ bs ++ post).
Proof.
  intros -> E. unfold store. rewrite !length_app.
  replace (_ && _) with true by (symmetry; rewrite !andb_true_iff, !Z.leb_le; lia).
  rewrite Nat2Z.id, take_app_length, <- Nat2Z.inj_add, Nat2Z.id.
  by rewrite <- E, <- length_app, (app_assoc pre old), drop_app_length.
Qed.

Lemma store_head old bs post :
  length old = length bs -> store (old ++ post) 0 bs = Some (bs ++ post).
Proof. intros E. by apply (store_app []). Qed.

Lemma load_Some m p n :
  0 <= p -> 0 <= n -> p + n <= len m ->
  exists bs, load m p n = Some bs /\ len bs = n.
Proof.
  intros. unfold load.
  replace (_ && _) with true by (symmetry; rewrite !andb_true_iff, !Z.leb_le; lia).
  eexists; split; [done|]. rewrite length_take, length_drop. lia.
Qed.

Lemma load_inv m p n bs :
  load m p n = Some bs ->
  0 <= p /\ 0 <= n /\ p + n <= len m /\ len bs = n /\
  exists pre post, m = pre ++ bs ++ post /\ len pre = p.
Proof.
  unfold load. destruct (_ && _) eqn:E; [|done]. intros [= <-].
  rewrite !andb_true_iff, !Z.leb_le in E.
  split_and!; try lia.
  - rewrite length_take, length_drop. lia.
  - exists (take (Z.to_nat p) m), (drop (Z.to_nat n) (drop (Z.to_nat p) m)).
    split; [by rewrite !take_drop|]. rewrite length_take. lia.
Qed.

Lemma store_Some m p bs :
  0 <= p -> p + len bs <= len m ->
  exists m', store m p bs = Some m' /\ length m' = length m.
Proof.
  intros. unfold store.
  replace (_ && _) with true by (symmetry; rewrite !andb_true_iff, !Z.leb_le; lia).
  eexists; split; [done|]. rewrite !length_app, length_take, length_drop. lia.
Qed.

Lemma store_length m p bs m' : store m p bs = Some m' -> length m' = length m.
Proof.
  unfold store. destruct (_ && _) eqn:E; [|done]. intros [= <-].
  rewrite !andb_true_iff, !Z.leb_le in E.
  rewrite !length_app, length_take, length_drop. lia.
Qed.

Lemma load1_app pre x post p :
  p = len pre -> load1 (pre ++ x :: post) p = Some x.
Proof.
  intros ->. unfold load1. rewrite Nat2Z.id.
  destruct (Z.leb_spec 0 (len pre)); [|lia]. by apply list_lookup_middle.
Qed.

Lemma load1_inv m p x :
  load1 m p = Some x -> 0 <= p < len m /\ m !! Z.to_nat p = Some x.
Proof.
  unfold load1. bcase; [|done]. intros Hx.
  apply lookup_lt_Some in Hx as Hlt. split; [lia|done].
Qed.

Lemma load1_Some m p : 0 <= p < len m -> exists x, load1 m p = Some x.
Proof.
  intros. unfold load1. bcase; [|lia].
  destruct (lookup_lt_is_Some_2 m (Z.to_nat p)) as [x Hx]; [lia|]. eauto.
Qed.
End memory.

Lemma load_Forall {A} (P : A -> Prop) m p n bs :
  Forall P m -> load m p n = Some bs -> Forall P bs.
Proof.
  intros Hm. unfold load. destruct (_ && _); [|done]. intros [= <-].
  by apply Forall_take, Forall_drop.
Qed.

Lemma store_Forall {A} (P : A -> Prop) m p bs m' :
  Forall P m -> Forall P bs -> store m p bs = Some m' -> Forall P m'.
Proof.
  intros Hm Hbs. unfold store. destruct (_ && _); [|done]. intros [= <-].
  apply Forall_app; split; [by apply Forall_take|].
  apply Forall_app; split; [done|by apply Forall_drop].
Qed.

(** A store does not change what lies before it. *)
Lemma store_frame {A} (m m' : list A) p bs q n :
  store m p bs = Some m' -> q + n <= p -> load m' q n = load m q n.
Proof.
  intros Hs Hq. pose proof (store_length _ _ _ _ Hs) as Hl.
  unfold store in Hs. destruct (_ && _) eqn:E; [|done]. injection Hs as <-.
  rewrite !andb_true_iff, !Z.leb_le in E.
  unfold load. rewrite Hl. destruct (_ && _) eqn:F; [|done].
  rewrite !andb_true_iff, !Z.leb_le in F. f_equal.
  rewrite drop_app_le by (rewrite length_take; lia).
  rewrite take_app_le by (rewrite length_drop, length_take; lia).
  rewrite !take_drop_commute, take_take. do 2 f_equal. lia.
Qed.

(** A store into the first of two adjacent pieces of memory. *)
Lemma store_app_l {A} (a b : list A) p bs :
  p + len bs <= len a -> store (a ++ b) p bs = (fun a' => a' ++ b) <$> store a p bs.
Proof.
  intros H. unfold store. rewrite length_app.
  destruct (Z.leb_spec 0 p); [|done]. cbn [andb].
  destruct (Z.leb_spec (p + len bs) (Z.of_nat (length a + length b))); [|lia].
  destruct (Z.leb_spec (p + len bs) (len a)); [|lia]. cbn. f_equal.
  rewrite take_app_le, drop_app_le by lia. by rewrite <- !app_assoc.
Qed.

(** A load beyond the first of two adjacent pieces of memory. *)
Lemma load_skip {A} (a b : list A) p n : len a <= p -> load (a ++ b) p n = load b (p - len a) n.
Proof.
  intros H. unfold load. rewrite length_app.
  destruct (Z.leb_spec 0 p), (Z.leb_spec 0 (p - len a)); try lia. cbn [andb].
  destruct (Z.leb_spec 0 n); [|done]. cbn [andb].
  destruct (Z.leb_spec (p + n) (Z.of_nat (length a + length b))),
    (Z.leb_spec (p - len a + n) (len b)); try lia; [|done].
  rewrite drop_app_ge by lia. do 3 f_equal. lia.
Qed.

(** What was stored is there. *)
Lemma load_store {A} (m m' : list A) p bs :
  store m p bs = Some m' -> load m' p (len bs) = Some bs.
Proof.
  intros H. pose proof (store_length _ _ _ _ H) as L. unfold store in H.
  destruct (_ && _) eqn:E; [|done]. injection H as <-.
  rewrite !andb_true_iff, !Z.leb_le in E.
  apply load_app; [rewrite length_take; lia|done].
Qed.

(** Adjacent loads. *)
Lemma load_plus {A} (m : list A) p n1 n2 x y :
  load m p n1 = Some x -> load m (p + n1) n2 = Some y -> load m p (n1 + n2) = Some (x ++ y).
Proof.
  intros H1 H2. apply load_inv in H1 as (? & ? & ? & Lx & pre & post & -> & Lp).
  apply load_inv in H2 as (? & ? & ? & Ly & pre' & post' & E & Lp').
  rewrite app_assoc in E. apply app_inj_1 in E as [<- ->]; [|rewrite length_app; lia].
  rewrite (app_assoc x y post'). apply load_app; [lia|rewrite length_app; lia].
Qed.

(** Filling an array from its start. *)
Lemma list_inserts_0 {A} (k l : list A) :
  (length k <= length l)%nat -> list_inserts 0 k l = k ++ drop (length k) l.
Proof.
  intros H. rewrite <- (take_drop (length k) l) at 1.
  apply list_inserts_0_r. rewrite length_take. lia.
Qed.

Lemma load_inserts {A} (k l : list A) :
  (length k <= length l)%nat -> load (list_inserts 0 k l) 0 (len k) = Some k.
Proof. intros H. rewrite list_inserts_0 by done. by apply (load_app []). Qed.

Lemma store_inv {A} (m m' : list A) p bs :
  store m p bs = Some m' ->
  exists pre old post, m = pre ++ old ++ post /\ m' = pre ++ bs ++ post /\
    p = len pre /\ length old = length bs.
Proof.
  unfold store. destruct (_ && _) eqn:E; [|done]. intros [= <-].
  rewrite !andb_true_iff, !Z.leb_le in E.
  exists (take (Z.to_nat p) m), (take (length bs) (drop (Z.to_nat p) m)),
    (drop (length bs) (drop (Z.to_nat p) m)).
  rewrite !take_drop. split_and!; [done| |rewrite length_take; lia|].
  - rewrite drop_drop. do 3 f_equal. lia.
  - rewrite length_take, length_drop. lia.
Qed.

(** Adjacent stores. *)
Lemma store_plus {A} (m m1 m2 : list A) p x y :
  store m p x = Some m1 -> store m1 (p + len x) y = Some m2 -> store m p (x ++ y) = Some m2.
Proof.
  intros H1 H2. apply store_inv in H1 as (pre & old & post & -> & -> & -> & L).
  apply store_inv in H2 as (pre' & old' & post' & E & -> & Lp & L').
  rewrite app_assoc in E. apply app_inj_1 in E as [<- ->]; [|rewrite length_app; lia].
  rewrite <- app_assoc, (app_assoc x y). rewrite (app_assoc old old').
  apply store_app; [done|]. rewrite !length_app. lia.
Qed.

Lemma store_nil {A} (m : list A) p : 0 <= p <= len m -> store m p [] = Some m.
Proof.
  intros H. destruct (store_Some m p []) as (b & E & _); [lia|cbn; lia|]. rewrite E.
  apply store_inv in E as (pre & old & post & -> & -> & _ & L).
  by apply nil_length_inv in L as ->.
Qed.

(** ** Finite maps *)

Lemma alter_Some {A} (f : A -> A) (m : gmap Z A) i x :
  m !! i = Some x -> alter f i m = <[i := f x]> m.
Proof.
  intros E. apply map_eq. intros j. destruct (decide (i = j)) as [->|Hne].
  - by rewrite lookup_alter_eq, lookup_insert_eq, E.
  - by rewrite lookup_alter_ne, lookup_insert_ne.
Qed.
