(* ===== verification/Fcall.v ===== *)
(** * The data of 9P messages

    The types and macros of [include/fcall.h] and the [Qid] and [Dir] structures of
    [include/libc.h]: message numbers, the [Fcall] structure, the little-endian macros
    [GBIT*] and [PBIT*] on memory with bounds, C strings. *)

From S2P Require Import Prelude.
#[local] Set Primitive Projections.

(** ** Sizes, message numbers and flag bits *)

Definition BIT8SZ : Z := 1.
Definition BIT16SZ : Z := 2.
Definition BIT32SZ : Z := 4.
Definition BIT64SZ : Z := 8.
Definition QIDSZ : Z := BIT8SZ + BIT32SZ + BIT64SZ.
Definition STATFIXLEN : Z := BIT16SZ + QIDSZ + 5 * BIT16SZ + 4 * BIT32SZ + 1 * BIT64SZ.
Definition MAXWELEM : Z := 16.
Definition NOTAG : Z := 65535.
Definition NOFID : Z := 4294967295.
Definition NOUID : Z := -1.
Definition IOHDRSZ : Z := 24.

(** The enumeration of message types. *)
Inductive mtype :=
  | Topenfd | Ropenfd | Tversion | Rversion | Tauth | Rauth | Tattach | Rattach
  | Terror | Rerror | Tflush | Rflush | Twalk | Rwalk | Topen | Ropen | Tcreate
  | Rcreate | Tread | Rread | Twrite | Rwrite | Tclunk | Rclunk | Tremove | Rremove
  | Tstat | Rstat | Twstat | Rwstat.

#[global] Instance mtype_eq_dec : EqDecision mtype.
Proof. solve_decision. Defined.

Definition mtype_num (t : mtype) : Z :=
  match t with
  | Topenfd => 98 | Ropenfd => 99 | Tversion => 100 | Rversion => 101 | Tauth => 102
  | Rauth => 103 | Tattach => 104 | Rattach => 105 | Terror => 106 | Rerror => 107
  | Tflush => 108 | Rflush => 109 | Twalk => 110 | Rwalk => 111 | Topen => 112
  | Ropen => 113 | Tcreate => 114 | Rcreate => 115 | Tread => 116 | Rread => 117
  | Twrite => 118 | Rwrite => 119 | Tclunk => 120 | Rclunk => 121 | Tremove => 122
  | Rremove => 123 | Tstat => 124 | Rstat => 125 | Twstat => 126 | Rwstat => 127
  end.

Definition all_mtypes : list mtype :=
  [Topenfd; Ropenfd; Tversion; Rversion; Tauth; Rauth; Tattach; Rattach; Terror;
   Rerror; Tflush; Rflush; Twalk; Rwalk; Topen; Ropen; Tcreate; Rcreate; Tread; Rread;
   Twrite; Rwrite; Tclunk; Rclunk; Tremove; Rremove; Tstat; Rstat; Twstat; Rwstat].

(** The enumerator a [type] byte stands for: what the switch statements branch on. *)
Definition mtype_of (z : Z) : option mtype :=
  list_find (fun t => mtype_num t = z) all_mtypes ≫= fun it => Some (it.2).

(** ** C strings *)

(** A [char*] is [None] when it is nil; otherwise it points at the given bytes, which are
    followed by a NUL. The bytes may contain a NUL themselves (a string unpacked from a
    message may), and the C string ends at the first one. *)
Abbreviation cptr := (option bytes).

Fixpoint c_str (s : bytes) : bytes :=
  match s with
  | [] => []
  | b :: s' => if b =? 0 then [] else b :: c_str s'
  end.

Definition strlen (s : bytes) : Z := len (c_str s).

(** The bytes a [char*] contributes to a message: nothing for nil. *)
Definition str_bytes (s : cptr) : bytes := from_option c_str [] s.

(** ** Structures *)

Record Qid := mkQid { q_path : Z; q_vers : Z; q_type : Z }.

Record Dir := mkDir {
  d_type : Z; d_dev : Z; d_qid : Qid; d_mode : Z; d_atime : Z; d_mtime : Z;
  d_length : Z; d_name : cptr; d_uid : cptr; d_gid : cptr; d_muid : cptr;
  d_uidnum : Z; d_gidnum : Z; d_muidnum : Z; d_ext : cptr }.

Record Fcall := mkFcall {
  f_type : Z; f_fid : Z; f_tag : Z; f_msize : Z; f_version : cptr; f_oldtag : Z;
  f_ename : cptr; f_qid : Qid; f_iounit : Z; f_aqid : Qid; f_afid : Z; f_uname : cptr;
  f_aname : cptr; f_perm : Z; f_name : cptr; f_mode : Z; f_newfid : Z; f_nwname : Z;
  f_wname : list cptr; f_nwqid : Z; f_wqid : list Qid; f_offset : Z; f_count : Z;
  f_data : cptr; f_nstat : Z; f_stat : cptr; f_unixfd : Z; f_errornum : Z;
  f_uidnum : Z; f_extension : cptr }.

Definition qid0 : Qid := mkQid 0 0 0.
Definition dir0 : Dir := mkDir 0 0 qid0 0 0 0 0 None None None None 0 0 0 None.

(** A zeroed [Fcall], as [memset] leaves it. *)
Definition fcall0 : Fcall :=
  mkFcall 0 0 0 0 None 0 None qid0 0 qid0 0 None None 0 None 0 0 0
    (replicate 16 None) 0 (replicate 16 qid0) 0 0 None 0 None 0 0 0 None.

(** ** Fetching and placing little-endian integers *)

Definition GBIT8 (m : bytes) (p : Z) : option Z :=
  match load m p 1 with Some [b0] => Some b0 | _ => None end.

Definition GBIT16 (m : bytes) (p : Z) : option Z :=
  match load m p 2 with
  | Some [b0; b1] => Some (b0 .| (b1 .<< 8))
  | _ => None
  end.

Definition GBIT32 (m : bytes) (p : Z) : option Z :=
  match load m p 4 with
  | Some [b0; b1; b2; b3] =>
      Some (u32 (b0 .| (b1 .<< 8) .| (b2 .<< 16) .| (b3 .<< 24)))
  | _ => None
  end.

(** The high half is an [int] widened to [vlong]: the result is signed. *)
Definition GBIT64 (m : bytes) (p : Z) : option Z :=
  match load m p 8 with
  | Some [b0; b1; b2; b3; b4; b5; b6; b7] =>
      Some (u32 (b0 .| (b1 .<< 8) .| (b2 .<< 16) .| (b3 .<< 24))
            .| (s32 (b4 .| (b5 .<< 8) .| (b6 .<< 16) .| (b7 .<< 24)) .<< 32))
  | _ => None
  end.

Definition PBIT8 (v : Z) : bytes := [u8 v].
Definition PBIT16 (v : Z) : bytes := [u8 v; u8 (v .>> 8)].
Definition PBIT32 (v : Z) : bytes := [u8 v; u8 (v .>> 8); u8 (v .>> 16); u8 (v .>> 24)].
Definition PBIT64 (v : Z) : bytes :=
  [u8 v; u8 (v .>> 8); u8 (v .>> 16); u8 (v .>> 24);
   u8 (v .>> 32); u8 (v .>> 40); u8 (v .>> 48); u8 (v .>> 56)].

#[global] Arguments PBIT8 : simpl never.
#[global] Arguments PBIT16 : simpl never.
#[global] Arguments PBIT32 : simpl never.
#[global] Arguments PBIT64 : simpl never.

(** ** Lemmas *)

(** *** Message numbers *)

Lemma mtype_of_num t : mtype_of (mtype_num t) = Some t.
Proof. by destruct t. Qed.

Lemma mtype_of_inv z t : mtype_of z = Some t -> z = mtype_num t.
Proof.
  unfold mtype_of. destruct (list_find _ _) as [[i t']|] eqn:E; [|done].
  intros [= <-]. apply list_find_Some in E. destruct E as (? & ? & _). congruence.
Qed.

(** *** Strings *)

Lemma c_str_no_nul s : Forall (fun b => b <> 0) (c_str s).
Proof. induction s as [|b s IH]; simpl; [done|]. bcase; [done|]. by constructor. Qed.

Lemma c_str_id s : Forall (fun b => b <> 0) s -> c_str s = s.
Proof. induction 1 as [|b s Hb _ IH]; simpl; [done|]. bcase; [lia|]. by rewrite IH. Qed.

Lemma c_str_idemp s : c_str (c_str s) = c_str s.
Proof. apply c_str_id, c_str_no_nul. Qed.

Lemma c_str_bytes s : is_bytes s -> is_bytes (c_str s).
Proof. induction 1; simpl; [done|]. bcase; [done|]. by constructor. Qed.

Lemma c_str_length s : (length (c_str s) <= length s)%nat.
Proof. induction s as [|b s IH]; simpl; [done|]. bcase; simpl; lia. Qed.

(** *** Bytes of integers *)

Lemma PBIT8_bytes v : is_bytes (PBIT8 v).
Proof. repeat constructor; by apply wrap_range. Qed.
Lemma PBIT16_bytes v : is_bytes (PBIT16 v).
Proof. repeat constructor; by apply wrap_range. Qed.
Lemma PBIT32_bytes v : is_bytes (PBIT32 v).
Proof. repeat constructor; by apply wrap_range. Qed.
Lemma PBIT64_bytes v : is_bytes (PBIT64 v).
Proof. repeat constructor; by apply wrap_range. Qed.
#[export] Hint Resolve PBIT8_bytes PBIT16_bytes PBIT32_bytes PBIT64_bytes : c_hints.

Lemma PBIT8_length v : length (PBIT8 v) = 1%nat.
Proof. done. Qed.
Lemma PBIT16_length v : length (PBIT16 v) = 2%nat.
Proof. done. Qed.
Lemma PBIT32_length v : length (PBIT32 v) = 4%nat.
Proof. done. Qed.
Lemma PBIT64_length v : length (PBIT64 v) = 8%nat.
Proof. done. Qed.
#[export] Hint Rewrite PBIT8_length PBIT16_length PBIT32_length PBIT64_length @length_app
  : c_length.

(** The value of four bytes in a [u32int], and of the macros in terms of sums. *)
Lemma lor4_sum b0 b1 b2 b3 :
  in_u 8 b0 -> in_u 8 b1 -> in_u 8 b2 ->
  b0 .| (b1 .<< 8) .| (b2 .<< 16) .| (b3 .<< 24)
  = b0 + b1 * 2 ^ 8 + b2 * 2 ^ 16 + b3 * 2 ^ 24.
Proof.
  intros. rewrite (lor_shiftl_add b0 b1 8) by (done || lia).
  rewrite (lor_shiftl_add (_ + _) b2 16) by (lia || range).
  by rewrite (lor_shiftl_add (_ + _) b3 24) by (lia || range).
Qed.

Lemma u32_lor4_sum b0 b1 b2 b3 :
  in_u 8 b0 -> in_u 8 b1 -> in_u 8 b2 -> in_u 8 b3 ->
  u32 (b0 .| (b1 .<< 8) .| (b2 .<< 16) .| (b3 .<< 24))
  = b0 + b1 * 2 ^ 8 + b2 * 2 ^ 16 + b3 * 2 ^ 24.
Proof. intros. rewrite lor4_sum by done. apply wrap_small. range. Qed.

Lemma u8_shiftr v k : 0 <= k -> u8 (v .>> k) = (v / 2 ^ k) mod 256.
Proof. intros. unfold wrap. by rewrite shiftr_div. Qed.

Lemma PBIT16_sum v : u8 v + u8 (v .>> 8) * 2 ^ 8 = u16 v.
Proof.
  rewrite u8_shiftr by lia. unfold wrap. divlia.
Qed.

Lemma PBIT32_sum v :
  u8 v + u8 (v .>> 8) * 2 ^ 8 + u8 (v .>> 16) * 2 ^ 16 + u8 (v .>> 24) * 2 ^ 24 = u32 v.
Proof.
  rewrite !u8_shiftr by lia. unfold wrap. divlia.
Qed.

Lemma GBIT8_app pre post v p :
  p = len pre -> GBIT8 (pre ++ PBIT8 v ++ post) p = Some (u8 v).
Proof. intros ->. unfold GBIT8. by rewrite (load_app pre (PBIT8 v) post). Qed.

Lemma GBIT16_app pre post v p :
  p = len pre -> GBIT16 (pre ++ PBIT16 v ++ post) p = Some (u16 v).
Proof.
  intros ->. unfold GBIT16. rewrite (load_app pre (PBIT16 v) post) by done. cbv [PBIT16].
  by rewrite lor_shiftl_add, PBIT16_sum by (done || by apply wrap_range).
Qed.

Lemma GBIT32_app pre post v p :
  p = len pre -> GBIT32 (pre ++ PBIT32 v ++ post) p = Some (u32 v).
Proof.
  intros ->. unfold GBIT32. rewrite (load_app pre (PBIT32 v) post) by done. cbv [PBIT32].
  by rewrite u32_lor4_sum, PBIT32_sum by (by apply wrap_range).
Qed.

Lemma s32_lor4 v :
  s32 (u8 v .| (u8 (v .>> 8) .<< 8) .| (u8 (v .>> 16) .<< 16) .| (u8 (v .>> 24) .<< 24))
  = s32 v.
Proof.
  rewrite <- (swrap_wrap 32 v), <- PBIT32_sum by lia.
  by rewrite lor4_sum by (by apply wrap_range).
Qed.

(** A 64-bit object is its low half below its signed high half. *)
Lemma s64_halves v : s64 v = u32 v + s32 (v .>> 32) * 2 ^ 32.
Proof.
  rewrite shiftr_div by lia. unfold swrap, wrap. bcase; divlia.
Qed.

Lemma GBIT64_app pre post v p :
  p = len pre -> GBIT64 (pre ++ PBIT64 v ++ post) p = Some (s64 v).
Proof.
  intros ->. unfold GBIT64. rewrite (load_app pre (PBIT64 v) post) by done. cbv [PBIT64].
  rewrite u32_lor4_sum, PBIT32_sum by (by apply wrap_range).
  pose proof (s32_lor4 (v .>> 32)) as E. rewrite !Z.shiftr_shiftr in E by lia.
  change (32 + 8) with 40 in E. change (32 + 16) with 48 in E. change (32 + 24) with 56 in E.
  rewrite E.
  by rewrite lor_shiftl_add, <- s64_halves by (lia || by apply wrap_range).
Qed.

(** *** Reads inside the object succeed and give values of the macro's width *)

Lemma GBIT8_Some m p :
  is_bytes m -> 0 <= p -> p + 1 <= len m -> exists v, GBIT8 m p = Some v /\ in_u 8 v.
Proof.
  intros Hm ??. destruct (load_Some m p 1) as (bs & E & Hl); [lia..|].
  pose proof (load_Forall _ _ _ _ _ Hm E) as Hb. unfold GBIT8. rewrite E.
  destruct bs as [|b0 [|? ?]]; simpl in Hl; try lia.
  exists b0. split; [done|]. by inversion Hb.
Qed.

Lemma GBIT16_Some m p :
  is_bytes m -> 0 <= p -> p + 2 <= len m -> exists v, GBIT16 m p = Some v /\ in_u 16 v.
Proof.
  intros Hm ??. destruct (load_Some m p 2) as (bs & E & Hl); [lia..|].
  pose proof (load_Forall _ _ _ _ _ Hm E) as Hb. unfold GBIT16. rewrite E.
  destruct bs as [|b0 [|b1 [|? ?]]]; simpl in Hl; try lia.
  eexists. split; [done|]. decompose_Forall.
  rewrite lor_shiftl_add by (done || lia). range.
Qed.

Lemma GBIT32_Some m p :
  is_bytes m -> 0 <= p -> p + 4 <= len m -> exists v, GBIT32 m p = Some v /\ in_u 32 v.
Proof.
  intros Hm ??. destruct (load_Some m p 4) as (bs & E & Hl); [lia..|].
  unfold GBIT32. rewrite E.
  destruct bs as [|b0 [|b1 [|b2 [|b3 [|? ?]]]]]; simpl in Hl; try lia.
  eexists. split; [done|]. by apply wrap_range.
Qed.

Lemma GBIT64_Some m p :
  is_bytes m -> 0 <= p -> p + 8 <= len m -> exists v, GBIT64 m p = Some v /\ in_s 64 v.
Proof.
  intros Hm ??. destruct (load_Some m p 8) as (bs & E & Hl); [lia..|].
  unfold GBIT64. rewrite E.
  destruct bs as [|b0 [|b1 [|b2 [|b3 [|b4 [|b5 [|b6 [|b7 [|? ?]]]]]]]]]; simpl in Hl; try lia.
  eexists. split; [done|].
  rewrite lor_shiftl_add by (lia || by apply wrap_range).
  pose proof (wrap_range 32 (b0 .| (b1 .<< 8) .| (b2 .<< 16) .| (b3 .<< 24))).
  pose proof (swrap_range 32 (b4 .| (b5 .<< 8) .| (b6 .<< 16) .| (b7 .<< 24))).
  range.
Qed.
