(* ===== verification/Wire.v ===== *)
(** * The 9P wire format as a specification

    Messages as an inductive type with one constructor per message of section 9P of the
    manual, their encoding as bytes, and the message a C [Fcall] structure stands for.
    [ConvS2M.v] and [ConvM2S.v] are proved against this file. *)

From S2P Require Import Prelude Fcall.

Inductive msg :=
  | MTversion (msize : Z) (version : bytes)
  | MRversion (msize : Z) (version : bytes)
  | MTauth (afid : Z) (uname aname : bytes)
  | MRauth (aqid : Qid)
  | MTattach (fid afid : Z) (uname aname : bytes)
  | MRattach (qid : Qid)
  | MRerror (ename : bytes)
  | MTflush (oldtag : Z)
  | MRflush
  | MTwalk (fid newfid : Z) (wname : list bytes)
  | MRwalk (wqid : list Qid)
  | MTopen (fid mode : Z)
  | MRopen (qid : Qid) (iounit : Z)
  | MTopenfd (fid mode : Z)
  | MRopenfd (qid : Qid) (iounit unixfd : Z)
  | MTcreate (fid : Z) (name : bytes) (perm mode : Z)
  | MRcreate (qid : Qid) (iounit : Z)
  | MTread (fid offset count : Z)
  | MRread (data : bytes)
  | MTwrite (fid offset : Z) (data : bytes)
  | MRwrite (count : Z)
  | MTclunk (fid : Z)
  | MRclunk
  | MTremove (fid : Z)
  | MRremove
  | MTstat (fid : Z)
  | MRstat (stat : bytes)
  | MTwstat (fid : Z) (stat : bytes)
  | MRwstat.

Definition msg_type (m : msg) : mtype :=
  match m with
  | MTversion _ _ => Tversion | MRversion _ _ => Rversion
  | MTauth _ _ _ => Tauth | MRauth _ => Rauth
  | MTattach _ _ _ _ => Tattach | MRattach _ => Rattach
  | MRerror _ => Rerror
  | MTflush _ => Tflush | MRflush => Rflush
  | MTwalk _ _ _ => Twalk | MRwalk _ => Rwalk
  | MTopen _ _ => Topen | MRopen _ _ => Ropen
  | MTopenfd _ _ => Topenfd | MRopenfd _ _ _ => Ropenfd
  | MTcreate _ _ _ _ => Tcreate | MRcreate _ _ => Rcreate
  | MTread _ _ _ => Tread | MRread _ => Rread
  | MTwrite _ _ _ => Twrite | MRwrite _ => Rwrite
  | MTclunk _ => Tclunk | MRclunk => Rclunk
  | MTremove _ => Tremove | MRremove => Rremove
  | MTstat _ => Tstat | MRstat _ => Rstat
  | MTwstat _ _ => Twstat | MRwstat => Rwstat
  end.

(** ** Encoding *)

Definition estring (s : bytes) : bytes := PBIT16 (len s) ++ s.
Definition eqid (q : Qid) : bytes :=
  PBIT8 (q_type q) ++ PBIT32 (q_vers q) ++ PBIT64 (q_path q).

Definition encode_body (m : msg) : bytes :=
  match m with
  | MTversion n v | MRversion n v => PBIT32 n ++ estring v
  | MTauth a u n => PBIT32 a ++ estring u ++ estring n
  | MRauth q | MRattach q => eqid q
  | MTattach f a u n => PBIT32 f ++ PBIT32 a ++ estring u ++ estring n
  | MRerror e => estring e
  | MTflush t => PBIT16 t
  | MTwalk f n ws =>
      PBIT32 f ++ PBIT32 n ++ PBIT16 (len ws) ++ concat (map estring ws)
  | MRwalk qs => PBIT16 (len qs) ++ concat (map eqid qs)
  | MTopen f m | MTopenfd f m => PBIT32 f ++ PBIT8 m
  | MRopen q n | MRcreate q n => eqid q ++ PBIT32 n
  | MRopenfd q n u => eqid q ++ PBIT32 n ++ PBIT32 u
  | MTcreate f n p m => PBIT32 f ++ estring n ++ PBIT32 p ++ PBIT8 m
  | MTread f o c => PBIT32 f ++ PBIT64 o ++ PBIT32 c
  | MRread d => PBIT32 (len d) ++ d
  | MTwrite f o d => PBIT32 f ++ PBIT64 o ++ PBIT32 (len d) ++ d
  | MRwrite c => PBIT32 c
  | MTclunk f | MTremove f | MTstat f => PBIT32 f
  | MRstat s => PBIT16 (len s) ++ s
  | MTwstat f s => PBIT32 f ++ PBIT16 (len s) ++ s
  | MRflush | MRclunk | MRremove | MRwstat => []
  end.

(** size[4] type[1] tag[2] body *)
Definition msg_size (m : msg) : Z := BIT32SZ + BIT8SZ + BIT16SZ + len (encode_body m).
Definition encode (tag : Z) (m : msg) : bytes :=
  PBIT32 (msg_size m) ++ PBIT8 (mtype_num (msg_type m)) ++ PBIT16 tag ++ encode_body m.

(** ** The messages that can be sent *)

(** A string of a message: bytes without NUL, its length fits in its count. *)
Definition wf_string (s : bytes) : Prop :=
  is_bytes s /\ Forall (fun b => b <> 0) s /\ in_u 16 (len s).
Definition wf_qid (q : Qid) : Prop :=
  in_u 64 (q_path q) /\ in_u 32 (q_vers q) /\ in_u 8 (q_type q).

Definition wf_msg (m : msg) : Prop :=
  in_u 32 (msg_size m) /\
  match m with
  | MTversion n v | MRversion n v => in_u 32 n /\ wf_string v
  | MTauth a u n => in_u 32 a /\ wf_string u /\ wf_string n
  | MRauth q | MRattach q => wf_qid q
  | MTattach f a u n => in_u 32 f /\ in_u 32 a /\ wf_string u /\ wf_string n
  | MRerror e => wf_string e
  | MTflush t => in_u 16 t
  | MTwalk f n ws => in_u 32 f /\ in_u 32 n /\ Forall wf_string ws /\ len ws <= MAXWELEM
  | MRwalk qs => Forall wf_qid qs /\ len qs <= MAXWELEM
  | MTopen f m | MTopenfd f m => in_u 32 f /\ in_u 8 m
  | MRopen q n | MRcreate q n => wf_qid q /\ in_u 32 n
  | MRopenfd q n u => wf_qid q /\ in_u 32 n /\ in_s 32 u
  | MTcreate f n p m => in_u 32 f /\ wf_string n /\ in_u 32 p /\ in_u 8 m
  | MTread f o c => in_u 32 f /\ in_s 64 o /\ in_u 32 c
  | MRread d => is_bytes d
  | MTwrite f o d => in_u 32 f /\ in_s 64 o /\ is_bytes d
  | MRwrite c => in_u 32 c
  | MTclunk f | MTremove f | MTstat f => in_u 32 f
  | MRstat s => is_bytes s /\ in_u 16 (len s)
  | MTwstat f s => in_u 32 f /\ is_bytes s /\ in_u 16 (len s)
  | MRflush | MRclunk | MRremove | MRwstat => True
  end.

#[global] Instance wf_string_dec s : Decision (wf_string s).
Proof. unfold wf_string. apply _. Defined.
#[global] Instance wf_qid_dec q : Decision (wf_qid q).
Proof. unfold wf_qid. apply _. Defined.
#[global] Instance wf_msg_dec m : Decision (wf_msg m).
Proof. unfold wf_msg. destruct m; apply _. Defined.

(** ** The message of an [Fcall] *)

(** The first [n] elements of the memory a pointer points at. *)
Definition counted (s : cptr) (n : Z) : option bytes :=
  if n =? 0 then Some [] else s ≫= fun s => load s 0 n.

(** The message the fields of [f] describe: [None] when the type is none of a message, when
    a count exceeds its array or the memory it counts. *)
Definition msg_of (f : Fcall) : option msg :=
  match mtype_of (f_type f) with
  | None | Some Terror => None
  | Some Tversion => Some (MTversion (f_msize f) (str_bytes (f_version f)))
  | Some Rversion => Some (MRversion (f_msize f) (str_bytes (f_version f)))
  | Some Tauth =>
      Some (MTauth (f_afid f) (str_bytes (f_uname f)) (str_bytes (f_aname f)))
  | Some Rauth => Some (MRauth (f_aqid f))
  | Some Tattach =>
      Some (MTattach (f_fid f) (f_afid f) (str_bytes (f_uname f)) (str_bytes (f_aname f)))
  | Some Rattach => Some (MRattach (f_qid f))
  | Some Rerror => Some (MRerror (str_bytes (f_ename f)))
  | Some Tflush => Some (MTflush (f_oldtag f))
  | Some Rflush => Some MRflush
  | Some Twalk =>
      if MAXWELEM <? f_nwname f then None
      else ws ← load (f_wname f) 0 (f_nwname f);
           Some (MTwalk (f_fid f) (f_newfid f) (map str_bytes ws))
  | Some Rwalk =>
      if MAXWELEM <? f_nwqid f then None
      else qs ← load (f_wqid f) 0 (f_nwqid f); Some (MRwalk qs)
  | Some Topen => Some (MTopen (f_fid f) (f_mode f))
  | Some Ropen => Some (MRopen (f_qid f) (f_iounit f))
  | Some Topenfd => Some (MTopenfd (f_fid f) (f_mode f))
  | Some Ropenfd => Some (MRopenfd (f_qid f) (f_iounit f) (f_unixfd f))
  | Some Tcreate =>
      Some (MTcreate (f_fid f) (str_bytes (f_name f)) (f_perm f) (f_mode f))
  | Some Rcreate => Some (MRcreate (f_qid f) (f_iounit f))
  | Some Tread => Some (MTread (f_fid f) (f_offset f) (f_count f))
  | Some Rread => d ← counted (f_data f) (f_count f); Some (MRread d)
  | Some Twrite =>
      d ← counted (f_data f) (f_count f); Some (MTwrite (f_fid f) (f_offset f) d)
  | Some Rwrite => Some (MRwrite (f_count f))
  | Some Tclunk => Some (MTclunk (f_fid f))
  | Some Rclunk => Some MRclunk
  | Some Tremove => Some (MTremove (f_fid f))
  | Some Rremove => Some MRremove
  | Some Tstat => Some (MTstat (f_fid f))
  | Some Rstat => s ← counted (f_stat f) (f_nstat f); Some (MRstat s)
  | Some Twstat => s ← counted (f_stat f) (f_nstat f); Some (MTwstat (f_fid f) s)
  | Some Rwstat => Some MRwstat
  end.

#[global] Arguments estring : simpl never.
#[global] Arguments eqid : simpl never.

(** ** Lemmas *)

Lemma len_encode tag m : len (encode tag m) = msg_size m.
Proof.
  unfold encode, msg_size. rewrite !length_app.
  cbv [PBIT8 PBIT16 PBIT32 BIT32SZ BIT8SZ BIT16SZ]. cbn [length]. lia.
Qed.

Lemma counted_len s n d : counted s n = Some d -> len d = n.
Proof.
  unfold counted. bcase; [intros [= <-]; done|].
  destruct s; simpl; [|done]. intros H. by apply load_inv in H as (_ & _ & _ & ? & _).
Qed.

Lemma msg_of_type f m : msg_of f = Some m -> mtype_of (f_type f) = Some (msg_type m).
Proof.
  unfold msg_of. destruct (mtype_of (f_type f)) as [t|]; [|done].
  destruct t; repeat case_match; intros; simplify_option_eq; done.
Qed.

Lemma estring_len s : len (estring s) = BIT16SZ + len s.
Proof. unfold estring. rewrite length_app. cbv [PBIT16 BIT16SZ]. cbn [length]. lia. Qed.

Lemma eqid_len q : len (eqid q) = QIDSZ.
Proof. done. Qed.

Lemma concat_eqid_len qs : len (concat (map eqid qs)) = len qs * QIDSZ.
Proof.
  induction qs as [|q qs IH]; [done|]. cbn [map concat]. rewrite length_app.
  rewrite Nat2Z.inj_add, IH, eqid_len. simpl. lia.
Qed.
