(* ===== verification/ConvS2M.v ===== *)
(** * Packing a 9P message: [lib9/convS2M.c]

    [sizeS2M] and [convS2M] with their helpers, written as programs on a buffer and a write
    pointer in which every access outside of the buffer is a fault, the wire format they
    implement as a list of bytes, and the theorems that relate the two. *)

From S2P Require Import Prelude Fcall Wire.

(** ** Programs that write through a pointer *)

(** What a piece of the function leaves: the memory with the next value of the pointer, or
    the memory at a [return 0]. *)
Inductive wres := Next (m : bytes) (p : Z) | Ret (m : bytes).

(** [None] is a memory fault. *)
Abbreviation writer := (bytes -> Z -> option wres).

Definition wskip : writer := fun m p => Some (Next m p).
Definition wret : writer := fun m _ => Some (Ret m).
Definition wfault : writer := fun _ _ => None.

Definition wseq (a b : writer) : writer := fun m p =>
  match a m p with
  | Some (Next m' p') => b m' p'
  | r => r
  end.
Notation "a ;+ b" := (wseq a b) (at level 100, right associativity) : c_scope.

(** Place [bs] at the pointer and advance it. *)
Definition wr (bs : bytes) : writer := fun m p =>
  m' ← store m p bs; Some (Next m' (p + len bs)).

(** [memmove(p, src, n); p += n]; a zero count touches nothing. *)
Definition wmemmove (src : cptr) (n : Z) : writer :=
  if n =? 0 then wskip
  else match src ≫= fun s => load s 0 n with Some bs => wr bs | None => wfault end.

(** ** The functions of the file *)

Definition pstring (s : cptr) : writer :=
  match s with
  | None => wr (PBIT16 0)
  | Some s => wr (PBIT16 (strlen s)) ;+ wr (c_str s)
  end.

Definition pqid (q : Qid) : writer :=
  wr (PBIT8 (q_type q)) ;+ wr (PBIT32 (q_vers q)) ;+ wr (PBIT64 (q_path q)).

Definition stringsz (s : cptr) : Z :=
  match s with
  | None => BIT16SZ
  | Some s => u32 (BIT16SZ + strlen s)
  end.

(** [for(i=0; i<n; i++) n += stringsz(ws[i])]; the array has no element past its end. *)
Fixpoint sznames (ws : list cptr) (n : nat) : option Z :=
  match n, ws with
  | O, _ => Some 0
  | S n, w :: ws => r ← sznames ws n; Some (stringsz w + r)
  | S _, [] => None
  end.

Definition sizeS2M (f : Fcall) : option Z :=
  let n := BIT32SZ + BIT8SZ + BIT16SZ in
  match mtype_of (f_type f) with
  | None | Some Terror => Some 0
  | Some Tversion => Some (u32 (n + BIT32SZ + stringsz (f_version f)))
  | Some Tflush => Some (u32 (n + BIT16SZ))
  | Some Tauth =>
      Some (u32 (n + BIT32SZ + stringsz (f_uname f) + stringsz (f_aname f)))
  | Some Tattach =>
      Some (u32 (n + BIT32SZ + BIT32SZ + stringsz (f_uname f) + stringsz (f_aname f)))
  | Some Twalk =>
      k ← sznames (f_wname f) (Z.to_nat (f_nwname f));
      Some (u32 (n + BIT32SZ + BIT32SZ + BIT16SZ + k))
  | Some Topen | Some Topenfd => Some (u32 (n + BIT32SZ + BIT8SZ))
  | Some Tcreate =>
      Some (u32 (n + BIT32SZ + stringsz (f_name f) + BIT32SZ + BIT8SZ))
  | Some Tread => Some (u32 (n + BIT32SZ + BIT64SZ + BIT32SZ))
  | Some Twrite => Some (u32 (n + BIT32SZ + BIT64SZ + BIT32SZ + f_count f))
  | Some Tclunk | Some Tremove => Some (u32 (n + BIT32SZ))
  | Some Tstat => Some (u32 (n + BIT32SZ))
  | Some Twstat => Some (u32 (n + BIT32SZ + BIT16SZ + f_nstat f))
  | Some Rversion => Some (u32 (n + BIT32SZ + stringsz (f_version f)))
  | Some Rerror => Some (u32 (n + stringsz (f_ename f)))
  | Some Rflush => Some n
  | Some Rauth => Some (u32 (n + QIDSZ))
  | Some Rattach => Some (u32 (n + QIDSZ))
  | Some Rwalk => Some (u32 (n + BIT16SZ + f_nwqid f * QIDSZ))
  | Some Ropen | Some Rcreate => Some (u32 (n + QIDSZ + BIT32SZ))
  | Some Ropenfd => Some (u32 (n + QIDSZ + BIT32SZ + BIT32SZ))
  | Some Rread => Some (u32 (n + BIT32SZ + f_count f))
  | Some Rwrite => Some (u32 (n + BIT32SZ))
  | Some Rclunk | Some Rremove => Some n
  | Some Rstat => Some (u32 (n + BIT16SZ + f_nstat f))
  | Some Rwstat => Some n
  end.

(** [for(i=0; i<n; i++) p = pstring(p, ws[i])]. *)
Fixpoint pstrings (ws : list cptr) (n : nat) : writer :=
  match n, ws with
  | O, _ => wskip
  | S n, w :: ws => pstring w ;+ pstrings ws n
  | S _, [] => wfault
  end.

Fixpoint pqids (qs : list Qid) (n : nat) : writer :=
  match n, qs with
  | O, _ => wskip
  | S n, q :: qs => pqid q ;+ pqids qs n
  | S _, [] => wfault
  end.

(** The cases of [convS2M]'s switch for the messages a client sends. *)
Definition convS2M_T (f : Fcall) (t : mtype) : writer :=
  match t with
  | Tversion => wr (PBIT32 (f_msize f)) ;+ pstring (f_version f)
  | Tflush => wr (PBIT16 (f_oldtag f))
  | Tauth => wr (PBIT32 (f_afid f)) ;+ pstring (f_uname f) ;+ pstring (f_aname f)
  | Tattach =>
      wr (PBIT32 (f_fid f)) ;+ wr (PBIT32 (f_afid f)) ;+
      pstring (f_uname f) ;+ pstring (f_aname f)
  | Twalk =>
      wr (PBIT32 (f_fid f)) ;+ wr (PBIT32 (f_newfid f)) ;+ wr (PBIT16 (f_nwname f)) ;+
      if MAXWELEM <? f_nwname f then wret
      else pstrings (f_wname f) (Z.to_nat (f_nwname f))
  | Topen | Topenfd => wr (PBIT32 (f_fid f)) ;+ wr (PBIT8 (f_mode f))
  | Tcreate =>
      wr (PBIT32 (f_fid f)) ;+ pstring (f_name f) ;+
      wr (PBIT32 (f_perm f)) ;+ wr (PBIT8 (f_mode f))
  | Tread =>
      wr (PBIT32 (f_fid f)) ;+ wr (PBIT64 (f_offset f)) ;+ wr (PBIT32 (f_count f))
  | Twrite =>
      wr (PBIT32 (f_fid f)) ;+ wr (PBIT64 (f_offset f)) ;+ wr (PBIT32 (f_count f)) ;+
      wmemmove (f_data f) (f_count f)
  | Tclunk | Tremove => wr (PBIT32 (f_fid f))
  | Tstat => wr (PBIT32 (f_fid f))
  | Twstat =>
      wr (PBIT32 (f_fid f)) ;+ wr (PBIT16 (f_nstat f)) ;+ wmemmove (f_stat f) (f_nstat f)
  | _ => wret
  end.

(** The cases of [convS2M]'s switch for the messages a server sends. *)
Definition convS2M_R (f : Fcall) (t : mtype) : writer :=
  match t with
  | Rversion => wr (PBIT32 (f_msize f)) ;+ pstring (f_version f)
  | Rerror => pstring (f_ename f)
  | Rflush => wskip
  | Rauth => pqid (f_aqid f)
  | Rattach => pqid (f_qid f)
  | Rwalk =>
      wr (PBIT16 (f_nwqid f)) ;+
      if MAXWELEM <? f_nwqid f then wret
      else pqids (f_wqid f) (Z.to_nat (f_nwqid f))
  | Ropen | Rcreate | Ropenfd =>
      pqid (f_qid f) ;+ wr (PBIT32 (f_iounit f)) ;+
      if bool_decide (t = Ropenfd) then wr (PBIT32 (f_unixfd f)) else wskip
  | Rread => wr (PBIT32 (f_count f)) ;+ wmemmove (f_data f) (f_count f)
  | Rwrite => wr (PBIT32 (f_count f))
  | Rclunk | Rremove => wskip
  | Rstat => wr (PBIT16 (f_nstat f)) ;+ wmemmove (f_stat f) (f_nstat f)
  | Rwstat => wskip
  | _ => wret
  end.

(** The request types of the switch; the other cases are the replies. *)
Definition is_T (t : mtype) : bool := Z.even (mtype_num t).

(** The whole function: the number it returns and the buffer it leaves. *)
Definition convS2M (f : Fcall) (ap : bytes) (nap : Z) : option (Z * bytes) :=
  size ← sizeS2M f;
  if size =? 0 then Some (0, ap)
  else if nap <? size then Some (0, ap)
  else
    r ← (wr (PBIT32 size) ;+ wr (PBIT8 (f_type f)) ;+ wr (PBIT16 (f_tag f)) ;+
         match mtype_of (f_type f) with
         | Some t => if is_T t then convS2M_T f t else convS2M_R f t
         | None => wret
         end)%C ap 0;
    match r with
    | Ret m => Some (0, m)
    | Next m p => if size =? p then Some (size, m) else Some (0, m)
    end.

(** ** What a writer writes *)

(** [w] writes exactly [bs] at the pointer, over any memory that has room for it. *)
Definition writes (w : writer) (bs : bytes) : Prop :=
  forall pre old post p, p = len pre -> length old = length bs ->
  w (pre ++ old ++ post) p = Some (Next (pre ++ bs ++ post) (p + len bs)).

Lemma writes_skip : writes wskip [].
Proof.
  intros pre old post p -> H. apply nil_length_inv in H as ->. unfold wskip.
  do 2 f_equal. simpl. lia.
Qed.

Lemma writes_wr bs : writes (wr bs) bs.
Proof. intros pre old post p -> H. unfold wr. by rewrite (store_app pre old bs post). Qed.

Lemma writes_seq a b x y : writes a x -> writes b y -> writes (a ;+ b) (x ++ y).
Proof.
  intros Ha Hb pre old post p -> H. rewrite length_app in H. unfold wseq.
  rewrite <- (take_drop (length x) old), <- app_assoc.
  rewrite (Ha pre) by (done || rewrite length_take; lia).
  rewrite (app_assoc pre x). rewrite (Hb (pre ++ x)).
  - rewrite <- !app_assoc. do 2 f_equal. rewrite !length_app. lia.
  - rewrite length_app. lia.
  - rewrite length_drop. lia.
Qed.

Lemma writes_memmove s n d : counted s n = Some d -> writes (wmemmove s n) d.
Proof.
  unfold counted, wmemmove. bcase.
  - intros [= <-]. apply writes_skip.
  - intros ->. apply writes_wr.
Qed.

Lemma writes_pstring s : writes (pstring s) (estring (str_bytes s)).
Proof.
  destruct s as [s|]; simpl; [|apply writes_wr].
  apply writes_seq; apply writes_wr.
Qed.

Lemma writes_pqid q : writes (pqid q) (eqid q).
Proof. apply writes_seq; [apply writes_wr|]. apply writes_seq; apply writes_wr. Qed.

#[export] Hint Resolve writes_skip writes_wr writes_seq writes_memmove writes_pstring
  writes_pqid : c_hints.

Lemma writes_pstrings ws n ws' :
  load ws 0 (Z.of_nat n) = Some ws' ->
  writes (pstrings ws n) (concat (map estring (map str_bytes ws'))).
Proof.
  unfold load. destruct (_ && _) eqn:E; [|done]. intros [= <-].
  rewrite !andb_true_iff, !Z.leb_le in E. assert (n <= length ws)%nat as H by lia. clear E.
  rewrite Nat2Z.id, drop_0. revert n H.
  induction ws as [|w ws IH]; intros [|n] H; cbn [length] in H; try lia;
    cbn [pstrings pqids map concat take firstn]; auto with c_hints.
  apply writes_seq; [auto with c_hints|]. apply IH. lia.
Qed.

Lemma writes_pqids qs n qs' :
  load qs 0 (Z.of_nat n) = Some qs' -> writes (pqids qs n) (concat (map eqid qs')).
Proof.
  unfold load. destruct (_ && _) eqn:E; [|done]. intros [= <-].
  rewrite !andb_true_iff, !Z.leb_le in E. assert (n <= length qs)%nat as H by lia. clear E.
  rewrite Nat2Z.id, drop_0. revert n H.
  induction qs as [|w qs IH]; intros [|n] H; cbn [length] in H; try lia;
    cbn [pstrings pqids map concat take firstn]; auto with c_hints.
  apply writes_seq; [auto with c_hints|]. apply IH. lia.
Qed.

Lemma load_nonneg {A} (m : list A) p n bs : load m p n = Some bs -> 0 <= n.
Proof. intros H. by apply load_inv in H as (_ & ? & _). Qed.

Lemma writes_seq_skip a x : writes a x -> writes (a ;+ wskip) x.
Proof. intros Ha. rewrite <- (app_nil_r x). by apply writes_seq, writes_skip. Qed.
#[export] Hint Resolve writes_seq_skip : c_hints.

(** The switch writes the body of the message. *)
Lemma writes_body f m :
  msg_of f = Some m ->
  writes (if is_T (msg_type m) then convS2M_T f (msg_type m) else convS2M_R f (msg_type m))
    (encode_body m).
Proof.
  unfold msg_of. destruct (mtype_of (f_type f)) as [t|]; [|done].
  destruct t; intros H; inv_opt H;
    cbn [msg_type is_T mtype_num Z.even convS2M_T convS2M_R encode_body];
    repeat case_bool_decide; try done;
    repeat match goal with
    | H : counted _ _ = Some ?l |- _ => rewrite (counted_len _ _ _ H); apply writes_memmove in H
    | H : (MAXWELEM <? _) = false |- _ => rewrite H; clear H
    | H : load ?ws 0 ?n = Some ?l |- _ =>
        pose proof (load_nonneg _ _ _ _ H); rewrite ?length_map;
        replace (len l) with n by (apply load_inv in H; lia);
        rewrite <- (Z2Nat.id n) in H by done; revert H
    end;
    auto 8 using writes_pstrings, writes_pqids with c_hints.
Qed.

(** ** Sizes *)

Lemma stringsz_len s :
  in_u 32 (len (estring (str_bytes s))) -> stringsz s = len (estring (str_bytes s)).
Proof.
  rewrite estring_len. destruct s as [s|]; [|done]. intros. by apply wrap_small.
Qed.

Lemma sznames_len ws n ws' :
  load ws 0 (Z.of_nat n) = Some ws' ->
  in_u 32 (len (concat (map estring (map str_bytes ws')))) ->
  sznames ws n = Some (len (concat (map estring (map str_bytes ws')))).
Proof.
  unfold load. destruct (_ && _) eqn:E; [|done]. intros [= <-].
  rewrite !andb_true_iff, !Z.leb_le in E. assert (n <= length ws)%nat as H by lia. clear E.
  rewrite Nat2Z.id, drop_0. revert n H.
  induction ws as [|w ws IH]; intros [|n] H Hb; cbn [length] in H; try lia;
    cbn [sznames map concat take firstn] in *; try done.
  rewrite length_app in *. rewrite IH by (lia || range). cbn.
  rewrite stringsz_len by range. f_equal. lia.
Qed.

Ltac sizes :=
  rewrite ?length_app, ?Nat2Z.inj_add, ?estring_len, ?concat_eqid_len in *;
  cbv [PBIT8 PBIT16 PBIT32 PBIT64 eqid BIT8SZ BIT16SZ BIT32SZ BIT64SZ QIDSZ] in *;
  cbn [length app] in *.

(** [sizeS2M] is the length of the message, when that fits in its [uint]. *)
Lemma sizeS2M_msg f m :
  msg_of f = Some m -> in_u 32 (msg_size m) -> sizeS2M f = Some (msg_size m).
Proof.
  unfold msg_of, sizeS2M, msg_size. destruct (mtype_of (f_type f)) as [t|]; [|done].
  destruct t; intros H; inv_opt H; cbn [encode_body]; intros Hb.
  all: repeat match goal with
    | H : counted _ _ = Some ?l |- _ => rewrite <- (counted_len _ _ _ H); clear H
    | |- context [stringsz ?s] => rewrite (stringsz_len s) by (sizes; range)
    end.
  all: try solve [f_equal; rewrite wrap_small; sizes; range].
  - match goal with H : load _ _ _ = Some _ |- _ =>
      pose proof (load_nonneg _ _ _ _ H); rewrite <- (Z2Nat.id (f_nwname f)) in H by done;
      rewrite (sznames_len _ _ _ H) by (sizes; range) end.
    cbn. f_equal. rewrite wrap_small; sizes; range.
  - match goal with H : load _ _ _ = Some _ |- _ => apply load_inv in H end.
    f_equal. rewrite wrap_small; sizes; range.
Qed.

(** ** Properties *)

(** [convS2M] on a message that fits: the wire format at the start of the buffer, the rest
    of the buffer untouched, the size returned, no access outside of the buffer. *)
Lemma convS2M_run f m ap nap :
  msg_of f = Some m -> in_u 32 (msg_size m) ->
  msg_size m <= nap -> nap <= len ap ->
  convS2M f ap nap
  = Some (msg_size m, encode (f_tag f) m ++ drop (Z.to_nat (msg_size m)) ap).
Proof.
  intros Hm Hs Hn Hap. unfold convS2M. rewrite (sizeS2M_msg _ _ Hm Hs). cbn [mbind option_bind].
  rewrite (msg_of_type _ _ Hm). rewrite (mtype_of_inv _ _ (msg_of_type _ _ Hm)).
  assert (0 < msg_size m) by (unfold msg_size, BIT32SZ, BIT8SZ, BIT16SZ; lia).
  destruct (Z.eqb_spec (msg_size m) 0); [lia|]. destruct (Z.ltb_spec nap (msg_size m)); [lia|].
  assert (writes (wr (PBIT32 (msg_size m)) ;+ wr (PBIT8 (mtype_num (msg_type m))) ;+
    wr (PBIT16 (f_tag f)) ;+
    (if is_T (msg_type m) then convS2M_T f (msg_type m) else convS2M_R f (msg_type m)))
    (encode (f_tag f) m)) as W.
  { apply writes_seq; [apply writes_wr|]. apply writes_seq; [apply writes_wr|].
    apply writes_seq; [apply writes_wr|]. by apply writes_body. }
  specialize (W [] (take (Z.to_nat (msg_size m)) ap) (drop (Z.to_nat (msg_size m)) ap) 0 eq_refl).
  cbn [app] in W. rewrite take_drop in W. rewrite W.
  - cbn [mbind option_bind]. rewrite len_encode. by rewrite Z.eqb_refl.
  - rewrite length_take. apply Nat2Z.inj. rewrite len_encode. lia.
Qed.

Lemma convS2M_short f m ap nap :
  msg_of f = Some m -> in_u 32 (msg_size m) -> nap < msg_size m -> convS2M f ap nap = Some (0, ap).
Proof.
  intros Hm Hs Hn. unfold convS2M. rewrite (sizeS2M_msg _ _ Hm Hs). cbn [mbind option_bind].
  destruct (Z.eqb_spec (msg_size m) 0); [done|]. by destruct (Z.ltb_spec nap (msg_size m)); [|lia].
Qed.
