(* ===== verification/ConvM2S.v ===== *)
(** * Unpacking a 9P message: [lib9/convM2S.c]

    [convM2S] and its helpers as programs on a buffer, a read pointer and the [Fcall] being
    filled in. The strings of a message are moved down over their counts and terminated in
    place, so the buffer is part of the state. An access outside of the buffer is a fault. *)

From S2P Require Import Prelude Fcall Wire.

(** ** Programs that read through a pointer *)

(** The state after a piece of the function: it goes on, or it returns 0 ([return 0], or a
    nil pointer, which the test at the end of the function turns into [return 0]). *)
Inductive rres := RNext (m : bytes) (p : Z) (f : Fcall) | RStop (m : bytes) (f : Fcall).

(** [None] is a memory fault. *)
Abbreviation reader := (bytes -> Z -> Fcall -> option rres).

Definition rskip : reader := fun m p f => Some (RNext m p f).
Definition rstop : reader := fun m p f => Some (RStop m f).
Definition rset (g : Fcall -> Fcall) : reader := fun m p f => Some (RNext m p (g f)).

Definition rseq (a b : reader) : reader := fun m p f =>
  match a m p f with
  | Some (RNext m' p' f') => b m' p' f'
  | r => r
  end.
Notation "a ;> b" := (rseq a b) (at level 99, right associativity) : c_scope.

(** [x = GBITn(p); p += BITnSZ], the rest of the program taking [x]. *)
Definition rd (get : bytes -> Z -> option Z) (sz : Z) (k : Z -> reader) : reader :=
  fun m p f => v ← get m p; k v m (p + sz) f.
Abbreviation rd8 := (rd GBIT8 BIT8SZ).
Abbreviation rd16 := (rd GBIT16 BIT16SZ).
Abbreviation rd32 := (rd GBIT32 BIT32SZ).
Abbreviation rd64 := (rd GBIT64 BIT64SZ).

(** [f->field = GBITn(p); p += BITnSZ]. *)
Abbreviation fld8 u := (rd8 (fun v => rset (u v))).
Abbreviation fld16 u := (rd16 (fun v => rset (u v))).
Abbreviation fld32 u := (rd32 (fun v => rset (u v))).
Abbreviation fld64 u := (rd64 (fun v => rset (u v))).

Section unpack.
Context (ep : Z).

(** [if(p+n > ep) return 0]. *)
Definition need (n : Z) : reader := fun m p f =>
  if ep <? p + n then Some (RStop m f) else Some (RNext m p f).

(** [if(p+n > ep) return 0; field = p; p += n]. *)
Definition rblock (n : Z) (u : cptr -> Fcall -> Fcall) : reader := fun m p f =>
  if ep <? p + n then Some (RStop m f)
  else bs ← load m p n; Some (RNext m (p + n) (u (Some bs) f)).

Definition gstring (u : cptr -> Fcall -> Fcall) : reader := fun m p f =>
  if ep <? p + BIT16SZ then Some (RStop m f)
  else
    n ← GBIT16 m p;
    let p := p + (BIT16SZ - 1) in
    if ep <? p + n + 1 then Some (RStop m f)
    else
      s ← load m (p + 1) n;
      m1 ← store m p s;
      m2 ← store m1 (p + n) [0];
      Some (RNext m2 (p + (n + 1)) (u (Some s) f)).

Definition gqid (u : Qid -> Fcall -> Fcall) : reader := fun m p f =>
  if ep <? p + QIDSZ then Some (RStop m f)
  else
    (rd8 (fun type => rd32 (fun vers => rd64 (fun path =>
       rset (u (mkQid (u64 path) vers type)))))) m p f.

(** [r] stores to the element [i] of [wname] or [wqid], which have [MAXWELEM]: beyond them it is
    outside of the object. *)
Definition elem (i : nat) (r : reader) : reader := fun m p f =>
  if Z.of_nat i <? MAXWELEM then r m p f else None.

(** [for(i=0; i<n; i++) p = gstring(p, ep, &f->wname[i])], from index [i] on. *)
Fixpoint gstrings (i n : nat) : reader :=
  match n with
  | O => rskip
  | S n =>
      elem i (gstring (fun s f => f <| f_wname := <[i := s]> (f_wname f) |>)) ;> gstrings (S i) n
  end.

Fixpoint gqids (i n : nat) : reader :=
  match n with
  | O => rskip
  | S n => elem i (gqid (fun q f => f <| f_wqid := <[i := q]> (f_wqid f) |>)) ;> gqids (S i) n
  end.

(** The cases of the switch for the messages a client sends. *)
Definition convM2S_T (t : mtype) : reader :=
  match t with
  | Tversion =>
      need BIT32SZ ;>
      fld32 (fun v f => f <| f_msize := v |>) ;>
      gstring (fun s f => f <| f_version := s |>)
  | Tflush =>
      need BIT16SZ ;>
      fld16 (fun v f => f <| f_oldtag := v |>)
  | Tauth =>
      need BIT32SZ ;>
      fld32 (fun v f => f <| f_afid := v |>) ;>
      gstring (fun s f => f <| f_uname := s |>) ;>
      gstring (fun s f => f <| f_aname := s |>) ;>
      rset (fun f => f <| f_uidnum := NOUID |>)
  | Tattach =>
      need BIT32SZ ;>
      fld32 (fun v f => f <| f_fid := v |>) ;>
      need BIT32SZ ;>
      fld32 (fun v f => f <| f_afid := v |>) ;>
      gstring (fun s f => f <| f_uname := s |>) ;>
      gstring (fun s f => f <| f_aname := s |>) ;>
      rset (fun f => f <| f_uidnum := NOUID |>)
  | Twalk =>
      need (BIT32SZ + BIT32SZ + BIT16SZ) ;>
      fld32 (fun v f => f <| f_fid := v |>) ;>
      fld32 (fun v f => f <| f_newfid := v |>) ;>
      rd16 (fun n =>
        rset (fun f => f <| f_nwname := n |>) ;>
        if MAXWELEM <? n then rstop else gstrings 0 (Z.to_nat n))
  | Topen | Topenfd =>
      need (BIT32SZ + BIT8SZ) ;>
      fld32 (fun v f => f <| f_fid := v |>) ;>
      fld8 (fun v f => f <| f_mode := v |>)
  | Tcreate =>
      need BIT32SZ ;>
      fld32 (fun v f => f <| f_fid := v |>) ;>
      gstring (fun s f => f <| f_name := s |>) ;>
      need (BIT32SZ + BIT8SZ) ;>
      fld32 (fun v f => f <| f_perm := v |>) ;>
      fld8 (fun v f => f <| f_mode := v |>)
  | Tread =>
      need (BIT32SZ + BIT64SZ + BIT32SZ) ;>
      fld32 (fun v f => f <| f_fid := v |>) ;>
      fld64 (fun v f => f <| f_offset := v |>) ;>
      fld32 (fun v f => f <| f_count := v |>)
  | Twrite =>
      need (BIT32SZ + BIT64SZ + BIT32SZ) ;>
      fld32 (fun v f => f <| f_fid := v |>) ;>
      fld64 (fun v f => f <| f_offset := v |>) ;>
      rd32 (fun n =>
        rset (fun f => f <| f_count := n |>) ;>
        rblock n (fun s f => f <| f_data := s |>))
  | Tclunk | Tremove =>
      need BIT32SZ ;>
      fld32 (fun v f => f <| f_fid := v |>)
  | Tstat =>
      need BIT32SZ ;>
      fld32 (fun v f => f <| f_fid := v |>)
  | Twstat =>
      need (BIT32SZ + BIT16SZ) ;>
      fld32 (fun v f => f <| f_fid := v |>) ;>
      rd16 (fun n =>
        rset (fun f => f <| f_nstat := n |>) ;>
        rblock n (fun s f => f <| f_stat := s |>))
  | _ => rstop
  end.

(** The cases of the switch for the messages a server sends. *)
Definition convM2S_R (t : mtype) : reader :=
  match t with
  | Rversion =>
      need BIT32SZ ;>
      fld32 (fun v f => f <| f_msize := v |>) ;>
      gstring (fun s f => f <| f_version := s |>)
  | Rerror => fun m p f =>
      (* f->errornum = 0 is executed when gstring fails, too *)
      match gstring (fun s f => f <| f_ename := s |>) m p f with
      | Some (RNext m p f) => Some (RNext m p (f <| f_errornum := 0 |>))
      | Some (RStop m f) => Some (RStop m (f <| f_errornum := 0 |>))
      | None => None
      end
  | Rflush => rskip
  | Rauth => gqid (fun q f => f <| f_aqid := q |>)
  | Rattach => gqid (fun q f => f <| f_qid := q |>)
  | Rwalk =>
      need BIT16SZ ;>
      rd16 (fun n =>
        rset (fun f => f <| f_nwqid := n |>) ;>
        if MAXWELEM <? n then rstop else gqids 0 (Z.to_nat n))
  | Ropen | Ropenfd | Rcreate =>
      gqid (fun q f => f <| f_qid := q |>) ;>
      need BIT32SZ ;>
      fld32 (fun v f => f <| f_iounit := v |>) ;>
      if bool_decide (t = Ropenfd) then
        need BIT32SZ ;>
        fld32 (fun v f => f <| f_unixfd := s32 v |>)
      else rskip
  | Rread =>
      need BIT32SZ ;>
      rd32 (fun n =>
        rset (fun f => f <| f_count := n |>) ;>
        rblock n (fun s f => f <| f_data := s |>))
  | Rwrite =>
      need BIT32SZ ;>
      fld32 (fun v f => f <| f_count := v |>)
  | Rclunk | Rremove => rskip
  | Rstat =>
      need BIT16SZ ;>
      rd16 (fun n =>
        rset (fun f => f <| f_nstat := n |>) ;>
        rblock n (fun s f => f <| f_stat := s |>))
  | Rwstat => rskip
  | _ => rstop
  end.

(** Type, tag and the switch. *)
Definition convM2S_msg : reader :=
  rd8 (fun type =>
    rset (fun f => f <| f_type := type |>) ;>
    fld16 (fun v f => f <| f_tag := v |>) ;>
    match mtype_of type with
    | None => rstop
    | Some t => if Z.even type then convM2S_T t else convM2S_R t
    end).

End unpack.

(** The whole function: the number it returns, the [Fcall] and the buffer it leaves. *)
Definition convM2S (ap : bytes) (nap : Z) (f : Fcall) : option (Z * Fcall * bytes) :=
  let ep := nap in
  if ep <? BIT32SZ + BIT8SZ + BIT16SZ then Some (0, f, ap)
  else
    size ← GBIT32 ap 0;
    if size <? BIT32SZ + BIT8SZ + BIT16SZ then Some (0, f, ap)
    else
      r ← convM2S_msg ep ap BIT32SZ f;
      match r with
      | RStop m f => Some (0, f, m)
      | RNext m p f =>
          if ep <? p then Some (0, f, m)
          else if size =? p then Some (size, f, m)
          else Some (0, f, m)
      end.

(** ** What a reader does on a well-formed piece of a message *)

Section reads.
Context (ep : Z).

(** On the bytes [bs], all of them below [ep], [r] goes on past them; it leaves [bs'] in
    their place and changes the [Fcall] by [g]. *)
Definition reads (r : reader) (bs bs' : bytes) (g : Fcall -> Fcall) : Prop :=
  length bs' = length bs /\
  forall pre post p f, p = len pre -> p + len bs <= ep ->
  r (pre ++ bs ++ post) p f = Some (RNext (pre ++ bs' ++ post) (p + len bs) (g f)).

Lemma reads_skip : reads rskip [] [] id.
Proof. split; [done|]. intros. unfold rskip. do 2 f_equal. simpl. lia. Qed.

Lemma reads_set g : reads (rset g) [] [] g.
Proof. split; [done|]. intros. unfold rset. do 2 f_equal. simpl. lia. Qed.

Lemma reads_seq a b x x' y y' g h :
  reads a x x' g -> reads b y y' h -> reads (a ;> b) (x ++ y) (x' ++ y') (fun f => h (g f)).
Proof.
  intros [Lx Ha] [Ly Hb]. split; [rewrite !length_app; lia|].
  intros pre post p f -> Hp. rewrite length_app in Hp. unfold rseq.
  rewrite <- app_assoc, (Ha pre) by (done || lia).
  rewrite (app_assoc pre x'), (Hb (pre ++ x')) by (rewrite ?length_app; lia).
  rewrite <- !app_assoc. do 2 f_equal. rewrite length_app. lia.
Qed.

Lemma reads_seq_set a g x x' h :
  reads a x x' h -> reads (rset g ;> a) x x' (fun f => h (g f)).
Proof. intros. by apply (reads_seq (rset g) a [] [] x x'); [apply reads_set|]. Qed.

Lemma reads_snoc_set a g x x' h :
  reads a x x' h -> reads (a ;> rset g) x x' (fun f => g (h f)).
Proof.
  intros H. rewrite <- (app_nil_r x), <- (app_nil_r x'). by apply reads_seq, reads_set.
Qed.

Lemma reads_seq_rskip a x x' h : reads a x x' h -> reads (a ;> rskip) x x' h.
Proof.
  intros H. rewrite <- (app_nil_r x), <- (app_nil_r x').
  by apply (reads_seq a rskip x x' [] [] h id), reads_skip.
Qed.

Lemma reads_need n r bs bs' g :
  n <= len bs -> reads r bs bs' g -> reads (need ep n ;> r) bs bs' g.
Proof.
  intros Hn [L H]. split; [done|]. intros pre post p f -> Hp.
  unfold rseq, need. destruct (Z.ltb_spec ep (len pre + n)); [lia|]. by apply H.
Qed.

Lemma reads_rd get sz e v k bs bs' g :
  (forall pre post p, p = len pre -> get (pre ++ e ++ post) p = Some v) -> len e = sz ->
  reads (k v) bs bs' g -> reads (rd get sz k) (e ++ bs) (e ++ bs') g.
Proof.
  intros Hg <- [L H]. split; [by rewrite !length_app, L|]. intros pre post p f -> Hp.
  unfold rd. rewrite <- app_assoc, Hg by done. cbn [mbind option_bind].
  rewrite length_app in Hp.
  rewrite (app_assoc pre), (H (pre ++ e)) by (rewrite ?length_app; lia).
  rewrite <- !app_assoc. do 2 f_equal. rewrite length_app. lia.
Qed.

Lemma reads_rd8 k v bs bs' g :
  reads (k (u8 v)) bs bs' g -> reads (rd8 k) (PBIT8 v ++ bs) (PBIT8 v ++ bs') g.
Proof. apply reads_rd; [|done]. intros; by apply GBIT8_app. Qed.

Lemma reads_rd16 k v bs bs' g :
  reads (k (u16 v)) bs bs' g -> reads (rd16 k) (PBIT16 v ++ bs) (PBIT16 v ++ bs') g.
Proof. apply reads_rd; [|done]. intros; by apply GBIT16_app. Qed.

Lemma reads_rd32 k v bs bs' g :
  reads (k (u32 v)) bs bs' g -> reads (rd32 k) (PBIT32 v ++ bs) (PBIT32 v ++ bs') g.
Proof. apply reads_rd; [|done]. intros; by apply GBIT32_app. Qed.

Lemma reads_rd64 k v bs bs' g :
  reads (k (s64 v)) bs bs' g -> reads (rd64 k) (PBIT64 v ++ bs) (PBIT64 v ++ bs') g.
Proof. apply reads_rd; [|done]. intros; by apply GBIT64_app. Qed.

(** A last field. *)
Lemma reads_fld8 u v : reads (fld8 u) (PBIT8 v) (PBIT8 v) (u (u8 v)).
Proof. rewrite <- (app_nil_r (PBIT8 v)). apply reads_rd8, reads_set. Qed.
Lemma reads_fld16 u v : reads (fld16 u) (PBIT16 v) (PBIT16 v) (u (u16 v)).
Proof. rewrite <- (app_nil_r (PBIT16 v)). apply reads_rd16, reads_set. Qed.
Lemma reads_fld32 u v : reads (fld32 u) (PBIT32 v) (PBIT32 v) (u (u32 v)).
Proof. rewrite <- (app_nil_r (PBIT32 v)). apply reads_rd32, reads_set. Qed.
Lemma reads_fld64 u v : reads (fld64 u) (PBIT64 v) (PBIT64 v) (u (s64 v)).
Proof. rewrite <- (app_nil_r (PBIT64 v)). apply reads_rd64, reads_set. Qed.

Lemma reads_rblock u bs : reads (rblock ep (len bs) u) bs bs (u (Some bs)).
Proof.
  split; [done|]. intros pre post p f -> Hp. unfold rblock.
  destruct (Z.ltb_spec ep (len pre + len bs)); [lia|]. by rewrite load_app.
Qed.

Lemma reads_gqid u q : wf_qid q -> reads (gqid ep u) (eqid q) (eqid q) (u q).
Proof.
  intros (Hp & Hv & Ht). split; [done|]. intros pre post p f -> Hep. unfold gqid.
  rewrite eqid_len in Hep. destruct (Z.ltb_spec ep (len pre + QIDSZ)); [lia|].
  assert (reads (rd8 (fun type => rd32 (fun vers => rd64 (fun path =>
    rset (u (mkQid (u64 path) vers type)))))) (eqid q) (eqid q) (u q)) as [_ R].
  { replace q with (mkQid (u64 (s64 (q_path q))) (u32 (q_vers q)) (u8 (q_type q))) at 3
      by (rewrite wrap_swrap, !wrap_small by (done || lia); by destruct q).
    unfold eqid. apply reads_rd8, reads_rd32. rewrite <- (app_nil_r (PBIT64 _)).
    apply reads_rd64, reads_set. }
  by apply R.
Qed.

(** The string is moved down by one byte and terminated. *)
Lemma reads_gstring u s :
  wf_string s ->
  reads (gstring ep u) (estring s) (u8 (len s) :: s ++ [0]) (u (Some s)).
Proof.
  intros (Hb & _ & Hl).
  split; [apply Nat2Z.inj; rewrite estring_len; cbn; rewrite length_app; cbn; unfold BIT16SZ; lia|].
  intros pre post p f -> Hep. rewrite estring_len in Hep. unfold gstring.
  destruct (Z.ltb_spec ep (len pre + BIT16SZ)); [lia|].
  replace (pre ++ estring s ++ post) with (pre ++ PBIT16 (len s) ++ s ++ post)
    by (unfold estring; by rewrite <- app_assoc).
  rewrite GBIT16_app by done. cbn [mbind option_bind].
  rewrite wrap_small by done. unfold BIT16SZ in *.
  destruct (Z.ltb_spec ep (len pre + (2 - 1) + len s + 1)); [lia|].
  rewrite (app_assoc pre), load_app by (autorewrite with c_length; lia).
  cbn [mbind option_bind].
  destruct (exists_last (l := u8 (len s .>> 8) :: s)) as (x & y & E); [done|].
  assert (length x = length s) as Lx
    by (apply (f_equal length) in E; rewrite length_app in E; cbn in E; lia).
  replace ((pre ++ PBIT16 (len s)) ++ s ++ post) with ((pre ++ [u8 (len s)]) ++ x ++ [y] ++ post).
  2:{ change (PBIT16 (len s)) with ([u8 (len s)] ++ [u8 (len s .>> 8)]).
      rewrite <- !app_assoc. do 2 f_equal. rewrite app_assoc, <- E. done. }
  rewrite (store_app (pre ++ [u8 (len s)]) x s) by (rewrite ?length_app; cbn; lia).
  cbn [mbind option_bind].
  rewrite (app_assoc _ s), (store_app _ [y] [0]) by (rewrite ?length_app; cbn; lia).
  cbn [mbind option_bind]. rewrite <- !app_assoc. cbn [app]. rewrite <- app_assoc.
  do 2 f_equal. rewrite estring_len. unfold BIT16SZ. lia.
Qed.

Lemma reads_elem i r bs bs' g : Z.of_nat i < MAXWELEM -> reads r bs bs' g -> reads (elem i r) bs bs' g.
Proof.
  intros Hi [L H]. split; [done|]. intros pre post p f Hp Hep. unfold elem. rewrite (proj2 (Z.ltb_lt _ _) Hi). by apply H.
Qed.

Lemma reads_gstrings i ws :
  Forall wf_string ws -> Z.of_nat (i + length ws) <= MAXWELEM ->
  exists bs', reads (gstrings ep i (length ws)) (concat (map estring ws)) bs'
    (fun f => f <| f_wname := list_inserts i (map Some ws) (f_wname f) |>).
Proof.
  revert i. induction ws as [|s ws IH]; intros i Hws Hi; inversion_clear Hws as [|? ? Hs Hr].
  - exists []. apply reads_skip.
  - destruct (IH (S i) Hr ltac:(cbn in Hi; lia)) as (bs' & H). eexists.
    cbn [length gstrings map concat list_inserts].
    destruct (reads_seq _ _ _ _ _ _ _ _ (reads_elem i _ _ _ _ ltac:(cbn in Hi; lia) (reads_gstring
      (fun s f => f <| f_wname := <[i := s]> (f_wname f) |>) s Hs)) H) as [L R]. split; [exact L|]. intros pre post p f Hp Hep.
    rewrite R by done. do 2 f_equal. cbn. by rewrite list_insert_inserts_lt by lia.
Qed.

Lemma reads_gqids i qs :
  Forall wf_qid qs -> Z.of_nat (i + length qs) <= MAXWELEM ->
  exists bs', reads (gqids ep i (length qs)) (concat (map eqid qs)) bs'
    (fun f => f <| f_wqid := list_inserts i qs (f_wqid f) |>).
Proof.
  revert i. induction qs as [|q qs IH]; intros i Hqs Hi; inversion_clear Hqs as [|? ? Hq Hr].
  - exists []. apply reads_skip.
  - destruct (IH (S i) Hr ltac:(cbn in Hi; lia)) as (bs' & H). eexists.
    cbn [length gqids map concat list_inserts].
    destruct (reads_seq _ _ _ _ _ _ _ _ (reads_elem i _ _ _ _ ltac:(cbn in Hi; lia) (reads_gqid
      (fun q f => f <| f_wqid := <[i := q]> (f_wqid f) |>) q Hq)) H) as [L R]. split; [exact L|]. intros pre post p f Hp Hep.
    rewrite R by done. do 2 f_equal. cbn. by rewrite list_insert_inserts_lt by lia.
Qed.

End reads.

(** Steps through a reader along the bytes of a message. *)
Ltac reads_rd_step :=
  first [eapply reads_fld8 | eapply reads_fld16 | eapply reads_fld32 | eapply reads_fld64
        | eapply reads_rd16 | eapply reads_rd32].

Ltac reads_step :=
  lazymatch goal with
  | |- reads _ rskip _ _ _ => apply reads_skip
  | |- reads _ (rset _) _ _ _ => apply reads_set
  | |- reads _ (need _ _ ;> _) _ _ _ =>
      apply reads_need; [autorewrite with c_length; rewrite ?Nat2Z.inj_add, ?estring_len;
        cbv [BIT8SZ BIT16SZ BIT32SZ BIT64SZ]; lia|]
  | |- reads _ (rset _ ;> _) _ _ _ => apply reads_seq_set
  | |- reads _ (gqid _ _) _ _ _ => by apply reads_gqid
  | |- reads _ (gstring _ _) _ _ _ => by apply reads_gstring
  | |- reads _ (gstring _ _ ;> rset _) _ _ _ =>
      apply reads_snoc_set; by apply reads_gstring
  | |- reads _ (gqid _ _ ;> rskip) _ _ _ => eapply reads_seq; [by apply reads_gqid|]
  | |- reads _ (gqid _ _ ;> _) _ _ _ => eapply reads_seq; [by apply reads_gqid|]
  | |- reads _ (gstring _ _ ;> _) _ _ _ => eapply reads_seq; [by apply reads_gstring|]
  | |- reads _ (rd _ _ _ ;> rskip) _ _ _ => eapply reads_seq_rskip; reads_rd_step
  | |- reads _ (rd _ _ _ ;> _) _ _ _ => eapply reads_seq; [reads_rd_step|]
  | |- reads _ (rd _ _ _) _ _ _ => reads_rd_step
  | |- reads _ (rblock _ _ _) _ _ _ => rewrite wrap_small by done; apply reads_rblock
  end.

Lemma counted_all bs : counted (Some bs) (len bs) = Some bs.
Proof.
  unfold counted. bcase; [by destruct bs|]. cbn.
  rewrite <- (app_nil_r bs) at 1. by apply (load_app [] bs []).
Qed.

Lemma str_bytes_wf s : wf_string s -> str_bytes (Some s) = s.
Proof. intros (_ & H & _). by apply c_str_id. Qed.

Lemma map_str_bytes_wf ws : Forall wf_string ws -> map str_bytes (map Some ws) = ws.
Proof. induction 1; cbn [map]; [done|]. by rewrite str_bytes_wf, IHForall. Qed.

(** Shows that the fields just read make up the message. *)
Ltac msg_back :=
  intros f Ht Hw Hq; split; [|done]; unfold msg_of;
  lazymatch goal with |- context [mtype_of (f_type ?x)] => change (f_type x) with (f_type f) end;
  rewrite Ht;
  lazymatch goal with |- context [mtype_of ?n] =>
    let t := eval vm_compute in (mtype_of n) in change (mtype_of n) with t end;
  cbv beta iota; cbn [upd f_msize f_version f_afid f_uname f_aname f_aqid f_fid f_qid f_ename
    f_oldtag f_newfid f_nwname f_wname f_nwqid f_wqid f_mode f_iounit f_unixfd f_name f_perm
    f_offset f_count f_data f_nstat f_stat];
  rewrite ?str_bytes_wf, ?swrap_wrap, ?wrap_small, ?swrap_small, ?counted_all by (done || lia);
  try done.

(** The switch reads the body of a message back. *)
Lemma reads_body ep m :
  wf_msg m ->
  exists bs' g,
    reads ep (if Z.even (mtype_num (msg_type m))
              then convM2S_T ep (msg_type m) else convM2S_R ep (msg_type m))
      (encode_body m) bs' g /\
    forall f, f_type f = mtype_num (msg_type m) ->
      length (f_wname f) = 16%nat -> length (f_wqid f) = 16%nat ->
      msg_of (g f) = Some m /\ f_tag (g f) = f_tag f.
Proof.
  intros [Hs Hm].
  destruct m; cbn [msg_type mtype_num Z.even convM2S_T convM2S_R encode_body];
   repeat case_bool_decide; try done; destruct_and?.
  all: unfold msg_size in Hs; cbn [encode_body] in Hs; rewrite ?length_app, ?Nat2Z.inj_add in Hs.
  all: try match goal with d : bytes, H : is_bytes ?d |- _ =>
      assert (in_u 32 (len d)) by (unfold BIT32SZ, BIT8SZ, BIT16SZ in Hs; range) end.
  all: try (eexists _, _; split; [solve [repeat reads_step]|msg_back]).
  - (* Rerror *)
    destruct (reads_gstring ep (fun s f => f <| f_ename := s |>) _ Hm) as [L R].
    eexists _, _. split.
    + split; [exact L|]. intros pre post p f Hp Hep. rewrite R by done. cbn. reflexivity.
    + msg_back.
  - (* Twalk *)
    destruct (reads_gstrings ep 0 wname) as (bs' & R); [done|done|].
    assert (in_u 16 (len wname)) by (unfold MAXWELEM in *; range).
    eexists _, _. split.
    + do 3 reads_step. reads_step. rewrite wrap_small by done. reads_step.
      destruct (Z.ltb_spec MAXWELEM (len wname)); [lia|]. rewrite Nat2Z.id. exact R.
    + msg_back. destruct (Z.ltb_spec MAXWELEM (len wname)); [lia|].
      rewrite <- (length_map Some wname), load_inserts
        by (rewrite length_map; apply (Nat.le_trans _ 16); [|by apply Nat.eq_le_incl, eq_sym]; unfold MAXWELEM in *; lia).
      cbn [mbind option_bind]. by rewrite map_str_bytes_wf.
  - (* Rwalk *)
    destruct (reads_gqids ep 0 wqid) as (bs' & R); [done|done|].
    assert (in_u 16 (len wqid)) by (unfold MAXWELEM in *; range).
    eexists _, _. split.
    + do 2 reads_step. rewrite wrap_small by done. reads_step.
      destruct (Z.ltb_spec MAXWELEM (len wqid)); [lia|]. rewrite Nat2Z.id. exact R.
    + msg_back. destruct (Z.ltb_spec MAXWELEM (len wqid)); [lia|].
      by rewrite load_inserts by (apply (Nat.le_trans _ 16); [|by apply Nat.eq_le_incl, eq_sym]; unfold MAXWELEM in *; lia).
Qed.

(** ** No access leaves the buffer *)

Section safe.
Context (ep : Z).

(** With [i] bytes left below [ep], [r] makes no access outside of the buffer, keeps its
    length and its bytes, and goes on with [o] bytes left. *)
Definition rsafe (r : reader) (i o : Z) : Prop :=
  forall m p f, is_bytes m -> 0 <= p -> ep <= len m -> p + i <= ep ->
  exists res, r m p f = Some res /\
    match res with
    | RNext m' p' _ => length m' = length m /\ is_bytes m' /\ p <= p' /\ p' + o <= ep
    | RStop m' _ => length m' = length m
    end.

Lemma rsafe_set g i : rsafe (rset g) i i.
Proof. intros m p f ????. eexists; split; [done|]. simpl. auto with lia. Qed.

Lemma rsafe_skip i : rsafe rskip i i.
Proof. intros m p f ????. eexists; split; [done|]. simpl. auto with lia. Qed.

Lemma rsafe_stop i o : rsafe rstop i o.
Proof. intros m p f ????. eexists; split; done. Qed.

Lemma rsafe_seq a b i j o : rsafe a i j -> rsafe b j o -> rsafe (a ;> b) i o.
Proof.
  intros Ha Hb m p f Hm Hp Hep Hi. unfold rseq.
  destruct (Ha m p f) as (res & -> & H); try done.
  destruct res as [m' p' f'|m' f']; [|by exists (RStop m' f')].
  destruct H as (L & Hm' & Hpp & Hj).
  destruct (Hb m' p' f') as (res & E & H); try done; [lia..|].
  exists res. split; [done|]. destruct res; [|by rewrite H].
  destruct H as (? & ? & ? & ?). split_and!; try done; lia.
Qed.

Lemma rsafe_need n : rsafe (need ep n) 0 n.
Proof.
  intros m p f ????. unfold need.
  destruct (Z.ltb_spec ep (p + n)); (eexists; split; [done|]); [done|]. simpl. auto with lia.
Qed.

Lemma rsafe_rd get sz w k j o :
  (forall m p, is_bytes m -> 0 <= p -> p + sz <= len m -> exists v, get m p = Some v /\ w v) ->
  0 <= sz -> 0 <= j -> (forall v, w v -> rsafe (k v) j o) -> rsafe (rd get sz k) (sz + j) o.
Proof.
  intros Hg Hsz Hj Hk m p f Hm Hp Hep Hi. unfold rd.
  destruct (Hg m p) as (v & -> & Hv); [done..|lia|]. cbn [mbind option_bind].
  destruct (Hk v Hv m (p + sz) f) as (res & E & H); [done|lia..|].
  exists res. split; [done|]. destruct res; [|done]. destruct H as (? & ? & ? & ?).
  auto with lia.
Qed.

Lemma rsafe_rblock n u : 0 <= n -> rsafe (rblock ep n u) 0 0.
Proof.
  intros Hn m p f ????. unfold rblock.
  destruct (Z.ltb_spec ep (p + n)); [eexists; split; done|].
  destruct (load_Some m p n) as (bs & -> & _); [lia..|].
  eexists; split; [done|]. simpl. auto with lia.
Qed.

Lemma rsafe_gstring u : rsafe (gstring ep u) 0 0.
Proof.
  intros m p f Hm Hp Hep Hi. unfold gstring. unfold BIT16SZ in *.
  destruct (Z.ltb_spec ep (p + 2)); [eexists; split; done|].
  destruct (GBIT16_Some m p) as (n & -> & Hn); [done|lia..|]. cbn [mbind option_bind].
  destruct (Z.ltb_spec ep (p + (2 - 1) + n + 1)); [eexists; split; done|].
  assert (0 <= n) by range.
  destruct (load_Some m (p + (2 - 1) + 1) n) as (s & E & Hs); [lia..|].
  rewrite E. cbn [mbind option_bind].
  destruct (store_Some m (p + (2 - 1)) s) as (m1 & E1 & L1); [lia..|].
  rewrite E1. cbn [mbind option_bind].
  destruct (store_Some m1 (p + (2 - 1) + n) [0]) as (m2 & E2 & L2); [lia|cbn; lia|].
  rewrite E2. cbn [mbind option_bind].
  eexists; split; [done|]. simpl. split_and!; try lia.
  pose proof (store_Forall _ _ _ _ _ Hm (load_Forall _ _ _ _ _ Hm E) E1) as Hm1.
  eapply (store_Forall _ m1); [done| |done]. repeat constructor; range.
Qed.

Lemma rsafe_gqid u : rsafe (gqid ep u) 0 0.
Proof.
  intros m p f Hm Hp Hep Hi. unfold gqid.
  destruct (Z.ltb_spec ep (p + QIDSZ)); [eexists; split; done|].
  assert (rsafe (rd8 (fun type => rd32 (fun vers => rd64 (fun path =>
    rset (u (mkQid (u64 path) vers type)))))) QIDSZ 0) as R.
  { change QIDSZ with (BIT8SZ + (BIT32SZ + (BIT64SZ + 0))).
    eapply rsafe_rd; [exact GBIT8_Some|done..|]. intros.
    eapply rsafe_rd; [exact GBIT32_Some|done..|]. intros.
    eapply rsafe_rd; [exact GBIT64_Some|done..|]. intros. apply rsafe_set. }
  by apply R.
Qed.

Lemma rsafe_fld8 u j : 0 <= j -> rsafe (fld8 u) (BIT8SZ + j) j.
Proof. intros. eapply rsafe_rd; [exact GBIT8_Some|done..|]. intros. apply rsafe_set. Qed.
Lemma rsafe_fld16 u j : 0 <= j -> rsafe (fld16 u) (BIT16SZ + j) j.
Proof. intros. eapply rsafe_rd; [exact GBIT16_Some|done..|]. intros. apply rsafe_set. Qed.
Lemma rsafe_fld32 u j : 0 <= j -> rsafe (fld32 u) (BIT32SZ + j) j.
Proof. intros. eapply rsafe_rd; [exact GBIT32_Some|done..|]. intros. apply rsafe_set. Qed.
Lemma rsafe_fld64 u j : 0 <= j -> rsafe (fld64 u) (BIT64SZ + j) j.
Proof. intros. eapply rsafe_rd; [exact GBIT64_Some|done..|]. intros. apply rsafe_set. Qed.

Lemma rsafe_elem i r a o : Z.of_nat i < MAXWELEM -> rsafe r a o -> rsafe (elem i r) a o.
Proof. intros Hi H m p f. unfold elem. rewrite (proj2 (Z.ltb_lt _ _) Hi). apply H. Qed.

Lemma rsafe_gstrings i n : Z.of_nat (i + n) <= MAXWELEM -> rsafe (gstrings ep i n) 0 0.
Proof.
  revert i. induction n as [|n IH]; intros i Hi; cbn [gstrings]; [apply rsafe_skip|].
  eapply rsafe_seq; [apply rsafe_elem, rsafe_gstring; lia|apply IH; lia].
Qed.

Lemma rsafe_gqids i n : Z.of_nat (i + n) <= MAXWELEM -> rsafe (gqids ep i n) 0 0.
Proof.
  revert i. induction n as [|n IH]; intros i Hi; cbn [gqids]; [apply rsafe_skip|].
  eapply rsafe_seq; [apply rsafe_elem, rsafe_gqid; lia|apply IH; lia].
Qed.

Lemma rsafe_if (b : bool) r r' i o : (b = true -> rsafe r i o) -> (b = false -> rsafe r' i o) -> rsafe (if b then r else r') i o.
Proof. destruct b; auto. Qed.
End safe.

Lemma rsafe_need_seq ep n r i o : i = n -> rsafe ep r i o -> rsafe ep (need ep n ;> r) 0 o.
Proof. intros -> H. eapply rsafe_seq; [apply rsafe_need|done]. Qed.

Ltac rsafe_step :=
  lazymatch goal with
  | |- rsafe _ (need _ _ ;> _) _ _ => eapply rsafe_need_seq; [|]
  | |- rsafe _ (_ ;> _) _ _ => eapply rsafe_seq
  | |- rsafe _ (if _ then _ else _) _ _ => apply rsafe_if; intros ?
  | |- rsafe _ (gstring _ _) _ _ => apply rsafe_gstring
  | |- rsafe _ (gqid _ _) _ _ => apply rsafe_gqid
  | |- rsafe _ (gstrings _ _ _) _ _ => apply rsafe_gstrings; unfold MAXWELEM in *; lia
  | |- rsafe _ (gqids _ _ _) _ _ => apply rsafe_gqids; unfold MAXWELEM in *; lia
  | |- rsafe _ (rblock _ _ _) _ _ => apply rsafe_rblock; range
  | |- rsafe _ rskip _ _ => apply rsafe_skip
  | |- rsafe _ rstop _ _ => apply rsafe_stop
  | |- rsafe _ (rset _) _ _ => apply rsafe_set
  | |- rsafe _ (rd _ _ _) _ _ =>
      first [eapply rsafe_fld8 | eapply rsafe_fld16 | eapply rsafe_fld32 | eapply rsafe_fld64
            | eapply rsafe_rd; [exact GBIT16_Some|done| |intros ??]
            | eapply rsafe_rd; [exact GBIT32_Some|done| |intros ??]]
  end.

Lemma rsafe_body ep t : rsafe ep (convM2S_T ep t) 0 0 /\ rsafe ep (convM2S_R ep t) 0 0.
Proof.
  split; destruct t; cbn [convM2S_T convM2S_R]; try apply rsafe_stop; try apply rsafe_skip;
    repeat rsafe_step; try done.
  intros m p f Hm Hp Hep Hi. cbv beta.
  match goal with |- context [gstring ep ?u m p f] =>
    destruct (rsafe_gstring ep u m p f) as (res & -> & H); try done end.
  destruct res; eexists; (split; [reflexivity|]); exact H.
Qed.

(** ** Properties *)

(** The memory safety of the parser, for every input. *)
(** C2: on any bytes whatever [convM2S] returns, without leaving the buffer or the arrays of the
    [Fcall]: either 0, or the
    size the message starts with, which is at least a header and at most the buffer. *)
Theorem convM2S_safe ap nap f :
  is_bytes ap -> nap <= len ap ->
  exists n f' ap', convM2S ap nap f = Some (n, f', ap') /\ length ap' = length ap /\
    (n = 0 \/ (7 <= n <= nap /\ GBIT32 ap 0 = Some n)).
Proof.
  intros Hb Hn. unfold convM2S.
  destruct (Z.ltb_spec nap (BIT32SZ + BIT8SZ + BIT16SZ)) as [|Hs]; [by eexists _, _, _; eauto|].
  unfold BIT32SZ, BIT8SZ, BIT16SZ in Hs.
  destruct (GBIT32_Some ap 0) as (size & E & Hsize); [done|lia..|].
  rewrite E. cbn [mbind option_bind].
  destruct (Z.ltb_spec size (BIT32SZ + BIT8SZ + BIT16SZ)) as [|Hz];
    [by eexists _, _, _; eauto|].
  assert (rsafe nap (convM2S_msg nap) (BIT8SZ + (BIT16SZ + 0)) 0) as R.
  { eapply rsafe_rd; [exact GBIT8_Some|done..|]. intros type _.
    eapply rsafe_seq; [apply rsafe_set|]. eapply rsafe_seq; [by apply rsafe_fld16|].
    destruct (mtype_of type) as [t|]; [|apply rsafe_stop].
    destruct (rsafe_body nap t). by apply rsafe_if. }
  destruct (R ap BIT32SZ f) as (res & -> & H);
    [done|done|done|unfold BIT32SZ, BIT8SZ, BIT16SZ; lia|]. cbn [mbind option_bind].
  destruct res as [m' p' f'|m' f']; [|by eexists _, _, _; eauto].
  destruct H as (L & _ & Hpp & Hpe).
  destruct (Z.ltb_spec nap p'); [lia|]. unfold BIT32SZ, BIT8SZ, BIT16SZ in *.
  destruct (Z.eqb_spec size p') as [->|]; eexists _, _, _; (split; [done|]); (split; [done|]);
    [|by left]. right. split; [lia|done].
Qed.

(** The parser inverts the encoding, whatever follows the message in the buffer. *)
Lemma convM2S_run tag m post nap f :
  wf_msg m -> in_u 16 tag ->
  length (f_wname f) = 16%nat -> length (f_wqid f) = 16%nat ->
  msg_size m <= nap ->
  exists f' ap', convM2S (encode tag m ++ post) nap f = Some (msg_size m, f', ap') /\
    msg_of f' = Some m /\ f_tag f' = tag.
Proof.
  intros Hm Htag Hwn Hwq Hn. pose proof Hm as [Hs _].
  assert (7 <= msg_size m) by (unfold msg_size, BIT32SZ, BIT8SZ, BIT16SZ; lia).
  destruct (reads_body nap m Hm) as (bs' & g & R & Hback).
  pose (f1 := f <| f_type := mtype_num (msg_type m) |> <| f_tag := u16 tag |>).
  destruct (Hback f1) as [Hmsg Ht]; [done..|].
  unfold convM2S. change (BIT32SZ + BIT8SZ + BIT16SZ) with 7.
  destruct (Z.ltb_spec nap 7); [lia|].
  replace (encode tag m ++ post) with (PBIT32 (msg_size m) ++
    (PBIT8 (mtype_num (msg_type m)) ++ PBIT16 tag ++ encode_body m) ++ post)
    by (unfold encode; by rewrite <- !app_assoc).
  pose proof (fun post => GBIT32_app [] post (msg_size m) 0 eq_refl) as G. cbn [app] in G.
  rewrite G. cbn [mbind option_bind]. rewrite wrap_small by done.
  destruct (Z.ltb_spec (msg_size m) 7); [lia|].
  eassert (reads nap (convM2S_msg nap)
    (PBIT8 (mtype_num (msg_type m)) ++ PBIT16 tag ++ encode_body m)
    (PBIT8 (mtype_num (msg_type m)) ++ PBIT16 tag ++ bs') _) as [_ RR].
  { assert (u8 (mtype_num (msg_type m)) = mtype_num (msg_type m)) as E8
      by (destruct (msg_type m); done).
    apply reads_rd8. rewrite E8, mtype_of_num. apply reads_seq_set.
    eapply reads_seq; [apply reads_fld16|exact R]. }
  specialize (RR (PBIT32 (msg_size m)) post BIT32SZ f eq_refl).
  rewrite RR.
  - cbn [mbind option_bind].
    replace (BIT32SZ + _) with (msg_size m)
      by (unfold msg_size, BIT32SZ, BIT8SZ, BIT16SZ; autorewrite with c_length; lia).
    destruct (Z.ltb_spec nap (msg_size m)); [lia|]. rewrite Z.eqb_refl.
    eexists _, _. split; [done|]. split; [exact Hmsg|].
    etransitivity; [exact Ht|]. by apply wrap_small.
  - transitivity (msg_size m); [|done].
    unfold msg_size, BIT32SZ, BIT8SZ, BIT16SZ; autorewrite with c_length; lia.
Qed.

Lemma convM2S_safe_witness :
  let ap := [14; 0; 0; 0; 107; 1; 0; 200; 0; 65; 66; 67; 68; 69] in
  exists n f' ap', convM2S ap 14 fcall0 = Some (n, f', ap') /\ length ap' = length ap /\
    (n = 0 \/ (7 <= n <= 14 /\ GBIT32 ap 0 = Some n)).
Proof. cbv zeta. apply convM2S_safe; by_decide. Defined.
