(* ===== verification/ConvDir.v ===== *)
(** * Packing and unpacking directory entries: [lib9/convD2M.c] and [lib9/convM2D.c]

    [sizeD2M], [convD2M], [statcheck] and [convM2D], the machine-independent form of a [Dir]
    as a list of bytes, and the theorems that relate them. *)

From S2P Require Import Prelude Fcall Wire ConvS2M.

(** ** [convD2M.c] *)

(** The array [sv]: the four strings of a [Dir] in the order of their encoding. *)
Definition dir_strs (d : Dir) : list cptr := [d_name d; d_uid d; d_gid d; d_muid d].

(** [if(sv[i]) strlen(sv[i]) else 0], an [int]. *)
Definition strlen0 (s : cptr) : Z := s32 (len (str_bytes s)).

(** [ns = 0; for(i...) ns += nsv[i]] on [int]s. *)
Definition sum_strlen (sv : list cptr) : Z :=
  fold_left (fun ns s => s32 (ns + strlen0 s)) sv 0.

Definition sizeD2M (d : Dir) : Z := u32 (STATFIXLEN + sum_strlen (dir_strs d)).

(** One string of [convD2M]'s last loop, with the test against the end of the buffer. *)
Definition pdirstr (ebuf : Z) (s : cptr) : writer := fun m p =>
  if ebuf <? p + strlen0 s + BIT16SZ then Some (Ret m)
  else (wr (PBIT16 (strlen0 s)) ;+ wmemmove s (strlen0 s))%C m p.

Fixpoint pdirstrs (ebuf : Z) (sv : list cptr) : writer :=
  match sv with
  | [] => wskip
  | s :: sv => pdirstr ebuf s ;+ pdirstrs ebuf sv
  end.

Definition pdirfixed (d : Dir) : writer :=
  wr (PBIT16 (d_type d)) ;+ wr (PBIT32 (d_dev d)) ;+
  wr (PBIT8 (q_type (d_qid d))) ;+ wr (PBIT32 (q_vers (d_qid d))) ;+
  wr (PBIT64 (q_path (d_qid d))) ;+ wr (PBIT32 (d_mode d)) ;+ wr (PBIT32 (d_atime d)) ;+
  wr (PBIT32 (d_mtime d)) ;+ wr (PBIT64 (d_length d)).

Definition convD2M (d : Dir) (buf : bytes) (nbuf : Z) : option (Z * bytes) :=
  if nbuf <? BIT16SZ then Some (0, buf)
  else
    let ss := s32 (STATFIXLEN + sum_strlen (dir_strs d)) in
    (* set size befor erroring, so user can know how much is needed *)
    r ← wr (PBIT16 (ss - BIT16SZ)) buf 0;
    match r with
    | Ret m => Some (0, m)
    | Next m p =>
        if nbuf <? u32 ss then Some (BIT16SZ, m)
        else
          r ← (pdirfixed d ;+ pdirstrs nbuf (dir_strs d))%C m p;
          match r with
          | Ret m => Some (0, m)
          | Next m p => if ss =? p then Some (p, m) else Some (0, m)
          end
    end.

(** ** [convM2D.c] *)

(** The loop of [statcheck]: [n] strings from [p] on; [None] of the result is [return -1]. *)
Fixpoint statcheck_strs (m : bytes) (ebuf p : Z) (n : nat) : option (option Z) :=
  match n with
  | O => Some (Some p)
  | S n =>
      if ebuf <? p + BIT16SZ then Some None
      else k ← GBIT16 m p; statcheck_strs m ebuf (p + (BIT16SZ + k)) n
  end.

Definition statcheck (buf : bytes) (nbuf : Z) : option Z :=
  if nbuf <? STATFIXLEN then Some (-1)
  else
    k ← GBIT16 buf 0;
    if negb (nbuf =? BIT16SZ + k) then Some (-1)
    else
      r ← statcheck_strs buf nbuf (STATFIXLEN - 4 * BIT16SZ) 4;
      match r with
      | None => Some (-1)
      | Some p => if p =? nbuf then Some 0 else Some (-1)
      end.

(** The string loop of [convM2D] on one memory that holds the entry (read at [p]) and, when
    [strs] is not nil, the copies of the strings (written at [strs]). The result is the
    memory, and the pointer with the strings; no pointer is [return 0]. *)
Fixpoint convM2D_strs (m : bytes) (ebuf p : Z) (strs : option Z) (n : nat)
    : option (bytes * option (Z * list bytes)) :=
  match n with
  | O => Some (m, Some (p, []))
  | S n =>
      if ebuf <? p + BIT16SZ then Some (m, None)
      else
        ns ← GBIT16 m p;
        let p := p + BIT16SZ in
        if ebuf <? p + ns then Some (m, None)
        else
          s ← load m p ns;
          mst ← match strs with
                | None => Some (m, None)
                | Some q =>
                    m1 ← store m q s;
                    m2 ← store m1 (q + ns) [0];
                    Some (m2, Some (q + ns + 1))
                end;
          r ← convM2D_strs (mst.1) ebuf (p + ns) (mst.2) n;
          Some (r.1, '(p', sv) ← r.2; Some (p', s :: sv))
  end.

(** [convM2D] of the entry at offset [buf] of the memory [m]. *)
Definition convM2D (m : bytes) (buf nbuf : Z) (d : Dir) (strs : option Z)
    : option (Z * Dir * bytes) :=
  if nbuf <? STATFIXLEN then Some (0, d, m)
  else
    type ← GBIT16 m (buf + 2);
    dev ← GBIT32 m (buf + 4);
    qtype ← GBIT8 m (buf + 8);
    qvers ← GBIT32 m (buf + 9);
    qpath ← GBIT64 m (buf + 13);
    mode ← GBIT32 m (buf + 21);
    atime ← GBIT32 m (buf + 25);
    mtime ← GBIT32 m (buf + 29);
    length ← GBIT64 m (buf + 33);
    let d := d <| d_type := type |> <| d_dev := dev |>
               <| d_qid := mkQid (u64 qpath) qvers qtype |> <| d_mode := mode |>
               <| d_atime := atime |> <| d_mtime := mtime |> <| d_length := length |> in
    r ← convM2D_strs m (buf + nbuf) (buf + 41) strs 4;
    match r with
    | (m, None) => Some (0, d, m)
    | (m, Some (p, sv)) =>
        let str i := match strs with None => Some [] | Some _ => sv !! i end in
        let d := d <| d_name := str 0%nat |> <| d_uid := str 1%nat |>
                   <| d_gid := str 2%nat |> <| d_muid := str 3%nat |> <| d_ext := Some [] |> in
        Some (p - buf, d, m)
    end.

(** ** The machine-independent form *)

Definition dir_size (d : Dir) : Z :=
  STATFIXLEN + len (str_bytes (d_name d)) + len (str_bytes (d_uid d))
  + len (str_bytes (d_gid d)) + len (str_bytes (d_muid d)).

Definition encode_dir_fixed (d : Dir) : bytes :=
  PBIT16 (d_type d) ++ PBIT32 (d_dev d) ++ eqid (d_qid d) ++ PBIT32 (d_mode d)
  ++ PBIT32 (d_atime d) ++ PBIT32 (d_mtime d) ++ PBIT64 (d_length d).

Definition encode_dir (d : Dir) : bytes :=
  PBIT16 (dir_size d - BIT16SZ) ++ encode_dir_fixed d
  ++ concat (map estring (map str_bytes (dir_strs d))).

(** The strings copied to successive locations, each with its NUL. *)
Definition packed (ss : list bytes) : bytes := concat (map (fun s => s ++ [0]) ss).

(** Entries whose fields fit. *)
Definition wf_dir (d : Dir) : Prop :=
  in_u 16 (d_type d) /\ in_u 32 (d_dev d) /\ wf_qid (d_qid d) /\ in_u 32 (d_mode d) /\
  in_u 32 (d_atime d) /\ in_u 32 (d_mtime d) /\ in_s 64 (d_length d) /\
  Forall (fun s => is_bytes (str_bytes s)) (dir_strs d) /\
  in_u 16 (dir_size d - BIT16SZ).
#[global] Instance wf_dir_dec d : Decision (wf_dir d).
Proof. unfold wf_dir. apply _. Defined.

(** ** Lemmas *)

Lemma strlen0_small s : in_u 16 (len (str_bytes s)) -> strlen0 s = len (str_bytes s).
Proof. intros. unfold strlen0. apply swrap_small; range. Qed.

Lemma dir_strs_small d :
  in_u 16 (dir_size d - BIT16SZ) -> Forall (fun s => in_u 16 (len (str_bytes s))) (dir_strs d).
Proof.
  unfold dir_size, STATFIXLEN, QIDSZ, BIT8SZ, BIT16SZ, BIT32SZ, BIT64SZ.
  intros. repeat apply Forall_cons_2; [range..|apply Forall_nil_2; done].
Qed.

Lemma dir_size_sum d :
  in_u 16 (dir_size d - BIT16SZ) -> STATFIXLEN + sum_strlen (dir_strs d) = dir_size d.
Proof.
  intros H. pose proof (dir_strs_small d H) as F. unfold dir_strs, sum_strlen in *.
  decompose_Forall. cbn [fold_left]. rewrite !strlen0_small by done.
  unfold dir_size, STATFIXLEN, QIDSZ, BIT8SZ, BIT16SZ, BIT32SZ, BIT64SZ in *.
  rewrite (swrap_small 32 (0 + _)), Z.add_0_l by range.
  rewrite (swrap_small 32 (len (str_bytes (d_name d)) + _)) by range.
  rewrite (swrap_small 32 (len (str_bytes (d_name d)) + _ + _)) by range.
  rewrite swrap_small; range.
Qed.

Lemma len_encode_dir d : len (encode_dir d) = dir_size d.
Proof.
  unfold encode_dir, dir_size, dir_strs, encode_dir_fixed. cbn [map concat].
  autorewrite with c_length. rewrite !Nat2Z.inj_add, !estring_len, eqid_len.
  unfold STATFIXLEN, QIDSZ, BIT8SZ, BIT16SZ, BIT32SZ, BIT64SZ. cbn [length]. lia.
Qed.

Lemma writes_pdirfixed d : writes (pdirfixed d) (encode_dir_fixed d).
Proof.
  unfold pdirfixed, encode_dir_fixed, eqid. rewrite <- !app_assoc. auto 12 with c_hints.
Qed.

Lemma counted_strlen s : counted s (len (str_bytes s)) = Some (str_bytes s).
Proof.
  unfold counted. bcase; [by destruct (str_bytes s)|]. destruct s as [s|]; [|done]. cbn.
  assert (s = c_str s ++ drop (length (c_str s)) s) as E.
  { clear. induction s as [|b s IH]; [done|]. cbn. bcase; [done|]. cbn. by rewrite <- IH. }
  rewrite E at 1. by apply (load_app []).
Qed.

(** A string that ends at or before [ebuf]. *)
Lemma pdirstr_writes ebuf s pre old post p :
  in_u 16 (len (str_bytes s)) -> p = len pre -> length old = length (estring (str_bytes s)) ->
  p + len (estring (str_bytes s)) <= ebuf ->
  pdirstr ebuf s (pre ++ old ++ post) p
  = Some (Next (pre ++ estring (str_bytes s) ++ post) (p + len (estring (str_bytes s)))).
Proof.
  intros Hs -> Ho He. unfold pdirstr. rewrite strlen0_small by done.
  rewrite estring_len in He.
  destruct (Z.ltb_spec ebuf (len pre + len (str_bytes s) + BIT16SZ)); [lia|].
  pose proof (counted_strlen s) as C.
  assert (writes (wr (PBIT16 (len (str_bytes s))) ;+ wmemmove s (len (str_bytes s)))
    (estring (str_bytes s))) as W by (apply writes_seq; auto with c_hints).
  by apply W.
Qed.

Lemma pdirstrs_writes ebuf sv : forall pre old post p,
  Forall (fun s => in_u 16 (len (str_bytes s))) sv -> p = len pre ->
  length old = length (concat (map estring (map str_bytes sv))) ->
  p + len (concat (map estring (map str_bytes sv))) <= ebuf ->
  pdirstrs ebuf sv (pre ++ old ++ post) p
  = Some (Next (pre ++ concat (map estring (map str_bytes sv)) ++ post)
      (p + len (concat (map estring (map str_bytes sv))))).
Proof.
  induction sv as [|s sv IH]; intros pre old post p Hsv -> Ho He; cbn [pdirstrs map concat] in *.
  - by apply writes_skip.
  - inversion_clear Hsv as [|? ? Hs Hr]. rewrite length_app in Ho, He. unfold wseq.
    rewrite <- (take_drop (length (estring (str_bytes s))) old), <- app_assoc.
    rewrite pdirstr_writes by (done || rewrite ?length_take; lia).
    rewrite app_assoc, IH by (done || rewrite ?length_app, ?length_drop; lia).
    rewrite <- !app_assoc. do 2 f_equal. rewrite length_app. lia.
Qed.

(** ** Properties *)

(** With room for it, [convD2M] packs an entry to its machine-independent form at the
    start of the buffer and returns its size; the rest of the buffer is untouched. *)
Theorem convD2M_encodes d buf nbuf :
  in_u 16 (dir_size d - BIT16SZ) -> dir_size d <= nbuf -> nbuf <= len buf ->
  convD2M d buf nbuf
  = Some (dir_size d, encode_dir d ++ drop (Z.to_nat (dir_size d)) buf).
Proof.
  intros Hd Hn Hb. pose proof (len_encode_dir d) as Hl.
  assert (STATFIXLEN <= dir_size d) by (unfold dir_size; lia).
  unfold convD2M. rewrite dir_size_sum by done.
  assert (in_s 32 (dir_size d) /\ in_u 32 (dir_size d)) as [H1 H2]
    by (cbv [STATFIXLEN QIDSZ BIT8SZ BIT16SZ BIT32SZ BIT64SZ] in *; split; range).
  rewrite (swrap_small 32) by (done || lia). rewrite (wrap_small 32) by done.
  assert (BIT16SZ < STATFIXLEN) by done.
  destruct (Z.ltb_spec nbuf BIT16SZ); [lia|].
  destruct (Z.ltb_spec nbuf (dir_size d)); [lia|].
  rewrite <- (take_drop (Z.to_nat (dir_size d)) buf) at 1.
  unfold encode_dir in *. rewrite !length_app in Hl.
  set (hd := PBIT16 (dir_size d - BIT16SZ)) in *. set (fx := encode_dir_fixed d) in *.
  set (st := concat _) in *. set (tl := drop _ buf). set (old := take _ buf).
  assert (length old = length (hd ++ fx ++ st)) as Lo
    by (unfold old; rewrite length_take, !length_app; lia).
  rewrite !length_app in Lo.
  replace old with (take (length hd) old ++ take (length fx) (drop (length hd) old)
    ++ drop (length fx) (drop (length hd) old)) by (by rewrite !take_drop).
  rewrite <- !app_assoc.
  pose proof (writes_wr hd [] (take (length hd) old)) as W1. cbn [app] in W1.
  rewrite W1 by (done || rewrite length_take; lia). cbn [mbind option_bind]. unfold wseq.
  rewrite (writes_pdirfixed d hd) by (rewrite ?length_take, ?length_drop; fold fx; lia).
  fold fx. rewrite (app_assoc hd fx), (pdirstrs_writes nbuf (dir_strs d) (hd ++ fx));
    [|by apply dir_strs_small|rewrite length_app; lia|rewrite !length_drop; fold st; lia
     |fold st; lia].
  cbn [mbind option_bind]. fold st.
  replace (0 + len hd + len fx + len st) with (dir_size d) by lia.
  rewrite Z.eqb_refl. by rewrite <- !app_assoc.
Qed.

(** Without room for the entry [convD2M] returns [BIT16SZ] and leaves in the first two
    bytes the size the entry needs. *)
Theorem convD2M_short d buf nbuf :
  in_u 16 (dir_size d - BIT16SZ) -> BIT16SZ <= nbuf < dir_size d -> nbuf <= len buf ->
  exists buf', convD2M d buf nbuf = Some (BIT16SZ, buf') /\ length buf' = length buf /\
    GBIT16 buf' 0 = Some (dir_size d - BIT16SZ).
Proof.
  intros Hd Hn Hb. unfold convD2M. rewrite dir_size_sum by done.
  assert (in_s 32 (dir_size d) /\ in_u 32 (dir_size d)) as [H1 H2]
    by (unfold BIT16SZ in *; split; range).
  rewrite (swrap_small 32) by (done || lia). rewrite (wrap_small 32) by done.
  destruct (Z.ltb_spec nbuf BIT16SZ); [lia|].
  destruct (Z.ltb_spec nbuf (dir_size d)); [|lia].
  destruct buf as [|b0 [|b1 buf]]; cbn [length] in Hb; try (unfold BIT16SZ in *; lia).
  pose proof (writes_wr (PBIT16 (dir_size d - BIT16SZ)) [] [b0; b1] buf 0 eq_refl eq_refl) as W.
  cbn [app] in W. rewrite W. cbn [mbind option_bind].
  eexists. split; [done|]. split; [rewrite length_app; done|].
  rewrite (GBIT16_app [] buf _ 0 eq_refl : GBIT16 (PBIT16 _ ++ buf) 0 = _).
  by rewrite wrap_small.
Qed.

(** ** Unpacking *)

(** Copying a string and its NUL into the first of two adjacent pieces of memory. *)
Lemma copy_str (a b s : bytes) q :
  0 <= q -> q + len s + 1 <= len a ->
  exists a2,
    (m1 ← store (a ++ b) q s; m2 ← store m1 (q + len s) [0]; Some (m2, Some (q + len s + 1)))
      = Some (a2 ++ b, Some (q + len s + 1)) /\
    length a2 = length a /\
    load (a2 ++ b) q (len (s ++ [0])) = Some (s ++ [0]) /\
    forall x n, x + n <= q -> load (a2 ++ b) x n = load (a ++ b) x n.
Proof.
  intros Hq H.
  destruct (store_Some a q s) as (a1 & E1 & L1); [lia..|].
  destruct (store_Some a1 (q + len s) [0]) as (a2 & E2 & L2); [lia|cbn [length]; lia|].
  assert (store (a ++ b) q s = Some (a1 ++ b)) as F1 by (rewrite store_app_l, E1 by lia; done).
  assert (store (a1 ++ b) (q + len s) [0] = Some (a2 ++ b)) as F2
    by (rewrite store_app_l, E2 by (cbn [length]; lia); done).
  exists a2. rewrite F1. cbn [mbind option_bind]. rewrite F2. split_and!; [done|lia| |].
  - rewrite length_app, Nat2Z.inj_add. apply load_plus; [|exact (load_store _ _ _ _ F2)].
    rewrite (store_frame _ _ _ _ _ _ F2) by lia. exact (load_store _ _ _ _ F1).
  - intros. rewrite (store_frame _ _ _ _ _ _ F2), (store_frame _ _ _ _ _ _ F1) by lia. done.
Qed.

(** The copies may go over the entry itself as long as they start below the strings. *)
Lemma convM2D_strs_decodes ebuf ss : forall pre post p q,
  Forall (fun s => in_u 16 (len s)) ss ->
  p = len pre -> p + len (concat (map estring ss)) <= ebuf -> 0 <= q <= p ->
  exists m', convM2D_strs (pre ++ concat (map estring ss) ++ post) ebuf p (Some q) (length ss)
    = Some (m', Some (p + len (concat (map estring ss)), ss)) /\
    load m' q (len (packed ss)) = Some (packed ss) /\
    forall x n, x + n <= q ->
      load m' x n = load (pre ++ concat (map estring ss) ++ post) x n.
Proof.
  induction ss as [|s ss IH]; intros pre post p q Hss Hp He Hq.
  { eexists. cbn [length convM2D_strs map concat packed]. split; [do 4 f_equal; cbn; lia|].
    split; [|done]. unfold load. cbn [length app].
    replace (_ && _) with true by (symmetry; rewrite !andb_true_iff, !Z.leb_le, length_app; cbn; lia).
    done. }
  inversion_clear Hss as [|? ? Hs Hr]. cbn [length convM2D_strs map concat] in *.
  rewrite length_app, Nat2Z.inj_add, estring_len in He.
  destruct (Z.ltb_spec ebuf (p + BIT16SZ)); [lia|].
  replace (pre ++ (estring s ++ concat (map estring ss)) ++ post)
    with (pre ++ PBIT16 (len s) ++ s ++ concat (map estring ss) ++ post)
    by (unfold estring; by rewrite <- !app_assoc).
  rewrite GBIT16_app by done. cbn [mbind option_bind]. rewrite wrap_small by done.
  destruct (Z.ltb_spec ebuf (p + BIT16SZ + len s)); [lia|].
  rewrite (app_assoc pre (PBIT16 _)).
  rewrite load_app by (autorewrite with c_length; unfold BIT16SZ; lia).
  cbn [mbind option_bind]. rewrite (app_assoc (pre ++ _) s).
  assert (len ((pre ++ PBIT16 (len s)) ++ s) = p + BIT16SZ + len s) as La
    by (autorewrite with c_length; unfold BIT16SZ; lia).
  destruct (copy_str _ (concat (map estring ss) ++ post) s q ltac:(lia)
    ltac:(rewrite La; unfold BIT16SZ; lia)) as (a2 & C & L2 & Hl2 & Hf2).
  rewrite C. cbn [mbind option_bind fst snd].
  destruct (IH a2 post (p + BIT16SZ + len s) (q + len s + 1)) as (m' & -> & Hl & Hf);
    [done|lia|lia|unfold BIT16SZ in *; lia|].
  cbn [mbind option_bind fst snd]. exists m'. split_and!.
  - do 4 f_equal. rewrite length_app, Nat2Z.inj_add, estring_len. lia.
  - change (packed (s :: ss)) with ((s ++ [0]) ++ packed ss).
    rewrite (length_app (s ++ [0])), Nat2Z.inj_add. rewrite (length_app s [0]) in *. cbn [length] in *.
    apply load_plus; [rewrite Hf by lia; done|].
    by replace (q + Z.of_nat (length s + 1)) with (q + len s + 1) by lia.
  - intros x n Hx. rewrite Hf by lia. by apply Hf2.
Qed.

Lemma GBIT8_skip a m p : len a <= p -> GBIT8 (a ++ m) p = GBIT8 m (p - len a).
Proof. intros. unfold GBIT8. by rewrite load_skip. Qed.
Lemma GBIT16_skip a m p : len a <= p -> GBIT16 (a ++ m) p = GBIT16 m (p - len a).
Proof. intros. unfold GBIT16. by rewrite load_skip. Qed.
Lemma GBIT32_skip a m p : len a <= p -> GBIT32 (a ++ m) p = GBIT32 m (p - len a).
Proof. intros. unfold GBIT32. by rewrite load_skip. Qed.
Lemma GBIT64_skip a m p : len a <= p -> GBIT64 (a ++ m) p = GBIT64 m (p - len a).
Proof. intros. unfold GBIT64. by rewrite load_skip. Qed.

(** Fetches a field at a constant offset of concatenated fields. *)
Ltac fetch :=
  repeat first
    [ rewrite GBIT8_skip by (autorewrite with c_length; lia)
    | rewrite GBIT16_skip by (autorewrite with c_length; lia)
    | rewrite GBIT32_skip by (autorewrite with c_length; lia)
    | rewrite GBIT64_skip by (autorewrite with c_length; lia) ];
  first [ apply (GBIT8_app []) | apply (GBIT16_app []) | apply (GBIT32_app [])
        | apply (GBIT64_app []) ];
  autorewrite with c_length; cbn [length]; lia.

Lemma encode_dir_fields d pre post buf :
  buf = len pre ->
  let m := pre ++ encode_dir d ++ post in
  GBIT16 m (buf + 2) = Some (u16 (d_type d)) /\
  GBIT32 m (buf + 4) = Some (u32 (d_dev d)) /\
  GBIT8 m (buf + 8) = Some (u8 (q_type (d_qid d))) /\
  GBIT32 m (buf + 9) = Some (u32 (q_vers (d_qid d))) /\
  GBIT64 m (buf + 13) = Some (s64 (q_path (d_qid d))) /\
  GBIT32 m (buf + 21) = Some (u32 (d_mode d)) /\
  GBIT32 m (buf + 25) = Some (u32 (d_atime d)) /\
  GBIT32 m (buf + 29) = Some (u32 (d_mtime d)) /\
  GBIT64 m (buf + 33) = Some (s64 (d_length d)).
Proof.
  intros Hb. cbv zeta. unfold encode_dir, encode_dir_fixed, eqid. rewrite <- !app_assoc.
  split_and!; fetch.
Qed.

(** [convM2D] recovers the entry [convD2M] packed, whatever surrounds it in memory; the
    four strings lie one after the other, each with its NUL, from [strs] on, even when [strs]
    points into the entry itself (below its strings). *)
Theorem convM2D_decodes d d0 pre post buf nbuf q :
  wf_dir d -> buf = len pre -> dir_size d <= nbuf -> 0 <= q <= buf + 41 ->
  exists m', convM2D (pre ++ encode_dir d ++ post) buf nbuf d0 (Some q)
    = Some (dir_size d,
        mkDir (d_type d) (d_dev d) (d_qid d) (d_mode d) (d_atime d) (d_mtime d) (d_length d)
          (Some (str_bytes (d_name d))) (Some (str_bytes (d_uid d)))
          (Some (str_bytes (d_gid d))) (Some (str_bytes (d_muid d)))
          (d_uidnum d0) (d_gidnum d0) (d_muidnum d0) (Some []), m') /\
    load m' q (len (packed (map str_bytes (dir_strs d))))
      = Some (packed (map str_bytes (dir_strs d))).
Proof.
  intros (Ht & Hdev & (Hqp & Hqv & Hqt) & Hm & Ha & Hmt & Hlen & _ & Hsz) Hb Hn Hq.
  assert (STATFIXLEN <= dir_size d) by (unfold dir_size; lia).
  unfold convM2D. destruct (Z.ltb_spec nbuf STATFIXLEN); [lia|].
  destruct (encode_dir_fields d pre post buf Hb) as (-> & -> & -> & -> & -> & -> & -> & -> & ->).
  cbn [mbind option_bind].
  pose proof (len_encode_dir d) as Hl. unfold encode_dir in *.
  rewrite (app_assoc _ (encode_dir_fixed d)) in Hl |- *.
  set (hd := PBIT16 (dir_size d - BIT16SZ) ++ encode_dir_fixed d) in *.
  rewrite <- (app_assoc hd), (app_assoc pre hd). rewrite length_app, Nat2Z.inj_add in Hl.
  assert (len hd = 41) as Lhd by done.
  destruct (convM2D_strs_decodes (buf + nbuf) (map str_bytes (dir_strs d)) (pre ++ hd) post
    (buf + 41) q) as (m' & E & Hs & _).
  - apply Forall_map. by apply dir_strs_small.
  - rewrite length_app. lia.
  - lia.
  - done.
  - rewrite length_map in E. cbn [length dir_strs] in E. rewrite E. cbn [mbind option_bind].
    exists m'. split; [|done].
    replace (buf + 41 + _ - buf) with (dir_size d) by lia.
    unfold dir_strs. cbn [map lookup list_lookup].
    rewrite wrap_swrap, !wrap_small, swrap_small by (done || lia).
    by destruct (d_qid d).
Qed.

(** *** [statcheck] *)

Lemma statcheck_strs_le m e p n p' :
  is_bytes m -> 0 <= p -> e <= len m -> statcheck_strs m e p n = Some (Some p') -> p <= p'.
Proof.
  intros Hm Hp He. revert p Hp. induction n as [|n IH]; cbn [statcheck_strs]; intros p Hp H.
  - injection H as <-. lia.
  - destruct (Z.ltb_spec e (p + BIT16SZ)); [done|].
    destruct (GBIT16_Some m p) as (k & E & Hk); [done|lia|unfold BIT16SZ in *; lia|].
    rewrite E in H. cbn [mbind option_bind] in H.
    apply IH in H; unfold BIT16SZ in *; range.
Qed.

Lemma statcheck_strs_total m e p n :
  is_bytes m -> 0 <= p -> e <= len m -> exists r, statcheck_strs m e p n = Some r.
Proof.
  intros Hm Hp He. revert p Hp. induction n as [|n IH]; cbn [statcheck_strs]; intros p Hp; [eauto|].
  destruct (Z.ltb_spec e (p + BIT16SZ)); [eauto|].
  destruct (GBIT16_Some m p) as (k & -> & Hk); [done|lia|unfold BIT16SZ in *; lia|].
  apply IH. unfold BIT16SZ; range.
Qed.

(** The loop of [statcheck] ends at [e] exactly when that of [convM2D] does. *)
Lemma statcheck_convM2D_strs m e p n :
  is_bytes m -> 0 <= p -> e <= len m ->
  statcheck_strs m e p n = Some (Some e) <->
  exists sv, convM2D_strs m e p None n = Some (m, Some (e, sv)).
Proof.
  intros Hm Hp He. revert p Hp.
  induction n as [|n IH]; cbn [statcheck_strs convM2D_strs]; intros p Hp.
  - split; [intros [= ->]; by eexists|by intros (sv & [= -> _])].
  - destruct (Z.ltb_spec e (p + BIT16SZ)); [split; [done|by intros (? & ?)]|].
    destruct (GBIT16_Some m p) as (k & -> & Hk); [done|lia|unfold BIT16SZ in *; lia|].
    cbn [mbind option_bind]. rewrite Z.add_assoc.
    destruct (Z.ltb_spec e (p + BIT16SZ + k)).
    + split; [|by intros (? & ?)]. intros Hs.
      apply statcheck_strs_le in Hs; try done; unfold BIT16SZ in *; range.
    + destruct (load_Some m (p + BIT16SZ) k) as (s & -> & _); [unfold BIT16SZ in *; range..|].
      cbn [mbind option_bind fst snd].
      rewrite IH by (unfold BIT16SZ in *; range). split.
      * intros (sv & ->). by eexists.
      * intros (sv & E). destruct (convM2D_strs m e _ None n) as [[m' [[p' sv']|]]|];
          cbn in E; try done. injection E as -> -> <-. by eexists.
Qed.

(** [statcheck] accepts exactly the buffers whose count is right and that [convM2D] unpacks
    up to their last byte. *)
Theorem statcheck_spec buf n d :
  is_bytes buf -> n <= len buf ->
  (statcheck buf n = Some 0 \/ statcheck buf n = Some (-1)) /\
  (statcheck buf n = Some 0 <->
   STATFIXLEN <= n /\ GBIT16 buf 0 = Some (n - BIT16SZ) /\
   exists d', convM2D buf 0 n d None = Some (n, d', buf)).
Proof.
  intros Hb Hn. unfold statcheck, convM2D.
  destruct (Z.ltb_spec n STATFIXLEN) as [|Hs]; [split; [by right|split; [done|lia]]|].
  assert (STATFIXLEN = 49) as E49 by done. rewrite !Z.add_0_l.
  destruct (GBIT16_Some buf 0) as (k & Ek & Hk); [done|lia..|]. rewrite Ek.
  cbn [mbind option_bind].
  destruct (Z.eqb_spec n (BIT16SZ + k)) as [->|Hne]; cbn [negb].
  2: { split; [by right|]. split; [done|]. intros (_ & [= ->] & _). lia. }
  destruct (GBIT16_Some buf 2) as (? & -> & _); [done|lia..|].
  destruct (GBIT32_Some buf 4) as (? & -> & _); [done|lia..|].
  destruct (GBIT8_Some buf 8) as (? & -> & _); [done|lia..|].
  destruct (GBIT32_Some buf 9) as (? & -> & _); [done|lia..|].
  destruct (GBIT64_Some buf 13) as (? & -> & _); [done|lia..|].
  destruct (GBIT32_Some buf 21) as (? & -> & _); [done|lia..|].
  destruct (GBIT32_Some buf 25) as (? & -> & _); [done|lia..|].
  destruct (GBIT32_Some buf 29) as (? & -> & _); [done|lia..|].
  destruct (GBIT64_Some buf 33) as (? & -> & _); [done|lia..|].
  cbn [mbind option_bind].
  destruct (statcheck_strs_total buf (BIT16SZ + k) 41 4) as (r & Er); [done..|].
  pose proof (statcheck_convM2D_strs buf (BIT16SZ + k) 41 4 Hb ltac:(done) Hn) as Hiff.
  change (STATFIXLEN - 4 * BIT16SZ) with 41. rewrite Er in Hiff |- *.
  cbn [mbind option_bind]. split.
  - destruct r; bcase; auto.
  - split.
    + intros Hr. destruct r as [p|]; [|done]. destruct (Z.eqb_spec p (BIT16SZ + k)) as [->|]; [|done].
      split_and!; [done|f_equal; lia|]. destruct (proj1 Hiff eq_refl) as (sv & ->).
      cbn. rewrite Z.sub_0_r. by eexists.
    + intros (_ & _ & d' & Hd).
      destruct (convM2D_strs buf _ 41 None 4) as [[m [[p sv]|]]|]; cbn in Hd; [|injection Hd; lia|done].
      injection Hd as Hp _ ->. replace p with (BIT16SZ + k) in Hiff by lia.
      destruct Hiff as [_ Hr]. injection (Hr (ex_intro _ sv eq_refl)) as ->.
      by rewrite Z.eqb_refl.
Qed.

(** *** No room for the strings *)

Lemma statcheck_strs_encode e ss : forall pre post p,
  Forall (fun s => in_u 16 (len s)) ss -> p = len pre -> p + len (concat (map estring ss)) <= e ->
  statcheck_strs (pre ++ concat (map estring ss) ++ post) e p (length ss) = Some (Some (p + len (concat (map estring ss)))).
Proof.
  induction ss as [|s ss IH]; intros pre post p Hss -> Hp; cbn [length statcheck_strs map concat]; [do 2 f_equal; cbn; lia|].
  inversion_clear Hss as [|? ? Hs Hr]. cbn [map concat] in Hp. rewrite length_app, Nat2Z.inj_add, estring_len in *.
  destruct (Z.ltb_spec e (len pre + BIT16SZ)); [lia|].
  pose proof (IH (pre ++ estring s) post (len (pre ++ estring s)) Hr eq_refl) as E.
  rewrite length_app, Nat2Z.inj_add, estring_len in E.
  replace ((pre ++ estring s) ++ concat (map estring ss) ++ post) with (pre ++ (estring s ++ concat (map estring ss)) ++ post) in E
    by (by rewrite <- !app_assoc).
  assert (GBIT16 (pre ++ (estring s ++ concat (map estring ss)) ++ post) (len pre) = Some (len s)) as ->.
  { replace (estring s) with (PBIT16 (len s) ++ s) by done. rewrite <- !app_assoc, GBIT16_app by done. by rewrite wrap_small. }
  cbn [mbind option_bind]. rewrite E by lia. do 2 f_equal. lia.
Qed.

(** The entry as [convM2D] unpacks it: strings that are not nil, and the fields that are not in
    the machine-independent form as they were in [d0]. *)
Definition unpacked (d d0 : Dir) : Dir :=
  mkDir (d_type d) (d_dev d) (d_qid d) (d_mode d) (d_atime d) (d_mtime d) (d_length d)
    (Some (str_bytes (d_name d))) (Some (str_bytes (d_uid d))) (Some (str_bytes (d_gid d))) (Some (str_bytes (d_muid d)))
    (d_uidnum d0) (d_gidnum d0) (d_muidnum d0) (Some []).


Lemma convM2D_strs_None m e p n m' r :
  convM2D_strs m e p None n = Some (m', r) -> m' = m.
Proof.
  revert p r. induction n as [|n IH]; cbn [convM2D_strs]; intros p r H.
  - by injection H as <- <-.
  - destruct (_ <? _); [by injection H as <- <-|].
    destruct (GBIT16 m p) as [k|]; [|done]. cbn [mbind option_bind] in H.
    destruct (_ <? _); [by injection H as <- <-|].
    destruct (load m _ k); [|done]. cbn [mbind option_bind fst snd] in H.
    destruct (convM2D_strs m e _ None n) as [[m1 r1]|] eqn:E; [|done].
    injection H as <- _. by apply IH in E.
Qed.

(** When [strs] is nil the memory is untouched and the string fields of the entry point
    at the empty string (the manual page fcall(3) says that they are nil). *)
Theorem convM2D_nil_strs m buf nbuf d n d' m' :
  convM2D m buf nbuf d None = Some (n, d', m') -> n <> 0 ->
  m' = m /\ dir_strs d' = replicate 4 (Some []) /\ d_ext d' = Some [].
Proof.
  intros H Hn. unfold convM2D in H. destruct (_ <? _); [injection H as <- <- <-; done|].
  inv_opt H. destruct p as [m1 [[p sv]|]]; injection H as <- <- <-; [|done].
  split_and!; [by eapply convM2D_strs_None|done..].
Qed.

(** ** Concrete instances *)

(** The entry of a file [a] owned by [u:g], last changed by nobody known. *)
Definition ex_dir : Dir :=
  mkDir 77 1 (mkQid 258 3 128) 2147484141 1000 2000 4096
    (Some [97]) (Some [117; 0; 9]) (Some [103]) None 0 0 0 None.

Lemma convD2M_encodes_witness :
  convD2M ex_dir (replicate 60 1) 60
  = Some (dir_size ex_dir, encode_dir ex_dir ++ drop (Z.to_nat (dir_size ex_dir)) (replicate 60 1)).
Proof. apply (convD2M_encodes ex_dir (replicate 60 1) 60); by_decide. Defined.

Lemma convD2M_short_witness :
  exists buf', convD2M ex_dir (replicate 20 1) 20 = Some (BIT16SZ, buf') /\
    length buf' = length (replicate 20 1) /\ GBIT16 buf' 0 = Some (dir_size ex_dir - BIT16SZ).
Proof. apply (convD2M_short ex_dir (replicate 20 1) 20); by_decide. Defined.

(** The strings go over the fixed part of the entry. *)
Lemma convM2D_decodes_witness :
  exists m', convM2D ([9; 9] ++ encode_dir ex_dir ++ [9]) 2 52 dir0 (Some 2)
    = Some (dir_size ex_dir,
        mkDir 77 1 (mkQid 258 3 128) 2147484141 1000 2000 4096
          (Some [97]) (Some [117]) (Some [103]) (Some []) 0 0 0 (Some []), m') /\
    load m' 2 (len (packed (map str_bytes (dir_strs ex_dir))))
      = Some (packed (map str_bytes (dir_strs ex_dir))).
Proof. apply (convM2D_decodes ex_dir dir0 [9; 9] [9] 2 52 2); first [by_decide | reflexivity]. Defined.


Lemma statcheck_spec_witness :
  let buf := encode_dir ex_dir in
  (statcheck buf 52 = Some 0 \/ statcheck buf 52 = Some (-1)) /\
  (statcheck buf 52 = Some 0 <->
   STATFIXLEN <= 52 /\ GBIT16 buf 0 = Some (52 - BIT16SZ) /\
   exists d', convM2D buf 0 52 dir0 None = Some (52, d', buf)).
Proof. apply (statcheck_spec (encode_dir ex_dir) 52 dir0); by_decide. Defined.

Lemma convM2D_nil_strs_witness :
  exists d', convM2D (encode_dir ex_dir) 0 52 dir0 None = Some (52, d', encode_dir ex_dir) /\
    dir_strs d' = replicate 4 (Some []).
Proof.
  eexists. split; [vm_compute; reflexivity|].
  eapply (convM2D_nil_strs (encode_dir ex_dir) 0 52 dir0 52); [vm_compute; reflexivity|done].
Defined.
