(* ===== verification/Codec.v ===== *)
(** * The 9P codec as a whole

    What [convS2M] and [convM2S] promise each other and their callers: the functional
    behaviour of both on messages, the round trip, that the wire format is a prefix code,
    the inputs on which [convS2M] leaves its buffer, and [lib9/read9pmsg.c], which takes one
    message off a file descriptor. *)

From S2P Require Import Prelude Fcall Wire ConvS2M ConvM2S.

(** ** [read9pmsg.c] and [readn.c] *)

(** A file descriptor: [fd_read w n] is [read(fd, buf, n)], the bytes it delivers (none at
    the end of the file) or [None] for its result -1. *)
Class Descriptor (W : Type) := fd_read : W -> Z -> option bytes * W.

(** The loop of [readn], which has [t] bytes in [buf] from [a] on. Each round adds at least
    one byte, so [n - t] rounds are enough. *)
Fixpoint readn_loop `{Descriptor W} (fuel : nat) (w : W) (buf : bytes) (a n t : Z)
    : option (Z * bytes * W) :=
  match fuel with
  | O => None
  | S fuel =>
      if t <? n then
        match fd_read w (n - t) with
        | (None, w) => Some (if t =? 0 then -1 else t, buf, w)
        | (Some [], w) => Some (if t =? 0 then 0 else t, buf, w)
        | (Some bs, w) => buf ← store buf (a + t) bs; readn_loop fuel w buf a n (t + len bs)
        end
      else Some (t, buf, w)
  end.

Definition readn `{Descriptor W} (w : W) (buf : bytes) (a n : Z) : option (Z * bytes * W) :=
  readn_loop (S (Z.to_nat n)) w buf a n 0.

(** [len > n] compares an [int] with an [uint]: both are taken modulo 2^32. *)
Definition read9pmsg `{Descriptor W} (w : W) (buf : bytes) (n : Z) : option (Z * bytes * W) :=
  '(m, buf, w) ← readn w buf 0 BIT32SZ;
  if negb (m =? BIT32SZ) then Some (if m <? 0 then -1 else 0, buf, w)
  else
    k ← GBIT32 buf 0;
    let k := s32 k in
    if (k <=? BIT32SZ) || (n <? u32 k) then Some (-1, buf, w)
    else
      let k := k - BIT32SZ in
      '(m, buf, w) ← readn w buf BIT32SZ k;
      if m <? k then Some (0, buf, w) else Some (BIT32SZ + m, buf, w).

(** What [read] of a stream without errors guarantees: it delivers the next bytes, no more
    than asked for, and at least one unless the stream is at its end. *)
Class Stream (W : Type) `{Descriptor W} := {
  pending : W -> bytes;
  fd_read_spec (w : W) (n : Z) : 0 < n ->
    exists bs w', fd_read w n = (Some bs, w') /\ len bs <= n /\
      pending w = bs ++ pending w' /\ (bs = [] -> pending w = []) }.

(** A stream that delivers its bytes in chunks. *)
Abbreviation chunks := (list bytes).
#[export] Instance chunks_read : Descriptor chunks := fun w n =>
  match filter (fun c : bytes => c <> []) w with
  | [] => (Some [], [])
  | c :: w => (Some (take (Z.to_nat n) c), drop (Z.to_nat n) c :: w)
  end.

Lemma concat_filter (w : chunks) : concat (filter (fun c : bytes => c <> []) w) = concat w.
Proof.
  induction w as [|c w IH]; [done|]. rewrite filter_cons. case_decide as Hc; cbn.
  - by rewrite IH.
  - by subst c.
Qed.

#[export] Program Instance chunks_stream : Stream chunks := {| pending := @concat Z |}.
Next Obligation.
  intros w n Hn. unfold fd_read, chunks_read. pose proof (concat_filter w) as E.
  destruct (filter _ w) as [|c w'] eqn:Ew; cbn in *.
  - exists [], []. cbn. split_and!; (done || lia).
  - eexists _, _. split; [done|]. split; [rewrite length_take; lia|].
    cbn. rewrite app_assoc, take_drop. split; [done|]. intros H0.
    assert (c <> []) by (apply (list_elem_of_filter (fun c : bytes => c <> []) w); rewrite Ew; left).
    destruct c; [done|]. destruct (Z.to_nat n) eqn:?; [lia|done].
Qed.

(** ** Lemmas *)

Section stream.
Context `{Stream W}.
Implicit Types (w : W) (buf got : bytes).

Lemma readn_loop_stream fuel : forall w buf a n t,
  n - t < Z.of_nat fuel -> 0 <= t <= n -> 0 <= a -> a + n <= len buf ->
  exists got buf' w', readn_loop fuel w buf a n t = Some (t + len got, buf', w') /\
    store buf (a + t) got = Some buf' /\ pending w = got ++ pending w' /\
    t + len got <= n /\ (t + len got < n -> pending w' = []).
Proof.
  induction fuel as [|fuel IH]; intros w buf a n t Hf Ht Ha Hb; [lia|]. cbn [readn_loop].
  assert (store buf (a + t) [] = Some buf) as S0 by (apply store_nil; lia).
  destruct (Z.ltb_spec t n).
  2: { exists [], buf, w. cbn [length]. rewrite Z.add_0_r. split_and!; (done || lia). }
  destruct (fd_read_spec w (n - t) ltac:(lia)) as (bs & w' & -> & Hl & Hp & He).
  destruct bs as [|b bs].
  { exists [], buf, w'. cbn [length]. rewrite Z.add_0_r.
    split_and!; try (done || lia); [|by rewrite <- He].
    destruct (Z.eqb_spec t 0) as [->|]; done. }
  destruct (store_Some buf (a + t) (b :: bs)) as (b1 & E1 & L1); [lia..|].
  rewrite E1. cbn [mbind option_bind].
  destruct (IH w' b1 a n (t + len (b :: bs))) as (got & b2 & w2 & -> & E2 & Hp2 & Hn & Hz);
    try (cbn [length] in *; lia).
  exists ((b :: bs) ++ got), b2, w2. rewrite length_app, Nat2Z.inj_add, Z.add_assoc.
  split_and!; try done.
  - eapply store_plus; [exact E1|]. by rewrite <- Z.add_assoc.
  - rewrite Hp, Hp2. by rewrite app_assoc.
Qed.

(** [readn] stores the next [n] bytes of the stream, or what is left of it. *)
Lemma readn_stream w buf a n :
  0 <= n -> 0 <= a -> a + n <= len buf ->
  exists got buf' w', readn w buf a n = Some (len got, buf', w') /\
    store buf a got = Some buf' /\ pending w = got ++ pending w' /\
    len got <= n /\ (len got < n -> pending w' = []).
Proof.
  intros. destruct (readn_loop_stream (S (Z.to_nat n)) w buf a n 0)
    as (got & buf' & w' & E & H'); try lia.
  exists got, buf', w'. unfold readn. rewrite E. by rewrite Z.add_0_r in H'.
Qed.

(** The stream has enough bytes. *)
Lemma readn_full w buf a n bs rest :
  0 <= a -> a + n <= len buf -> n = len bs -> pending w = bs ++ rest ->
  exists buf' w', readn w buf a n = Some (n, buf', w') /\ store buf a bs = Some buf' /\
    pending w' = rest.
Proof.
  intros Ha Hb Hn Hp. destruct (readn_stream w buf a n) as (got & b & w' & E & Es & Hp' & Hl & Hz);
    [lia..|]. rewrite Hp in Hp'.
  assert (len got = n) as Hg.
  { destruct (Z.lt_ge_cases (len got) n) as [Hlt|]; [|lia]. rewrite (Hz Hlt), app_nil_r in Hp'.
    apply (f_equal length) in Hp'. rewrite length_app in Hp'. lia. }
  apply app_inj_1 in Hp' as [<- ->]; [|lia]. exists b, w'. by rewrite E, Hg.
Qed.

(** C40: however the stream cuts a message into pieces, [read9pmsg] delivers exactly the
    message at its head, and leaves the stream at the next one. *)
Theorem read9pmsg_message w buf n tag m rest :
  wf_msg m -> pending w = encode tag m ++ rest ->
  msg_size m <= n -> n <= len buf -> msg_size m < 2 ^ 31 ->
  exists buf' w', read9pmsg w buf n = Some (msg_size m, buf', w') /\
    buf' = encode tag m ++ drop (length (encode tag m)) buf /\ pending w' = rest.
Proof.
  intros [Hs _] Hp Hn Hb H31. pose proof (len_encode tag m) as Hl.
  assert (7 <= msg_size m) by (unfold msg_size, BIT32SZ, BIT8SZ, BIT16SZ; lia).
  unfold encode in Hp. rewrite <- app_assoc in Hp. unfold read9pmsg.
  destruct (readn_full w buf 0 BIT32SZ (PBIT32 (msg_size m)) _ ltac:(lia)
    ltac:(unfold BIT32SZ; lia) eq_refl Hp) as (b1 & w1 & -> & E1 & Hp1). cbn [mbind option_bind].
  apply store_inv in E1 as ([|] & old & post & -> & -> & L0 & Lo); [|cbn in L0; lia].
  cbn [app] in *. change (negb _) with false. cbn iota.
  rewrite (GBIT32_app [] post _ 0 eq_refl : GBIT32 (PBIT32 _ ++ post) 0 = _).
  cbn [mbind option_bind]. rewrite wrap_small by done. rewrite swrap_small by (done || range).
  rewrite wrap_small by done. unfold BIT32SZ in *.
  destruct (Z.leb_spec (msg_size m) 4); [lia|]. destruct (Z.ltb_spec n (msg_size m)); [lia|].
  cbn [orb].
  set (body := PBIT8 _ ++ _ ++ _) in *.
  assert (len body = msg_size m - 4) as Lb
    by (rewrite <- Hl; unfold encode; fold body; autorewrite with c_length; lia).
  rewrite length_app, PBIT32_length in *.
  destruct (readn_full w1 (PBIT32 (msg_size m) ++ post) 4 (msg_size m - 4) body rest)
    as (b2 & w2 & -> & E2 & Hp2);
    [lia|rewrite length_app, PBIT32_length; lia|lia|done|].
  cbn [mbind option_bind]. destruct (Z.ltb_spec (msg_size m - 4) (msg_size m - 4)); [lia|].
  exists b2, w2. split; [do 3 f_equal; lia|]. split; [|done].
  apply store_inv in E2 as (pre & old2 & post2 & E & -> & L2 & Lo2).
  apply app_inj_1 in E as [<- ->]; [|rewrite PBIT32_length; lia].
  unfold encode. fold body. rewrite <- app_assoc. do 2 f_equal.
  rewrite !app_assoc, drop_app_ge; rewrite ?length_app, ?PBIT32_length; [|lia].
  by rewrite (proj2 (Nat.sub_0_le _ _)) by lia.
Qed.
End stream.

(** ** Packing *)

(** C7: [convS2M] on a structure that describes a message: with room for it the buffer starts
    with the encoding of the message and keeps its other bytes; without, it is untouched and
    the result is 0. *)
Theorem convS2M_correct f m ap nap :
  msg_of f = Some m -> in_u 32 (msg_size m) -> nap <= len ap ->
  convS2M f ap nap =
    if nap <? msg_size m then Some (0, ap)
    else Some (msg_size m, encode (f_tag f) m ++ drop (Z.to_nat (msg_size m)) ap).
Proof.
  intros Hm Hs Hap.
  destruct (Z.ltb_spec nap (msg_size m)); [by apply (convS2M_short f m)|by apply convS2M_run].
Qed.

(** C1: what [convS2M] packs, [convM2S] unpacks to a structure that describes the same
    message with the same tag, whatever the structure and the rest of the buffer held. *)
Theorem codec_roundtrip f m ap nap f0 nap' :
  msg_of f = Some m -> wf_msg m -> in_u 16 (f_tag f) ->
  msg_size m <= nap -> nap <= len ap ->
  length (f_wname f0) = 16%nat -> length (f_wqid f0) = 16%nat -> msg_size m <= nap' ->
  exists buf f' buf', convS2M f ap nap = Some (msg_size m, buf) /\
    convM2S buf nap' f0 = Some (msg_size m, f', buf') /\
    msg_of f' = Some m /\ f_tag f' = f_tag f.
Proof.
  intros Hm Hwf Ht Hn Hap Hw Hq Hn'.
  destruct (convM2S_run (f_tag f) m (drop (Z.to_nat (msg_size m)) ap) nap' f0)
    as (f' & buf' & E & ? & ?); [done..|].
  eexists _, f', buf'. split; [by apply convS2M_run; [|apply Hwf|..]|done].
Qed.

(** The wire format is a prefix code: no encoding of a message is the start of the
    encoding of another one, so a stream of messages has one reading. *)
Theorem encode_prefix_free tag tag' m m' rest rest' :
  wf_msg m -> wf_msg m' -> in_u 16 tag -> in_u 16 tag' ->
  encode tag m ++ rest = encode tag' m' ++ rest' ->
  tag = tag' /\ m = m' /\ rest = rest'.
Proof.
  intros Hm Hm' Ht Ht' E. pose (n := Z.max (msg_size m) (msg_size m')).
  destruct (convM2S_run tag m rest n fcall0) as (f1 & b1 & E1 & M1 & T1); [done..|lia|].
  destruct (convM2S_run tag' m' rest' n fcall0) as (f2 & b2 & E2 & M2 & T2); [done..|lia|].
  rewrite E, E2 in E1. injection E1 as Hs <- <-.
  rewrite M1 in M2. injection M2 as <-. subst tag tag'. split_and!; [done..|].
  by apply app_inv_head in E.
Qed.

(** ** Structures that describe no message *)

(** The size of an [Rread] is a 32-bit sum: with a count within 11 of 2^32 it wraps to a
    few bytes, passes the test against the buffer, and [convS2M] writes past the end of it. *)
Theorem convS2M_count_overflow f ap nap :
  f_type f = mtype_num Rread -> 2 ^ 32 - 11 < f_count f < 2 ^ 32 ->
  f_count f + 11 - 2 ^ 32 <= nap -> nap <= len ap -> len ap < f_count f ->
  sizeS2M f = Some (f_count f + 11 - 2 ^ 32) /\ convS2M f ap nap = None.
Proof.
  intros Ht Hc Hn Hap Hl.
  assert (sizeS2M f = Some (f_count f + 11 - 2 ^ 32)) as Es.
  { unfold sizeS2M. rewrite Ht, mtype_of_num. cbv [BIT32SZ BIT8SZ BIT16SZ]. f_equal.
    unfold wrap. rewrite <- (Zmod_unique_full _ (2 ^ 32) 1 (f_count f + 11 - 2 ^ 32)); [done|left; lia|lia]. }
  split; [done|]. unfold convS2M. rewrite Es. cbn [mbind option_bind].
  destruct (Z.eqb_spec (f_count f + 11 - 2 ^ 32) 0); [lia|].
  destruct (Z.ltb_spec nap (f_count f + 11 - 2 ^ 32)); [lia|].
  rewrite Ht, mtype_of_num. cbn [is_T mtype_num Z.even convS2M_R].
  assert (forall bs m p r, wr bs m p = Some r -> exists m', r = Next m' (p + len bs) /\
    length m' = length m) as W.
  { intros bs m p r Hw. unfold wr in Hw. destruct (store m p bs) eqn:E; [|done].
    injection Hw as <-. apply store_length in E. eauto. }
  unfold wseq, wmemmove.
  repeat (match goal with |- context [wr ?bs ?m ?p] =>
    destruct (wr bs m p) as [r|] eqn:Ew; [apply W in Ew as (? & -> & ?)|done] end).
  destruct (Z.eqb_spec (f_count f) 0); [lia|].
  destruct (f_data f ≫= _) as [bs|] eqn:Ed; [|done].
  destruct (f_data f) as [d|]; [|done]. cbn in Ed. apply load_inv in Ed as (_ & _ & _ & Lb & _).
  unfold wr. match goal with |- context [store ?m ?p bs] =>
    destruct (store m p bs) as [m'|] eqn:E; [|done] end.
  apply store_inv in E as (pre & old & post & E & _ & _ & Lo).
  apply (f_equal length) in E. rewrite !length_app in E. lia.
Qed.

(** [sizeS2M] walks the names of a [Twalk] before [convS2M] tests their number: with more
    names than the array holds it reads past the array, whatever the buffer. *)
Theorem convS2M_nwname_overrun f ap nap :
  f_type f = mtype_num Twalk -> len (f_wname f) < f_nwname f ->
  convS2M f ap nap = None.
Proof.
  intros Ht Hn. unfold convS2M, sizeS2M. rewrite Ht, mtype_of_num.
  assert (forall ws n, (length ws < n)%nat -> sznames ws n = None) as ->.
  { induction ws as [|w ws IH]; intros [|n] H; cbn in *; try lia; [done|].
    rewrite IH by lia. done. }
  - done.
  - lia.
Qed.

(** ** Concrete instances *)

(** [Tversion 8192 "9P2000"] with tag NOTAG. *)
Definition ex_version : Fcall :=
  fcall0 <| f_type := 100 |> <| f_tag := 65535 |> <| f_msize := 8192 |>
         <| f_version := Some [57; 80; 50; 48; 48; 48] |>.
Definition ex_msg : msg := MTversion 8192 [57; 80; 50; 48; 48; 48].
Definition ex_clunk : msg := MTclunk 7.

Lemma read9pmsg_message_witness :
  let w := [[19; 0]; [0; 0; 100]; []; [255; 255; 0; 32; 0; 0; 6; 0; 57; 80; 50; 48];
            [48; 48; 11; 0]] in
  exists buf' w', read9pmsg w (replicate 32 1) 32 = Some (msg_size ex_msg, buf', w') /\
    buf' = encode 65535 ex_msg ++ drop (length (encode 65535 ex_msg)) (replicate 32 1) /\
    pending w' = [11; 0].
Proof.
  cbv zeta. apply (read9pmsg_message _ _ 32 65535 ex_msg [11; 0]);
    [by_decide|vm_compute; reflexivity|by_decide|by_decide|by_decide].
Defined.

Lemma convS2M_correct_witness :
  convS2M ex_version (replicate 21 1) 21
  = if 21 <? msg_size ex_msg then Some (0, replicate 21 1)
    else Some (msg_size ex_msg,
      encode 65535 ex_msg ++ drop (Z.to_nat (msg_size ex_msg)) (replicate 21 1)).
Proof.
  apply (convS2M_correct ex_version ex_msg (replicate 21 1) 21);
    [vm_compute; reflexivity|by_decide|by_decide].
Defined.

Lemma codec_roundtrip_witness :
  exists buf f' buf', convS2M ex_version (replicate 21 1) 21 = Some (msg_size ex_msg, buf) /\
    convM2S buf 19 fcall0 = Some (msg_size ex_msg, f', buf') /\
    msg_of f' = Some ex_msg /\ f_tag f' = 65535.
Proof.
  apply (codec_roundtrip ex_version ex_msg (replicate 21 1) 21 fcall0 19);
    first [by_decide | vm_compute; reflexivity].
Defined.

Lemma encode_prefix_free_witness :
  65535 = 65535 /\ ex_msg = ex_msg /\ @nil Z = [].
Proof.
  apply (encode_prefix_free 65535 65535 ex_msg ex_msg [] []); first [by_decide | reflexivity].
Defined.

Lemma convS2M_count_overflow_witness :
  let f := fcall0 <| f_type := 117 |> <| f_count := 4294967290 |> <| f_data := Some [] |> in
  sizeS2M f = Some (f_count f + 11 - 2 ^ 32) /\ convS2M f (replicate 64 0) 64 = None.
Proof.
  apply (convS2M_count_overflow
    (fcall0 <| f_type := 117 |> <| f_count := 4294967290 |> <| f_data := Some [] |>)
    (replicate 64 0) 64); first [reflexivity | by_decide].
Defined.

Lemma convS2M_nwname_overrun_witness :
  convS2M (fcall0 <| f_type := 110 |> <| f_nwname := 17 |>) (replicate 64 0) 64 = None.
Proof.
  apply (convS2M_nwname_overrun (fcall0 <| f_type := 110 |> <| f_nwname := 17 |>));
    first [reflexivity | by_decide].
Defined.
