(* ===== verification/Utf.v ===== *)
(** * UTF-8: [lib9/utf/rune.c] and the [utf*] functions

    Conversion between runes and UTF sequences, and the functions on NUL-terminated strings of
    UTF. A [char*] that is only read is the list of the bytes from it to the end of the object
    it points into: [s++] is the tail of the list, and reading the empty list is a fault. *)

From S2P Require Import Prelude Fcall.

(** ** Constants *)

Definition UTFmax : Z := 4.
Definition Runesync : Z := 0x80.
Definition Runeself : Z := 0x80.
Definition Runeerror : Z := 0xFFFD.
Definition Runemax : Z := 0x10FFFF.

Definition Bit1 : Z := 7.
Definition Bitx : Z := 6.
Definition Bit2 : Z := 5.
Definition Bit3 : Z := 4.
Definition Bit4 : Z := 3.
Definition Bit5 : Z := 2.
Definition T1 : Z := ((1 .<< (Bit1 + 1)) - 1) .^ 0xFF.
Definition Tx : Z := ((1 .<< (Bitx + 1)) - 1) .^ 0xFF.
Definition T2 : Z := ((1 .<< (Bit2 + 1)) - 1) .^ 0xFF.
Definition T3 : Z := ((1 .<< (Bit3 + 1)) - 1) .^ 0xFF.
Definition T4 : Z := ((1 .<< (Bit4 + 1)) - 1) .^ 0xFF.
Definition T5 : Z := ((1 .<< (Bit5 + 1)) - 1) .^ 0xFF.
Definition Rune1 : Z := (1 .<< (Bit1 + 0 * Bitx)) - 1.
Definition Rune2 : Z := (1 .<< (Bit2 + 1 * Bitx)) - 1.
Definition Rune3 : Z := (1 .<< (Bit3 + 2 * Bitx)) - 1.
Definition Rune4 : Z := (1 .<< (Bit4 + 3 * Bitx)) - 1.
Definition Maskx : Z := (1 .<< Bitx) - 1.
Definition Testx : Z := Maskx .^ 0xFF.
Definition Bad : Z := Runeerror.

(** ** [rune.c] *)

(** The rune and the number of bytes it took. *)
Definition chartorune (str : bytes) : option (Z * Z) :=
  let bad := Some (Bad, 1) in
  c ← str !! 0%nat;
  if c <? Tx then Some (c, 1)
  else
    c1 ← str !! 1%nat;
    let c1 := c1 .^ Tx in
    if negb ((c1 .& Testx) =? 0) then bad
    else if c <? T3 then
      if c <? T2 then bad
      else
        let l := ((c .<< Bitx) .| c1) .& Rune2 in
        if l <=? Rune1 then bad else Some (l, 2)
    else
      c2 ← str !! 2%nat;
      let c2 := c2 .^ Tx in
      if negb ((c2 .& Testx) =? 0) then bad
      else if c <? T4 then
        let l := ((((c .<< Bitx) .| c1) .<< Bitx) .| c2) .& Rune3 in
        if l <=? Rune2 then bad else Some (l, 3)
      else if 4 <=? UTFmax then
        c3 ← str !! 3%nat;
        let c3 := c3 .^ Tx in
        if negb ((c3 .& Testx) =? 0) then bad
        else if c <? T5 then
          let l := ((((((c .<< Bitx) .| c1) .<< Bitx) .| c2) .<< Bitx) .| c3) .& Rune4 in
          if l <=? Rune3 then bad
          else if Runemax <? l then bad
          else Some (l, 4)
        else bad
      else bad.

(** The bytes [runetochar] assigns to [str[0]], [str[1]], ... *)
Definition runetochar_bytes (rune : Z) : bytes :=
  let c := rune in
  if c <=? Rune1 then [u8 c]
  else if c <=? Rune2 then
    [u8 (T2 .| (c .>> (1 * Bitx))); u8 (Tx .| (c .& Maskx))]
  else
    let c := if Runemax <? c then Runeerror else c in
    if c <=? Rune3 then
      [u8 (T3 .| (c .>> (2 * Bitx))); u8 (Tx .| ((c .>> (1 * Bitx)) .& Maskx));
       u8 (Tx .| (c .& Maskx))]
    else
      [u8 (T4 .| (c .>> (3 * Bitx))); u8 (Tx .| ((c .>> (2 * Bitx)) .& Maskx));
       u8 (Tx .| ((c .>> (1 * Bitx)) .& Maskx)); u8 (Tx .| (c .& Maskx))].

(** The memory [str] after the assignments and the number of bytes. *)
Definition runetochar (str : bytes) (rune : Z) : option (Z * bytes) :=
  str ← store str 0 (runetochar_bytes rune);
  Some (len (runetochar_bytes rune), str).

(** [rune = c] stores a [long] in a [Rune], an [unsigned int]. *)
Definition runelen (c : Z) : option Z :=
  '(n, _) ← runetochar (replicate 10 0) (u32 c);
  Some n.

(** [c = *r++] stores a [Rune] in an [int]. *)
Fixpoint runenlen (r : list Z) (nrune : nat) {struct nrune} : option Z :=
  match nrune, r with
  | O, _ => Some 0
  | S _, [] => None
  | S nrune, r0 :: r =>
      let c := s32 r0 in
      let n := if c <=? Rune1 then 1
               else if c <=? Rune2 then 2
               else if (c <=? Rune3) || (Runemax <? c) then 3
               else 4 in
      nb ← runenlen r nrune;
      Some (n + nb)
  end.

Definition fullrune (str : bytes) (n : Z) : option bool :=
  if n <=? 0 then Some false
  else
    c ← str !! 0%nat;
    Some (if c <? Tx then true
          else if c <? T3 then 2 <=? n
          else if (UTFmax =? 3) || (c <? T4) then 3 <=? n
          else 4 <=? n).

(** ** The C library's string functions they call *)

(** [strchr]: the offset of the first [c], none when it does not occur; the NUL is found. *)
Fixpoint strchr (s : bytes) (c : Z) : option (option Z) :=
  match s with
  | [] => None
  | b :: s =>
      if b =? c then Some (Some 0)
      else if b =? 0 then Some None
      else r ← strchr s c; Some (option_map Z.succ r)
  end.

(** [strrchr]: the offset of the last [c]. *)
Fixpoint strrchr (s : bytes) (c : Z) : option (option Z) :=
  match s with
  | [] => None
  | b :: s =>
      let here := if b =? c then Some 0 else None in
      if b =? 0 then Some here
      else r ← strrchr s c;
           Some (match r with Some k => Some (Z.succ k) | None => here end)
  end.

(** [strncmp(a, b, n) == 0]. *)
Fixpoint strncmp_eq (a b : bytes) (n : nat) {struct n} : option bool :=
  match n with
  | O => Some true
  | S n =>
      match a, b with
      | x :: a, y :: b =>
          if negb (x =? y) then Some false
          else if x =? 0 then Some true
          else strncmp_eq a b n
      | _, _ => None
      end
  end.

(** [strstr]: the offset of the first occurrence of the string [s2] in [s1]. *)
Fixpoint strstr (s1 s2 : bytes) : option (option Z) :=
  match s1 with
  | [] => None
  | b :: s =>
      e ← strncmp_eq s1 s2 (length (c_str s2));
      if (e : bool) then Some (Some 0)
      else if b =? 0 then Some None
      else r ← strstr s s2; Some (option_map Z.succ r)
  end.

(** ** The [utf*] functions *)

(** The loops advance by what [chartorune] returns; they end by the time they have passed
    every byte of the object. *)
Fixpoint utflen_loop (fuel : nat) (s : bytes) (n : Z) : option Z :=
  match fuel with
  | O => None
  | S fuel =>
      c ← s !! 0%nat;
      if c <? Runeself then
        if c =? 0 then Some n else utflen_loop fuel (drop 1 s) (n + 1)
      else '(_, k) ← chartorune s; utflen_loop fuel (drop (Z.to_nat k) s) (n + 1)
  end.
Definition utflen (s : bytes) : option Z := utflen_loop (S (length s)) s 0.

(** [m] is [es - s]. *)
Fixpoint utfnlen_loop (fuel : nat) (s : bytes) (m n : Z) : option Z :=
  match fuel with
  | O => None
  | S fuel =>
      if 0 <? m then
        c ← s !! 0%nat;
        if c <? Runeself then
          if c =? 0 then Some n else utfnlen_loop fuel (drop 1 s) (m - 1) (n + 1)
        else
          f ← fullrune s m;
          if negb f then Some n
          else '(_, k) ← chartorune s; utfnlen_loop fuel (drop (Z.to_nat k) s) (m - k) (n + 1)
      else Some n
  end.
Definition utfnlen (s : bytes) (m : Z) : option Z := utfnlen_loop (S (length s)) s m 0.

(** Pointers into the string as offsets from its start; [p] is the offset of [s]. *)
Fixpoint utfrune_loop (fuel : nat) (s : bytes) (p c : Z) : option (option Z) :=
  match fuel with
  | O => None
  | S fuel =>
      c1 ← s !! 0%nat;
      if c1 <? Runeself then
        if c1 =? 0 then Some None
        else if c1 =? c then Some (Some p)
        else utfrune_loop fuel (drop 1 s) (p + 1) c
      else
        '(r, n) ← chartorune s;
        if r =? c then Some (Some p)
        else utfrune_loop fuel (drop (Z.to_nat n) s) (p + n) c
  end.
Definition utfrune (s : bytes) (c : Z) : option (option Z) :=
  if c <? Runesync then strchr s c else utfrune_loop (S (length s)) s 0 c.

Fixpoint utfrrune_loop (fuel : nat) (s : bytes) (p c : Z) (s1 : option Z) : option (option Z) :=
  match fuel with
  | O => None
  | S fuel =>
      c1 ← s !! 0%nat;
      if c1 <? Runeself then
        if c1 =? 0 then Some s1
        else utfrrune_loop fuel (drop 1 s) (p + 1) c (if c1 =? c then Some p else s1)
      else
        '(r, n) ← chartorune s;
        utfrrune_loop fuel (drop (Z.to_nat n) s) (p + n) c (if r =? c then Some p else s1)
  end.
Definition utfrrune (s : bytes) (c : Z) : option (option Z) :=
  if c <? Runesync then strrchr s c else utfrrune_loop (S (length s)) s 0 c None.

(** [for(p=s1; p=utfrune(p, f); p+=n1) if(strncmp(p, s2, n2) == 0) return p;] *)
Fixpoint utfutf_loop (fuel : nat) (s1 s2 : bytes) (p f n1 n2 : Z) : option (option Z) :=
  match fuel with
  | O => None
  | S fuel =>
      r ← utfrune s1 f;
      match r with
      | None => Some None
      | Some k =>
          let s1 := drop (Z.to_nat k) s1 in
          e ← strncmp_eq s1 s2 (Z.to_nat n2);
          if (e : bool) then Some (Some (p + k))
          else utfutf_loop fuel (drop (Z.to_nat n1) s1) s2 (p + k + n1) f n1 n2
      end
  end.
Definition utfutf (s1 s2 : bytes) : option (option Z) :=
  '(f, n1) ← chartorune s2;
  if f <=? Runesync then strstr s1 s2
  else utfutf_loop (S (length s1)) s1 s2 0 f n1 (strlen s2).

(** [memccpy(to, from, 0, n)] at offset [to] of [m]: the memory, and the offset after the
    copied NUL when there is one among the first [n] bytes. *)
Fixpoint memccpy (m : bytes) (to : Z) (from : bytes) (n : nat) : option (bytes * option Z) :=
  match n with
  | O => Some (m, None)
  | S n =>
      c ← from !! 0%nat;
      m ← store m to [c];
      if c =? 0 then Some (m, Some (to + 1)) else memccpy m (to + 1) (drop 1 from) n
  end.

(** The loop that backs up over continuation bytes: [end] goes down from [to + n]. *)
Fixpoint backup (m : bytes) (to : Z) (n : nat) : option Z :=
  match n with
  | O => Some to
  | S n =>
      let e := to + Z.of_nat n in
      c ← load1 m e;
      if (c .& 0xC0) =? 0x80 then backup m to n else Some e
  end.

Definition utfecpy (m : bytes) (to e : Z) (from : bytes) : option (Z * bytes) :=
  if e <=? to then Some (to, m)
  else
    '(m, r) ← memccpy m to from (Z.to_nat (e - to));
    match r with
    | None =>
        k ← backup m to (Z.to_nat (e - 1 - to));
        m ← store m k [0];
        Some (k, m)
    | Some k => Some (k - 1, m)
    end.

(** ** Specification *)

(** The UTF sequence of a rune, by quotients and remainders. *)
Definition utf8 (r : Z) : bytes :=
  if r <? 0x80 then [r]
  else if r <? 0x800 then [0xC0 + r / 64; 0x80 + r mod 64]
  else if r <? 0x10000 then [0xE0 + r / 64 / 64; 0x80 + r / 64 mod 64; 0x80 + r mod 64]
  else [0xF0 + r / 64 / 64 / 64; 0x80 + r / 64 / 64 mod 64; 0x80 + r / 64 mod 64; 0x80 + r mod 64].

Definition is_rune (r : Z) : Prop := 0 <= r <= Runemax.
#[global] Instance is_rune_dec r : Decision (is_rune r).
Proof. unfold is_rune. apply _. Defined.

(** The UTF string of a list of runes. *)
Definition utf8s (rs : list Z) : bytes := concat (map utf8 rs).

(** [s] starts with the sequence of [r]. *)
Definition starts_rune (s : bytes) (r : Z) : Prop := is_rune r /\ utf8 r `prefix_of` s.

(** A continuation byte. *)
Definition cont (b : Z) : bool := (0x80 <=? b) && (b <? 0xC0).

(** Bytes up to a NUL. *)
Definition is_string (t : bytes) : Prop := is_bytes t /\ Forall (fun b => b <> 0) t.

#[global] Instance is_string_dec t : Decision (is_string t).
Proof. unfold is_string. apply _. Defined.

(** The reading of a string, a list of runes each with the bytes it stands for: a sequence is
    its rune, and a byte that starts no sequence is a [Runeerror] of its own. *)
Inductive pieces : bytes -> list (Z * bytes) -> Prop :=
  | pieces_nil : pieces [] []
  | pieces_rune r t ps :
      is_rune r -> pieces t ps -> pieces (utf8 r ++ t) ((r, utf8 r) :: ps)
  | pieces_bad c t ps :
      (forall r, ~ starts_rune (c :: t) r) -> pieces t ps ->
      pieces (c :: t) ((Bad, [c]) :: ps).

(** The offset of the first piece that is [c], and of the last one. *)
Fixpoint find_rune (c : Z) (ps : list (Z * bytes)) : option Z :=
  match ps with
  | [] => None
  | (r, b) :: ps => if r =? c then Some 0 else option_map (Z.add (len b)) (find_rune c ps)
  end.
Fixpoint find_last_rune (c : Z) (ps : list (Z * bytes)) : option Z :=
  match ps with
  | [] => None
  | (r, b) :: ps =>
      match find_last_rune c ps with
      | Some k => Some (len b + k)
      | None => if r =? c then Some 0 else None
      end
  end.

(** ** Bit patterns of bytes *)

(** A property of every byte, by evaluation. *)
Lemma all_bytes (P : Z -> bool) :
  forallb P (map Z.of_nat (seq 0 256)) = true -> forall b, in_u 8 b -> P b = true.
Proof.
  intros H b Hb. rewrite forallb_forall in H. apply H, in_map_iff. exists (Z.to_nat b).
  split; [range|]. apply in_seq. range.
Qed.

Lemma cont_test b :
  in_u 8 b -> negb (((b .^ Tx) .& Testx) =? 0) = negb ((0x80 <=? b) && (b <? 0xC0)).
Proof.
  intros H. apply eqb_prop.
  apply (all_bytes (fun b => eqb (negb (((b .^ Tx) .& Testx) =? 0))
    (negb ((0x80 <=? b) && (b <? 0xC0))))); [vm_compute; reflexivity|done].
Qed.

Lemma cont_value b : 0x80 <= b < 0xC0 -> b .^ Tx = b - 0x80.
Proof.
  intros H. assert (implb ((0x80 <=? b) && (b <? 0xC0)) (b .^ Tx =? b - 0x80) = true) as E.
  { apply (all_bytes (fun b => implb ((0x80 <=? b) && (b <? 0xC0)) (b .^ Tx =? b - 0x80)));
      [vm_compute; reflexivity|range]. }
  lia.
Qed.

(** [(a << 6) | b] adds six bits. *)
Lemma shift_or a b : in_u 6 b -> (a .<< Bitx) .| b = a * 64 + b.
Proof. intros. rewrite Z.lor_comm, lor_shiftl_add by (done || lia). unfold Bitx. lia. Qed.

Lemma land_Rune2 z : z .& Rune2 = z mod 2048.
Proof. exact (Z.land_ones z 11 ltac:(lia)). Qed.
Lemma land_Rune3 z : z .& Rune3 = z mod 65536.
Proof. exact (Z.land_ones z 16 ltac:(lia)). Qed.
Lemma land_Rune4 z : z .& Rune4 = z mod 2097152.
Proof. exact (Z.land_ones z 21 ltac:(lia)). Qed.
Lemma land_Maskx z : z .& Maskx = z mod 64.
Proof. exact (Z.land_ones z 6 ltac:(lia)). Qed.

(** [T | x] for a [T] whose low [k] bits are clear. *)
Lemma or_low T k b x : T = b .<< k -> 0 <= k -> in_u k x -> T .| x = T + x.
Proof.
  intros -> Hk Hx. rewrite Z.lor_comm, lor_shiftl_add by done.
  rewrite Z.shiftl_mul_pow2 by done. lia.
Qed.

Lemma Tx_or x : 0 <= x < 64 -> u8 (Tx .| x) = 0x80 + x.
Proof.
  intros. rewrite (or_low Tx 6 2) by (done || range). apply wrap_small.
  change Tx with 128. range.
Qed.

(** ** Encoding *)

Lemma runetochar_utf8 r :
  0 <= r -> runetochar_bytes r = utf8 (if Runemax <? r then Runeerror else r).
Proof.
  intros Hr. unfold runetochar_bytes, utf8.
  change Rune1 with 127. change Rune2 with 2047. change Rune3 with 65535.
  rewrite !land_Maskx, !Z.shiftr_div_pow2 by (unfold Bitx; lia).
  change (2 ^ (1 * Bitx)) with 64. change (2 ^ (2 * Bitx)) with (64 * 64).
  change (2 ^ (3 * Bitx)) with (64 * 64 * 64).
  assert (forall x, u8 (Tx .| (x mod 64)) = 0x80 + x mod 64) as Ex
    by (intros; apply Tx_or; apply Z.mod_pos_bound; lia).
  rewrite !Ex. unfold Runemax. destruct (Z.ltb_spec 0x10FFFF r).
  - destruct (Z.leb_spec r 127); [lia|]. by destruct (Z.leb_spec r 2047); [lia|].
  - destruct (Z.leb_spec r 127), (Z.ltb_spec r 0x80); try lia.
    { rewrite wrap_small; [done|range]. }
    destruct (Z.leb_spec r 2047), (Z.ltb_spec r 0x800); try lia.
    { rewrite (or_low T2 5 6); [|done|done|divlia]. rewrite wrap_small; [done|].
      change T2 with 0xC0. divlia. }
    destruct (Z.leb_spec r 65535), (Z.ltb_spec r 0x10000); try lia.
    { rewrite <- Z.div_div by lia. rewrite (or_low T3 4 14); [|done|done|divlia].
      rewrite wrap_small; [done|]. change T3 with 0xE0. divlia. }
    rewrite <- !Z.div_div by lia. rewrite (or_low T4 3 30); [|done|done|divlia].
    rewrite wrap_small; [done|]. change T4 with 0xF0. divlia.
Qed.

(** ** Decoding *)

(** [chartorune] in terms of sums. *)
Lemma chartorune_eq c s :
  in_u 8 c -> is_bytes s ->
  chartorune (c :: s) =
  let bad := Some (Bad, 1) in
  if c <? 0x80 then Some (c, 1)
  else match s with
  | [] => None
  | b1 :: s =>
    if negb (cont b1) then bad
    else if c <? 0xE0 then
      if c <? 0xC0 then bad
      else let l := (c - 0xC0) * 64 + (b1 - 0x80) in
           if l <=? 0x7F then bad else Some (l, 2)
    else match s with
    | [] => None
    | b2 :: s =>
      if negb (cont b2) then bad
      else if c <? 0xF0 then
        let l := ((c - 0xE0) * 64 + (b1 - 0x80)) * 64 + (b2 - 0x80) in
        if l <=? 0x7FF then bad else Some (l, 3)
      else match s with
      | [] => None
      | b3 :: _ =>
        if negb (cont b3) then bad
        else if c <? 0xF8 then
          let l := (((c - 0xF0) * 64 + (b1 - 0x80)) * 64 + (b2 - 0x80)) * 64 + (b3 - 0x80) in
          if l <=? 0xFFFF then bad else if Runemax <? l then bad else Some (l, 4)
        else bad
      end
    end
  end.
Proof.
  intros Hc Hs. unfold chartorune. cbn [lookup list_lookup mbind option_bind].
  change Tx with 0x80 at 1. destruct (Z.ltb_spec c 0x80); [done|].
  destruct s as [|b1 s]; [done|]. inversion_clear Hs as [|? ? Hb1 Hs']. cbn [lookup list_lookup mbind option_bind].
  rewrite cont_test by done. fold (cont b1). destruct (cont b1) eqn:C1; [|done]. cbn [negb].
  unfold cont in C1. apply andb_true_iff in C1 as [?%Z.leb_le ?%Z.ltb_lt].
  rewrite cont_value, shift_or, land_Rune2 by (lia || range).
  change T3 with 0xE0. change T2 with 0xC0. change Rune1 with 0x7F.
  destruct (Z.ltb_spec c 0xE0).
  { destruct (Z.ltb_spec c 0xC0); [done|]. cbv zeta.
    by replace ((c * 64 + (b1 - 0x80)) mod 2048) with ((c - 0xC0) * 64 + (b1 - 0x80)) by divlia. }
  destruct s as [|b2 s]; [done|]. inversion_clear Hs' as [|? ? Hb2 Hs]. cbn [lookup list_lookup mbind option_bind].
  rewrite cont_test by done. fold (cont b2). destruct (cont b2) eqn:C2; [|done]. cbn [negb].
  unfold cont in C2. apply andb_true_iff in C2 as [?%Z.leb_le ?%Z.ltb_lt].
  rewrite cont_value, shift_or, land_Rune3 by (lia || range).
  change T4 with 0xF0. change Rune2 with 0x7FF. destruct (Z.ltb_spec c 0xF0).
  { cbv zeta. by replace (((c * 64 + (b1 - 0x80)) * 64 + (b2 - 0x80)) mod 65536)
      with (((c - 0xE0) * 64 + (b1 - 0x80)) * 64 + (b2 - 0x80)) by divlia. }
  change (4 <=? UTFmax) with true. cbn iota.
  destruct s as [|b3 s]; [done|]. inversion_clear Hs as [|? ? Hb3 _]. cbn [lookup list_lookup mbind option_bind].
  rewrite cont_test by done. fold (cont b3). destruct (cont b3) eqn:C3; [|done]. cbn [negb].
  unfold cont in C3. apply andb_true_iff in C3 as [?%Z.leb_le ?%Z.ltb_lt].
  rewrite cont_value, shift_or, land_Rune4 by (lia || range).
  change T5 with 0xF8. change Rune3 with 0xFFFF. destruct (Z.ltb_spec c 0xF8); [|done].
  cbv zeta. by replace ((((c * 64 + (b1 - 0x80)) * 64 + (b2 - 0x80)) * 64 + (b3 - 0x80)) mod 2097152)
    with ((((c - 0xF0) * 64 + (b1 - 0x80)) * 64 + (b2 - 0x80)) * 64 + (b3 - 0x80)) by divlia.
Qed.

Lemma utf8_bytes r : is_rune r -> is_bytes (utf8 r).
Proof.
  unfold is_rune, Runemax. intros. unfold utf8.
  bcase; repeat constructor; divlia.
Qed.

Lemma utf8_len r : 1 <= len (utf8 r) <= UTFmax.
Proof. unfold utf8, UTFmax. bcase; cbn; lia. Qed.

Lemma cont_low x : cont (0x80 + x mod 64) = true.
Proof. unfold cont. apply andb_true_iff. rewrite Z.leb_le, Z.ltb_lt. divlia. Qed.

(** Decides the tests of [chartorune_eq] one after the other. *)
Ltac tests :=
  repeat first
    [ rewrite cont_low; cbn [negb]
    | match goal with
      | |- context [Z.ltb ?a ?b] => destruct (Z.ltb_spec a b); try (exfalso; divlia)
      | |- context [Z.leb ?a ?b] => destruct (Z.leb_spec a b); try (exfalso; divlia)
      end ].

Lemma chartorune_utf8 r post :
  is_rune r -> is_bytes post -> chartorune (utf8 r ++ post) = Some (r, len (utf8 r)).
Proof.
  intros Hr Hpost. pose proof (utf8_bytes r Hr) as Hb. unfold is_rune, Runemax in Hr.
  revert Hb. unfold utf8.
  destruct (Z.ltb_spec r 0x80); [|destruct (Z.ltb_spec r 0x800); [|destruct (Z.ltb_spec r 0x10000)]];
    intros Hb; inversion_clear Hb; cbn [app];
    (rewrite chartorune_eq by (decompose_Forall; done));
    cbv zeta; unfold Runemax; cbn [length].
  - by tests.
  - tests. do 2 f_equal. divlia.
  - tests. do 2 f_equal. divlia.
  - tests. do 2 f_equal. divlia.
Qed.

Lemma cont_spec b : cont b = true <-> 0x80 <= b < 0xC0.
Proof. unfold cont. rewrite andb_true_iff, Z.leb_le, Z.ltb_lt. lia. Qed.

Lemma utf8_2 c b1 l :
  l = (c - 0xC0) * 64 + (b1 - 0x80) -> c < 0xE0 -> cont b1 = true ->
  0x7F < l -> utf8 l = [c; b1].
Proof. intros -> ? ?%cont_spec ?. unfold utf8. tests. repeat f_equal; divlia. Qed.

Lemma utf8_3 c b1 b2 l :
  l = ((c - 0xE0) * 64 + (b1 - 0x80)) * 64 + (b2 - 0x80) -> 0xE0 <= c < 0xF0 ->
  cont b1 = true -> cont b2 = true -> 0x7FF < l -> utf8 l = [c; b1; b2].
Proof. intros -> ? ?%cont_spec ?%cont_spec ?. unfold utf8. tests. repeat f_equal; divlia. Qed.

Lemma utf8_4 c b1 b2 b3 l :
  l = (((c - 0xF0) * 64 + (b1 - 0x80)) * 64 + (b2 - 0x80)) * 64 + (b3 - 0x80) ->
  0xF0 <= c < 0xF8 -> cont b1 = true -> cont b2 = true -> cont b3 = true ->
  0xFFFF < l -> utf8 l = [c; b1; b2; b3].
Proof.
  intros -> ? ?%cont_spec ?%cont_spec ?%cont_spec ?. unfold utf8. tests. repeat f_equal; divlia.
Qed.

Lemma chartorune_pos s r n :
  is_bytes s -> chartorune s = Some (r, n) ->
  (starts_rune s r /\ n = len (utf8 r)) \/ (r = Bad /\ n = 1).
Proof.
  intros Hs H. destruct s as [|c s]; [done|]. inversion_clear Hs as [|? ? Hc Hs'].
  rewrite chartorune_eq in H by done. cbv zeta in H. unfold starts_rune, is_rune.
  destruct (Z.ltb_spec c 0x80).
  { injection H as <- <-. left. unfold utf8, Runemax. destruct (Z.ltb_spec c 0x80); [|lia].
    split; [|done]. split; [range|]. by exists s. }
  destruct s as [|b1 s]; [done|]. destruct (cont b1) eqn:C1; cbn [negb] in H;
    [|by injection H as <- <-; right].
  destruct (Z.ltb_spec c 0xE0).
  { destruct (Z.ltb_spec c 0xC0); [by injection H as <- <-; right|].
    destruct (Z.leb_spec ((c - 0xC0) * 64 + (b1 - 0x80)) 0x7F); injection H as <- <-; [by right|].
    left. erewrite utf8_2 by done. apply cont_spec in C1. unfold Runemax.
    split; [|done]. split; [lia|]. by exists s. }
  destruct s as [|b2 s]; [done|]. destruct (cont b2) eqn:C2; cbn [negb] in H;
    [|by injection H as <- <-; right].
  destruct (Z.ltb_spec c 0xF0).
  { destruct (Z.leb_spec (((c - 0xE0) * 64 + (b1 - 0x80)) * 64 + (b2 - 0x80)) 0x7FF);
      injection H as <- <-; [by right|].
    left. erewrite utf8_3 by done. apply cont_spec in C1, C2. unfold Runemax.
    split; [|done]. split; [lia|]. by exists s. }
  destruct s as [|b3 s]; [done|]. destruct (cont b3) eqn:C3; cbn [negb] in H;
    [|by injection H as <- <-; right].
  destruct (Z.ltb_spec c 0xF8); [|by injection H as <- <-; right].
  destruct (Z.leb_spec ((((c - 0xF0) * 64 + (b1 - 0x80)) * 64 + (b2 - 0x80)) * 64 + (b3 - 0x80)) 0xFFFF);
    [by injection H as <- <-; right|].
  destruct (Z.ltb_spec Runemax ((((c - 0xF0) * 64 + (b1 - 0x80)) * 64 + (b2 - 0x80)) * 64 + (b3 - 0x80)));
    injection H as <- <-; [by right|].
  left. erewrite utf8_4 by done. split; [|done]. split; [lia|]. by exists s.
Qed.

(** The sequence of a rune is decoded as such, anything else as an error of one byte. *)
Lemma chartorune_inv s r n :
  is_bytes s -> chartorune s = Some (r, n) ->
  (starts_rune s r /\ n = len (utf8 r)) \/
  (r = Bad /\ n = 1 /\ forall r', ~ starts_rune s r').
Proof.
  intros Hs H. destruct (chartorune_pos s r n Hs H) as [|[-> ->]]; [by left|]. right.
  split_and!; [done..|]. intros r' [Hr [post ->]]. apply Forall_app in Hs as [_ Hp].
  rewrite chartorune_utf8 in H by done. injection H as -> H. done.
Qed.

(** Decoding in a NUL-terminated string never passes the NUL. *)
Lemma chartorune_total t post :
  t <> [] -> is_string t -> is_bytes post ->
  exists r n, chartorune (t ++ 0 :: post) = Some (r, n) /\ 1 <= n <= len t.
Proof.
  intros Ht [Hb Hz] Hp.
  destruct t as [|c t]; [done|]. decompose_Forall. cbn [app].
  assert (is_bytes (t ++ 0 :: post)) by (apply Forall_app; split; [done|constructor; done]).
  rewrite chartorune_eq by done. cbv zeta. cbn [length].
  destruct (Z.ltb_spec c 0x80); [eexists _, _; split; [done|lia]|].
  destruct t as [|b1 t]; [eexists _, _; split; [done|lia]|]. cbn [app length] in *.
  destruct (cont b1); [|eexists _, _; split; [done|lia]]. cbn [negb].
  destruct (Z.ltb_spec c 0xE0); [bcase; eexists _, _; (split; [done|lia])|].
  destruct t as [|b2 t]; [eexists _, _; split; [done|lia]|]. cbn [app length] in *.
  destruct (cont b2); [|eexists _, _; split; [done|lia]]. cbn [negb].
  destruct (Z.ltb_spec c 0xF0); [bcase; eexists _, _; (split; [done|lia])|].
  destruct t as [|b3 t]; [eexists _, _; split; [done|lia]|]. cbn [app length] in *.
  destruct (cont b3); [|eexists _, _; split; [done|lia]]. cbn [negb].
  bcase; eexists _, _; (split; [done|lia]).
Qed.
