(* ===== verification/UtfString.v ===== *)
(** * Strings of UTF: what the functions of [lib9/utf] compute

    The theorems on [chartorune], [runetochar] and the [utf*] functions of [Utf.v]. *)

From S2P Require Import Prelude Fcall Utf.

(** ** Pieces of a string *)

Lemma utf8_high r : is_rune r -> 0x80 <= r -> Forall (fun b => 0x80 <= b) (utf8 r).
Proof. unfold is_rune, Runemax. intros. unfold utf8. bcase; try lia; repeat constructor; divlia. Qed.

Lemma utf8_low r : r < 0x80 -> utf8 r = [r].
Proof. intros. unfold utf8. bcase; [done|lia..]. Qed.

Lemma utf8_nonnul r : is_rune r -> r <> 0 -> Forall (fun b => b <> 0) (utf8 r).
Proof.
  intros Hr Hz. destruct (Z.lt_ge_cases r 0x80).
  - rewrite utf8_low by done. by repeat constructor.
  - eapply Forall_impl; [by apply utf8_high|]. cbn. lia.
Qed.

Lemma starts_rune_string t post r :
  Forall (fun b => b <> 0) t -> t <> [] -> starts_rune (t ++ 0 :: post) r -> starts_rune t r.
Proof.
  intros Ht Hne [Hr [k E]]. split; [done|].
  assert (r <> 0) as Hz.
  { intros ->. destruct t as [|b t]; [done|]. injection E as -> _. by inversion Ht. }
  pose proof (utf8_nonnul r Hr Hz) as Hn.
  destruct (decide (length (utf8 r) <= length t)%nat) as [Hl|Hl].
  - exists (drop (length (utf8 r)) t). rewrite <- (take_drop (length (utf8 r)) t), <- app_assoc in E.
    apply app_inj_1 in E as [E _]; [|rewrite length_take; lia].
    rewrite <- (take_drop (length (utf8 r)) t) at 1. by rewrite E.
  - exfalso. assert (utf8 r !! length t = Some 0) as E0.
    { rewrite <- (lookup_app_l (utf8 r) k) by lia. rewrite <- E. by apply list_lookup_middle. }
    by apply (proj1 (Forall_lookup _ _) Hn _ _ E0).
Qed.

(** What stands in a piece. *)
Definition piece_shape (r : Z) (b : bytes) : Prop :=
  (r < 0x80 /\ b = [r]) \/ (0x80 <= r /\ b <> [] /\ Forall (fun x => 0x80 <= x) b).

Lemma pieces_head t r b ps post :
  pieces t ((r, b) :: ps) -> is_string t -> is_bytes post ->
  exists t', t = b ++ t' /\ pieces t' ps /\ is_string t' /\ piece_shape r b /\
    chartorune (t ++ 0 :: post) = Some (r, len b).
Proof.
  intros H [Hb Hz] Hp. inversion H as [|r' t' ps' Hr Ht'|c t' ps' Hn Ht']; subst.
  - apply Forall_app in Hb as [? ?], Hz as [? ?].
    exists t'. split_and!; try done.
    + destruct (Z.lt_ge_cases r 0x80).
      * left. by rewrite utf8_low.
      * right. split_and!; [lia| |by apply utf8_high]. intros E. pose proof (utf8_len r).
        rewrite E in *. cbn in *. lia.
    + rewrite <- app_assoc. apply chartorune_utf8; [done|]. apply Forall_app; split; [done|].
      by constructor.
  - destruct (chartorune_total (c :: t') post) as (r & n & E & Hn'); [done..|].
    assert (is_bytes ((c :: t') ++ 0 :: post)) as Hb0
      by (apply Forall_app; split; [done|by constructor]).
    destruct (chartorune_inv _ _ _ Hb0 E)
      as [[Hs _]|(-> & -> & _)].
    { exfalso. eapply Hn, starts_rune_string; [exact Hz|done|exact Hs]. }
    inversion Hb; inversion Hz; subst. exists t'. split_and!; try done.
    right. split_and!; [done..|]. constructor; [|constructor].
    destruct (Z.lt_ge_cases c 0x80); [|lia]. exfalso. apply (Hn c).
    split; [unfold is_rune, Runemax; range|]. rewrite utf8_low by done. by exists t'.
Qed.

Lemma pieces_total t : is_string t -> exists ps, pieces t ps.
Proof.
  remember (length t) as n eqn:E. revert t E. induction (lt_wf n) as [n _ IH].
  intros t -> [Hb Hz]. destruct t as [|c t]; [by exists []; constructor|].
  destruct (chartorune_total (c :: t) []) as (r & k & E & Hk); [done..|].
  assert (is_bytes ((c :: t) ++ [0])) as Hb0 by (apply Forall_app; split; [done|by repeat constructor]).
  destruct (chartorune_inv _ _ _ Hb0 E) as [[Hs _]|(-> & -> & Hno)].
  - apply starts_rune_string in Hs as [Hr [t' Et]]; [|done..]. rewrite Et in Hb, Hz.
    apply Forall_app in Hb as [? ?], Hz as [? ?]. pose proof (utf8_len r).
    destruct (IH (length t')) with t' as [ps Hps]; [|done..|].
    { rewrite Et, length_app. lia. }
    exists ((r, utf8 r) :: ps). rewrite Et. by constructor.
  - inversion Hb; inversion Hz; subst.
    destruct (IH (length t)) with t as [ps Hps]; [cbn; lia|done..|].
    exists ((Bad, [c]) :: ps). constructor; [|done]. intros r [Hr [k Ek]]. apply (Hno r).
    split; [done|]. exists (k ++ [0]). by rewrite Ek, app_assoc.
Qed.

Lemma pieces_utf8s rs : Forall is_rune rs -> pieces (utf8s rs) (map (fun r => (r, utf8 r)) rs).
Proof. induction 1; [constructor|]. cbn. by constructor. Qed.

(** ** The loops *)

(** A loop at the start of a piece: the two branches of its test of the first byte. *)
Lemma piece_first r b rest :
  piece_shape r b -> Forall (fun x => x <> 0) b ->
  (exists k, (b ++ rest) !! 0%nat = Some k /\ k <> 0 /\
    ((k <? Runeself) = true /\ r = k /\ b = [k] \/
     (k <? Runeself) = false /\ 0x80 <= r)).
Proof.
  intros [[Hr ->]|(Hr & Hb & Hf)] Hz.
  - exists r. inversion Hz; subst. split_and!; [done..|left].
    split_and!; [by apply Z.ltb_lt|done..].
  - destruct b as [|k b]; [done|]. inversion Hf; inversion Hz; subst. exists k.
    split_and!; [done..|right]. split; [by apply Z.ltb_ge|done].
Qed.

(** Everything a loop needs at a piece of a NUL-terminated string. *)
Lemma pieces_step t r b ps post :
  pieces t ((r, b) :: ps) -> is_string t -> is_bytes post ->
  exists t' k, t = b ++ t' /\ pieces t' ps /\ is_string t' /\ piece_shape r b /\
    (1 <= length b)%nat /\ drop (length b) (t ++ 0 :: post) = t' ++ 0 :: post /\
    chartorune (t ++ 0 :: post) = Some (r, len b) /\
    (t ++ 0 :: post) !! 0%nat = Some k /\ k <> 0 /\
    ((k <? Runeself) = true /\ r = k /\ b = [k] \/ (k <? Runeself) = false /\ 0x80 <= r).
Proof.
  intros H Hs Hp. destruct (pieces_head _ _ _ _ post H Hs Hp) as (t' & -> & Hps & Hs' & Hsh & Hc).
  destruct Hs as [_ Hz]. apply Forall_app in Hz as [Hz _].
  destruct (piece_first r b (t' ++ 0 :: post) Hsh Hz) as (k & Hk).
  exists t', k. rewrite <- app_assoc in Hc |- *. split_and!; try done; try apply Hk.
  - destruct Hsh as [[_ ->]|(_ & ? & _)]; [done|]. destruct b; [done|cbn; lia].
  - by rewrite drop_app_length.
Qed.

Lemma utflen_loop_pieces ps : forall t post fuel n,
  pieces t ps -> is_string t -> is_bytes post -> (length t < fuel)%nat ->
  utflen_loop fuel (t ++ 0 :: post) n = Some (n + len ps).
Proof.
  induction ps as [|[r b] ps IH]; intros t post fuel n H Hs Hp Hf;
    (destruct fuel as [|fuel]; [lia|]); cbn [utflen_loop].
  { inversion H. cbn. f_equal. lia. }
  destruct (pieces_step _ _ _ _ post H Hs Hp)
    as (t' & k & -> & Hps & Hs' & _ & Hl & Hd & Hc & Hk & Hk0 & Hcase).
  rewrite length_app in Hf. rewrite Hk. cbn [mbind option_bind].
  destruct Hcase as [(-> & -> & ->)|[-> _]].
  - destruct (Z.eqb_spec k 0); [done|]. change 1%nat with (length [k]). rewrite Hd.
    rewrite IH by (done || lia). f_equal. cbn [length]. lia.
  - rewrite Hc. cbn [mbind option_bind]. rewrite Nat2Z.id, Hd, IH by (done || lia).
    f_equal. cbn [length]. lia.
Qed.

Lemma utfrune_loop_pieces ps c : forall t post fuel p,
  pieces t ps -> is_string t -> is_bytes post -> (length t < fuel)%nat ->
  utfrune_loop fuel (t ++ 0 :: post) p c = Some (option_map (Z.add p) (find_rune c ps)).
Proof.
  induction ps as [|[r b] ps IH]; intros t post fuel p H Hs Hp Hf;
    (destruct fuel as [|fuel]; [lia|]); cbn [utfrune_loop].
  { inversion H. done. }
  destruct (pieces_step _ _ _ _ post H Hs Hp)
    as (t' & k & -> & Hps & Hs' & _ & Hl & Hd & Hc & Hk & Hk0 & Hcase).
  rewrite length_app in Hf. rewrite Hk. cbn [mbind option_bind find_rune].
  assert (option_map (Z.add (p + len b)) (find_rune c ps)
    = option_map (Z.add p) (option_map (Z.add (len b)) (find_rune c ps))) as Ez
    by (destruct (find_rune c ps); [cbn; f_equal; lia|done]).
  destruct Hcase as [(-> & -> & ->)|[-> _]].
  - destruct (Z.eqb_spec k 0); [done|]. destruct (Z.eqb_spec k c); [cbn; repeat f_equal; lia|].
    change 1%nat with (length [k]). rewrite Hd, IH by (done || lia). by f_equal.
  - rewrite Hc. cbn [mbind option_bind]. destruct (Z.eqb_spec r c); [cbn; repeat f_equal; lia|].
    rewrite Nat2Z.id, Hd, IH by (done || lia). by f_equal.
Qed.

Lemma utfrrune_loop_pieces ps c : forall t post fuel p s1,
  pieces t ps -> is_string t -> is_bytes post -> (length t < fuel)%nat ->
  utfrrune_loop fuel (t ++ 0 :: post) p c s1
  = Some (match find_last_rune c ps with Some k => Some (p + k) | None => s1 end).
Proof.
  induction ps as [|[r b] ps IH]; intros t post fuel p s1 H Hs Hp Hf;
    (destruct fuel as [|fuel]; [lia|]); cbn [utfrrune_loop].
  { inversion H. done. }
  destruct (pieces_step _ _ _ _ post H Hs Hp)
    as (t' & k & -> & Hps & Hs' & _ & Hl & Hd & Hc & Hk & Hk0 & Hcase).
  rewrite length_app in Hf. rewrite Hk. cbn [mbind option_bind find_last_rune].
  destruct Hcase as [(-> & -> & ->)|[-> _]].
  - destruct (Z.eqb_spec k 0); [done|]. change 1%nat with (length [k]).
    rewrite Hd, IH by (done || lia). destruct (find_last_rune c ps), (Z.eqb_spec k c);
      cbn [length]; first [done | do 2 f_equal; lia].
  - rewrite Hc. cbn [mbind option_bind]. rewrite Nat2Z.id, Hd, IH by (done || lia).
    destruct (find_last_rune c ps), (Z.eqb_spec r c);
      first [done | do 2 f_equal; lia].
Qed.

(** ** Characters that represent themselves *)

Lemma strchr_skip b rest c :
  Forall (fun x => x <> 0) b -> Forall (fun x => x <> c) b ->
  strchr (b ++ rest) c = r ← strchr rest c; Some (option_map (Z.add (len b)) r).
Proof.
  intros Hz Hc. induction b as [|x b IH]; cbn [app strchr].
  - destruct (strchr rest c) as [[k|]|]; done.
  - inversion Hz; inversion Hc; subst. destruct (Z.eqb_spec x c); [done|].
    destruct (Z.eqb_spec x 0); [done|]. rewrite IH by done.
    destruct (strchr rest c) as [[k|]|]; [cbn; do 2 f_equal; lia|done..].
Qed.

Lemma strrchr_skip b rest c :
  Forall (fun x => x <> 0) b -> Forall (fun x => x <> c) b ->
  strrchr (b ++ rest) c = r ← strrchr rest c; Some (option_map (Z.add (len b)) r).
Proof.
  intros Hz Hc. induction b as [|x b IH]; cbn [app strrchr].
  - destruct (strrchr rest c) as [[k|]|]; done.
  - inversion Hz; inversion Hc; subst. destruct (Z.eqb_spec x c); [done|].
    destruct (Z.eqb_spec x 0); [done|]. rewrite IH by done.
    destruct (strrchr rest c) as [[k|]|]; [cbn; do 2 f_equal; lia|done..].
Qed.

Lemma piece_not_ascii r b c :
  piece_shape r b -> c < 0x80 -> r <> c -> Forall (fun x => x <> c) b.
Proof.
  intros [[_ ->]|(_ & _ & Hf)] Hc Hr; [by repeat constructor|].
  eapply Forall_impl; [exact Hf|]. cbn. lia.
Qed.

Lemma strchr_pieces ps c : forall t post,
  pieces t ps -> is_string t -> is_bytes post -> 0 < c < 0x80 ->
  strchr (t ++ 0 :: post) c = Some (find_rune c ps).
Proof.
  induction ps as [|[r b] ps IH]; intros t post H Hs Hp Hc.
  { inversion H. cbn [app strchr]. destruct (Z.eqb_spec 0 c); [lia|done]. }
  destruct (pieces_step _ _ _ _ post H Hs Hp) as (t' & k & -> & Hps & Hs' & Hsh & _).
  destruct Hs as [_ Hz]. apply Forall_app in Hz as [Hz _].
  rewrite <- app_assoc. cbn [find_rune]. destruct (Z.eqb_spec r c) as [->|Hr].
  - destruct Hsh as [[_ ->]|[? _]]; [|lia]. cbn. by rewrite Z.eqb_refl.
  - rewrite strchr_skip by (done || by eapply piece_not_ascii; [|lia|]). by rewrite IH.
Qed.

Lemma strrchr_pieces ps c : forall t post,
  pieces t ps -> is_string t -> is_bytes post -> 0 < c < 0x80 ->
  strrchr (t ++ 0 :: post) c = Some (find_last_rune c ps).
Proof.
  induction ps as [|[r b] ps IH]; intros t post H Hs Hp Hc.
  { inversion H. cbn [app strrchr]. destruct (Z.eqb_spec 0 c); [lia|done]. }
  destruct (pieces_step _ _ _ _ post H Hs Hp) as (t' & k & -> & Hps & Hs' & Hsh & _).
  destruct Hs as [_ Hz]. apply Forall_app in Hz as [Hz _].
  rewrite <- app_assoc. cbn [find_last_rune]. destruct (Z.eqb_spec r c) as [->|Hr].
  - destruct Hsh as [[_ ->]|[? _]]; [|lia]. cbn [app strrchr]. rewrite Z.eqb_refl.
    destruct (Z.eqb_spec c 0); [lia|]. rewrite IH by done. cbn [mbind option_bind].
    destruct (find_last_rune c ps); [cbn [length]; do 2 f_equal; lia|done].
  - rewrite strrchr_skip by (done || by eapply piece_not_ascii; [|lia|]). rewrite IH by done.
    by destruct (find_last_rune c ps).
Qed.

Lemma strchr_nul t post :
  Forall (fun b => b <> 0) t -> strchr (t ++ 0 :: post) 0 = Some (Some (len t)).
Proof. intros. rewrite strchr_skip by done. cbn. do 2 f_equal. lia. Qed.

Lemma strrchr_nul t post :
  Forall (fun b => b <> 0) t -> strrchr (t ++ 0 :: post) 0 = Some (Some (len t)).
Proof. intros. rewrite strrchr_skip by done. cbn. do 2 f_equal. lia. Qed.

(** ** Runes and their sequences *)

(** [chartorune] undoes [runetochar]: it gives the rune back, or [Runeerror] for a value
    that is not a rune, and takes as many bytes as [runelen] says. *)
Theorem runetochar_roundtrip r str post :
  in_u 32 r -> is_bytes str -> is_bytes post -> UTFmax <= len str ->
  exists n str', runetochar (str ++ post) r = Some (n, str' ++ post) /\
    runelen r = Some n /\ length str' = length str /\
    chartorune (str' ++ post) = Some (if Runemax <? r then Runeerror else r, n).
Proof.
  intros Hr Hs Hp Hl. unfold runetochar, runelen. rewrite (wrap_small 32) by done.
  unfold runetochar. rewrite runetochar_utf8 by range.
  set (r' := if Runemax <? r then Runeerror else r).
  assert (is_rune r') as Hr'.
  { unfold r', is_rune, Runemax, Runeerror. destruct (Z.ltb_spec 0x10FFFF r); range. }
  pose proof (utf8_len r') as Hlen. unfold UTFmax in *.
  destruct (store_Some str 0 (utf8 r')) as (str' & E & L); [lia..|].
  rewrite store_app_l, E by lia. cbn [fmap option_fmap option_map mbind option_bind].
  destruct (store_Some (replicate 10 0) 0 (utf8 r')) as (x & -> & _); [lia|cbn; lia|].
  exists (len (utf8 r')), str'. split_and!; [done..|].
  apply store_inv in E as ([|] & old & rest & -> & -> & L0 & _); [|cbn in L0; lia].
  cbn [app]. rewrite <- app_assoc. apply chartorune_utf8; [done|].
  apply Forall_app in Hs as [_ Hs]. apply Forall_app in Hs as [_ Hs]. by apply Forall_app.
Qed.

(** C28: on a NUL-terminated string that is not empty [chartorune] does not read past the NUL. It
    takes the sequence of a rune (the shortest one, up to [Runemax], so up to four bytes) when the
    string starts with one, and a single byte with [Runeerror] when it does not. *)
Theorem chartorune_spec t post :
  is_string t -> t <> [] -> is_bytes post ->
  exists r n, chartorune (t ++ 0 :: post) = Some (r, n) /\ 1 <= n <= len t /\
    (starts_rune t r /\ n = len (utf8 r) \/
     r = Runeerror /\ n = 1 /\ forall r', ~ starts_rune t r').
Proof.
  intros Hs Ht Hp. destruct (chartorune_total t post) as (r & n & E & Hn); [done..|].
  exists r, n. split_and!; [done|lia..|].
  assert (is_bytes (t ++ 0 :: post)) as Hb
    by (destruct Hs; apply Forall_app; split; [done|by constructor]).
  destruct (chartorune_inv _ _ _ Hb E) as [[H ->]|(-> & -> & H)].
  - left. split; [|done]. by apply starts_rune_string in H; [|apply Hs|].
  - right. split_and!; [done..|]. intros r' [Hr [k ->]]. apply (H r').
    split; [done|]. exists (k ++ 0 :: post). by rewrite app_assoc.
Qed.

(** A sequence of four bytes is a rune, and a bad one is [Runeerror], U+FFFD. *)
Theorem chartorune_four_bytes :
  chartorune [0xF0; 0x9F; 0x98; 0x80; 0] = Some (0x1F600, 4) /\ chartorune [0x80; 0] = Some (0xFFFD, 1).
Proof. by vm_compute. Qed.

(** Every NUL-terminated string, well-formed or not, has a reading as runes on which
    [utflen], [utfrune] and [utfrrune] agree: its length, and the first and the last place
    of a rune; looking for NUL finds the end of the string. None of them leaves the string. *)
Theorem utf_reading t post :
  is_string t -> is_bytes post ->
  let s := t ++ 0 :: post in
  exists ps, pieces t ps /\ utflen s = Some (len ps) /\
    (forall c, 0 < c -> utfrune s c = Some (find_rune c ps) /\
                        utfrrune s c = Some (find_last_rune c ps)) /\
    utfrune s 0 = Some (Some (len t)) /\ utfrrune s 0 = Some (Some (len t)).
Proof.
  intros Hs Hp. cbv zeta. destruct (pieces_total t Hs) as [ps H]. exists ps.
  assert (length t < S (length (t ++ 0%Z :: post)))%nat as Hf by (rewrite length_app; lia).
  split_and!; [done| | | |].
  - unfold utflen. by rewrite (utflen_loop_pieces ps).
  - intros c Hc. unfold utfrune, utfrrune, Runesync. destruct (Z.ltb_spec c 0x80).
    + split; [by apply strchr_pieces|by apply strrchr_pieces].
    + rewrite (utfrune_loop_pieces ps), (utfrrune_loop_pieces ps) by done.
      by destruct (find_rune c ps), (find_last_rune c ps).
  - by apply strchr_nul, Hs.
  - by apply strrchr_nul, Hs.
Qed.

(** ** Well-formed strings *)

(** Runes that can stand in a string. *)
Definition is_runes (rs : list Z) : Prop := Forall (fun r => is_rune r /\ r <> 0) rs.
#[global] Instance is_runes_dec rs : Decision (is_runes rs).
Proof. unfold is_runes. apply _. Defined.

(** How many of the runes fit in [m] bytes. *)
Fixpoint fit (m : Z) (rs : list Z) : Z :=
  match rs with
  | [] => 0
  | r :: rs => if len (utf8 r) <=? m then 1 + fit (m - len (utf8 r)) rs else 0
  end.

(** The byte offset of the first place where the runes [rs2] occur in [rs1]. *)
Fixpoint find_sub (rs2 rs1 : list Z) : option Z :=
  if bool_decide (rs2 `prefix_of` rs1) then Some 0
  else match rs1 with
  | [] => None
  | r :: rs1 => option_map (Z.add (len (utf8 r))) (find_sub rs2 rs1)
  end.

Lemma utf8s_string rs : is_runes rs -> is_string (utf8s rs).
Proof.
  induction 1 as [|r rs [Hr Hz] _ [IH1 IH2]]; [by split; constructor|]. cbn.
  split; apply Forall_app; split; auto using utf8_bytes, utf8_nonnul.
Qed.

Lemma utf8s_cons r rs : utf8s (r :: rs) = utf8 r ++ utf8s rs.
Proof. done. Qed.

Lemma utf8s_app l k : utf8s (l ++ k) = utf8s l ++ utf8s k.
Proof. unfold utf8s. by rewrite map_app, concat_app. Qed.

(** The bytes of a sequence after its first one, and only these, are continuation bytes. *)
Lemma utf8_shape r :
  is_rune r -> exists b t, utf8 r = b :: t /\ cont b = false /\ Forall (fun x => cont x = true) t.
Proof.
  unfold is_rune, Runemax. intros. unfold utf8.
  assert (forall b, 0xC0 <= b -> cont b = false) as Hc.
  { intros b Hb. destruct (cont b) eqn:E; [|done]. apply cont_spec in E. lia. }
  destruct (Z.ltb_spec r 0x80).
  { exists r, []. split_and!; [done| |done]. destruct (cont r) eqn:E; [|done].
    apply cont_spec in E. lia. }
  destruct (Z.ltb_spec r 0x800); [|destruct (Z.ltb_spec r 0x10000)];
    (eexists _, _; split; [done|]; split; [apply Hc; divlia|]);
    repeat (constructor; [apply cont_low|]); constructor.
Qed.

(** Sequences are a prefix code. *)
Lemma utf8_inj r r' x y :
  is_rune r -> is_rune r' -> is_bytes x -> is_bytes y ->
  utf8 r ++ x = utf8 r' ++ y -> r = r' /\ x = y.
Proof.
  intros Hr Hr' Hx Hy E. pose proof (chartorune_utf8 r x Hr Hx) as E1.
  rewrite E, chartorune_utf8 in E1 by done. injection E1 as <- _.
  split; [done|]. by apply app_inv_head in E.
Qed.

Lemma utf8s_prefix rs2 : forall rs1,
  is_runes rs1 -> is_runes rs2 -> (utf8s rs2 `prefix_of` utf8s rs1 <-> rs2 `prefix_of` rs1).
Proof.
  induction rs2 as [|r2 rs2 IH]; intros rs1 H1 H2.
  { split; intros _; [exists rs1|exists (utf8s rs1)]; done. }
  split.
  - intros [k E]. inversion_clear H2 as [|? ? [Hr2 _] H2']. rewrite utf8s_cons in E.
    destruct rs1 as [|r1 rs1].
    { exfalso. pose proof (utf8_len r2). apply (f_equal length) in E.
      rewrite !length_app in E. cbn in E. lia. }
    inversion_clear H1 as [|? ? [Hr1 _] H1']. rewrite utf8s_cons, <- app_assoc in E.
    pose proof (utf8s_string rs1 H1') as [Hb1 _].
    assert (is_bytes (utf8s rs2 ++ k)) as Hb2.
    { pose proof (utf8_bytes r1 Hr1) as Hb. assert (is_bytes (utf8 r1 ++ utf8s rs1)) as Hb0
        by (by apply Forall_app). rewrite E in Hb0. by apply Forall_app in Hb0 as [_ ?]. }
    apply utf8_inj in E as [-> E]; [|done..]. apply prefix_cons.
    apply IH; [done..|]. by exists k.
  - intros [k ->]. exists (utf8s k). by rewrite utf8s_app.
Qed.

(** ** [fullrune] and [runenlen] *)

(** [fullrune] tells that the first [n] bytes are enough for [chartorune]: it then reads no
    other byte and takes no more than [n]; when a rune does start there, it tells so exactly. *)
Theorem fullrune_spec s n :
  is_bytes s -> 0 < n <= len s ->
  exists b, fullrune s n = Some b /\
    (b = true -> exists r k, chartorune (take (Z.to_nat n) s) = Some (r, k) /\
       chartorune s = Some (r, k) /\ k <= n) /\
    (forall r, starts_rune s r -> b = (len (utf8 r) <=? n)).
Proof.
  intros Hs Hn. destruct s as [|c s]; [cbn in Hn; lia|]. cbn [length] in Hn.
  inversion Hs as [|? ? Hc Hs']; subst. unfold fullrune. destruct (Z.leb_spec n 0); [lia|].
  cbn [lookup list_lookup mbind option_bind].
  change Tx with 0x80. change T3 with 0xE0. change T4 with 0xF0. change (UTFmax =? 3) with false.
  cbn [orb]. eexists. split; [done|]. split.
  - destruct (Z.to_nat n) as [|n'] eqn:En; [lia|]. cbn [take].
    rewrite !chartorune_eq by (done || by apply Forall_take). cbv zeta.
    destruct (Z.ltb_spec c 0x80); [intros _; eexists _, _; split_and!; [done..|lia]|].
    intros Hb. assert (2 <= n) by (revert Hb; bcase; (lia || done)).
    destruct n' as [|n']; [lia|]. destruct s as [|b1 s]; [cbn in *; lia|]. cbn [take].
    destruct (cont b1); [|eexists _, _; split_and!; [done..|lia]]. cbn [negb].
    destruct (Z.ltb_spec c 0xE0); [bcase; (eexists _, _; split_and!; [done..|lia])|].
    assert (3 <= n) by (revert Hb; bcase; (lia || done)).
    destruct n' as [|n']; [lia|]. destruct s as [|b2 s]; [cbn in *; lia|]. cbn [take].
    destruct (cont b2); [|eexists _, _; split_and!; [done..|lia]]. cbn [negb].
    destruct (Z.ltb_spec c 0xF0); [bcase; (eexists _, _; split_and!; [done..|lia])|].
    apply Z.leb_le in Hb. destruct n' as [|n']; [lia|]. destruct s as [|b3 s]; [cbn in *; lia|].
    cbn [take]. destruct (cont b3); [|eexists _, _; split_and!; [done..|lia]]. cbn [negb].
    bcase; (eexists _, _; split_and!; [done..|lia]).
  - intros r [Hr [k E]]. unfold is_rune, Runemax in Hr. revert E. unfold utf8.
    destruct (Z.ltb_spec r 0x80); [|destruct (Z.ltb_spec r 0x800); [|destruct (Z.ltb_spec r 0x10000)]];
      intros [= -> _]; cbn [length]; by tests.
Qed.

(** [runenlen] is the number of bytes [runetochar] takes for all of the runes; a value
    above [Runemax] counts as [Runeerror]. *)
Theorem runenlen_spec rs rest :
  Forall (in_u 31) rs ->
  runenlen (rs ++ rest) (length rs) = Some (len (concat (map runetochar_bytes rs))).
Proof.
  induction 1 as [|r rs Hr _ IH]; [done|]. cbn [app runenlen length]. rewrite IH.
  cbn [mbind option_bind map concat]. rewrite length_app, Nat2Z.inj_add. do 2 f_equal.
  rewrite swrap_small by (lia || range). rewrite runetochar_utf8 by range. unfold utf8.
  change Rune1 with 0x7F. change Rune2 with 0x7FF. change Rune3 with 0xFFFF.
  unfold Runemax, Runeerror. bcase; try done; lia.
Qed.

(** A value from 2^31 on is negative as an [int], and [runenlen] counts one byte for it
    where [runetochar] writes three. *)
Theorem runenlen_huge r :
  2 ^ 31 <= r < 2 ^ 32 -> runenlen [r] 1 = Some 1 /\ runelen r = Some 3.
Proof.
  intros Hr. split.
  - unfold runenlen. cbn [mbind option_bind]. assert (s32 r = r - 2 ^ 32) as ->.
    { unfold swrap. rewrite Z.mod_small by lia. destruct (Z.ltb_spec r (2 ^ (32 - 1))); lia. }
    change Rune1 with 0x7F. destruct (Z.leb_spec (r - 2 ^ 32) 0x7F); [done|lia].
  - unfold runelen, runetochar. rewrite wrap_small by range. rewrite runetochar_utf8 by lia.
    unfold Runemax. by destruct (Z.ltb_spec 0x10FFFF r); [|lia].
Qed.

(** ** [utfnlen] *)

Lemma fit_nonneg rs : forall m, 0 <= fit m rs.
Proof.
  induction rs as [|r rs IH]; intros m; cbn [fit]; [lia|].
  specialize (IH (m - len (utf8 r))). bcase; lia.
Qed.

Lemma utfnlen_loop_fit rs : forall post fuel m n,
  is_runes rs -> is_bytes post -> (length (utf8s rs) < fuel)%nat ->
  utfnlen_loop fuel (utf8s rs ++ 0 :: post) m n = Some (n + fit m rs).
Proof.
  induction rs as [|r rs IH]; intros post fuel m n H Hp Hf;
    (destruct fuel as [|fuel]; [lia|]); cbn [utfnlen_loop fit].
  { destruct (0 <? m); cbn; f_equal; lia. }
  inversion_clear H as [|? ? [Hr Hz] H']. rewrite utf8s_cons, length_app in Hf.
  pose proof (utf8_len r) as Hl. pose proof (utf8s_string rs H') as [Hb' _].
  rewrite utf8s_cons, <- app_assoc. assert (is_bytes (utf8s rs ++ 0 :: post)) as Hb0
    by (apply Forall_app; split; [done|by constructor]).
  destruct (Z.ltb_spec 0 m) as [Hm|].
  2: { destruct (Z.leb_spec (len (utf8 r)) m); [lia|f_equal; lia]. }
  destruct (Z.lt_ge_cases r 0x80).
  - rewrite utf8_low by done. cbn [app lookup list_lookup mbind option_bind length].
    unfold Runeself. destruct (Z.ltb_spec r 0x80); [|lia]. destruct (Z.eqb_spec r 0); [done|].
    cbn [drop]. rewrite drop_0, IH by (done || lia).
    change (Z.of_nat 1) with 1. destruct (Z.leb_spec 1 m); [f_equal; lia|lia].
  - pose proof (utf8_high r Hr ltac:(lia)) as Hh. pose proof (chartorune_utf8 r _ Hr Hb0) as Hc.
    assert (fullrune (utf8 r ++ utf8s rs ++ 0 :: post) m = Some (len (utf8 r) <=? m)) as Hfull.
    { unfold fullrune. destruct (Z.leb_spec m 0); [lia|]. unfold is_rune, Runemax in Hr.
      change Tx with 0x80. change T3 with 0xE0. change T4 with 0xF0.
      change (UTFmax =? 3) with false. unfold utf8.
      destruct (Z.ltb_spec r 0x80); [lia|destruct (Z.ltb_spec r 0x800);
        [|destruct (Z.ltb_spec r 0x10000)]]; cbn [app lookup list_lookup mbind option_bind length orb];
        f_equal; by tests. }
    destruct (utf8_shape r Hr) as (b & t & Eb & _ & _).
    assert (0x80 <= b) by (rewrite Eb in Hh; by inversion Hh).
    rewrite Eb in Hc, Hfull |- * at 1. cbn [app lookup list_lookup mbind option_bind] in *.
    unfold Runeself. destruct (Z.ltb_spec b 0x80); [lia|].
    rewrite Eb. cbn [app]. rewrite Hfull. cbn [mbind option_bind].
    destruct (Z.leb_spec (len (utf8 r)) m) as [Hle|Hgt]; rewrite Eb in *; cbn [negb].
    + rewrite Hc. cbn [mbind option_bind]. rewrite Nat2Z.id.
      rewrite (app_comm_cons t), drop_app_length, IH by (done || lia).
      destruct (Z.leb_spec (len (b :: t)) m); [f_equal; lia|lia].
    + destruct (Z.leb_spec (len (b :: t)) m); [lia|f_equal; lia].
Qed.

(** [utfnlen] counts the runes whose sequences lie within the first [m] bytes. *)
Theorem utfnlen_spec rs post m :
  is_runes rs -> is_bytes post ->
  utfnlen (utf8s rs ++ 0 :: post) m = Some (fit m rs) /\
  len (utf8s (take (Z.to_nat (fit m rs)) rs)) <= Z.max 0 m /\
  (fit m rs < len rs -> m < len (utf8s (take (S (Z.to_nat (fit m rs))) rs))).
Proof.
  intros H Hp. split; [|clear H Hp].
  - unfold utfnlen. rewrite utfnlen_loop_fit by (done || rewrite length_app; lia). done.
  - revert m. induction rs as [|r rs IH]; intros m.
    { split; [change (0 <= Z.max 0 m); lia|cbn [fit length]; lia]. }
    cbn [fit]. pose proof (utf8_len r). destruct (Z.leb_spec (len (utf8 r)) m).
    + specialize (IH (m - len (utf8 r))). pose proof (fit_nonneg rs (m - len (utf8 r))).
      rewrite Z2Nat.inj_add by lia. change (Z.to_nat 1) with 1%nat. cbn [Nat.add take length].
      rewrite !utf8s_cons, !length_app, !Nat2Z.inj_add. lia.
    + change (Z.to_nat 0) with 0%nat. cbn [take]. split; [change (0 <= Z.max 0 m); lia|]. intros _.
      rewrite utf8s_cons, length_app. lia.
Qed.

(** ** [utfutf] *)

(** Comparing as many bytes as the second string has tells whether it is a prefix. *)
Lemma strncmp_prefix t2 post2 : forall t1 post1,
  Forall (fun b => b <> 0) t1 -> Forall (fun b => b <> 0) t2 ->
  strncmp_eq (t1 ++ 0 :: post1) (t2 ++ 0 :: post2) (length t2)
  = Some (bool_decide (t2 `prefix_of` t1)).
Proof.
  induction t2 as [|b t2 IH]; intros t1 post1 H1 H2; cbn [strncmp_eq length].
  { rewrite bool_decide_true by apply prefix_nil. done. }
  inversion_clear H2 as [|? ? Hb H2']. destruct t1 as [|a t1]; cbn [app].
  { destruct (Z.eqb_spec 0 b); [congruence|]. cbn [negb]. rewrite bool_decide_false; [done|].
    intros [k E]. done. }
  inversion_clear H1 as [|? ? Ha H1']. destruct (Z.eqb_spec a b) as [->|Hne]; cbn [negb].
  - destruct (Z.eqb_spec b 0); [done|]. rewrite IH by done. f_equal. apply bool_decide_ext.
    split; [apply prefix_cons|apply prefix_cons_inv_2].
  - rewrite bool_decide_false; [done|]. intros E. by apply prefix_cons_inv_1 in E.
Qed.

Lemma c_str_nul t post : Forall (fun b => b <> 0) t -> c_str (t ++ 0 :: post) = t.
Proof.
  induction 1 as [|b t Hb _ IH]; [done|]. cbn. destruct (Z.eqb_spec b 0); [done|]. by rewrite IH.
Qed.

(** No occurrence starts at a continuation byte. *)
Lemma strstr_skip b t post b2 t2 post2 :
  Forall (fun x => cont x = true) b -> cont b2 = false -> b2 <> 0 ->
  strstr (b ++ t ++ 0 :: post) ((b2 :: t2) ++ 0 :: post2)
  = r ← strstr (t ++ 0 :: post) ((b2 :: t2) ++ 0 :: post2); Some (option_map (Z.add (len b)) r).
Proof.
  intros Hb Hc Hz. induction Hb as [|x b Hx _ IH].
  { cbn [app]. destruct (strstr (t ++ 0 :: post) _) as [[k|]|]; done. }
  cbn [app strstr]. cbn [app] in IH. rewrite IH. cbn [c_str].
  destruct (Z.eqb_spec b2 0); [done|]. cbn [length strncmp_eq].
  destruct (Z.eqb_spec x b2) as [->|]; [by rewrite Hc in Hx|]. cbn [negb mbind option_bind].
  destruct (Z.eqb_spec x 0) as [->|]; [done|].
  destruct (strstr (t ++ 0 :: post) _) as [[k|]|]; [|done..]. cbn [mbind option_bind option_map length].
  do 2 f_equal. lia.
Qed.

Lemma strstr_find rs2 post2 : forall rs1 post1,
  is_runes rs1 -> is_runes rs2 ->
  strstr (utf8s rs1 ++ 0 :: post1) (utf8s rs2 ++ 0 :: post2) = Some (find_sub rs2 rs1).
Proof.
  intros rs1 post1 H1 H2. pose proof (utf8s_string rs2 H2) as [_ Hz2].
  induction H1 as [|r rs1 [Hr Hz] H1 IH].
  - cbn [utf8s map concat app strstr]. rewrite c_str_nul by done.
    rewrite (strncmp_prefix _ _ [] post1) by done. cbn [mbind option_bind find_sub].
    rewrite (bool_decide_ext _ _ (utf8s_prefix rs2 [] (Forall_nil_2 _) H2)).
    by case_bool_decide.
  - assert (is_runes (r :: rs1)) as Hrs by (by constructor).
    pose proof (utf8s_string _ Hrs) as [_ Hz1].
    destruct (utf8_shape r Hr) as (b & t & Eb & _ & Ht).
    assert (forall s, strstr ((utf8s (r :: rs1)) ++ 0 :: post1) s =
      (e ← strncmp_eq (utf8s (r :: rs1) ++ 0 :: post1) s (length (c_str s));
       if (e : bool) then Some (Some 0)
       else if b =? 0 then Some None
       else x ← strstr (t ++ utf8s rs1 ++ 0 :: post1) s; Some (option_map Z.succ x))) as ->
      by (intros; rewrite utf8s_cons, Eb, <- app_assoc; done).
    rewrite c_str_nul, strncmp_prefix by done. cbn [mbind option_bind find_sub].
    rewrite (bool_decide_ext _ _ (utf8s_prefix rs2 _ Hrs H2)).
    case_bool_decide as Hp; [done|]. destruct rs2 as [|r2 rs2]; [by destruct Hp; apply prefix_nil|].
    assert (b <> 0) by (pose proof (utf8_nonnul r Hr Hz) as Hn; rewrite Eb in Hn; by inversion Hn).
    destruct (Z.eqb_spec b 0); [done|]. inversion_clear H2 as [|? ? [Hr2 Hnz2] _].
    destruct (utf8_shape r2 Hr2) as (b2 & t2 & Eb2 & Hc2 & _).
    rewrite utf8s_cons, Eb2 in IH, Hz2 |- *. cbn [app] in IH, Hz2 |- *. inversion Hz2; subst.
    pose proof (strstr_skip t (utf8s rs1) post1 b2 (t2 ++ utf8s rs2) post2 Ht Hc2) as Hsk.
    cbn [app] in Hsk. rewrite Hsk by done. rewrite IH. cbn [mbind option_bind]. f_equal.
    rewrite Eb. destruct (find_sub _ rs1); [cbn [option_map length]; f_equal; lia|done].
Qed.

Lemma find_rune_split c rs :
  match find_rune c (map (fun r => (r, utf8 r)) rs) with
  | None => c ∉ rs
  | Some k => exists l1 l2, rs = l1 ++ c :: l2 /\ (c ∉ l1) /\ k = len (utf8s l1)
  end.
Proof.
  induction rs as [|r rs IH]; cbn [map find_rune]; [apply not_elem_of_nil|].
  destruct (Z.eqb_spec r c) as [->|Hne].
  { exists [], rs. split_and!; [done|apply not_elem_of_nil|done]. }
  destruct (find_rune c _) as [k|]; cbn [option_map].
  - destruct IH as (l1 & l2 & -> & Hn & ->). exists (r :: l1), l2.
    split_and!; [done|by apply not_elem_of_cons|]. rewrite utf8s_cons, length_app. lia.
  - by apply not_elem_of_cons.
Qed.

(** An occurrence starts with its first rune. *)
Lemma find_sub_skip c rs2 l1 rs :
  c ∉ l1 -> find_sub (c :: rs2) (l1 ++ rs)
  = option_map (Z.add (len (utf8s l1))) (find_sub (c :: rs2) rs).
Proof.
  induction l1 as [|r l1 IH]; intros Hn.
  { cbn [app]. by destruct (find_sub (c :: rs2) rs). }
  apply not_elem_of_cons in Hn as [Hr Hn]. cbn [app find_sub].
  rewrite bool_decide_false by (intros ?%prefix_cons_inv_1; congruence).
  rewrite IH by done. destruct (find_sub (c :: rs2) rs); [|done]. cbn [option_map]. f_equal.
  rewrite utf8s_cons, length_app. lia.
Qed.

Lemma find_sub_none c rs2 rs : c ∉ rs -> find_sub (c :: rs2) rs = None.
Proof.
  intros H. rewrite <- (app_nil_r rs), find_sub_skip by done. cbn [find_sub].
  rewrite bool_decide_false; [done|]. by intros ?%prefix_nil_inv.
Qed.

Lemma is_runes_bytes rs post : is_runes rs -> is_bytes post -> is_bytes (utf8s rs ++ 0 :: post).
Proof.
  intros H Hp. apply Forall_app; split; [by apply utf8s_string|by constructor].
Qed.

Lemma is_runes_runes rs : is_runes rs -> Forall is_rune rs.
Proof. intros H. eapply Forall_impl; [exact H|]. cbn. tauto. Qed.

Lemma utfutf_loop_find f rs2 post2 : forall fuel rs1 post1 p,
  is_runes rs1 -> is_runes (f :: rs2) -> is_bytes post1 -> Runesync < f ->
  (length rs1 < fuel)%nat ->
  utfutf_loop fuel (utf8s rs1 ++ 0 :: post1) (utf8s (f :: rs2) ++ 0 :: post2) p f
    (len (utf8 f)) (len (utf8s (f :: rs2)))
  = Some (option_map (Z.add p) (find_sub (f :: rs2) rs1)).
Proof.
  induction fuel as [|fuel IH]; intros rs1 post1 p H1 H2 Hp Hf Hl; [lia|]. cbn [utfutf_loop].
  assert (utfrune (utf8s rs1 ++ 0 :: post1) f
    = Some (find_rune f (map (fun r => (r, utf8 r)) rs1))) as ->.
  { unfold utfrune. destruct (Z.ltb_spec f Runesync); [lia|].
    rewrite (utfrune_loop_pieces (map (fun r => (r, utf8 r)) rs1)).
    - by destruct (find_rune f _).
    - by apply pieces_utf8s, is_runes_runes.
    - by apply utf8s_string.
    - done.
    - rewrite length_app. lia. }
  pose proof (find_rune_split f rs1) as Hsp. cbn [mbind option_bind].
  destruct (find_rune f _) as [k|]; [|by rewrite find_sub_none].
  destruct Hsp as (l1 & l2 & -> & Hn & ->). apply Forall_app in H1 as [Hl1 Hl2].
  rewrite utf8s_app, <- app_assoc, !Nat2Z.id, drop_app_length.
  rewrite strncmp_prefix by (by apply utf8s_string). cbn [mbind option_bind].
  rewrite (bool_decide_ext _ _ (utf8s_prefix (f :: rs2) (f :: l2) Hl2 H2)).
  rewrite find_sub_skip by done. cbn [find_sub]. case_bool_decide.
  - cbn [option_map]. do 2 f_equal. lia.
  - rewrite utf8s_cons, <- app_assoc, drop_app_length. rewrite length_app in Hl. cbn [length] in Hl.
    inversion Hl2; subst. rewrite IH by (done || lia). f_equal.
    destruct (find_sub _ l2); [cbn [option_map]; f_equal; lia|done].
Qed.

(** On well-formed strings [utfutf] finds the first occurrence, rune for rune, of the
    second in the first; that [strstr] does it when the first rune represents itself relies
    on sequences being self-synchronising. *)
Theorem utfutf_spec rs1 rs2 post1 post2 :
  is_runes rs1 -> is_runes rs2 -> is_bytes post1 -> is_bytes post2 ->
  utfutf (utf8s rs1 ++ 0 :: post1) (utf8s rs2 ++ 0 :: post2) = Some (find_sub rs2 rs1).
Proof.
  intros H1 H2 Hp1 Hp2. unfold utfutf. destruct rs2 as [|f rs2].
  { cbn [utf8s map concat app]. change (chartorune (0 :: post2)) with (Some (0, 1)).
    cbn [mbind option_bind]. by apply (strstr_find [] post2 rs1 post1). }
  pose proof H2 as Hr2. inversion_clear Hr2 as [|? ? [Hf _] H2'].
  rewrite utf8s_cons at 1. rewrite <- app_assoc, chartorune_utf8;
    [|done|by apply is_runes_bytes]. cbn [mbind option_bind].
  destruct (Z.leb_spec f Runesync); [by apply strstr_find|].
  unfold strlen. rewrite c_str_nul by (by apply utf8s_string).
  rewrite utfutf_loop_find; try done.
  - by destruct (find_sub _ rs1).
  - rewrite length_app. cbn. enough (length rs1 <= length (utf8s rs1))%nat by lia.
    clear. induction rs1 as [|r rs IH]; [done|]. rewrite utf8s_cons, length_app.
    pose proof (utf8_len r). cbn. lia.
Qed.

(** ** [utfecpy] *)

Lemma memccpy_spec post : forall n t m to,
  Forall (fun b => b <> 0) t -> 0 <= to -> to + Z.of_nat n <= len m ->
  exists m', memccpy m to (t ++ 0 :: post) n
    = Some (m', if len t <? Z.of_nat n then Some (to + len t + 1) else None) /\
    store m to (take n (t ++ [0])) = Some m'.
Proof.
  induction n as [|n IH]; intros t m to Ht Hto Hm.
  { exists m. cbn [memccpy]. destruct (Z.ltb_spec (len t) (Z.of_nat 0)); [lia|]. split; [done|].
    apply store_nil. lia. }
  cbn [memccpy]. destruct t as [|b t]; cbn [app lookup list_lookup mbind option_bind].
  - destruct (store_Some m to [0]) as (m' & E & _); [lia|cbn; lia|]. exists m'. rewrite E.
    cbn [mbind option_bind length]. destruct (Z.ltb_spec (Z.of_nat 0) (Z.of_nat (S n))); [|lia].
    rewrite take_ge by (cbn; lia). split; [|done]. do 3 f_equal. lia.
  - inversion_clear Ht as [|? ? Hb Ht']. destruct (store_Some m to [b]) as (m1 & E1 & L1);
      [lia|cbn; lia|]. rewrite E1. cbn [mbind option_bind]. destruct (Z.eqb_spec b 0); [done|].
    cbn [drop]. rewrite drop_0. destruct (IH t m1 (to + 1)) as (m' & E2 & S2); [done|lia|lia|].
    exists m'. rewrite E2. split.
    + cbn [length]. destruct (Z.ltb_spec (len t) (Z.of_nat n)),
        (Z.ltb_spec (Z.of_nat (S (length t))) (Z.of_nat (S n))); try lia; do 3 f_equal; lia.
    + cbn [take]. change (b :: take n (t ++ [0])) with ([b] ++ take n (t ++ [0])).
      by eapply store_plus.
Qed.

Lemma cont_mask b : in_u 8 b -> ((b .& 0xC0) =? 0x80) = cont b.
Proof.
  intros. apply eqb_prop. apply (all_bytes (fun b => eqb ((b .& 0xC0) =? 0x80) (cont b)));
    [vm_compute; reflexivity|done].
Qed.

Lemma backup_spec m to : forall n u,
  load m to (Z.of_nat n) = Some u -> is_bytes u ->
  exists j : nat, backup m to n = Some (to + Z.of_nat j) /\
    (j = 0%nat \/ exists c, u !! j = Some c /\ cont c = false).
Proof.
  induction n as [|n IH]; intros u Hu Hb.
  { exists 0%nat. split; [cbn; f_equal; lia|by left]. }
  pose proof Hu as Hu'. apply load_inv in Hu' as (Hto & _ & Hm & Hl & pre & post & -> & <-).
  destruct (nil_or_length_pos u) as [->|]; [cbn in Hl; lia|].
  destruct (exists_last (l := u)) as (u' & c & ->); [by destruct u|].
  rewrite length_app in Hl. cbn [length] in Hl. assert (length u' = n) as Hn by lia.
  apply Forall_app in Hb as [Hb' Hc]. inversion_clear Hc.
  cbn [backup]. rewrite <- app_assoc. cbn [app].
  rewrite app_assoc, load1_app by (rewrite length_app; lia). cbn [mbind option_bind].
  rewrite cont_mask by done. destruct (cont c) eqn:Ec.
  - destruct (IH u') as (j & E & Hj).
    { rewrite <- app_assoc. by apply load_app; [|lia]. }
    { done. }
    exists j. rewrite <- app_assoc in *. split; [done|].
    destruct Hj as [|(c' & Hc' & Hn')]; [by left|right]. exists c'. split; [|done].
    by apply lookup_app_l_Some.
  - exists n. split; [done|right]. exists c. split; [|done]. by apply list_lookup_middle.
Qed.

(** A byte that is not a continuation byte starts a rune. *)
Lemma utf8s_boundary rs : forall j c,
  is_runes rs -> utf8s rs !! j = Some c -> cont c = false ->
  exists k, j = length (utf8s (take k rs)) /\ (k < length rs)%nat.
Proof.
  induction rs as [|r rs IH]; intros j c H Hj Hc; [done|]. inversion_clear H as [|? ? [Hr _] H'].
  rewrite utf8s_cons in Hj. destruct (utf8_shape r Hr) as (b & t & Eb & _ & Ht).
  destruct j as [|j]; [by exists 0%nat; cbn; split; [|lia]|].
  destruct (decide (S j < length (utf8 r))%nat).
  - rewrite lookup_app_l, Eb in Hj by done. cbn in Hj.
    pose proof (proj1 (Forall_lookup _ _) Ht _ _ Hj) as E. cbn in E. congruence.
  - rewrite lookup_app_r in Hj by lia. destruct (IH _ c H' Hj Hc) as (k & E & Hk).
    exists (S k). cbn [take length]. rewrite utf8s_cons, length_app. lia.
Qed.

(** [m'] is [m] with the string [u] at [to], and nothing changed outside of [to, e). *)
Definition copied (m m' : bytes) (to e : Z) (u : bytes) : Prop :=
  load m' to (len u + 1) = Some (u ++ [0]) /\ to + len u < e /\
  exists mid, len mid = e - to /\ m' = take (Z.to_nat to) m ++ mid ++ drop (Z.to_nat e) m.

Lemma copied_whole m m' to e u :
  0 <= to -> e <= len m -> to + len u < e -> store m to (u ++ [0]) = Some m' ->
  copied m m' to e u.
Proof.
  intros Hto He Hu Hs. pose proof (load_store _ _ _ _ Hs) as Hl. rewrite length_app in Hl.
  split; [rewrite <- Hl; f_equal; cbn; lia|]. split; [done|].
  unfold store in Hs. destruct (_ && _); [|done]. injection Hs as <-.
  exists ((u ++ [0]) ++ take (Z.to_nat (e - to - len u - 1))
    (drop (Z.to_nat (to + len (u ++ [0]))) m)).
  rewrite !length_app, length_take, length_drop. cbn [length]. split; [lia|].
  rewrite <- !app_assoc. do 3 f_equal.
  rewrite <- (take_drop (Z.to_nat (e - to - len u - 1)) (drop _ m)) at 1.
  rewrite drop_drop. do 3 f_equal. lia.
Qed.

(** Cutting what was copied at [to + len u]. *)
Lemma copied_cut m m1 to e u b w :
  store m to (u ++ b :: w) = Some m1 -> len (u ++ b :: w) = e - to ->
  exists m', store m1 (to + len u) [0] = Some m' /\ copied m m' to e u.
Proof.
  intros Hs Lw. apply store_inv in Hs as (pre & old & rest & -> & -> & -> & Lo).
  rewrite length_app in Lw, Lo. cbn [length] in Lw, Lo.
  rewrite <- app_assoc, (app_assoc pre u). cbn [app].
  pose proof (store_app (pre ++ u) [b] [0] (w ++ rest) (len pre + len u)
    ltac:(rewrite length_app; lia) eq_refl) as E2. cbn [app] in E2. rewrite E2.
  eexists. split; [done|]. split; [|split; [lia|]].
  - rewrite <- app_assoc. change (0 :: w ++ rest) with ([0] ++ w ++ rest).
    rewrite (app_assoc u [0]). apply load_app; [done|]. rewrite length_app. cbn. lia.
  - exists (u ++ 0 :: w). rewrite length_app. cbn [length]. split; [lia|].
    rewrite Nat2Z.id, take_app_length. rewrite <- !app_assoc. cbn [app]. do 4 f_equal.
    rewrite (app_assoc pre old), drop_app_ge by (rewrite length_app; lia).
    rewrite length_app. by replace (_ - _)%nat with 0%nat by lia.
Qed.

(** Backing up over a copied part of a well-formed string ends at a rune. *)
Lemma backup_boundary m to rs n :
  is_runes rs -> (n < length (utf8s rs))%nat -> load m to (Z.of_nat n) = Some (take n (utf8s rs)) ->
  exists k, backup m to n = Some (to + len (utf8s (take k rs))) /\
    (length (utf8s (take k rs)) <= n)%nat.
Proof.
  intros Hrs Hn Hl. pose proof (utf8s_string rs Hrs) as [Hb _].
  destruct (backup_spec m to n _ Hl) as (j & -> & Hj); [by apply Forall_take|].
  destruct Hj as [->|(c & Hc & Hcc)]; [exists 0%nat; split; [done|apply Nat.le_0_l]|].
  apply lookup_take_Some in Hc as [Hc Hjl].
  destruct (utf8s_boundary rs j c Hrs Hc Hcc) as (k & -> & Hk). exists k. split; [done|lia].
Qed.

(** [utfecpy] writes within [to, e) only, leaves there a NUL-terminated string and returns
    the place of its NUL. The string is a whole number of runes of the source, all of them
    when they fit. *)
Theorem utfecpy_spec m to e rs post :
  is_bytes m -> is_runes rs -> is_bytes post -> 0 <= to < e -> e <= len m ->
  exists k m', utfecpy m to e (utf8s rs ++ 0 :: post)
      = Some (to + len (utf8s (take k rs)), m') /\
    copied m m' to e (utf8s (take k rs)) /\
    (len (utf8s rs) < e - to -> take k rs = rs).
Proof.
  intros Hm Hrs Hp Hto He. pose proof (utf8s_string rs Hrs) as [Hb Hz].
  unfold utfecpy. destruct (Z.leb_spec e to); [lia|].
  destruct (memccpy_spec post (Z.to_nat (e - to)) (utf8s rs) m to) as (m1 & -> & E1); [done|lia|lia|].
  rewrite Z2Nat.id by lia. cbn [mbind option_bind].
  destruct (Z.ltb_spec (len (utf8s rs)) (e - to)) as [Hfit|Hcut].
  - exists (length rs), m1. rewrite firstn_all.
    rewrite take_ge in E1 by (rewrite length_app; cbn; lia).
    split; [do 2 f_equal; lia|]. split; [|done]. apply copied_whole; (done || lia).
  - rewrite take_app_le in E1 by lia. remember (Z.to_nat (e - 1 - to)) as n eqn:En.
    replace (Z.to_nat (e - to)) with (S n) in E1 by lia.
    destruct (backup_boundary m1 to rs n) as (k & -> & Hk); [done|lia| |].
    { pose proof (load_store _ _ _ _ E1) as Hl. rewrite length_take_le in Hl by lia.
      apply load_inv in Hl as (_ & _ & _ & _ & pre & tl & -> & <-).
      rewrite <- (take_drop n (take (S n) _)), take_take, <- app_assoc.
      rewrite Nat.min_l by lia. apply load_app; [done|]. rewrite length_take_le; lia. }
    cbn [mbind option_bind]. set (u := utf8s (take k rs)) in *.
    assert (exists b w, take (S n) (utf8s rs) = u ++ b :: w) as (b & w & Ew).
    { assert (take (length u) (utf8s rs) = u) as Eu.
      { rewrite <- (take_drop k rs) at 1. rewrite utf8s_app. fold u. apply take_app_length. }
      pose proof (take_drop (length u) (take (S n) (utf8s rs))) as Et.
      rewrite take_take, Nat.min_l, Eu in Et by lia.
      destruct (drop (length u) (take (S n) (utf8s rs))) as [|b w] eqn:Ed; [|by exists b, w].
      apply (f_equal length) in Ed. rewrite length_drop, length_take in Ed. cbn [length] in Ed. lia. }
    rewrite Ew in E1. destruct (copied_cut m m1 to e u b w E1) as (m' & -> & Hc).
    { rewrite <- Ew, length_take. lia. }
    exists k, m'. split; [done|]. split; [done|lia].
Qed.

(** ** Concrete instances *)

Lemma runetochar_roundtrip_witness :
  exists n str', runetochar (replicate 4 1 ++ []) 0x20AC = Some (n, str' ++ []) /\
    runelen 0x20AC = Some n /\ length str' = length (replicate 4 1) /\
    chartorune (str' ++ []) = Some (if Runemax <? 0x20AC then Runeerror else 0x20AC, n).
Proof. apply (runetochar_roundtrip 0x20AC (replicate 4 1) []); by_decide. Defined.

(** An overlong sequence of two bytes. *)
Lemma chartorune_spec_witness :
  exists r n, chartorune ([0xC0; 0x80] ++ 0 :: []) = Some (r, n) /\ 1 <= n <= len [0xC0; 0x80] /\
    (starts_rune [0xC0; 0x80] r /\ n = len (utf8 r) \/
     r = Runeerror /\ n = 1 /\ forall r', ~ starts_rune [0xC0; 0x80] r').
Proof. apply (chartorune_spec [0xC0; 0x80] []); by_decide. Defined.

Lemma utf_reading_witness :
  let t := [97; 0xE2; 0x82; 0xAC; 0xFF; 98] in
  let s := t ++ 0 :: [7] in
  exists ps, pieces t ps /\ utflen s = Some (len ps) /\
    (forall c, 0 < c -> utfrune s c = Some (find_rune c ps) /\
                        utfrrune s c = Some (find_last_rune c ps)) /\
    utfrune s 0 = Some (Some (len t)) /\ utfrrune s 0 = Some (Some (len t)).
Proof. apply (utf_reading [97; 0xE2; 0x82; 0xAC; 0xFF; 98] [7]); by_decide. Defined.

Lemma fullrune_spec_witness :
  exists b, fullrune [0xE2; 0x82; 0xAC] 2 = Some b /\
    (b = true -> exists r k, chartorune (take (Z.to_nat 2) [0xE2; 0x82; 0xAC]) = Some (r, k) /\
       chartorune [0xE2; 0x82; 0xAC] = Some (r, k) /\ k <= 2) /\
    (forall r, starts_rune [0xE2; 0x82; 0xAC] r -> b = (len (utf8 r) <=? 2)).
Proof. apply (fullrune_spec [0xE2; 0x82; 0xAC] 2); by_decide. Defined.

Lemma runenlen_spec_witness :
  runenlen ([97; 0x20AC; 0x7FFFFFFF] ++ [5]) 3
  = Some (len (concat (map runetochar_bytes [97; 0x20AC; 0x7FFFFFFF]))).
Proof. apply (runenlen_spec [97; 0x20AC; 0x7FFFFFFF] [5]); by_decide. Defined.

Lemma runenlen_huge_witness : runenlen [0xFFFFFFFF] 1 = Some 1 /\ runelen 0xFFFFFFFF = Some 3.
Proof. apply (runenlen_huge 0xFFFFFFFF); by_decide. Defined.

Lemma utfnlen_spec_witness :
  let rs := [97; 0x20AC; 98] in
  utfnlen (utf8s rs ++ 0 :: []) 3 = Some (fit 3 rs) /\
  len (utf8s (take (Z.to_nat (fit 3 rs)) rs)) <= Z.max 0 3 /\
  (fit 3 rs < len rs -> 3 < len (utf8s (take (S (Z.to_nat (fit 3 rs))) rs))).
Proof. apply (utfnlen_spec [97; 0x20AC; 98] [] 3); by_decide. Defined.

Lemma utfutf_spec_witness :
  utfutf (utf8s [97; 0x20AC; 0x20AC; 98] ++ 0 :: []) (utf8s [0x20AC; 98] ++ 0 :: [])
  = Some (find_sub [0x20AC; 98] [97; 0x20AC; 0x20AC; 98]).
Proof. apply (utfutf_spec [97; 0x20AC; 0x20AC; 98] [0x20AC; 98] [] []); by_decide. Defined.

Lemma utfecpy_spec_witness :
  let m := replicate 6 9 in let rs := [97; 0x20AC; 98] in
  exists k m', utfecpy m 1 5 (utf8s rs ++ 0 :: []) = Some (1 + len (utf8s (take k rs)), m') /\
    copied m m' 1 5 (utf8s (take k rs)) /\ (len (utf8s rs) < 5 - 1 -> take k rs = rs).
Proof. apply (utfecpy_spec (replicate 6 9) 1 5 [97; 0x20AC; 98] []); by_decide. Defined.
