(* ===== verification/Intmap.v ===== *)
(** * Maps from [ulong] to pointers: [lib9p/intmap.c]

    The hash table of 128 lists, the interface its clients rely on (a finite map with
    insertion that refuses to replace), and the proof that the table implements it. The lock
    around each operation makes it atomic, so an operation is one function of the table. *)

From S2P Require Import Prelude.

(** ** The interface *)

(** A [void*] is the address of an object. *)
Class KeyMapOps (M : Type) := {
  allocmap : M;
  lookupkey : M -> Z -> option Z;
  insertkey : M -> Z -> Z -> option Z * M;
  caninsertkey : M -> Z -> Z -> bool * M;
  deletekey : M -> Z -> option Z * M }.

(** What the operations promise, in terms of the finite map a table stands for. *)
Class KeyMap (M : Type) `{KeyMapOps M} := {
  contents : M -> gmap Z Z;
  map_ok : M -> Prop;
  allocmap_ok : map_ok allocmap /\ contents allocmap = ∅;
  lookupkey_ok m id : map_ok m -> 0 <= id -> lookupkey m id = contents m !! id;
  insertkey_ok m id v : map_ok m -> 0 <= id ->
    map_ok (insertkey m id v).2 /\ (insertkey m id v).1 = contents m !! id /\
    contents (insertkey m id v).2 = <[id := v]> (contents m);
  caninsertkey_ok m id v : map_ok m -> 0 <= id ->
    map_ok (caninsertkey m id v).2 /\
    (caninsertkey m id v).1 = bool_decide (contents m !! id = None) /\
    contents (caninsertkey m id v).2
    = if bool_decide (contents m !! id = None) then <[id := v]> (contents m) else contents m;
  deletekey_ok m id : map_ok m -> 0 <= id ->
    map_ok (deletekey m id).2 /\ (deletekey m id).1 = contents m !! id /\
    contents (deletekey m id).2 = delete id (contents m) }.

(** ** The table *)

Definition NHASH : nat := 128.

(** An [Intlist] is a list of cells, the head first; a cell is its [id] and its [aux]. *)
Abbreviation Intlist := (list (Z * Z)).

(** The array [hash]. The lock and the callback [inc] are not part of the contents: [inc] is
    called by the clients' [lookupfid] and [lookupreq]. *)
Record Intmap := mkIntmap { hash : list Intlist }.

Definition hashid (id : Z) : nat := Z.to_nat (id mod Z.of_nat NHASH).

(** [llookup]: the cells before the one with key [id], and the list from it on. *)
Fixpoint llookup (l : Intlist) (id : Z) : Intlist * Intlist :=
  match l with
  | [] => ([], [])
  | c :: l' =>
      if c.1 =? id then ([], l)
      else let (pre, rest) := llookup l' id in (c :: pre, rest)
  end.

Definition bucket (m : Intmap) (id : Z) : Intlist := default [] (hash m !! hashid id).
#[global] Arguments bucket : simpl never.
Definition set_bucket (m : Intmap) (id : Z) (l : Intlist) : Intmap :=
  mkIntmap (<[hashid id := l]> (hash m)).

#[global] Arguments set_bucket : simpl never.

Module Table.
Definition allocmap : Intmap := mkIntmap (replicate NHASH []).

Definition lookupkey (m : Intmap) (id : Z) : option Z :=
  match (llookup (bucket m id) id).2 with
  | f :: _ => Some f.2
  | [] => None
  end.

(** The old value, and the table. *)
Definition insertkey (m : Intmap) (id v : Z) : option Z * Intmap :=
  match llookup (bucket m id) id with
  | (pre, f :: link) => (Some f.2, set_bucket m id (pre ++ (f.1, v) :: link))
  | (_, []) => (None, set_bucket m id ((id, v) :: bucket m id))
  end.

Definition caninsertkey (m : Intmap) (id v : Z) : bool * Intmap :=
  match (llookup (bucket m id) id).2 with
  | _ :: _ => (false, m)
  | [] => (true, set_bucket m id ((id, v) :: bucket m id))
  end.

Definition deletekey (m : Intmap) (id : Z) : option Z * Intmap :=
  match llookup (bucket m id) id with
  | (pre, f :: link) => (Some f.2, set_bucket m id (pre ++ link))
  | (_, []) => (None, m)
  end.

(** The values [freemap] calls [destroy] on, in their order. *)
Definition freemap (m : Intmap) : list Z := map snd (concat (hash m)).
End Table.

#[export] Instance intmap_ops : KeyMapOps Intmap := {
  allocmap := Table.allocmap;
  lookupkey := Table.lookupkey;
  insertkey := Table.insertkey;
  caninsertkey := Table.caninsertkey;
  deletekey := Table.deletekey }.

(** ** The finite map of a table *)

Definition intmap_contents (m : Intmap) : gmap Z Z := list_to_map (concat (hash m)).

(** Every cell is in the list of its key, and no key has two cells. *)
Definition intmap_ok (m : Intmap) : Prop :=
  length (hash m) = NHASH /\
  (forall i l, hash m !! i = Some l -> Forall (fun c => 0 <= c.1 /\ hashid c.1 = i) l) /\
  (forall i l, hash m !! i = Some l -> NoDup l.*1).

(** ** Lemmas *)

Lemma llookup_split l id :
  let (pre, rest) := llookup l id in
  l = pre ++ rest /\ (id ∉ pre.*1) /\
  match rest with [] => True | f :: _ => f.1 = id end.
Proof.
  induction l as [|c l IH]; cbn [llookup].
  { split_and!; [done|apply not_elem_of_nil|done]. }
  destruct (Z.eqb_spec c.1 id) as [E|E].
  - split_and!; [done|apply not_elem_of_nil|done].
  - destruct (llookup l id) as [pre rest]. destruct IH as (-> & Hn & Hr).
    split_and!; [done| |done]. cbn. by apply not_elem_of_cons.
Qed.

Lemma hashid_lt id : 0 <= id -> (hashid id < NHASH)%nat.
Proof. intros. unfold hashid, NHASH. pose proof (Z.mod_pos_bound id 128). lia. Qed.

(** A key that is in one list only. *)
Lemma concat_lookup (ll : list Intlist) i0 id :
  (forall i l, ll !! i = Some l -> i <> i0 -> id ∉ l.*1) ->
  (list_to_map (concat ll) : gmap Z Z) !! id
  = (list_to_map (default [] (ll !! i0)) : gmap Z Z) !! id.
Proof.
  revert i0. induction ll as [|l ll IH]; intros i0 H; [done|]. cbn [concat].
  rewrite list_to_map_app. destruct i0 as [|i0]; cbn [lookup list_lookup default from_option]; unfold Datatypes.id.
  - assert ((list_to_map (concat ll) : gmap Z Z) !! id = None) as E.
    { rewrite (IH (length ll)).
      - by rewrite lookup_ge_None_2.
      - intros i l' Hi _. by apply (H (S i) l'). }
    destruct ((list_to_map l : gmap Z Z) !! id) as [x|] eqn:El.
    + etransitivity; [by apply lookup_union_Some_l|done].
    + etransitivity; [by apply lookup_union_None|done].
  - assert ((list_to_map l : gmap Z Z) !! id = None) as E.
    { apply not_elem_of_list_to_map_1. by apply (H 0%nat). }
    rewrite lookup_union_r by done. apply IH. intros i l' Hi Hne. apply (H (S i) l'); [done|lia].
Qed.

Section ok.
Context (m : Intmap) (Hok : intmap_ok m).

Lemma bucket_lookup id : 0 <= id -> hash m !! hashid id = Some (bucket m id).
Proof using Hok.
  intros Hid. destruct Hok as (Hl & _). unfold bucket.
  destruct (lookup_lt_is_Some_2 (hash m) (hashid id)) as [l E]; [rewrite Hl; by apply hashid_lt|].
  by rewrite E.
Qed.

Lemma contents_bucket id :
  intmap_contents m !! id = (list_to_map (bucket m id) : gmap Z Z) !! id.
Proof using Hok.
  destruct Hok as (_ & Hh & _). apply concat_lookup. intros i l Hi Hne Hin.
  apply list_elem_of_fmap in Hin as ([k v] & -> & Hin).
  apply (proj1 (Forall_forall _ _) (Hh i l Hi)) in Hin as [_ Hin]. done.
Qed.

Lemma contents_neg id : id < 0 -> intmap_contents m !! id = None.
Proof using Hok.
  intros Hid. destruct Hok as (_ & Hh & _). rewrite contents_bucket.
  apply not_elem_of_list_to_map_1. intros Hin. unfold bucket in Hin.
  destruct (hash m !! hashid id) as [l|] eqn:E; [|by apply not_elem_of_nil in Hin].
  apply list_elem_of_fmap in Hin as ([k v] & -> & Hin).
  apply (proj1 (Forall_forall _ _) (Hh _ l E)) in Hin as [? _]. cbn in *. lia.
Qed.

Lemma bucket_ok id :
  0 <= id -> Forall (fun c => 0 <= c.1 /\ hashid c.1 = hashid id) (bucket m id) /\
  NoDup (bucket m id).*1.
Proof using Hok.
  intros Hid. pose proof (bucket_lookup id Hid) as E. destruct Hok as (_ & Hh & Hd).
  split; [by apply Hh|by eapply Hd].
Qed.

(** The effect of replacing a list that is the same but for the key [id]. *)
Lemma set_bucket_ok id l o :
  0 <= id -> Forall (fun c => 0 <= c.1 /\ hashid c.1 = hashid id) l -> NoDup l.*1 ->
  (list_to_map l : gmap Z Z) = partial_alter (fun _ => o) id (list_to_map (bucket m id)) ->
  intmap_ok (set_bucket m id l) /\
  intmap_contents (set_bucket m id l) = partial_alter (fun _ => o) id (intmap_contents m).
Proof using Hok.
  intros Hid Hl Hnd E. pose proof (bucket_lookup id Hid) as Eb.
  pose proof (lookup_lt_Some _ _ _ Eb) as Hlt.
  assert (intmap_ok (set_bucket m id l)) as Hok'.
  { destruct Hok as (Hlen & Hh & Hd). split_and!; unfold set_bucket; cbn [hash].
    - by rewrite length_insert.
    - intros i l' Hi. apply list_lookup_insert_Some in Hi as [(<- & <- & _)|[_ Hi]]; [done|by apply Hh].
    - intros i l' Hi. apply list_lookup_insert_Some in Hi as [(<- & <- & _)|[_ Hi]]; [done|by eapply Hd]. }
  split; [done|]. apply map_eq. intros id'.
  destruct (decide (id' = id)) as [->|Hne].
  - rewrite lookup_partial_alter_eq. unfold intmap_contents.
    rewrite (concat_lookup _ (hashid id)).
    + unfold set_bucket. cbn [hash]. rewrite list_lookup_insert_eq by done. cbn [default from_option]; unfold Datatypes.id.
      by rewrite E, lookup_partial_alter_eq.
    + destruct Hok' as (_ & Hh & _). intros i l' Hi Hn Hin.
      apply list_elem_of_fmap in Hin as ([k v] & Ek & Hin).
      apply (proj1 (Forall_forall _ _) (Hh i l' Hi)) in Hin as [_ Hin]. cbn in *. congruence.
  - rewrite lookup_partial_alter_ne by done. rewrite contents_bucket.
    unfold intmap_contents. rewrite (concat_lookup _ (hashid id')).
    + unfold set_bucket, bucket. cbn [hash]. destruct (decide (hashid id = hashid id')) as [Eh|Hh'].
      * rewrite <- Eh, list_lookup_insert_eq by done. cbn [default from_option]; unfold Datatypes.id.
        by rewrite E, lookup_partial_alter_ne.
      * by rewrite list_lookup_insert_ne.
    + destruct Hok' as (_ & Hh & _). intros i l' Hi Hn Hin.
      apply list_elem_of_fmap in Hin as ([k v] & Ek & Hin).
      apply (proj1 (Forall_forall _ _) (Hh i l' Hi)) in Hin as [_ Hin]. cbn in *. congruence.
Qed.

Lemma bucket_find id :
  let (pre, rest) := llookup (bucket m id) id in
  intmap_contents m !! id = match rest with f :: _ => Some f.2 | [] => None end.
Proof using Hok.
  pose proof (llookup_split (bucket m id) id) as H. rewrite contents_bucket.
  destruct (llookup (bucket m id) id) as [pre rest]. destruct H as (-> & Hn & Hr).
  rewrite list_to_map_app, lookup_union_r by (by apply not_elem_of_list_to_map_1).
  destruct rest as [|[k v] rest]; [done|]. cbn in Hr |- *. subst k. by rewrite lookup_insert_eq.
Qed.

Lemma cons_ok id v :
  0 <= id -> intmap_contents m !! id = None ->
  intmap_ok (set_bucket m id ((id, v) :: bucket m id)) /\
  intmap_contents (set_bucket m id ((id, v) :: bucket m id)) = <[id := v]> (intmap_contents m).
Proof using Hok.
  intros Hid Hn. destruct (bucket_ok id Hid) as [Hf Hd]. rewrite contents_bucket in Hn.
  apply set_bucket_ok; [done| | |done].
  - by constructor.
  - cbn. constructor; [|done]. by apply not_elem_of_list_to_map_2 in Hn.
Qed.

Lemma split_ok id pre f link (o : option Z) :
  0 <= id -> bucket m id = pre ++ f :: link -> f.1 = id ->
  let l := pre ++ (match o with Some v => (id, v) :: link | None => link end) in
  intmap_ok (set_bucket m id l) /\
  intmap_contents (set_bucket m id l) = partial_alter (fun _ => o) id (intmap_contents m).
Proof using Hok.
  intros Hid Eb Ef l. destruct (bucket_ok id Hid) as [Hf Hd]. rewrite Eb in Hf, Hd.
  apply Forall_app in Hf as [Hf1 Hf2]. inversion_clear Hf2 as [|? ? Hff Hf3].
  rewrite fmap_app, fmap_cons, Ef in Hd.
  pose proof Hd as Hd0. apply NoDup_app in Hd as (Hd1 & Hdx & Hd2).
  apply NoDup_cons in Hd2 as [Hd3 Hd4].
  assert (id ∉ pre.*1) as Hnp by (intros Hin; apply (Hdx id Hin); left).
  apply set_bucket_ok; [done| | |].
  - unfold l. apply Forall_app; split; [done|]. destruct o; [|done]. by constructor.
  - unfold l. destruct o; rewrite fmap_app; [done|]. apply NoDup_app. split_and!; [done| |done].
    intros x Hx Hx'. apply (Hdx x Hx). by right.
  - rewrite Eb. unfold l. apply map_eq. intros k. destruct f as [k0 v0]. cbn in Ef. subst k0.
    rewrite !list_to_map_app. destruct (decide (k = id)) as [->|Hne].
    + rewrite lookup_partial_alter_eq, lookup_union_r by (by apply not_elem_of_list_to_map_1).
      destruct o; cbn; [by rewrite lookup_insert_eq|by apply not_elem_of_list_to_map_1].
    + rewrite lookup_partial_alter_ne by done. rewrite !lookup_union. f_equal.
      destruct o; cbn; by rewrite ?lookup_insert_ne.
Qed.
End ok.

(** ** The table implements the interface *)

Lemma intmap_alloc_ok : intmap_ok allocmap /\ intmap_contents allocmap = ∅.
Proof.
  split; [|vm_compute; done]. split_and!; cbn [allocmap intmap_ops Table.allocmap hash].
  - by rewrite length_replicate.
  - intros i l Hi. by apply lookup_replicate in Hi as [-> _].
  - intros i l Hi. apply lookup_replicate in Hi as [-> _]. constructor.
Qed.

#[export] Program Instance intmap_keymap : KeyMap Intmap := {|
  contents := intmap_contents; map_ok := intmap_ok; allocmap_ok := intmap_alloc_ok |}.
Next Obligation.
  intros m id Hok Hid. cbn. unfold Table.lookupkey. pose proof (bucket_find m Hok id) as Hf.
  by destruct (llookup (bucket m id) id) as [pre [|f link]].
Qed.
Next Obligation.
  intros m id v Hok Hid. cbn. unfold Table.insertkey. pose proof (bucket_find m Hok id) as Hf.
  pose proof (llookup_split (bucket m id) id) as Hs.
  destruct (llookup (bucket m id) id) as [pre [|f link]]; cbn.
  - destruct (cons_ok m Hok id v Hid Hf). by rewrite Hf.
  - destruct Hs as (Eb & _ & Ef).
    rewrite Ef. destruct (split_ok m Hok id pre f link (Some v) Hid Eb Ef) as [? ->].
    by rewrite Hf.
Qed.
Next Obligation.
  intros m id v Hok Hid. cbn. unfold Table.caninsertkey. pose proof (bucket_find m Hok id) as Hf.
  destruct (llookup (bucket m id) id) as [pre [|f link]]; cbn; rewrite Hf.
  - by destruct (cons_ok m Hok id v Hid Hf).
  - done.
Qed.
Next Obligation.
  intros m id Hok Hid. cbn. unfold Table.deletekey. pose proof (bucket_find m Hok id) as Hf.
  pose proof (llookup_split (bucket m id) id) as Hs.
  destruct (llookup (bucket m id) id) as [pre [|f link]]; cbn.
  - split_and!; [done..|]. by rewrite delete_id.
  - destruct Hs as (Eb & _ & Ef).
    destruct (split_ok m Hok id pre f link None Hid Eb Ef) as [? ->].
    by rewrite Hf.
Qed.

(** A sequence of operations on a table. *)
Inductive map_op := Insert (id v : Z) | CanInsert (id v : Z) | Delete (id : Z).

Definition op_id (o : map_op) : Z :=
  match o with Insert id _ | CanInsert id _ | Delete id => id end.

(** The result of an operation: the pointer returned, or the [int] as a pointer. *)
Definition run_op (m : Intmap) (o : map_op) : option Z * Intmap :=
  match o with
  | Insert id v => insertkey m id v
  | CanInsert id v => let (b, m) := caninsertkey m id v in (if b then Some 1 else None, m)
  | Delete id => deletekey m id
  end.

Definition spec_op (g : gmap Z Z) (o : map_op) : option Z * gmap Z Z :=
  match o with
  | Insert id v => (g !! id, <[id := v]> g)
  | CanInsert id v =>
      match g !! id with None => (Some 1, <[id := v]> g) | Some _ => (None, g) end
  | Delete id => (g !! id, delete id g)
  end.

(** C21: after any sequence of insertions and deletions from the empty table, [lookupkey]
    answers as the finite map that went through the same operations, and the operations
    returned what the finite map says. *)
Theorem intmap_refines (ops : list map_op) id :
  Forall (fun o => 0 <= op_id o) ops -> 0 <= id ->
  let run {A} (f : A -> map_op -> option Z * A) (x : A) :=
    fold_left (fun '(rs, x) o => let (r, x) := f x o in (rs ++ [r], x)) ops ([], x) in
  (run run_op allocmap).1 = (run spec_op (∅ : gmap Z Z)).1 /\
  lookupkey (run run_op allocmap).2 id = (run spec_op (∅ : gmap Z Z)).2 !! id.
Proof.
  intros Hops Hid. cbv zeta.
  assert (forall ops rs m, Forall (fun o => 0 <= op_id o) ops -> map_ok m ->
    let a := fold_left (fun '(rs, x) o => let (r, x) := run_op x o in (rs ++ [r], x)) ops (rs, m) in
    let b := fold_left (fun '(rs, x) o => let (r, x) := spec_op x o in (rs ++ [r], x)) ops
      (rs, contents m) in
    a.1 = b.1 /\ map_ok a.2 /\ contents a.2 = b.2) as H.
  { clear. induction ops as [|o ops IH]; intros rs m Ho Hm; [done|].
    inversion_clear Ho as [|? ? Hid Ho']. cbn [fold_left].
    assert (map_ok (run_op m o).2 /\ spec_op (contents m) o
      = ((run_op m o).1, contents (run_op m o).2)) as [Hm' ->].
    { destruct o as [id v|id v|id]; cbn [run_op spec_op op_id] in *.
      - destruct (insertkey_ok m id v Hm Hid) as (? & -> & ->). done.
      - destruct (caninsertkey_ok m id v Hm Hid) as (? & Hr & Hc).
        destruct (caninsertkey m id v) as [b m']. cbn [fst snd] in *. subst b. rewrite Hc.
        split; [done|]. by destruct (contents m !! id).
      - destruct (deletekey_ok m id Hm Hid) as (? & -> & ->). done. }
    destruct (run_op m o) as [r m']. cbn in Hm'. by apply IH. }
  destruct (H ops [] allocmap Hops (proj1 allocmap_ok)) as (H1 & H2 & H3).
  rewrite (proj2 allocmap_ok) in H1, H3. split; [done|].
  rewrite lookupkey_ok by done. by rewrite H3.
Qed.

Lemma intmap_refines_witness :
  let ops := [CanInsert 1 10; CanInsert 129 11; CanInsert 1 12; Delete 1; Insert 129 13] in
  let run {A} (f : A -> map_op -> option Z * A) (x : A) :=
    fold_left (fun '(rs, x) o => let (r, x) := f x o in (rs ++ [r], x)) ops ([], x) in
  (run run_op allocmap).1 = (run spec_op (∅ : gmap Z Z)).1 /\
  lookupkey (run run_op allocmap).2 129 = (run spec_op (∅ : gmap Z Z)).2 !! 129.
Proof.
  apply (intmap_refines [CanInsert 1 10; CanInsert 129 11; CanInsert 1 12; Delete 1; Insert 129 13]
    129); [repeat constructor; cbn; lia|lia].
Defined.
