(* ===== verification/Lib9p.v ===== *)
(** * The data and the state of a lib9p file server

    The structures of [include/9p.h], the heap they live in, and the monad in which the
    functions of [lib9p] are written: a computation changes the state of the server or stops
    the process, by a failed assertion, a call of [abort] or [sysfatal], or an access through
    a nil or dangling pointer. *)

From Stdlib Require Import String Ascii.
From S2P Require Import Prelude Fcall Intmap.
#[local] Set Primitive Projections.

(** ** Constants of [libc.h] *)

Definition QTDIR : Z := 0x80.
Definition QTAPPEND : Z := 0x40.
Definition QTEXCL : Z := 0x20.
Definition DMDIR : Z := 0x80000000.
Definition DMAPPEND : Z := 0x40000000.
Definition DMEXCL : Z := 0x20000000.
Definition OREAD : Z := 0.
Definition OWRITE : Z := 1.
Definition ORDWR : Z := 2.
Definition OEXEC : Z := 3.
Definition OTRUNC : Z := 16.
Definition ORCLOSE : Z := 64.
Definition AEXEC : Z := 1.
Definition AWRITE : Z := 2.
Definition AREAD : Z := 4.
Definition ERRMAX : Z := 128.

(** The bytes of a string literal. *)
Fixpoint lit (s : string) : bytes :=
  match s with
  | EmptyString => []
  | String c s => Z.of_N (N_of_ascii c) :: lit s
  end.

(** ** Structures *)

(** Pointers are addresses of objects, or nil. *)
Abbreviation ptr := (option Z).

(** The cells of a directory are only ever added at the head of its list, so a pointer to a
    cell is the directory with the number of cells from it to the end of the list. *)
Record Readdir := mkReaddir { rd_dir : Z; rd_left : nat }.

Record Fid := mkFid {
  fd_fid : Z; fd_omode : Z; fd_file : ptr; fd_uid : cptr; fd_qid : Qid; fd_aux : Z;
  fd_rdir : option Readdir; fd_ref : Z; fd_diroffset : Z; fd_dirindex : Z }.

Record Req := mkReq {
  r_tag : Z; r_aux : Z; r_ifcall : Fcall; r_ofcall : Fcall; r_d : Dir; r_oldreq : ptr;
  r_fid : ptr; r_afid : ptr; r_newfid : ptr; r_ref : Z; r_pool : bool; r_buf : bytes;
  r_type : Z; r_responded : bool; r_error : cptr; r_rbuf : cptr; r_flush : list Z }.

(** [fl_list] is [filelist], the head first; a cell whose file was removed holds nil. *)
Record File := mkFile {
  fl_ref : Z; fl_dir : Dir; fl_parent : ptr; fl_aux : Z; fl_list : list ptr; fl_nchild : Z }.

Record Tree := mkTree { t_root : Z; t_qidgen : Z; t_dirqidgen : Z }.

(** A zeroed [Fid], [Req] and [File], as [emalloc9p] and [allocfile] return them. *)
Definition fid0 : Fid := mkFid 0 0 None None qid0 0 None 0 0 0.
Definition req0 : Req :=
  mkReq 0 0 fcall0 fcall0 dir0 None None None None 0 true [] 0 false None None [].
Definition file0 : File := mkFile 0 dir0 None 0 [] 0.

(** The calls of the server's [destroy] functions, in order. *)
Inductive event := DestroyFid (p : Z) | DestroyReq (p : Z) | DestroyFile (p : Z).
#[global] Instance event_eq_dec : EqDecision event.
Proof. solve_decision. Defined.

(** Why the process stops. *)
Inductive crash := AssertFailed | Aborted | SysFatal | NilPointer | MemFault | NoFuel.

Section state.
Context {KM : Type}.

Record State := mkState {
  s_fids : gmap Z Fid; s_reqs : gmap Z Req; s_files : gmap Z File; s_next : Z;
  s_fpool : KM; s_rpool : KM; s_msize : Z; s_wbuf : cptr; s_tree : option Tree;
  s_errstr : bytes; s_out : list bytes; s_log : list event }.

Inductive res (A : Type) := Ok (a : A) (s : State) | Crash (c : crash) (s : State).

Definition comp (A : Type) : Type := State -> res A.
End state.
Arguments State : clear implicits.
Arguments res : clear implicits.
Arguments comp : clear implicits.
Arguments Ok {KM A}.
Arguments Crash {KM A}.

(** ** The monad *)

#[global] Instance comp_ret KM : MRet (comp KM) := fun A a s => Ok a s.
#[global] Instance comp_bind KM : MBind (comp KM) := fun A B k m s =>
  match m s with Ok a s => k a s | Crash c s => Crash c s end.

Section operations.
Context {KM : Type}.
#[local] Abbreviation comp := (comp KM).
#[local] Abbreviation State := (State KM).

Definition stop {A} (c : crash) : comp A := fun s => Crash c s.
Definition get : comp State := fun s => Ok s s.
Definition modify (f : State -> State) : comp unit := fun s => Ok tt (f s).
Definition assert_ (b : bool) : comp unit := if b then mret tt else stop AssertFailed.
Definition when (b : bool) (m : comp unit) : comp unit := if b then m else mret tt.

(** The address a pointer holds; using nil stops the process. *)
Definition nn (p : ptr) : comp Z := match p with Some a => mret a | None => stop NilPointer end.
(** A string that is read must be there. *)
Definition str (s : cptr) : comp bytes :=
  match s with Some b => mret (c_str b) | None => stop NilPointer end.
(** The result of a function that may leave its buffer. *)
Definition mem {A} (o : option A) : comp A := match o with Some a => mret a | None => stop MemFault end.

Definition fid_at (p : Z) : comp Fid := fun s =>
  match s_fids s !! p with Some f => Ok f s | None => Crash NilPointer s end.
Definition req_at (p : Z) : comp Req := fun s =>
  match s_reqs s !! p with Some r => Ok r s | None => Crash NilPointer s end.
Definition file_at (p : Z) : comp File := fun s =>
  match s_files s !! p with Some f => Ok f s | None => Crash NilPointer s end.

Definition put_fid (p : Z) (f : Fid) : comp unit :=
  modify (fun s => s <| s_fids := <[p := f]> (s_fids s) |>).
Definition put_req (p : Z) (r : Req) : comp unit :=
  modify (fun s => s <| s_reqs := <[p := r]> (s_reqs s) |>).
Definition put_file (p : Z) (f : File) : comp unit :=
  modify (fun s => s <| s_files := <[p := f]> (s_files s) |>).

(** [p->field = v]. *)
Definition upd_fid (p : Z) (g : Fid -> Fid) : comp unit := f ← fid_at p; put_fid p (g f).
Definition upd_req (p : Z) (g : Req -> Req) : comp unit := r ← req_at p; put_req p (g r).
Definition upd_file (p : Z) (g : File -> File) : comp unit := f ← file_at p; put_file p (g f).

Definition free_fid (p : Z) : comp unit :=
  modify (fun s => s <| s_fids := delete p (s_fids s) |>).
Definition free_req (p : Z) : comp unit :=
  modify (fun s => s <| s_reqs := delete p (s_reqs s) |>).
Definition free_file (p : Z) : comp unit :=
  modify (fun s => s <| s_files := delete p (s_files s) |>).

(** A fresh address. *)
Definition new : comp Z := fun s => Ok (s_next s) (s <| s_next := s_next s + 1 |>).

Definition log (e : event) : comp unit := modify (fun s => s <| s_log := s_log s ++ [e] |>).
Definition werrstr (e : bytes) : comp unit := modify (fun s => s <| s_errstr := e |>).
End operations.

(** ** The server program's part *)

(** The functions and settings a program puts in its [Srv], and what the library takes from
    the system. A callback gets the address of a request and calls [respond] itself. *)
Record Srv (KM : Type) := mkSrv {
  srv_destroyfid : option (Z -> comp KM unit);
  srv_destroyreq : option (Z -> comp KM unit);
  srv_destroyfile : Z -> comp KM unit;
  srv_attach : option (Z -> comp KM unit);
  srv_auth : option (Z -> comp KM unit);
  srv_open : option (Z -> comp KM unit);
  srv_create : option (Z -> comp KM unit);
  srv_read : option (Z -> comp KM unit);
  srv_write : option (Z -> comp KM unit);
  srv_remove : option (Z -> comp KM unit);
  srv_flush : option (Z -> comp KM unit);
  srv_stat : option (Z -> comp KM unit);
  srv_wstat : option (Z -> comp KM unit);
  srv_walk : option (Z -> comp KM unit);
  srv_clone : option (Z -> Z -> comp KM cptr);
  srv_walk1 : option (Z -> bytes -> comp KM (cptr * Qid));
  srv_fake : bool;
  (** [argv0], [getuser()], [time(0)], the result of [write] and the width of [long] *)
  env_argv0 : bytes; env_user : cptr; env_time : Z; env_write : bytes -> Z; env_long : Z }.
Arguments srv_destroyfid {KM}. Arguments srv_destroyreq {KM}. Arguments srv_destroyfile {KM}.
Arguments srv_attach {KM}. Arguments srv_auth {KM}. Arguments srv_open {KM}.
Arguments srv_create {KM}. Arguments srv_read {KM}. Arguments srv_write {KM}.
Arguments srv_remove {KM}. Arguments srv_flush {KM}. Arguments srv_stat {KM}.
Arguments srv_wstat {KM}. Arguments srv_walk {KM}. Arguments srv_clone {KM}.
Arguments srv_walk1 {KM}. Arguments srv_fake {KM}. Arguments env_argv0 {KM}.
Arguments env_user {KM}. Arguments env_time {KM}. Arguments env_write {KM}.
Arguments env_long {KM}.
