(* ===== verification/File.v ===== *)
(** * File trees: [lib9p/file.c] and [lib9p/uid.c]

    The functions on [File]s with their reference counts. The read-write locks of the files
    are left out: the model runs one function at a time. A [File] comes from the allocator
    and goes back to it; the free list of [allocfile] is the allocator. *)

From Stdlib Require Import String.
From S2P Require Import Prelude Fcall Wire ConvS2M ConvDir Intmap Lib9p.

Section file.
Context {KM : Type} (srv : Srv KM).
#[local] Abbreviation comp := (comp KM).

(** [allocfile]: a zeroed [File]. *)
Definition allocfile : comp Z :=
  p ← new; put_file p file0;; mret p.

Definition freefile (f : Z) : comp unit :=
  fl ← file_at f;
  assert_ (forallb (fun c => bool_decide (c = None)) (fl_list fl));;
  assert_ (fl_ref fl =? 0);;
  free_file f.

Definition incfile (f : Z) : comp unit := upd_file f (fun fl => fl <| fl_ref := fl_ref fl + 1 |>).

Definition closefile (f : Z) : comp unit :=
  fl ← file_at f;
  put_file f (fl <| fl_ref := fl_ref fl - 1 |>);;
  if fl_ref fl - 1 =? 0 then
    log (DestroyFile f);; srv_destroyfile srv f;;
    freefile f
  else mret tt.

(** The index of the first cell that holds [f]. *)
Fixpoint cell_of (f : Z) (l : list ptr) : option nat :=
  match l with
  | [] => None
  | c :: l => if bool_decide (c = Some f) then Some 0%nat else S <$> cell_of f l
  end.

Definition removefile (f : Z) : comp Z :=
  fl ← file_at f;
  match fl_parent fl with
  | None =>
      werrstr (lit "no parent");; closefile f;; mret (-1)
  | Some fp =>
      if fp =? f then
        werrstr (lit "cannot remove root");; closefile f;; mret (-1)
      else if negb (fl_nchild fl =? 0) then
        werrstr (lit "has children");; closefile f;; mret (-1)
      else
        (* f->parent is still fp: nothing ran since it was read *)
        pl ← file_at fp;
        match cell_of f (fl_list pl) with
        | None => stop AssertFailed
        | Some i =>
            put_file fp (pl <| fl_list := <[i := None]> (fl_list pl) |>
                            <| fl_nchild := fl_nchild pl - 1 |>);;
            upd_file f (fun fl => fl <| fl_parent := None |>);;
            closefile fp;;
            closefile f;;
            closefile f;;
            mret 0
        end
  end.

(** The loop of [createfile]: [None] when a file has the name, else the last free cell. *)
Fixpoint scan_cells (l : list ptr) (i : nat) (name : bytes) (freel : option nat)
    : comp (option (option nat)) :=
  match l with
  | [] => mret (Some freel)
  | None :: l => scan_cells l (S i) name (Some i)
  | Some c :: l =>
      cl ← file_at c;
      n ← str (d_name (fl_dir cl));
      if bool_decide (n = name) then mret None else scan_cells l (S i) name freel
  end.

Definition perm_qtype (perm : Z) : Z :=
  (if negb ((perm .& DMDIR) =? 0) then QTDIR else 0)
  .| (if negb ((perm .& DMAPPEND) =? 0) then QTAPPEND else 0)
  .| (if negb ((perm .& DMEXCL) =? 0) then QTEXCL else 0).

Definition createfile (fp : Z) (name uid : cptr) (perm aux : Z) : comp ptr :=
  pl ← file_at fp;
  if (q_type (d_qid (fl_dir pl)) .& QTDIR) =? 0 then
    werrstr (lit "create in non-directory");; mret None
  else
    nm ← str name;
    r ← scan_cells (fl_list pl) 0 nm None;
    match r with
    | None => werrstr (lit "file already exists");; mret None
    | Some freel =>
        let '(i, cells) := match freel with
                           | Some i => (i, fl_list pl)
                           | None => (0%nat, None :: fl_list pl)
                           end in
        f ← allocfile;
        owner ← match uid with Some u => mret (c_str u) | None => str (d_uid (fl_dir pl)) end;
        gid ← str (d_gid (fl_dir pl));
        s ← get;
        t ← match s_tree s with Some t => mret t | None => stop NilPointer end;
        modify (fun s => s <| s_tree := Some (t <| t_qidgen := t_qidgen t + 1 |>) |>);;
        let dir :=
          dir0 <| d_name := Some nm |> <| d_uid := Some owner |> <| d_gid := Some gid |>
               <| d_muid := Some (match uid with Some u => c_str u | None => lit "unknown" end) |>
               <| d_mode := perm |> <| d_qid := mkQid (t_qidgen t) 0 (perm_qtype perm) |>
               <| d_atime := env_time srv |> <| d_mtime := env_time srv |> in
        put_file f (mkFile 2 dir (Some fp) aux [] 0);;
        put_file fp (pl <| fl_ref := fl_ref pl + 1 |> <| fl_list := <[i := Some f]> cells |>
                        <| fl_nchild := fl_nchild pl + 1 |>);;
        mret (Some f)
    end.

(** The loop of [walkfile1]. *)
Fixpoint find_cell (l : list ptr) (elem : bytes) : comp ptr :=
  match l with
  | [] => mret None
  | None :: l => find_cell l elem
  | Some c :: l =>
      cl ← file_at c;
      n ← str (d_name (fl_dir cl));
      if bool_decide (n = elem) then mret (Some c) else find_cell l elem
  end.

Definition walkfile1 (dir : Z) (elem : bytes) : comp ptr :=
  dl ← file_at dir;
  if bool_decide (elem = lit "..") then
    fp ← nn (fl_parent dl);
    incfile fp;;
    closefile dir;;
    mret (Some fp)
  else
    fp ← find_cell (fl_list dl) elem;
    match fp with Some c => incfile c | None => mret tt end;;
    closefile dir;;
    mret fp.

(** The elements of a path, as the loop of [walkfile] cuts them off: at each '/', and what
    remains unless it is empty. *)
Fixpoint path_elems (s acc : bytes) : list bytes :=
  match s with
  | [] => match acc with [] => [] | _ => [acc] end
  | c :: s => if c =? 47 then acc :: path_elems s [] else path_elems s (acc ++ [c])
  end.

Fixpoint walk_elems (f : Z) (elems : list bytes) : comp ptr :=
  match elems with
  | [] => mret (Some f)
  | e :: elems =>
      g ← walkfile1 f e;
      match g with None => mret None | Some g => walk_elems g elems end
  end.

Definition walkfile (f : Z) (path : cptr) : comp ptr :=
  s ← str path;
  if bool_decide (47 ∈ s) then walk_elems f (path_elems s []) else walkfile1 f s.

Definition alloctree (uid gid : cptr) (mode : Z) : comp unit :=
  f ← allocfile;
  let u := match uid with
           | Some u => c_str u
           | None => match env_user srv with Some u => c_str u | None => lit "none" end
           end in
  let g := match gid with Some g => c_str g | None => u end in
  let dir :=
    dir0 <| d_name := Some (lit "/") |> <| d_uid := Some u |> <| d_gid := Some g |>
         <| d_muid := Some u |> <| d_qid := mkQid 0 0 QTDIR |> <| d_mode := DMDIR .| mode |>
         <| d_atime := env_time srv |> <| d_mtime := env_time srv |> in
  put_file f (mkFile 1 dir (Some f) 0 [] 0);;
  modify (fun s => s <| s_tree := Some (mkTree f 0 1) |>).

(** [_freefiles] frees the cells of a directory itself, and [freefile] then walks the list
    once more. *)
Fixpoint freefiles (fuel : nat) (f : Z) : comp unit :=
  match fuel with
  | O => stop NoFuel
  | S fuel =>
      fl ← file_at f;
      foldr (fun c k => c ← nn c; freefiles fuel c;; k) (mret tt) (fl_list fl);;
      log (DestroyFile f);; srv_destroyfile srv f;;
      match fl_list fl with [] => freefile f | _ => stop MemFault end
  end.

Definition freetree : comp unit :=
  s ← get;
  match s_tree s with
  | None => stop NilPointer
  | Some t =>
      freefiles (S (size (s_files s))) (t_root t);;
      modify (fun s => s <| s_tree := None |>)
  end.

Definition opendirfile (dir : Z) : comp (option Readdir) :=
  dl ← file_at dir;
  if (d_mode (fl_dir dl) .& DMDIR) =? 0 then mret None
  else mret (Some (mkReaddir dir (length (fl_list dl)))).

(** The loop of [readdirfile]: the cells left, the buffer and the bytes written. *)
Fixpoint readdir_loop (cells : list ptr) (buf : bytes) (m n : Z) : comp (nat * bytes * Z) :=
  match cells with
  | [] => mret (0%nat, buf, m)
  | c :: rest =>
      if m + 2 <=? n then
        match c with
        | None => readdir_loop rest buf m n
        | Some c =>
            cl ← file_at c;
            '(x, tl) ← mem (convD2M (fl_dir cl) (drop (Z.to_nat m) buf) (n - m));
            let buf := take (Z.to_nat m) buf ++ tl in
            if x <=? BIT16SZ then mret (length cells, buf, m)
            else readdir_loop rest buf (m + x) n
        end
      else mret (length cells, buf, m)
  end.

Definition readdirfile (r : Readdir) (buf : bytes) (n : Z) : comp (Z * bytes * Readdir) :=
  dl ← file_at (rd_dir r);
  let cells := drop (length (fl_list dl) - rd_left r) (fl_list dl) in
  '(cells', buf, m) ← readdir_loop cells buf 0 n;
  mret (m, buf, r <| rd_left := cells' |>).

(** [uid.c] *)
Definition hasperm (f : ptr) (uid : cptr) (p : Z) : comp bool :=
  f ← nn f;
  fl ← file_at f;
  let d := fl_dir fl in
  let m := d_mode d .& 7 in
  if (p .& m) =? p then mret true
  else
    du ← str (d_uid d);
    u ← str uid;
    let owner := bool_decide (du = u) in
    let m := if owner then m .| ((d_mode d .>> 6) .& 7) else m in
    if owner && ((p .& m) =? p) then mret true
    else
      dg ← str (d_gid d);
      let group := bool_decide (dg = u) in
      let m := if group then m .| ((d_mode d .>> 3) .& 7) else m in
      mret (group && ((p .& m) =? p)).
End file.
