(* ===== verification/Pool.v ===== *)
(** * The pools of fids and requests: [lib9p/fid.c] and [lib9p/req.c]

    A pool maps numbers to objects with reference counts. The pool itself holds a reference,
    and so does every request that uses a fid, every flush of a request, and the handler that
    still has to respond. *)

From S2P Require Import Prelude Fcall Intmap Lib9p File.

Section pool.
Context {KM : Type} `{KeyMapOps KM} (srv : Srv KM).
#[local] Abbreviation comp := (comp KM).

(** ** [fid.c] *)

Definition incfidref (p : Z) : comp unit := upd_fid p (fun f => f <| fd_ref := fd_ref f + 1 |>).

Definition closefid (p : ptr) : comp unit :=
  p ← nn p;
  f ← fid_at p;
  put_fid p (f <| fd_ref := fd_ref f - 1 |>);;
  if fd_ref f - 1 =? 0 then
    match srv_destroyfid srv with
    | Some destroy => log (DestroyFid p);; destroy p
    | None => mret tt
    end;;
    f ← fid_at p;
    match fd_file f with Some fl => closefile srv fl | None => mret tt end;;
    free_fid p
  else mret tt.

Definition allocfid (fid : Z) : comp ptr :=
  p ← new;
  put_fid p (fid0 <| fd_fid := fid |> <| fd_omode := -1 |>);;
  incfidref p;;
  incfidref p;;
  s ← get;
  let (ok, m) := caninsertkey (s_fpool s) fid p in
  modify (fun s => s <| s_fpool := m |>);;
  if (ok : bool) then mret (Some p)
  else closefid (Some p);; closefid (Some p);; mret None.

Definition lookupfid (fid : Z) : comp ptr :=
  s ← get;
  match lookupkey (s_fpool s) fid with
  | Some p => incfidref p;; mret (Some p)
  | None => mret None
  end.

Definition removefid (fid : Z) : comp ptr :=
  s ← get;
  let (ov, m) := deletekey (s_fpool s) fid in
  modify (fun s => s <| s_fpool := m |>);;
  mret ov.

(** ** [req.c] *)

Definition increqref (p : Z) : comp unit := upd_req p (fun r => r <| r_ref := r_ref r + 1 |>).

(** A request that is freed closes the request it was to flush; the chain of such requests is
    shorter than the number of requests there are. *)
Fixpoint closereq_fuel (fuel : nat) (p : ptr) : comp unit :=
  match fuel, p with
  | _, None => mret tt
  | O, _ => stop NoFuel
  | S fuel, Some p =>
      r ← req_at p;
      put_req p (r <| r_ref := r_ref r - 1 |>);;
      if r_ref r - 1 =? 0 then
        match r_fid r with Some _ => closefid (r_fid r) | None => mret tt end;;
        match r_newfid r with Some _ => closefid (r_newfid r) | None => mret tt end;;
        match r_afid r with Some _ => closefid (r_afid r) | None => mret tt end;;
        closereq_fuel fuel (r_oldreq r);;
        match srv_destroyreq srv with
        | Some destroy => log (DestroyReq p);; destroy p
        | None => mret tt
        end;;
        free_req p
      else mret tt
  end.

Definition closereq (p : ptr) : comp unit :=
  s ← get; closereq_fuel (S (size (s_reqs s))) p.

Definition allocreq (tag : Z) : comp ptr :=
  p ← new;
  put_req p (req0 <| r_tag := tag |>);;
  increqref p;;
  increqref p;;
  s ← get;
  let (ok, m) := caninsertkey (s_rpool s) tag p in
  modify (fun s => s <| s_rpool := m |>);;
  if (ok : bool) then mret (Some p)
  else closereq (Some p);; closereq (Some p);; mret None.

Definition lookupreq (tag : Z) : comp ptr :=
  s ← get;
  match lookupkey (s_rpool s) tag with
  | Some p => increqref p;; mret (Some p)
  | None => mret None
  end.

Definition removereq (tag : Z) : comp ptr :=
  s ← get;
  let (ov, m) := deletekey (s_rpool s) tag in
  modify (fun s => s <| s_rpool := m |>);;
  mret ov.
End pool.
