(* ===== verification/Srv.v ===== *)
(** * The file service loop: [lib9p/srv.c]

    Every handler [s*] of a request and every [r*] that completes the reply, [respond], the
    duplicate-tag path of [getreq], the loop of [srv], and the helpers of [lib9p/util.c] and
    [lib9p/dirread.c]. The queueing locks are left out: one message is handled at a time, and
    a callback runs to its end. Debugging output ([chatty9p]) is off. *)

From Stdlib Require Import String.
From S2P Require Import Prelude Fcall Wire ConvS2M ConvM2S ConvDir Intmap Lib9p File Pool.

(** ** Error strings *)

Definition Ebadoffset := lit "bad offset".
Definition Ebotch := lit "9P protocol botch".
Definition Ecreatenondir := lit "create in non-directory".
Definition Edupfid := lit "duplicate fid".
Definition Eduptag := lit "duplicate tag".
Definition Eisdir := lit "is a directory".
Definition Enocreate := lit "create prohibited".
Definition Enoremove := lit "remove prohibited".
Definition Enostat := lit "stat prohibited".
Definition Enotfound := lit "file not found".
Definition Enowstat := lit "wstat prohibited".
Definition Eperm := lit "permission denied".
Definition Eunknownfid := lit "unknown fid".
Definition Ebaddir := lit "bad directory in wstat".
Definition Ewalknodir := lit "walk in non-directory".

(** [snprint] into a buffer of [ERRMAX] bytes. *)
Definition errbuf (b : bytes) : bytes := take (Z.to_nat (ERRMAX - 1)) b.

(** [%ux] of an [int]. *)
Fixpoint hexdigits (fuel : nat) (v : Z) (acc : bytes) : bytes :=
  match fuel with
  | O => acc
  | S fuel =>
      let d := v mod 16 in
      let acc := (if d <? 10 then 48 + d else 87 + d) :: acc in
      if v / 16 =? 0 then acc else hexdigits fuel (v / 16) acc
  end.
Definition hex (v : Z) : bytes := hexdigits 8 (u32 v) [].

Section srv.
Context {KM : Type} `{KeyMapOps KM} (srv : Srv KM).
#[local] Abbreviation comp := (comp KM).

(** [srv->cb(r)] when there is one. *)
Definition call (cb : option (Z -> comp unit)) (r : Z) (otherwise : comp unit) : comp unit :=
  match cb with Some f => f r | None => otherwise end.

Definition setfcallerror (f : Fcall) (err : cptr) : Fcall :=
  f <| f_ename := err |> <| f_type := mtype_num Rerror |>.

(** [msize] is an [int]; [emalloc9p] of a negative one asks for more than there is. *)
Definition changemsize (msize : Z) : comp unit :=
  s ← get;
  if bool_decide (s_wbuf s <> None) && (s_msize s =? u32 msize) then mret tt
  else
    modify (fun s => s <| s_msize := u32 msize |>);;
    if msize <? 0 then stop SysFatal
    else modify (fun s => s <| s_wbuf := Some (replicate (Z.to_nat msize) 0) |>).

(** ** Completing a reply *)

Definition rversion (r : Z) (error : cptr) : comp unit :=
  assert_ (bool_decide (error = None));;
  rq ← req_at r;
  changemsize (s32 (f_msize (r_ofcall rq))).

(** [closefid(removefid(fpool, f->fid))] *)
Definition dropfid (p : Z) : comp unit :=
  f ← fid_at p;
  x ← removefid (fd_fid f);
  closefid srv x.

Definition rauth (r : Z) (error : cptr) : comp unit :=
  rq ← req_at r;
  match error, r_afid rq with Some _, Some p => dropfid p | _, _ => mret tt end.

Definition rattach (r : Z) (error : cptr) : comp unit :=
  rq ← req_at r;
  match error, r_fid rq with Some _, Some p => dropfid p | _, _ => mret tt end.

(** The result is whether to go on: false is the -1 that delays the response. *)
Definition rflush (r : Z) (error : cptr) : comp bool :=
  assert_ (bool_decide (error = None));;
  rq ← req_at r;
  match r_oldreq rq with
  | Some o =>
      orq ← req_at o;
      if negb (r_responded orq) then
        put_req o (orq <| r_flush := r_flush orq ++ [r] |>);;
        mret false
      else
        closereq srv (Some o);;
        upd_req r (fun rq => rq <| r_oldreq := None |>);;
        mret true
  | None =>
      upd_req r (fun rq => rq <| r_oldreq := None |>);;
      mret true
  end.

Definition rwalk (r : Z) (error : cptr) : comp unit :=
  rq ← req_at r;
  let i := r_ifcall rq in
  let o := r_ofcall rq in
  if bool_decide (error <> None) || (f_nwqid o <? f_nwname i) then
    match r_newfid rq with
    | Some nf => if f_fid i =? f_newfid i then mret tt else dropfid nf
    | None => mret tt
    end;;
    if f_nwqid o =? 0 then
      when (bool_decide (error = None) && negb (f_nwname i =? 0))
        (upd_req r (fun rq => rq <| r_error := Some Enotfound |>))
    else upd_req r (fun rq => rq <| r_error := None |>)
  else if f_nwqid o =? 0 then
    nf ← nn (r_newfid rq);
    p ← nn (r_fid rq);
    f ← fid_at p;
    upd_fid nf (fun n => n <| fd_qid := fd_qid f |>)
  else
    nf ← nn (r_newfid rq);
    q ← mem (f_wqid o !! Z.to_nat (f_nwqid o - 1));
    upd_fid nf (fun n => n <| fd_qid := q |>).

Definition ropen (r : Z) (error : cptr) : comp unit :=
  match error with
  | Some _ => mret tt
  | None =>
      rq ← req_at r;
      p ← nn (r_fid rq);
      upd_fid p (fun f => f <| fd_omode := f_mode (r_ifcall rq) |>
                            <| fd_qid := f_qid (r_ofcall rq) |>);;
      when (negb ((q_type (f_qid (r_ofcall rq)) .& QTDIR) =? 0))
        (upd_fid p (fun f => f <| fd_diroffset := 0 |>))
  end.

Definition rcreate (r : Z) (error : cptr) : comp unit :=
  match error with
  | Some _ => mret tt
  | None =>
      rq ← req_at r;
      p ← nn (r_fid rq);
      upd_fid p (fun f => f <| fd_omode := f_mode (r_ifcall rq) |>
                            <| fd_qid := f_qid (r_ofcall rq) |>)
  end.

Definition rread (r : Z) (error : cptr) : comp unit :=
  match error with
  | Some _ => mret tt
  | None =>
      rq ← req_at r;
      p ← nn (r_fid rq);
      f ← fid_at p;
      when (negb ((q_type (fd_qid f) .& QTDIR) =? 0))
        (put_fid p (f <| fd_diroffset := f_offset (r_ifcall rq) + f_count (r_ofcall rq) |>))
  end.

(** [qid.vers++] on an [ulong]. *)
Definition rwrite (r : Z) (error : cptr) : comp unit :=
  match error with
  | Some _ => mret tt
  | None =>
      rq ← req_at r;
      p ← nn (r_fid rq);
      f ← fid_at p;
      match fd_file f with
      | None => mret tt
      | Some fl =>
          upd_file fl (fun fl =>
            let q := d_qid (fl_dir fl) in
            fl <| fl_dir := (fl_dir fl)
                 <| d_qid := q <| q_vers := wrap (env_long srv) (q_vers q + 1) |> |> |>)
      end
  end.

Definition rclunk (r : Z) (msg : cptr) : comp unit := mret tt.

Definition rremove (r : Z) (error : cptr) : comp unit :=
  match error with
  | Some _ => mret tt
  | None =>
      rq ← req_at r;
      p ← nn (r_fid rq);
      f ← fid_at p;
      match fd_file f with
      | None => mret tt
      | Some fl =>
          n ← removefile srv fl;
          (if n <? 0 then
             fl ← file_at fl;
             s ← get;
             upd_req r (fun rq => rq <| r_error :=
               Some (errbuf (lit "remove " ++ str_bytes (d_name (fl_dir fl)) ++ lit ": "
                             ++ s_errstr s)) |>)
           else mret tt);;
          upd_fid p (fun f => f <| fd_file := None |>)
      end
  end.

Definition rstat (r : Z) (error : cptr) : comp unit :=
  match error with
  | Some _ => mret tt
  | None =>
      rq ← req_at r;
      '(k, tmp) ← mem (convD2M (r_d rq) [0; 0] BIT16SZ);
      if negb (k =? BIT16SZ) then
        put_req r (rq <| r_error := Some (lit "convD2M(_,_,BIT16SZ) did not return BIT16SZ") |>)
      else
        n ← mem (GBIT16 tmp 0);
        let n := n + BIT16SZ in
        '(k, statbuf) ← mem (convD2M (r_d rq) (replicate (Z.to_nat n) 0) n);
        let nstat := u16 k in
        put_req r (rq <| r_ofcall := (r_ofcall rq) <| f_nstat := nstat |>
                                                 <| f_stat := Some statbuf |> |>);;
        when (nstat <=? BIT16SZ)
          (upd_req r (fun rq => rq <| r_error := Some (lit "convD2M fails") |>))
  end.

Definition rwstat (r : Z) (msg : cptr) : comp unit := mret tt.

(** The switch of [respond]: false when [rflush] says to return. *)
Definition rswitch (r : Z) (error : cptr) : comp bool :=
  rq ← req_at r;
  match mtype_of (f_type (r_ifcall rq)) with
  | Some Tflush => rflush r error
  | Some Tversion => rversion r error;; mret true
  | Some Tauth => rauth r error;; mret true
  | Some Tattach => rattach r error;; mret true
  | Some Twalk => rwalk r error;; mret true
  | Some Topen => ropen r error;; mret true
  | Some Tcreate => rcreate r error;; mret true
  | Some Tread => rread r error;; mret true
  | Some Twrite => rwrite r error;; mret true
  | Some Tclunk => rclunk r error;; mret true
  | Some Tremove => rremove r error;; mret true
  | Some Tstat => rstat r error;; mret true
  | Some Twstat => rwstat r error;; mret true
  | _ => stop AssertFailed
  end.

(** [respond] from the switch to the label [free]: the reply goes out. False is the return
    of a fake server. *)
Definition send (r : Z) : comp bool :=
  rq ← req_at r;
  let i := r_ifcall rq in
  let o := (r_ofcall rq) <| f_tag := f_tag i |> <| f_type := u8 (f_type i + 1) |> in
  let o := match r_error rq with Some _ => setfcallerror o (r_error rq) | None => o end in
  put_req r (rq <| r_ofcall := o |>);;
  if srv_fake srv then mret false
  else
    s ← get;
    wbuf ← mem (s_wbuf s);
    '(n, wbuf) ← mem (convS2M o wbuf (s_msize s));
    modify (fun s => s <| s_wbuf := Some wbuf |>);;
    if s32 n <=? 0 then stop Aborted
    else
      assert_ (2 <? n);;
      when (r_pool rq) (x ← removereq (f_tag i); closereq srv x);;
      upd_req r (fun rq => rq <| r_responded := true |>);;
      rq ← req_at r;
      when (r_pool rq && (r_ref rq =? 1 + len (r_flush rq)) && bool_decide (r_fid rq <> None))
        (closefid srv (r_fid rq);; upd_req r (fun rq => rq <| r_fid := None |>));;
      let msg := take (Z.to_nat n) wbuf in
      if env_write srv msg =? n then
        modify (fun s => s <| s_out := s_out s ++ [msg] |>);; mret true
      else stop SysFatal.

(** The label [free]: the flushes that waited for this reply are answered in turn. *)
Definition release (respond : Z -> cptr -> comp unit) (r : Z) : comp unit :=
  rq ← req_at r;
  foldr (fun f k => upd_req f (fun q => q <| r_oldreq := None |>);; respond f None;; k)
    (mret tt) (r_flush rq);;
  upd_req r (fun rq => rq <| r_flush := [] |>);;
  if r_pool rq then closereq srv (Some r) else free_req r.

Fixpoint respond_fuel (fuel : nat) (r : Z) (error : cptr) : comp unit :=
  match fuel with
  | O => stop NoFuel
  | S fuel =>
      rq ← req_at r;
      if r_responded rq then
        assert_ (r_pool rq);; release (respond_fuel fuel) r
      else
        put_req r (rq <| r_error := error |>);;
        go ← rswitch r error;
        if negb go then mret tt
        else
          go ← send r;
          if negb go then mret tt else release (respond_fuel fuel) r
  end.

(** The flushes of flushes nest at most as deep as there are requests. *)
Definition respond (r : Z) (error : cptr) : comp unit :=
  s ← get; respond_fuel (S (size (s_reqs s))) r error.

(** ** Handling a request *)

Definition ofcall (r : Z) (g : Fcall -> Fcall) : comp unit :=
  upd_req r (fun rq => rq <| r_ofcall := g (r_ofcall rq) |>).

(** [strncmp(version, "9P2000", 6) != 0]. *)
Definition sversion (r : Z) : comp unit :=
  rq ← req_at r;
  v ← str (f_version (r_ifcall rq));
  if negb (bool_decide (take 6 v = lit "9P2000")) then
    ofcall r (fun o => o <| f_version := Some (lit "unknown") |>);;
    respond r None
  else
    ofcall r (fun o => o <| f_version := Some (lit "9P2000") |>
                         <| f_msize := f_msize (r_ifcall rq) |>);;
    respond r None.

Definition sauth (r : Z) : comp unit :=
  rq ← req_at r;
  p ← allocfid srv (f_afid (r_ifcall rq));
  upd_req r (fun rq => rq <| r_afid := p |>);;
  match p with
  | None => respond r (Some Edupfid)
  | Some _ =>
      call (srv_auth srv) r
        (respond r (Some (errbuf (env_argv0 srv ++ lit ": authentication not required"))))
  end.

Definition sattach (r : Z) : comp unit :=
  rq ← req_at r;
  p ← allocfid srv (f_fid (r_ifcall rq));
  upd_req r (fun rq => rq <| r_fid := p |>);;
  match p with
  | None => respond r (Some Edupfid)
  | Some p =>
      upd_req r (fun rq => rq <| r_afid := None |>);;
      a ← (if f_afid (r_ifcall rq) =? NOFID then mret None
           else lookupfid (f_afid (r_ifcall rq)));
      upd_req r (fun rq => rq <| r_afid := a |>);;
      if negb (f_afid (r_ifcall rq) =? NOFID) && bool_decide (a = None) then
        respond r (Some Eunknownfid)
      else
        u ← str (f_uname (r_ifcall rq));
        upd_fid p (fun f => f <| fd_uid := Some u |>);;
        s ← get;
        match s_tree s with
        | None => mret tt
        | Some t =>
            incfile (t_root t);;
            fl ← file_at (t_root t);
            ofcall r (fun o => o <| f_qid := d_qid (fl_dir fl) |>);;
            upd_fid p (fun f => f <| fd_file := Some (t_root t) |>
                                  <| fd_qid := d_qid (fl_dir fl) |>)
        end;;
        call (srv_attach srv) r (respond r None)
  end.

Definition sflush (r : Z) : comp unit :=
  rq ← req_at r;
  o ← lookupreq (f_oldtag (r_ifcall rq));
  upd_req r (fun rq => rq <| r_oldreq := o |>);;
  if bool_decide (o = None) || bool_decide (o = Some r) then respond r None
  else call (srv_flush srv) r (respond r None).

(** The loop of [filewalk]: the file it ends at, if any, the qids and their number. *)
Fixpoint filewalk_loop (f : Z) (names : list cptr) (i : nat) (wqid : list Qid)
    : comp (ptr * list Qid * nat) :=
  match names with
  | [] => mret (Some f, wqid, i)
  | n :: names =>
      g ← walkfile srv f n;
      match g with
      | None => mret (None, wqid, i)
      | Some g =>
          gl ← file_at g;
          filewalk_loop g names (S i) (<[i := d_qid (fl_dir gl)]> wqid)
      end
  end.

Definition filewalk (r : Z) : comp unit :=
  rq ← req_at r;
  p ← nn (r_fid rq);
  fd ← fid_at p;
  match fd_file fd with
  | None => stop AssertFailed
  | Some f =>
      incfile f;;
      let names := take (Z.to_nat (f_nwname (r_ifcall rq))) (f_wname (r_ifcall rq)) in
      '(g, wqid, i) ← filewalk_loop f names 0 (f_wqid (r_ofcall rq));
      ofcall r (fun o => o <| f_wqid := wqid |> <| f_nwqid := Z.of_nat i |>);;
      match g with
      | None => mret tt
      | Some g =>
          nf ← nn (r_newfid rq);
          gl ← file_at g;
          upd_fid nf (fun f => f <| fd_file := Some g |> <| fd_qid := d_qid (fl_dir gl) |>)
      end;;
      respond r None
  end.

(** The loop of [walkandclone]: the error it ends with and the number of names walked. *)
Fixpoint walk_loop (walk1 : Z -> bytes -> comp cptr) (r nf : Z) (names : list cptr) (i : nat)
    : comp (cptr * nat) :=
  match names with
  | [] => mret (None, i)
  | n :: names =>
      n ← str n;
      e ← walk1 nf n;
      match e with
      | Some _ => mret (e, i)
      | None =>
          f ← fid_at nf;
          ofcall r (fun o => o <| f_wqid := <[i := fd_qid f]> (f_wqid o) |>);;
          walk_loop walk1 r nf names (S i)
      end
  end.

Definition walkandclone (r : Z) (walk1 : Z -> bytes -> comp cptr) (clone : Z -> Z -> comp cptr)
    : comp unit :=
  rq ← req_at r;
  p ← nn (r_fid rq);
  nf ← nn (r_newfid rq);
  if (p =? nf) && (1 <? f_nwname (r_ifcall rq)) then
    respond r (Some (lit "lib9p: unused documented feature not implemented"))
  else
    e ← (if p =? nf then mret None
         else
           f ← fid_at p;
           upd_fid nf (fun n => n <| fd_qid := fd_qid f |>);;
           clone p nf);
    match e with
    | Some _ => respond r e
    | None =>
        let names := take (Z.to_nat (f_nwname (r_ifcall rq))) (f_wname (r_ifcall rq)) in
        '(e, i) ← walk_loop walk1 r nf names 0;
        ofcall r (fun o => o <| f_nwqid := Z.of_nat i |>);;
        if bool_decide (e <> None) && (Z.of_nat i =? 0) then respond r e else respond r None
    end.

Definition oldwalk1 (walk1 : Z -> bytes -> comp (cptr * Qid)) (fid : Z) (name : bytes)
    : comp cptr :=
  '(e, qid) ← walk1 fid name;
  match e with
  | Some _ => mret e
  | None => upd_fid fid (fun f => f <| fd_qid := qid |>);; mret None
  end.

Definition oldclone (fid newfid : Z) : comp cptr :=
  match srv_clone srv with None => mret None | Some clone => clone fid newfid end.

Definition swalk (r : Z) : comp unit :=
  rq ← req_at r;
  let i := r_ifcall rq in
  p ← lookupfid (f_fid i);
  upd_req r (fun rq => rq <| r_fid := p |>);;
  match p with
  | None => respond r (Some Eunknownfid)
  | Some p =>
      f ← fid_at p;
      if negb (fd_omode f =? -1) then respond r (Some (lit "cannot clone open fid"))
      else if negb (f_nwname i =? 0) && ((q_type (fd_qid f) .& QTDIR) =? 0) then
        respond r (Some Ewalknodir)
      else
        ok ← (if negb (f_fid i =? f_newfid i) then
                nf ← allocfid srv (f_newfid i);
                upd_req r (fun rq => rq <| r_newfid := nf |>);;
                match nf with
                | None => mret false
                | Some nf =>
                    u ← str (fd_uid f);
                    upd_fid nf (fun n => n <| fd_uid := Some u |>);; mret true
                end
              else
                incfidref p;;
                upd_req r (fun rq => rq <| r_newfid := Some p |>);; mret true);
        if negb ok then respond r (Some Edupfid)
        else
          f ← fid_at p;
          match fd_file f, srv_walk1 srv, srv_walk srv with
          | Some _, _, _ => filewalk r
          | None, Some walk1, _ => walkandclone r (oldwalk1 walk1) oldclone
          | None, None, Some walk => walk r
          | None, None, None => stop SysFatal
          end
  end.

(** The access a mode asks for. *)
Definition open_access (mode : Z) : Z :=
  let m := mode .& 3 in
  let p := if m =? OREAD then AREAD
           else if m =? OWRITE then AWRITE
           else if m =? ORDWR then AREAD .| AWRITE
           else AEXEC in
  if negb ((mode .& OTRUNC) =? 0) then p .| AWRITE else p.

Definition isdir (q : Qid) : bool := negb ((q_type q .& QTDIR) =? 0).

(** The part of [sopen] for a fid of a file tree: false when it has responded. *)
Definition sopen_file (r p file mode access : Z) : comp bool :=
  f ← fid_at p;
  ok ← hasperm (Some file) (fd_uid f) access;
  if negb ok then respond r (Some Eperm);; mret false
  else
    fl ← file_at file;
    ok ← (if (mode .& ORCLOSE) =? 0 then mret true
          else hasperm (fl_parent fl) (fd_uid f) AWRITE);
    if negb ok then respond r (Some Eperm);; mret false
    else
      ofcall r (fun o => o <| f_qid := d_qid (fl_dir fl) |>);;
      if isdir (d_qid (fl_dir fl)) then
        d ← opendirfile file;
        upd_fid p (fun f => f <| fd_rdir := d |>);;
        match d with
        | None => respond r (Some (lit "opendirfile failed"));; mret false
        | Some _ => mret true
        end
      else mret true.

Definition sopen (r : Z) : comp unit :=
  rq ← req_at r;
  let mode := f_mode (r_ifcall rq) in
  p ← lookupfid (f_fid (r_ifcall rq));
  upd_req r (fun rq => rq <| r_fid := p |>);;
  match p with
  | None => respond r (Some Eunknownfid)
  | Some p =>
      f ← fid_at p;
      if negb (fd_omode f =? -1) then respond r (Some Ebotch)
      else if isdir (fd_qid f) && negb ((mode .& Z.lnot ORCLOSE) =? OREAD) then
        respond r (Some Eisdir)
      else
        ofcall r (fun o => o <| f_qid := fd_qid f |>);;
        if isdir (fd_qid f) && negb (open_access mode =? AREAD) then respond r (Some Eperm)
        else
          ok ← match fd_file f with
               | Some file => sopen_file r p file mode (open_access mode)
               | None => mret true
               end;
          if (ok : bool) then call (srv_open srv) r (respond r None) else mret tt
  end.

Definition screate (r : Z) : comp unit :=
  rq ← req_at r;
  p ← lookupfid (f_fid (r_ifcall rq));
  upd_req r (fun rq => rq <| r_fid := p |>);;
  match p with
  | None => respond r (Some Eunknownfid)
  | Some p =>
      f ← fid_at p;
      if negb (fd_omode f =? -1) then respond r (Some Ebotch)
      else if negb (isdir (fd_qid f)) then respond r (Some Ecreatenondir)
      else
        ok ← match fd_file f with
             | Some file => hasperm (Some file) (fd_uid f) AWRITE
             | None => mret true
             end;
        if negb ok then respond r (Some Eperm)
        else call (srv_create srv) r (respond r (Some Enocreate))
  end.

(** [if(count > srv->msize - IOHDRSZ) count = srv->msize - IOHDRSZ] on [u32int]s. *)
Definition clamp_count (count msize : Z) : Z :=
  if u32 (msize - IOHDRSZ) <? count then u32 (msize - IOHDRSZ) else count.

Definition sread (r : Z) : comp unit :=
  rq ← req_at r;
  let i := r_ifcall rq in
  p ← lookupfid (f_fid i);
  upd_req r (fun rq => rq <| r_fid := p |>);;
  match p with
  | None => respond r (Some Eunknownfid)
  | Some p =>
      f ← fid_at p;
      if s32 (f_count i) <? 0 then respond r (Some Ebotch)
      else if (f_offset i <? 0)
              || (isdir (fd_qid f) && negb (f_offset i =? 0)
                  && negb (f_offset i =? fd_diroffset f)) then respond r (Some Ebadoffset)
      else
        s ← get;
        let count := clamp_count (f_count i) (s_msize s) in
        let rbuf := replicate (Z.to_nat count) 0 in
        upd_req r (fun rq => rq <| r_ifcall := i <| f_count := count |> |>
                                <| r_rbuf := Some rbuf |>
                                <| r_ofcall := (r_ofcall rq) <| f_data := Some rbuf |> |>);;
        let o := fd_omode f .& 3 in
        if negb (o =? OREAD) && negb (o =? ORDWR) && negb (o =? OEXEC) then
          respond r (Some Ebotch)
        else if isdir (fd_qid f) && bool_decide (fd_file f <> None) then
          d ← match fd_rdir f with Some d => mret d | None => stop NilPointer end;
          '(n, buf, d) ← readdirfile d rbuf count;
          upd_fid p (fun f => f <| fd_rdir := Some d |>);;
          upd_req r (fun rq => rq <| r_rbuf := Some buf |>
            <| r_ofcall := (r_ofcall rq) <| f_data := Some buf |> <| f_count := n |> |>);;
          respond r None
        else call (srv_read srv) r (respond r (Some (lit "no srv->read")))
  end.

Definition swrite (r : Z) : comp unit :=
  rq ← req_at r;
  let i := r_ifcall rq in
  p ← lookupfid (f_fid i);
  upd_req r (fun rq => rq <| r_fid := p |>);;
  match p with
  | None => respond r (Some Eunknownfid)
  | Some p =>
      f ← fid_at p;
      if s32 (f_count i) <? 0 then respond r (Some Ebotch)
      else if f_offset i <? 0 then respond r (Some Ebotch)
      else
        s ← get;
        let count := clamp_count (f_count i) (s_msize s) in
        upd_req r (fun rq => rq <| r_ifcall := i <| f_count := count |> |>);;
        let o := fd_omode f .& 3 in
        if negb (o =? OWRITE) && negb (o =? ORDWR) then
          respond r (Some (errbuf (lit "write on fid with open mode 0x" ++ hex (fd_omode f))))
        else
          match srv_write srv with
          | Some write =>
              d ← mem (f_data i);
              let n := Z.to_nat count in
              let d := take n d ++ [0] ++ drop (S n) d in
              upd_req r (fun rq => rq <| r_ifcall := (r_ifcall rq) <| f_data := Some d |> |>);;
              write r
          | None => respond r (Some (lit "no srv->write"))
          end
  end.

Definition sclunk (r : Z) : comp unit :=
  rq ← req_at r;
  p ← removefid (f_fid (r_ifcall rq));
  upd_req r (fun rq => rq <| r_fid := p |>);;
  match p with
  | None => respond r (Some Eunknownfid)
  | Some _ => respond r None
  end.

Definition sremove (r : Z) : comp unit :=
  rq ← req_at r;
  p ← removefid (f_fid (r_ifcall rq));
  upd_req r (fun rq => rq <| r_fid := p |>);;
  match p with
  | None => respond r (Some Eunknownfid)
  | Some p =>
      f ← fid_at p;
      ok ← match fd_file f with
           | Some file => fl ← file_at file; hasperm (fl_parent fl) (fd_uid f) AWRITE
           | None => mret true
           end;
      if negb ok then respond r (Some Eperm)
      else call (srv_remove srv) r
        (respond r (match fd_file f with Some _ => None | None => Some Enoremove end))
  end.

Definition sstat (r : Z) : comp unit :=
  rq ← req_at r;
  p ← lookupfid (f_fid (r_ifcall rq));
  upd_req r (fun rq => rq <| r_fid := p |>);;
  match p with
  | None => respond r (Some Eunknownfid)
  | Some p =>
      f ← fid_at p;
      match fd_file f with
      | Some file => fl ← file_at file; upd_req r (fun rq => rq <| r_d := fl_dir fl |>)
      | None => mret tt
      end;;
      call (srv_stat srv) r
        (respond r (match fd_file f with Some _ => None | None => Some Enostat end))
  end.

(** The tests of [swstat] on an unpacked entry: the complaint, if any. [~] is taken at the
    width of the field: [vers] and [mode] are [ulong]s. *)
Definition wstat_complaint (d : Dir) (isdir_fid : Z) : cptr :=
  let lw := env_long srv in
  if negb (wrap 16 (Z.lnot (d_type d)) =? 0) then
    Some (lit "wstat -- attempt to change type")
  else if negb (wrap 32 (Z.lnot (d_dev d)) =? 0) then
    Some (lit "wstat -- attempt to change dev")
  else if negb (wrap 8 (Z.lnot (q_type (d_qid d))) =? 0)
          || negb (wrap lw (Z.lnot (q_vers (d_qid d))) =? 0)
          || negb (wrap 64 (Z.lnot (q_path (d_qid d))) =? 0) then
    Some (lit "wstat -- attempt to change qid")
  else if negb (bool_decide (str_bytes (d_muid d) = [])) then
    Some (lit "wstat -- attempt to change muid")
  else if negb (wrap lw (Z.lnot (d_mode d)) =? 0)
          && negb (((d_mode d .& DMDIR) .>> 24) =? isdir_fid) then
    Some (lit "wstat -- attempt to change DMDIR bit")
  else None.

Definition swstat (r : Z) : comp unit :=
  rq ← req_at r;
  let i := r_ifcall rq in
  p ← lookupfid (f_fid i);
  upd_req r (fun rq => rq <| r_fid := p |>);;
  match p with
  | None => respond r (Some Eunknownfid)
  | Some p =>
      match srv_wstat srv with
      | None => respond r (Some Enowstat)
      | Some wstat =>
          st ← mem (f_stat i);
          '(n, d, st) ← mem (convM2D st 0 (f_nstat i) (r_d rq) (Some 0));
          upd_req r (fun rq => rq <| r_d := d |>
                                  <| r_ifcall := (r_ifcall rq) <| f_stat := Some st |> |>);;
          if negb (n =? f_nstat i) then respond r (Some Ebaddir)
          else
            f ← fid_at p;
            match wstat_complaint d (q_type (fd_qid f) .& QTDIR) with
            | Some e => respond r (Some e)
            | None => wstat r
            end
      end
  end.

(** ** The loop *)

(** [getreq] once [read9pmsg] has put the message [msg] in the buffer; [junk] is the
    uninitialised local [f]. *)
Definition getreq (junk : Fcall) (msg : bytes) : comp ptr :=
  '(n, f, buf) ← mem (convM2S msg (len msg) junk);
  if negb (n =? len msg) then mret None
  else
    r ← allocreq srv (f_tag f);
    match r with
    | None =>
        r ← new;
        put_req r (req0 <| r_ref := 1 |> <| r_tag := f_tag f |> <| r_ifcall := f |>
                        <| r_error := Some Eduptag |> <| r_buf := buf |> <| r_pool := false |>);;
        mret (Some r)
    | Some r =>
        upd_req r (fun rq => rq <| r_responded := false |> <| r_buf := buf |>
                                <| r_ifcall := f |> <| r_ofcall := fcall0 |>
                                <| r_type := f_type f |>);;
        mret (Some r)
    end.

(** The switch of [srv]. *)
Definition dispatch (r : Z) : comp unit :=
  rq ← req_at r;
  match r_error rq with
  | Some _ => respond r (r_error rq)
  | None =>
      match mtype_of (f_type (r_ifcall rq)) with
      | Some Tversion => sversion r
      | Some Tauth => sauth r
      | Some Tattach => sattach r
      | Some Tflush => sflush r
      | Some Twalk => swalk r
      | Some Topen => sopen r
      | Some Tcreate => screate r
      | Some Tread => sread r
      | Some Twrite => swrite r
      | Some Tclunk => sclunk r
      | Some Tremove => sremove r
      | Some Tstat => sstat r
      | Some Twstat => swstat r
      | _ => respond r (Some (lit "unknown message"))
      end
  end.

(** The loop over the messages that arrive; it ends at one that does not unpack. *)
Fixpoint serve (junk : Fcall) (msgs : list bytes) : comp unit :=
  match msgs with
  | [] => mret tt
  | msg :: msgs =>
      r ← getreq junk msg;
      match r with
      | None => mret tt
      | Some r => dispatch r;; serve junk msgs
      end
  end.

(** [srv] up to its loop, with empty pools. *)
Definition srv_init : comp unit :=
  modify (fun s => s <| s_fpool := allocmap |> <| s_rpool := allocmap |>);;
  s ← get;
  changemsize (s32 (if s_msize s =? 0 then 8192 + IOHDRSZ else s_msize s)).

(** ** [util.c] and [dirread.c] *)

(** [memmove] into [ofcall.data], the buffer of [ifcall.count] bytes. *)
Definition readbuf (r : Z) (s : bytes) (n : Z) : comp unit :=
  rq ← req_at r;
  let off := f_offset (r_ifcall rq) in
  let count := f_count (r_ifcall rq) in
  if n <=? off then ofcall r (fun o => o <| f_count := 0 |>)
  else
    let count := if n <? off + count then u32 (n - off) else count in
    src ← mem (load s off count);
    data ← mem (f_data (r_ofcall rq));
    data ← mem (store data 0 src);
    ofcall r (fun o => o <| f_count := count |> <| f_data := Some data |>).

Definition readstr (r : Z) (s : cptr) : comp unit :=
  match s with
  | None => ofcall r (fun o => o <| f_count := 0 |>)
  | Some s => readbuf r (c_str s) (strlen s)
  end.

(** The loop of [dirread9p] writes entries [start], [start+1], ... at [p] until [gen] has no
    more, an entry does not fit or the buffer is full; each adds at least a byte. *)
Fixpoint dirread_loop (fuel : nat) (gen : Z -> option Dir) (data : bytes) (p ep start : Z)
    : option (bytes * Z * Z) :=
  match fuel with
  | O => None
  | S fuel =>
      if p <? ep then
        match gen start with
        | None => Some (data, p, start)
        | Some d =>
            '(rv, tl) ← convD2M d (drop (Z.to_nat p) data) (ep - p);
            let data := take (Z.to_nat p) data ++ tl in
            if rv <=? BIT16SZ then Some (data, p, start)
            else dirread_loop fuel gen data (p + rv) ep (start + 1)
        end
      else Some (data, p, start)
  end.

Definition dirread9p (r : Z) (gen : Z -> option Dir) : comp unit :=
  rq ← req_at r;
  p ← nn (r_fid rq);
  f ← fid_at p;
  let start := if f_offset (r_ifcall rq) =? 0 then 0 else fd_dirindex f in
  data ← mem (f_data (r_ofcall rq));
  let n := f_count (r_ifcall rq) in
  '(data, k, start) ← mem (dirread_loop (S (Z.to_nat n)) gen data 0 n start);
  upd_fid p (fun f => f <| fd_dirindex := start |>);;
  ofcall r (fun o => o <| f_data := Some data |> <| f_count := k |>).
End srv.
