(* ===== verification/SrvRun.v ===== *)
(** * Running the server's functions

    The steps of the monad, and what closing a fid, closing a request and [respond] do to the
    state: the lemmas from which the theorems on messages are put together. *)

From Stdlib Require Import String.
From S2P Require Import Prelude Fcall Wire ConvS2M ConvM2S ConvDir Codec Intmap Lib9p File Pool Srv.

(** ** Running the monad *)

Section run.
Context {KM : Type}.
Implicit Types (s : State KM).

Lemma bind_Ok {A B} (m : comp KM A) (k : A -> comp KM B) s a s' :
  m s = Ok a s' -> mbind k m s = k a s'.
Proof. intros E. unfold mbind, comp_bind. by rewrite E. Qed.

Lemma bind_Crash {A B} (m : comp KM A) (k : A -> comp KM B) s c s' :
  m s = Crash c s' -> mbind k m s = Crash c s'.
Proof. intros E. unfold mbind, comp_bind. by rewrite E. Qed.

Lemma req_at_Ok s p r : s_reqs s !! p = Some r -> req_at p s = Ok r s.
Proof. intros E. unfold req_at. by rewrite E. Qed.

Lemma fid_at_Ok s p f : s_fids s !! p = Some f -> fid_at p s = Ok f s.
Proof. intros E. unfold fid_at. by rewrite E. Qed.

Lemma file_at_Ok s p f : s_files s !! p = Some f -> file_at p s = Ok f s.
Proof. intros E. unfold file_at. by rewrite E. Qed.

Lemma mem_Ok {A} (o : option A) a s : o = Some a -> mem o s = Ok a s.
Proof. by intros ->. Qed.

Lemma str_Ok b s : str (Some b) s = Ok (c_str b) s.
Proof. done. Qed.

Lemma upd_req_Ok s p r g :
  s_reqs s !! p = Some r -> upd_req p g s = Ok tt (s <| s_reqs := <[p := g r]> (s_reqs s) |>).
Proof. intros E. unfold upd_req. by rewrite (bind_Ok _ _ _ _ _ (req_at_Ok _ _ _ E)). Qed.

Lemma upd_fid_Ok s p f g :
  s_fids s !! p = Some f -> upd_fid p g s = Ok tt (s <| s_fids := <[p := g f]> (s_fids s) |>).
Proof. intros E. unfold upd_fid. by rewrite (bind_Ok _ _ _ _ _ (fid_at_Ok _ _ _ E)). Qed.
End run.


(** A lookup in a heap that was updated. *)
Ltac look :=
  cbn;
  repeat first
    [ eassumption
    | reflexivity
    | apply lookup_insert_eq
    | rewrite lookup_insert_ne by done
    | rewrite lookup_insert_eq ].

(** Runs the first operation of a sequence. *)
Ltac run1 :=
  erewrite bind_Ok;
  [ | first
      [ apply req_at_Ok; solve [look]
      | apply fid_at_Ok; solve [look]
      | apply file_at_Ok; solve [look]
      | apply upd_req_Ok; solve [look]
      | apply upd_fid_Ok; solve [look]
      | reflexivity ] ].

Section respond.
Context {KM : Type} `{KeyMap KM} (srv : Srv KM).
Implicit Types (s : State KM) (rq : Req).

(** The reply a request sends: lines 794 to 797 of [srv.c]. *)
Definition reply_of (rq : Req) : Fcall :=
  let i := r_ifcall rq in
  let o := (r_ofcall rq) <| f_tag := f_tag i |> <| f_type := u8 (f_type i + 1) |> in
  match r_error rq with Some _ => setfcallerror o (r_error rq) | None => o end.

(** The server's settings under which a reply is written: a real server, a connection that
    takes what is written, no callback on requests, one on fids that does nothing (the model
    records its calls). *)
Definition plain_srv : Prop :=
  srv_fake srv = false /\ srv_destroyreq srv = None /\
  srv_destroyfid srv = Some (fun _ => mret tt) /\ forall b, env_write srv b = len b.

(** Closing a fid, as a function of the heaps: the last reference frees it, gives up its file
    and calls [destroyfid]. *)
Definition last_ref (s : State KM) (p : Z) : bool :=
  match s_fids s !! p with Some f => fd_ref f =? 1 | None => false end.

Definition fid_closed (s : State KM) (p : ptr) : State KM :=
  match p with
  | None => s
  | Some p =>
      match s_fids s !! p with
      | None => s
      | Some f =>
          if fd_ref f =? 1 then
            let files := match fd_file f with
                         | None => s_files s
                         | Some fl =>
                             alter (fun x => x <| fl_ref := fl_ref x - 1 |>) fl (s_files s)
                         end in
            s <| s_fids := delete p (s_fids s) |> <| s_files := files |>
              <| s_log := s_log s ++ [DestroyFid p] |>
          else s <| s_fids := <[p := f <| fd_ref := fd_ref f - 1 |>]> (s_fids s) |>
      end
  end.

(** The fid is there, and its file, if it would be given up, has other references. *)
Definition closable (s : State KM) (p : ptr) : Prop :=
  match p with
  | None => True
  | Some p =>
      exists f, s_fids s !! p = Some f /\
        (fd_ref f = 1 -> match fd_file f with
                         | None => True
                         | Some fl => exists x, s_files s !! fl = Some x /\ fl_ref x <> 1
                         end)
  end.

(** A request in the pool that only its handler and its flushes hold. *)
Definition held (s : State KM) (r : Z) (rq : Req) : Prop :=
  s_reqs s !! r = Some rq /\ r_pool rq = true /\ r_ref rq = 2 + len (r_flush rq) /\
  map_ok (s_rpool s) /\ in_u 16 (f_tag (r_ifcall rq)) /\
  contents (s_rpool s) !! f_tag (r_ifcall rq) = Some r.

(** A request that is only in the pool and with its handler. *)
Definition owned (s : State KM) (r : Z) (rq : Req) : Prop :=
  s_reqs s !! r = Some rq /\ r_pool rq = true /\ r_ref rq = 2 /\ r_flush rq = [] /\
  r_oldreq rq = None /\ r_newfid rq = None /\ r_afid rq = None /\
  map_ok (s_rpool s) /\ in_u 16 (f_tag (r_ifcall rq)) /\
  contents (s_rpool s) !! f_tag (r_ifcall rq) = Some r.

(** The server's buffer has the size it negotiated. *)
Definition buffered (s : State KM) : Prop :=
  exists wbuf, s_wbuf s = Some wbuf /\ len wbuf = s_msize s.

Lemma owned_held s r rq : owned s r rq -> held s r rq.
Proof.
  intros (? & ? & ? & Hf & _ & _ & _ & ? & ? & ?). split_and!; try done; [by rewrite Hf|range..].
Qed.

Lemma removereq_Ok s tag x :
  map_ok (s_rpool s) -> 0 <= tag -> contents (s_rpool s) !! tag = x ->
  removereq tag s = Ok x (s <| s_rpool := (deletekey (s_rpool s) tag).2 |>).
Proof.
  intros Hm Ht <-. unfold removereq. run1. cbn beta.
  destruct (deletekey_ok (s_rpool s) tag Hm Ht) as (_ & <- & _).
  by destruct (deletekey (s_rpool s) tag).
Qed.

(** Giving up one of several references. *)
Lemma closereq_dec s r rq :
  s_reqs s !! r = Some rq -> r_ref rq <> 1 ->
  closereq srv (Some r) s
  = Ok tt (s <| s_reqs := <[r := rq <| r_ref := r_ref rq - 1 |>]> (s_reqs s) |>).
Proof.
  intros Hr Hn. unfold closereq. run1. cbn beta. cbn [closereq_fuel]. run1. run1.
  by destruct (Z.eqb_spec (r_ref rq - 1) 0); [lia|].
Qed.

(** Giving up the last one. *)
Lemma closereq_last s r rq :
  s_reqs s !! r = Some rq -> r_ref rq = 1 -> r_fid rq = None -> r_newfid rq = None ->
  r_afid rq = None -> r_oldreq rq = None -> srv_destroyreq srv = None ->
  closereq srv (Some r) s
  = Ok tt (s <| s_reqs := delete r (<[r := rq <| r_ref := r_ref rq - 1 |>]> (s_reqs s)) |>).
Proof.
  intros Hr Hn H1 H2 H3 H4 H5. unfold closereq. run1. cbn beta. cbn [closereq_fuel]. run1. run1.
  rewrite Hn. change (1 - 1 =? 0) with true. cbn iota.
  rewrite H1, H2, H3, H4, H5. do 3 run1.
  destruct (size (s_reqs s)); cbn [closereq_fuel]; do 2 run1; done.
Qed.


Lemma closefile_dec s p fl :
  s_files s !! p = Some fl -> fl_ref fl <> 1 ->
  closefile srv p s
  = Ok tt (s <| s_files := alter (fun x => x <| fl_ref := fl_ref x - 1 |>) p (s_files s) |>).
Proof.
  intros Hf Hn. unfold closefile. run1. run1.
  destruct (Z.eqb_spec (fl_ref fl - 1) 0); [lia|].
  by rewrite (alter_Some _ _ _ _ Hf).
Qed.

Lemma closefid_Ok s p :
  plain_srv -> closable s (Some p) -> closefid srv (Some p) s = Ok tt (fid_closed s (Some p)).
Proof.
  intros (_ & _ & Hd & _) (f & Hf & Hcl). unfold closefid, fid_closed. rewrite Hf.
  run1. run1. run1. destruct (Z.eqb_spec (fd_ref f) 1) as [E|E].
  2: { by destruct (Z.eqb_spec (fd_ref f - 1) 0); [lia|]. }
  rewrite E. change (1 - 1 =? 0) with true. cbn iota. rewrite Hd. run1. run1.
  change (fd_file (f <| fd_ref := 1 - 1 |>)) with (fd_file f). destruct (fd_file f) as [fl|].
  - destruct (Hcl E) as (x & Hx & Hxr). erewrite bind_Ok; [|eapply closefile_dec; [exact Hx|done]].
    unfold free_fid, modify. cbn. by rewrite delete_insert_eq.
  - run1. unfold free_fid, modify. cbn. by rewrite delete_insert_eq.
Qed.

Lemma fid_closed_frame s p :
  let c := fid_closed s p in
  s_reqs c = s_reqs s /\ s_fpool c = s_fpool s /\ s_rpool c = s_rpool s /\
  s_msize c = s_msize s /\ s_wbuf c = s_wbuf s /\ s_tree c = s_tree s /\
  s_out c = s_out s /\ s_next c = s_next s.
Proof.
  unfold fid_closed. destruct p as [p|]; [|done]. destruct (s_fids s !! p) as [f|]; [|done].
  by destruct (fd_ref f =? 1).
Qed.

(** The heaps of a state after closing a fid depend on the heaps before it only. *)
Lemma fid_closed_heaps s s' p :
  s_fids s = s_fids s' -> s_files s = s_files s' -> s_log s = s_log s' ->
  s_fids (fid_closed s p) = s_fids (fid_closed s' p) /\
  s_files (fid_closed s p) = s_files (fid_closed s' p) /\
  s_log (fid_closed s p) = s_log (fid_closed s' p).
Proof.
  intros E1 E2 E3. unfold fid_closed. rewrite E1, E2, E3. destruct p as [p|]; [|done].
  destruct (s_fids s' !! p) as [f|]; [|done]. by destruct (fd_ref f =? 1).
Qed.

(** The effect of a reply: the message is written, the request leaves the pool and the heap,
    its fid is closed. *)
Definition replied (s s' : State KM) (r : Z) (fid : ptr) (tag : Z) (m : msg) : Prop :=
  let c := fid_closed s fid in
  s_reqs s' = delete r (s_reqs s) /\ s_fids s' = s_fids c /\ s_files s' = s_files c /\
  s_log s' = s_log c /\ s_fpool s' = s_fpool s /\ map_ok (s_rpool s') /\
  contents (s_rpool s') = delete tag (contents (s_rpool s)) /\
  s_out s' = s_out s ++ [encode tag m] /\ s_msize s' = s_msize s /\ buffered s' /\
  s_tree s' = s_tree s /\ s_next s' = s_next s.

(** The state in which the fid of a request is closed: the request has left the pool. *)
Definition answered (rq : Req) : Req :=
  rq <| r_ofcall := reply_of rq |> <| r_ref := r_ref rq - 1 |> <| r_responded := true |>.

Definition unpooled (s : State KM) (r : Z) (rq : Req) (wbuf : bytes) : State KM :=
  s <| s_reqs := <[r := answered rq]> (s_reqs s) |>
    <| s_wbuf := Some wbuf |>
    <| s_rpool := (deletekey (s_rpool s) (f_tag (r_ifcall rq))).2 |>.

Lemma close_before_write s r rq wbuf :
  plain_srv -> closable s (r_fid rq) ->
  let u := unpooled s r rq wbuf in
  (if bool_decide (r_fid rq <> None) then
     closefid srv (r_fid rq);; upd_req r (fun rq => rq <| r_fid := None |>) else mret tt) u
  = Ok tt ((fid_closed u (r_fid rq))
      <| s_reqs := <[r := (answered rq) <| r_fid := None |>]> (s_reqs s) |>).
Proof.
  intros Hpl Hcl u. destruct (fid_closed_frame u (r_fid rq)) as (Fr & _).
  destruct (r_fid rq) as [p|] eqn:Ef.
  - rewrite bool_decide_true by done. erewrite bind_Ok; [|apply closefid_Ok; [done|exact Hcl]].
    erewrite upd_req_Ok; [|rewrite Fr; apply lookup_insert_eq]. rewrite Fr.
    unfold u, unpooled. cbn. by rewrite insert_insert_eq.
  - rewrite bool_decide_false by (intros Hx; by apply Hx). cbn [fid_closed]. unfold mret, comp_ret.
    unfold u, unpooled, answered. clear -Ef. destruct rq. cbn in Ef. by subst.
Qed.

Lemma send_Ok s r rq m :
  plain_srv -> held s r rq -> buffered s -> closable s (r_fid rq) ->
  msg_of (reply_of rq) = Some m -> msg_size m < 2 ^ 31 -> msg_size m <= s_msize s ->
  exists wbuf, len wbuf = s_msize s /\
    send srv r s = Ok true ((fid_closed (unpooled s r rq wbuf) (r_fid rq))
      <| s_reqs := <[r := (answered rq) <| r_fid := None |>]> (s_reqs s) |>
      <| s_out := s_out s ++ [encode (f_tag (r_ifcall rq)) m] |>).
Proof.
  intros Hpl (Hr & Hpool & Href & Hmo & Htag & Hc)
    (wbuf & Hwb & Hlw) Hcl Hm Hs31 Hms. pose proof Hpl as (Hfake & Hdr & Hdf & Hw).
  assert (f_tag (reply_of rq) = f_tag (r_ifcall rq)) as Et by (unfold reply_of; by destruct (r_error rq)).
  assert (7 <= msg_size m) by (unfold msg_size, BIT32SZ, BIT8SZ, BIT16SZ; lia).
  pose proof (convS2M_run (reply_of rq) m wbuf (s_msize s) Hm ltac:(range) Hms ltac:(lia)) as Ec.
  rewrite Et in Ec. set (wbuf' := encode _ m ++ _) in Ec.
  pose proof (len_encode (f_tag (r_ifcall rq)) m) as Hle.
  assert (len wbuf' = s_msize s) as Hl' by (unfold wbuf'; rewrite length_app, length_drop; lia).
  assert (take (Z.to_nat (msg_size m)) wbuf' = encode (f_tag (r_ifcall rq)) m) as Etk
    by (unfold wbuf'; rewrite take_app_le, take_ge; [done|lia..]).
  exists wbuf'. split; [done|]. unfold send. run1. fold (reply_of rq). cbv zeta.
  run1. rewrite Hfake. run1. erewrite bind_Ok; [|apply mem_Ok; exact Hwb].
  erewrite bind_Ok; [|apply mem_Ok; exact Ec]. cbn beta iota. run1.
  rewrite swrap_small by (lia || range). destruct (Z.leb_spec (msg_size m) 0); [lia|].
  destruct (Z.ltb_spec 2 (msg_size m)); [|lia]. run1. rewrite Hpool. unfold when.
  erewrite bind_Ok; cycle 1.
  { cbn iota. erewrite bind_Ok; [|apply removereq_Ok; [exact Hmo|range|exact Hc]].
    apply closereq_dec; [look|]. change (r_ref rq <> 1). lia. }
  run1. run1. match goal with |- _ ?S = _ => replace S with (unpooled s r rq wbuf') end.
  2: { unfold unpooled. cbn. by rewrite !insert_insert_eq. }
  match goal with |- context [r_pool ?q && _] => set (rq2 := q) end.
  rewrite (eq_refl : r_pool rq2 = r_pool rq), (eq_refl : r_flush rq2 = r_flush rq),
    (eq_refl : r_fid rq2 = r_fid rq), (eq_refl : r_ref rq2 = r_ref rq - 1), Hpool. clear rq2.
  destruct (Z.eqb_spec (r_ref rq - 1) (1 + len (r_flush rq))); [|lia]. cbn [andb].
  erewrite bind_Ok; [|by apply close_before_write]. rewrite Hw, Etk, Hle, Z.eqb_refl. run1.
  destruct (fid_closed_frame (unpooled s r rq wbuf') (r_fid rq)) as (_ & _ & _ & _ & _ & _ & Fo & _).
  change (s_out s) with (s_out (unpooled s r rq wbuf')). by rewrite <- Fo.
Qed.

(** A reply that is larger than the buffer. *)
Lemma send_abort s r rq m :
  srv_fake srv = false -> s_reqs s !! r = Some rq -> buffered s ->
  msg_of (reply_of rq) = Some m -> in_u 32 (msg_size m) -> s_msize s < msg_size m ->
  exists s', send srv r s = Crash Aborted s'.
Proof.
  intros Hfake Hr (wbuf & Hwb & _) Hm Hs Hms. eexists. unfold send. run1. fold (reply_of rq).
  cbv zeta. run1. rewrite Hfake. run1. erewrite bind_Ok; [|apply mem_Ok; exact Hwb].
  erewrite bind_Ok; [|apply mem_Ok; exact (convS2M_short _ m _ _ Hm Hs Hms)].
  cbn beta iota. run1. reflexivity.
Qed.

(** The last part of [respond] for a request nobody flushed. *)
Lemma release_Ok s k r rq :
  s_reqs s !! r = Some rq -> r_flush rq = [] -> r_pool rq = true -> r_ref rq = 1 ->
  r_fid rq = None -> r_newfid rq = None -> r_afid rq = None -> r_oldreq rq = None ->
  srv_destroyreq srv = None ->
  release srv k r s = Ok tt (s <| s_reqs := delete r (s_reqs s) |>).
Proof.
  intros Hr Hfl Hp Href H1 H2 H3 H4 Hd. unfold release. run1. rewrite Hfl. cbn [foldr]. run1. run1.
  rewrite Hp. erewrite closereq_last; [|look|done..]. cbn. f_equal.
  rewrite !delete_insert_eq. reflexivity.
Qed.

Lemma release_fake s k r rq :
  s_reqs s !! r = Some rq -> r_flush rq = [] -> r_pool rq = false ->
  release srv k r s = Ok tt (s <| s_reqs := delete r (s_reqs s) |>).
Proof.
  intros Hr Hfl Hp. unfold release. run1. rewrite Hfl. cbn [foldr]. run1. run1. rewrite Hp.
  unfold free_req, modify. cbn. by rewrite delete_insert_eq.
Qed.

(** [respond] up to its switch. *)
Lemma respond_fuel_eq n s r rq e :
  s_reqs s !! r = Some rq -> r_responded rq = false ->
  respond_fuel srv (S n) r e s =
  (go ← rswitch srv r e;
   if negb go then mret tt
   else go ← send srv r;
        if negb go then mret tt else release srv (respond_fuel srv n) r)
  (s <| s_reqs := <[r := rq <| r_error := e |>]> (s_reqs s) |>).
Proof. intros Hr Hn. cbn [respond_fuel]. run1. rewrite Hn. by run1. Qed.

Lemma respond_eq s r rq e :
  s_reqs s !! r = Some rq -> r_responded rq = false ->
  respond srv r e s =
  (go ← rswitch srv r e;
   if negb go then mret tt
   else go ← send srv r;
        if negb go then mret tt else release srv (respond_fuel srv (size (s_reqs s))) r)
  (s <| s_reqs := <[r := rq <| r_error := e |>]> (s_reqs s) |>).
Proof. intros Hr Hn. unfold respond. run1. by apply respond_fuel_eq. Qed.

(** What [respond] does for an owned request once its [r*] function has run. *)
Lemma respond_fuel_owned n s r rq error s1 rq1 m :
  plain_srv -> s_reqs s !! r = Some rq -> r_responded rq = false ->
  rswitch srv r error (s <| s_reqs := <[r := rq <| r_error := error |>]> (s_reqs s) |>)
    = Ok true s1 ->
  owned s1 r rq1 -> buffered s1 -> closable s1 (r_fid rq1) ->
  msg_of (reply_of rq1) = Some m -> msg_size m < 2 ^ 31 -> msg_size m <= s_msize s1 ->
  exists s', respond_fuel srv (S n) r error s = Ok tt s' /\
    replied s1 s' r (r_fid rq1) (f_tag (r_ifcall rq1)) m.
Proof.
  intros Hpl Hr Hn Hsw Hown Hbuf Hcl Hm H31 Hms. rewrite (respond_fuel_eq n s r rq error Hr Hn).
  erewrite bind_Ok; [|exact Hsw]. cbn [negb].
  destruct (send_Ok s1 r rq1 m Hpl (owned_held _ _ _ Hown) Hbuf Hcl Hm H31 Hms) as (wbuf & Hl & Es).
  erewrite bind_Ok; [|exact Es]. cbn [negb].
  destruct Hown as (_ & Hpool & Href & Hfl & Hold & Hnf & Haf & Hmo & Htag & Hc).
  erewrite release_Ok; [|apply lookup_insert_eq|done|done|change (r_ref rq1 - 1 = 1); lia|done..|apply Hpl].
  eexists. split; [reflexivity|].
  pose proof (fid_closed_frame (unpooled s1 r rq1 wbuf) (r_fid rq1))
    as (_ & F2 & F3 & F4 & F5 & F6 & _ & F8).
  destruct (fid_closed_heaps (unpooled s1 r rq1 wbuf) s1 (r_fid rq1)) as (G1 & G2 & G3); [done..|].
  destruct (deletekey_ok (s_rpool s1) (f_tag (r_ifcall rq1)) Hmo ltac:(range)) as (D1 & _ & D2).
  split_and!;
    first [ exact (delete_insert_eq _ _ _) | exact G1 | exact G2 | exact G3 | exact F2 | exact F4
          | exact F6 | exact F8 | done | idtac ].
  - cbn. apply (eq_ind_r map_ok D1 F3).
  - etransitivity; [exact (f_equal contents F3)|exact D2].
  - exists wbuf. split; [exact F5|]. etransitivity; [exact Hl|symmetry; exact F4].
Qed.

Lemma respond_owned s r rq error s1 rq1 m :
  plain_srv -> s_reqs s !! r = Some rq -> r_responded rq = false ->
  rswitch srv r error (s <| s_reqs := <[r := rq <| r_error := error |>]> (s_reqs s) |>)
    = Ok true s1 ->
  owned s1 r rq1 -> buffered s1 -> closable s1 (r_fid rq1) ->
  msg_of (reply_of rq1) = Some m -> msg_size m < 2 ^ 31 -> msg_size m <= s_msize s1 ->
  exists s', respond srv r error s = Ok tt s' /\
    replied s1 s' r (r_fid rq1) (f_tag (r_ifcall rq1)) m.
Proof. intros. unfold respond. run1. by apply (respond_fuel_owned _ s r rq). Qed.

(** The requests that use an existing fid. *)
Definition uses_fid (t : mtype) : bool :=
  match t with
  | Twalk | Topen | Tcreate | Tread | Twrite | Tclunk | Tremove | Tstat | Twstat => true
  | _ => false
  end.

Lemma replied_reqs s r rq s' p tag m :
  replied (s <| s_reqs := <[r := rq]> (s_reqs s) |>) s' r p tag m -> replied s s' r p tag m.
Proof.
  intros (E1 & E2 & E3 & E4 & R). destruct (fid_closed_heaps (s <| s_reqs := <[r := rq]> (s_reqs s) |>) s p)
    as (G1 & G2 & G3); [done..|]. unfold replied. rewrite <- G1, <- G2, <- G3.
  split_and!; try done; try apply R. rewrite E1. cbn. by rewrite delete_insert_eq.
Qed.

(** With an error the [r*] functions of these requests do nothing, as long as a walk has no
    new fid yet. *)
Lemma rswitch_error s r rq e t :
  s_reqs s !! r = Some rq -> mtype_of (f_type (r_ifcall rq)) = Some t -> uses_fid t = true ->
  r_newfid rq = None -> f_nwqid (r_ofcall rq) = 0 -> rswitch srv r (Some e) s = Ok true s.
Proof.
  intros Hr Ht Hu Hnf Hnw. unfold rswitch. run1. rewrite Ht. destruct t; try done.
  erewrite bind_Ok; [reflexivity|]. unfold rwalk. run1. cbv zeta.
  rewrite bool_decide_true by done. cbn [orb]. rewrite Hnf. run1. rewrite Hnw. reflexivity.
Qed.

Lemma error_size e : msg_size (MRerror e) = 9 + len e.
Proof.
  unfold msg_size. cbn [encode_body]. rewrite estring_len. unfold BIT32SZ, BIT8SZ, BIT16SZ. lia.
Qed.

Lemma error_reply rq e : wf_string e -> msg_of (reply_of (rq <| r_error := Some e |>)) = Some (MRerror e).
Proof.
  intros (_ & Hz & _). transitivity (Some (MRerror (c_str e))); [reflexivity|by rewrite c_str_id].
Qed.

(** An error reply to a request on a fid. *)
Lemma respond_error s r rq e t :
  plain_srv -> owned s r rq -> r_responded rq = false -> f_nwqid (r_ofcall rq) = 0 ->
  mtype_of (f_type (r_ifcall rq)) = Some t -> uses_fid t = true ->
  buffered s -> closable s (r_fid rq) -> wf_string e -> 9 + len e <= s_msize s ->
  exists s', respond srv r (Some e) s = Ok tt s' /\
    replied s s' r (r_fid rq) (f_tag (r_ifcall rq)) (MRerror e).
Proof.
  intros Hpl Hown Hn Hnw Ht Hu Hbuf Hcl He Hms. pose proof Hown as (Hr & Ho).
  set (rq1 := rq <| r_error := Some e |>).
  set (s1 := s <| s_reqs := <[r := rq1]> (s_reqs s) |>).
  destruct (respond_owned s r rq (Some e) s1 rq1 (MRerror e)) as (s' & E & R); try done.
  - eapply rswitch_error; [apply lookup_insert_eq|done..|apply Ho|done].
  - split; [apply lookup_insert_eq|exact Ho].
  - by apply error_reply.
  - rewrite error_size. destruct He as (_ & _ & He). range.
  - rewrite error_size. exact Hms.
  - exists s'. split; [done|]. by eapply replied_reqs.
Qed.

(** ** Taking a message *)

(** The state between two messages: the tables are sound, what they hold is in the heap, and
    addresses from [s_next] on are free. *)
Definition srv_ok (s : State KM) : Prop :=
  map_ok (s_fpool s) /\ map_ok (s_rpool s) /\ buffered s /\
  (forall p, s_next s <= p -> s_reqs s !! p = None /\ s_fids s !! p = None) /\
  (forall id p, contents (s_fpool s) !! id = Some p ->
     exists f, s_fids s !! p = Some f /\ fd_fid f = id /\ 1 <= fd_ref f) /\
  (forall tag p, contents (s_rpool s) !! tag = Some p ->
     exists rq, s_reqs s !! p = Some rq /\ f_tag (r_ifcall rq) = tag /\ 1 <= r_ref rq).

(** The request of a message that was just taken. *)
Definition taken (f : Fcall) (buf : bytes) : Req :=
  mkReq (f_tag f) 0 f fcall0 dir0 None None None None 2 true buf (f_type f) false None None [].

Definition with_req (s : State KM) (f : Fcall) (buf : bytes) : State KM :=
  s <| s_next := s_next s + 1 |>
    <| s_reqs := <[s_next s := taken f buf]> (s_reqs s) |>
    <| s_rpool := (caninsertkey (s_rpool s) (f_tag f) (s_next s)).2 |>.

Definition full_arrays (f : Fcall) : Prop :=
  length (f_wname f) = 16%nat /\ length (f_wqid f) = 16%nat.

Lemma allocreq_Ok s tag :
  map_ok (s_rpool s) -> 0 <= tag -> contents (s_rpool s) !! tag = None ->
  allocreq srv tag s = Ok (Some (s_next s))
    (s <| s_next := s_next s + 1 |>
       <| s_reqs := <[s_next s := req0 <| r_tag := tag |> <| r_ref := 2 |>]> (s_reqs s) |>
       <| s_rpool := (caninsertkey (s_rpool s) tag (s_next s)).2 |>).
Proof.
  intros Hm Ht Hn. destruct (caninsertkey_ok (s_rpool s) tag (s_next s) Hm Ht) as (_ & C & _).
  rewrite bool_decide_true in C by done. unfold allocreq. run1. run1. unfold increqref. do 3 run1.
  cbn beta. change (s_rpool _) with (s_rpool s) at 1.
  destruct (caninsertkey (s_rpool s) tag (s_next s)) as [ok mm]. cbn [fst snd] in *. subst ok.
  run1. unfold mret, comp_ret. cbn. by rewrite !insert_insert_eq.
Qed.

Lemma allocfid_Ok s fid :
  map_ok (s_fpool s) -> 0 <= fid -> contents (s_fpool s) !! fid = None ->
  allocfid srv fid s = Ok (Some (s_next s))
    (s <| s_next := s_next s + 1 |>
       <| s_fids := <[s_next s := fid0 <| fd_fid := fid |> <| fd_omode := -1 |>
                                       <| fd_ref := 2 |>]> (s_fids s) |>
       <| s_fpool := (caninsertkey (s_fpool s) fid (s_next s)).2 |>).
Proof.
  intros Hm Ht Hn. destruct (caninsertkey_ok (s_fpool s) fid (s_next s) Hm Ht) as (_ & C & _).
  rewrite bool_decide_true in C by done. unfold allocfid. run1. run1. unfold incfidref. do 3 run1.
  cbn beta. change (s_fpool _) with (s_fpool s) at 1.
  destruct (caninsertkey (s_fpool s) fid (s_next s)) as [ok mm]. cbn [fst snd] in *. subst ok.
  run1. unfold mret, comp_ret. cbn. by rewrite !insert_insert_eq.
Qed.

(** A message with a tag that is not in use becomes a request of the pool. *)
Lemma getreq_Ok s junk tag m :
  srv_ok s -> wf_msg m -> in_u 16 tag -> full_arrays junk -> contents (s_rpool s) !! tag = None ->
  exists f buf, msg_of f = Some m /\ f_tag f = tag /\
    getreq srv junk (encode tag m) s = Ok (Some (s_next s)) (with_req s f buf) /\
    owned (with_req s f buf) (s_next s) (taken f buf) /\
    contents (s_rpool (with_req s f buf)) = <[tag := s_next s]> (contents (s_rpool s)).
Proof.
  intros (Hf & Hr & Hbuf & Hfr & _) Hm Ht [Hwn Hwq] Hnone.
  destruct (convM2S_run tag m [] (msg_size m) junk) as (f & buf & E & Emsg & Etag); [done..|].
  rewrite app_nil_r in E.
  destruct (caninsertkey_ok (s_rpool s) tag (s_next s) Hr ltac:(range)) as (C1 & C2 & C3).
  rewrite bool_decide_true in C2, C3 by done.
  exists f, buf. split_and!; [done..| | |].
  - unfold getreq. erewrite bind_Ok; [|apply mem_Ok; rewrite len_encode; exact E].
    cbn beta iota. rewrite len_encode, Z.eqb_refl. cbn [negb].
    erewrite bind_Ok; [|apply allocreq_Ok; [done|rewrite Etag; range|by rewrite Etag]].
    cbn iota. run1. unfold mret, comp_ret. cbn. rewrite insert_insert_eq. reflexivity.
  - split_and!; try done; cbn; rewrite ?Etag; [apply lookup_insert_eq|exact C1|range|].
    rewrite C3. apply lookup_insert_eq.
  - cbn. by rewrite Etag, C3.
Qed.

Lemma lookupfid_None s fid :
  map_ok (s_fpool s) -> 0 <= fid -> contents (s_fpool s) !! fid = None ->
  lookupfid fid s = Ok None s.
Proof. intros Hm Hf Hn. unfold lookupfid. run1. cbn beta. by rewrite lookupkey_ok, Hn. Qed.

Lemma lookupfid_Some s fid p f :
  map_ok (s_fpool s) -> 0 <= fid -> contents (s_fpool s) !! fid = Some p ->
  s_fids s !! p = Some f ->
  lookupfid fid s
  = Ok (Some p) (s <| s_fids := <[p := f <| fd_ref := fd_ref f + 1 |>]> (s_fids s) |>).
Proof.
  intros Hm Hf Hp Hl. unfold lookupfid. run1. cbn beta. rewrite lookupkey_ok, Hp by done.
  unfold incfidref. by run1.
Qed.

Lemma removefid_Ok s fid x :
  map_ok (s_fpool s) -> 0 <= fid -> contents (s_fpool s) !! fid = x ->
  removefid fid s = Ok x (s <| s_fpool := (deletekey (s_fpool s) fid).2 |>).
Proof.
  intros Hm Ht <-. unfold removefid. run1. cbn beta.
  destruct (deletekey_ok (s_fpool s) fid Hm Ht) as (_ & <- & _).
  by destruct (deletekey (s_fpool s) fid).
Qed.

(** The messages that were written are all that changed, as far as the client can tell. *)
Definition undisturbed (s s' : State KM) (msgs : list bytes) : Prop :=
  s_reqs s' = s_reqs s /\ s_fids s' = s_fids s /\ s_files s' = s_files s /\
  s_log s' = s_log s /\ s_tree s' = s_tree s /\ s_msize s' = s_msize s /\
  contents (s_fpool s') = contents (s_fpool s) /\ contents (s_rpool s') = contents (s_rpool s) /\
  s_out s' = s_out s ++ msgs /\ srv_ok s'.

(** The state in which the reply to a message just taken is sent, the fids unchanged. *)
Definition pending (s s1 : State KM) (tag : Z) : Prop :=
  (exists rq, s_reqs s1 = <[s_next s := rq]> (s_reqs s)) /\ s_fids s1 = s_fids s /\
  s_files s1 = s_files s /\ s_log s1 = s_log s /\ s_tree s1 = s_tree s /\
  s_msize s1 = s_msize s /\ s_next s1 = s_next s + 1 /\ s_out s1 = s_out s /\
  map_ok (s_fpool s1) /\ contents (s_fpool s1) = contents (s_fpool s) /\
  contents (s_rpool s1) = <[tag := s_next s]> (contents (s_rpool s)).

Lemma replied_undisturbed s s1 s' tag m :
  srv_ok s -> contents (s_rpool s) !! tag = None -> pending s s1 tag ->
  replied s1 s' (s_next s) None tag m -> undisturbed s s' [encode tag m].
Proof.
  intros (Hf & Hr & Hb & Hfr & Hfid & Hreq) Hn
    ([rq P1] & P2 & P3 & P4 & P5 & P6 & P7 & P8 & P9 & P10 & P11)
    (R1 & R2 & R3 & R4 & R5 & R6 & R7 & R8 & R9 & R10 & R11 & R12).
  cbn [fid_closed] in *. destruct (Hfr (s_next s) ltac:(lia)) as [Hfr1 _].
  rewrite P1, delete_insert_eq, delete_id in R1 by done.
  rewrite P11, delete_insert_eq, delete_id in R7 by done.
  assert (srv_ok s') as Hok.
  { unfold srv_ok. rewrite R5, P10, R7, R1, R2, P2. split_and!; try done.
    intros p Hp. apply Hfr. lia. }
  unfold undisturbed. rewrite R2, R3, R4, R5, R7, R8, R9, R11, P2, P3, P4, P5, P6, P8, P10. done.
Qed.

(** ** Duplicate tags *)

(** A tag in use: the request that was allocated for it is freed again. *)
Lemma allocreq_dup s tag q :
  map_ok (s_rpool s) -> 0 <= tag -> contents (s_rpool s) !! tag = Some q ->
  s_reqs s !! s_next s = None -> srv_destroyreq srv = None ->
  allocreq srv tag s = Ok None
    (s <| s_next := s_next s + 1 |> <| s_rpool := (caninsertkey (s_rpool s) tag (s_next s)).2 |>).
Proof.
  intros Hm Ht Hq Hfr Hd. destruct (caninsertkey_ok (s_rpool s) tag (s_next s) Hm Ht) as (_ & C & _).
  rewrite bool_decide_false in C by (by rewrite Hq). unfold allocreq. run1. run1. unfold increqref.
  do 3 run1. cbn beta. change (s_rpool _) with (s_rpool s) at 1.
  destruct (caninsertkey (s_rpool s) tag (s_next s)) as [ok mm]. cbn [fst snd] in *. subst ok.
  run1. erewrite bind_Ok; [|apply closereq_dec; [look|done]].
  erewrite bind_Ok; [|apply closereq_last; [look|done..]].
  unfold mret, comp_ret. cbn. by rewrite !insert_insert_eq, !delete_insert_eq, delete_id.
Qed.

(** The request made up for a message with a duplicate tag. *)
Definition duplicate (f : Fcall) (buf : bytes) : Req :=
  mkReq (f_tag f) 0 f fcall0 dir0 None None None None 1 false buf 0 false (Some Eduptag) None [].

Definition with_dup (s : State KM) (f : Fcall) (buf : bytes) : State KM :=
  s <| s_next := s_next s + 1 + 1 |>
    <| s_rpool := (caninsertkey (s_rpool s) (f_tag f) (s_next s)).2 |>
    <| s_reqs := <[s_next s + 1 := duplicate f buf]> (s_reqs s) |>.

Lemma getreq_dup s junk tag m q :
  srv_ok s -> wf_msg m -> in_u 16 tag -> full_arrays junk ->
  contents (s_rpool s) !! tag = Some q -> srv_destroyreq srv = None ->
  exists f buf, msg_of f = Some m /\ f_tag f = tag /\
    getreq srv junk (encode tag m) s = Ok (Some (s_next s + 1)) (with_dup s f buf).
Proof.
  intros (Hf & Hr & Hbuf & Hfr & _) Hm Ht [Hwn Hwq] Hq Hd.
  destruct (convM2S_run tag m [] (msg_size m) junk) as (f & buf & E & Emsg & Etag); [done..|].
  rewrite app_nil_r in E. exists f, buf. split_and!; [done..|]. unfold getreq.
  erewrite bind_Ok; [|apply mem_Ok; rewrite len_encode; exact E].
  cbn beta iota. rewrite len_encode, Z.eqb_refl. cbn [negb].
  erewrite bind_Ok; [|eapply allocreq_dup; [done|rewrite Etag; range|rewrite Etag; exact Hq
    |apply Hfr; lia|done]].
  cbn iota. run1. run1. reflexivity.
Qed.

(** The requests that can be answered with an error. *)
Definition fails_well (t : mtype) : bool :=
  uses_fid t || bool_decide (t = Tauth) || bool_decide (t = Tattach).

Lemma rswitch_dup s f buf t e :
  let r := s_next s + 1 in
  let s1 := (with_dup s f buf) <| s_reqs := <[r := (duplicate f buf) <| r_error := Some e |>]>
              (s_reqs (with_dup s f buf)) |> in
  mtype_of (f_type f) = Some t -> fails_well t = true ->
  rswitch srv r (Some e) s1 = Ok true s1.
Proof.
  intros r s1 Ht Hf. unfold rswitch. erewrite bind_Ok; [|apply req_at_Ok, lookup_insert_eq].
  change (f_type (r_ifcall _)) with (f_type f). rewrite Ht.
  destruct t; try done; (erewrite bind_Ok; [reflexivity|]); try done;
    unfold rauth, rattach, rwalk; (erewrite bind_Ok; [|apply req_at_Ok, lookup_insert_eq]); done.
Qed.

Lemma respond_dup s f buf t q e :
  plain_srv -> srv_ok s -> mtype_of (f_type f) = Some t -> fails_well t = true ->
  in_u 16 (f_tag f) -> contents (s_rpool s) !! f_tag f = Some q ->
  wf_string e -> 9 + len e <= s_msize s ->
  exists s', respond srv (s_next s + 1) (Some e) (with_dup s f buf) = Ok tt s' /\
    undisturbed s s' [encode (f_tag f) (MRerror e)].
Proof.
  intros (Hfake & Hdr & Hdf & Hw) (Hfm & Hrm & (wbuf & Hwb & Hlw) & Hfr & Hfid & Hreq) Ht Hfw Htag Hq
    (Hb & Hz & He) Hms.
  destruct (caninsertkey_ok (s_rpool s) (f_tag f) (s_next s) Hrm ltac:(range)) as (C1 & _ & C2).
  rewrite bool_decide_false in C2 by (by rewrite Hq).
  erewrite respond_eq; [|apply lookup_insert_eq|done].
  erewrite bind_Ok; [|by eapply rswitch_dup]. cbn [negb].
  set (rq := (duplicate f buf) <| r_error := Some e |>).
  assert (msg_of (reply_of rq) = Some (MRerror e)) as Hm.
  { transitivity (Some (MRerror (c_str e))); [reflexivity|by rewrite c_str_id]. }
  assert (msg_size (MRerror e) = 9 + len e) as Hsz.
  { unfold msg_size. cbn [encode_body]. rewrite estring_len. unfold BIT32SZ, BIT8SZ, BIT16SZ. lia. }
  pose proof (convS2M_run (reply_of rq) _ wbuf (s_msize s) Hm ltac:(range) ltac:(lia) ltac:(lia)) as Ec.
  change (f_tag (reply_of rq)) with (f_tag f) in Ec. set (wbuf' := encode _ _ ++ _) in Ec.
  pose proof (len_encode (f_tag f) (MRerror e)) as Hle.
  erewrite bind_Ok; cycle 1.
  { unfold send. erewrite bind_Ok; [|apply req_at_Ok, lookup_insert_eq]. fold rq. cbv zeta.
    fold (reply_of rq). run1. rewrite Hfake. run1. erewrite bind_Ok; [|apply mem_Ok; exact Hwb].
    erewrite bind_Ok; [|apply mem_Ok; exact Ec]. cbn beta iota. run1.
    rewrite swrap_small by (lia || range). destruct (Z.leb_spec (msg_size (MRerror e)) 0); [lia|].
    destruct (Z.ltb_spec 2 (msg_size (MRerror e))); [|lia]. run1. run1. run1. run1. run1.
    rewrite Hw. unfold wbuf' at 1. rewrite take_app_le, take_ge by lia.
    rewrite Hle, Z.eqb_refl. run1. reflexivity. }
  cbn [negb]. erewrite release_fake; [|look|done..].
  eexists. split; [reflexivity|]. destruct (Hfr (s_next s + 1) ltac:(lia)) as [Hn1 _].
  match goal with |- undisturbed _ (_ <| s_reqs := ?R |>) _ => assert (R = s_reqs s) as -> end.
  { cbn. by rewrite !insert_insert_eq, delete_insert_eq, delete_id. }
  split_and!; try done.
  - cbn. unfold wbuf'. by rewrite take_app_le, take_ge by lia.
  - split_and!; try done.
    + exists wbuf'. split; [done|]. change (len wbuf' = s_msize s). unfold wbuf'.
      rewrite length_app, length_drop. lia.
    + intros p Hp. apply Hfr. change (s_next s + 1 + 1 <= p) in Hp. lia.
    + intros tag p Hp. apply Hreq. rewrite <- C2. exact Hp.
Qed.
End respond.
