(* ===== verification/SrvExample.v ===== *)
(** * A server to run

    A small server on the table of [intmap.c], with a handler of reads that keeps the request
    for later, and states of it: the concrete inputs of the examples in the files on [srv.c]. *)

From Stdlib Require Import String.
From S2P Require Import Prelude Fcall Wire ConvS2M ConvM2S ConvDir Codec Intmap Lib9p File Pool Srv SrvRun.

(** No callbacks but a [destroyfid] and a [read] that do nothing, [long]s of 64 bits. *)
Definition ex_srv : Srv Intmap :=
  mkSrv Intmap (Some (fun _ => mret tt)) None (fun _ => mret tt) None None None None
    (Some (fun _ => mret tt)) None None None None None None None None false
    (lit "ex") (Some (lit "glenda")) 0 (fun b => len b) 64.

Lemma ex_plain : plain_srv ex_srv.
Proof. done. Qed.

(** A connection on which nothing happened yet, with buffers of 64 bytes. *)
Definition ex_idle : State Intmap :=
  mkState ∅ ∅ ∅ 1 allocmap allocmap 64 (Some (replicate 64 0)) None [] [] [].

(** The state after a message. *)
Definition after {A} (s : State Intmap) (r : res Intmap A) : State Intmap :=
  match r with Ok _ s' => s' | Crash _ _ => s end.

Lemma ex_idle_ok : srv_ok ex_idle.
Proof.
  destruct (allocmap_ok (M := Intmap)) as [Ho Hc]. split_and!; [exact Ho|exact Ho| | | |].
  - by exists (replicate 64 0).
  - done.
  - intros id p Hp. change (contents (allocmap (M := Intmap)) !! id = Some p) in Hp. by rewrite Hc in Hp.
  - intros t p Hp. change (contents (allocmap (M := Intmap)) !! t = Some p) in Hp. by rewrite Hc in Hp.
Qed.

Lemma fcall0_arrays : full_arrays fcall0.
Proof. done. Qed.

(** A table with one key. *)
Definition one_key (k p : Z) : Intmap := (caninsertkey (allocmap (M := Intmap)) k p).2.

Lemma one_key_ok k p : 0 <= k -> map_ok (one_key k p) /\ contents (one_key k p) = {[k := p]}.
Proof.
  intros Hk. destruct (allocmap_ok (M := Intmap)) as [Ho Hc].
  destruct (caninsertkey_ok (allocmap (M := Intmap)) k p Ho Hk) as (H1 & _ & H2). split; [done|].
  unfold one_key. rewrite H2, Hc. by rewrite bool_decide_true.
Qed.

(** A fid 7, open for reading, and a read of it with tag 3 that was not answered. *)
Definition ex_fid : Fid := fid0 <| fd_fid := 7 |> <| fd_ref := 2 |> <| fd_omode := 0 |>.
Definition ex_fcall : Fcall := fcall0 <| f_type := 116 |> <| f_tag := 3 |> <| f_fid := 7 |> <| f_count := 10 |>.
Definition ex_req : Req := (taken ex_fcall []) <| r_fid := Some 1 |>.

Definition ex_busy : State Intmap :=
  ex_idle <| s_fids := {[1 := ex_fid]} |> <| s_reqs := {[2 := ex_req]} |> <| s_next := 3 |>
          <| s_fpool := one_key 7 1 |> <| s_rpool := one_key 3 2 |>.

Lemma ex_busy_ok : srv_ok ex_busy.
Proof.
  destruct (one_key_ok 7 1) as [F1 F2]; [lia|]. destruct (one_key_ok 3 2) as [R1 R2]; [lia|].
  split_and!; [exact F1|exact R1| | | |].
  - by exists (replicate 64 0).
  - intros p Hp. change (3 <= p) in Hp. split; apply lookup_singleton_ne; lia.
  - intros id p Hp. change (contents (one_key 7 1) !! id = Some p) in Hp. rewrite F2 in Hp.
    apply lookup_singleton_Some in Hp as [<- <-]. by exists ex_fid.
  - intros t p Hp. change (contents (one_key 3 2) !! t = Some p) in Hp. rewrite R2 in Hp.
    apply lookup_singleton_Some in Hp as [<- <-]. by exists ex_req.
Qed.

(** The hypotheses of a theorem at one of these states. *)
Ltac run_example :=
  first [ apply ex_busy_ok | apply ex_idle_ok | apply fcall0_arrays | by_decide | reflexivity
        | discriminate | vm_compute; discriminate ].
