(* ===== verification/SrvProps.v ===== *)
(** * What a lib9p server does with the messages of its clients

    Theorems on [serve], the loop of [srv.c], applied to the bytes of one message in any sound
    state: what is written, what becomes of the request and the fids, and the messages that
    stop the process. *)

From Stdlib Require Import String.
From S2P Require Import Prelude Fcall Wire ConvS2M ConvM2S ConvDir Codec Intmap Lib9p File Pool Srv SrvRun SrvExample.

(** The fid a request names, for the requests that use an existing fid. *)
Definition msg_fid (m : msg) : option Z :=
  match m with
  | MTwalk f _ _ | MTopen f _ | MTcreate f _ _ _ | MTread f _ _ | MTwrite f _ _
  | MTclunk f | MTremove f | MTstat f | MTwstat f _ => Some f
  | _ => None
  end.

Lemma msg_of_fid f m id :
  msg_of f = Some m -> msg_fid m = Some id -> f_fid f = id /\ uses_fid (msg_type m) = true.
Proof.
  unfold msg_of. intros Hm Hi. destruct (mtype_of (f_type f)) as [t|]; [|done].
  destruct t; try (simplify_option_eq; done);
    try (destruct (_ <? _); [done|]);
    repeat (match type of Hm with mbind _ ?o = _ => destruct o; [|done]; cbn in Hm end);
    injection Hm as <-; cbn in Hi; try done; by injection Hi as <-.
Qed.

Section messages.
Context {KM : Type} `{KeyMap KM} (srv : Srv KM) (Hsrv : plain_srv srv).
Implicit Types (s : State KM).

(** The state after the fid of a new request was looked up without success, in a pool that is
    [fp] now. *)
Definition no_fid (s1 : State KM) (r : Z) (rq : Req) (fp : KM) : State KM :=
  s1 <| s_fpool := fp |> <| s_reqs := <[r := rq]> (s_reqs s1) |>.

Lemma error_undisturbed s f buf fp t e :
  srv_ok s -> owned (with_req s f buf) (s_next s) (taken f buf) ->
  contents (s_rpool (with_req s f buf)) = <[f_tag f := s_next s]> (contents (s_rpool s)) ->
  contents (s_rpool s) !! f_tag f = None ->
  map_ok fp -> contents fp = contents (s_fpool s) ->
  mtype_of (f_type f) = Some t -> uses_fid t = true ->
  wf_string e -> 9 + len e <= s_msize s ->
  exists s', respond srv (s_next s) (Some e)
      (no_fid (with_req s f buf) (s_next s) (taken f buf) fp) = Ok tt s' /\
    undisturbed s s' [encode (f_tag f) (MRerror e)].
Proof using Hsrv.
  intros Hok Hown Hcr Hnt Hfp Hcfp Ht Hu He Hms. pose proof Hok as (_ & _ & Hbuf & _).
  destruct (respond_error srv (no_fid (with_req s f buf) (s_next s) (taken f buf) fp) (s_next s)
    (taken f buf) e t) as (s' & E & R); try done.
  - destruct Hown as (_ & Hown). split; [apply lookup_insert_eq|exact Hown].
  - exists s'. split; [done|]. eapply replied_undisturbed; [done|done| |exact R].
    split_and!; try done. exists (taken f buf). cbn. by rewrite insert_insert_eq.
Qed.

(** The handler of a request with an unknown fid sends the error. *)
Lemma unknown_fid_error s f buf m id :
  srv_ok s -> owned (with_req s f buf) (s_next s) (taken f buf) ->
  contents (s_rpool (with_req s f buf)) = <[f_tag f := s_next s]> (contents (s_rpool s)) ->
  contents (s_rpool s) !! f_tag f = None ->
  msg_of f = Some m -> wf_msg m -> msg_fid m = Some id -> contents (s_fpool s) !! id = None ->
  20 <= s_msize s ->
  exists s', dispatch srv (s_next s) (with_req s f buf) = Ok tt s' /\
    undisturbed s s' [encode (f_tag f) (MRerror Eunknownfid)].
Proof using Hsrv.
  intros Hok Hown Hcr Hnt Hm Hwf Hi Hnf Hms. destruct (msg_of_fid f m id Hm Hi) as [Ef Hu].
  pose proof (msg_of_type f m Hm) as Ht.
  assert (0 <= id) as Hid by (destruct m; try done; injection Hi as <-; destruct Hwf as [_ Hwf]; range).
  pose proof Hok as (Hfm & _). assert (wf_string Eunknownfid) as He by by_decide.
  destruct (deletekey_ok (s_fpool s) id Hfm Hid) as (D1 & _ & D2).
  rewrite delete_id in D2 by done.
  pose proof (lookupfid_None (with_req s f buf) id Hfm Hid Hnf) as EL.
  pose proof (removefid_Ok (with_req s f buf) id None Hfm Hid Hnf) as ER.
  destruct (error_undisturbed s f buf (s_fpool s) _ Eunknownfid Hok Hown Hcr Hnt Hfm eq_refl Ht Hu He Hms)
    as (s1 & E1 & U1).
  destruct (error_undisturbed s f buf (deletekey (s_fpool s) id).2 _ Eunknownfid Hok Hown Hcr Hnt D1 D2
    Ht Hu He Hms) as (s2 & E2 & U2).
  unfold dispatch. run1. change (r_error (taken f buf)) with (@None bytes). cbn iota.
  change (f_type (r_ifcall (taken f buf))) with (f_type f). rewrite Ht.
  destruct m; try done; cbn [msg_type];
    (exists s1; split; [|done]; unfold swalk, sopen, screate, sread, swrite, sstat, swstat;
     run1; cbv zeta; rewrite (eq_refl : f_fid (r_ifcall (taken f buf)) = f_fid f), Ef;
     erewrite bind_Ok; [|exact EL]; run1; exact E1)
    || (exists s2; split; [|done]; unfold sclunk, sremove;
     run1; rewrite (eq_refl : f_fid (r_ifcall (taken f buf)) = f_fid f), Ef;
     erewrite bind_Ok; [|exact ER]; run1; exact E2).
Qed.

(** C27: a request on a fid that is not in use, whatever the request, is answered with the
    error "unknown fid" under its tag, and leaves the fids, the files, the tags in use and
    the state's soundness as they were. *)
Theorem serve_unknown_fid s junk tag m id :
  srv_ok s -> full_arrays junk -> wf_msg m -> in_u 16 tag -> msg_fid m = Some id ->
  contents (s_rpool s) !! tag = None -> contents (s_fpool s) !! id = None -> 20 <= s_msize s ->
  exists s', serve srv junk [encode tag m] s = Ok tt s' /\
    undisturbed s s' [encode tag (MRerror Eunknownfid)].
Proof using Hsrv.
  intros Hok Hj Hwf Ht Hi Hnt Hnf Hms.
  destruct (getreq_Ok srv s junk tag m Hok Hwf Ht Hj Hnt) as (f & buf & Hm & <- & E & Hown & Hc).
  destruct (unknown_fid_error s f buf m id) as (s' & Ed & U); [done..|].
  exists s'. split; [|done]. cbn [serve]. erewrite bind_Ok; [|exact E]. cbn iota.
  erewrite bind_Ok; [|exact Ed]. done.
Qed.

(** ** Version negotiation *)

Lemma changemsize_Ok s k :
  buffered s -> 0 <= k < 2 ^ 31 ->
  exists w, len w = k /\
    changemsize k s = Ok tt (s <| s_msize := k |> <| s_wbuf := Some w |>).
Proof.
  intros (w & Hw & Hl) Hk. unfold changemsize. run1. cbn beta. rewrite Hw.
  rewrite bool_decide_true by done. rewrite wrap_small by range. cbn [andb].
  destruct (Z.eqb_spec (s_msize s) k) as [<-|Hne].
  - exists w. split; [done|]. unfold mret, comp_ret. rewrite <- Hw. done.
  - exists (replicate (Z.to_nat k) 0). split; [rewrite length_replicate; lia|].
    run1. destruct (Z.ltb_spec k 0); [lia|]. done.
Qed.

(** The two assignments of [sversion] to the reply. *)
Definition with_version (f : Fcall) (buf : bytes) (v : bytes) (k : Z) : Req :=
  (taken f buf) <| r_ofcall := fcall0 <| f_version := Some v |> <| f_msize := k |> |>.

Definition versioned (s : State KM) (f : Fcall) (buf v : bytes) (k : Z) : State KM :=
  (with_req s f buf) <| s_reqs := <[s_next s := with_version f buf v k]> (s_reqs s) |>.

Lemma sversion_run s f buf k v :
  msg_of f = Some (MTversion k v) -> v <> [] ->
  dispatch srv (s_next s) (with_req s f buf)
  = respond srv (s_next s) None
      (if bool_decide (take 6 v = lit "9P2000") then versioned s f buf (lit "9P2000") k
       else versioned s f buf (lit "unknown") 0).
Proof.
  intros Hm Hv. pose proof (msg_of_type f _ Hm) as Ht. cbn [msg_type] in Ht.
  unfold msg_of in Hm. rewrite Ht in Hm. injection Hm as Hk Hv'.
  unfold dispatch. run1. change (r_error (taken f buf)) with (@None bytes). cbn iota.
  change (f_type (r_ifcall (taken f buf))) with (f_type f). rewrite Ht. unfold sversion. run1.
  change (r_ifcall (taken f buf)) with f.
  destruct (f_version f) as [v0|]; [|by destruct Hv]. cbn [str_bytes from_option] in Hv'. subst v.
  erewrite bind_Ok; [|apply str_Ok].
  case_bool_decide; cbn [negb]; unfold ofcall; run1; f_equal; unfold versioned, with_req; cbn;
    rewrite insert_insert_eq, ?Hk; reflexivity.
Qed.

Lemma version_owned s f buf v k :
  owned (with_req s f buf) (s_next s) (taken f buf) ->
  owned (versioned s f buf v k) (s_next s) (with_version f buf v k).
Proof. intros (_ & Ho). split; [apply lookup_insert_eq|exact Ho]. Qed.

Lemma rversion_run s f buf k k' v v' :
  msg_of f = Some (MTversion k' v') ->
  rversion (s_next s) None (versioned s f buf v k)
  = changemsize (s32 k) (versioned s f buf v k).
Proof.
  intros Hm. unfold rversion. run1. erewrite bind_Ok; [|apply req_at_Ok, lookup_insert_eq]. done.
Qed.

Lemma rswitch_version s f buf k k' v v' :
  msg_of f = Some (MTversion k' v') ->
  rswitch srv (s_next s) None (versioned s f buf v k)
  = (rversion (s_next s) None;; mret true) (versioned s f buf v k).
Proof.
  intros Hm. pose proof (msg_of_type f _ Hm) as Ht. cbn [msg_type] in Ht.
  unfold rswitch. erewrite bind_Ok; [|apply req_at_Ok, lookup_insert_eq].
  change (f_type (r_ifcall (with_version f buf v k))) with (f_type f). by rewrite Ht.
Qed.

Lemma version_respond s f buf v k :
  respond srv (s_next s) None (versioned s f buf v k) =
  (go ← rswitch srv (s_next s) None;
   if negb go then mret tt
   else go ← send srv (s_next s);
        if negb go then mret tt
        else release srv (respond_fuel srv (size (s_reqs (versioned s f buf v k)))) (s_next s))
  (versioned s f buf v k).
Proof.
  erewrite respond_eq; [|apply lookup_insert_eq|done]. f_equal.
  unfold versioned. cbn. by rewrite insert_insert_eq.
Qed.

(** Unchanged but for the size of messages. *)
Definition renegotiated (s s' : State KM) (k : Z) (msgs : list bytes) : Prop :=
  undisturbed (s <| s_msize := k |>) s' msgs.

(** A Tversion for 9P2000 (or a variant of it) with a message size that can hold the
    reply is answered with 9P2000 and the size the client asked for, which the server uses
    from then on, for its buffer, too. *)
Theorem serve_version s junk tag k v :
  srv_ok s -> full_arrays junk -> wf_msg (MTversion k v) -> in_u 16 tag ->
  contents (s_rpool s) !! tag = None -> take 6 v = lit "9P2000" -> 19 <= k < 2 ^ 31 ->
  exists s', serve srv junk [encode tag (MTversion k v)] s = Ok tt s' /\
    renegotiated s s' k [encode tag (MRversion k (lit "9P2000"))].
Proof using Hsrv.
  intros Hok Hj Hwf Ht Hnt Hv Hk.
  destruct (getreq_Ok srv s junk tag _ Hok Hwf Ht Hj Hnt) as (f & buf & Hm & <- & E & Hown & Hc).
  pose proof Hok as (Hfm & Hrm & Hbuf & Hfr & Hfid & Hreq).
  assert (v <> []) as Hne by (by intros ->).
  pose proof (msg_of_type f _ Hm) as Hty. cbn [msg_type] in Hty.
  pose (s1 := versioned s f buf (lit "9P2000") k).
  destruct (changemsize_Ok s1 k Hbuf ltac:(lia)) as (w & Hlw & Ech).
  pose (s2 := s1 <| s_msize := k |> <| s_wbuf := Some w |>).
  destruct (respond_owned srv s1 (s_next s) (with_version f buf (lit "9P2000") k) None s2
    (with_version f buf (lit "9P2000") k) (MRversion k (lit "9P2000"))) as (s' & Er & R);
    [done|apply lookup_insert_eq|done| | | | | | | |].
  - replace (s1 <| s_reqs := _ |>) with s1.
    2: { unfold s1, versioned. cbn. by rewrite insert_insert_eq. }
    unfold s1. rewrite (rswitch_version s f buf k k _ v) by done.
    erewrite bind_Ok; [reflexivity|]. rewrite (rversion_run s f buf k k _ v) by done.
    rewrite swrap_small by (lia || range). exact Ech.
  - destruct (version_owned s f buf (lit "9P2000") k Hown) as (_ & Ho).
    split; [apply lookup_insert_eq|exact Ho].
  - exists w. done.
  - done.
  - unfold reply_of, msg_of. cbn. rewrite (mtype_of_inv _ _ Hty). done.
  - change (19 < 2 ^ 31). lia.
  - change (19 <= k). lia.
  - exists s'. split.
    + cbn [serve]. erewrite bind_Ok; [|exact E]. cbn iota.
      erewrite bind_Ok; [reflexivity|]. rewrite (sversion_run s f buf k v) by done.
      rewrite bool_decide_true by done. exact Er.
    + assert (undisturbed (s <| s_msize := k |> <| s_wbuf := Some w |>) s'
        [encode (f_tag f) (MRversion k (lit "9P2000"))]) as U; [|exact U].
      eapply replied_undisturbed; [|exact Hnt| |exact R].
      * split_and!; try done. by exists w.
      * split_and!; try done. by eexists.
Qed.

Lemma version_abort s f buf k k' v v' :
  srv_ok s -> msg_of f = Some (MTversion k' v') -> 0 <= k < 2 ^ 31 ->
  wf_string v -> k < 13 + len v ->
  exists s', respond srv (s_next s) None (versioned s f buf v k) = Crash Aborted s'.
Proof using Hsrv.
  intros Hok Hm Hk (Hb & Hz & Hv) Hlt. pose proof Hok as (_ & _ & Hbuf & _).
  pose proof (msg_of_type f _ Hm) as Hty. cbn [msg_type] in Hty.
  destruct (changemsize_Ok (versioned s f buf v k) k Hbuf Hk) as (w & Hlw & Ech).
  destruct (send_abort srv ((versioned s f buf v k) <| s_msize := k |> <| s_wbuf := Some w |>)
    (s_next s) (with_version f buf v k) (MRversion k v)) as (s' & Es).
  - apply Hsrv.
  - apply lookup_insert_eq.
  - by exists w.
  - unfold reply_of, msg_of. cbn. rewrite (mtype_of_inv _ _ Hty). cbn. by rewrite c_str_id.
  - unfold msg_size. cbn [encode_body]. rewrite length_app, PBIT32_length.
    rewrite Nat2Z.inj_add, estring_len. unfold BIT32SZ, BIT8SZ, BIT16SZ. range.
  - change (k < msg_size (MRversion k v)). unfold msg_size. cbn [encode_body].
    rewrite length_app, PBIT32_length, Nat2Z.inj_add, estring_len.
    unfold BIT32SZ, BIT8SZ, BIT16SZ. lia.
  - exists s'. rewrite version_respond. erewrite bind_Ok; cycle 1.
    { rewrite (rswitch_version s f buf k k' _ v') by done.
      erewrite bind_Ok; [reflexivity|]. rewrite (rversion_run s f buf k k' _ v') by done.
      rewrite swrap_small by (lia || range). exact Ech. }
    cbn [negb]. erewrite bind_Crash; [done|exact Es].
Qed.

(** Three kinds of Tversion stop the server: a version that is not 9P2000 (the reply
    leaves [msize] at 0, and the buffer with it), a message size below that of the reply,
    and one from 2^31 on, which is negative as an [int]. *)
Theorem serve_version_crash s junk tag k v :
  srv_ok s -> full_arrays junk -> wf_msg (MTversion k v) -> in_u 16 tag ->
  contents (s_rpool s) !! tag = None -> v <> [] ->
  (take 6 v <> lit "9P2000" ->
   exists s', serve srv junk [encode tag (MTversion k v)] s = Crash Aborted s') /\
  (take 6 v = lit "9P2000" -> k < 19 ->
   exists s', serve srv junk [encode tag (MTversion k v)] s = Crash Aborted s') /\
  (take 6 v = lit "9P2000" -> 2 ^ 31 <= k -> s_msize s < 2 ^ 31 ->
   exists s', serve srv junk [encode tag (MTversion k v)] s = Crash SysFatal s').
Proof using Hsrv.
  intros Hok Hj Hwf Ht Hnt Hne. assert (in_u 32 k) as Hk by apply Hwf.
  destruct (getreq_Ok srv s junk tag _ Hok Hwf Ht Hj Hnt) as (f & buf & Hm & <- & E & Hown & Hc).
  pose proof (sversion_run s f buf k v Hm Hne) as Ed.
  assert (forall c s', dispatch srv (s_next s) (with_req s f buf) = Crash c s' ->
    serve srv junk [encode (f_tag f) (MTversion k v)] s = Crash c s') as Hserve.
  { intros c s' Ec. cbn [serve]. erewrite bind_Ok; [|exact E]. cbn iota.
    erewrite bind_Crash; [done|exact Ec]. }
  split_and!.
  - intros Hv. rewrite bool_decide_false in Ed by done.
    destruct (version_abort s f buf 0 k (lit "unknown") v Hok Hm) as (s' & Ea); [lia|by_decide|by_decide|].
    exists s'. apply Hserve. by rewrite Ed.
  - intros Hv Hlt. rewrite bool_decide_true in Ed by done.
    destruct (version_abort s f buf k k (lit "9P2000") v Hok Hm) as (s' & Ea);
      [range|by_decide|exact Hlt|].
    exists s'. apply Hserve. by rewrite Ed.
  - intros Hv Hge Hs. rewrite bool_decide_true in Ed by done. eexists. apply Hserve. rewrite Ed.
    rewrite version_respond. erewrite bind_Crash; [reflexivity|].
    rewrite (rswitch_version s f buf k k _ v) by done. erewrite bind_Crash; [reflexivity|].
    rewrite (rversion_run s f buf k k _ v) by done.
    destruct Hok as (_ & _ & (w & Hw & Hl) & _).
    assert (s32 k = k - 2 ^ 32) as ->.
    { unfold swrap. rewrite Z.mod_small by range. destruct (Z.ltb_spec k (2 ^ (32 - 1))); lia. }
    unfold changemsize. run1. cbn beta. change (s_wbuf (versioned s f buf _ k)) with (s_wbuf s).
    change (s_msize (versioned s f buf _ k)) with (s_msize s). rewrite Hw.
    rewrite bool_decide_true by done. unfold wrap.
    rewrite <- (Zmod_unique_full _ (2 ^ 32) (-1) k); [|left; range|lia]. cbn [andb].
    destruct (Z.eqb_spec (s_msize s) k); [lia|]. run1.
    destruct (Z.ltb_spec (k - 2 ^ 32) 0); [reflexivity|range].
Qed.

(** ** Duplicate tags and messages that are not requests *)

(** A request whose tag is still in use is answered with the error "duplicate tag" and has
    no other effect, in particular none on the request that uses the tag. *)
Theorem serve_dup_tag s junk tag m q :
  srv_ok s -> full_arrays junk -> wf_msg m -> in_u 16 tag -> fails_well (msg_type m) = true ->
  contents (s_rpool s) !! tag = Some q -> 22 <= s_msize s ->
  exists s', serve srv junk [encode tag m] s = Ok tt s' /\
    undisturbed s s' [encode tag (MRerror Eduptag)].
Proof using Hsrv.
  intros Hok Hj Hwf Ht Hfw Hq Hms.
  destruct (getreq_dup srv s junk tag m q) as (f & buf & Hm & <- & E); [done..|apply Hsrv|].
  destruct (respond_dup srv s f buf (msg_type m) q Eduptag) as (s' & Er & U);
    [done|done|by apply msg_of_type|done..|by_decide|exact Hms|].
  exists s'. split; [|done]. cbn [serve]. erewrite bind_Ok; [|exact E]. cbn iota.
  erewrite bind_Ok; [reflexivity|]. unfold dispatch.
  erewrite bind_Ok; [|apply req_at_Ok, lookup_insert_eq]. exact Er.
Qed.

(** The same mistake with a Tversion or a Tflush stops the server: the error reaches an
    assertion that there is none. *)
Theorem serve_dup_tag_crash s junk tag m q :
  srv_ok s -> full_arrays junk -> wf_msg m -> in_u 16 tag ->
  msg_type m = Tversion \/ msg_type m = Tflush -> contents (s_rpool s) !! tag = Some q ->
  exists s', serve srv junk [encode tag m] s = Crash AssertFailed s'.
Proof using Hsrv.
  intros Hok Hj Hwf Ht Hty Hq.
  destruct (getreq_dup srv s junk tag m q) as (f & buf & Hm & <- & E); [done..|apply Hsrv|].
  eexists. cbn [serve]. erewrite bind_Ok; [|exact E]. cbn iota.
  erewrite bind_Crash; [reflexivity|]. unfold dispatch.
  erewrite bind_Ok; [|apply req_at_Ok, lookup_insert_eq]. cbn iota.
  change (r_error (duplicate f buf)) with (Some Eduptag). cbn iota.
  erewrite respond_eq; [|apply lookup_insert_eq|done]. erewrite bind_Crash; [reflexivity|].
  unfold rswitch. erewrite bind_Ok; [|apply req_at_Ok, lookup_insert_eq].
  change (f_type (r_ifcall _)) with (f_type f). rewrite (msg_of_type f m Hm).
  destruct Hty as [-> | ->]; [|done]. by erewrite bind_Crash.
Qed.

(** The requests the loop knows. *)
Definition is_request (t : mtype) : bool :=
  fails_well t || bool_decide (t = Tversion) || bool_decide (t = Tflush).

(** Any message that unpacks and is not a request the loop knows (a reply sent to the
    server, or a Topenfd) stops the server: [respond] asserts that it knows the type. *)
Theorem serve_not_request s junk tag m :
  srv_ok s -> full_arrays junk -> wf_msg m -> in_u 16 tag -> is_request (msg_type m) = false ->
  exists s', serve srv junk [encode tag m] s = Crash AssertFailed s'.
Proof using Hsrv.
  intros Hok Hj Hwf Ht Hty.
  assert (forall f s1 r rq e, msg_of f = Some m -> s_reqs s1 !! r = Some rq -> r_ifcall rq = f ->
    r_responded rq = false -> exists s', respond srv r (Some e) s1 = Crash AssertFailed s') as Hr.
  { intros f s1 r rq e Hm Hr <- Hn. eexists. rewrite (respond_eq srv s1 r rq) by done.
    erewrite bind_Crash; [reflexivity|]. unfold rswitch.
    erewrite bind_Ok; [|apply req_at_Ok, lookup_insert_eq].
    change (f_type (r_ifcall (rq <| r_error := Some e |>))) with (f_type (r_ifcall rq)).
    rewrite (msg_of_type _ m Hm). by destruct (msg_type m). }
  destruct (contents (s_rpool s) !! tag) as [q|] eqn:Hq.
  - destruct (getreq_dup srv s junk tag m q) as (f & buf & Hm & <- & E); [done..|apply Hsrv|].
    destruct (Hr f (with_dup s f buf) (s_next s + 1) (duplicate f buf) Eduptag) as (s' & Er);
      [done|apply lookup_insert_eq|done..|].
    exists s'. cbn [serve]. erewrite bind_Ok; [|exact E]. cbn iota.
    erewrite bind_Crash; [reflexivity|]. unfold dispatch.
    erewrite bind_Ok; [|apply req_at_Ok, lookup_insert_eq]. exact Er.
  - destruct (getreq_Ok srv s junk tag m Hok Hwf Ht Hj Hq) as (f & buf & Hm & <- & E & _).
    destruct (Hr f (with_req s f buf) (s_next s) (taken f buf) (lit "unknown message")) as (s' & Er);
      [done|apply lookup_insert_eq|done..|].
    exists s'. cbn [serve]. erewrite bind_Ok; [|exact E]. cbn iota.
    erewrite bind_Crash; [reflexivity|]. unfold dispatch.
    erewrite bind_Ok; [|apply req_at_Ok, lookup_insert_eq].
    change (r_error (taken f buf)) with (@None bytes). cbn iota.
    change (f_type (r_ifcall (taken f buf))) with (f_type f). rewrite (msg_of_type f m Hm).
    by destruct (msg_type m).
Qed.
End messages.

(** ** The theorems at work *)

Lemma serve_unknown_fid_witness :
  exists s', serve ex_srv fcall0 [encode 5 (MTclunk 9)] ex_busy = Ok tt s' /\
    undisturbed ex_busy s' [encode 5 (MRerror Eunknownfid)].
Proof.
  apply (serve_unknown_fid ex_srv ex_plain ex_busy fcall0 5 (MTclunk 9) 9); run_example.
Defined.

Lemma serve_version_witness :
  exists s', serve ex_srv fcall0 [encode NOTAG (MTversion 8192 (lit "9P2000.u"))] ex_idle = Ok tt s' /\
    renegotiated ex_idle s' 8192 [encode NOTAG (MRversion 8192 (lit "9P2000"))].
Proof.
  apply (serve_version ex_srv ex_plain ex_idle fcall0 NOTAG 8192 (lit "9P2000.u")); run_example.
Defined.

Lemma serve_version_crash_witness :
  exists s', serve ex_srv fcall0 [encode NOTAG (MTversion 8192 (lit "9P1776"))] ex_idle = Crash Aborted s'.
Proof.
  apply (proj1 (serve_version_crash ex_srv ex_plain ex_idle fcall0 NOTAG 8192 (lit "9P1776")
    ltac:(run_example) ltac:(run_example) ltac:(run_example) ltac:(run_example)
    ltac:(run_example) ltac:(run_example))). run_example.
Defined.

Lemma serve_dup_tag_witness :
  exists s', serve ex_srv fcall0 [encode 3 (MTclunk 7)] ex_busy = Ok tt s' /\
    undisturbed ex_busy s' [encode 3 (MRerror Eduptag)].
Proof.
  apply (serve_dup_tag ex_srv ex_plain ex_busy fcall0 3 (MTclunk 7) 2); run_example.
Defined.

Lemma serve_dup_tag_crash_witness :
  exists s', serve ex_srv fcall0 [encode 3 (MTflush 3)] ex_busy = Crash AssertFailed s'.
Proof.
  apply (serve_dup_tag_crash ex_srv ex_plain ex_busy fcall0 3 (MTflush 3) 2);
    first [ by right | run_example ].
Defined.

Lemma serve_not_request_witness :
  exists s', serve ex_srv fcall0 [encode 4 MRclunk] ex_busy = Crash AssertFailed s'.
Proof. apply (serve_not_request ex_srv ex_plain ex_busy fcall0 4 MRclunk); run_example. Defined.
