(* ===== verification/SrvFlush.v ===== *)
(** * Flushing requests

    Tflush in [lib9p/srv.c]: the reply to a flush is delayed until the request it flushes has
    been answered. *)

From Stdlib Require Import String.
From S2P Require Import Prelude Fcall Wire ConvS2M ConvM2S ConvDir Codec Intmap Lib9p File Pool Srv SrvRun SrvExample.

Section flush.
Context {KM : Type} `{KeyMap KM} (srv : Srv KM) (Hsrv : plain_srv srv).
Implicit Types (s : State KM).

Lemma lookupreq_None s tag :
  map_ok (s_rpool s) -> 0 <= tag -> contents (s_rpool s) !! tag = None -> lookupreq tag s = Ok None s.
Proof. intros Hm Ht Hn. unfold lookupreq. run1. cbn beta. by rewrite lookupkey_ok, Hn. Qed.

Lemma lookupreq_Some s tag p rq :
  map_ok (s_rpool s) -> 0 <= tag -> contents (s_rpool s) !! tag = Some p ->
  s_reqs s !! p = Some rq ->
  lookupreq tag s
  = Ok (Some p) (s <| s_reqs := <[p := rq <| r_ref := r_ref rq + 1 |>]> (s_reqs s) |>).
Proof.
  intros Hm Ht Hp Hr. unfold lookupreq. run1. cbn beta. rewrite lookupkey_ok, Hp by done.
  unfold increqref. by run1.
Qed.

Lemma oldtag_of f t : msg_of f = Some (MTflush t) -> f_oldtag f = t /\ mtype_of (f_type f) = Some Tflush.
Proof.
  intros Hm. pose proof (msg_of_type f _ Hm) as Ht. cbn [msg_type] in Ht. split; [|done].
  unfold msg_of in Hm. rewrite Ht in Hm. by injection Hm.
Qed.

(** The reply to a flush that has nothing to wait for. *)
Lemma respond_flush n s r rq :
  owned s r rq -> mtype_of (f_type (r_ifcall rq)) = Some Tflush -> r_responded rq = false ->
  r_ofcall rq = fcall0 -> buffered s -> closable s (r_fid rq) -> 7 <= s_msize s ->
  exists s', respond_fuel srv (S n) r None s = Ok tt s' /\
    replied s s' r (r_fid rq) (f_tag (r_ifcall rq)) MRflush.
Proof using Hsrv.
  intros Hown Ht Hn Ho Hbuf Hcl Hms. pose proof Hown as (Hr & Hp & Href & Hfl & Hold & Hown').
  set (rq1 := rq <| r_error := None |>).
  set (s1 := s <| s_reqs := <[r := rq1]> (s_reqs s) |>).
  destruct (respond_fuel_owned srv n s r rq None s1 rq1 MRflush) as (s' & E & R); try done.
  - unfold rswitch. erewrite bind_Ok; [|apply req_at_Ok, lookup_insert_eq].
    change (f_type (r_ifcall (rq <| r_error := None |>))) with (f_type (r_ifcall rq)). rewrite Ht.
    unfold rflush. run1. erewrite bind_Ok; [|apply req_at_Ok, lookup_insert_eq].
    change (r_oldreq (rq <| r_error := None |>)) with (r_oldreq rq). rewrite Hold.
    erewrite bind_Ok; [|apply upd_req_Ok, lookup_insert_eq]. unfold mret, comp_ret, s1.
    replace (rq1 <| r_oldreq := None |>) with rq1
      by (unfold rq1; clear -Hold; destruct rq; cbn in Hold; by subst).
    cbn. by rewrite insert_insert_eq.
  - split; [apply lookup_insert_eq|]. exact (conj Hp (conj Href (conj Hfl (conj Hold Hown')))).
  - clear -Ho Ht. destruct rq as [? ? i o]. cbn in Ho, Ht. subst o. apply mtype_of_inv in Ht.
    unfold reply_of. cbn. by rewrite Ht.
  - exists s'. split; [done|]. by eapply replied_reqs.
Qed.

(** A flush of a tag that is not in use is answered at once and changes nothing. *)
Theorem serve_flush_unknown s junk tag oldtag :
  srv_ok s -> full_arrays junk -> in_u 16 tag -> in_u 16 oldtag -> tag <> oldtag ->
  contents (s_rpool s) !! tag = None -> contents (s_rpool s) !! oldtag = None -> 7 <= s_msize s ->
  exists s', serve srv junk [encode tag (MTflush oldtag)] s = Ok tt s' /\
    undisturbed s s' [encode tag MRflush].
Proof using Hsrv.
  intros Hok Hj Ht Hot Hne Hnt Hno Hms. pose proof Hok as (_ & _ & Hbuf & _).
  assert (wf_msg (MTflush oldtag)) as Hwf by (split; [by_decide|done]).
  destruct (getreq_Ok srv s junk tag _ Hok Hwf Ht Hj Hnt) as (f & buf & Hm & <- & E & Hown & Hc).
  destruct (oldtag_of f oldtag Hm) as [Eo Ety]. pose proof Hown as (_ & Ho).
  set (s1 := (with_req s f buf) <| s_reqs := <[s_next s := taken f buf]> (s_reqs (with_req s f buf)) |>).
  destruct (respond_flush (size (s_reqs s1)) s1 (s_next s) (taken f buf)) as (s' & Er & R); try done.
  { split; [apply lookup_insert_eq|exact Ho]. }
  exists s'. split.
  - cbn [serve]. erewrite bind_Ok; [|exact E]. cbn iota. erewrite bind_Ok; [reflexivity|].
    unfold dispatch. erewrite bind_Ok; [|apply req_at_Ok, lookup_insert_eq].
    change (r_error (taken f buf)) with (@None bytes). cbn iota.
    change (f_type (r_ifcall (taken f buf))) with (f_type f). rewrite Ety. unfold sflush.
    erewrite bind_Ok; [|apply req_at_Ok, lookup_insert_eq].
    change (f_oldtag (r_ifcall (taken f buf))) with (f_oldtag f). rewrite Eo.
    erewrite bind_Ok; [|apply lookupreq_None; [apply Ho|range|by rewrite Hc, lookup_insert_ne]].
    erewrite bind_Ok; [|apply upd_req_Ok, lookup_insert_eq].
    rewrite bool_decide_true by done. cbn [orb]. unfold respond. run1. exact Er.
  - eapply replied_undisturbed; [exact Hok|exact Hnt| |exact R]. split_and!; try done.
    + exists (taken f buf). cbn. by rewrite insert_insert_eq.
    + apply Hok.
Qed.

(** A flush of its own tag is never answered: [sflush] means to answer it at once, but
    [rflush] finds the old request, which is the flush itself, without a response and queues
    the flush behind itself. Its tag stays in use. *)
Theorem serve_flush_self s junk tag :
  srv_ok s -> full_arrays junk -> in_u 16 tag -> contents (s_rpool s) !! tag = None ->
  exists s' rq, serve srv junk [encode tag (MTflush tag)] s = Ok tt s' /\
    s_out s' = s_out s /\ contents (s_rpool s') !! tag = Some (s_next s) /\
    s_reqs s' !! s_next s = Some rq /\ r_responded rq = false /\ r_flush rq = [s_next s].
Proof.
  intros Hok Hj Ht Hnt.
  assert (wf_msg (MTflush tag)) as Hwf by (split; [by_decide|done]).
  destruct (getreq_Ok srv s junk tag _ Hok Hwf Ht Hj Hnt) as (f & buf & Hm & <- & E & Hown & Hc).
  destruct (oldtag_of f _ Hm) as [Eo Ety]. pose proof Hown as (_ & Ho).
  do 2 eexists. split.
  - cbn [serve]. erewrite bind_Ok; [|exact E]. cbn iota. erewrite bind_Ok; [reflexivity|].
    unfold dispatch. erewrite bind_Ok; [|apply req_at_Ok, lookup_insert_eq].
    change (r_error (taken f buf)) with (@None bytes). cbn iota.
    change (f_type (r_ifcall (taken f buf))) with (f_type f). rewrite Ety. unfold sflush.
    erewrite bind_Ok; [|apply req_at_Ok, lookup_insert_eq].
    change (f_oldtag (r_ifcall (taken f buf))) with (f_oldtag f). rewrite Eo.
    erewrite bind_Ok; [|apply lookupreq_Some; [apply Ho|range|rewrite Hc; apply lookup_insert_eq
      |apply lookup_insert_eq]].
    erewrite bind_Ok; [|apply upd_req_Ok, lookup_insert_eq].
    rewrite (bool_decide_true (Some (s_next s) = Some (s_next s))), orb_true_r by done.
    erewrite respond_eq; [|apply lookup_insert_eq|done].
    unfold rswitch. erewrite bind_Ok; cycle 1.
    + erewrite bind_Ok; [|apply req_at_Ok, lookup_insert_eq].
      match goal with |- context [f_type (r_ifcall ?q)] => change (f_type (r_ifcall q)) with (f_type f) end.
      rewrite Ety. unfold rflush. run1.
      erewrite bind_Ok; [|apply req_at_Ok, lookup_insert_eq].
      match goal with |- context [r_oldreq ?q] => change (r_oldreq q) with (Some (s_next s)) end.
      cbn iota. erewrite bind_Ok; [|apply req_at_Ok, lookup_insert_eq].
      match goal with |- context [r_responded ?q] => change (r_responded q) with false end.
      cbn [negb]. run1. reflexivity.
    + reflexivity.
  - split_and!; try done.
    + cbn. exact (eq_trans (f_equal (lookup (f_tag f)) Hc) (lookup_insert_eq _ _ _)).
    + apply lookup_insert_eq.
    + done.
    + done.
Qed.

(** ** Flushes that wait *)

(** A flush of a request that has not been answered is not answered either: it is put at
    the end of the list of the request it flushes, which gets one more reference. *)
Theorem serve_flush_pending s junk tag oldtag q oq :
  srv_ok s -> full_arrays junk -> in_u 16 tag -> in_u 16 oldtag -> srv_flush srv = None ->
  contents (s_rpool s) !! tag = None -> contents (s_rpool s) !! oldtag = Some q ->
  s_reqs s !! q = Some oq -> r_responded oq = false ->
  exists s' f, serve srv junk [encode tag (MTflush oldtag)] s = Ok tt s' /\
    s_out s' = s_out s /\ contents (s_rpool s') = <[tag := s_next s]> (contents (s_rpool s)) /\
    s_reqs s' !! s_next s = Some f /\ f_tag (r_ifcall f) = tag /\ r_oldreq f = Some q /\
    s_reqs s' !! q = Some (oq <| r_ref := r_ref oq + 1 |> <| r_flush := r_flush oq ++ [s_next s] |>).
Proof.
  intros Hok Hj Ht Hot Hnf Hnt Hq Hoq Hre.
  assert (wf_msg (MTflush oldtag)) as Hwf by (split; [by_decide|done]).
  assert (s_next s <> q) as Hne.
  { intros <-. destruct Hok as (_ & _ & _ & Hfr & _). destruct (Hfr (s_next s)) as [Hx _]; [lia|].
    congruence. }
  assert (tag <> oldtag) by congruence.
  destruct (getreq_Ok srv s junk tag _ Hok Hwf Ht Hj Hnt) as (f & buf & Hm & <- & E & Hown & Hc).
  destruct (oldtag_of f _ Hm) as [Eo Ety]. pose proof Hown as (_ & Ho).
  do 2 eexists. split.
  - cbn [serve]. erewrite bind_Ok; [|exact E]. cbn iota. erewrite bind_Ok; [reflexivity|].
    unfold dispatch. erewrite bind_Ok; [|apply req_at_Ok, lookup_insert_eq].
    change (r_error (taken f buf)) with (@None bytes). cbn iota.
    change (f_type (r_ifcall (taken f buf))) with (f_type f). rewrite Ety. unfold sflush.
    erewrite bind_Ok; [|apply req_at_Ok, lookup_insert_eq].
    change (f_oldtag (r_ifcall (taken f buf))) with (f_oldtag f). rewrite Eo.
    erewrite bind_Ok; [|eapply lookupreq_Some; [apply Ho|range|by rewrite Hc, lookup_insert_ne
      |cbn; by rewrite lookup_insert_ne]].
    erewrite bind_Ok; [|apply upd_req_Ok; look].
    rewrite !bool_decide_false by congruence. cbn [orb]. rewrite Hnf. unfold call.
    erewrite respond_eq; [|apply lookup_insert_eq|done].
    unfold rswitch. erewrite bind_Ok; cycle 1.
    + erewrite bind_Ok; [|apply req_at_Ok, lookup_insert_eq].
      match goal with |- context [f_type (r_ifcall ?q)] => change (f_type (r_ifcall q)) with (f_type f) end.
      rewrite Ety. unfold rflush. run1.
      erewrite bind_Ok; [|apply req_at_Ok, lookup_insert_eq].
      match goal with |- context [r_oldreq ?x] => change (r_oldreq x) with (Some q) end.
      cbn iota. run1.
      match goal with |- context [r_responded ?q] => change (r_responded q) with (r_responded oq) end.
      rewrite Hre. cbn [negb]. run1. reflexivity.
    + reflexivity.
  - split_and!; try done; look.
Qed.

(** A flush that waits for another request and has nobody waiting for it. *)
Definition waiting (s : State KM) (f tag : Z) : Prop :=
  exists fq, s_reqs s !! f = Some fq /\ r_pool fq = true /\ r_ref fq = 2 /\ r_flush fq = [] /\
    r_newfid fq = None /\ r_afid fq = None /\ r_fid fq = None /\ r_responded fq = false /\
    r_ofcall fq = fcall0 /\ mtype_of (f_type (r_ifcall fq)) = Some Tflush /\
    f_tag (r_ifcall fq) = tag /\ in_u 16 tag /\ contents (s_rpool s) !! tag = Some f.

(** What answering the waiting flushes does. *)
Definition flushed (s s' : State KM) (fs tags : list Z) : Prop :=
  s_reqs s' = foldl (fun m f => delete f m) (s_reqs s) fs /\ s_fids s' = s_fids s /\
  s_files s' = s_files s /\ s_log s' = s_log s /\ s_fpool s' = s_fpool s /\ map_ok (s_rpool s') /\
  contents (s_rpool s') = foldl (fun m t => delete t m) (contents (s_rpool s)) tags /\
  s_out s' = s_out s ++ map (fun t => encode t MRflush) tags /\ s_msize s' = s_msize s /\
  buffered s' /\ s_tree s' = s_tree s /\ s_next s' = s_next s.

Lemma waiting_frame s s' f0 tag0 m f tag :
  replied s s' f0 None tag0 m -> contents (s_rpool s) !! tag0 = Some f0 -> f <> f0 ->
  waiting s f tag -> waiting s' f tag.
Proof.
  intros (E & _ & _ & _ & _ & _ & Ec & _) Hf0 Hne (fq & Hf & W). exists fq.
  rewrite E, Ec, lookup_delete_ne by done. split; [done|].
  destruct W as (? & ? & ? & ? & ? & ? & ? & ? & ? & ? & ? & Hc). split_and!; try done; try range.
  rewrite lookup_delete_ne; [done|congruence].
Qed.

Lemma waiting_frames s s' f0 tag0 m fs tags :
  replied s s' f0 None tag0 m -> contents (s_rpool s) !! tag0 = Some f0 -> f0 ∉ fs ->
  Forall2 (waiting s) fs tags -> Forall2 (waiting s') fs tags.
Proof.
  intros R Hf0 Hni Hw. induction Hw as [|f tag fs tags Hf Hw IH]; [done|].
  apply not_elem_of_cons in Hni as [Hne Hni]. constructor; [|by apply IH].
  by eapply waiting_frame; [exact R|exact Hf0|done|].
Qed.

Lemma answer_flushes n fs tags s :
  NoDup fs -> Forall2 (waiting s) fs tags -> buffered s -> 7 <= s_msize s -> map_ok (s_rpool s) ->
  exists s',
    foldr (fun f k => upd_req f (fun q => q <| r_oldreq := None |>);;
                      respond_fuel srv (S n) f None;; k) (mret tt) fs s = Ok tt s' /\
    flushed s s' fs tags.
Proof using Hsrv.
  revert tags s. induction fs as [|f fs IH]; intros tags s Hnd Hw Hb Hms Hmo.
  { apply Forall2_nil_inv_l in Hw as ->. exists s. split; [done|]. unfold flushed. cbn.
    by rewrite app_nil_r. }
  apply Forall2_cons_inv_l in Hw as (tag & tags' & Hf & Hw & ->).
  apply NoDup_cons in Hnd as [Hni Hnd]. pose proof Hf as (fq & Hfq & W).
  destruct W as (W1 & W2 & W3 & W4 & W5 & W6 & W7 & W8 & W9 & W10 & W11 & W12).
  set (s1 := s <| s_reqs := <[f := fq <| r_oldreq := None |>]> (s_reqs s) |>).
  destruct (respond_flush n s1 f (fq <| r_oldreq := None |>)) as (s2 & E & R); try done.
  { split_and!; try done; [apply lookup_insert_eq| |]; change (in_u 16 (f_tag (r_ifcall fq))) ||
      change (contents (s_rpool s) !! f_tag (r_ifcall fq) = Some f); by rewrite W10. }
  { change (closable s1 (r_fid fq)). by rewrite W6. }
  apply replied_reqs in R. change (r_fid (fq <| r_oldreq := None |>)) with (r_fid fq) in R.
  change (f_tag (r_ifcall (fq <| r_oldreq := None |>))) with (f_tag (r_ifcall fq)) in R.
  rewrite W6, W10 in R. pose proof R as (R1 & R2 & R3 & R4 & R5 & R6 & R7 & R8 & R9 & R10 & R11 & R12).
  destruct (IH tags' s2) as (s' & E' & F); [done| |done|lia|done|].
  { by eapply waiting_frames; [exact R|..]. }
  exists s'. split.
  - cbn [foldr]. run1. erewrite bind_Ok; [exact E'|exact E].
  - destruct F as (F1 & F2 & F3 & F4 & F5 & F6 & F7 & F8 & F9 & F10 & F11 & F12).
    unfold flushed. rewrite F1, F2, F3, F4, F5, F7, F8, F9, F11, F12, R1, R2, R3, R4, R5, R7, R8, R9, R11, R12.
    cbn. by rewrite <- app_assoc.
Qed.

Lemma lookup_deletes {A} (fs : list Z) (m : gmap Z A) r :
  r ∉ fs -> foldl (fun m f => delete f m) m fs !! r = m !! r.
Proof.
  revert m. induction fs as [|f fs IH]; intros m Hr; [done|].
  apply not_elem_of_cons in Hr as [Hne Hr]. cbn [foldl]. rewrite IH by done.
  by rewrite lookup_delete_ne.
Qed.

(** The flushes still wait when the reply to their request has gone out. *)
Lemma waiting_sent s s2 r tag rq2 fs tags :
  s_reqs s2 = <[r := rq2]> (s_reqs s) -> contents (s_rpool s2) = delete tag (contents (s_rpool s)) ->
  contents (s_rpool s) !! tag = Some r -> r ∉ fs ->
  Forall2 (waiting s) fs tags -> Forall2 (waiting s2) fs tags.
Proof.
  intros Er Ec Hr Hni Hw. induction Hw as [|f t fs tags Hf Hw IH]; [done|].
  apply not_elem_of_cons in Hni as [Hne Hni]. constructor; [|by apply IH].
  destruct Hf as (fq & Hf & W). exists fq. rewrite Er, Ec, lookup_insert_ne by done.
  destruct W as (? & ? & ? & ? & ? & ? & ? & ? & ? & ? & ? & Hc). split_and!; try done; try range.
  rewrite lookup_delete_ne; [done|congruence].
Qed.

(** [respond] for a request with flushes, once its [r*] function has run. *)
Lemma respond_waited s r rq error s1 rq1 m tags :
  s_reqs s !! r = Some rq -> r_responded rq = false ->
  rswitch srv r error (s <| s_reqs := <[r := rq <| r_error := error |>]> (s_reqs s) |>)
    = Ok true s1 ->
  held s1 r rq1 -> buffered s1 -> closable s1 (r_fid rq1) ->
  msg_of (reply_of rq1) = Some m -> msg_size m < 2 ^ 31 -> msg_size m <= s_msize s1 ->
  NoDup (r_flush rq1) -> r ∉ r_flush rq1 -> r_flush rq1 <> [] ->
  Forall2 (waiting s1) (r_flush rq1) tags ->
  exists s' rq', respond srv r error s = Ok tt s' /\
    s_out s' = s_out s1 ++ encode (f_tag (r_ifcall rq1)) m :: map (fun t => encode t MRflush) tags /\
    contents (s_rpool s') = foldl (fun m t => delete t m)
      (delete (f_tag (r_ifcall rq1)) (contents (s_rpool s1))) tags /\
    s_reqs s' !! r = Some rq' /\ r_ref rq' = len (r_flush rq1) /\ r_responded rq' = true /\
    r_flush rq' = [].
Proof using Hsrv.
  intros Hr Hn Hsw Hheld Hbuf Hcl Hm H31 Hms Hnd Hni Hne Hw.
  assert (size (s_reqs s) <> 0%nat) as Hsz by (intros Hz; apply map_size_empty_inv in Hz; by rewrite Hz in Hr).
  rewrite (respond_eq srv s r rq error Hr Hn). erewrite bind_Ok; [|exact Hsw]. cbn [negb].
  destruct (send_Ok srv s1 r rq1 m Hsrv Hheld Hbuf Hcl Hm H31 Hms) as (wbuf & Hl & Es).
  erewrite bind_Ok; [|exact Es]. cbn [negb]. clear Es.
  pose proof (fid_closed_frame (unpooled s1 r rq1 wbuf) (r_fid rq1))
    as (_ & _ & F3 & F4 & F5 & _ & _ & _).
  destruct Hheld as (_ & Hpool & Href & Hmo & Htag & Hc).
  destruct (deletekey_ok (s_rpool s1) (f_tag (r_ifcall rq1)) Hmo ltac:(range)) as (D1 & _ & D2).
  assert (7 <= msg_size m) by (unfold msg_size, BIT32SZ, BIT8SZ, BIT16SZ; lia).
  match goal with |- context [release srv _ r ?S] => set (s2 := S) end.
  destruct (answer_flushes (pred (size (s_reqs s))) (r_flush rq1) tags s2) as (s3 & E3 & A).
  - done.
  - eapply waiting_sent; [reflexivity| |exact Hc|done|exact Hw].
    etransitivity; [exact (f_equal contents F3)|exact D2].
  - exists wbuf. split; [exact F5|]. etransitivity; [exact Hl|symmetry; exact F4].
  - change (7 <= s_msize (fid_closed (unpooled s1 r rq1 wbuf) (r_fid rq1))). rewrite F4.
    change (7 <= s_msize s1). lia.
  - change (map_ok (s_rpool (fid_closed (unpooled s1 r rq1 wbuf) (r_fid rq1)))). by rewrite F3.
  - destruct A as (A1 & _ & _ & _ & _ & _ & A7 & A8 & _).
    assert (s_reqs s3 !! r = Some ((answered rq1) <| r_fid := None |>)) as Hr3.
    { rewrite A1, lookup_deletes by done. apply lookup_insert_eq. }
    assert (0 < len (r_flush rq1)) by (destruct (r_flush rq1); [done|cbn; lia]).
    do 2 eexists. split.
    + unfold release. erewrite bind_Ok; [|apply req_at_Ok, lookup_insert_eq].
      change (r_flush ((answered rq1) <| r_fid := None |>)) with (r_flush rq1).
      replace (size (s_reqs s)) with (S (pred (size (s_reqs s)))) by lia.
      erewrite bind_Ok; [|exact E3]. run1.
      change (r_pool ((answered rq1) <| r_fid := None |>)) with (r_pool rq1). rewrite Hpool.
      apply closereq_dec; [apply lookup_insert_eq|]. change (r_ref rq1 - 1 <> 1). lia.
    + split_and!.
      * etransitivity; [exact A8|]. cbn. by rewrite <- app_assoc.
      * etransitivity; [exact A7|]. f_equal. etransitivity; [exact (f_equal contents F3)|exact D2].
      * apply lookup_insert_eq.
      * change (r_ref rq1 - 1 - 1 = len (r_flush rq1)). lia.
      * done.
      * done.
Qed.

(** A successful answer that changes nothing but the reply: of a clunk or a wstat, of a read of a
    plain file, of a write to a fid without a [File]. *)
Definition quiet (s : State KM) (rq : Req) (t : mtype) : Prop :=
  match t with
  | Tclunk | Twstat => True
  | Tread => exists p f, r_fid rq = Some p /\ s_fids s !! p = Some f /\ q_type (fd_qid f) .& QTDIR = 0
  | Twrite => exists p f, r_fid rq = Some p /\ s_fids s !! p = Some f /\ fd_file f = None
  | _ => False
  end.

(** The handler of a request [rq] of type [t] answers with [error], or with success when it is
    nil, and the reply is [m]. *)
Definition answers (s : State KM) (rq : Req) (t : mtype) (error : cptr) (m : msg) : Prop :=
  match error with
  | Some e => uses_fid t = true /\ r_newfid rq = None /\ f_nwqid (r_ofcall rq) = 0 /\ wf_string e /\ m = MRerror e
  | None => quiet s rq t /\ msg_of (reply_of (rq <| r_error := None |>)) = Some m
  end.

Lemma rswitch_quiet s r rq t :
  s_reqs s !! r = Some rq -> mtype_of (f_type (r_ifcall rq)) = Some t -> quiet s rq t -> rswitch srv r None s = Ok true s.
Proof.
  intros Hr Ht Hq. unfold rswitch. run1. rewrite Ht. destruct t; try done; erewrite bind_Ok; try reflexivity.
  - destruct Hq as (p & f & Hp & Hf & Hd). unfold rread. run1. rewrite Hp. run1. run1. by rewrite Hd.
  - destruct Hq as (p & f & Hp & Hf & Hd). unfold rwrite. run1. rewrite Hp. run1. run1. by rewrite Hd.
Qed.

(** A request on a fid that is answered while flushes wait for it. *)
Section answering.
Context (s : State KM) (r : Z) (rq : Req) (error : cptr) (m : msg) (t : mtype) (tags : list Z).
Hypotheses (Hheld : held s r rq) (Hnew : r_responded rq = false)
  (Htype : mtype_of (f_type (r_ifcall rq)) = Some t) (Hans : answers s rq t error m)
  (Hbuf : buffered s) (Hcl : closable s (r_fid rq))
  (H31 : msg_size m < 2 ^ 31) (Hms : msg_size m <= s_msize s)
  (Hnd : NoDup (r_flush rq)) (Hni : r ∉ r_flush rq) (Hne : r_flush rq <> [])
  (Hw : Forall2 (waiting s) (r_flush rq) tags).

Lemma respond_answering :
  exists s' rq', respond srv r error s = Ok tt s' /\
    s_out s' = s_out s ++ encode (f_tag (r_ifcall rq)) m
                       :: map (fun t => encode t MRflush) tags /\
    contents (s_rpool s') = foldl (fun m t => delete t m)
      (delete (f_tag (r_ifcall rq)) (contents (s_rpool s))) tags /\
    s_reqs s' !! r = Some rq' /\ r_ref rq' = len (r_flush rq) /\ r_responded rq' = true /\
    r_flush rq' = [].
Proof using All.
  pose proof Hheld as (Hr & Hp & Href & Hmo & Htag & Hc).
  set (rq1 := rq <| r_error := error |>).
  set (s1 := s <| s_reqs := <[r := rq1]> (s_reqs s) |>).
  apply (respond_waited s r rq error s1 rq1 m tags); try done.
  - destruct error as [e|]; destruct Hans as [Hu Ha].
    + destruct Ha as (Hnf & Hnw & _). eapply rswitch_error; [apply lookup_insert_eq|done..].
    + eapply rswitch_quiet; [apply lookup_insert_eq|exact Htype|exact Hu].
  - split; [apply lookup_insert_eq|]. done.
  - destruct error as [e|]; [|apply Hans]. destruct Hans as (_ & _ & _ & He & ->). by apply error_reply.
  - change (r_flush rq1) with (r_flush rq). clear -Hw Hni. induction Hw as [|f t fs ts Hf Hfs IH]; [done|].
    apply not_elem_of_cons in Hni as [Hn1 Hn2]. constructor; [|by apply IH].
    destruct Hf as (fq & Hf & W). exists fq. split; [|exact W]. cbn. by rewrite lookup_insert_ne.
Qed.


(** A request that was flushed is never freed: [respond] forgets the references of the
    flushes without giving them up, so after the reply, when no table leads to the request
    any more, it still has one reference for each flush. *)
Theorem flushed_request_leaks :
  exists s' rq', respond srv r error s = Ok tt s' /\ s_reqs s' !! r = Some rq' /\
    1 <= r_ref rq' /\ r_ref rq' = len (r_flush rq) /\ r_flush rq' = [] /\
    contents (s_rpool s') !! f_tag (r_ifcall rq) = None.
Proof using All.
  destruct respond_answering as (s' & rq' & E & _ & Ec & Er & Href & _ & Hf). exists s', rq'.
  assert (0 < len (r_flush rq)) by (destruct (r_flush rq); [done|cbn; lia]).
  split_and!; try done; [lia|]. rewrite Ec.
  assert (forall (m : gmap Z Z) k, m !! k = None -> foldl (fun m t => delete t m) m tags !! k = None) as Hd.
  { clear. induction tags as [|t ts IH]; intros m k Hm; [done|]. cbn. apply IH.
    rewrite lookup_delete_None. by right. }
  apply Hd, lookup_delete_eq.
Qed.
End answering.
End flush.

(** ** The theorems at work *)

Lemma serve_flush_unknown_witness :
  exists s', serve ex_srv fcall0 [encode 5 (MTflush 6)] ex_busy = Ok tt s' /\
    undisturbed ex_busy s' [encode 5 MRflush].
Proof.
  apply (serve_flush_unknown ex_srv ex_plain ex_busy fcall0 5 6); run_example.
Defined.

Lemma serve_flush_self_witness :
  exists s' rq, serve ex_srv fcall0 [encode 5 (MTflush 5)] ex_busy = Ok tt s' /\
    s_out s' = [] /\ contents (s_rpool s') !! 5 = Some 3 /\
    s_reqs s' !! 3 = Some rq /\ r_responded rq = false /\ r_flush rq = [3].
Proof. apply (serve_flush_self ex_srv ex_busy fcall0 5); run_example. Defined.

Lemma serve_flush_pending_witness :
  exists s' f, serve ex_srv fcall0 [encode 5 (MTflush 3)] ex_busy = Ok tt s' /\
    s_out s' = [] /\ contents (s_rpool s') = <[5 := 3]> (contents (s_rpool ex_busy)) /\
    s_reqs s' !! 3 = Some f /\ f_tag (r_ifcall f) = 5 /\ r_oldreq f = Some 2 /\
    s_reqs s' !! 2 = Some (ex_req <| r_ref := 3 |> <| r_flush := [3] |>).
Proof. apply (serve_flush_pending ex_srv ex_busy fcall0 5 3 2 ex_req); run_example. Defined.

(** The read with tag 3 after flushes of it with tags 4 and 5. *)
Definition ex_waited : State Intmap :=
  after ex_busy (serve ex_srv fcall0 [encode 4 (MTflush 3); encode 5 (MTflush 3)] ex_busy).
Definition ex_flushed_req : Req := ex_req <| r_ref := 4 |> <| r_flush := [3; 4] |>.

Lemma ex_waited_rpool : map_ok (s_rpool ex_waited).
Proof.
  assert (s_rpool ex_waited = (caninsertkey (caninsertkey (one_key 3 2) 4 3).2 5 4).2) as ->
    by (vm_compute; reflexivity).
  apply caninsertkey_ok, Z.leb_le; [|done]. apply caninsertkey_ok, Z.leb_le; [|done]. by apply one_key_ok.
Qed.

Lemma ex_waited_held : held ex_waited 2 ex_flushed_req.
Proof.
  split_and!; first [ apply ex_waited_rpool | vm_compute; reflexivity | by_decide ].
Qed.

Lemma ex_waiting : Forall2 (waiting ex_waited) [3; 4] [4; 5].
Proof.
  repeat constructor; eexists; (split; [vm_compute; reflexivity|]); split_and!;
    first [ vm_compute; reflexivity | by_decide ].
Qed.

Ltac run_waited :=
  first
    [ apply ex_waited_held | apply ex_waiting | by_decide | vm_compute; reflexivity
    | vm_compute; discriminate
    | exists (replicate 64 0); split; vm_compute; reflexivity
    | exists ex_fid; split; [vm_compute; reflexivity|done] ].

Lemma ex_answers : answers ex_waited ex_flushed_req Tread (Some Eperm) (MRerror Eperm) /\
  answers ex_waited ex_flushed_req Tread None (MRread []).
Proof.
  split; [split_and!; first [by_decide | reflexivity]|].
  split; [|vm_compute; reflexivity]. exists 1, ex_fid. by split_and!; vm_compute.
Qed.


Lemma flushed_request_leaks_witness :
  exists s' rq', respond ex_srv 2 (Some Eperm) ex_waited = Ok tt s' /\ s_reqs s' !! 2 = Some rq' /\
    1 <= r_ref rq' /\ r_ref rq' = len (r_flush ex_flushed_req) /\ r_flush rq' = [] /\
    contents (s_rpool s') !! f_tag (r_ifcall ex_flushed_req) = None.
Proof.
  apply (flushed_request_leaks ex_srv ex_plain ex_waited 2 ex_flushed_req (Some Eperm) (MRerror Eperm) Tread [4; 5]);
    first [apply ex_answers | run_waited].
Defined.
