(* ===== verification/Mpvec.v ===== *)
(** * Vectors of digits: the inner routines of [libmp]

    [mpvecadd.c], [mpvecsub.c], [mpveccmp.c], [mpvecdigmuladd.c] and [mpdigdiv.c] on the
    32-bit digits of [mp.h]. A pointer to digits is the list of the digits from it to the end
    of its object; reading or writing beyond is [None]. A routine that writes returns the
    digits of its result vector from the pointer on. A result may be one of the operands, as
    in C: every loop reads position [i] of its operands before it writes position [i]. *)

From S2P Require Import Prelude.

Definition Dbits : Z := 32.
(** The base: one more than the largest digit. *)
Abbreviation B := (2 ^ 32).

(** ** The routines *)

(** The second loop of [mpvecadd], over the digits of the longer operand only. *)
Fixpoint mpvecadd_rest (n : nat) (a sum : list Z) (carry : Z) : option (list Z) :=
  match n, a, sum with
  | O, _, _ :: sum => Some (carry :: sum)
  | S n, x :: a, _ :: sum =>
      let x := u32 (x + carry) in
      let carry := if x <? carry then 1 else 0 in
      r ← mpvecadd_rest n a sum carry;
      Some (x :: r)
  | _, _, _ => None
  end.

Fixpoint mpvecadd_both (n m : nat) (a b sum : list Z) (carry : Z) {struct n} : option (list Z) :=
  match n, a, b, sum with
  | O, _, _, _ => mpvecadd_rest m a sum carry
  | S n, x :: a, y :: b, _ :: sum =>
      let x := u32 (x + carry) in
      let carry := if x <? carry then 1 else 0 in
      let x := u32 (x + y) in
      let carry := if x <? y then carry + 1 else carry in
      r ← mpvecadd_both n m a b sum carry;
      Some (x :: r)
  | _, _, _, _ => None
  end.

Definition mpvecadd (a : list Z) (alen : nat) (b : list Z) (blen : nat) (sum : list Z)
    : option (list Z) :=
  mpvecadd_both blen (alen - blen) a b sum 0.

Fixpoint mpvecsub_rest (n : nat) (a diff : list Z) (borrow : Z) {struct n} : option (list Z) :=
  match n, a, diff with
  | O, _, _ => Some diff
  | S n, x :: a, _ :: diff =>
      let y := u32 (x - borrow) in
      let borrow := if x <? y then 1 else 0 in
      r ← mpvecsub_rest n a diff borrow;
      Some (y :: r)
  | _, _, _ => None
  end.

Fixpoint mpvecsub_both (n m : nat) (a b diff : list Z) (borrow : Z) {struct n} : option (list Z) :=
  match n, a, b, diff with
  | O, _, _, _ => mpvecsub_rest m a diff borrow
  | S n, x :: a, y :: b, _ :: diff =>
      let y := u32 (y + borrow) in
      let borrow := if y <? borrow then 1 else 0 in
      let borrow := if x <? y then borrow + 1 else borrow in
      r ← mpvecsub_both n m a b diff borrow;
      Some (u32 (x - y) :: r)
  | _, _, _, _ => None
  end.

Definition mpvecsub (a : list Z) (alen : nat) (b : list Z) (blen : nat) (diff : list Z)
    : option (list Z) :=
  mpvecsub_both blen (alen - blen) a b diff 0.

(** The loops of [mpveccmp] that look for a digit of the longer operand above the shorter one;
    [n] digits from position [i] on, the highest first. *)
Fixpoint high_nonzero (a : list Z) (i n : nat) : option bool :=
  match n with
  | O => Some false
  | S n =>
      x ← a !! (i + n)%nat;
      if negb (x =? 0) then Some true else high_nonzero a i n
  end.

Fixpoint mpveccmp_eq (a b : list Z) (n : nat) : option Z :=
  match n with
  | O => Some 0
  | S n =>
      x ← a !! n;
      y ← b !! n;
      let d := u32 (x - y) in
      if d =? 0 then mpveccmp_eq a b n
      else if x <? d then Some (-1) else Some 1
  end.

Definition mpveccmp (a : list Z) (alen : nat) (b : list Z) (blen : nat) : option Z :=
  ah ← high_nonzero a blen (alen - blen);
  if (ah : bool) then Some 1
  else
    bh ← high_nonzero b alen (blen - alen);
    if (bh : bool) then Some (-1) else mpveccmp_eq a b (alen `min` blen).

Definition LO (x : Z) : Z := x .& ((1 .<< 16) - 1).
Definition HI (x : Z) : Z := x .>> 16.

(** The two digits of a product, the low one first. *)
Definition mpdigmul (a b : Z) : Z * Z :=
  let ah := HI a in
  let al := LO a in
  let bh := HI b in
  let bl := LO b in
  let p1 := u32 (ah * bl) in
  let p2 := u32 (bh * al) in
  let p3 := u32 (bl * al) in
  let p4 := u32 (ah * bh) in
  let x := u32 (p1 .<< 16) in
  let p3 := u32 (p3 + x) in
  let carry := if p3 <? x then 1 else 0 in
  let x := u32 (p2 .<< 16) in
  let p3 := u32 (p3 + x) in
  let carry := if p3 <? x then carry + 1 else carry in
  (p3, u32 (p4 + (carry + HI p1 + HI p2))).

(** [part1] is [part[1]]. *)
Fixpoint mpvecdigmuladd_loop (n : nat) (b : list Z) (m : Z) (p : list Z) (carry part1 : Z)
    {struct n} : option (list Z) :=
  match n, b, p with
  | O, _, _ :: p => Some (u32 (part1 + carry) :: p)
  | S n, d :: b, y :: p =>
      let x := u32 (part1 + carry) in
      let carry := if x <? carry then 1 else 0 in
      let '(part0, part1) := mpdigmul d m in
      let x := u32 (x + part0) in
      let carry := if x <? part0 then carry + 1 else carry in
      let x := u32 (x + y) in
      let carry := if x <? y then carry + 1 else carry in
      r ← mpvecdigmuladd_loop n b m p carry part1;
      Some (x :: r)
  | _, _, _ => None
  end.

Definition mpvecdigmuladd (b : list Z) (n : nat) (m : Z) (p : list Z) : option (list Z) :=
  mpvecdigmuladd_loop n b m p 0 0.

(** The sign it returns, and the digits. *)
Fixpoint mpvecdigmulsub_loop (n : nat) (b : list Z) (m : Z) (p : list Z) (borrow part1 : Z)
    {struct n} : option (Z * list Z) :=
  match n, b, p with
  | O, _, x :: p =>
      let y := u32 (x - borrow - part1) in
      Some (if x <? y then -1 else 1, y :: p)
  | S n, d :: b, x :: p =>
      let y := u32 (x - borrow) in
      let borrow := if x <? y then 1 else 0 in
      let x := part1 in
      let '(part0, part1) := mpdigmul d m in
      let x := u32 (x + part0) in
      let borrow := if x <? part0 then borrow + 1 else borrow in
      let x := u32 (y - x) in
      let borrow := if y <? x then borrow + 1 else borrow in
      '(sign, r) ← mpvecdigmulsub_loop n b m p borrow part1;
      Some (sign, x :: r)
  | _, _, _ => None
  end.

Definition mpvecdigmulsub (b : list Z) (n : nat) (m : Z) (p : list Z) : option (Z * list Z) :=
  mpvecdigmulsub_loop n b m p 0 0.

(** The loop of [mpdigdiv]: [n] is [i + 1]. The result is [lo] and [q] at its end. *)
Fixpoint mpdigdiv_loop (n : nat) (divisor hi lo x q : Z) : Z * Z :=
  match n with
  | O => (lo, q)
  | S i =>
      if 0 <? hi then
        let x := x .>> 1 in
        if hi <? x then mpdigdiv_loop i divisor hi lo x q
        else
          let y := u32 (divisor .<< Z.of_nat i) in
          if (x =? hi) && (lo <? y) then mpdigdiv_loop i divisor hi lo x q
          else
            let hi := if lo <? y then hi - 1 else hi in
            mpdigdiv_loop i divisor (u32 (hi - x)) (u32 (lo - y)) x
              (q .| u32 (1 .<< Z.of_nat i))
      else (lo, q)
  end.

(** [dividend] is the digits [lo] and [hi]. *)
Definition mpdigdiv (lo hi divisor : Z) : Z :=
  if (divisor <=? hi) || (divisor =? 0) then u32 (Z.lnot 0)
  else
    let '(lo, q) := mpdigdiv_loop 32 divisor hi lo divisor 0 in
    u32 (q + lo / divisor).

(** ** The number a vector stands for *)

Abbreviation is_digits := (Forall (in_u 32)).

Fixpoint val (ds : list Z) : Z :=
  match ds with
  | [] => 0
  | d :: ds => d + B * val ds
  end.

Lemma val_app a b : val (a ++ b) = val a + B ^ len a * val b.
Proof.
  induction a as [|d a IH]; cbn [val app length]; [lia|].
  rewrite IH, Nat2Z.inj_succ, Z.pow_succ_r by lia. ring.
Qed.

Lemma val_range a : is_digits a -> 0 <= val a < B ^ len a.
Proof.
  induction 1 as [|d a Hd _ IH]; cbn [val length]; [done|].
  rewrite Nat2Z.inj_succ, Z.pow_succ_r by lia. unfold in_u in Hd. nia.
Qed.

Lemma val_split i p :
  (i <= length p)%nat -> val p = val (take i p) + B ^ Z.of_nat i * val (drop i p).
Proof.
  intros Hi. rewrite <- (take_drop i p) at 1. by rewrite val_app, length_take, Nat.min_l.
Qed.

Lemma val_zeros n : val (replicate n 0) = 0.
Proof. induction n as [|n IH]; cbn; lia. Qed.

Lemma digits_zeros n : is_digits (replicate n 0).
Proof. apply Forall_replicate. by_decide. Qed.

Lemma val_inj a b :
  is_digits a -> is_digits b -> length a = length b -> val a = val b -> a = b.
Proof.
  intros Ha. revert b. induction Ha as [|x a Hx Ha IH]; intros [|y b] Hb Hl E; try done.
  inversion_clear Hb as [|? ? Hy Hb']. cbn [val] in E.
  assert (x = y) as <- by divlia. f_equal. apply IH; [done|by injection Hl|lia].
Qed.

(** *** Single digits *)

(** One digit of a sum and the carry out of it. *)
Lemma add_digit x y c :
  in_u 32 x -> in_u 32 y -> 0 <= c <= 1 ->
  let x1 := u32 (x + c) in
  let c1 := if x1 <? c then 1 else 0 in
  let x2 := u32 (x1 + y) in
  let c2 := if x2 <? y then c1 + 1 else c1 in
  in_u 32 x2 /\ 0 <= c2 <= 1 /\ x2 + B * c2 = x + y + c.
Proof.
  intros Hx Hy Hc x1 c1 x2 c2. split; [by apply wrap_range|].
  unfold c2, c1, x2, x1, wrap. bcase; divlia.
Qed.

Lemma add_carry x c :
  in_u 32 x -> 0 <= c <= 1 ->
  let x1 := u32 (x + c) in
  let c1 := if x1 <? c then 1 else 0 in
  in_u 32 x1 /\ 0 <= c1 <= 1 /\ x1 + B * c1 = x + c.
Proof.
  intros Hx Hc x1 c1. split; [by apply wrap_range|]. unfold c1, x1, wrap. bcase; divlia.
Qed.

Lemma sub_digit x y c :
  in_u 32 x -> in_u 32 y -> 0 <= c <= 1 ->
  let y1 := u32 (y + c) in
  let c1 := if y1 <? c then 1 else 0 in
  let c2 := if x <? y1 then c1 + 1 else c1 in
  in_u 32 (u32 (x - y1)) /\ 0 <= c2 <= 1 /\ u32 (x - y1) - B * c2 = x - y - c.
Proof.
  intros Hx Hy Hc y1 c1 c2. split; [by apply wrap_range|].
  unfold c2, c1, y1, wrap. bcase; divlia.
Qed.

Lemma sub_borrow x c :
  in_u 32 x -> 0 <= c < B ->
  let y := u32 (x - c) in
  let c1 := if x <? y then 1 else 0 in
  in_u 32 y /\ 0 <= c1 <= 1 /\ y - B * c1 = x - c.
Proof.
  intros Hx Hc y c1. split; [by apply wrap_range|]. unfold c1, y, wrap. bcase; divlia.
Qed.

(** *** Sums and differences *)

Lemma mpvecadd_rest_ok a a' s s' c :
  is_digits a -> length s = S (length a) -> 0 <= c <= 1 ->
  exists r, mpvecadd_rest (length a) (a ++ a') (s ++ s') c = Some (r ++ s') /\
    length r = length s /\ is_digits r /\ val r = val a + c.
Proof.
  intros Ha. revert s c. induction Ha as [|x a Hx Ha IH]; intros [|d s] c Hl Hc; try done.
  - destruct s; [|done]. exists [c]. cbn. split_and!; try done; [|lia]. repeat constructor; range.
  - cbn [mpvecadd_rest app length].
    destruct (add_carry x c Hx Hc) as (D & Hc1 & E).
    destruct (IH s _ ltac:(by injection Hl) Hc1) as (r & Er & Hr & Hd & Hv).
    rewrite Er. cbn [mbind option_bind]. eexists (_ :: r). cbn [length val].
    split_and!; [done|by rewrite Hr|by constructor|lia].
Qed.

Lemma mpvecadd_both_ok a0 a b a' b' s s' c :
  is_digits a0 -> is_digits a -> is_digits b -> length b = length a0 ->
  length s = S (length a0 + length a) -> 0 <= c <= 1 ->
  exists r, mpvecadd_both (length b) (length a) (a0 ++ a ++ a') (b ++ b') (s ++ s') c = Some (r ++ s') /\
    length r = length s /\ is_digits r /\ val r = val (a0 ++ a) + val b + c.
Proof.
  intros Ha0 Ha Hb. revert a0 s c Ha0.
  induction Hb as [|y b Hy Hb IH]; intros [|x a0] s c Ha0 Hl Hs Hc; try done.
  - destruct (mpvecadd_rest_ok a a' s s' c Ha Hs Hc) as (r & Er & R). exists r. split; [exact Er|].
    cbn. split_and!; try apply R. destruct R as (_ & _ & ->). lia.
  - destruct s as [|d s]; [done|]. inversion_clear Ha0 as [|? ? Hx Ha0'].
    cbn [mpvecadd_both app length].
    destruct (add_digit x y c Hx Hy Hc) as (D & Hc2 & E).
    destruct (IH a0 s _ Ha0' ltac:(by injection Hl) ltac:(by injection Hs) Hc2) as (r & Er & Hr & Hd & Hv).
    rewrite Er. cbn [mbind option_bind]. eexists (_ :: r). cbn [length val app].
    split_and!; [done|by rewrite Hr|by constructor|]. rewrite Hv. lia.
Qed.

(** What [mpvecadd] promises. *)
Lemma mpvecadd_ok a a' b b' s s' :
  is_digits a -> is_digits b -> (length b <= length a)%nat -> length s = S (length a) ->
  exists r, mpvecadd (a ++ a') (length a) (b ++ b') (length b) (s ++ s') = Some (r ++ s') /\
    length r = length s /\ is_digits r /\ val r = val a + val b.
Proof.
  intros Ha Hb Hl Hs. unfold mpvecadd.
  pose proof (length_take_le a (length b) Hl) as Ht.
  assert (is_digits (take (length b) a)) by by apply Forall_take.
  assert (is_digits (drop (length b) a)) by by apply Forall_drop.
  replace (a ++ a') with (take (length b) a ++ drop (length b) a ++ a') by (by rewrite app_assoc, take_drop).
  rewrite <- (length_drop a (length b)).
  destruct (mpvecadd_both_ok (take (length b) a) (drop (length b) a) b a' b' s s' 0)
    as (r & Er & Hr & Hd & Hv); try done.
  - rewrite length_drop. lia.
  - exists r. rewrite Hv, take_drop. split_and!; try done. lia.
Qed.

Lemma mpvecsub_rest_ok a a' s s' c :
  is_digits a -> length s = length a -> 0 <= c <= 1 ->
  exists r c', mpvecsub_rest (length a) (a ++ a') (s ++ s') c = Some (r ++ s') /\
    length r = length s /\ is_digits r /\ 0 <= c' <= 1 /\ val r - B ^ len a * c' = val a - c.
Proof.
  intros Ha. revert s c. induction Ha as [|x a Hx Ha IH]; intros [|d s] c Hl Hc; try done.
  - exists [], c. cbn. split_and!; try done; lia.
  - cbn [mpvecsub_rest app length].
    destruct (sub_borrow x c Hx ltac:(lia)) as (D & Hc1 & E).
    destruct (IH s _ ltac:(by injection Hl) Hc1) as (r & c' & Er & Hr & Hd & Hc' & Hv).
    rewrite Er. cbn [mbind option_bind]. eexists (_ :: r), c'. cbn [length val].
    split_and!; [done|by rewrite Hr|by constructor|lia..|].
    rewrite Nat2Z.inj_succ, Z.pow_succ_r by lia. lia.
Qed.

Lemma mpvecsub_both_ok a0 a b a' b' s s' c :
  is_digits a0 -> is_digits a -> is_digits b -> length b = length a0 ->
  length s = (length a0 + length a)%nat -> 0 <= c <= 1 ->
  exists r c', mpvecsub_both (length b) (length a) (a0 ++ a ++ a') (b ++ b') (s ++ s') c = Some (r ++ s') /\
    length r = length s /\ is_digits r /\ 0 <= c' <= 1 /\
    val r - B ^ len s * c' = val (a0 ++ a) - val b - c.
Proof.
  intros Ha0 Ha Hb. revert a0 s c Ha0.
  induction Hb as [|y b Hy Hb IH]; intros [|x a0] s c Ha0 Hl Hs Hc; try done.
  - destruct (mpvecsub_rest_ok a a' s s' c Ha Hs Hc) as (r & c' & Er & Hr & Hd & Hc' & Hv).
    exists r, c'. split; [exact Er|]. cbn [val app length Nat.add] in *. rewrite Hs.
    split_and!; try done; lia.
  - destruct s as [|d s]; [done|]. inversion_clear Ha0 as [|? ? Hx Ha0'].
    cbn [mpvecsub_both app length].
    destruct (sub_digit x y c Hx Hy Hc) as (D & Hc2 & E).
    destruct (IH a0 s _ Ha0' ltac:(by injection Hl) ltac:(by injection Hs) Hc2)
      as (r & c' & Er & Hr & Hd & Hc' & Hv).
    rewrite Er. cbn [mbind option_bind]. eexists (_ :: r), c'. cbn [length val app].
    split_and!; [done|by rewrite Hr|by constructor|lia..|].
    rewrite Nat2Z.inj_succ, Z.pow_succ_r by lia. lia.
Qed.

(** What [mpvecsub] promises, whichever operand is larger. *)
Lemma mpvecsub_wraps a a' b b' s s' :
  is_digits a -> is_digits b -> (length b <= length a)%nat -> length s = length a ->
  exists r c, mpvecsub (a ++ a') (length a) (b ++ b') (length b) (s ++ s') = Some (r ++ s') /\
    length r = length s /\ is_digits r /\ 0 <= c <= 1 /\ val r - B ^ len a * c = val a - val b.
Proof.
  intros Ha Hb Hl Hs. unfold mpvecsub.
  pose proof (length_take_le a (length b) Hl) as Ht.
  assert (is_digits (take (length b) a)) by by apply Forall_take.
  assert (is_digits (drop (length b) a)) by by apply Forall_drop.
  replace (a ++ a') with (take (length b) a ++ drop (length b) a ++ a') by (by rewrite app_assoc, take_drop).
  rewrite <- (length_drop a (length b)).
  destruct (mpvecsub_both_ok (take (length b) a) (drop (length b) a) b a' b' s s' 0)
    as (r & c & Er & Hr & Hd & Hc & Hv); try done.
  - rewrite length_drop. lia.
  - exists r, c. rewrite take_drop, Hs in Hv. split_and!; try done; lia.
Qed.

Lemma mpvecsub_ok a a' b b' s s' :
  is_digits a -> is_digits b -> (length b <= length a)%nat -> length s = length a ->
  val b <= val a ->
  exists r, mpvecsub (a ++ a') (length a) (b ++ b') (length b) (s ++ s') = Some (r ++ s') /\
    length r = length s /\ is_digits r /\ val r = val a - val b.
Proof.
  intros Ha Hb Hl Hs Hle.
  destruct (mpvecsub_wraps a a' b b' s s' Ha Hb Hl Hs) as (r & c & Er & Hr & Hd & Hc & Hv).
  exists r. split_and!; try done. pose proof (val_range r Hd) as Hrr. rewrite Hr, Hs in Hrr.
  assert (c = 0 \/ c = 1) as [-> | ->]; lia.
Qed.

(** *** Comparison *)

Lemma high_nonzero_ok l i n :
  is_digits l -> (n = 0 \/ i + n <= length l)%nat ->
  high_nonzero l i n = Some (negb (val (take n (drop i l)) =? 0)).
Proof.
  intros Hl. induction n as [|n IH]; intros Hn; [done|]. cbn [high_nonzero].
  destruct (lookup_lt_is_Some_2 l (i + n)) as [x Hx]; [lia|]. rewrite Hx. cbn [mbind option_bind].
  rewrite IH by lia. rewrite (take_S_r _ _ x) by (by rewrite lookup_drop).
  rewrite val_app, length_take, length_drop. cbn [val].
  pose proof (val_range (take n (drop i l)) ltac:(by apply Forall_take, Forall_drop)) as Hr.
  pose proof (Forall_lookup_1 _ _ _ _ Hl Hx) as Hxd.
  assert (0 < B ^ Z.of_nat (n `min` (length l - i))) by lia. unfold in_u in Hxd.
  destruct (Z.eqb_spec x 0) as [->|Hne]; cbn [negb].
  - f_equal. f_equal. f_equal. lia.
  - f_equal. symmetry. apply negb_true_iff, Z.eqb_neq. nia.
Qed.

Lemma mpveccmp_eq_ok a b n :
  is_digits a -> is_digits b -> (n <= length a)%nat -> (n <= length b)%nat ->
  mpveccmp_eq a b n = Some (Z.sgn (val (take n a) - val (take n b))).
Proof.
  intros Ha Hb. induction n as [|n IH]; intros Hna Hnb; [done|]. cbn [mpveccmp_eq].
  destruct (lookup_lt_is_Some_2 a n) as [x Hx]; [lia|].
  destruct (lookup_lt_is_Some_2 b n) as [y Hy]; [lia|]. rewrite Hx, Hy. cbn [mbind option_bind].
  rewrite IH by lia. rewrite (take_S_r _ _ x), (take_S_r _ _ y), !val_app, !length_take by done.
  pose proof (val_range (take n a) ltac:(by apply Forall_take)) as Hra.
  pose proof (val_range (take n b) ltac:(by apply Forall_take)) as Hrb.
  rewrite length_take in Hra, Hrb. rewrite !Nat.min_l in * by lia. cbn [val].
  pose proof (Forall_lookup_1 _ _ _ _ Ha Hx) as Hxd.
  pose proof (Forall_lookup_1 _ _ _ _ Hb Hy) as Hyd.
  destruct (sub_borrow x y Hxd Hyd) as (Hd & Hc & E). cbv zeta in *.
  destruct (Z.ltb_spec x (u32 (x - y))); destruct (Z.eqb_spec (u32 (x - y)) 0) as [E0|E0].
  - unfold in_u in *. lia.
  - f_equal. symmetry. apply Z.sgn_neg. unfold in_u in *. nia.
  - f_equal. f_equal. assert (x = y) as -> by lia. lia.
  - f_equal. symmetry. apply Z.sgn_pos. unfold in_u in *. nia.
Qed.

(** [mpveccmp] is the sign of the difference. *)
Lemma mpveccmp_ok a a' b b' :
  is_digits (a ++ a') -> is_digits (b ++ b') ->
  mpveccmp (a ++ a') (length a) (b ++ b') (length b) = Some (Z.sgn (val a - val b)).
Proof.
  intros Ha Hb. unfold mpveccmp.
  assert (forall (a a' b : list Z), is_digits (a ++ a') ->
    val a = val (take (length a `min` length b) (a ++ a'))
      + B ^ Z.of_nat (length a `min` length b) * val (take (length a - length b) (drop (length b) (a ++ a'))) /\
    0 <= val (take (length a - length b) (drop (length b) (a ++ a')))) as Hsplit.
  { clear. intros a a' b Ha. split.
    - destruct (Nat.le_gt_cases (length b) (length a)).
      + rewrite Nat.min_r, take_app_le, drop_app_le, take_app_le by (rewrite ?length_drop; lia).
        rewrite (take_ge (drop _ _)) by (rewrite length_drop; lia).
        rewrite <- (take_drop (length b) a) at 1. rewrite val_app, length_take. do 3 f_equal. lia.
      + rewrite Nat.min_l by lia. replace (length a - length b)%nat with 0%nat by lia.
        rewrite take_app_length, take_0. cbn [val]. lia.
    - apply val_range. by apply Forall_take, Forall_drop. }
  destruct (Hsplit a a' b Ha) as [Ea Pa]. destruct (Hsplit b b' a Hb) as [Eb Pb].
  rewrite (Nat.min_comm (length b)) in Eb. rewrite Ea, Eb. clear Hsplit Ea Eb.
  rewrite high_nonzero_ok, high_nonzero_ok by (done || rewrite ?length_app; lia).
  cbn [mbind option_bind]. rewrite mpveccmp_eq_ok by (done || rewrite ?length_app; lia).
  set (k := (length a `min` length b)%nat).
  pose proof (val_range (take k (a ++ a')) ltac:(by apply Forall_take)) as Ra.
  pose proof (val_range (take k (b ++ b')) ltac:(by apply Forall_take)) as Rb.
  rewrite length_take in Ra, Rb. rewrite !Nat.min_l in Ra, Rb by (rewrite length_app; lia).
  destruct (Nat.le_gt_cases (length b) (length a)).
  - replace (length b - length a)%nat with 0%nat by lia. rewrite !take_0. cbn [val Z.eqb negb].
    destruct (Z.eqb_spec (val (take (length a - length b) (drop (length b) (a ++ a')))) 0) as [E|E]; cbn [negb].
    + f_equal. f_equal. rewrite E. lia.
    + f_equal. symmetry. apply Z.sgn_pos. nia.
  - replace (length a - length b)%nat with 0%nat by lia. rewrite !take_0. cbn [val Z.eqb negb].
    destruct (Z.eqb_spec (val (take (length b - length a) (drop (length a) (b ++ b')))) 0) as [E|E]; cbn [negb].
    + f_equal. f_equal. rewrite E. lia.
    + f_equal. symmetry. apply Z.sgn_neg. nia.
Qed.

(** *** Products *)

Lemma LO_HI x : in_u 32 x -> x = LO x + 2 ^ 16 * HI x /\ in_u 16 (LO x) /\ in_u 16 (HI x).
Proof.
  intros Hx. unfold LO, HI. change ((1 .<< 16) - 1) with (Z.ones 16).
  rewrite land_ones_wrap, shiftr_div by lia. unfold wrap. divlia.
Qed.

Lemma mpdigmul_ok a b :
  in_u 32 a -> in_u 32 b ->
  let '(lo, hi) := mpdigmul a b in in_u 32 lo /\ in_u 32 hi /\ lo + B * hi = a * b.
Proof.
  intros Ha Hb. pose proof (LO_HI a Ha) as (Ea & Hal & Hah). pose proof (LO_HI b Hb) as (Eb & Hbl & Hbh).
  unfold mpdigmul.
  set (ah := HI a) in *. set (al := LO a) in *. set (bh := HI b) in *. set (bl := LO b) in *.
  assert (0 <= a * b <= (B - 1) * (B - 1)) as Hab by (unfold in_u in *; nia).
  assert (a * b = B * (ah * bh) + 2 ^ 16 * (ah * bl) + 2 ^ 16 * (bh * al) + bl * al) as E
    by (rewrite Ea, Eb; ring).
  assert (in_u 32 (ah * bl) /\ in_u 32 (bh * al) /\ in_u 32 (bl * al) /\ in_u 32 (ah * bh)) as (H1 & H2 & H3 & H4)
    by (unfold in_u in *; nia).
  rewrite (wrap_small 32 (ah * bl)), (wrap_small 32 (bh * al)), (wrap_small 32 (bl * al)),
    (wrap_small 32 (ah * bh)) by done.
  unfold HI. rewrite !shiftr_div, !Z.shiftl_mul_pow2 by lia. cbv zeta.
  revert Hab E H1 H2 H3 H4. clear.
  generalize (ah * bl), (bh * al), (bl * al), (ah * bh), (a * b). intros p1 p2 p3 p4 ab Hab E H1 H2 H3 H4.
  split_and!; [by apply wrap_range..|]. unfold wrap. bcase; divlia.
Qed.

Lemma muladd_digit d m y carry part1 :
  in_u 32 d -> in_u 32 m -> in_u 32 y -> 0 <= carry -> 0 <= part1 -> carry + part1 < B ->
  let x := u32 (part1 + carry) in
  let carry1 := if x <? carry then 1 else 0 in
  let '(lo, hi) := mpdigmul d m in
  let x1 := u32 (x + lo) in
  let carry2 := if x1 <? lo then carry1 + 1 else carry1 in
  let x2 := u32 (x1 + y) in
  let carry3 := if x2 <? y then carry2 + 1 else carry2 in
  in_u 32 x2 /\ 0 <= carry3 /\ 0 <= hi /\ carry3 + hi < B /\
  x2 + B * (carry3 + hi) = carry + part1 + d * m + y.
Proof.
  intros Hd Hm Hy Hc Hp Hs. pose proof (mpdigmul_ok d m Hd Hm) as Hmul.
  destruct (mpdigmul d m) as [lo hi]. destruct Hmul as (Hlo & Hhi & E). cbv zeta.
  assert (0 <= d * m <= (B - 1) * (B - 1)) as Hdm by (unfold in_u in *; nia).
  rewrite (wrap_small 32 (part1 + carry)) by range.
  destruct (Z.ltb_spec (part1 + carry) carry); [lia|].
  split; [by apply wrap_range|]. rewrite <- E in *. clear E. unfold wrap. bcase; divlia.
Qed.

Lemma mpvecdigmuladd_loop_ok b b' m p d p' carry part1 :
  is_digits b -> in_u 32 m -> is_digits p -> length p = length b ->
  0 <= carry -> 0 <= part1 -> carry + part1 < B ->
  exists r, mpvecdigmuladd_loop (length b) (b ++ b') m (p ++ d :: p') carry part1 = Some (r ++ p') /\
    length r = S (length b) /\ is_digits r /\ val r = val p + m * val b + carry + part1.
Proof.
  intros Hb Hm. revert p carry part1.
  induction Hb as [|x b Hx Hb IH]; intros [|y p] carry part1 Hp Hl Hc Hp1 Hs; try done.
  - exists [u32 (part1 + carry)]. cbn [mpvecdigmuladd_loop length app val].
    rewrite wrap_small by range. split_and!; try done; [repeat constructor; range|lia].
  - inversion_clear Hp as [|? ? Hy Hp']. cbn [mpvecdigmuladd_loop length app].
    pose proof (muladd_digit x m y carry part1 Hx Hm Hy Hc Hp1 Hs) as Hd.
    destruct (mpdigmul x m) as [lo hi]. cbv zeta in *. destruct Hd as (D1 & D2 & D3 & D4 & D5).
    destruct (IH p _ hi Hp' ltac:(by injection Hl) D2 D3 D4) as (r & Er & Hr & Hd & Hv).
    rewrite Er. cbn [mbind option_bind]. eexists (_ :: r). cbn [length val].
    split_and!; [done|by rewrite Hr|by constructor|]. rewrite Hv. lia.
Qed.

(** What [mpvecdigmuladd] promises: the digit above the [n] is overwritten. *)
Lemma mpvecdigmuladd_ok b b' m p d p' :
  is_digits b -> in_u 32 m -> is_digits p -> length p = length b ->
  exists r, mpvecdigmuladd (b ++ b') (length b) m (p ++ d :: p') = Some (r ++ p') /\
    length r = S (length b) /\ is_digits r /\ val r = val p + m * val b.
Proof.
  intros Hb Hm Hp Hl.
  destruct (mpvecdigmuladd_loop_ok b b' m p d p' 0 0) as (r & Er & Hr & Hd & Hv); try done.
  exists r. split_and!; try done. lia.
Qed.

Lemma mulsub_digit d m x borrow part1 :
  in_u 32 d -> in_u 32 m -> in_u 32 x -> 0 <= borrow -> 0 <= part1 -> borrow + part1 < B ->
  let y := u32 (x - borrow) in
  let borrow1 := if x <? y then 1 else 0 in
  let '(lo, hi) := mpdigmul d m in
  let x1 := u32 (part1 + lo) in
  let borrow2 := if x1 <? lo then borrow1 + 1 else borrow1 in
  let x2 := u32 (y - x1) in
  let borrow3 := if y <? x2 then borrow2 + 1 else borrow2 in
  in_u 32 x2 /\ 0 <= borrow3 /\ 0 <= hi /\ borrow3 + hi < B /\
  x2 - B * (borrow3 + hi) = x - (borrow + part1 + d * m).
Proof.
  intros Hd Hm Hx Hc Hp Hs. pose proof (mpdigmul_ok d m Hd Hm) as Hmul.
  destruct (mpdigmul d m) as [lo hi]. destruct Hmul as (Hlo & Hhi & E). cbv zeta.
  assert (0 <= d * m <= (B - 1) * (B - 1)) as Hdm by (unfold in_u in *; nia).
  split; [by apply wrap_range|]. rewrite <- E in *. clear E.
  destruct (sub_borrow x borrow Hx ltac:(lia)) as (Hy & Hb1 & E1). cbv zeta in *.
  set (y := u32 (x - borrow)) in *. set (b1 := if x <? y then 1 else 0) in *.
  clearbody y b1. destruct (sub_borrow y (u32 (part1 + lo)) Hy) as (Hx2 & Hb3 & E3).
  { apply wrap_range. lia. }
  cbv zeta in *. set (x2 := u32 (y - u32 (part1 + lo))) in *. clearbody x2.
  unfold wrap in *. bcase; divlia.
Qed.

Lemma mpvecdigmulsub_loop_ok b b' m p d p' borrow part1 :
  is_digits b -> in_u 32 m -> is_digits p -> in_u 32 d -> length p = length b ->
  0 <= borrow -> 0 <= part1 -> borrow + part1 < B ->
  exists r c, mpvecdigmulsub_loop (length b) (b ++ b') m (p ++ d :: p') borrow part1
      = Some (if c =? 1 then -1 else 1, r ++ p') /\
    length r = S (length b) /\ is_digits r /\ 0 <= c <= 1 /\
    val r - B ^ len r * c = val (p ++ [d]) - m * val b - borrow - part1.
Proof.
  intros Hb Hm. revert p borrow part1.
  induction Hb as [|y b Hy Hb IH]; intros [|x p] borrow part1 Hp Hdd Hl Hc Hp1 Hs; try done.
  - cbn [mpvecdigmulsub_loop length app val].
    destruct (sub_borrow d (borrow + part1) Hdd ltac:(lia)) as (Hy & Hc1 & E). cbv zeta in *.
    rewrite Z.sub_add_distr in *. set (y := u32 (d - borrow - part1)) in *.
    exists [y], (if d <? y then 1 else 0). cbn [app length val].
    change (B ^ Z.of_nat 1) with B. split_and!; try done; try lia.
    + by destruct (d <? y).
    + by apply Forall_singleton.
  - inversion_clear Hp as [|? ? Hx Hp']. cbn [mpvecdigmulsub_loop length app].
    pose proof (mulsub_digit y m x borrow part1 Hy Hm Hx Hc Hp1 Hs) as Hd.
    destruct (mpdigmul y m) as [lo hi]. cbv zeta in *. destruct Hd as (D1 & D2 & D3 & D4 & D5).
    destruct (IH p _ hi Hp' Hdd ltac:(by injection Hl) D2 D3 D4) as (r & c & Er & Hr & Hd & Hc' & Hv).
    rewrite Er. cbn [mbind option_bind]. eexists (_ :: r), c. cbn [length val].
    split_and!; [done|by rewrite Hr|by constructor|lia..|].
    rewrite Nat2Z.inj_succ, Z.pow_succ_r by lia. lia.
Qed.

(** What [mpvecdigmulsub] promises: -1 says that the difference was negative, and then it is
    off by a power of the base. *)
Lemma mpvecdigmulsub_ok b b' m p d p' :
  is_digits b -> in_u 32 m -> is_digits p -> in_u 32 d -> length p = length b ->
  exists r sign, mpvecdigmulsub (b ++ b') (length b) m (p ++ d :: p') = Some (sign, r ++ p') /\
    length r = S (length b) /\ is_digits r /\
    (if m * val b <=? val (p ++ [d])
     then sign = 1 /\ val r = val (p ++ [d]) - m * val b
     else sign = -1 /\ val r = val (p ++ [d]) - m * val b + B ^ len r).
Proof.
  intros Hb Hm Hp Hd Hl.
  destruct (mpvecdigmulsub_loop_ok b b' m p d p' 0 0) as (r & c & Er & Hr & Hdr & Hc & Hv); try done.
  exists r, (if c =? 1 then -1 else 1). split_and!; try done.
  pose proof (val_range r Hdr) as Hrr. pose proof (val_range (p ++ [d])) as Hpr.
  rewrite length_app, Hl in Hpr. cbn [length] in Hpr. rewrite Nat.add_1_r, <- Hr in Hpr.
  specialize (Hpr ltac:(apply Forall_app; split; [done|by constructor])).
  assert (c = 0 \/ c = 1) as [-> | ->] by lia; bcase; try lia; split; try done; lia.
Qed.

(** *** Division of two digits by one *)

(** The divisor times a power of two, as two digits. *)
Lemma shifted_divisor d i :
  in_u 32 d -> 0 <= i <= 32 -> d * 2 ^ i = (d / 2 ^ (32 - i)) * B + u32 (d .<< i).
Proof.
  intros Hd Hi. rewrite Z.shiftl_mul_pow2 by lia. unfold wrap.
  rewrite (Z.div_mod (d * 2 ^ i) B) at 1 by lia.
  assert (B = 2 ^ (32 - i) * 2 ^ i) as E by (rewrite <- Z.pow_add_r by lia; f_equal; lia).
  rewrite E at 2. rewrite Z.div_mul_cancel_r by lia. lia.
Qed.

(** A bit below those of [q]. *)
Lemma set_bit q i : 0 <= i -> q mod 2 ^ (i + 1) = 0 -> q .| (1 .<< i) = q + 2 ^ i.
Proof.
  intros Hi Hq. rewrite (Z.div_mod q (2 ^ (i + 1))), Hq, Z.add_0_r by lia.
  rewrite Z.mul_comm, <- Z.shiftl_mul_pow2, Z.lor_comm, Z.shiftl_1_l by lia.
  assert (in_u (i + 1) (2 ^ i)) as Hin by (split; [lia|apply Z.pow_lt_mono_r; lia]).
  rewrite lor_shiftl_add, Z.shiftl_mul_pow2 by (done || lia). lia.
Qed.

(** Subtracting a two-digit number from one that is not smaller. *)
Lemma sub_two hi lo x y :
  in_u 32 hi -> in_u 32 lo -> in_u 32 y -> 0 <= x -> x * B + y <= hi * B + lo ->
  let h := if lo <? y then hi - 1 else hi in
  in_u 32 (u32 (h - x)) /\ in_u 32 (u32 (lo - y)) /\
  u32 (h - x) * B + u32 (lo - y) = hi * B + lo - (x * B + y).
Proof.
  intros Hhi Hlo Hy Hx Hle h. split_and!; [by apply wrap_range..|].
  unfold h, in_u in *. destruct (Z.ltb_spec lo y).
  - rewrite (wrap_small 32 (hi - 1 - x)) by range. unfold wrap. divlia.
  - rewrite (wrap_small 32 (hi - x)) by range. unfold wrap. divlia.
Qed.

Lemma mpdigdiv_loop_ok n d hi lo q :
  in_u 32 d -> in_u 32 lo -> in_u 32 hi -> (n <= 32)%nat ->
  hi * B + lo < d * 2 ^ Z.of_nat n -> q mod 2 ^ Z.of_nat n = 0 ->
  let '(lo', q') := mpdigdiv_loop n d hi lo (d / 2 ^ (32 - Z.of_nat n)) q in
  0 <= lo' /\ q' * d + lo' = q * d + (hi * B + lo).
Proof.
  intros Hd. revert hi lo q. induction n as [|i IH]; intros hi lo q Hlo Hhi Hn Hlt Hq.
  { cbn [mpdigdiv_loop]. rewrite Z.pow_0_r in Hlt. unfold in_u in *. assert (hi = 0) by lia. lia. }
  cbn [mpdigdiv_loop]. rewrite Nat2Z.inj_succ in *.
  destruct (Z.ltb_spec 0 hi) as [Hp|Hz].
  2: { unfold in_u in *. assert (hi = 0) by lia. lia. }
  assert ((d / 2 ^ (32 - Z.succ (Z.of_nat i))) .>> 1 = d / 2 ^ (32 - Z.of_nat i)) as ->.
  { rewrite shiftr_div, Z.div_div by lia. f_equal. rewrite <- Z.pow_add_r by lia. f_equal. lia. }
  pose proof (shifted_divisor d (Z.of_nat i) Hd ltac:(lia)) as Ed.
  pose proof (wrap_range 32 (d .<< Z.of_nat i) ltac:(lia)) as Hy.
  set (x := d / 2 ^ (32 - Z.of_nat i)) in *. set (y := u32 (d .<< Z.of_nat i)) in *.
  assert (0 <= x) as Hx by (apply Z.div_pos; unfold in_u in *; lia).
  assert (q mod 2 ^ Z.of_nat i = 0) as Hqi.
  { rewrite <- Z.add_1_r, Z.pow_add_r in Hq by lia.
    rewrite <- (Z.mod_mod_divide q (2 ^ Z.of_nat i * 2 ^ 1)), Hq by (by exists (2 ^ 1); lia). done. }
  rewrite Z.pow_succ_r in Hlt by lia.
  assert (hi * B + lo < x * B + y ->
    let '(lo', q') := mpdigdiv_loop i d hi lo x q in
    0 <= lo' /\ q' * d + lo' = q * d + (hi * B + lo)) as Hskip.
  { intros Hs. apply IH; [done|done|lia|lia|done]. }
  assert (x * B + y <= hi * B + lo ->
    let h := if lo <? y then hi - 1 else hi in
    let '(lo', q') := mpdigdiv_loop i d (u32 (h - x)) (u32 (lo - y)) x (q .| u32 (1 .<< Z.of_nat i)) in
    0 <= lo' /\ q' * d + lo' = q * d + (hi * B + lo)) as Htake.
  { intros Hs h. destruct (sub_two hi lo x y Hhi Hlo Hy Hx Hs) as (Hh & Hl & Es). fold h in Hh, Es.
    rewrite (wrap_small 32 (1 .<< Z.of_nat i)) by
      (rewrite Z.shiftl_1_l; split; [lia|apply Z.pow_lt_mono_r; lia]).
    rewrite set_bit by (rewrite ?Z.add_1_r; lia).
    specialize (IH (u32 (h - x)) (u32 (lo - y)) (q + 2 ^ Z.of_nat i) Hl Hh ltac:(lia) ltac:(lia)).
    destruct (mpdigdiv_loop i d (u32 (h - x)) (u32 (lo - y)) x _) as [lo' q''].
    destruct IH as [? IH]; [|rewrite IH, Es; lia].
    replace (q + 2 ^ Z.of_nat i) with (q + 1 * 2 ^ Z.of_nat i) by lia. by rewrite Z_mod_plus_full. }
  clear IH. unfold in_u in *.
  destruct (Z.ltb_spec hi x); [apply Hskip; nia|].
  destruct (Z.eqb_spec x hi) as [<-|Hne]; destruct (Z.ltb_spec lo y); cbn [andb];
    first [ apply Hskip; nia | apply Htake; nia ].
Qed.

(** [mpdigdiv] divides, when the quotient is a digit. *)
Lemma mpdigdiv_ok lo hi d :
  in_u 32 lo -> in_u 32 hi -> in_u 32 d -> hi < d -> mpdigdiv lo hi d = (hi * B + lo) / d.
Proof.
  intros Hlo Hhi Hd Hlt. unfold mpdigdiv. unfold in_u in *.
  destruct (Z.leb_spec d hi); [lia|]. destruct (Z.eqb_spec d 0); [lia|]. cbn [orb].
  pose proof (mpdigdiv_loop_ok 32 d hi lo 0 Hd Hlo Hhi ltac:(lia) ltac:(cbn; lia) eq_refl) as HL.
  change (32 - Z.of_nat 32) with 0 in HL. rewrite Z.pow_0_r, Z.div_1_r in HL.
  destruct (mpdigdiv_loop 32 d hi lo d 0) as [lo' q']. destruct HL as [Hl E].
  rewrite Z.mul_0_l, Z.add_0_l in E. rewrite <- E, Z.div_add_l by lia.
  apply wrap_small. unfold in_u.
  assert (0 <= (q' * d + lo') / d < B) as Hr.
  { rewrite E. split; [apply Z.div_pos; lia|apply Z.div_lt_upper_bound; lia]. }
  rewrite Z.div_add_l in Hr by lia. exact Hr.
Qed.
