(* ===== verification/Mpmul.v ===== *)
(** * Multiplication of vectors: [libmp/port/mpmul.c]

    The schoolbook loop and Karatsuba's method, which call each other, and the proof that both
    compute the product. *)

From S2P Require Import Prelude Mpvec.

(** ** The routines *)

(** A vector routine applied at [p + k], with its result there. *)
Definition at_offset (k : nat) (p : list Z) (f : list Z -> option (list Z)) : option (list Z) :=
  r ← f (drop k p);
  Some (take k p ++ r).

(** The loop of [mpvecmul]: digits [i], [i+1], ... of [b], [n] of them. *)
Fixpoint mpvecmul_loop (n i : nat) (a : list Z) (alen : nat) (b p : list Z) : option (list Z) :=
  match n with
  | O => Some p
  | S n =>
      d ← b !! i;
      p ← (if d =? 0 then Some p else at_offset i p (mpvecdigmuladd a alen d));
      mpvecmul_loop n (S i) a alen b p
  end.

Definition KARATSUBAMIN : nat := 32.

(** [mpkaratsuba] once the lengths of the halves are known, with the [mpvecmul] it calls. The
    pieces of the block [t] are lists of their own; a write outside of its piece is an error
    here. *)
Definition mpkaratsuba_halves
    (mpvecmul : list Z -> nat -> list Z -> nat -> list Z -> option (list Z))
    (a : list Z) (alen : nat) (b : list Z) (blen : nat) (p : list Z)
    (n u1len v0len v1len : nat) : option (list Z) :=
  let u0len := n in
  let u0 := a in
  let u1 := drop u0len a in
  let v0 := b in
  let v1 := drop v0len b in
  let zeros := replicate (2 * n + 1) 0 in
  let reslen := (4 * n + 1)%nat in
  (* t[0] = (u1-u0) *)
  c ← mpveccmp u1 u1len u0 u0len;
  '(sign, u0v0) ← (if c <? 0 then r ← mpvecsub u0 u0len u1 u1len zeros; Some (-1, r)
                   else r ← mpvecsub u1 u1len u0 u1len zeros; Some (1, r));
  (* t[1] = (v0-v1) *)
  c ← mpveccmp v0 v0len v1 v1len;
  '(sign, u1v1) ← (if c <? 0 then r ← mpvecsub v1 v1len v0 v1len zeros; Some (- sign, r)
                   else r ← mpvecsub v0 v0len v1 v1len zeros; Some (sign, r));
  (* t[4:5] = (u1-u0)*(v0-v1) *)
  diffprod ← mpvecmul u0v0 u0len u1v1 v0len zeros;
  (* t[0:1] = u1*v1 *)
  u1v1 ← (if (0 <? v1len)%nat then mpvecmul u1 u1len v1 v1len zeros else Some zeros);
  (* t[2:3] = u0v0 *)
  u0v0 ← mpvecmul u0 u0len v0 v0len zeros;
  (* res = u0*v0<<n + u0*v0 *)
  let res := replicate (2 * (2 * n + 1)) 0 in
  let add k x xlen res := at_offset k res (fun r => mpvecadd r (reslen - k) x xlen r) in
  res ← add 0%nat u0v0 (u0len + v0len)%nat res;
  res ← add n u0v0 (u0len + v0len)%nat res;
  (* res += u1*v1<<n + u1*v1<<2*n *)
  res ← (if (0 <? v1len)%nat then
           res ← add n u1v1 (u1len + v1len)%nat res;
           add (2 * n)%nat u1v1 (u1len + v1len)%nat res
         else Some res);
  (* res += (u1-u0)*(v0-v1)<<n *)
  res ← (if sign <? 0 then
           at_offset n res (fun r => mpvecsub r (reslen - n) diffprod (u0len + v0len) r)
         else add n diffprod (u0len + v0len)%nat res);
  r ← load res 0 (Z.of_nat (alen + blen));
  store p 0 r.

Definition mpkaratsuba
    (mpvecmul : list Z -> nat -> list Z -> nat -> list Z -> option (list Z))
    (a : list Z) (alen : nat) (b : list Z) (blen : nat) (p : list Z) : option (list Z) :=
  let n := (if Nat.odd alen then alen / 2 + 1 else alen / 2)%nat in
  let '(v0len, v1len) := if (n <? blen)%nat then (n, (blen - n)%nat) else (blen, 0%nat) in
  mpkaratsuba_halves mpvecmul a alen b blen p n (alen - n) v0len v1len.

Fixpoint mpvecmul (fuel : nat) (a : list Z) (alen : nat) (b : list Z) (blen : nat) (p : list Z)
    {struct fuel} : option (list Z) :=
  match fuel with
  | O => None
  | S fuel =>
      let '(a, alen, b, blen) :=
        if (alen <? blen)%nat then (b, blen, a, alen) else (a, alen, b, blen) in
      if (blen =? 0)%nat then store p 0 (replicate (alen + blen) 0)
      else if (KARATSUBAMIN <=? alen)%nat && (1 <? blen)%nat then
        mpkaratsuba (mpvecmul fuel) a alen b blen p
      else mpvecmul_loop blen 0 a alen b p
  end.

(** ** The schoolbook loop *)

Lemma mpvecmul_loop_ok n i a a' b p p' :
  is_digits a -> is_digits b -> is_digits p -> (i + n <= length b)%nat ->
  length p = (length a + i)%nat ->
  exists r, mpvecmul_loop n i (a ++ a') (length a) b (p ++ replicate n 0 ++ p') = Some (r ++ p') /\
    length r = (length p + n)%nat /\ is_digits r /\
    val r = val p + B ^ Z.of_nat i * (val a * val (take n (drop i b))).
Proof.
  intros Ha Hb. revert i p. induction n as [|n IH]; intros i p Hp Hn Hl.
  { exists p. cbn. rewrite take_0. cbn. split_and!; try done; lia. }
  cbn [mpvecmul_loop]. destruct (lookup_lt_is_Some_2 b i) as [d Hd]; [lia|]. rewrite Hd.
  cbn [mbind option_bind]. pose proof (Forall_lookup_1 _ _ _ _ Hb Hd) as Hdd.
  assert (exists p1, (if d =? 0 then Some (p ++ replicate (S n) 0 ++ p')
      else at_offset i (p ++ replicate (S n) 0 ++ p') (mpvecdigmuladd (a ++ a') (length a) d))
      = Some (p1 ++ replicate n 0 ++ p') /\ length p1 = S (length p) /\ is_digits p1 /\
      val p1 = val p + B ^ Z.of_nat i * (val a * d)) as (p1 & E1 & Hl1 & Hp1 & Hv1).
  { destruct (Z.eqb_spec d 0) as [->|Hne].
    - exists (p ++ [0]). rewrite val_app, length_app. cbn [replicate val app length].
      split_and!; [by rewrite <- app_assoc|lia|apply Forall_app; split; [done|by apply Forall_singleton]|lia].
    - destruct (mpvecdigmuladd_ok a a' d (drop i p) 0 (replicate n 0 ++ p')) as (r & Er & Hr & Hdr & Hv);
        [done|done|by apply Forall_drop|rewrite length_drop; lia|].
      exists (take i p ++ r). unfold at_offset. rewrite drop_app_le, take_app_le by lia.
      cbn [replicate app]. rewrite Er. cbn [mbind option_bind].
      rewrite val_app, length_app, length_take, Hv.
      split_and!; [by rewrite <- app_assoc|lia|apply Forall_app; split; [by apply Forall_take|done]|].
      rewrite Nat.min_l, (val_split i p) by lia. ring. }
  rewrite E1. cbn [mbind option_bind].
  destruct (IH (S i) p1 Hp1 ltac:(lia) ltac:(lia)) as (r & Er & Hr & Hdr & Hv).
  exists r. split_and!; [done|lia|done|]. rewrite Hv, Hv1.
  rewrite (drop_S b d i Hd). cbn [take val]. rewrite Nat2Z.inj_succ, Z.pow_succ_r by lia. ring.
Qed.

(** ** Karatsuba's method *)

(** The first [length x] digits of [z] replaced by those of [x]. *)
Lemma zeros_split k n : (k <= n)%nat -> replicate n 0 = replicate k (0 : Z) ++ replicate (n - k) 0.
Proof. intros. rewrite <- replicate_add. f_equal. lia. Qed.

(** The difference of the halves when the long one is not smaller. *)
Lemma sub_long x0 x0' x1 x1' n :
  is_digits x0 -> is_digits x1 -> (length x1 <= length x0 <= n)%nat -> val x1 <= val x0 ->
  exists r, mpvecsub (x0 ++ x0') (length x0) (x1 ++ x1') (length x1) (replicate n 0)
      = Some (r ++ replicate (n - length x0) 0) /\
    length r = length x0 /\ is_digits r /\ val r = val x0 - val x1.
Proof.
  intros H0 H1 [Hl Hn] Hv. rewrite (zeros_split (length x0) n Hn).
  destruct (mpvecsub_ok x0 x0' x1 x1' (replicate (length x0) 0) (replicate (n - length x0) 0))
    as (r & Er & Hr & Hd & E); try done; [by rewrite length_replicate|].
  rewrite length_replicate in Hr. by exists r.
Qed.

(** And when the short one is not: its digits are all that is subtracted from. *)
Lemma sub_short x0 x0' x1 x1' n :
  is_digits x0 -> is_digits x1 -> (length x1 <= length x0 <= n)%nat -> val x0 <= val x1 ->
  exists r, mpvecsub (x1 ++ x1') (length x1) (x0 ++ x0') (length x1) (replicate n 0)
      = Some (r ++ replicate (n - length x0) 0) /\
    length r = length x0 /\ is_digits r /\ val r = val x1 - val x0.
Proof.
  intros H0 H1 [Hl Hn] Hv. rewrite (zeros_split (length x1) n) by lia.
  pose proof (val_split (length x1) x0 Hl) as E0.
  pose proof (val_range x1 H1) as R1.
  pose proof (val_range (take (length x1) x0) ltac:(by apply Forall_take)) as R2.
  pose proof (val_range (drop (length x1) x0) ltac:(by apply Forall_drop)) as R3.
  assert (val (drop (length x1) x0) = 0) as Ez by nia.
  replace (x0 ++ x0') with (take (length x1) x0 ++ (drop (length x1) x0 ++ x0'))
    by (by rewrite app_assoc, take_drop).
  destruct (mpvecsub_ok x1 x1' (take (length x1) x0) (drop (length x1) x0 ++ x0')
    (replicate (length x1) 0) (replicate (n - length x1) 0)) as (r & Er & Hr & Hd & E); try done.
  - by apply Forall_take.
  - rewrite length_take. lia.
  - by rewrite length_replicate.
  - nia.
  - rewrite length_take, Nat.min_l in Er by lia. rewrite length_replicate in Hr.
    exists (r ++ replicate (length x0 - length x1) 0). rewrite Er, <- app_assoc, <- replicate_add.
    rewrite length_app, length_replicate, val_app, val_zeros, E.
    split_and!; [do 3 f_equal; lia|lia|apply Forall_app; split; [done|apply digits_zeros]|nia].
Qed.

(** Adding into [res] at an offset: without overflow the digit above stays 0. *)
Lemma add_at k body t x x' :
  is_digits body -> is_digits x -> (k + length x <= length body)%nat ->
  val body + B ^ Z.of_nat k * val x < B ^ len body ->
  exists body', at_offset k (body ++ [t])
      (fun r => mpvecadd r (length body - k) (x ++ x') (length x) r) = Some (body' ++ [0]) /\
    length body' = length body /\ is_digits body' /\ val body' = val body + B ^ Z.of_nat k * val x.
Proof.
  intros Hb Hx Hl Hlt. unfold at_offset. rewrite drop_app_le, take_app_le by lia.
  rewrite <- (length_drop body k).
  destruct (mpvecadd_ok (drop k body) [t] x x' (drop k body ++ [t]) []) as (r & Er & Hr & Hd & E).
  - by apply Forall_drop.
  - done.
  - rewrite length_drop. lia.
  - rewrite length_app. cbn. lia.
  - rewrite app_nil_r in Er. rewrite Er. cbn [mbind option_bind]. rewrite app_nil_r.
    pose proof (val_split k body ltac:(lia)) as Eb.
    pose proof (val_range (take k body) ltac:(by apply Forall_take)) as Rt.
    rewrite length_app, length_drop in Hr. cbn [length] in Hr.
    destruct (exists_last (l := r)) as (r0 & c & ->); [by intros ->; cbn in Hr; lia|].
    rewrite val_app in E. cbn [val] in E. apply Forall_app in Hd as [Hd Hc].
    rewrite Forall_singleton in Hc. rewrite length_app in Hr. cbn [length] in Hr.
    pose proof (val_range r0 Hd) as Rr.
    assert (B ^ len body = B ^ Z.of_nat k * B ^ len r0) as Ep
      by (rewrite <- Z.pow_add_r by lia; f_equal; lia).
    assert (0 < B ^ Z.of_nat k) by lia. assert (0 < B ^ len r0) by lia.
    assert (c = 0) as ->.
    { assert (val (drop k body) + val x < B ^ len r0).
      { apply (Z.mul_lt_mono_pos_l (B ^ Z.of_nat k)); [done|]. rewrite <- Ep, Z.mul_add_distr_l. lia. }
      unfold in_u in Hc. destruct (Z.eq_dec c 0) as [|Hne]; [done|]. nia. }
    exists (take k body ++ r0). rewrite length_app, length_take, val_app, length_take, Nat.min_l by lia.
    split_and!; [by rewrite <- app_assoc|lia|apply Forall_app; split; [by apply Forall_take|done]|nia].
Qed.

Lemma sub_at k body t x x' :
  is_digits body -> is_digits x -> (k + length x <= length body)%nat ->
  B ^ Z.of_nat k * val x <= val body ->
  exists body', at_offset k (body ++ [t])
      (fun r => mpvecsub r (length body - k) (x ++ x') (length x) r) = Some (body' ++ [t]) /\
    length body' = length body /\ is_digits body' /\ val body' = val body - B ^ Z.of_nat k * val x.
Proof.
  intros Hb Hx Hl Hle. unfold at_offset. rewrite drop_app_le, take_app_le by lia.
  rewrite <- (length_drop body k).
  pose proof (val_split k body ltac:(lia)) as Eb.
  pose proof (val_range (take k body) ltac:(by apply Forall_take)) as Rt.
  rewrite length_take, Nat.min_l in Rt by lia.
  destruct (mpvecsub_ok (drop k body) [t] x x' (drop k body) [t]) as (r & Er & Hr & Hd & E); try done.
  - by apply Forall_drop.
  - rewrite length_drop. lia.
  - nia.
  - rewrite Er. cbn [mbind option_bind]. rewrite length_drop in Hr.
    exists (take k body ++ r). rewrite length_app, length_take, val_app, length_take, Nat.min_l by lia.
    split_and!; [by rewrite <- app_assoc|lia|apply Forall_app; split; [by apply Forall_take|done]|nia].
Qed.

(** A routine that multiplies vectors of fewer than [k] digits. *)
Definition multiplies (mul : list Z -> nat -> list Z -> nat -> list Z -> option (list Z)) (k : nat)
    : Prop :=
  forall a a' b b' p', is_digits (a ++ a') -> is_digits (b ++ b') ->
    (length a < k)%nat -> (length b < k)%nat ->
    exists r, mul (a ++ a') (length a) (b ++ b') (length b)
        (replicate (length a + length b) 0 ++ p') = Some (r ++ p') /\
      length r = (length a + length b)%nat /\ is_digits r /\ val r = val a * val b.

(** Into a block of zeros. *)
Lemma multiplies_zeros mul k a a' b b' n :
  multiplies mul k -> is_digits (a ++ a') -> is_digits (b ++ b') ->
  (length a < k)%nat -> (length b < k)%nat -> (length a + length b <= n)%nat ->
  exists r, mul (a ++ a') (length a) (b ++ b') (length b) (replicate n 0)
      = Some (r ++ replicate (n - (length a + length b)) 0) /\
    length r = (length a + length b)%nat /\ is_digits r /\ val r = val a * val b.
Proof. intros Hm Ha Hb Hla Hlb Hn. rewrite (zeros_split (length a + length b) n Hn). by apply Hm. Qed.

(** The differences of the halves: [u1 - u0] and [v0 - v1] as a sign and digits. *)
Section differences.
Context (x0 x0' x1 x1' : list Z) (n : nat).
Hypotheses (H0 : is_digits (x0 ++ x0')) (H1 : is_digits (x1 ++ x1'))
  (Hl : (length x1 <= length x0 <= n)%nat).

Lemma diff_u :
  exists r sign, (c ← mpveccmp (x1 ++ x1') (length x1) (x0 ++ x0') (length x0);
      if c <? 0 then
        r ← mpvecsub (x0 ++ x0') (length x0) (x1 ++ x1') (length x1) (replicate n 0); Some (-1, r)
      else r ← mpvecsub (x1 ++ x1') (length x1) (x0 ++ x0') (length x1) (replicate n 0); Some (1, r))
      = Some (sign, r ++ replicate (n - length x0) 0) /\
    length r = length x0 /\ is_digits r /\ (sign = 1 \/ sign = -1) /\
    sign * val r = val x1 - val x0.
Proof using All.
  rewrite mpveccmp_ok by done. cbn [mbind option_bind].
  apply Forall_app in H0 as [D0 _], H1 as [D1 _].
  destruct (Z.ltb_spec (Z.sgn (val x1 - val x0)) 0).
  - destruct (sub_long x0 x0' x1 x1' n D0 D1 Hl ltac:(lia)) as (r & -> & Hr & Hd & E).
    exists r, (-1). cbn [mbind option_bind]. split_and!; try done; [by right|lia].
  - destruct (sub_short x0 x0' x1 x1' n D0 D1 Hl ltac:(lia)) as (r & -> & Hr & Hd & E).
    exists r, 1. cbn [mbind option_bind]. split_and!; try done; [by left|lia].
Qed.

Lemma diff_v sign :
  exists r sign', (c ← mpveccmp (x0 ++ x0') (length x0) (x1 ++ x1') (length x1);
      if c <? 0 then
        r ← mpvecsub (x1 ++ x1') (length x1) (x0 ++ x0') (length x1) (replicate n 0); Some (- sign, r)
      else r ← mpvecsub (x0 ++ x0') (length x0) (x1 ++ x1') (length x1) (replicate n 0); Some (sign, r))
      = Some (sign', r ++ replicate (n - length x0) 0) /\
    length r = length x0 /\ is_digits r /\ (sign' = sign \/ sign' = - sign) /\
    sign' * val r = sign * (val x0 - val x1).
Proof using All.
  rewrite mpveccmp_ok by done. cbn [mbind option_bind].
  apply Forall_app in H0 as [D0 _], H1 as [D1 _].
  destruct (Z.ltb_spec (Z.sgn (val x0 - val x1)) 0).
  - destruct (sub_short x0 x0' x1 x1' n D0 D1 Hl ltac:(lia)) as (r & -> & Hr & Hd & E).
    exists r, (- sign). cbn [mbind option_bind]. rewrite E. split_and!; try done; [by right|lia].
  - destruct (sub_long x0 x0' x1 x1' n D0 D1 Hl ltac:(lia)) as (r & -> & Hr & Hd & E).
    exists r, sign. cbn [mbind option_bind]. rewrite E. split_and!; try done; by left.
Qed.
End differences.

(** The last part of [mpkaratsuba]: the sum of the three products. *)
Lemma karatsuba_sum n sign ps0 ps1 psd x0' x1' xd' l0 l1 l2 :
  is_digits ps0 -> is_digits ps1 -> is_digits psd -> (1 <= n)%nat ->
  (length ps0 <= 2 * n)%nat -> (length ps1 <= 2 * n)%nat -> length psd = length ps0 ->
  length ps0 = l0 -> (l1 = 0%nat -> val ps1 = 0) -> (0 < l1 -> length ps1 = l2)%nat ->
  sign = 1 \/ sign = -1 -> 0 <= val ps0 + val ps1 + sign * val psd ->
  let reslen := (4 * n + 1)%nat in
  let add k x xlen res := at_offset k res (fun r => mpvecadd r (reslen - k) x xlen r) in
  exists res,
    (res ← add 0%nat (ps0 ++ x0') l0 (replicate (2 * (2 * n + 1)) 0);
     res ← add n (ps0 ++ x0') l0 res;
     res ← (if (0 <? l1)%nat then
              res ← add n (ps1 ++ x1') l2 res; add (2 * n)%nat (ps1 ++ x1') l2 res
            else Some res);
     if sign <? 0 then at_offset n res (fun r => mpvecsub r (reslen - n) (psd ++ xd') l0 r)
     else add n (psd ++ xd') l0 res) = Some (res ++ [0]) /\
    length res = reslen /\ is_digits res /\
    val res = val ps0 + B ^ Z.of_nat n * (val ps0 + val ps1 + sign * val psd)
              + B ^ Z.of_nat n * B ^ Z.of_nat n * val ps1.
Proof.
  intros D0 D1 Dd Hn L0 L1 Ld <- Hz Hl1 Hsign Hpos reslen add.
  set (X := B ^ Z.of_nat n). set (Y := B ^ Z.of_nat reslen).
  assert (0 < X) by (unfold X; lia).
  assert (Y = X * X * X * X * B) as EY.
  { unfold X, Y, reslen. rewrite <- !Z.pow_add_r by lia.
    replace B with (B ^ 1) at 3 by done. rewrite <- Z.pow_add_r by lia. f_equal. lia. }
  assert (forall l, is_digits l -> (length l <= 2 * n)%nat -> 0 <= val l < X * X) as Hr.
  { intros l Hl Hle. pose proof (val_range l Hl). unfold X. rewrite <- Z.pow_add_r by lia.
    assert (B ^ len l <= B ^ (Z.of_nat n + Z.of_nat n)) by (apply Z.pow_le_mono_r; lia). lia. }
  pose proof (Hr ps0 D0 L0) as R0. pose proof (Hr ps1 D1 L1) as R1. pose proof (Hr psd Dd ltac:(lia)) as Rd.
  assert (X <= X * X) as HX2 by nia. assert (X * X <= X * X * X) as HX3 by nia.
  assert (X * X * X <= X * X * X * X) as HX4 by nia.
  replace (replicate (2 * (2 * n + 1)) 0) with (replicate reslen 0 ++ [0 : Z]); cycle 1.
  { change [0 : Z] with (replicate 1 (0 : Z)). rewrite <- replicate_add. f_equal. unfold reslen. lia. }
  assert (forall k body t x x', is_digits body -> length body = reslen -> is_digits x ->
    (k + length x <= reslen)%nat -> val body + B ^ Z.of_nat k * val x < Y ->
    exists body', add k (x ++ x') (length x) (body ++ [t]) = Some (body' ++ [0]) /\
      length body' = reslen /\ is_digits body' /\ val body' = val body + B ^ Z.of_nat k * val x) as Hadd.
  { intros k body t x x' Hb Hlb Hx Hk Hlt. unfold add. rewrite <- Hlb.
    apply add_at; [done|done|lia|]. by rewrite Hlb. }
  assert (X * val ps0 <= X * (X * X) /\ X * val ps1 <= X * (X * X) /\ X * val psd <= X * (X * X) /\
    X * X * val ps1 <= X * X * (X * X) /\ 0 <= X * val ps0 /\ 0 <= X * val ps1 /\ 0 <= X * X * val ps1 /\
    0 <= X * val psd) as (B1 & B2 & B3 & B4 & B5 & B6 & B7 & B8) by nia.
  destruct (Hadd 0%nat (replicate reslen 0) 0 ps0 x0') as (b1 & E1 & Hl1' & Hd1 & Hv1);
    [apply digits_zeros|by rewrite length_replicate|done|unfold reslen; lia|rewrite val_zeros; lia|].
  rewrite E1. cbn [mbind option_bind]. rewrite val_zeros in Hv1.
  destruct (Hadd n b1 0 ps0 x0' Hd1 Hl1' D0 ltac:(unfold reslen; lia)) as (b2 & E2 & Hl2 & Hd2 & Hv2).
  { fold X. lia. }
  rewrite E2. cbn [mbind option_bind]. fold X in Hv2.
  assert (exists b3, (if (0 <? l1)%nat then
      res ← add n (ps1 ++ x1') l2 (b2 ++ [0]); add (2 * n)%nat (ps1 ++ x1') l2 res
      else Some (b2 ++ [0])) = Some (b3 ++ [0]) /\ length b3 = reslen /\ is_digits b3 /\
      val b3 = val b2 + X * val ps1 + X * X * val ps1) as (b3 & E3 & Hl3 & Hd3 & Hv3).
  { destruct (Nat.ltb_spec 0 l1) as [Hp|Hp].
    - rewrite <- (Hl1 Hp).
      destruct (Hadd n b2 0 ps1 x1' Hd2 Hl2 D1 ltac:(unfold reslen; lia)) as (c & Ec & Hlc & Hdc & Hvc).
      { fold X. lia. }
      rewrite Ec. cbn [mbind option_bind]. fold X in Hvc.
      assert (B ^ Z.of_nat (2 * n) = X * X) as E2n
        by (unfold X; rewrite <- Z.pow_add_r by lia; f_equal; lia).
      destruct (Hadd (2 * n)%nat c 0 ps1 x1' Hdc Hlc D1 ltac:(unfold reslen; lia)) as (b3 & E3 & Hl3 & Hd3 & Hv3).
      { rewrite E2n. lia. }
      exists b3. rewrite E2n in Hv3. split_and!; try done. lia.
    - exists b2. rewrite Hz by lia. split_and!; try done. lia. }
  rewrite E3. cbn [mbind option_bind]. rewrite <- Ld.
  destruct Hsign as [-> | ->]; cbn [Z.ltb Z.compare].
  - destruct (Hadd n b3 0 psd xd' Hd3 Hl3 Dd ltac:(unfold reslen; lia)) as (b4 & E4 & Hl4 & Hd4 & Hv4).
    { fold X. lia. }
    exists b4. fold X in Hv4. split_and!; try done. lia.
  - destruct (sub_at n b3 0 psd xd' Hd3 Dd ltac:(unfold reslen in *; lia)) as (b4 & E4 & Hl4 & Hd4 & Hv4).
    { fold X. clear - B3 B8 Hv3 Hv2 Hv1 Hpos B5 B6 B7 R0 R1 Rd H. nia. }
    rewrite Hl3 in E4. exists b4. fold X in Hv4. split_and!; try done; lia.
Qed.

(** Running the first operations of a sequence. *)
Lemma bind_run {A B C} (m : option A) (f : A -> option B) (k : B -> option C) y :
  m ≫= f = Some y -> (m ≫= fun c => f c ≫= k) = k y.
Proof. destruct m; cbn; [by intros ->|done]. Qed.

Lemma bind_run4 {A B} (m : option A) (f g h : A -> option A) (k : A -> option B) y :
  (m ≫= fun r => f r ≫= fun r => g r ≫= h) = Some y ->
  (m ≫= fun r => f r ≫= fun r => g r ≫= fun r => h r ≫= k) = k y.
Proof.
  destruct m as [r|]; cbn; [|done]. destruct (f r) as [r1|]; cbn; [|done].
  destruct (g r1) as [r2|]; cbn; [by intros ->|done].
Qed.

Lemma load_take (m : list Z) n : (n <= length m)%nat -> load m 0 (Z.of_nat n) = Some (take n m).
Proof.
  intros Hn. replace m with ([] ++ take n m ++ drop n m) at 1 by (cbn; by rewrite take_drop).
  apply load_app; [done|]. rewrite length_take. lia.
Qed.

Lemma val_take_small k l :
  is_digits l -> (k <= length l)%nat -> val l < B ^ Z.of_nat k -> val (take k l) = val l.
Proof.
  intros Hl Hk Hv. pose proof (val_split k l Hk) as E.
  pose proof (val_range (take k l) ltac:(by apply Forall_take)).
  pose proof (val_range (drop k l) ltac:(by apply Forall_drop)).
  assert (0 < B ^ Z.of_nat k) by lia. assert (val (drop k l) = 0) as Hz by nia. rewrite Hz in E. lia.
Qed.

Section halves.
Context (mul : list Z -> nat -> list Z -> nat -> list Z -> option (list Z)) (k : nat).
Context (u0 u1 a' v0 v1 b' : list Z).
Hypotheses (Hm : multiplies mul k) (Ha : is_digits (u0 ++ u1 ++ a')) (Hb : is_digits (v0 ++ v1 ++ b'))
  (Hn1 : (1 <= length u0 < k)%nat) (Hn3 : (length u1 <= length u0)%nat)
  (Hv1 : (length v0 <= length u0)%nat) (Hv2 : (length v1 <= length v0)%nat)
  (Hv3 : length v1 = 0%nat \/ length v0 = length u0).

Lemma mpkaratsuba_halves_ok p p' :
  length p = (length (u0 ++ u1) + length (v0 ++ v1))%nat ->
  exists r, mpkaratsuba_halves mul (u0 ++ u1 ++ a') (length (u0 ++ u1)) (v0 ++ v1 ++ b')
      (length (v0 ++ v1)) (p ++ p') (length u0) (length u1) (length v0) (length v1) = Some (r ++ p') /\
    length r = length p /\ is_digits r /\ val r = val (u0 ++ u1) * val (v0 ++ v1).
Proof using All.
  intros Hp. rewrite !length_app in Hp. unfold mpkaratsuba_halves.
  assert (is_digits (u0 ++ u1) /\ is_digits (v0 ++ v1)) as [Da Db].
  { rewrite app_assoc in Ha, Hb. by apply Forall_app in Ha as [? _], Hb as [? _]. }
  assert (is_digits (u1 ++ a') /\ is_digits (v1 ++ b')) as [Du1 Dv1] by (by apply Forall_app in Ha as [_ ?], Hb as [_ ?]).
  destruct (proj1 (Forall_app _ _ _) Da) as [Du0 Du1']. destruct (proj1 (Forall_app _ _ _) Db) as [Dv0 Dv1'].
  rewrite !drop_app_length.
  set (N := (2 * length u0 + 1)%nat).
  destruct (diff_u u0 (u1 ++ a') u1 a' N Ha Du1 ltac:(lia)) as (du & su & Eu & Lu & Ddu & Su & Vu).
  erewrite bind_run; [|exact Eu]. cbn beta iota. clear Eu.
  destruct (diff_v v0 (v1 ++ b') v1 b' N Hb Dv1 ltac:(lia) su) as (dv & sv & Ev & Lv & Ddv & Sv & Vv).
  erewrite bind_run; [|exact Ev]. cbn beta iota. clear Ev.
  assert (forall l j, is_digits l -> is_digits (l ++ replicate j 0)) as Hpad.
  { intros l j Hl. apply Forall_app. split; [done|apply digits_zeros]. }
  destruct (multiplies_zeros mul k du (replicate (N - length u0) 0) dv (replicate (N - length v0) 0) N)
    as (pd & Ed & Ld & Dd & Vd); [done|by apply Hpad..|lia|lia|lia|].
  rewrite Lu, Lv in Ed, Ld. rewrite Ed. cbn [mbind option_bind].
  assert (exists p1 x1', (if (0 <? length v1)%nat
      then mul (u1 ++ a') (length u1) (v1 ++ b') (length v1) (replicate N 0)
      else Some (replicate N 0)) = Some (p1 ++ x1') /\ is_digits p1 /\ val p1 = val u1 * val v1 /\
      (length p1 <= 2 * length u0 /\ (0 < length v1 -> length p1 = length u1 + length v1))%nat)
    as (p1 & x1' & E1 & D1 & V1 & Lp1 & Lp1').
  { destruct (Nat.ltb_spec 0 (length v1)).
    - destruct (multiplies_zeros mul k u1 a' v1 b' N) as (r & E & Lr & Dr & Vr);
        [done..|lia|lia|lia|]. exists r. eexists. split; [exact E|]. split_and!; [done|done|lia|lia].
    - exists [], (replicate N 0). split; [done|]. destruct v1; [|cbn in *; lia]. cbn [val length].
      split_and!; [done|lia|lia|lia]. }
  rewrite E1. cbn [mbind option_bind].
  destruct (multiplies_zeros mul k u0 (u1 ++ a') v0 (v1 ++ b') N)
    as (p0 & -> & Lp0 & D0 & V0); [done..|lia|lia|lia|]. cbn [mbind option_bind].
  pose proof (proj1 (val_range u0 Du0)) as P0. pose proof (proj1 (val_range u1 Du1')) as P1.
  pose proof (proj1 (val_range v0 Dv0)) as Q0. pose proof (proj1 (val_range v1 Dv1')) as Q1.
  assert (sv * val pd = (val u1 - val u0) * (val v0 - val v1)) as Esv.
  { rewrite Vd, <- Vu. replace (sv * (val du * val dv)) with (val du * (sv * val dv)) by ring.
    rewrite Vv. ring. }
  destruct (karatsuba_sum (length u0) sv p0 p1 pd
    (replicate (N - (length u0 + length v0)) 0) x1' (replicate (N - (length u0 + length v0)) 0)
    (length u0 + length v0) (length v1) (length u1 + length v1)) as (res & Er & Lr & Dr & Vr);
    [done..|lia|lia|lia|lia|lia| |done|destruct Su, Sv; lia| |].
  { intros Hz. rewrite V1. destruct v1; [cbn [val]; lia|done]. }
  { rewrite Esv, V0, V1. clear -P0 P1 Q0 Q1. nia. }
  erewrite bind_run4; [|exact Er]. clear Er.
  rewrite load_take by (rewrite !length_app; cbn; lia). cbn [mbind option_bind].
  rewrite take_app_le by (rewrite !length_app; lia). set (K := (length (u0 ++ u1) + length (v0 ++ v1))%nat).
  assert (K <= length res)%nat as HK by (unfold K; rewrite !length_app; lia).
  assert (val res = val (u0 ++ u1) * val (v0 ++ v1)) as Eres.
  { rewrite Vr, Esv, V0, V1, !val_app. destruct Hv3 as [Hz | ->]; [|ring].
    destruct v1; [cbn [val]; ring|done]. }
  assert (length (take K res) = length p) as Lt.
  { rewrite length_take, Nat.min_l by done. unfold K. rewrite !length_app. lia. }
  exists (take K res). split_and!; [by rewrite store_head|done|by apply Forall_take|].
  rewrite <- Eres. apply val_take_small; [done|done|]. rewrite Eres. unfold K.
  rewrite Nat2Z.inj_add, Z.pow_add_r by lia.
  pose proof (val_range _ Da). pose proof (val_range _ Db). apply Z.mul_lt_mono_nonneg; lia.
Qed.
End halves.

Lemma mpkaratsuba_ok mul a a' b b' p p' :
  multiplies mul (length a) -> is_digits (a ++ a') -> is_digits (b ++ b') ->
  (2 <= length a)%nat -> (length b <= length a)%nat ->
  length p = (length a + length b)%nat ->
  exists r, mpkaratsuba mul (a ++ a') (length a) (b ++ b') (length b) (p ++ p') = Some (r ++ p') /\
    length r = length p /\ is_digits r /\ val r = val a * val b.
Proof.
  intros Hm Ha Hb Hla Hlb Hp. unfold mpkaratsuba.
  set (n := (if Nat.odd (length a) then length a / 2 + 1 else length a / 2)%nat).
  assert (1 <= n /\ n < length a /\ length a - n <= n)%nat as (Hn1 & Hn2 & Hn3).
  { unfold n. pose proof (Nat.div2_odd (length a)) as E. rewrite Nat.div2_div in E.
    destruct (Nat.odd (length a)); cbn [Nat.b2n] in E; lia. }
  clearbody n.
  assert (exists v0len v1len, (if (n <? length b)%nat then (n, (length b - n)%nat) else (length b, 0%nat))
    = (v0len, v1len) /\ (v0len + v1len = length b /\ v0len <= n /\ v1len <= v0len /\
      (v1len = 0 \/ v0len = n))%nat) as (v0len & v1len & -> & Hv0 & Hv1 & Hv2 & Hv3).
  { destruct (Nat.ltb_spec n (length b)); do 2 eexists; (split; [reflexivity|]); lia. }
  pose proof (mpkaratsuba_halves_ok mul (length a) (take n a) (drop n a) a' (take v0len b)
    (drop v0len b) b') as H.
  rewrite !length_take, !length_drop, !Nat.min_l in H by lia.
  replace (length b - v0len)%nat with v1len in H by lia.
  rewrite !app_assoc, !take_drop in H. by apply H.
Qed.

Lemma multiplies_le mul k k' : multiplies mul k -> (k' <= k)%nat -> multiplies mul k'.
Proof. intros Hm Hk a a' b b' p' Ha Hb Hla Hlb. apply Hm; [done|done|lia|lia]. Qed.

(** The loop, into zeros. *)
Lemma schoolbook_ok x x' y y' p' :
  is_digits (x ++ x') -> is_digits (y ++ y') ->
  exists r, mpvecmul_loop (length y) 0 (x ++ x') (length x) (y ++ y')
      (replicate (length x + length y) 0 ++ p') = Some (r ++ p') /\
    length r = (length x + length y)%nat /\ is_digits r /\ val r = val x * val y.
Proof.
  intros Hx Hy. rewrite replicate_add, <- app_assoc.
  destruct (mpvecmul_loop_ok (length y) 0 x x' (y ++ y') (replicate (length x) 0) p')
    as (r & Er & Hr & Hd & Hv).
  - by apply Forall_app in Hx as [? _].
  - done.
  - apply digits_zeros.
  - rewrite length_app. lia.
  - rewrite length_replicate. lia.
  - exists r. rewrite length_replicate in Hr. rewrite val_zeros, drop_0, take_app_length in Hv.
    split_and!; try done. rewrite Hv. change (B ^ Z.of_nat 0) with 1. lia.
Qed.

(** [mpvecmul] once the longer operand is first. *)
Lemma mpvecmul_ordered fuel x x' y y' p' :
  multiplies (mpvecmul fuel) fuel -> is_digits (x ++ x') -> is_digits (y ++ y') ->
  (length x <= fuel)%nat -> (length y <= length x)%nat ->
  exists r, (let p := replicate (length x + length y) 0 ++ p' in
      if (length y =? 0)%nat then store p 0 (replicate (length x + length y) 0)
      else if (KARATSUBAMIN <=? length x)%nat && (1 <? length y)%nat then
        mpkaratsuba (mpvecmul fuel) (x ++ x') (length x) (y ++ y') (length y) p
      else mpvecmul_loop (length y) 0 (x ++ x') (length x) (y ++ y') p) = Some (r ++ p') /\
    length r = (length x + length y)%nat /\ is_digits r /\ val r = val x * val y.
Proof.
  intros IH Hx Hy Hlx Hle. cbv zeta. destruct (Nat.eqb_spec (length y) 0) as [Hz|Hnz].
  { exists (replicate (length x + length y) 0).
    rewrite store_head by done.
    rewrite length_replicate, val_zeros. destruct y; [|done]. cbn [val].
    split_and!; [done|done|apply digits_zeros|lia]. }
  destruct (Nat.leb_spec KARATSUBAMIN (length x)) as [Hk|Hk]; cbn [andb]; [|by apply schoolbook_ok].
  destruct (Nat.ltb_spec 1 (length y)) as [H1|H1]; [|by apply schoolbook_ok].
  destruct (mpkaratsuba_ok (mpvecmul fuel) x x' y y' (replicate (length x + length y) 0) p')
    as (r & Er & Hr & R); try done.
  - by eapply multiplies_le.
  - unfold KARATSUBAMIN in Hk. lia.
  - by rewrite length_replicate.
  - exists r. by rewrite length_replicate in Hr.
Qed.

(** [mpvecmul] multiplies, by whichever method; fuel one above the longer length is enough. *)
Lemma mpvecmul_ok fuel : multiplies (mpvecmul fuel) fuel.
Proof.
  induction fuel as [|fuel IH]; intros a a' b b' p' Ha Hb Hla Hlb; [lia|].
  cbn [mpvecmul]. destruct (Nat.ltb_spec (length a) (length b)).
  - destruct (mpvecmul_ordered fuel b b' a a' p' IH Hb Ha) as (r & Er & Hr & Hd & Hv); [lia..|].
    exists r. rewrite (Nat.add_comm (length a)), Hv. split_and!; try done; lia.
  - apply mpvecmul_ordered; [done..|lia|lia].
Qed.
