(* ===== verification/Mpint.v ===== *)
(** * Numbers of any size: the objects of [libmp]

    [mpaux.c], [mpcmp.c], [mpadd.c], [mpsub.c] and [mpmul] of [mpmul.c]. An [mpint] lives in a
    heap, and the functions get the addresses of their operands and of their result, any of
    which may be the same: what a function reads through an operand after it wrote to its
    result is read from the heap again. *)

From S2P Require Import Prelude Mpvec Mpmul.
#[local] Set Primitive Projections.

(** ** Objects and the heap *)

(** [p] has [size] digits; [mp_static] is the flag [MPstatic]. *)
Record mpint := mkMpint { mp_sign : Z; mp_top : nat; mp_p : list Z; mp_static : bool }.

Abbreviation heap := (gmap Z mpint).

(** Why a function does not return: an access outside of an object, [abort], [sysfatal], a
    loop without end, an operation C leaves undefined. *)
Inductive stop := Fault | Abort | Fatal | Endless | Undefined.

Inductive mpres (A : Type) := Done (a : A) (h : heap) | Stopped (why : stop).
Arguments Done {A}.
Arguments Stopped {A}.

Definition mpm (A : Type) : Type := heap -> mpres A.

#[global] Instance mpm_ret : MRet mpm := fun A a h => Done a h.
#[global] Instance mpm_bind : MBind mpm := fun A B k m h =>
  match m h with Done a h => k a h | Stopped why => Stopped why end.

Definition halt {A} (why : stop) : mpm A := fun _ => Stopped why.
Definition lift {A} (o : option A) : mpm A :=
  match o with Some a => mret a | None => halt Fault end.
Definition obj (a : Z) : mpm mpint := fun h =>
  match h !! a with Some b => Done b h | None => Stopped Fault end.
Definition put (a : Z) (b : mpint) : mpm unit := fun h => Done tt (<[a := b]> h).
Definition set_obj (a : Z) (f : mpint -> mpint) : mpm unit := b ← obj a; put a (f b).

(** The addresses of the constants. *)
Definition mpzero : Z := 0.
Definition mpone : Z := 1.
Definition mptwo : Z := 2.

Definition _mpzero : mpint := mkMpint 1 0 [0] true.
Definition _mpone : mpint := mkMpint 1 1 [1] true.
Definition _mptwo : mpint := mkMpint 1 1 [2] true.

Definition mpmindigits : Z := 33.

(** [DIGITS(x)], with C's division. *)
Definition DIGITS (x : Z) : Z := Z.quot (Dbits - 1 + x) Dbits.

(** ** [mpaux.c] *)

Definition mpnew (n : Z) : mpm Z := fun h =>
  if n <? 0 then Stopped Fatal
  else
    let n := DIGITS n in
    let n := if n <? mpmindigits then mpmindigits else n in
    let a := fresh (dom h) in
    Done a (<[a := mkMpint 1 0 (replicate (Z.to_nat n) 0) false]> h).

(** [mpbits] as a change of the object. *)
Definition with_bits (m : Z) (b : mpint) : mpint :=
  let n := Z.to_nat (DIGITS m) in
  if (n <=? mp_top b)%nat then b
  else b <| mp_p := take (mp_top b) (mp_p b) ++ replicate (n - mp_top b) 0 ++ drop n (mp_p b) |>
         <| mp_top := n |>.

Definition mpbits (b : Z) (m : Z) : mpm unit := set_obj b (with_bits m).

Definition mpfree (b : option Z) : mpm unit :=
  match b with
  | None => mret tt
  | Some b =>
      x ← obj b;
      if mp_static x then halt Fatal else fun h => Done tt (delete b h)
  end.

(** The loop of [mpnorm]: the number of digits below which all are zero, from [n] down. *)
Fixpoint norm_top (p : list Z) (n : nat) : option nat :=
  match n with
  | O => Some 0%nat
  | S i => d ← p !! i; if negb (d =? 0) then Some n else norm_top p i
  end.

Definition mpnorm (b : Z) : mpm unit :=
  x ← obj b;
  n ← lift (norm_top (mp_p x) (mp_top x));
  put b (x <| mp_top := n |> <| mp_sign := if (n =? 0)%nat then 1 else mp_sign x |>).

(** [memmove(new->p, old->p, Dbytes*old->top)] *)
Definition move_digits (new old : Z) : mpm unit :=
  o ← obj old;
  n ← obj new;
  ds ← lift (load (mp_p o) 0 (Z.of_nat (mp_top o)));
  p ← lift (store (mp_p n) 0 ds);
  put new (n <| mp_p := p |>).

Definition mpcopy (old : Z) : mpm Z :=
  o ← obj old;
  new ← mpnew (Dbits * len (mp_p o));
  set_obj new (fun n => n <| mp_top := mp_top o |> <| mp_sign := mp_sign o |>);;
  move_digits new old;;
  mret new.

Definition mpassign (old new : Z) : mpm unit :=
  o ← obj old;
  mpbits new (Dbits * Z.of_nat (mp_top o));;
  o ← obj old;
  set_obj new (fun n => n <| mp_sign := mp_sign o |>);;
  o ← obj old;
  set_obj new (fun n => n <| mp_top := mp_top o |>);;
  move_digits new old.

(** The highest bit of a digit, from [j] down. *)
Fixpoint high_bit (d : Z) (j : nat) : option nat :=
  match j with
  | O => None
  | S j => if negb ((d .& u32 (1 .<< Z.of_nat j)) =? 0) then Some j else high_bit d j
  end.

Fixpoint signif_digits (p : list Z) (n : nat) : option Z :=
  match n with
  | O => Some 0
  | S i =>
      d ← p !! i;
      match high_bit d 32 with
      | Some j => Some (Z.of_nat i * Dbits + Z.of_nat j + 1)
      | None => signif_digits p i
      end
  end.

Definition mpsignif (n : Z) : mpm Z :=
  x ← obj n;
  lift (signif_digits (mp_p x) (mp_top x)).

(** The loop of [mplowbits0]: [d] is the digit [digit] and [bit] the next bit of it. *)
Fixpoint lowbits_loop (fuel : nat) (p : list Z) (top : nat) (k bit : Z) (digit : nat) (d : Z)
    : option Z :=
  match fuel with
  | O => None
  | S fuel =>
      if negb ((d .& u32 (1 .<< bit)) =? 0) then Some k
      else if bit + 1 =? Dbits then
        if (top <=? S digit)%nat then Some 0
        else d ← p !! S digit; lowbits_loop fuel p top (k + 1) 0 (S digit) d
      else lowbits_loop fuel p top (k + 1) (bit + 1) digit d
  end.

Definition mplowbits0 (n : Z) : mpm Z :=
  x ← obj n;
  if (mp_top x =? 0)%nat then mret 0
  else
    d ← lift (mp_p x !! 0%nat);
    lift (lowbits_loop (S (32 * mp_top x)) (mp_p x) (mp_top x) 0 0 0 d).

(** ** [mpcmp.c] *)

Definition mpmagcmp (b1 b2 : Z) : mpm Z :=
  x ← obj b1;
  y ← obj b2;
  let i := Z.of_nat (mp_top x) - Z.of_nat (mp_top y) in
  if negb (i =? 0) then mret i
  else lift (mpveccmp (mp_p x) (mp_top x) (mp_p y) (mp_top y)).

Definition mpcmp (b1 b2 : Z) : mpm Z :=
  x ← obj b1;
  y ← obj b2;
  if negb (mp_sign x =? mp_sign y) then mret (mp_sign x - mp_sign y)
  else if mp_sign x <? 0 then mpmagcmp b2 b1 else mpmagcmp b1 b2.

(** ** [mpadd.c] and [mpsub.c] *)

Definition mpmagadd (b1 b2 sum : Z) : mpm unit :=
  x ← obj b1;
  y ← obj b2;
  let '(b1, b2, n, m) :=
    if (mp_top x <? mp_top y)%nat then (b2, b1, mp_top y, mp_top x)
    else (b1, b2, mp_top x, mp_top y) in
  if (n =? 0)%nat then mpassign mpzero sum
  else if (m =? 0)%nat then mpassign b1 sum
  else
    mpbits sum ((Z.of_nat n + 1) * Dbits);;
    set_obj sum (fun s => s <| mp_top := S n |>);;
    x ← obj b1;
    y ← obj b2;
    s ← obj sum;
    p ← lift (mpvecadd (mp_p x) n (mp_p y) m (mp_p s));
    put sum (s <| mp_p := p |> <| mp_sign := 1 |>);;
    mpnorm sum.

Definition mpmagsub (b1 b2 diff : Z) : mpm unit :=
  c ← mpmagcmp b1 b2;
  let '(sign, b1, b2) := if c <? 0 then (-1, b2, b1) else (1, b1, b2) in
  x ← obj b1;
  y ← obj b2;
  let n := mp_top x in
  let m := mp_top y in
  if (m =? 0)%nat then
    mpassign b1 diff;;
    set_obj diff (fun d => d <| mp_sign := sign |>)
  else
    mpbits diff (Z.of_nat n * Dbits);;
    x ← obj b1;
    y ← obj b2;
    d ← obj diff;
    p ← lift (mpvecsub (mp_p x) n (mp_p y) m (mp_p d));
    put diff (d <| mp_p := p |> <| mp_sign := sign |> <| mp_top := n |>);;
    mpnorm diff.

Definition mpadd (b1 b2 sum : Z) : mpm unit :=
  x ← obj b1;
  y ← obj b2;
  if negb (mp_sign x =? mp_sign y) then
    if mp_sign x <? 0 then mpmagsub b2 b1 sum else mpmagsub b1 b2 sum
  else
    let sign := mp_sign x in
    mpmagadd b1 b2 sum;;
    s ← obj sum;
    if negb (mp_top s =? 0)%nat then put sum (s <| mp_sign := sign |>) else mret tt.

Definition mpsub (b1 b2 diff : Z) : mpm unit :=
  x ← obj b1;
  y ← obj b2;
  let sign := mp_sign x in
  if negb (mp_sign x =? mp_sign y) then
    mpmagadd b1 b2 diff;;
    set_obj diff (fun d => d <| mp_sign := sign |>)
  else
    mpmagsub b1 b2 diff;;
    d ← obj diff;
    if negb (mp_top d =? 0)%nat then put diff (d <| mp_sign := mp_sign d * sign |>) else mret tt.

(** ** [mpmul] *)

Definition mpmul (b1 b2 prod : Z) : mpm unit :=
  let alias := (prod =? b1) || (prod =? b2) in
  new ← (if alias then mpnew 0 else mret prod);
  set_obj new (fun p => p <| mp_top := 0%nat |>);;
  x ← obj b1;
  y ← obj b2;
  let n := mp_top x in
  let m := mp_top y in
  mpbits new ((Z.of_nat n + Z.of_nat m + 1) * Dbits);;
  p ← obj new;
  ds ← lift (mpvecmul (S (n `max` m)) (mp_p x) n (mp_p y) m (mp_p p));
  put new (p <| mp_p := ds |> <| mp_top := S (n + m) |> <| mp_sign := mp_sign x * mp_sign y |>);;
  mpnorm new;;
  if alias then mpassign new prod;; mpfree (Some new) else mret tt.
