(* ===== verification/MpintProps.v ===== *)
(** * Arithmetic on [mpint]s computes with integers

    The number an [mpint] stands for, the normal form the functions of [libmp] keep, and what
    each of them does to the heap: one object changes, to a normal form of the right number,
    whatever of the operands and the result is the same object. *)

From S2P Require Import Prelude Mpvec Mpmul Mpint.

Implicit Types (h : heap).

(** ** Numbers *)

Definition digits (b : mpint) : list Z := take (mp_top b) (mp_p b).
(** The magnitude and the number. *)
Definition mag (b : mpint) : Z := val (digits b).
Definition mpval (b : mpint) : Z := mp_sign b * mag b.

(** An object with its digits inside its array. *)
Definition raw (b : mpint) : Prop :=
  is_digits (mp_p b) /\ (mp_top b <= length (mp_p b))%nat /\ (0 < length (mp_p b))%nat.

(** No zero digit on top. *)
Definition trimmed (b : mpint) : Prop :=
  raw b /\ (mp_top b = 0%nat \/ B ^ (Z.of_nat (mp_top b) - 1) <= mag b).

(** The normal form: zero is positive. *)
Definition normal (b : mpint) : Prop :=
  trimmed b /\ (mp_sign b = 1 \/ mp_sign b = -1) /\ (mp_top b = 0%nat -> mp_sign b = 1).

(** The digit that the macro [iseven] takes for the lowest is zero in a zero. *)
Definition clean (b : mpint) : Prop := mp_top b = 0%nat -> mp_p b !! 0%nat = Some 0.

#[global] Instance raw_dec b : Decision (raw b).
Proof. unfold raw. apply _. Defined.
#[global] Instance trimmed_dec b : Decision (trimmed b).
Proof. unfold trimmed. apply _. Defined.
#[global] Instance normal_dec b : Decision (normal b).
Proof. unfold normal. apply _. Defined.

Lemma digits_ok b : raw b -> is_digits (digits b) /\ length (digits b) = mp_top b.
Proof.
  intros (Hd & Ht & _). split; [by apply Forall_take|]. unfold digits. rewrite length_take. lia.
Qed.

Lemma mag_range b : raw b -> 0 <= mag b < B ^ Z.of_nat (mp_top b).
Proof.
  intros Hb. destruct (digits_ok b Hb) as [Hd Hl]. rewrite <- Hl. by apply val_range.
Qed.

Lemma mag_zero b : trimmed b -> (mp_top b = 0%nat <-> mag b = 0).
Proof.
  intros [Hr Ht]. pose proof (mag_range b Hr). split.
  - intros E. rewrite E in *. change (B ^ Z.of_nat 0) with 1 in *. lia.
  - intros E. destruct Ht as [|Hp]; [done|]. rewrite E in Hp.
    assert (0 < B ^ (Z.of_nat (mp_top b) - 1) \/ mp_top b = 0%nat) as [|] by (destruct (mp_top b); [by right|left; lia]); lia.
Qed.

(** The number of digits of a trimmed number is determined by its magnitude. *)
Lemma mag_top x y :
  trimmed x -> trimmed y -> mag x <= mag y -> (mp_top x <= mp_top y)%nat.
Proof.
  intros [Hx Tx] [Hy Ty] Hle. pose proof (mag_range y Hy).
  destruct Tx as [E|Tx]; [lia|]. destruct (Nat.le_gt_cases (mp_top x) (mp_top y)); [done|].
  assert (B ^ Z.of_nat (mp_top y) <= B ^ (Z.of_nat (mp_top x) - 1)) by (apply Z.pow_le_mono_r; lia). lia.
Qed.

(** The digits split from the rest of the array. *)
Lemma digits_app b : mp_p b = digits b ++ drop (mp_top b) (mp_p b).
Proof. unfold digits. by rewrite take_drop. Qed.

(** ** Running *)

Lemma bind_Done {A B} (m : mpm A) (k : A -> mpm B) h a h' :
  m h = Done a h' -> mbind k m h = k a h'.
Proof. intros E. unfold mbind, mpm_bind. by rewrite E. Qed.

Lemma bind_Stopped {A B} (m : mpm A) (k : A -> mpm B) h w :
  m h = Stopped w -> mbind k m h = Stopped w.
Proof. intros E. unfold mbind, mpm_bind. by rewrite E. Qed.

Lemma obj_Done h a b : h !! a = Some b -> obj a h = Done b h.
Proof. intros E. unfold obj. by rewrite E. Qed.

Lemma set_obj_Done h a b f : h !! a = Some b -> set_obj a f h = Done tt (<[a := f b]> h).
Proof. intros E. unfold set_obj. by rewrite (bind_Done _ _ _ _ _ (obj_Done _ _ _ E)). Qed.

Lemma lift_Done {A} (o : option A) a h : o = Some a -> lift o h = Done a h.
Proof. by intros ->. Qed.

(** The parts of a conjunction, without looking into definitions. *)
Ltac parts := repeat match goal with |- _ /\ _ => split end.

(** Runs the first operation of a sequence. *)
Ltac mrun :=
  erewrite bind_Done;
  [ | first
      [ apply obj_Done; solve [ eassumption | apply lookup_insert_eq ]
      | apply set_obj_Done; solve [ eassumption | apply lookup_insert_eq ]
      | apply lift_Done; eassumption
      | reflexivity ] ].

(** The list without its highest digit. *)
Lemma split_high (vs : list Z) :
  is_digits vs -> vs <> [] ->
  exists low d, vs = low ++ [d] /\ is_digits low /\ in_u 32 d /\ 0 <= val low < B ^ len low /\
    val vs = val low + B ^ len low * d /\ len vs - 1 = len low.
Proof.
  intros Dv Hne. destruct (exists_last Hne) as (low & d & ->). apply Forall_app in Dv as [Dl Hd].
  rewrite Forall_singleton in Hd. exists low, d. rewrite val_app, length_app. cbn [val length].
  split_and!; try done; try apply Hd; try apply (val_range low Dl); lia.
Qed.

(** The highest digit of an object. *)
Lemma digits_snoc U :
  raw U -> mp_top U <> 0%nat -> exists low d, digits U = low ++ [d] /\ is_digits low /\ in_u 32 d /\
    length low = (mp_top U - 1)%nat /\ mp_p U !! (mp_top U - 1)%nat = Some d /\
    mag U = val low + B ^ (Z.of_nat (mp_top U) - 1) * d.
Proof.
  intros RU Hne. destruct (digits_ok U RU) as [DU LU].
  destruct (split_high (digits U) DU) as (low & d & Ed & Dl & Hd & Rl & Em & El).
  { intros E. rewrite E in LU. cbn in LU. lia. }
  assert (length low = (mp_top U - 1)%nat) as Ll by (rewrite <- LU, Ed, length_app; cbn [length]; lia).
  exists low, d. parts; try done.
  - rewrite digits_app, Ed, <- app_assoc, <- Ll. by apply list_lookup_middle.
  - unfold mag. rewrite Em. do 3 f_equal. lia.
Qed.

(** ** [mpaux.c] *)

Lemma DIGITS_mul n : 0 <= n -> DIGITS (n * Dbits) = n.
Proof.
  intros. unfold DIGITS, Dbits. rewrite Z.quot_div_nonneg by lia.
  rewrite Z.div_add by lia. change ((32 - 1) / 32) with 0. lia.
Qed.

(** What [mpbits] leaves as it is. *)
Lemma with_bits_ok m b :
  raw b ->
  raw (with_bits m b) /\ (Z.to_nat (DIGITS m) <= mp_top (with_bits m b))%nat /\
  (mp_top b <= mp_top (with_bits m b))%nat /\ (length (mp_p b) <= length (mp_p (with_bits m b)))%nat /\
  mp_sign (with_bits m b) = mp_sign b /\ mp_static (with_bits m b) = mp_static b /\
  take (mp_top b) (mp_p (with_bits m b)) = digits b /\
  ((mp_top b < Z.to_nat (DIGITS m))%nat ->
   take (Z.to_nat (DIGITS m) - mp_top b) (drop (mp_top b) (mp_p (with_bits m b)))
   = replicate (Z.to_nat (DIGITS m) - mp_top b) 0).
Proof.
  intros Hb. pose proof Hb as (Hd & Ht & Hp). unfold with_bits. set (n := Z.to_nat (DIGITS m)).
  destruct (Nat.leb_spec n (mp_top b)) as [Hn|Hn].
  { split_and!; try done; lia. }
  set (b' := _ <| mp_top := n |>).
  change (mp_p b') with (take (mp_top b) (mp_p b) ++ replicate (n - mp_top b) 0 ++ drop n (mp_p b)).
  change (mp_top b') with n.
  assert (length (take (mp_top b) (mp_p b)) = mp_top b) as Hl by (rewrite length_take; lia).
  assert (raw b') as Hr.
  { split_and!.
    - change (mp_p b') with (take (mp_top b) (mp_p b) ++ replicate (n - mp_top b) 0 ++ drop n (mp_p b)).
      rewrite !Forall_app. split_and!; [by apply Forall_take|apply digits_zeros|by apply Forall_drop].
    - change (mp_p b') with (take (mp_top b) (mp_p b) ++ replicate (n - mp_top b) 0 ++ drop n (mp_p b)).
      change (mp_top b') with n. rewrite !length_app, length_replicate, Hl. lia.
    - change (mp_p b') with (take (mp_top b) (mp_p b) ++ replicate (n - mp_top b) 0 ++ drop n (mp_p b)).
      rewrite !length_app, length_replicate, Hl. lia. }
  split_and!; try done; try lia.
  - rewrite !length_app, length_replicate, length_drop, Hl. lia.
  - rewrite <- Hl at 1. by rewrite take_app_length.
  - intros _. rewrite <- Hl at 2. rewrite drop_app_length. rewrite take_app_le by (by rewrite length_replicate).
    by rewrite take_ge by (by rewrite length_replicate).
Qed.

Lemma with_bits_id b n : n = Z.of_nat (mp_top b) -> with_bits (Dbits * n) b = b.
Proof.
  intros ->. unfold with_bits. rewrite Z.mul_comm, DIGITS_mul, Nat2Z.id, Nat.leb_refl by lia. done.
Qed.

(** An operand, once the result has been given its digits by [mpbits]. *)
Lemma bits_view h (r : Z) s m w (a : Z) x :
  h !! r = Some s -> raw s -> mp_p w = mp_p (with_bits m s) -> h !! a = Some x -> raw x ->
  exists x', <[r := w]> h !! a = Some x' /\ is_digits (mp_p x') /\
    mp_p x' = digits x ++ drop (mp_top x) (mp_p x').
Proof.
  intros Hr Hs Hw Ha Hx. destruct (decide (a = r)) as [->|Hne].
  - rewrite lookup_insert_eq. assert (x = s) as -> by congruence. exists w. rewrite Hw.
    destruct (with_bits_ok m s Hs) as ((D & _) & _ & _ & _ & _ & _ & T & _).
    split_and!; [done|done|]. rewrite <- T. by rewrite take_drop.
  - rewrite lookup_insert_ne by done. exists x. split_and!; [done|apply Hx|]. apply digits_app.
Qed.

Lemma norm_top_ok p n :
  is_digits p -> (n <= length p)%nat ->
  exists k, norm_top p n = Some k /\ (k <= n)%nat /\ val (take k p) = val (take n p) /\
    (k = 0%nat \/ B ^ (Z.of_nat k - 1) <= val (take k p)).
Proof.
  intros Hp. induction n as [|i IH]; intros Hn.
  { exists 0%nat. split_and!; try done. by left. }
  cbn [norm_top]. destruct (lookup_lt_is_Some_2 p i) as [d Hd]; [lia|]. rewrite Hd.
  cbn [mbind option_bind]. pose proof (Forall_lookup_1 _ _ _ _ Hp Hd) as Hdd.
  rewrite (take_S_r _ _ d Hd), val_app, length_take, Nat.min_l by lia. cbn [val].
  pose proof (val_range (take i p) ltac:(by apply Forall_take)) as Hr.
  destruct (Z.eqb_spec d 0) as [->|Hne]; cbn [negb].
  - destruct (IH ltac:(lia)) as (k & E & Hk & Hv & Ht). exists k. split_and!; [done|lia|lia|done].
  - exists (S i). rewrite (take_S_r _ _ d Hd), val_app, length_take, Nat.min_l by lia. cbn [val].
    split_and!; [done|lia|done|]. right. rewrite Nat2Z.inj_succ.
    replace (Z.succ (Z.of_nat i) - 1) with (Z.of_nat i) by lia. unfold in_u in Hdd. nia.
Qed.

(** [mpnorm] gives the normal form of the same number. *)
Lemma mpnorm_ok h a b :
  h !! a = Some b -> raw b -> mp_sign b = 1 \/ mp_sign b = -1 ->
  exists b', mpnorm a h = Done tt (<[a := b']> h) /\ normal b' /\ mpval b' = mpval b /\
    mp_static b' = mp_static b /\ mp_p b' = mp_p b.
Proof.
  intros Ha (Hd & Ht & Hp) Hs. destruct (norm_top_ok (mp_p b) (mp_top b) Hd Ht) as (k & E & Hk & Hv & Hn).
  unfold mpnorm. mrun. mrun. eexists. split; [reflexivity|].
  set (b' := _ <| mp_sign := _ |>). change (mp_static b') with (mp_static b). change (mp_p b') with (mp_p b).
  unfold mpval, mag, digits. change (mp_p b') with (mp_p b). change (mp_top b') with k.
  change (mp_sign b') with (if (k =? 0)%nat then 1 else mp_sign b). rewrite Hv.
  assert (raw b') by (split_and!; [done| |done]; change (k <= length (mp_p b))%nat; lia).
  assert (trimmed b') by (split; [done|exact Hn]).
  split_and!; try done.
  - split_and!; [done| |].
    + change (mp_sign b') with (if (k =? 0)%nat then 1 else mp_sign b). destruct (k =? 0)%nat; [by left|done].
    + change (k = 0%nat -> (if (k =? 0)%nat then 1 else mp_sign b) = 1). by intros ->.
  - destruct (Nat.eqb_spec k 0) as [->|]; [|done]. rewrite <- Hv. cbn. rewrite take_0. cbn. lia.
Qed.

(** Writing the digits of a number at the start of an array. *)
Lemma store_digits (p ds : list Z) :
  is_digits p -> is_digits ds -> (length ds <= length p)%nat ->
  exists p', store p 0 ds = Some p' /\ is_digits p' /\ length p' = length p /\ take (length ds) p' = ds.
Proof.
  intros Hp Hd Hl. destruct (store_Some p 0 ds) as (p' & E & L); [done|lia|].
  exists p'. split_and!; [done|exact (store_Forall _ _ _ _ _ Hp Hd E)|done|].
  pose proof (load_store _ _ _ _ E) as Ld. rewrite load_take in Ld by lia. by injection Ld.
Qed.

(** Moving the digits of a number that fit. *)
Lemma move_digits_ok h (new old : Z) n o :
  h !! old = Some o -> raw o -> h !! new = Some n -> raw n -> mp_top n = mp_top o ->
  exists b, move_digits new old h = Done tt (<[new := b]> h) /\ raw b /\
    mp_sign b = mp_sign n /\ mp_top b = mp_top n /\ digits b = digits o /\ mp_static b = mp_static n /\
    (length (mp_p n) <= length (mp_p b))%nat.
Proof.
  intros Ho Ro Hn Rn Ht. destruct (digits_ok o Ro) as [Dd Dl]. pose proof Ro as (_ & Lo & _).
  pose proof Rn as (Nd & Nt & Np).
  destruct (store_digits (mp_p n) (digits o) Nd Dd ltac:(lia)) as (p' & Ep & Dp & Lp & Tp).
  unfold move_digits. mrun. mrun. erewrite bind_Done; [|apply lift_Done; by apply load_take].
  fold (digits o). mrun. eexists. split; [reflexivity|]. set (b := n <| mp_p := p' |>).
  assert (digits b = digits o) as Eb.
  { unfold digits at 1. change (mp_p b) with p'. change (mp_top b) with (mp_top n). by rewrite Ht, <- Dl. }
  assert (raw b) by (split_and!; [exact Dp|change (mp_top n <= length p')%nat; lia|change (0 < length p')%nat; lia]).
  split_and!; try done. change (length (mp_p n) <= length p')%nat. lia.
Qed.

(** [mpassign] copies a number, and its sign. *)
Lemma mpassign_ok h (old new : Z) o n :
  h !! old = Some o -> raw o -> h !! new = Some n -> raw n ->
  exists b, mpassign old new h = Done tt (<[new := b]> h) /\ raw b /\
    mp_sign b = mp_sign o /\ mp_top b = mp_top o /\ digits b = digits o /\ mp_static b = mp_static n /\
    (length (mp_p n) <= length (mp_p b))%nat.
Proof.
  intros Ho Ro Hn Rn. unfold mpassign, mpbits. mrun. mrun.
  destruct (decide (old = new)) as [->|Hne].
  - assert (o = n) as -> by congruence. rewrite with_bits_id, (insert_id h new n Hn) by done.
    do 4 mrun. rewrite insert_insert_eq, !(insert_id h new n Hn). by apply move_digits_ok.
  - set (w := with_bits _ n).
    destruct (with_bits_ok (Dbits * Z.of_nat (mp_top o)) n Rn) as (Rw & Hn' & _ & Hsz & _ & Hst & _). fold w in Rw, Hn', Hsz, Hst.
    rewrite Z.mul_comm, DIGITS_mul, Nat2Z.id in Hn' by lia.
    assert (forall b', <[new := b']> h !! old = Some o) as Hold by (intros; by rewrite lookup_insert_ne).
    erewrite bind_Done; [|apply obj_Done, Hold]. mrun. rewrite insert_insert_eq.
    erewrite bind_Done; [|apply obj_Done, Hold]. mrun. rewrite insert_insert_eq.
    set (n1 := (w <| mp_sign := _ |>) <| mp_top := _ |>).
    destruct (move_digits_ok (<[new := n1]> h) new old n1 o) as (b & E & Rb & Sb & Tb & Db & Stb & Zb).
    + apply Hold.
    + done.
    + apply lookup_insert_eq.
    + destruct Rw as (? & ? & ?). split_and!; [done| |done]. change (mp_top o <= length (mp_p w))%nat. lia.
    + done.
    + exists b. rewrite E, insert_insert_eq. split_and!; try done; [by rewrite Stb|].
      change (length (mp_p w) <= length (mp_p b))%nat in Zb. lia.
Qed.

(** ** Comparison *)

Lemma mpmagcmp_ok h (b1 b2 : Z) x y :
  h !! b1 = Some x -> trimmed x -> h !! b2 = Some y -> trimmed y ->
  exists c, mpmagcmp b1 b2 h = Done c h /\ Z.sgn c = Z.sgn (mag x - mag y).
Proof.
  intros Hx Tx Hy Ty. unfold mpmagcmp. do 2 mrun. cbv zeta.
  destruct (Z.eqb_spec (Z.of_nat (mp_top x) - Z.of_nat (mp_top y)) 0) as [E|Hne]; cbn [negb].
  - pose proof Tx as [(Dx & _) _]. pose proof Ty as [(Dy & _) _].
    destruct (digits_ok x (proj1 Tx)) as [_ Lx]. destruct (digits_ok y (proj1 Ty)) as [_ Ly].
    pose proof (mpveccmp_ok (digits x) (drop (mp_top x) (mp_p x)) (digits y) (drop (mp_top y) (mp_p y))) as Hc.
    rewrite <- !digits_app, Lx, Ly in Hc. eexists. split; [apply lift_Done, (Hc Dx Dy)|apply Z.sgn_sgn].
  - eexists. split; [reflexivity|]. pose proof (mag_top x y Tx Ty). pose proof (mag_top y x Ty Tx). lia.
Qed.

(** ** Sums and differences of magnitudes *)

(** The common part of [mpmagadd] for operands that are not zero, the longer one first. *)
Lemma magadd_long h (b1 b2 sum : Z) x y s :
  h !! b1 = Some x -> trimmed x -> h !! b2 = Some y -> trimmed y -> h !! sum = Some s -> raw s ->
  (mp_top y <= mp_top x)%nat ->
  exists b,
    (mpbits sum ((Z.of_nat (mp_top x) + 1) * Dbits);;
     set_obj sum (fun s => s <| mp_top := S (mp_top x) |>);;
     x1 ← obj b1; y1 ← obj b2; s1 ← obj sum;
     p ← lift (mpvecadd (mp_p x1) (mp_top x) (mp_p y1) (mp_top y) (mp_p s1));
     put sum (s1 <| mp_p := p |> <| mp_sign := 1 |>);;
     mpnorm sum) h = Done tt (<[sum := b]> h) /\
    normal b /\ mpval b = mag x + mag y /\ mp_static b = mp_static s.
Proof.
  intros Hx Tx Hy Ty Hs Rs Hle. set (m := (Z.of_nat (mp_top x) + 1) * Dbits).
  destruct (with_bits_ok m s Rs) as (Rw & Hn & _ & _ & _ & Hst & _).
  destruct (digits_ok x (proj1 Tx)) as [Dx Lx]. destruct (digits_ok y (proj1 Ty)) as [Dy Ly].
  unfold m in Hn. rewrite DIGITS_mul in Hn by lia. fold m in Hn.
  replace (Z.to_nat (Z.of_nat (mp_top x) + 1)) with (S (mp_top x)) in Hn by lia.
  pose proof Rw as (Wd & Wt & Wp). set (w := with_bits m s) in *.
  set (w1 := w <| mp_top := S (mp_top x) |>).
  destruct (bits_view h sum s m w1 b1 x Hs Rs eq_refl Hx (proj1 Tx)) as (x' & Hx' & _ & Ex).
  destruct (bits_view h sum s m w1 b2 y Hs Rs eq_refl Hy (proj1 Ty)) as (y' & Hy' & _ & Ey).
  destruct (mpvecadd_ok (digits x) (drop (mp_top x) (mp_p x')) (digits y) (drop (mp_top y) (mp_p y'))
    (take (S (mp_top x)) (mp_p w)) (drop (S (mp_top x)) (mp_p w))) as (r & Er & Hr & Hd & Hv);
    [done|done|lia|rewrite length_take; lia|].
  rewrite take_drop, Lx, Ly, <- Ex, <- Ey in Er. rewrite length_take, Nat.min_l in Hr by lia.
  unfold mpbits. mrun. fold w. mrun. rewrite insert_insert_eq. fold w1. mrun. mrun. mrun.
  change (mp_p w1) with (mp_p w). mrun. erewrite bind_Done; [|reflexivity]. rewrite insert_insert_eq.
  set (p := r ++ drop (S (mp_top x)) (mp_p w)). set (b := (w1 <| mp_p := p |>) <| mp_sign := 1 |>).
  assert (digits b = r) as Eb.
  { unfold digits. change (mp_p b) with p. change (mp_top b) with (S (mp_top x)). rewrite <- Hr.
    apply take_app_length. }
  assert (raw b) as Rb.
  { assert (length p = length (mp_p w)) as Lp by (unfold p; rewrite length_app, length_drop; lia).
    split_and!; [|change (S (mp_top x) <= length p)%nat; lia|change (0 < length p)%nat; lia].
    apply Forall_app. split; [done|by apply Forall_drop]. }
  destruct (mpnorm_ok (<[sum := b]> h) sum b) as (b' & -> & Nb & Vb & Sb & _);
    [apply lookup_insert_eq|done|by left|].
  exists b'. rewrite insert_insert_eq, Vb, Sb. split_and!; try done.
  unfold mpval, mag. rewrite Eb, Hv. change (mp_sign b) with 1. unfold mag. lia.
Qed.

Lemma raw_zero : raw _mpzero.
Proof. by_decide. Qed.

(** Assigning a trimmed number. *)
Lemma mpassign_trimmed h (old new : Z) o n :
  h !! old = Some o -> trimmed o -> h !! new = Some n -> raw n ->
  exists b, mpassign old new h = Done tt (<[new := b]> h) /\ trimmed b /\
    mp_sign b = mp_sign o /\ mp_top b = mp_top o /\ mag b = mag o /\ mp_static b = mp_static n /\
    (length (mp_p n) <= length (mp_p b))%nat.
Proof.
  intros Ho [Ro To] Hn Rn. destruct (mpassign_ok h old new o n Ho Ro Hn Rn) as (b & E & Rb & Sb & Tb & Db & Stb & Zb).
  exists b. assert (mag b = mag o) as Em by (unfold mag; by rewrite Db).
  split_and!; try done. split; [done|]. by rewrite Tb, Em.
Qed.

(** [mpmagadd]: the sum of the magnitudes, with any sign unless it is zero. *)
Lemma mpmagadd_ok h (b1 b2 sum : Z) x y s :
  h !! b1 = Some x -> trimmed x -> h !! b2 = Some y -> trimmed y -> h !! sum = Some s -> raw s ->
  h !! mpzero = Some _mpzero ->
  exists b, mpmagadd b1 b2 sum h = Done tt (<[sum := b]> h) /\ trimmed b /\
    mag b = mag x + mag y /\ mp_static b = mp_static s /\ (mp_top b = 0%nat -> mp_sign b = 1).
Proof.
  intros Hx Tx Hy Ty Hs Rs Hz. unfold mpmagadd. do 2 mrun.
  assert (forall c1 c2 u v, h !! c1 = Some u -> trimmed u -> h !! c2 = Some v -> trimmed v ->
    (mp_top v <= mp_top u)%nat -> mag u + mag v = mag x + mag y ->
    exists b, (if (mp_top u =? 0)%nat then mpassign mpzero sum
      else if (mp_top v =? 0)%nat then mpassign c1 sum
      else mpbits sum ((Z.of_nat (mp_top u) + 1) * Dbits);;
        set_obj sum (fun s => s <| mp_top := S (mp_top u) |>);;
        x1 ← obj c1; y1 ← obj c2; s1 ← obj sum;
        p ← lift (mpvecadd (mp_p x1) (mp_top u) (mp_p y1) (mp_top v) (mp_p s1));
        put sum (s1 <| mp_p := p |> <| mp_sign := 1 |>);;
        mpnorm sum) h = Done tt (<[sum := b]> h) /\ trimmed b /\
      mag b = mag x + mag y /\ mp_static b = mp_static s /\ (mp_top b = 0%nat -> mp_sign b = 1)) as Hlong.
  { clear Hx Tx Hy Ty. intros c1 c2 u v Hu Tu Hv Tv Hle <-.
    pose proof (mag_zero u Tu) as Zu. pose proof (mag_zero v Tv) as Zv.
    destruct (Nat.eqb_spec (mp_top u) 0) as [E|Hne].
    { destruct (mpassign_trimmed h mpzero sum _ s Hz) as (b & Eb & Tb & Sb & Tb' & Mb & Stb & _);
        [by_decide|done|done|].
      exists b. split_and!; [done|apply Tb..| |done|by rewrite Sb].
      rewrite Mb, (proj1 Zu E), (proj1 Zv) by lia. done. }
    destruct (Nat.eqb_spec (mp_top v) 0) as [E|Hne'].
    { destruct (mpassign_trimmed h c1 sum u s Hu Tu Hs Rs) as (b & Eb & Tb & Sb & Tb' & Mb & Stb & _).
      exists b. split_and!; [done|apply Tb..| |done|by rewrite Tb']. rewrite Mb, (proj1 Zv E). lia. }
    destruct (magadd_long h c1 c2 sum u v s Hu Tu Hv Tv Hs Rs Hle) as (b & Eb & (Tb & Sb & Zb) & Vb & Stb).
    exists b. split_and!; try done. unfold mpval in Vb.
    pose proof (mag_range b (proj1 Tb)). pose proof (mag_range u (proj1 Tu)). pose proof (mag_range v (proj1 Tv)).
    destruct Sb as [Sb|Sb]; rewrite Sb in Vb; lia. }
  destruct (Nat.ltb_spec (mp_top x) (mp_top y)); cbn beta iota; apply Hlong; try done; lia.
Qed.

(** The part of [mpmagsub] for a smaller operand that is not zero. *)
Lemma magsub_long h (b1 b2 diff : Z) x y s sign :
  h !! b1 = Some x -> trimmed x -> h !! b2 = Some y -> trimmed y -> h !! diff = Some s -> raw s ->
  mag y <= mag x -> sign = 1 \/ sign = -1 ->
  exists b,
    (mpbits diff (Z.of_nat (mp_top x) * Dbits);;
     x1 ← obj b1; y1 ← obj b2; d ← obj diff;
     p ← lift (mpvecsub (mp_p x1) (mp_top x) (mp_p y1) (mp_top y) (mp_p d));
     put diff (d <| mp_p := p |> <| mp_sign := sign |> <| mp_top := mp_top x |>);;
     mpnorm diff) h = Done tt (<[diff := b]> h) /\
    normal b /\ mpval b = sign * (mag x - mag y) /\ mp_static b = mp_static s /\
    (mag x = mag y -> mp_top x <> 0%nat -> mp_p b !! 0%nat = Some 0).
Proof.
  intros Hx Tx Hy Ty Hs Rs Hle Hsign. set (m := Z.of_nat (mp_top x) * Dbits).
  destruct (with_bits_ok m s Rs) as (Rw & Hn & _ & _ & _ & Hst & _).
  destruct (digits_ok x (proj1 Tx)) as [Dx Lx]. destruct (digits_ok y (proj1 Ty)) as [Dy Ly].
  pose proof (mag_top y x Ty Tx Hle) as Htop.
  unfold m in Hn. rewrite DIGITS_mul, Nat2Z.id in Hn by lia. fold m in Hn.
  pose proof Rw as (Wd & Wt & Wp). set (w := with_bits m s) in *.
  destruct (bits_view h diff s m w b1 x Hs Rs eq_refl Hx (proj1 Tx)) as (x' & Hx' & _ & Ex).
  destruct (bits_view h diff s m w b2 y Hs Rs eq_refl Hy (proj1 Ty)) as (y' & Hy' & _ & Ey).
  destruct (mpvecsub_ok (digits x) (drop (mp_top x) (mp_p x')) (digits y) (drop (mp_top y) (mp_p y'))
    (take (mp_top x) (mp_p w)) (drop (mp_top x) (mp_p w))) as (r & Er & Hr & Hd & Hv);
    [done|done|lia|rewrite length_take; lia|done|].
  rewrite take_drop, Lx, Ly, <- Ex, <- Ey in Er. rewrite length_take, Nat.min_l in Hr by lia.
  unfold mpbits. mrun. fold w. mrun. mrun. mrun.
  mrun. erewrite bind_Done; [|reflexivity]. rewrite insert_insert_eq.
  set (p := r ++ drop (mp_top x) (mp_p w)).
  set (b := ((w <| mp_p := p |>) <| mp_sign := sign |>) <| mp_top := mp_top x |>).
  assert (digits b = r) as Eb.
  { unfold digits. change (mp_p b) with p. change (mp_top b) with (mp_top x). rewrite <- Hr.
    apply take_app_length. }
  assert (raw b) as Rb.
  { assert (length p = length (mp_p w)) as Lp by (unfold p; rewrite length_app, length_drop; lia).
    split_and!; [|change (mp_top x <= length p)%nat; lia|change (0 < length p)%nat; lia].
    apply Forall_app. split; [done|by apply Forall_drop]. }
  destruct (mpnorm_ok (<[diff := b]> h) diff b) as (b' & -> & Nb & Vb & Sb & Pb);
    [apply lookup_insert_eq|done|done|].
  exists b'. rewrite insert_insert_eq, Vb, Sb. parts; try done.
  - unfold mpval, mag. rewrite Eb, Hv. done.
  - intros E Ht. rewrite Pb. change (p !! 0%nat = Some 0). unfold p. destruct r as [|d r]; [cbn in Hr; lia|].
    apply Forall_cons in Hd as [Hd1 Hd2]. pose proof (val_range r Hd2). unfold mag in E. cbn [val] in Hv.
    cbn. f_equal. unfold in_u in Hd1. lia.
Qed.

Lemma mpassign_same h a x : h !! a = Some x -> raw x -> mpassign a a h = Done tt h.
Proof.
  intros Hx Rx. destruct (digits_ok x Rx) as [Dx Lx]. unfold mpassign, mpbits. do 2 mrun.
  rewrite with_bits_id, (insert_id h a x Hx) by done. do 4 mrun. rewrite insert_insert_eq, !(insert_id h a x Hx).
  unfold move_digits. do 2 mrun.
  erewrite bind_Done.
  2:{ apply lift_Done. rewrite (digits_app x) at 1. apply (load_app [] (digits x)); [done|by rewrite Lx]. }
  erewrite bind_Done.
  2:{ apply lift_Done. rewrite (digits_app x) at 1. by apply (store_head (digits x)). }
  rewrite <- digits_app. unfold put. by rewrite (insert_id h a x Hx).
Qed.

(** A number that is not zero has no digit in question. *)
Lemma clean_nonzero b : trimmed b -> mag b <> 0 -> clean b.
Proof. intros Tb Hb E. by apply (mag_zero b Tb) in E. Qed.

(** [mpmagsub]: the difference of the magnitudes. *)
Lemma mpmagsub_ok h (b1 b2 diff : Z) x y s :
  h !! b1 = Some x -> trimmed x -> h !! b2 = Some y -> trimmed y -> h !! diff = Some s -> raw s ->
  exists b, mpmagsub b1 b2 diff h = Done tt (<[diff := b]> h) /\ normal b /\
    mpval b = mag x - mag y /\ mp_static b = mp_static s /\
    ((mp_top y = 0%nat -> b1 = diff /\ clean x) -> clean b).
Proof.
  intros Hx Tx Hy Ty Hs Rs. destruct (mpmagcmp_ok h b1 b2 x y Hx Tx Hy Ty) as (c & Ec & Hc).
  unfold mpmagsub. erewrite bind_Done; [|exact Ec].
  assert (forall c1 c2 u v sign, h !! c1 = Some u -> trimmed u -> h !! c2 = Some v -> trimmed v ->
    mag v <= mag u -> sign = 1 /\ c1 = b1 /\ u = x /\ v = y \/ sign = -1 /\ mag v <> mag u ->
    sign * (mag u - mag v) = mag x - mag y ->
    exists b, (x ← obj c1; y ← obj c2;
      if (mp_top y =? 0)%nat then mpassign c1 diff;; set_obj diff (fun d => d <| mp_sign := sign |>)
      else mpbits diff (Z.of_nat (mp_top x) * Dbits);;
        x1 ← obj c1; y1 ← obj c2; d ← obj diff;
        p ← lift (mpvecsub (mp_p x1) (mp_top x) (mp_p y1) (mp_top y) (mp_p d));
        put diff (d <| mp_p := p |> <| mp_sign := sign |> <| mp_top := mp_top x |>);;
        mpnorm diff) h = Done tt (<[diff := b]> h) /\ normal b /\
      mpval b = mag x - mag y /\ mp_static b = mp_static s /\
      ((mp_top y = 0%nat -> b1 = diff /\ clean x) -> clean b)) as Hord.
  { clear Hx Tx Hy Ty Ec Hc. intros c1 c2 u v sign Hu Tu Hv Tv Hle Hsign Ev. mrun. mrun.
    assert (forall b, normal b -> mpval b = mag x - mag y -> mag u <> mag v -> clean b) as Hcl.
    { intros b Nb Vb Hne. apply clean_nonzero; [apply Nb|]. unfold mpval in Vb. lia. }
    destruct (Nat.eqb_spec (mp_top v) 0) as [E|Hne].
    - destruct (mpassign_trimmed h c1 diff u s Hu Tu Hs Rs) as (b & Eb & Tb & Sb & Tb' & Mb & Stb & _).
      erewrite bind_Done; [|exact Eb]. erewrite set_obj_Done; [|apply lookup_insert_eq].
      rewrite insert_insert_eq. eexists. split; [reflexivity|]. set (b' := b <| mp_sign := sign |>).
      assert (mag v = 0) as Ev0 by (by apply mag_zero).
      assert (mag u = 0 -> sign = 1) by lia.
      assert (mpval b' = mag x - mag y) as Vb by (change (sign * mag b = mag x - mag y); rewrite Mb; lia).
      assert (normal b') as Nb.
      { split_and!; [exact Tb|change (sign = 1 \/ sign = -1); lia|].
        change (mp_top b = 0%nat -> sign = 1). rewrite Tb'. intros Et. apply (mag_zero u Tu) in Et. auto. }
      parts; try done. intros Hclean. destruct (Z.eq_dec (mag u) (mag v)); [|by apply Hcl].
      destruct Hsign as [(-> & -> & -> & ->)|]; [|lia]. destruct (Hclean E) as [-> Hcx].
      rewrite (mpassign_same h diff x Hu (proj1 Tu)) in Eb. injection Eb as Eb.
      assert (b = x) as -> by (rewrite Eb, lookup_insert_eq in Hu; congruence). exact Hcx.
    - destruct (magsub_long h c1 c2 diff u v s sign Hu Tu Hv Tv Hs Rs Hle ltac:(lia)) as (b & Eb & Nb & Vb & Stb & Pb).
      exists b. parts; try done; [lia|]. intros _. destruct (Z.eq_dec (mag u) (mag v)) as [Euv|]; [|apply Hcl; [done|lia|done]].
      intros _. apply Pb; [done|]. intros Et. pose proof (mag_top v u Tv Tu Hle). lia. }
  destruct (Z.ltb_spec c 0); cbn beta iota;
    [apply (Hord b2 b1 y x (-1))|apply (Hord b1 b2 x y 1)]; try done; try lia. left. done.
Qed.

(** ** The arithmetic functions *)

Lemma normal_mag b : normal b -> mag b = Z.abs (mpval b) /\ mp_sign b = (if mpval b <? 0 then -1 else 1).
Proof.
  intros (Tb & Sb & Zb). pose proof (mag_range b (proj1 Tb)). pose proof (mag_zero b Tb) as Hz.
  unfold mpval. destruct Sb as [Sb|Sb]; rewrite Sb.
  - split; [lia|]. bcase; lia.
  - assert (mag b <> 0). { intros E. apply Hz in E. rewrite (Zb E) in Sb. done. }
    split; [lia|]. bcase; lia.
Qed.

(** Giving a trimmed number a sign. *)
Lemma signed b sg :
  trimmed b -> sg = 1 \/ sg = -1 -> (mag b = 0 -> sg = 1) ->
  normal (b <| mp_sign := sg |>) /\ mpval (b <| mp_sign := sg |>) = sg * mag b.
Proof.
  intros Tb Hs H0. split; [|done]. split; [exact Tb|]. split; [exact Hs|].
  change (mp_top b = 0%nat -> sg = 1). intros E. by apply H0, (mag_zero b Tb).
Qed.

Section arithmetic.
Context (h : heap) (b1 b2 res : Z) (x y s : mpint).
Hypotheses (Hx : h !! b1 = Some x) (Nx : normal x) (Hy : h !! b2 = Some y) (Ny : normal y)
  (Hs : h !! res = Some s) (Rs : raw s).

Lemma mpcmp_ok :
  exists c, mpcmp b1 b2 h = Done c h /\ Z.sgn c = Z.sgn (mpval x - mpval y).
Proof using Hx Nx Hy Ny.
  destruct (normal_mag x Nx) as [Mx Sx]. destruct (normal_mag y Ny) as [My Sy].
  destruct (mpmagcmp_ok h b1 b2 x y Hx (proj1 Nx) Hy (proj1 Ny)) as (c & Ec & Hc).
  destruct (mpmagcmp_ok h b2 b1 y x Hy (proj1 Ny) Hx (proj1 Nx)) as (c' & Ec' & Hc').
  unfold mpcmp. mrun. mrun. rewrite Sx, Sy.
  destruct (Z.ltb_spec (mpval x) 0); destruct (Z.ltb_spec (mpval y) 0); cbn [Z.eqb Pos.eqb negb Z.ltb Z.compare].
  - exists c'. split; [done|lia].
  - exists (-1 - 1). split; [done|lia].
  - exists (1 - -1). split; [done|lia].
  - exists c. split; [done|lia].
Qed.

(** [mpcmp] returns a number with the sign of the difference. *)
Theorem mpcmp_correct :
  exists c, mpcmp b1 b2 h = Done c h /\ Z.sgn c = Z.sgn (mpval x - mpval y).
Proof using Hx Nx Hy Ny. apply mpcmp_ok. Qed.

Hypothesis Hz : h !! mpzero = Some _mpzero.

Lemma mpadd_full :
  exists b, mpadd b1 b2 res h = Done tt (<[res := b]> h) /\ normal b /\ mpval b = mpval x + mpval y /\
    mp_static b = mp_static s /\ (mpval y <> 0 -> clean b).
Proof using All.
  destruct (normal_mag x Nx) as [Mx Sx]. destruct (normal_mag y Ny) as [My Sy].
  pose proof (mag_zero x (proj1 Nx)) as X0. pose proof (mag_zero y (proj1 Ny)) as Y0.
  unfold mpadd. mrun. mrun. rewrite Sx, Sy.
  destruct (mpmagsub_ok h b1 b2 res x y s Hx (proj1 Nx) Hy (proj1 Ny) Hs Rs) as (d & Ed & Nd & Vd & Sd & Cd).
  destruct (mpmagsub_ok h b2 b1 res y x s Hy (proj1 Ny) Hx (proj1 Nx) Hs Rs) as (d' & Ed' & Nd' & Vd' & Sd' & Cd').
  destruct (mpmagadd_ok h b1 b2 res x y s Hx (proj1 Nx) Hy (proj1 Ny) Hs Rs Hz) as (b & Eb & Tb & Mb & Stb & Zb).
  destruct (Z.ltb_spec (mpval x) 0); destruct (Z.ltb_spec (mpval y) 0); cbn [Z.eqb Pos.eqb negb Z.ltb Z.compare].
  2: { exists d'. parts; try done; [lia|]. intros _. apply Cd'. intros E. apply X0 in E. lia. }
  2: { exists d. parts; try done; [lia|]. intros _. apply Cd. intros E. apply Y0 in E. lia. }
  all: erewrite bind_Done; [|exact Eb]; mrun.
  all: pose proof (mag_zero b Tb) as Hb0.
  all: destruct (Nat.eqb_spec (mp_top b) 0) as [E|Hne]; cbn [negb]; unfold put; rewrite ?insert_insert_eq.
  - lia.
  - destruct (signed b (-1) Tb) as [Nb Vb]; [by right|lia|]. eexists. split; [reflexivity|].
    split; [exact Nb|]. split; [etransitivity; [exact Vb|lia]|]. split; [exact Stb|]. intros _. by intros ?.
  - exists b. unfold mpval at 1. rewrite (Zb E).
    split; [done|]. split; [split; [exact Tb|split; [left; auto|exact Zb]]|]. split; [lia|]. split; [done|]. lia.
  - destruct (signed b 1 Tb) as [Nb Vb]; [by left|lia|]. eexists. split; [reflexivity|].
    split; [exact Nb|]. split; [etransitivity; [exact Vb|lia]|]. split; [exact Stb|]. intros _. by intros ?.
Qed.

Lemma mpadd_ok :
  exists b, mpadd b1 b2 res h = Done tt (<[res := b]> h) /\ normal b /\ mpval b = mpval x + mpval y.
Proof using All. destruct mpadd_full as (b & E & N & V & _). by exists b. Qed.

(** [mpadd] makes its result the normal form of the sum of its operands and changes
    nothing else, also when the result is one of the operands. *)
Theorem mpadd_correct :
  exists b, mpadd b1 b2 res h = Done tt (<[res := b]> h) /\ normal b /\ mpval b = mpval x + mpval y.
Proof using All. apply mpadd_ok. Qed.

Lemma mpsub_full :
  exists b, mpsub b1 b2 res h = Done tt (<[res := b]> h) /\ normal b /\ mpval b = mpval x - mpval y /\
    mp_static b = mp_static s /\ (b1 = res -> clean x -> clean b).
Proof using All.
  destruct (normal_mag x Nx) as [Mx Sx]. destruct (normal_mag y Ny) as [My Sy].
  unfold mpsub. mrun. mrun. cbv zeta. rewrite Sx, Sy.
  destruct (mpmagsub_ok h b1 b2 res x y s Hx (proj1 Nx) Hy (proj1 Ny) Hs Rs) as (d & Ed & Nd & Vd & Std & Cd).
  destruct (mpmagadd_ok h b1 b2 res x y s Hx (proj1 Nx) Hy (proj1 Ny) Hs Rs Hz) as (b & Eb & Tb & Mb & Stb & Zb).
  pose proof Nd as (Td & Sd & Zd). pose proof (mag_zero d Td) as Hd0. pose proof (mag_zero b Tb) as Hb0.
  destruct (Z.ltb_spec (mpval x) 0); destruct (Z.ltb_spec (mpval y) 0); cbn [Z.eqb Pos.eqb negb Z.ltb Z.compare].
  2,3: erewrite bind_Done; [|exact Eb]; erewrite set_obj_Done; [|apply lookup_insert_eq];
    rewrite insert_insert_eq; eexists; (split; [reflexivity|]).
  2: destruct (signed b (-1) Tb) as [Nb Vb]; [lia|lia|split; [exact Nb|split; [etransitivity; [exact Vb|lia]|]]].
  3: destruct (signed b 1 Tb) as [Nb Vb]; [lia|lia|split; [exact Nb|split; [etransitivity; [exact Vb|lia]|]]].
  2,3: (split; [exact Stb|]); intros _ _ E; apply Hb0 in E; lia.
  all: erewrite bind_Done; [|exact Ed]; mrun.
  all: destruct (Nat.eqb_spec (mp_top d) 0) as [E|Hne]; cbn [negb]; unfold put; rewrite ?insert_insert_eq.
  1,3: exists d; parts; try done; [apply Hd0 in E; unfold mpval in *; nia|auto].
  all: eexists; (split; [reflexivity|]).
  - destruct (signed d (mp_sign d * -1) Td) as [Nb Vb]; [lia|lia|].
    parts; [exact Nb|etransitivity; [exact Vb|unfold mpval in *; lia]|exact Std|]. intros _ _. by intros ?.
  - destruct (signed d (mp_sign d * 1) Td) as [Nb Vb]; [lia|lia|].
    parts; [exact Nb|etransitivity; [exact Vb|unfold mpval in *; lia]|exact Std|]. intros _ _. by intros ?.
Qed.

Lemma mpsub_ok :
  exists b, mpsub b1 b2 res h = Done tt (<[res := b]> h) /\ normal b /\ mpval b = mpval x - mpval y.
Proof using All. destruct mpsub_full as (b & E & N & V & _). by exists b. Qed.

(** [mpsub] makes its result the normal form of the difference. *)
Theorem mpsub_correct :
  exists b, mpsub b1 b2 res h = Done tt (<[res := b]> h) /\ normal b /\ mpval b = mpval x - mpval y.
Proof using All. apply mpsub_ok. Qed.
End arithmetic.

(** ** Products *)

(** The digits of a result that [mpbits] has cleared. *)
Lemma cleared_digits s N :
  raw s -> (0 < N)%nat ->
  let w := with_bits (Z.of_nat N * Dbits) (s <| mp_top := 0%nat |>) in
  raw w /\ mp_p w = replicate N 0 ++ drop N (mp_p w) /\ mp_static w = mp_static s.
Proof.
  intros Rs HN. set (s0 := s <| mp_top := 0%nat |>). intros w.
  assert (raw s0) as R0 by (destruct Rs as (? & ? & ?); split_and!; [done|change (0 <= length (mp_p s))%nat; lia|done]).
  destruct (with_bits_ok (Z.of_nat N * Dbits) s0 R0) as (Rw & _ & _ & _ & _ & Hst & _ & Hz). fold w in Rw, Hst, Hz.
  rewrite DIGITS_mul, Nat2Z.id in Hz by lia. change (mp_top s0) with 0%nat in Hz.
  rewrite Nat.sub_0_r, drop_0 in Hz. split_and!; [apply Rw..| |done].
  rewrite <- (Hz HN). by rewrite take_drop.
Qed.

(** The main part of [mpmul]: the product into an object that is not an operand. *)
Lemma mul_into h (b1 b2 new : Z) x y s :
  h !! b1 = Some x -> normal x -> h !! b2 = Some y -> normal y -> h !! new = Some s -> raw s ->
  new <> b1 -> new <> b2 ->
  exists b, (forall B (k : mpm B),
    (set_obj new (fun p => p <| mp_top := 0%nat |>);;
     x ← obj b1; y ← obj b2;
     let n := mp_top x in let m := mp_top y in
     mpbits new ((Z.of_nat n + Z.of_nat m + 1) * Dbits);;
     p ← obj new;
     ds ← lift (mpvecmul (S (n `max` m)) (mp_p x) n (mp_p y) m (mp_p p));
     put new (p <| mp_p := ds |> <| mp_top := S (n + m) |> <| mp_sign := mp_sign x * mp_sign y |>);;
     mpnorm new;;
     k) h = k (<[new := b]> h)) /\
    normal b /\ mpval b = mpval x * mpval y /\ mp_static b = mp_static s.
Proof.
  intros Hx Nx Hy Ny Hs Rs Hn1 Hn2. pose proof Nx as ([Rx _] & Sx & _). pose proof Ny as ([Ry _] & Sy & _).
  destruct (digits_ok x Rx) as [Dx Lx]. destruct (digits_ok y Ry) as [Dy Ly].
  set (n := mp_top x) in *. set (m := mp_top y) in *.
  destruct (cleared_digits s (S (n + m)) Rs ltac:(lia)) as (Rw & Ew & Hst).
  replace (Z.of_nat (S (n + m)) * Dbits) with ((Z.of_nat n + Z.of_nat m + 1) * Dbits) in * by lia.
  set (w := with_bits _ _) in *.
  destruct (mpvecmul_ok (S (n `max` m)) (digits x) (drop n (mp_p x)) (digits y) (drop m (mp_p y))
    (0 :: drop (S (n + m)) (mp_p w))) as (r & Er & Hr & Hd & Hv);
    [rewrite <- digits_app; apply Rx|rewrite <- digits_app; apply Ry|lia|lia|].
  unfold n, m in Er. rewrite <- !digits_app, Lx, Ly in Er. fold n m in Er. rewrite Lx, Ly in Hr.
  assert (replicate (n + m) 0 ++ 0 :: drop (S (n + m)) (mp_p w) = mp_p w) as Ep.
  { rewrite Ew at 2. rewrite replicate_S_end. by rewrite <- app_assoc. }
  rewrite Ep in Er. set (p := r ++ 0 :: drop (S (n + m)) (mp_p w)) in *.
  assert (length p = length (mp_p w)) as Lp.
  { rewrite <- Ep. unfold p. rewrite !length_app, length_replicate. lia. }
  set (b := ((w <| mp_p := p |>) <| mp_top := S (n + m) |>) <| mp_sign := mp_sign x * mp_sign y |>).
  assert (raw b) as Rb.
  { pose proof Rw as (Wd & Wt & Wp). rewrite Ew in Wd. apply Forall_app in Wd as [_ Wd].
    split_and!; [|change (S (n + m) <= length p)%nat|change (0 < length p)%nat; lia].
    - change (is_digits p). apply Forall_app. split; [done|]. constructor; [by_decide|done].
    - unfold p. rewrite length_app. cbn [length]. lia. }
  assert (mpval b = mpval x * mpval y) as Vb.
  { unfold mpval, mag, digits at 1. change (mp_p b) with p. change (mp_top b) with (S (n + m)).
    change (mp_sign b) with (mp_sign x * mp_sign y).
    assert (take (S (n + m)) p = r ++ [0]) as ->.
    { unfold p. rewrite take_app_ge by lia. rewrite Hr. replace (S (n + m) - (n + m))%nat with 1%nat by lia. done. }
    rewrite val_app, Hv. cbn [val]. unfold mag. lia. }
  destruct (mpnorm_ok (<[new := b]> h) new b) as (b' & En & Nb' & Vb' & Sb' & _);
    [apply lookup_insert_eq|done|change (mp_sign x * mp_sign y = 1 \/ mp_sign x * mp_sign y = -1); lia|].
  rewrite insert_insert_eq in En.
  assert (forall c, <[new := c]> h !! b1 = Some x /\ <[new := c]> h !! b2 = Some y) as Hops.
  { intros c. by rewrite !lookup_insert_ne by done. }
  exists b'. split_and!; [|apply Nb'..|lia|by rewrite Sb'].
  intros C k. mrun. erewrite bind_Done; [|apply obj_Done, Hops]. erewrite bind_Done; [|apply obj_Done, Hops].
  cbv zeta. fold n m. unfold mpbits. mrun. rewrite insert_insert_eq. fold w. mrun. mrun.
  erewrite bind_Done; [|reflexivity]. rewrite insert_insert_eq. fold b.
  erewrite bind_Done; [|exact En]. done.
Qed.

(** A fresh object. *)
Lemma mpnew_ok h n :
  0 <= n ->
  exists a b, mpnew n h = Done a (<[a := b]> h) /\ h !! a = None /\ raw b /\ mp_top b = 0%nat /\
    mp_sign b = 1 /\ mp_static b = false /\ DIGITS n <= len (mp_p b) /\ mpmindigits <= len (mp_p b).
Proof.
  intros Hn. unfold mpnew. destruct (Z.ltb_spec n 0); [lia|].
  set (k := if DIGITS n <? mpmindigits then mpmindigits else DIGITS n).
  assert (DIGITS n <= k /\ mpmindigits <= k) as [K1 K2] by (unfold k; bcase; lia).
  set (b := mkMpint 1 0 (replicate (Z.to_nat k) 0) false).
  assert (len (mp_p b) = k) as Lb.
  { change (len (replicate (Z.to_nat k) (0 : Z)) = k). rewrite length_replicate. unfold mpmindigits in K2. lia. }
  assert (raw b) as Rb.
  { unfold mpmindigits in K2. split_and!; [apply digits_zeros|change (0 <= length (mp_p b))%nat; lia|lia]. }
  exists (fresh (dom h)), b. split; [done|]. split; [apply not_elem_of_dom, is_fresh|]. by rewrite Lb.
Qed.

(** A copy. *)
Lemma mpcopy_ok h (old : Z) o :
  h !! old = Some o -> normal o ->
  exists a c, mpcopy old h = Done a (<[a := c]> h) /\ h !! a = None /\ normal c /\ mpval c = mpval o /\ mp_static c = false.
Proof.
  intros Ho No. pose proof No as ([Ro To] & So & Zo). pose proof Ro as (_ & Lo & _). unfold mpcopy. mrun.
  destruct (mpnew_ok h (Dbits * len (mp_p o))) as (a & b & En & Ha & Rb & _ & _ & Sb & Lb & _); [unfold Dbits; lia|].
  rewrite Z.mul_comm, DIGITS_mul in Lb by lia. erewrite bind_Done; [|exact En]. mrun. rewrite insert_insert_eq.
  set (b1 := (b <| mp_top := _ |>) <| mp_sign := _ |>). assert (a <> old) as Hne by congruence.
  destruct (move_digits_ok (<[a := b1]> h) a old b1 o) as (c & Ec & Rc & Sc & Tc & Dc & Stc & _).
  - by rewrite lookup_insert_ne.
  - done.
  - apply lookup_insert_eq.
  - destruct Rb as (Db & _ & Pb). split_and!; [exact Db|change (mp_top o <= length (mp_p b))%nat; lia|exact Pb].
  - done.
  - erewrite bind_Done; [|exact Ec]. rewrite insert_insert_eq. exists a, c.
    change (mp_sign b1) with (mp_sign o) in Sc. change (mp_top b1) with (mp_top o) in Tc.
    assert (mag c = mag o) as Mc by (unfold mag; by rewrite Dc).
    parts; try done; [|unfold mpval; by rewrite Sc, Mc|by rewrite Stc]. split; [split; [exact Rc|by rewrite Tc, Mc]|].
    by rewrite Sc, Tc.
Qed.

(** Copying a number to its place and freeing the object it was computed in. *)
Lemma assign_and_free h (new res : Z) b s :
  h !! new = None -> normal b -> mp_static b = false -> h !! res = Some s -> raw s ->
  exists c, (mpassign new res;; mpfree (Some new)) (<[new := b]> h) = Done tt (<[res := c]> h) /\
    normal c /\ mpval c = mpval b /\ mp_static c = mp_static s.
Proof.
  intros Hn (Tb & Sb & Zb) Hst Hs Rs. assert (res <> new) as Hne by congruence.
  destruct (mpassign_trimmed (<[new := b]> h) new res b s) as (c & Ec & Tc & Sc & Hc & Mc & Stc & _);
    [apply lookup_insert_eq|done|by rewrite lookup_insert_ne|done|].
  erewrite bind_Done; [|exact Ec]. unfold mpfree.
  erewrite bind_Done; [|apply obj_Done; rewrite lookup_insert_ne by done; apply lookup_insert_eq].
  rewrite Hst. exists c. split_and!.
  - f_equal. rewrite delete_insert_ne by done. by rewrite delete_insert_id.
  - split; [exact Tc|]. by rewrite Sc, Hc.
  - unfold mpval. by rewrite Sc, Mc.
  - done.
Qed.

Lemma mpmul_ok h (b1 b2 res : Z) x y s :
  h !! b1 = Some x -> normal x -> h !! b2 = Some y -> normal y -> h !! res = Some s -> raw s ->
  exists b, mpmul b1 b2 res h = Done tt (<[res := b]> h) /\ normal b /\ mpval b = mpval x * mpval y /\
    mp_static b = mp_static s.
Proof.
  intros Hx Nx Hy Ny Hs Rs. unfold mpmul.
  destruct ((res =? b1) || (res =? b2)) eqn:Ea; cbv zeta.
  - destruct (mpnew_ok h 0 ltac:(done)) as (a & z & En & Ha & Rz & _ & _ & Hst & _).
    erewrite bind_Done; [|exact En].
    destruct (mul_into (<[a := z]> h) b1 b2 a x y z) as (b & Eb & Nb & Vb & Sb);
      [by rewrite lookup_insert_ne by congruence|done|by rewrite lookup_insert_ne by congruence|done
      |apply lookup_insert_eq|done|congruence|congruence|].
    rewrite Eb, insert_insert_eq.
    destruct (assign_and_free h a res b s) as (c & Ec & Nc & Vc & Sc); [done|done|congruence|done|done|].
    exists c. rewrite Vc. done.
  - apply orb_false_iff in Ea as [E1 E2]. apply Z.eqb_neq in E1, E2.
    erewrite bind_Done; [|reflexivity].
    destruct (mul_into h b1 b2 res x y s) as (b & Eb & Nb & Vb & Sb); [done..|].
    rewrite Eb. by exists b.
Qed.

(** C20: [mpmul] makes its result the normal form of the product, by the schoolbook method or
    by Karatsuba's, also when the result is one of the operands. *)
Theorem mpmul_correct h (b1 b2 res : Z) x y s :
  h !! b1 = Some x -> normal x -> h !! b2 = Some y -> normal y -> h !! res = Some s -> raw s ->
  exists b, mpmul b1 b2 res h = Done tt (<[res := b]> h) /\ normal b /\ mpval b = mpval x * mpval y.
Proof.
  intros Hx Nx Hy Ny Hs Rs. destruct (mpmul_ok h b1 b2 res x y s) as (b & E & N & V & _); try done. by exists b.
Qed.

(** ** On numbers *)

(** A negative number of one digit, a number of two, and an object that has no digits yet. *)
Definition ex_neg : mpint := mkMpint (-1) 1 [7000000; 0] false.
Definition ex_two : mpint := mkMpint 1 2 [1; 3] false.
Definition ex_nil : mpint := mkMpint 1 0 [5] false.

Definition ex_heap : heap :=
  {[ mpzero := _mpzero; mpone := _mpone; mptwo := _mptwo; 10 := ex_neg; 11 := ex_two; 12 := ex_nil ]}.

Ltac on_numbers := first [reflexivity | by_decide].

Lemma mpcmp_correct_witness :
  exists c, mpcmp 10 11 ex_heap = Done c ex_heap /\ Z.sgn c = Z.sgn (-7000000 - (1 + 3 * B)).
Proof. apply (mpcmp_correct ex_heap 10 11 ex_neg ex_two); on_numbers. Defined.

Lemma mpadd_correct_witness :
  exists b, mpadd 10 11 10 ex_heap = Done tt (<[10 := b]> ex_heap) /\ normal b /\
    mpval b = -7000000 + (1 + 3 * B).
Proof. apply (mpadd_correct ex_heap 10 11 10 ex_neg ex_two ex_neg); on_numbers. Defined.

Lemma mpsub_correct_witness :
  exists b, mpsub 10 10 12 ex_heap = Done tt (<[12 := b]> ex_heap) /\ normal b /\
    mpval b = -7000000 - -7000000.
Proof. apply (mpsub_correct ex_heap 10 10 12 ex_neg ex_neg ex_nil); on_numbers. Defined.

Lemma mpmul_correct_witness :
  exists b, mpmul 11 10 11 ex_heap = Done tt (<[11 := b]> ex_heap) /\ normal b /\
    mpval b = (1 + 3 * B) * -7000000.
Proof. apply (mpmul_correct ex_heap 11 10 11 ex_two ex_neg ex_two); on_numbers. Defined.
