(* ===== verification/Mpshift.v ===== *)
(** * Shifts: [mpleft.c] and [mpright.c]

    The loops read the operand through the heap as the C code does: when the result is the
    operand they read what they have written, so the order in which they go through the
    digits matters. *)

From S2P Require Import Prelude Mpvec Mpmul Mpint MpintProps.

Implicit Types (h : heap).

(** ** The functions *)

Definition write_digit (p : list Z) (i : nat) (x : Z) : option (list Z) :=
  if (i <? length p)%nat then Some (<[i := x]> p) else None.

(** [src] is how the operand's digits are reached from the array of the result: the array
    itself when both are the same object. *)

(** [for(i = otop-1; i >= 0; i--) res->p[i+d] = b->p[i];] *)
Fixpoint left_digits (n d : nat) (src : list Z -> list Z) (rp : list Z) : option (list Z) :=
  match n with
  | O => Some rp
  | S i =>
      x ← src rp !! i;
      rp ← write_digit rp (i + d) x;
      left_digits i d src rp
  end.

(** The loop for a shift that is not by whole digits; the result has the last digit seen. *)
Fixpoint left_bits (n d : nat) (l : Z) (src : list Z -> list Z) (rp : list Z) (last : Z)
    : option (list Z * Z) :=
  match n with
  | O => Some (rp, last)
  | S i =>
      this ← src rp !! i;
      rp ← write_digit rp (i + d + 1) (u32 (last .<< l) .| (this .>> (Dbits - l)));
      left_bits i d l src rp this
  end.

(** The shift of the digits below [otop] by [shift >= 0] bits. *)
Definition left_array (otop : nat) (shift : Z) (src : list Z -> list Z) (rp : list Z)
    : option (list Z) :=
  let d := Z.to_nat (shift / Dbits) in
  let l := shift - Z.of_nat d * Dbits in
  rp ← (if l =? 0 then left_digits otop d src rp
        else
          '(rp, last) ← left_bits otop d l src rp 0;
          write_digit rp d (u32 (last .<< l)));
  store rp 0 (replicate d 0).

(** How the digits of [b] are reached while [res] is written. *)
Definition source (b res : Z) (bp : list Z) : list Z -> list Z :=
  if b =? res then fun rp => rp else fun _ => bp.

Definition left_body (b shift res : Z) : mpm unit :=
  x ← obj b;
  let otop := mp_top x in
  mpbits res (Z.of_nat otop * Dbits + shift);;
  set_obj res (fun s => s <| mp_top := Z.to_nat (DIGITS (Z.of_nat otop * Dbits + shift)) |>);;
  x ← obj b;
  s ← obj res;
  p ← lift (left_array otop shift (source b res (mp_p x)) (mp_p s));
  n ← lift (norm_top p (mp_top s));
  put res (s <| mp_p := p |> <| mp_top := n |>).

Fixpoint right_digits (n i d : nat) (src : list Z -> list Z) (rp : list Z) : option (list Z) :=
  match n with
  | O => Some rp
  | S n =>
      x ← src rp !! (i + d)%nat;
      rp ← write_digit rp i x;
      right_digits n (S i) d src rp
  end.

Fixpoint right_bits (n i d : nat) (r : Z) (src : list Z -> list Z) (rp : list Z) (last : Z)
    : option (list Z * Z) :=
  match n with
  | O => Some (rp, last)
  | S n =>
      this ← src rp !! (i + d + 1)%nat;
      rp ← write_digit rp i (u32 (this .<< (Dbits - r)) .| (last .>> r));
      right_bits n (S i) d r src rp this
  end.

(** The shift of [top] digits, more than [d] of them. *)
Definition right_array (top d : nat) (r : Z) (src : list Z -> list Z) (rp : list Z)
    : option (list Z) :=
  if r =? 0 then right_digits (top - d) 0 d src rp
  else
    last ← src rp !! d;
    '(rp, last) ← right_bits (top - d - 1) 0 d r src rp last;
    write_digit rp (top - d - 1) (last .>> r).

Definition right_body (b shift res : Z) : mpm unit :=
  x ← obj b;
  (if negb (res =? b) then mpbits res (Z.of_nat (mp_top x) * Dbits - shift) else mret tt);;
  let d := Z.to_nat (shift / Dbits) in
  let r := shift - Z.of_nat d * Dbits in
  if (mp_top x <=? d)%nat then set_obj res (fun s => s <| mp_top := 0%nat |>)
  else
    s ← obj res;
    p ← lift (right_array (mp_top x) d r (source b res (mp_p x)) (mp_p s));
    i ← lift (norm_top p (mp_top x - d));
    put res (s <| mp_p := p |> <| mp_top := i |>
               <| mp_sign := if (i =? 0)%nat then 1 else mp_sign s |>).

(** The start of both functions: the sign, and a zero operand. *)
Definition shift_start (b res : Z) (k : mpm unit) : mpm unit :=
  x ← obj b;
  set_obj res (fun s => s <| mp_sign := mp_sign x |>);;
  if (mp_top x =? 0)%nat then set_obj res (fun s => s <| mp_top := 0%nat |>) else k.

(** A negative shift goes the other way, where it is positive (it is not the least [int]). *)
Definition mpleft (b shift res : Z) : mpm unit :=
  shift_start b res
    (if shift <? 0 then shift_start b res (right_body b (- shift) res)
     else left_body b shift res).

Definition mpright (b shift res : Z) : mpm unit :=
  shift_start b res
    (if shift <? 0 then shift_start b res (left_body b (- shift) res)
     else right_body b shift res).

(** ** Writing digits *)

Lemma write_digit_mid (a c : list Z) x y i :
  i = length a -> write_digit (a ++ x :: c) i y = Some (a ++ y :: c).
Proof.
  intros ->. unfold write_digit. rewrite length_app. cbn [length].
  destruct (Nat.ltb_spec (length a) (length a + S (length c))); [|lia].
  f_equal. by rewrite insert_app_r_alt, Nat.sub_diag by lia.
Qed.

(** A way to reach digits that writes above (or below) what is read do not disturb. *)
Definition stable (src : list Z -> list Z) (ok : nat -> nat -> Prop) : Prop :=
  forall a c x y j, ok j (length a) -> src (a ++ y :: c) !! j = src (a ++ x :: c) !! j.

Lemma source_stable b res bp (ok : nat -> nat -> Prop) :
  (forall j k, ok j k -> j <> k) -> stable (source b res bp) ok.
Proof.
  intros Hok a c x y j Hj. unfold source. destruct (b =? res); [|done].
  apply Hok in Hj. destruct (Nat.lt_ge_cases j (length a)).
  - by rewrite !lookup_app_l.
  - rewrite !lookup_app_r by lia. destruct (j - length a)%nat eqn:E; [lia|done].
Qed.

(** A digit and the bits that move into it. *)
Lemma shifted_digit x last l :
  in_u 32 x -> 0 < l < 32 ->
  in_u 32 (u32 (last .<< l) .| (x .>> (Dbits - l))) /\
  u32 (last .<< l) .| (x .>> (Dbits - l)) = u32 (last .<< l) + x / 2 ^ (32 - l).
Proof.
  intros Hx Hl. unfold Dbits. rewrite shiftr_div by lia.
  assert (in_u l (x / 2 ^ (32 - l))) as Hq.
  { unfold in_u in *. split; [apply Z.div_pos; lia|]. apply Z.div_lt_upper_bound; [lia|].
    rewrite <- Z.pow_add_r by lia. replace (32 - l + l) with 32 by lia. lia. }
  assert (u32 (last .<< l) = (last mod 2 ^ (32 - l)) .<< l) as E.
  { unfold wrap. rewrite !Z.shiftl_mul_pow2 by lia.
    replace (2 ^ 32) with (2 ^ (32 - l) * 2 ^ l) by (rewrite <- Z.pow_add_r by lia; f_equal; lia).
    by rewrite Z.mul_mod_distr_r by lia. }
  rewrite E, Z.lor_comm, lor_shiftl_add, Z.shiftl_mul_pow2 by (done || lia). split; [|lia].
  pose proof (Z.mod_pos_bound last (2 ^ (32 - l)) ltac:(lia)).
  assert (2 ^ 32 = 2 ^ (32 - l) * 2 ^ l) by (rewrite <- Z.pow_add_r by lia; f_equal; lia).
  unfold in_u in *. nia.
Qed.

(** The two parts a digit is cut into. *)
Lemma cut_digit x l :
  in_u 32 x -> 0 < l < 32 -> u32 (x .<< l) + B * (x / 2 ^ (32 - l)) = x * 2 ^ l.
Proof.
  intros Hx Hl. pose proof (shifted_divisor x l Hx ltac:(lia)) as E. rewrite E. lia.
Qed.

(** ** Shifting left *)

Lemma left_digits_ok n d src a w c o :
  stable src (fun j k => (j < k)%nat) -> length a = d -> length w = n -> length o = n ->
  (forall j, (j < n)%nat -> src (a ++ w ++ c) !! j = o !! j) ->
  left_digits n d src (a ++ w ++ c) = Some (a ++ o ++ c).
Proof.
  intros Hst Ha. revert w c o. induction n as [|i IH]; intros w c o Hw Ho Hsrc.
  { destruct w, o; done. }
  destruct (exists_last (l := w)) as (w0 & y & ->); [by intros ->|].
  destruct (exists_last (l := o)) as (o0 & x & ->); [by intros ->|].
  rewrite length_app in Hw, Ho. cbn [length] in Hw, Ho. cbn [left_digits].
  rewrite Hsrc, list_lookup_middle by lia. cbn [mbind option_bind].
  replace (a ++ (w0 ++ [y]) ++ c) with ((a ++ w0) ++ y :: c) in * by (by rewrite <- !app_assoc).
  rewrite write_digit_mid by (rewrite length_app; lia). cbn [mbind option_bind].
  rewrite <- app_assoc. rewrite (IH w0 (x :: c) o0); [by rewrite <- app_assoc|lia|lia|].
  intros j Hj. rewrite app_assoc, (Hst (a ++ w0) c y x j) by (rewrite length_app; lia).
  rewrite Hsrc by lia. by rewrite lookup_app_l by lia.
Qed.

Lemma left_bits_ok n d l src a w c o last :
  stable src (fun j k => (j < k)%nat) -> 0 < l < 32 -> length a = S d -> length w = n -> length o = n ->
  is_digits o -> (forall j, (j < n)%nat -> src (a ++ w ++ c) !! j = o !! j) ->
  exists seg last', left_bits n d l src (a ++ w ++ c) last = Some (a ++ seg ++ c, last') /\
    length seg = n /\ is_digits seg /\
    val (u32 (last' .<< l) :: seg) = val o * 2 ^ l + B ^ Z.of_nat n * u32 (last .<< l).
Proof.
  intros Hst Hl Ha. revert w c o last. induction n as [|i IH]; intros w c o last Hw Ho Hd Hsrc.
  { exists [], last. destruct w, o; try done. split_and!; try done. cbn [val].
    change (B ^ Z.of_nat 0) with 1. lia. }
  destruct (exists_last (l := w)) as (w0 & y & ->); [by intros ->|].
  destruct (exists_last (l := o)) as (o0 & x & ->); [by intros ->|].
  rewrite length_app in Hw, Ho. cbn [length] in Hw, Ho. cbn [left_bits].
  apply Forall_app in Hd as [Hd Hx]. rewrite Forall_singleton in Hx.
  rewrite Hsrc, list_lookup_middle by lia. cbn [mbind option_bind].
  replace (a ++ (w0 ++ [y]) ++ c) with ((a ++ w0) ++ y :: c) in * by (by rewrite <- !app_assoc).
  rewrite write_digit_mid by (rewrite length_app; lia). cbn [mbind option_bind].
  destruct (shifted_digit x last l Hx Hl) as [Dt Et]. set (t := u32 (last .<< l) .| _) in *.
  destruct (IH w0 (t :: c) o0 x) as (seg & last' & E & Ls & Ds & Vs); [lia|lia|done| |].
  { intros j Hj. rewrite app_assoc, (Hst (a ++ w0) c y t j) by (rewrite length_app; lia).
    rewrite Hsrc by lia. by rewrite lookup_app_l by lia. }
  rewrite <- app_assoc, E. exists (seg ++ [t]), last'. rewrite length_app. cbn [length].
  split_and!; [by rewrite <- app_assoc|lia|apply Forall_app; split; [done|by apply Forall_singleton]|].
  rewrite app_comm_cons, !val_app, Vs, Et. cbn [val length].
  rewrite Ls. replace (length o0) with i by lia.
  rewrite Nat2Z.inj_succ, Z.pow_succ_r by lia. pose proof (cut_digit x l Hx Hl). nia.
Qed.

(** The number of digits after a shift. *)
Definition left_size (t : nat) (shift : Z) : nat :=
  (t + Z.to_nat (shift / Dbits)%Z + if (shift mod Dbits =? 0)%Z then 0 else 1)%nat.

Lemma left_DIGITS t shift :
  0 <= shift -> Z.to_nat (DIGITS (Z.of_nat t * Dbits + shift)) = left_size t shift.
Proof.
  intros Hs. unfold left_size, DIGITS, Dbits. rewrite Z.quot_div_nonneg by lia.
  bcase; Z.to_euclidean_division_equations; lia.
Qed.

Lemma shift_parts shift :
  0 <= shift -> 2 ^ shift = B ^ Z.of_nat (Z.to_nat (shift / Dbits)) * 2 ^ (shift mod Dbits) /\
  shift - Z.of_nat (Z.to_nat (shift / Dbits)) * Dbits = shift mod Dbits /\ 0 <= shift mod Dbits < 32.
Proof.
  intros Hs. pose proof (Z.div_mod shift Dbits ltac:(done)) as Ediv.
  pose proof (Z.mod_pos_bound shift Dbits ltac:(done)) as Hmod.
  assert (0 <= shift / Dbits) by (apply Z.div_pos; unfold Dbits; lia).
  rewrite Z2Nat.id by done. split_and!; [|lia|lia|unfold Dbits in *; lia].
  rewrite <- Z.pow_mul_r, <- Z.pow_add_r by lia. f_equal. unfold Dbits in *. lia.
Qed.

(** The zeros below the shifted digits. *)
Lemma left_finish a ds q n v :
  is_digits ds -> is_digits q -> (length (a ++ ds) = n)%nat -> val ds = v ->
  exists p, store (a ++ ds ++ q) 0 (replicate (length a) 0) = Some p /\ is_digits p /\
    length p = length (a ++ ds ++ q) /\ val (take n p) = B ^ len a * v.
Proof.
  intros Dds Hq Hn Hv. exists (replicate (length a) 0 ++ ds ++ q).
  rewrite store_head by (by rewrite length_replicate).
  split_and!; [done|rewrite !Forall_app; split_and!; [apply digits_zeros|done..]| |].
  - by rewrite !length_app, length_replicate.
  - rewrite length_app in Hn. rewrite app_assoc.
    rewrite take_app_le by (rewrite length_app, length_replicate; lia).
    rewrite take_ge by (rewrite length_app, length_replicate; lia).
    rewrite val_app, val_zeros, length_replicate, Hv. ring.
Qed.

Lemma left_array_ok o shift src rp :
  0 <= shift -> is_digits o -> is_digits rp -> stable src (fun j k => (j < k)%nat) ->
  (left_size (length o) shift <= length rp)%nat ->
  (forall j, (j < length o)%nat -> src rp !! j = o !! j) ->
  exists p, left_array (length o) shift src rp = Some p /\ is_digits p /\ length p = length rp /\
    val (take (left_size (length o) shift) p) = val o * 2 ^ shift.
Proof.
  intros Hs Ho Hrp Hst Hlen Hsrc. unfold left_array.
  destruct (shift_parts shift Hs) as (Epow & El & Hmod). unfold left_size in *.
  set (d := Z.to_nat (shift / Dbits)) in *. rewrite El, Epow.
  destruct (Z.eqb_spec (shift mod Dbits) 0) as [E0|Hne].
  - assert (rp = take d rp ++ take (length o) (drop d rp) ++ drop (length o + d) rp) as Erp.
    { rewrite Nat.add_comm, <- drop_drop, take_drop, take_drop. done. }
    assert (length (take d rp) = d) as Ld by (rewrite length_take; lia).
    assert (length (take (length o) (drop d rp)) = length o) as Lo by (rewrite length_take, length_drop; lia).
    set (a := take d rp) in *. set (w := take (length o) (drop d rp)) in *. set (c := drop (length o + d) rp) in *.
    assert (is_digits c) as Dc by (by apply Forall_drop). rewrite Erp in Hsrc |- *.
    rewrite (left_digits_ok (length o) d src a w c o) by done. cbn [mbind option_bind].
    destruct (left_finish a o c (length o + d + 0) (val o)) as (p & Ep & Dp & Lp & Vp); [done|done|rewrite length_app; lia|done|].
    rewrite Ld in Ep, Vp. exists p. split_and!; [done|done|rewrite Lp, !length_app; lia|].
    rewrite Vp, E0. change (2 ^ 0) with 1. ring.
  - assert (rp = take (S d) rp ++ take (length o) (drop (S d) rp) ++ drop (length o + S d) rp) as Erp.
    { rewrite Nat.add_comm, <- drop_drop, take_drop, take_drop. done. }
    assert (length (take (S d) rp) = S d) as Ld by (rewrite length_take; lia).
    assert (length (take (length o) (drop (S d) rp)) = length o) as Lo by (rewrite length_take, length_drop; lia).
    set (a := take (S d) rp) in *. set (w := take (length o) (drop (S d) rp)) in *. set (c := drop (length o + S d) rp) in *.
    assert (is_digits c) as Dc by (by apply Forall_drop). rewrite Erp in Hsrc |- *.
    destruct (left_bits_ok (length o) d (shift mod Dbits) src a w c o 0) as (seg & last & E & Ls & Ds & Vs); try done; [lia|].
    rewrite E. cbn [mbind option_bind].
    destruct (exists_last (l := a)) as (a0 & y & Ea); [by intros Ha; rewrite Ha in Ld|].
    rewrite Ea in Ld |- *. rewrite length_app in Ld. cbn [length] in Ld.
    rewrite <- app_assoc. cbn [app]. rewrite write_digit_mid by lia. cbn [mbind option_bind].
    set (x := u32 (last .<< (shift mod Dbits))) in *.
    destruct (left_finish a0 (x :: seg) c (length o + d + 1) (val o * 2 ^ (shift mod Dbits))) as (p & Ep & Dp & Lp & Vp).
    + constructor; [by apply wrap_range|done].
    + done.
    + rewrite length_app. cbn [length]. lia.
    + rewrite Vs, Z.shiftl_0_l. change (u32 0) with 0. ring.
    + replace (length a0) with d in * by lia. exists p. split_and!; [done|done| |].
      * rewrite Lp, !length_app. cbn [length]. lia.
      * rewrite Vp. ring.
Qed.

(** The digits of the operand, as the loops reach them. *)
Lemma source_reads h (b res : Z) x x' s :
  h !! b = Some x' -> h !! res = Some s -> mp_p x' = digits x ++ drop (mp_top x) (mp_p x') ->
  forall j, (j < length (digits x))%nat -> source b res (mp_p x') (mp_p s) !! j = digits x !! j.
Proof.
  intros Hb Hr Ex j Hj. assert (mp_p x' !! j = digits x !! j) as E by (rewrite Ex; by apply lookup_app_l).
  unfold source. destruct (Z.eqb_spec b res) as [->|]; [|done]. assert (x' = s) as <- by congruence. done.
Qed.

Lemma left_body_ok h (b res shift : Z) x s :
  h !! b = Some x -> raw x -> h !! res = Some s -> raw s -> 0 <= shift ->
  exists c, left_body b shift res h = Done tt (<[res := c]> h) /\ trimmed c /\
    mp_sign c = mp_sign s /\ mag c = mag x * 2 ^ shift /\ mp_static c = mp_static s /\
    (length (mp_p s) <= length (mp_p c))%nat.
Proof.
  intros Hx Rx Hs Rs Hsh. set (m := Z.of_nat (mp_top x) * Dbits + shift).
  destruct (digits_ok x Rx) as [Dx Lx].
  destruct (with_bits_ok m s Rs) as (Rw & Hn & _ & Hsz & Hsg & Hst & _). pose proof Rw as (Wd & Wt & Wp).
  set (w := with_bits m s) in *. unfold m in Hn. rewrite left_DIGITS in Hn by done. fold m in Hn.
  set (w1 := w <| mp_top := left_size (mp_top x) shift |>).
  destruct (bits_view h res s m w1 b x Hs Rs eq_refl Hx Rx) as (x' & Hx' & _ & Ex).
  pose proof (source_reads _ b res x x' w1 Hx' (lookup_insert_eq _ _ _) Ex) as Hsrc.
  change (mp_p w1) with (mp_p w) in Hsrc.
  destruct (left_array_ok (digits x) shift (source b res (mp_p x')) (mp_p w)) as (p & Ep & Dp & Lp & Vp);
    [done|done|done|apply source_stable; lia|rewrite Lx; lia|done|]. rewrite Lx in Ep, Vp.
  destruct (norm_top_ok p (left_size (mp_top x) shift)) as (k & Ek & Hk & Vk & Tk); [done|lia|].
  unfold left_body, mpbits. mrun. cbv zeta. mrun. fold m w. unfold m. rewrite left_DIGITS by done. fold m.
  mrun. rewrite insert_insert_eq. fold w1. mrun. mrun. change (mp_p w1) with (mp_p w). mrun.
  change (mp_top w1) with (left_size (mp_top x) shift). mrun. unfold put. rewrite insert_insert_eq.
  eexists. split; [reflexivity|]. set (c := (w1 <| mp_p := p |>) <| mp_top := k |>).
  assert (raw c) as Rc.
  { split_and!; [exact Dp|change (k <= length p)%nat; lia|change (0 < length p)%nat; lia]. }
  split_and!; [split; [exact Rc|exact Tk]|exact Hsg| |exact Hst|change (length (mp_p s) <= length p)%nat; lia].
  change (val (take k p) = mag x * 2 ^ shift). by rewrite Vk, Vp.
Qed.

(** ** Shifting right *)

Lemma right_digits_ok n i d src a w c o :
  stable src (fun j k => (k < j)%nat) -> length a = i -> length w = n -> length o = n ->
  (forall j, (j < n)%nat -> src (a ++ w ++ c) !! (i + d + j)%nat = o !! j) ->
  right_digits n i d src (a ++ w ++ c) = Some (a ++ o ++ c).
Proof.
  intros Hst. revert i a w o. induction n as [|n IH]; intros i a w o Ha Hw Ho Hsrc.
  { destruct w, o; done. }
  destruct w as [|y w]; [done|]. destruct o as [|x o]; [done|]. cbn [right_digits].
  pose proof (Hsrc 0%nat ltac:(lia)) as H0. rewrite Nat.add_0_r in H0. rewrite H0. cbn [mbind option_bind lookup list_lookup].
  cbn [app] in *. rewrite write_digit_mid by lia. cbn [mbind option_bind].
  replace (a ++ x :: w ++ c) with ((a ++ [x]) ++ w ++ c) by (by rewrite <- app_assoc).
  rewrite (IH (S i) (a ++ [x]) w o); [by rewrite <- app_assoc|rewrite length_app; cbn; lia|by injection Hw|by injection Ho|].
  intros j Hj. rewrite <- app_assoc. cbn [app]. rewrite (Hst a (w ++ c) y x) by lia.
  replace (S i + d + j)%nat with (i + d + S j)%nat by lia. by rewrite Hsrc by lia.
Qed.

Lemma right_bits_ok n i d r src a w c t last :
  stable src (fun j k => (k < j)%nat) -> 0 < r < 32 -> length a = i -> length w = n -> length t = n ->
  is_digits t -> in_u 32 last ->
  (forall j, (j < n)%nat -> src (a ++ w ++ c) !! (i + d + 1 + j)%nat = t !! j) ->
  exists seg last', right_bits n i d r src (a ++ w ++ c) last = Some (a ++ seg ++ c, last') /\
    length seg = n /\ is_digits seg /\ in_u 32 last' /\
    val (seg ++ [last' .>> r]) = (last + B * val t) / 2 ^ r.
Proof.
  intros Hst Hr. revert i a w t last. induction n as [|n IH]; intros i a w t last Ha Hw Ht Dt Hlast Hsrc.
  { exists [], last. destruct w, t; try done. split_and!; [done|done|done|apply Hlast..|]. cbn [val app].
    rewrite shiftr_div by lia. rewrite !Z.mul_0_r, !Z.add_0_r. done. }
  destruct w as [|y w]; [done|]. destruct t as [|x t]; [done|]. cbn [right_bits].
  inversion_clear Dt as [|? ? Hx Dt'].
  pose proof (Hsrc 0%nat ltac:(lia)) as H0. rewrite Nat.add_0_r in H0. rewrite H0. cbn [mbind option_bind lookup list_lookup].
  cbn [app] in *. rewrite write_digit_mid by lia. cbn [mbind option_bind].
  destruct (shifted_digit last x (Dbits - r) Hlast ltac:(unfold Dbits; lia)) as [De Ee].
  replace (Dbits - (Dbits - r)) with r in De, Ee by lia.
  set (e := u32 (x .<< (Dbits - r)) .| (last .>> r)) in *.
  replace (a ++ e :: w ++ c) with ((a ++ [e]) ++ w ++ c) by (by rewrite <- app_assoc).
  destruct (IH (S i) (a ++ [e]) w t x) as (seg & last' & E & Ls & Ds & Dl & Vs);
    [rewrite length_app; cbn; lia|by injection Hw|by injection Ht|done|done| |].
  { intros j Hj. rewrite <- app_assoc. cbn [app]. rewrite (Hst a (w ++ c) y e) by lia.
    replace (S i + d + 1 + j)%nat with (i + d + 1 + S j)%nat by lia. by rewrite Hsrc by lia. }
  rewrite E. exists (e :: seg), last'. cbn [length app val].
  split_and!; [by rewrite <- app_assoc|lia|by constructor|apply Dl..|].
  rewrite Vs, Ee. replace (32 - (Dbits - r)) with r by (unfold Dbits; lia).
  set (Y := x + B * val t). assert (B = 2 ^ (Dbits - r) * 2 ^ r) as EB
    by (rewrite <- Z.pow_add_r by (unfold Dbits; lia); f_equal; unfold Dbits; lia).
  assert (u32 (x .<< (Dbits - r)) = 2 ^ (Dbits - r) * (Y mod 2 ^ r)) as Eu.
  { unfold wrap. rewrite Z.shiftl_mul_pow2 by (unfold Dbits; lia). rewrite EB.
    rewrite (Z.mul_comm x), Z.mul_mod_distr_l by (unfold Dbits; lia). f_equal. unfold Y. rewrite EB.
    replace (x + 2 ^ (Dbits - r) * 2 ^ r * val t) with (x + (2 ^ (Dbits - r) * val t) * 2 ^ r) by ring.
    by rewrite Z_mod_plus_full. }
  rewrite Eu. replace (last + B * Y) with (last + (2 ^ (Dbits - r) * Y) * 2 ^ r) by (rewrite EB; ring).
  rewrite Z.div_add by lia. pose proof (Z.div_mod Y (2 ^ r) ltac:(lia)) as EY. rewrite EY at 3. rewrite EB. ring.
Qed.

Lemma right_array_ok o d r src rp :
  0 <= r < 32 -> is_digits o -> is_digits rp -> stable src (fun j k => (k < j)%nat) ->
  (0 < length o <= length rp)%nat ->
  (forall j, (j < length o)%nat -> src rp !! (d + j)%nat = o !! j) ->
  exists p, right_array (d + length o) d r src rp = Some p /\ is_digits p /\ length p = length rp /\
    val (take (length o) p) = val o / 2 ^ r.
Proof.
  intros Hr Ho Hrp Hst Hlen Hsrc. unfold right_array.
  replace (d + length o - d)%nat with (length o) by lia.
  destruct (Z.eqb_spec r 0) as [->|Hne].
  - assert (rp = [] ++ take (length o) rp ++ drop (length o) rp) as Erp by (cbn; by rewrite take_drop).
    assert (length (take (length o) rp) = length o) as Lw by (rewrite length_take; lia).
    assert (is_digits (drop (length o) rp)) as Dc by (by apply Forall_drop).
    set (w := take (length o) rp) in *. set (c := drop (length o) rp) in *. rewrite Erp in Hsrc |- *.
    rewrite (right_digits_ok (length o) 0 d src [] w c o) by done.
    eexists. split; [reflexivity|]. cbn [app]. rewrite take_app_length. change (2 ^ 0) with 1.
    rewrite Z.div_1_r, !length_app. split_and!; [by apply Forall_app|lia|done].
  - destruct o as [|last t]; [cbn in Hlen; lia|]. cbn [length] in *.
    pose proof (Hsrc 0%nat ltac:(lia)) as H0. rewrite Nat.add_0_r in H0. rewrite H0.
    cbn [mbind option_bind lookup list_lookup]. inversion_clear Ho as [|? ? Hlast Ht].
    replace (S (length t) - 1)%nat with (length t) by lia.
    destruct (drop (length t) rp) as [|y c] eqn:Ed.
    { apply (f_equal length) in Ed. rewrite length_drop in Ed. cbn in Ed. lia. }
    assert (rp = [] ++ take (length t) rp ++ y :: c) as Erp by (rewrite <- Ed; cbn; by rewrite take_drop).
    assert (length (take (length t) rp) = length t) as Lw by (rewrite length_take; lia).
    assert (is_digits c) as Dc.
    { apply (Forall_drop _ (length t)) in Hrp. rewrite Ed in Hrp. by inversion_clear Hrp. }
    set (w := take (length t) rp) in *. rewrite Erp in Hsrc |- *.
    destruct (right_bits_ok (length t) 0 d r src [] w (y :: c) t last) as (seg & l' & E & Ls & Ds & Dl & Vs);
      [done|lia|done..| |].
    { intros j Hj. replace (0 + d + 1 + j)%nat with (d + S j)%nat by lia. by rewrite Hsrc by lia. }
    rewrite E. cbn [mbind option_bind app]. rewrite write_digit_mid by done.
    eexists. split; [reflexivity|]. split_and!.
    + rewrite Forall_app. split; [done|]. constructor; [|done]. rewrite shiftr_div by lia.
      unfold in_u in *. split; [apply Z.div_pos; lia|]. apply Z.div_lt_upper_bound; nia.
    + rewrite !length_app. cbn [length]. lia.
    + replace (seg ++ l' .>> r :: c) with ((seg ++ [l' .>> r]) ++ c) by (by rewrite <- app_assoc).
      rewrite take_app_le by (rewrite length_app; cbn; lia).
      rewrite take_ge by (rewrite length_app; cbn; lia). by rewrite Vs.
Qed.

Lemma mag_drop x d : raw x -> (d <= mp_top x)%nat -> val (drop d (digits x)) = mag x / B ^ Z.of_nat d.
Proof.
  intros Rx Hd. destruct (digits_ok x Rx) as [Dx Lx]. unfold mag.
  rewrite (val_split d (digits x)) by lia.
  pose proof (val_range (take d (digits x)) ltac:(by apply Forall_take)) as Hr.
  rewrite length_take, Nat.min_l in Hr by lia. apply (Z.div_unique _ _ _ (val (take d (digits x)))); nia.
Qed.

(** The digits left after a shift to the right. *)
Lemma right_DIGITS t shift :
  0 <= shift -> let d := Z.to_nat (shift / Dbits) in
  (t - d <= Z.to_nat (DIGITS (Z.of_nat t * Dbits - shift)))%nat.
Proof.
  intros Hs d. destruct (shift_parts shift Hs) as (_ & E & Hm). fold d in E.
  destruct (Nat.le_gt_cases t d); [lia|]. unfold DIGITS.
  rewrite Z.quot_div_nonneg by (unfold Dbits in *; lia).
  transitivity (Z.to_nat (Z.of_nat t - Z.of_nat d)); [lia|]. apply Z2Nat.inj_le; [lia|apply Z.div_pos; unfold Dbits in *; lia|].
  apply Z.div_le_lower_bound; unfold Dbits in *; lia.
Qed.

(** The object [mpright] writes to, once it has room. *)
Lemma right_room h (b res : Z) x s m :
  h !! b = Some x -> raw x -> h !! res = Some s -> raw s -> 
  exists w, (if negb (res =? b) then mpbits res m else mret tt) h = Done tt (<[res := w]> h) /\
    <[res := w]> h !! b = Some x /\ raw w /\ mp_sign w = mp_sign s /\ mp_static w = mp_static s /\
    (mp_top x `min` Z.to_nat (DIGITS m) <= length (mp_p w))%nat.
Proof.
  intros Hx Rx Hs Rs. destruct (Z.eqb_spec res b) as [->|Hne]; cbn [negb].
  - exists s. assert (x = s) as -> by congruence. rewrite (insert_id h b s Hs).
    pose proof Rs as (_ & Ht & _). split_and!; try done; [apply Rs..|lia].
  - destruct (with_bits_ok m s Rs) as (Rw & Hn & _ & _ & Hsg & Hst & _). pose proof Rw as (_ & Wt & _).
    exists (with_bits m s). unfold mpbits. rewrite (set_obj_Done _ _ _ _ Hs).
    rewrite lookup_insert_ne by done. split_and!; try done; [apply Rw..|lia].
Qed.

Lemma right_body_ok h (b res shift : Z) x s :
  h !! b = Some x -> raw x -> h !! res = Some s -> raw s -> 0 <= shift ->
  exists c, right_body b shift res h = Done tt (<[res := c]> h) /\ trimmed c /\
    mag c = mag x / 2 ^ shift /\ mp_static c = mp_static s /\
    mp_sign c = (if (mp_top c =? 0)%nat && (Z.to_nat (shift / Dbits) <? mp_top x)%nat then 1 else mp_sign s).
Proof.
  intros Hx Rx Hs Rs Hsh. set (m := Z.of_nat (mp_top x) * Dbits - shift).
  destruct (right_room h b res x s m Hx Rx Hs Rs) as (w & Ew & Hx' & Rw & Hsg & Hst & Hlen).
  pose proof (right_DIGITS (mp_top x) shift Hsh) as Hd. cbv zeta in Hd. fold m in Hd.
  destruct (shift_parts shift Hsh) as (Epow & El & Hr). pose proof Rw as (Wd & Wt & Wp).
  unfold right_body. mrun. fold m. erewrite bind_Done; [|exact Ew]. cbv zeta. rewrite El.
  set (d := Z.to_nat (shift / Dbits)) in *. pose proof (mag_range x Rx) as Mx.
  destruct (Nat.leb_spec (mp_top x) d) as [Hle|Hgt].
  - erewrite set_obj_Done; [|apply lookup_insert_eq]. rewrite insert_insert_eq.
    eexists. split; [reflexivity|]. set (c := w <| mp_top := 0%nat |>).
    assert (raw c) as Rc by (split_and!; [exact Wd|change (0 <= length (mp_p w))%nat; lia|exact Wp]).
    split_and!; [split; [exact Rc|by left]| |exact Hst|].
    + change (val (take 0 (mp_p w)) = mag x / 2 ^ shift). rewrite take_0. symmetry. apply Z.div_small.
      split; [lia|]. apply (Z.lt_le_trans _ _ _ (proj2 Mx)). rewrite Epow.
      transitivity (B ^ Z.of_nat d); [apply Z.pow_le_mono_r; lia|]. nia.
    + change (mp_top c) with 0%nat. destruct (Nat.ltb_spec d (mp_top x)); [lia|]. exact Hsg.
  - destruct (digits_ok x Rx) as [Dx Lx].
    pose proof (source_reads _ b res x x w Hx' (lookup_insert_eq _ _ _) (digits_app x)) as Hsrc.
    assert (length (drop d (digits x)) = (mp_top x - d)%nat) as Ld by (rewrite length_drop; lia).
    destruct (right_array_ok (drop d (digits x)) d (shift mod Dbits) (source b res (mp_p x)) (mp_p w))
      as (p & Ep & Dp & Lp & Vp); [lia|by apply Forall_drop|done|apply source_stable; lia|lia| |].
    { intros j Hj. rewrite lookup_drop. apply Hsrc. lia. }
    rewrite Ld in Ep, Vp. replace (d + (mp_top x - d))%nat with (mp_top x) in Ep by lia.
    destruct (norm_top_ok p (mp_top x - d)) as (k & Ek & Hk & Vk & Tk); [done|lia|].
    mrun. mrun. mrun. unfold put. rewrite insert_insert_eq. eexists. split; [reflexivity|].
    set (c := _ <| mp_sign := _ |>).
    assert (raw c) as Rc by (split_and!; [exact Dp|change (k <= length p)%nat; lia|change (0 < length p)%nat; lia]).
    split_and!; [split; [exact Rc|exact Tk]| |exact Hst|].
    + change (val (take k p) = mag x / 2 ^ shift). rewrite Vk, Vp, mag_drop by (done || lia).
      rewrite Z.div_div by lia. by rewrite <- Epow.
    + change (mp_top c) with k. destruct (Nat.ltb_spec d (mp_top x)); [|lia].
      rewrite andb_true_r. change (mp_sign c) with (if (k =? 0)%nat then 1 else mp_sign w). by rewrite Hsg.
Qed.

(** ** Both directions *)

(** The number shifted to the left by [n] bits, or towards zero by [- n] of them. *)
Definition shifted (v n : Z) : Z := if n <? 0 then Z.quot v (2 ^ (- n)) else v * 2 ^ n.

(** Every shift but the one to the right by at least all digits, which keeps the sign. *)
Definition keeps_bits (x : mpint) (n : Z) : bool :=
  (0 <=? mp_sign x) || (- n / Dbits <? Z.of_nat (mp_top x)).

Section shifts.
Context (h : heap) (b res : Z) (x s : mpint).
Hypotheses (Hx : h !! b = Some x) (Rx : raw x) (Hs : h !! res = Some s) (Rs : raw s).

Let s1 := s <| mp_sign := mp_sign x |>.

Local Lemma shift_start_run k :
  shift_start b res k h
  = (if (mp_top x =? 0)%nat then set_obj res (fun s => s <| mp_top := 0%nat |>) else k) (<[res := s1]> h).
Proof using Hx Hs. unfold shift_start. mrun. mrun. done. Qed.

Local Lemma started_operand : <[res := s1]> h !! b = Some x.
Proof using Hx Hs Rs.
  destruct (decide (b = res)) as [->|]; [|by rewrite lookup_insert_ne].
  rewrite lookup_insert_eq. unfold s1. assert (x = s) as <- by congruence. done.
Qed.

(** A shift to the left of a number that is not zero, *)
Lemma left_up n k :
  0 <= n -> mp_top x <> 0%nat -> k (<[res := s1]> h) = left_body b n res (<[res := s1]> h) ->
  exists c, shift_start b res k h = Done tt (<[res := c]> h) /\ trimmed c /\
    mp_sign c = mp_sign x /\ mag c = mag x * 2 ^ n /\ mp_static c = mp_static s /\
    (length (mp_p s) <= length (mp_p c))%nat.
Proof using Hx Rx Hs Rs.
  intros Hn Hne Hk. rewrite shift_start_run. destruct (Nat.eqb_spec (mp_top x) 0); [lia|]. rewrite Hk.
  destruct (left_body_ok (<[res := s1]> h) b res n x s1) as (c & E & Hc);
    [apply started_operand|done|apply lookup_insert_eq|exact Rs|done|].
  rewrite insert_insert_eq in E. by exists c.
Qed.

(** and to the right. *)
Lemma right_down n k :
  0 <= n -> mp_top x <> 0%nat -> k (<[res := s1]> h) = right_body b n res (<[res := s1]> h) ->
  exists c, shift_start b res k h = Done tt (<[res := c]> h) /\ trimmed c /\
    mag c = mag x / 2 ^ n /\ mp_static c = mp_static s /\
    mp_sign c = (if (mp_top c =? 0)%nat && (Z.to_nat (n / Dbits) <? mp_top x)%nat then 1 else mp_sign x).
Proof using Hx Rx Hs Rs.
  intros Hn Hne Hk. rewrite shift_start_run. destruct (Nat.eqb_spec (mp_top x) 0); [lia|]. rewrite Hk.
  destruct (right_body_ok (<[res := s1]> h) b res n x s1) as (c & E & Hc);
    [apply started_operand|done|apply lookup_insert_eq|exact Rs|done|].
  rewrite insert_insert_eq in E. by exists c.
Qed.

(** A shift the other way starts again, and has the same effect. *)
Local Lemma restart k :
  mp_top x <> 0%nat -> shift_start b res k (<[res := s1]> h) = k (<[res := s1]> h).
Proof using Hx Hs Rs.
  intros Hne. unfold shift_start. erewrite bind_Done; [|apply obj_Done, started_operand]. mrun.
  destruct (Nat.eqb_spec (mp_top x) 0); [lia|]. by rewrite insert_insert_eq.
Qed.

(** [mpleft] and [mpright] of a number that is not zero. *)
Lemma mpleft_up n :
  0 <= n -> mp_top x <> 0%nat ->
  exists c, mpleft b n res h = Done tt (<[res := c]> h) /\ trimmed c /\
    mp_sign c = mp_sign x /\ mag c = mag x * 2 ^ n /\ mp_static c = mp_static s /\
    (length (mp_p s) <= length (mp_p c))%nat.
Proof using Hx Rx Hs Rs. intros Hn Hne. apply left_up; [done..|]. destruct (Z.ltb_spec n 0); [lia|done]. Qed.

Lemma mpright_down n :
  0 <= n -> mp_top x <> 0%nat ->
  exists c, mpright b n res h = Done tt (<[res := c]> h) /\ trimmed c /\
    mag c = mag x / 2 ^ n /\ mp_static c = mp_static s /\
    mp_sign c = (if (mp_top c =? 0)%nat && (Z.to_nat (n / Dbits) <? mp_top x)%nat then 1 else mp_sign x).
Proof using Hx Rx Hs Rs. intros Hn Hne. apply right_down; [done..|]. destruct (Z.ltb_spec n 0); [lia|done]. Qed.
End shifts.

Section shifted_numbers.
Context (h : heap) (b res : Z) (x s : mpint).
Hypotheses (Hx : h !! b = Some x) (Nx : normal x) (Hs : h !! res = Some s) (Rs : raw s).

Let s1 := s <| mp_sign := mp_sign x |>.
Let Rx : raw x := proj1 (proj1 Nx).

(** The result of a shift of a number that is zero. *)
Local Lemma shift_zero k n :
  mp_top x = 0%nat -> exists c, shift_start b res k h = Done tt (<[res := c]> h) /\
    trimmed c /\ mpval c = shifted (mpval x) n /\ (keeps_bits x n = true -> normal c).
Proof using Hx Nx Hs Rs.
  intros E. rewrite (shift_start_run h b res x s Hx Hs), E. cbn [Nat.eqb].
  rewrite (set_obj_Done _ _ s1) by apply lookup_insert_eq. rewrite insert_insert_eq.
  eexists. split; [reflexivity|]. set (c := s1 <| mp_top := 0%nat |>).
  assert (raw c) as Rc.
  { destruct Rs as (Sd & St & Sp). split_and!; [exact Sd|change (0 <= length (mp_p s))%nat; lia|exact Sp]. }
  assert (trimmed c) as Tc by (split; [exact Rc|by left]).
  assert (mag x = 0) as Mx by (by apply (mag_zero x (proj1 Nx))).
  split_and!; [exact Tc| |].
  - unfold shifted, mpval. rewrite Mx. change (mag c) with (val (take 0 (mp_p s))). rewrite take_0.
    cbn [val]. rewrite !Z.mul_0_r. destruct (Z.ltb_spec n 0); [by rewrite Z.quot_0_l by lia|done].
  - intros _. split; [exact Tc|]. pose proof Nx as (_ & Sx & Zx). split; [exact Sx|]. intros _. exact (Zx E).
Qed.

Local Lemma left_result k n :
  0 <= n -> mp_top x <> 0%nat -> k (<[res := s1]> h) = left_body b n res (<[res := s1]> h) ->
  exists c, shift_start b res k h = Done tt (<[res := c]> h) /\
    trimmed c /\ mpval c = shifted (mpval x) n /\ (keeps_bits x n = true -> normal c).
Proof using Hx Nx Hs Rs.
  intros Hn Hne Hk. pose proof Nx as (Tx & Sx & Zx).
  destruct (left_up h b res x s Hx Rx Hs Rs n k Hn Hne Hk) as (c & E & Tc & Sc & Mc & _).
  exists c. split_and!; [done|apply Tc..| |].
  - unfold shifted, mpval. destruct (Z.ltb_spec n 0); [lia|]. rewrite Sc, Mc. ring.
  - intros _. split; [exact Tc|]. rewrite Sc. split; [done|]. intros Hc. apply (mag_zero c Tc) in Hc.
    assert (mag x <> 0) by (intros H0; apply (mag_zero x Tx) in H0; lia). nia.
Qed.

Local Lemma right_result k n :
  0 <= n -> mp_top x <> 0%nat -> k (<[res := s1]> h) = right_body b n res (<[res := s1]> h) ->
  exists c, shift_start b res k h = Done tt (<[res := c]> h) /\
    trimmed c /\ mpval c = shifted (mpval x) (- n) /\ (keeps_bits x (- n) = true -> normal c).
Proof using Hx Nx Hs Rs.
  intros Hn Hne Hk. pose proof Nx as (Tx & Sx & Zx).
  destruct (right_down h b res x s Hx Rx Hs Rs n k Hn Hne Hk) as (c & E & Tc & Mc & _ & Sc).
  pose proof (mag_range x Rx) as Hm. pose proof (mag_zero c Tc) as Hz.
  exists c. split_and!; [done|apply Tc..| |].
  - transitivity (mp_sign x * mag c).
    { unfold mpval. destruct (Nat.eqb_spec (mp_top c) 0) as [E0|]; [apply Hz in E0; rewrite E0; lia|].
      by rewrite Sc. }
    unfold shifted, mpval. rewrite Mc. rewrite Z.opp_involutive.
    assert (mag x / 2 ^ n = Z.quot (mag x) (2 ^ n)) as Eq by (by rewrite Z.quot_div_nonneg by lia).
    destruct (Z.ltb_spec (- n) 0) as [H0|H0].
    + destruct Sx as [-> | ->]; [by rewrite !Z.mul_1_l|].
      replace (-1 * mag x) with (- mag x) by ring. rewrite Z.quot_opp_l, Eq by lia. ring.
    + replace n with 0 by lia. change (2 ^ 0) with 1. rewrite Z.div_1_r. change (- 0) with 0. change (2 ^ 0) with 1. ring.
  - intros Hkb. split; [exact Tc|]. rewrite Sc. unfold keeps_bits in Hkb. rewrite Z.opp_involutive in Hkb.
    destruct (Nat.eqb_spec (mp_top c) 0) as [E0|]; cbn [andb]; [|by split; [done|]].
    destruct (Nat.ltb_spec (Z.to_nat (n / Dbits)) (mp_top x)); [by split; [left|]|].
    apply orb_true_iff in Hkb as [Hk0|Hk0]; [apply Z.leb_le in Hk0|apply Z.ltb_lt in Hk0; lia].
    split; [done|]. lia.
Qed.

Lemma mpleft_ok n :
  exists c, mpleft b n res h = Done tt (<[res := c]> h) /\
    trimmed c /\ mpval c = shifted (mpval x) n /\ (keeps_bits x n = true -> normal c).
Proof using Hx Nx Hs Rs.
  unfold mpleft. destruct (Nat.eq_dec (mp_top x) 0) as [E|Hne]; [by apply shift_zero|].
  destruct (Z.ltb_spec n 0); [|by apply left_result].
  pose proof (right_result (shift_start b res (right_body b (- n) res)) (- n)) as R.
  rewrite Z.opp_involutive in R. apply R; [lia|done|]. by apply (restart h b res x s Hx Hs Rs).
Qed.

(** [mpleft] shifts by any number of bits in either direction, towards zero when it goes to
    the right, also in place; the result is a normal form unless a negative number is shifted
    out digit by digit. *)
Theorem mpleft_correct n :
  exists c, mpleft b n res h = Done tt (<[res := c]> h) /\
    trimmed c /\ mpval c = shifted (mpval x) n /\ (keeps_bits x n = true -> normal c).
Proof using Hx Nx Hs Rs. apply mpleft_ok. Qed.

(** [mpright] is the shift by the opposite number. *)
Theorem mpright_correct n :
  exists c, mpright b n res h = Done tt (<[res := c]> h) /\
    trimmed c /\ mpval c = shifted (mpval x) (- n) /\ (keeps_bits x (- n) = true -> normal c).
Proof using Hx Nx Hs Rs.
  unfold mpright. destruct (Nat.eq_dec (mp_top x) 0) as [E|Hne]; [by apply shift_zero|].
  destruct (Z.ltb_spec n 0); [|by apply right_result].
  apply left_result; [lia|done|]. by apply (restart h b res x s Hx Hs Rs).
Qed.
End shifted_numbers.

(** ** On numbers *)

Lemma mpleft_correct_witness :
  exists c, mpleft 11 40 11 ex_heap = Done tt (<[11 := c]> ex_heap) /\
    trimmed c /\ mpval c = shifted (1 + 3 * B) 40 /\ (keeps_bits ex_two 40 = true -> normal c).
Proof.
  apply (mpleft_correct ex_heap 11 11 ex_two ex_two); first [reflexivity | by_decide].
Defined.

Lemma mpright_correct_witness :
  exists c, mpright 10 4 12 ex_heap = Done tt (<[12 := c]> ex_heap) /\
    trimmed c /\ mpval c = shifted (-7000000) (-4) /\ (keeps_bits ex_neg (-4) = true -> normal c).
Proof.
  apply (mpright_correct ex_heap 10 12 ex_neg ex_nil); first [reflexivity | by_decide].
Defined.

(** A negative number shifted to the right by all its digits: the result has no digits and is
    still negative, so that it does not compare equal to zero. *)
Theorem mpright_negative_zero :
  (mpright 10 32 12;; mpcmp 12 mpzero) ex_heap
  = Done (-2) (<[12 := mkMpint (-1) 0 [5] false]> ex_heap).
Proof. vm_compute. reflexivity. Qed.

(** By one bit less it is zero. *)
Theorem mpright_positive_zero :
  (mpright 10 31 12;; mpcmp 12 mpzero) ex_heap
  = Done 0 (<[12 := mkMpint 1 0 [0] false]> ex_heap).
Proof. vm_compute. reflexivity. Qed.
