(* ===== verification/Mpdiv.v ===== *)
(** * Division: [mpdiv.c] and [mpmod.c]

    Knuth's algorithm D. The pointers [up] and [vp] of the code are positions in the arrays of
    [u] and [v], whose positions the loop counter determines. *)

From S2P Require Import Prelude Mpvec Mpmul Mpint MpintProps Mpshift.

Implicit Types (h : heap).

(** ** The functions *)

Definition mpdighi : Z := u32 (1 .<< (Dbits - 1)).

(** [for(s = 0; (qd & mpdighi) == 0; s++) qd <<= 1;] [None]: after as many turns as a digit has
    bits the digit is zero, and the loop does not end. *)
Fixpoint high_shift (n : nat) (s qd : Z) : option Z :=
  match n with
  | O => None
  | S n => if (qd .& mpdighi) =? 0 then high_shift n (s + 1) (u32 (qd .<< 1)) else Some s
  end.

(** The pointer [p + i - k]. *)
Definition back (p : list Z) (i k : nat) : option (list Z) :=
  if (k <=? i)%nat then Some (drop (i - k) p) else None.

(** D3a, the loop that rules out trial digits that are too large by two; [v2] is [vp-1] and
    [u3] is [up-2]. *)
Fixpoint trial (fuel : nat) (v2 u3 t : list Z) (qd : Z) : option (Z * list Z) :=
  match fuel with
  | O => None
  | S fuel =>
      t ← store t 0 [0; 0; 0];
      t ← mpvecdigmuladd v2 2 qd t;
      c ← mpveccmp t 3 u3 3;
      if 0 <? c then trial fuel v2 u3 t (u32 (qd - 1)) else Some (qd, t)
  end.

(** D3: the trial digit. *)
Definition trial_digit (vp : list Z) (vn : nat) (up : list Z) (ui : nat) (t : list Z)
    : option (Z * list Z) :=
  vh ← vp !! (vn - 1)%nat;
  u2 ← back up ui 1;
  lo ← u2 !! 0%nat;
  hi ← u2 !! 1%nat;
  let qd := mpdigdiv lo hi vh in
  if (1 <? vn)%nat then
    v2 ← back vp (vn - 1) 1;
    u3 ← back up ui 2;
    trial 3 v2 u3 t qd
  else Some (qd, t).

(** One turn of the loop, with [up] at position [ui]: the quotient digit, and the arrays of [u]
    and [t]. *)
Definition div_digit (vp : list Z) (vn : nat) (up : list Z) (ui : nat) (t : list Z)
    : option (Z * list Z * list Z) :=
  '(qd, t) ← trial_digit vp vn up ui t;
  w ← back up ui vn;
  '(sign, w) ← mpvecdigmulsub vp vn qd w;
  '(qd, w) ← (if sign <? 0 then
                w ← mpvecadd w (vn + 1) vp vn w;
                Some (u32 (qd - 1), w)
              else Some (qd, w));
  up ← write_digit (take (ui - vn) up ++ w) ui 0;
  Some (qd, up, t).

(** D2, D7: [n] is [j - vn], [up] is at position [j - 1] and [qp], if there is a quotient, at
    position [n - 1] of its array. *)
Fixpoint div_loop (n : nat) (vp : list Z) (vn : nat) (up : list Z) (qp : option (list Z)) (t : list Z)
    : option (list Z * option (list Z) * list Z) :=
  match n with
  | O => Some (up, qp, t)
  | S i =>
      '(qd, up, t) ← div_digit vp vn up (vn + i) t;
      qp ← match qp with
           | None => Some None
           | Some q => q ← write_digit q i qd; Some (Some q)
           end;
      div_loop i vp vn up qp t
  end.

Definition when {A} (o : option A) (k : A -> mpm unit) : mpm unit :=
  match o with None => mret tt | Some a => k a end.

(** D1: the copies of the operands, shifted; the divisor itself serves when it needs no shift
    and is not overwritten. *)
Definition div_copies (dividend divisor : Z) (quotient remainder : option Z) (s : Z) : mpm (Z * Z) :=
  x ← obj dividend;
  u ← mpnew ((Z.of_nat (mp_top x) + 2) * Dbits + s);
  if (s =? 0) && negb (bool_decide (quotient = Some divisor))
     && negb (bool_decide (remainder = Some divisor)) then
    mpassign dividend u;;
    mret (u, divisor)
  else
    mpleft dividend s u;;
    y ← obj divisor;
    v ← mpnew (Z.of_nat (mp_top y) * Dbits);
    mpleft divisor s v;;
    mret (u, v).

(** D1a: the dividend with one more digit when its highest digit is not below the divisor's. *)
Definition div_extend (u : Z) (U V : mpint) : mpm unit :=
  hu ← lift (mp_p U !! (mp_top U - 1)%nat);
  hv ← lift (mp_p V !! (mp_top V - 1)%nat);
  if hv <=? hu then
    p ← lift (write_digit (mp_p U) (mp_top U) 0);
    put u (U <| mp_p := p |> <| mp_top := S (mp_top U) |>)
  else mret tt.

(** D1a to D7. *)
Definition div_main (u v : Z) (quotient : option Z) : mpm Z :=
  U ← obj u;
  V ← obj v;
  div_extend u U V;;
  t ← mpnew (4 * Dbits);
  U ← obj u;
  let n := (mp_top U - mp_top V)%nat in
  when quotient (fun q =>
    mpbits q (Z.of_nat n * Dbits);;
    set_obj q (fun Q => Q <| mp_top := n |>));;
  qp ← match quotient with None => mret None | Some q => Q ← obj q; mret (Some (mp_p Q)) end;
  T ← obj t;
  '(up, qp, tp) ← lift (div_loop n (mp_p V) (mp_top V) (mp_p U) qp (mp_p T));
  put u (U <| mp_p := up |> <| mp_top := (mp_top U - n)%nat |>);;
  put t (T <| mp_p := tp |>);;
  when quotient (fun q => when qp (fun p => set_obj q (fun Q => Q <| mp_p := p |>)));;
  mret t.

(** The signs, the remainder and the end. *)
Definition div_results (dividend divisor : Z) (quotient remainder : option Z) (s u v t : Z) : mpm unit :=
  when quotient (fun q =>
    mpnorm q;;
    x ← obj dividend;
    y ← obj divisor;
    if negb (mp_sign x =? mp_sign y) then set_obj q (fun Q => Q <| mp_sign := -1 |>) else mret tt);;
  when remainder (fun r =>
    mpright u s r;;
    x ← obj dividend;
    set_obj r (fun R => R <| mp_sign := mp_sign x |>));;
  mpfree (Some t);;
  mpfree (Some u);;
  if v =? divisor then mret tt else mpfree (Some v).

Definition mpdiv (dividend divisor : Z) (quotient remainder : option Z) : mpm unit :=
  y ← obj divisor;
  if (mp_top y =? 0)%nat then halt Abort
  else
    c ← mpmagcmp dividend divisor;
    if c <? 0 then
      when remainder (mpassign dividend);;
      when quotient (mpassign mpzero)
    else
      qd ← lift (mp_p y !! (mp_top y - 1)%nat);
      match high_shift 32 0 qd with
      | None => halt Endless
      | Some s =>
          '(u, v) ← div_copies dividend divisor quotient remainder s;
          t ← div_main u v quotient;
          div_results dividend divisor quotient remainder s u v t
      end.

Definition mpmod (b m remainder : Z) : mpm unit :=
  mpdiv b m None (Some remainder);;
  r ← obj remainder;
  if mp_sign r <? 0 then mpadd m remainder remainder else mret tt.

(** ** The trial digit *)

(** The numbers of a turn of the loop: [v] the divisor with [k + 1] digits of which the highest
    is [vh], [w] the part of the dividend it is divided into, with [hi] and [lo] on top. *)
Section knuth.
Context (K vh v hi lo w : Z).
Hypotheses (HK : 0 < K) (Hhi : in_u 32 hi) (Hlo : in_u 32 lo) (Hvh : 2 ^ 31 <= vh < B)
  (Hv : vh * K <= v < (vh + 1) * K) (Hw : (hi * B + lo) * K <= w < (hi * B + lo + 1) * K)
  (Hlt : w < v * B).

(** The digit from the two highest digits is not too small. *)
Lemma trial_low : w / v <= mpdigdiv lo hi vh < B.
Proof using All.
  assert (0 <= w / v < B) as Hq.
  { unfold in_u in *. split; [apply Z.div_pos; nia|apply Z.div_lt_upper_bound; nia]. }
  destruct (Z.le_gt_cases vh hi) as [Hge|Hlt'].
  - unfold mpdigdiv. destruct (Z.leb_spec vh hi); [|lia]. cbn [orb]. change (u32 (Z.lnot 0)) with (B - 1). lia.
  - rewrite mpdigdiv_ok by (done || unfold in_u; lia).
    split; [|unfold in_u in *; apply Z.div_lt_upper_bound; nia].
    apply Z.div_le_lower_bound; [lia|].
    pose proof (Z.mul_div_le w v ltac:(nia)) as Hle. unfold in_u in *.
    assert (vh * (w / v) * K < (hi * B + lo + 1) * K) as Hk by nia.
    apply Z.mul_lt_mono_pos_r in Hk; lia.
Qed.
End knuth.

(** Nor is it larger by more than two than the digit from three digits and two. *)
Lemma trial_high hi lo l2 vh vl :
  in_u 32 hi -> in_u 32 lo -> in_u 32 l2 -> 2 ^ 31 <= vh < B -> in_u 32 vl ->
  mpdigdiv lo hi vh <= (l2 + B * (lo + B * hi)) / (vl + B * vh) + 2.
Proof.
  intros Hhi Hlo Hl2 Hvh Hvl. set (q := mpdigdiv lo hi vh).
  cut (q - 2 <= (l2 + B * (lo + B * hi)) / (vl + B * vh)); [lia|].
  unfold in_u in *. apply Z.div_le_lower_bound; [lia|].
  destruct (Z.le_gt_cases vh hi) as [Hge|Hlt].
  - assert (q = B - 1) as -> by (unfold q, mpdigdiv; destruct (Z.leb_spec vh hi); [done|lia]). nia.
  - assert (vh * q <= hi * B + lo) as Hq.
    { unfold q. rewrite mpdigdiv_ok by (done || unfold in_u; lia). apply Z.mul_div_le. lia. }
    assert (0 <= q < B) as Hqr.
    { unfold q. rewrite mpdigdiv_ok by (done || unfold in_u; lia).
      split; [apply Z.div_pos; nia|apply Z.div_lt_upper_bound; nia]. }
    clearbody q. nia.
Qed.

(** The digit from three digits and two is right, or too large by one. *)
Lemma trial_near K v2 v u3 w q :
  0 < K -> 0 <= w -> 0 <= q < B -> B * K <= v -> v2 * K <= v < (v2 + 1) * K ->
  u3 * K <= w < (u3 + 1) * K -> w / v <= q -> 0 < v2 ->
  w / v <= q `min` (u3 / v2) <= w / v + 1.
Proof.
  intros HK Hw0 Hq HB Hv Hw Hle Hv2. pose proof (Z.div_mod w v ltac:(nia)) as Ew.
  pose proof (Z.mod_pos_bound w v ltac:(nia)) as Hm. split.
  - apply Z.min_glb; [done|]. apply Z.div_le_lower_bound; [done|].
    assert (0 <= w / v) by (apply Z.div_pos; nia).
    assert (v2 * (w / v) * K < (u3 + 1) * K) as Hk by nia. apply Z.mul_lt_mono_pos_r in Hk; lia.
  - set (q' := q `min` (u3 / v2)). assert (q' * v2 <= u3) as H3.
    { pose proof (Z.mul_div_le u3 v2 Hv2). assert (q' <= u3 / v2) by lia. nia. }
    assert (q' < B) by lia. destruct (Z.le_gt_cases q' 0) as [|Hp].
    { assert (0 <= w / v) by (apply Z.div_pos; nia). lia. }
    assert (q' * v < w + v) by nia. assert (q' * v < (w / v + 2) * v) as Hk by lia.
    apply Z.mul_lt_mono_pos_r in Hk; nia.
Qed.

(** One turn of D3a. *)
Lemma trial_turn n v2 v' u3 u' t qd :
  is_digits v2 -> length v2 = 2%nat -> is_digits (u3 ++ u') -> length u3 = 3%nat ->
  is_digits t -> (3 <= length t)%nat -> in_u 32 qd ->
  exists t', is_digits t' /\ length t' = length t /\
    trial (S n) (v2 ++ v') (u3 ++ u') t qd
    = if val u3 <? qd * val v2 then trial n (v2 ++ v') (u3 ++ u') t' (u32 (qd - 1)) else Some (qd, t').
Proof.
  intros Dv Lv Du Lu Dt Lt Hq.
  destruct (mpvecdigmuladd_ok v2 v' qd [0; 0] 0 (drop 3 t)) as (r & Er & Lr & Dr & Vr);
    [done|done|by_decide|done|].
  rewrite Lv in Er, Lr. cbn [app] in Er. cbn [val] in Vr.
  assert (is_digits (r ++ drop 3 t)) as Dr' by (apply Forall_app; split; [done|by apply Forall_drop]).
  pose proof (mpveccmp_ok r (drop 3 t) u3 u' Dr' Du) as Ec. rewrite Lr, Lu in Ec.
  assert (store t 0 [0; 0; 0] = Some ([0; 0; 0] ++ drop 3 t)) as Es.
  { replace t with (take 3 t ++ drop 3 t) at 1 by apply take_drop. apply store_head. rewrite length_take. cbn [length]. lia. }
  exists (r ++ drop 3 t). split_and!; [done|rewrite length_app, length_drop; lia|].
  cbn [trial]. rewrite Es. cbn [mbind option_bind app]. rewrite Er. cbn [mbind option_bind].
  rewrite Ec. cbn [mbind option_bind]. rewrite Vr.
  replace (0 <? Z.sgn (0 + B * (0 + B * 0) + qd * val v2 - val u3)) with (val u3 <? qd * val v2) by (bcase; lia).
  done.
Qed.

(** D3a ends, after three turns at most, with the smaller of the trial digit and the one from
    three digits and two. *)
Lemma trial_ok n v2 v' u3 u' t qd :
  is_digits v2 -> length v2 = 2%nat -> is_digits (u3 ++ u') -> length u3 = 3%nat -> 0 < val v2 ->
  is_digits t -> (3 <= length t)%nat -> in_u 32 qd -> qd <= val u3 / val v2 + Z.of_nat n ->
  exists t', trial (S n) (v2 ++ v') (u3 ++ u') t qd = Some (qd `min` (val u3 / val v2), t') /\
    is_digits t' /\ length t' = length t.
Proof.
  intros Dv Lv Du Lu Hv. assert (0 <= val u3 / val v2) as Hq0.
  { apply Forall_app in Du as [Du _]. pose proof (val_range u3 Du). apply Z.div_pos; lia. }
  pose proof (Z.mul_div_le (val u3) (val v2) Hv) as Hdiv.
  revert t qd. induction n as [|n IH]; intros t qd Dt Lt Hq Hle.
  all: match goal with |- context [trial (S ?n)] =>
    destruct (trial_turn n v2 v' u3 u' t qd) as (t' & Dt' & Lt' & ->); try done end.
  all: destruct (Z.ltb_spec (val u3) (qd * val v2)) as [Hgt|Hno].
  1: { assert (qd * val v2 <= val u3) by nia. lia. }
  2: { assert (val u3 / val v2 < qd) by (apply Z.div_lt_upper_bound; lia). unfold in_u in Hq.
    rewrite wrap_small by (unfold in_u; lia).
    destruct (IH t' (qd - 1)) as (t2 & E & Dt2 & Lt2); [done|lia|unfold in_u; lia|lia|].
    exists t2. rewrite E. split_and!; [do 2 f_equal; lia|done|lia]. }
  all: exists t'; split_and!; [|done|done]; do 2 f_equal; symmetry; apply Z.min_l;
    apply Z.div_le_lower_bound; lia.
Qed.

Lemma back_app (a b : list Z) i k : i = (length a + k)%nat -> back (a ++ b) i k = Some b.
Proof.
  intros ->. unfold back. destruct (Nat.leb_spec k (length a + k)); [|lia].
  replace (length a + k - k)%nat with (length a) by lia. by rewrite drop_app_length.
Qed.

(** A divisor whose highest bit is set. *)
Definition high_bit_set (vs : list Z) : Prop :=
  is_digits vs /\ vs <> [] /\ 2 ^ 31 * B ^ (len vs - 1) <= val vs.

Lemma high_digit low d : high_bit_set (low ++ [d]) -> 2 ^ 31 <= d < B.
Proof.
  intros (Dv & _ & Hv). apply Forall_app in Dv as [Dl Hd]. rewrite Forall_singleton in Hd.
  pose proof (val_range low Dl). rewrite val_app, length_app in Hv. cbn [val length] in Hv.
  replace (Z.of_nat (length low + 1) - 1) with (len low) in Hv by lia.
  unfold in_u in Hd. split; [|lia]. destruct (Z.le_gt_cases (2 ^ 31) d); [done|].
  assert (B ^ len low * (d + 1) <= B ^ len low * 2 ^ 31) by (apply Z.mul_le_mono_nonneg_l; lia). lia.
Qed.

(** The trial digit after D3 is the digit of the quotient, or larger by one: for a divisor of
    one digit, *)
Lemma trial_digit_short vh v' l0 lo hi c t :
  high_bit_set [vh] -> in_u 32 lo -> in_u 32 hi -> val [lo; hi] < val [vh] * B ->
  trial_digit (vh :: v') 1 (l0 ++ lo :: hi :: c) (length l0 + 1) t = Some (val [lo; hi] / val [vh], t).
Proof.
  intros Hvs Hlo Hhi Hlt. pose proof (high_digit [] vh Hvs) as Hvh. cbn [val] in *.
  unfold trial_digit. cbn [Nat.sub lookup list_lookup mbind option_bind].
  rewrite (back_app l0 _ _ 1) by done. cbn [lookup list_lookup mbind option_bind Nat.ltb Nat.leb].
  rewrite mpdigdiv_ok by (done || unfold in_u in *; lia). do 3 f_equal; lia.
Qed.

(** and for a longer one. *)
Lemma trial_digit_long v0 vl vh v' l0 w0 l2 lo hi c t :
  let vs := v0 ++ [vl; vh] in
  let w := w0 ++ [l2; lo; hi] in
  high_bit_set vs -> is_digits w -> is_digits c -> length w0 = length v0 -> val w < val vs * B ->
  is_digits t -> (3 <= length t)%nat ->
  exists qd t', trial_digit (v0 ++ vl :: vh :: v') (length v0 + 2) ((l0 ++ w0) ++ l2 :: lo :: hi :: c)
      (length l0 + length v0 + 2) t = Some (qd, t') /\
    in_u 32 qd /\ val w / val vs <= qd <= val w / val vs + 1 /\ is_digits t' /\ length t' = length t.
Proof.
  intros vs w Hvs Dw Dc Lw Hlt Dt Lt. pose proof (proj1 Hvs) as Dv.
  assert (2 ^ 31 <= vh < B) as Hvh by (apply (high_digit (v0 ++ [vl])); by rewrite <- app_assoc).
  apply Forall_app in Dv as [Dv0 Dv2]. apply Forall_app in Dw as [Dw0 Dw3].
  pose proof (val_range v0 Dv0) as Rv. pose proof (val_range w0 Dw0) as Rw. rewrite Lw in Rw.
  assert (in_u 32 vl /\ in_u 32 l2 /\ in_u 32 lo /\ in_u 32 hi) as (Hvl & Hl2 & Hlo & Hhi).
  { rewrite !Forall_cons in *. tauto. }
  assert (val vs = val v0 + B ^ len v0 * val [vl; vh]) as Ev by apply val_app.
  assert (val w = val w0 + B ^ len v0 * val [l2; lo; hi]) as Ew by (unfold w; rewrite val_app; by rewrite Lw).
  set (K := B ^ len v0) in *. assert (0 < K) as HK by (unfold K; lia).
  unfold in_u in Hvl, Hl2, Hlo, Hhi. cbn [val] in Ev, Ew. rewrite !Z.mul_0_r, !Z.add_0_r in Ev, Ew.
  destruct (trial_low (B * K) vh (val vs) hi lo (val w)) as [Hlow HqB];
    [lia|unfold in_u; lia|unfold in_u; lia|lia|nia|nia|done|].
  set (q := mpdigdiv lo hi vh) in *.
  assert (0 <= val w / val vs) as Hq0 by (apply Z.div_pos; nia).
  assert ((v0 ++ vl :: vh :: v') !! (length v0 + 2 - 1)%nat = Some vh) as E1.
  { rewrite lookup_app_r by lia. by replace (length v0 + 2 - 1 - length v0)%nat with 1%nat by lia. }
  assert (back ((l0 ++ w0) ++ l2 :: lo :: hi :: c) (length l0 + length v0 + 2) 1 = Some (lo :: hi :: c)) as E2.
  { replace ((l0 ++ w0) ++ l2 :: lo :: hi :: c) with ((l0 ++ w0 ++ [l2]) ++ lo :: hi :: c)
      by (by rewrite <- !app_assoc). apply back_app. rewrite !length_app. cbn [length]. lia. }
  assert (back (v0 ++ vl :: vh :: v') (length v0 + 2 - 1) 1 = Some (vl :: vh :: v')) as E3 by (apply back_app; lia).
  assert (back ((l0 ++ w0) ++ l2 :: lo :: hi :: c) (length l0 + length v0 + 2) 2 = Some (l2 :: lo :: hi :: c)) as E4
    by (apply back_app; rewrite length_app; lia).
  unfold trial_digit. rewrite E1. cbn [mbind option_bind]. rewrite E2. cbn [mbind option_bind lookup list_lookup].
  destruct (Nat.ltb_spec 1 (length v0 + 2)); [|lia]. fold q. rewrite E3, E4. cbn [mbind option_bind]. clear E1 E2 E3 E4.
  destruct (trial_ok 2 [vl; vh] v' [l2; lo; hi] c t q) as (t' & E & Dt' & Lt'); try done.
  - by apply Forall_app.
  - cbn [val]. lia.
  - unfold in_u. lia.
  - cbn [val]. rewrite !Z.mul_0_r, !Z.add_0_r. apply trial_high; unfold in_u; lia.
  - cbn [app] in E. rewrite E. eexists _, t'. split; [reflexivity|]. cbn [val]. rewrite !Z.mul_0_r, !Z.add_0_r.
    pose proof (trial_near K (vl + B * vh) (val vs) (l2 + B * (lo + B * hi)) (val w) q) as Hn.
    clear E. destruct Hn as [N1 N2]; [lia|nia|lia|nia|lia|lia|lia|lia|].
    split; [unfold in_u; lia|]. split; [lia|done].
Qed.

Lemma trial_digit_ok vs v' l0 w c t :
  high_bit_set vs -> is_digits w -> is_digits c -> length w = S (length vs) -> val w < val vs * B ->
  is_digits t -> (3 <= length t)%nat ->
  exists qd t', trial_digit (vs ++ v') (length vs) (l0 ++ w ++ c) (length l0 + length vs) t = Some (qd, t') /\
    in_u 32 qd /\ val w / val vs <= qd <= val w / val vs + 1 /\ is_digits t' /\ length t' = length t.
Proof.
  intros Hvs Dw Dc Lw Hlt Dt Lt. pose proof Hvs as (Dv & Hne & _).
  destruct (exists_last Hne) as (v1 & vh & ->). destruct (Nat.eq_dec (length v1) 0) as [E|Hn].
  - destruct v1; [|done]. destruct w as [|lo [|hi [|]]]; try done. cbn [app length] in *.
    rewrite !Forall_cons in Dw. destruct Dw as (Hlo & Hhi & _).
    exists (val [lo; hi] / val [vh]), t. rewrite trial_digit_short by done.
    pose proof (high_digit [] vh Hvs) as Hvh. split; [done|]. cbn [val] in *. unfold in_u in *.
    split_and!; try done; try lia; [apply Z.div_pos; lia|apply Z.div_lt_upper_bound; lia].
  - assert (v1 <> []) as Hv1 by (by intros ->). destruct (exists_last Hv1) as (v0 & vl & ->).
    replace ((v0 ++ [vl]) ++ [vh]) with (v0 ++ [vl; vh]) in * by (by rewrite <- app_assoc).
    rewrite length_app in Lw. cbn [length] in Lw.
    assert (exists w0 l2 lo hi, w = w0 ++ [l2; lo; hi] /\ length w0 = length v0) as (w0 & l2 & lo & hi & -> & L0).
    { pose proof (take_drop (length v0) w) as Ew.
      assert (length (drop (length v0) w) = 3%nat) as L3 by (rewrite length_drop; lia).
      destruct (drop (length v0) w) as [|l2 [|lo [|hi [|]]]]; try done.
      exists (take (length v0) w), l2, lo, hi. split; [done|]. rewrite length_take. lia. }
    destruct (trial_digit_long v0 vl vh v' l0 w0 l2 lo hi c t) as (qd & t' & E & Hr); try done.
    exists qd, t'. rewrite <- app_assoc, length_app. cbn [app length].
    replace (l0 ++ (w0 ++ [l2; lo; hi]) ++ c) with ((l0 ++ w0) ++ l2 :: lo :: hi :: c) by (by rewrite <- !app_assoc).
    by rewrite Nat.add_assoc.
Qed.

(** The loop that corrects the trial digit ends after three turns at most for every divisor
    with its highest bit set, and the digit is then right or too large by one. *)
Theorem trial_digit_terminates vs v' l0 w c t :
  high_bit_set vs -> is_digits w -> is_digits c -> length w = S (length vs) -> val w < val vs * B ->
  is_digits t -> (3 <= length t)%nat ->
  exists qd t', trial_digit (vs ++ v') (length vs) (l0 ++ w ++ c) (length l0 + length vs) t = Some (qd, t') /\
    val w / val vs <= qd <= val w / val vs + 1.
Proof.
  intros. destruct (trial_digit_ok vs v' l0 w c t) as (qd & t' & E & _ & Hq & _); try done. by exists qd, t'.
Qed.

(** The highest digit of the part of the dividend is zero after the subtraction. *)
Lemma push_down l0 r c vs :
  is_digits vs -> is_digits r -> length r = S (length vs) -> val r < val vs ->
  exists w', write_digit (l0 ++ r ++ c) (length l0 + length vs) 0 = Some (l0 ++ w' ++ 0 :: c) /\
    length w' = length vs /\ is_digits w' /\ val w' = val r.
Proof.
  intros Dv Dr Lr Hlt. destruct (split_high r Dr) as (w' & d & -> & Dw & Hd & Rw & Ew & _); [by intros ->|].
  rewrite length_app in Lr. cbn [length] in Lr. exists w'.
  replace (l0 ++ (w' ++ [d]) ++ c) with ((l0 ++ w') ++ d :: c) by (by rewrite <- !app_assoc).
  rewrite write_digit_mid by (rewrite length_app; lia).
  split_and!; [by rewrite <- app_assoc|lia|done|]. pose proof (val_range vs Dv) as Rv.
  replace (len vs) with (len w') in Rv by lia. unfold in_u in Hd.
  destruct (Z.eq_dec d 0) as [->|]; [lia|]. nia.
Qed.

Lemma carry_one P m x z : 0 <= m < P -> 0 <= x < B * P -> m + B * P = x + B * P * z -> z = 1.
Proof.
  intros Hm Hx E. assert (B * P * (z - 1) = m - x) by lia.
  destruct (Z.lt_trichotomy z 1) as [|[|]]; [|done|]; nia.
Qed.

(** One turn of the loop: the digit of the quotient, and the remainder in its place. *)
Lemma div_digit_ok vs v' l0 w z c t :
  high_bit_set vs -> is_digits w -> in_u 32 z -> is_digits c -> length w = S (length vs) ->
  val w < val vs * B -> is_digits t -> (3 <= length t)%nat ->
  exists w' z' t', div_digit (vs ++ v') (length vs) (l0 ++ w ++ z :: c) (length l0 + length vs) t
      = Some (val w / val vs, l0 ++ w' ++ 0 :: z' :: c, t') /\
    length w' = length vs /\ is_digits w' /\ in_u 32 z' /\ is_digits t' /\ length t' = length t /\
    val w' = val w mod val vs.
Proof.
  intros Hvs Dw Hz Dc Lw Hlt Dt Lt. pose proof Hvs as (Dv & Hne & Hnorm).
  destruct (trial_digit_ok vs v' l0 w (z :: c) t) as (qd & t' & E & Hq & Hqd & Dt' & Lt'); try done; [by constructor|].
  unfold div_digit. rewrite E. cbn [mbind option_bind]. rewrite back_app by done. cbn [mbind option_bind].
  replace (length l0 + length vs - length vs)%nat with (length l0) by lia. rewrite take_app_length.
  destruct (split_high w Dw) as (wl & hi & -> & Dwl & Hhi & Rl & Ew & _); [by intros ->|].
  rewrite length_app in Lw. cbn [length] in Lw. rewrite <- app_assoc. cbn [app].
  destruct (mpvecdigmulsub_ok vs v' qd wl hi (z :: c)) as (r & sign & Es & Lr & Dr & Hs); try done; [lia|].
  rewrite Es. cbn [mbind option_bind]. set (W := val (wl ++ [hi])) in *. set (v := val vs) in *.
  pose proof (val_range vs Dv) as Rv. fold v in Rv. rewrite Lr, Nat2Z.inj_succ, Z.pow_succ_r in Hs by lia.
  assert (0 < v) as Hv by (destruct vs; [done|cbn [length] in Hnorm; lia]).
  pose proof (Z.div_mod W v ltac:(lia)) as EW. pose proof (Z.mod_pos_bound W v Hv) as Hm. unfold in_u in Hq.
  destruct (Z.leb_spec (qd * v) W) as [Hle|Hgt].
  - destruct Hs as [-> Vr]. cbn [Z.ltb Z.compare mbind option_bind]. assert (qd = W / v) as -> by nia.
    destruct (push_down l0 r (z :: c) vs) as (w' & Ep & Lw' & Dw' & Vw'); [done|done|done|lia|].
    rewrite Ep. exists w', z, t'. split_and!; try done; [apply Hz..|lia].
  - destruct Hs as [-> Vr]. cbn [Z.ltb Z.compare mbind option_bind]. assert (qd = W / v + 1) as -> by nia.
    destruct (mpvecadd_ok r (z :: c) vs v' (r ++ [z]) c) as (r2 & Ea & Lr2 & Dr2 & Vr2);
      [done|done|lia|rewrite length_app; cbn; lia|].
    rewrite <- app_assoc, Lr in Ea. cbn [app] in Ea. rewrite Nat.add_1_r, Ea. cbn [mbind option_bind].
    destruct (split_high r2 Dr2) as (r3 & z' & -> & Dr3 & Hz' & Rr3 & Er2 & _).
    { intros ->. rewrite length_app in Lr2. cbn in Lr2. lia. }
    rewrite !length_app in Lr2. cbn [length] in Lr2. rewrite Vr2, Vr in Er2. fold v in Er2.
    replace (len r3) with (Z.succ (len vs)) in * by lia. rewrite Z.pow_succ_r in * by lia.
    replace (W - (W / v + 1) * v + B * B ^ len vs + v) with (W mod v + B * B ^ len vs) in Er2 by lia.
    assert (z' = 1) as -> by (apply (carry_one (B ^ len vs) (W mod v) (val r3)); lia).
    destruct (push_down l0 r3 (1 :: c) vs) as (w' & Ep & Lw' & Dw' & Vw'); [done|done|lia|lia|].
    rewrite <- app_assoc. cbn [app]. rewrite Ep. exists w', 1, t'.
    assert (0 <= W / v) by (apply Z.div_pos; [apply (val_range _ Dw)|lia]).
    rewrite wrap_small by (unfold in_u; lia). replace (W / v + 1 - 1) with (W / v) by lia.
    split_and!; try done; lia.
Qed.

(** The digits of a quotient: the highest, and those of the quotient of the rest. *)
Lemma quotient_digit v x w P :
  0 < v -> 0 <= x < P -> 0 <= w ->
  (x + P * w) / v = P * (w / v) + (x + P * (w mod v)) / v /\
  (x + P * w) mod v = (x + P * (w mod v)) mod v.
Proof.
  intros Hv Hx Hw. replace (x + P * w) with (x + P * (w mod v) + (P * (w / v)) * v).
  2: rewrite (Z.div_mod w v) at 3 by lia; ring.
  rewrite Z.div_add, Z_mod_plus_full by lia. lia.
Qed.

(** A turn of the loop on the digits [l] of the dividend: [l'] and the digit [qd] go on to
    the next. *)
Lemma div_loop_turn i vs v' l z c t :
  high_bit_set vs -> is_digits l -> in_u 32 z -> is_digits c -> length l = (length vs + S i)%nat ->
  val (drop (S i) l) < val vs -> is_digits t -> (3 <= length t)%nat ->
  exists qd l' z' t',
    div_digit (vs ++ v') (length vs) (l ++ z :: c) (length vs + i) t = Some (qd, l' ++ 0 :: z' :: c, t') /\
    in_u 32 qd /\ is_digits l' /\ in_u 32 z' /\ length l' = (length vs + i)%nat /\
    val (drop i l') < val vs /\ is_digits t' /\ length t' = length t /\
    val l / val vs = B ^ Z.of_nat i * qd + val l' / val vs /\ val l mod val vs = val l' mod val vs.
Proof.
  intros Hvs Dl Hz Dc Ll Hlt Dt Lt. assert (0 < val vs) as Hv.
  { destruct Hvs as (_ & Hne & Hv). destruct vs; [done|]. cbn [length] in Hv. lia. }
  assert (length (take i l) = i) as L0 by (rewrite length_take; lia).
  assert (length (drop i l) = S (length vs)) as Lw by (rewrite length_drop; lia).
  assert (is_digits (take i l)) as D0 by (by apply Forall_take).
  assert (is_digits (drop i l)) as Dw by (by apply Forall_drop).
  assert (val (drop i l) < val vs * B) as Hlt'.
  { destruct (lookup_lt_is_Some_2 l i) as [x Hx]; [lia|]. rewrite (drop_S _ _ _ Hx). cbn [val].
    pose proof (Forall_lookup_1 _ _ _ _ Dl Hx) as Hd. unfold in_u in Hd. lia. }
  pose proof (val_range _ D0) as R0. rewrite L0 in R0. pose proof (val_range _ Dw) as Rw.
  destruct (div_digit_ok vs v' (take i l) (drop i l) z c t)
    as (w' & z' & t' & E & Lw' & Dw' & Hz' & Dt' & Lt' & Vw'); try done.
  rewrite app_assoc, take_drop, L0, (Nat.add_comm i), (app_assoc (take i l)) in E.
  exists (val (drop i l) / val vs), (take i l ++ w'), z', t'. split; [done|].
  split; [split; [apply Z.div_pos; lia|apply Z.div_lt_upper_bound; lia]|].
  rewrite length_app, val_app, L0, Vw', (val_split i l) by lia.
  split; [by apply Forall_app|]. split; [exact Hz'|]. split; [lia|].
  split; [|split; [done|split; [done|apply quotient_digit; lia]]].
  rewrite <- L0 at 1. rewrite drop_app_length, Vw'. by apply Z.mod_pos_bound.
Qed.

(** What the loop leaves in the array of the quotient. *)
Definition quotient_stored (n : nat) (v : Z) (qp qp' : option (list Z)) : Prop :=
  match qp with
  | None => qp' = None
  | Some q => exists ds, qp' = Some (ds ++ drop n q) /\ length ds = n /\ is_digits ds /\ val ds = v
  end.

Lemma quotient_stored_S i v qd qp qp1 qp' :
  in_u 32 qd -> (forall q, qp = Some q -> (S i <= length q)%nat) ->
  qp1 = match qp with None => None | Some q => Some (<[i := qd]> q) end ->
  quotient_stored i v qp1 qp' -> quotient_stored (S i) (B ^ Z.of_nat i * qd + v) qp qp'.
Proof.
  intros Hqd Hqp ->. destruct qp as [q|]; [|done]. specialize (Hqp q eq_refl).
  intros (ds & -> & Ld & Dd & Vd). exists (ds ++ [qd]). rewrite length_app, val_app. cbn [length val].
  split_and!; [|lia|apply Forall_app; split; [done|by apply Forall_singleton]|rewrite Ld; lia].
  rewrite <- app_assoc. do 2 f_equal. rewrite (drop_S _ qd i) by (by apply list_lookup_insert_eq).
  cbn [app]. f_equal. by rewrite drop_insert_lt by lia.
Qed.

(** The loop divides: the digits that stay are those of the remainder, the digits stored those
    of the quotient. *)
Lemma div_loop_ok n vs v' l z c qp t :
  high_bit_set vs -> is_digits l -> in_u 32 z -> is_digits c -> length l = (length vs + n)%nat ->
  val (drop n l) < val vs -> is_digits t -> (3 <= length t)%nat ->
  (forall q, qp = Some q -> (n <= length q)%nat) ->
  exists l' c' qp' t', div_loop n (vs ++ v') (length vs) (l ++ z :: c) qp t = Some (l' ++ c', qp', t') /\
    length l' = length vs /\ is_digits (l' ++ c') /\ length (l' ++ c') = length (l ++ z :: c) /\
    val l' = val l mod val vs /\ is_digits t' /\ length t' = length t /\
    quotient_stored n (val l / val vs) qp qp'.
Proof.
  intros Hvs. revert l z c qp t.
  induction n as [|i IH]; intros l z c qp t Dl Hz Dc Ll Hlt Dt Lt Hqp.
  - rewrite drop_0 in Hlt. pose proof (val_range l Dl) as Rl. rewrite Nat.add_0_r in Ll.
    exists l, (z :: c), qp, t. rewrite Z.mod_small, Z.div_small by lia. split_and!; try done.
    + apply Forall_app. split; [done|by constructor].
    + destruct qp as [q|]; [|done]. exists []. by rewrite drop_0.
  - destruct (div_loop_turn i vs v' l z c t) as (qd & l1 & z1 & t1 & E & Hqd & D1 & Hz1 & L1 & Hlt1 & Dt1 & Lt1 & Eq & Em); try done.
    cbn [div_loop]. rewrite E. cbn [mbind option_bind]. rewrite Eq, Em.
    set (qp1 := match qp with None => None | Some q => Some (<[i := qd]> q) end).
    assert (match qp with None => Some None | Some q => q ← write_digit q i qd; Some (Some q) end = Some qp1) as ->.
    { destruct qp as [q|]; [|done]. specialize (Hqp q eq_refl). unfold write_digit.
      destruct (Nat.ltb_spec i (length q)); [done|lia]. }
    cbn [mbind option_bind].
    destruct (IH l1 0 (z1 :: c) qp1 t1) as (l' & c' & qp' & t2 & H1 & H2 & H3 & H4 & H5 & H6 & H7 & H8);
      try done; [by constructor|lia| |].
    { intros q Hq. destruct qp as [q0|]; [|done]. injection Hq as <-. rewrite length_insert.
      specialize (Hqp q0 eq_refl). lia. }
    exists l', c', qp', t2. split_and!; try done; [|congruence|by eapply quotient_stored_S].
    rewrite H4, !length_app. cbn [length]. lia.
Qed.

(** ** The shift that sets the highest bit *)

Lemma mpdighi_clear d : in_u 32 d -> ((d .& mpdighi) =? 0) = (d <? 2 ^ 31).
Proof.
  intros Hd. change mpdighi with (2 ^ 31). unfold in_u in Hd.
  assert (Z.testbit d 31 = negb (d <? 2 ^ 31)) as Hb.
  { rewrite Z.testbit_odd, Z.shiftr_div_pow2 by lia.
    destruct (Z.ltb_spec d (2 ^ 31)).
    - by rewrite Z.div_small by lia.
    - replace (d / 2 ^ 31) with 1; [done|]. apply (Z.div_unique _ _ _ (d - 2 ^ 31)); lia. }
  destruct (Z.ltb_spec d (2 ^ 31)) as [Hlt|Hge]; cbn [negb] in Hb.
  - apply Z.eqb_eq. apply Z.bits_inj_0. intros n. rewrite Z.land_spec.
    destruct (Z.eq_dec n 31) as [->|Hn]; [by rewrite Hb|]. rewrite Z.pow2_bits_false by lia. apply andb_false_r.
  - apply Z.eqb_neq. intros E. assert (Z.testbit (d .& 2 ^ 31) 31 = true) as Ht
      by (rewrite Z.land_spec, Hb; by rewrite Z.pow2_bits_true by lia).
    by rewrite E, Z.bits_0 in Ht.
Qed.

(** D1 ends for a digit that is not zero. *)
Lemma high_shift_ok n s d :
  in_u 32 d -> (0 < n <= 32)%nat -> 2 ^ (32 - Z.of_nat n) <= d ->
  exists k, high_shift n s d = Some (s + k) /\ 0 <= k < Z.of_nat n /\ 2 ^ 31 <= d * 2 ^ k < B.
Proof.
  revert s d. induction n as [|n IH]; intros s d Hd Hn Hlow; [lia|]. cbn [high_shift].
  rewrite mpdighi_clear by done. unfold in_u in Hd. destruct (Z.ltb_spec d (2 ^ 31)) as [Hlt|Hge].
  - destruct n as [|n]; [change (32 - Z.of_nat 1) with 31 in Hlow; lia|].
    rewrite Z.shiftl_mul_pow2, wrap_small by (unfold in_u; lia).
    destruct (IH (s + 1) (d * 2 ^ 1)) as (k & E & Hk & Hr); [unfold in_u; lia|lia| |].
    { replace (32 - Z.of_nat (S n)) with (32 - Z.of_nat (S (S n)) + 1) by lia.
      rewrite Z.pow_add_r by lia. lia. }
    exists (k + 1). rewrite E. split_and!; [f_equal; lia|lia|lia| |].
    all: rewrite Z.pow_add_r by lia; lia.
  - exists 0. rewrite Z.add_0_r. split_and!; [done|lia|lia|lia|lia].
Qed.

(** The number of digits of a trimmed number. *)
Lemma top_of_mag c n : trimmed c -> (0 < n)%nat -> B ^ (Z.of_nat n - 1) <= mag c < B ^ Z.of_nat n -> mp_top c = n.
Proof.
  intros [Rc Tc] Hn Hm. pose proof (mag_range c Rc) as Hr.
  assert (Z.of_nat n - 1 < Z.of_nat (mp_top c)) by (apply (Z.pow_lt_mono_r_iff B); lia).
  destruct Tc as [|Tc]; [lia|].
  assert (Z.of_nat (mp_top c) - 1 < Z.of_nat n) by (apply (Z.pow_lt_mono_r_iff B); lia). lia.
Qed.

(** The highest digit of a divisor, and the divisor with its highest bit set. *)
Lemma normalise y :
  trimmed y -> mp_top y <> 0%nat ->
  exists d s, mp_p y !! (mp_top y - 1)%nat = Some d /\ high_shift 32 0 d = Some s /\ 0 <= s < 32 /\
    forall V, trimmed V -> mag V = mag y * 2 ^ s -> high_bit_set (digits V) /\ mp_top V = mp_top y.
Proof.
  intros [Ry Ty] Hne. destruct (digits_ok y Ry) as [Dy Ly].
  destruct (split_high (digits y) Dy) as (low & d & Ed & Dl & Hd & Rl & Em & El).
  { intros E. rewrite E in Ly. cbn in Ly. lia. }
  assert (length low = (mp_top y - 1)%nat) as Ll by (rewrite <- Ly, Ed, length_app; cbn [length]; lia).
  assert (d <> 0) as Hd0. { intros ->. destruct Ty as [|Ty]; [done|]. unfold mag in Ty. rewrite Em in Ty.
    replace (Z.of_nat (mp_top y) - 1) with (len low) in Ty by lia. lia. }
  destruct (high_shift_ok 32 0 d Hd) as (s & Es & Hs & Hr); [lia|change (32 - Z.of_nat 32) with 0; unfold in_u in Hd; lia|].
  exists d, s. split_and!; [|done|lia|lia|].
  { rewrite digits_app, Ed, <- app_assoc, <- Ll. by apply list_lookup_middle. }
  intros V TV MV. assert (mp_top V = mp_top y) as ET.
  - apply top_of_mag; [done|lia|]. rewrite MV. unfold mag. rewrite Em.
    replace (Z.of_nat (mp_top y)) with (len low + 1) by lia. rewrite Z.pow_add_r, Z.pow_1_r by lia.
    replace (len low + 1 - 1) with (len low) by lia.
    assert (d + 1 <= 2 ^ (32 - s)).
    { assert (d * 2 ^ s < 2 ^ (32 - s) * 2 ^ s) as Hk by (rewrite <- Z.pow_add_r by lia; replace (32 - s + s) with 32 by lia; lia).
      apply Z.mul_lt_mono_pos_r in Hk; lia. }
    assert ((d + 1) * 2 ^ s <= B).
    { replace B with (2 ^ (32 - s) * 2 ^ s) by (rewrite <- Z.pow_add_r by lia; f_equal; lia).
      apply Z.mul_le_mono_nonneg_r; lia. }
    assert (1 <= 2 ^ s) by lia. clear Es. set (P := B ^ len low) in *. assert (0 < P) by (unfold P; lia). nia.
  - split; [|done]. destruct (digits_ok V (proj1 TV)) as [DV LV]. split_and!; [done|intros E; rewrite E in LV; cbn in LV; lia|].
    rewrite LV, ET. fold (mag V). rewrite MV. unfold mag. rewrite Em.
    replace (Z.of_nat (mp_top y) - 1) with (len low) by lia. set (P := B ^ len low) in *. assert (0 < P) by (unfold P; lia). nia.
Qed.

(** ** On the heap *)

(** The heap with a result, when there is one. *)
Definition put_opt (o : option Z) (c : mpint) (h : heap) : heap :=
  match o with None => h | Some a => <[a := c]> h end.

Lemma mpfree_Done h a b : h !! a = Some b -> mp_static b = false -> mpfree (Some a) h = Done tt (delete a h).
Proof. intros Ha Hb. unfold mpfree. mrun. by rewrite Hb. Qed.

Lemma high_less (l1 l2 : list Z) a b :
  is_digits l1 -> is_digits l2 -> length l1 = length l2 -> a < b -> val (l1 ++ [a]) < val (l2 ++ [b]).
Proof.
  intros D1 D2 L Hab. rewrite !val_app, L. cbn [val]. pose proof (val_range l1 D1) as R1.
  pose proof (val_range l2 D2) as R2. rewrite L in R1. assert (0 < B ^ len l2) by lia. nia.
Qed.

Lemma div_extend_ok h0 (u : Z) U V :
  trimmed U -> raw V -> high_bit_set (digits V) -> (mp_top V <= mp_top U)%nat ->
  (mp_top U + 2 <= length (mp_p U))%nat \/
  (mp_top U + 1 <= length (mp_p U))%nat /\ mag U < 2 ^ 31 * B ^ (Z.of_nat (mp_top U) - 1) ->
  exists U1, div_extend u U V (<[u := U]> h0) = Done tt (<[u := U1]> h0) /\ raw U1 /\ mag U1 = mag U /\
    (mp_top V <= mp_top U1 < length (mp_p U1))%nat /\ val (drop (mp_top U1 - mp_top V) (digits U1)) < mag V /\
    mp_sign U1 = mp_sign U /\ mp_static U1 = mp_static U.
Proof.
  intros TU RV HV Hle Hroom. destruct (digits_ok V RV) as [DV LV]. pose proof TU as [RU _].
  assert (mp_top V <> 0%nat) as HV0 by (intros E; rewrite E in LV; by destruct HV as (_ & [] & _), (digits V)).
  destruct (digits_snoc V RV HV0) as (vl & hv & EV & DVl & Hhv & LVl & Ehv & _).
  destruct (digits_snoc U RU ltac:(lia)) as (ul & hu & EU & DUl & Hhu & LUl & Ehu & MU).
  pose proof HV as HV'. rewrite EV in HV'. apply high_digit in HV'.
  pose proof (val_range ul DUl) as Rul. unfold in_u in Hhu.
  unfold div_extend. mrun. mrun. unfold mag at 3. rewrite EV.
  destruct (Z.leb_spec hv hu) as [Hge|Hlt].
  - assert (mp_top U + 2 <= length (mp_p U))%nat as Hlen.
    { destruct Hroom as [|[_ Hm]]; [done|]. rewrite MU in Hm. assert (0 < B ^ (Z.of_nat (mp_top U) - 1)) by lia. nia. }
    destruct (drop (mp_top U) (mp_p U)) as [|z c] eqn:Ed.
    { apply (f_equal length) in Ed. rewrite length_drop in Ed. cbn in Ed. lia. }
    pose proof (digits_app U) as Ep. rewrite Ed in Ep. destruct (digits_ok U RU) as [DU LU].
    assert (write_digit (mp_p U) (mp_top U) 0 = Some (digits U ++ 0 :: c)) as Ew by (rewrite Ep; by apply write_digit_mid).
    mrun. unfold put. rewrite insert_insert_eq. eexists. split; [reflexivity|].
    set (U1 := _ <| mp_top := _ |>).
    assert (digits U1 = digits U ++ [0]) as E1.
    { change (take (S (mp_top U)) (digits U ++ 0 :: c) = digits U ++ [0]).
      rewrite <- LU. rewrite take_app_ge by lia. by replace (S (length (digits U)) - length (digits U))%nat with 1%nat by lia. }
    assert (length (mp_p U1) = length (mp_p U)) as L1.
    { rewrite Ep. change (mp_p U1) with (digits U ++ 0 :: c). rewrite !length_app. done. }
    assert (raw U1) as R1.
    { destruct RU as (Dp & _). rewrite Ep in Dp. apply Forall_app in Dp as [_ Dz]. inversion_clear Dz.
      split_and!; [|change (S (mp_top U) <= length (mp_p U1))%nat; lia|lia].
      change (is_digits (digits U ++ 0 :: c)). apply Forall_app. split; [done|]. constructor; [by_decide|done]. }
    parts; try done.
    + unfold mag. rewrite E1, val_app. cbn [val]. lia.
    + change (mp_top V <= S (mp_top U))%nat. lia.
    + change (S (mp_top U) < length (mp_p U1))%nat. lia.
    + rewrite E1. change (mp_top U1) with (S (mp_top U)). rewrite drop_app_le by lia.
      apply high_less; [by apply Forall_drop|done|rewrite length_drop; lia|lia].
  - exists U. parts; try done; [lia|]. rewrite EU, drop_app_le by lia.
    apply high_less; [by apply Forall_drop|done|rewrite length_drop; lia|done].
Qed.

(** The object of the quotient before the loop. *)
Lemma quotient_room h0 quotient Q n :
  (forall q, quotient = Some q -> h0 !! q = Some Q /\ raw Q) ->
  exists Q1, when quotient (fun q => mpbits q (Z.of_nat n * Dbits);; set_obj q (fun Q => Q <| mp_top := n |>)) h0
      = Done tt (put_opt quotient Q1 h0) /\
    match quotient with None => mret None | Some q => Q ← obj q; mret (Some (mp_p Q)) end (put_opt quotient Q1 h0)
      = Done (match quotient with None => None | Some _ => Some (mp_p Q1) end) (put_opt quotient Q1 h0) /\
    (forall q, quotient = Some q -> raw Q1 /\ mp_top Q1 = n /\ mp_sign Q1 = mp_sign Q /\ mp_static Q1 = mp_static Q).
Proof.
  intros HQ. destruct quotient as [q|]; [|by exists Q].
  destruct (HQ q eq_refl) as [Hq RQ]. cbn [when put_opt].
  destruct (with_bits_ok (Z.of_nat n * Dbits) Q RQ) as (Rw & Hn & _ & _ & Hsg & Hst & _).
  rewrite DIGITS_mul, Nat2Z.id in Hn by lia. unfold mpbits. mrun. erewrite set_obj_Done; [|apply lookup_insert_eq].
  rewrite insert_insert_eq. eexists. split; [reflexivity|]. split.
  - mrun. done.
  - intros _ _. set (Q1 := _ <| mp_top := n |>). parts; [|done|exact Hsg|exact Hst].
    destruct Rw as (Wd & Wt & Wp). split_and!; [exact Wd| |exact Wp].
    change (n <= length (mp_p (with_bits (Z.of_nat n * Dbits) Q)))%nat. lia.
Qed.

(** The loop on the objects. *)
Lemma main_loop U1 V n qp t :
  raw U1 -> raw V -> high_bit_set (digits V) -> (mp_top U1 = mp_top V + n /\ mp_top U1 < length (mp_p U1))%nat ->
  val (drop n (digits U1)) < mag V -> is_digits t -> (3 <= length t)%nat ->
  (forall q, qp = Some q -> (n <= length q)%nat) ->
  exists p qp' t', div_loop n (mp_p V) (mp_top V) (mp_p U1) qp t = Some (p, qp', t') /\
    val (take (mp_top V) p) = mag U1 mod mag V /\ is_digits p /\ length p = length (mp_p U1) /\
    is_digits t' /\ quotient_stored n (mag U1 / mag V) qp qp'.
Proof.
  intros RU RV HV [Ht Hlen] Hlt Dt Lt Hqp. destruct (digits_ok V RV) as [DV LV]. destruct (digits_ok U1 RU) as [DU LU].
  destruct (drop (mp_top U1) (mp_p U1)) as [|z c] eqn:Ed.
  { apply (f_equal length) in Ed. rewrite length_drop in Ed. cbn in Ed. lia. }
  pose proof (digits_app U1) as Ep. rewrite Ed in Ep. pose proof (proj1 RU) as Dz. rewrite Ep in Dz.
  apply Forall_app in Dz as [_ Dz]. inversion_clear Dz as [|? ? Hz Dc].
  destruct (div_loop_ok n (digits V) (drop (mp_top V) (mp_p V)) (digits U1) z c qp t)
    as (l' & c' & qp' & t' & E & Ll & Dl & Ll' & Vl & Dt' & _ & Hq); try done; [lia|].
  rewrite <- digits_app, <- Ep, LV in E. exists (l' ++ c'), qp', t'. parts; try done; [|by rewrite Ll', <- Ep].
  rewrite <- LV, <- Ll, take_app_length. done.
Qed.

(** D1a to D7 on the heap. *)
Lemma div_main_ok h0 (u v : Z) quotient U V Q :
  h0 !! u = None -> h0 !! v = Some V -> trimmed U -> raw V -> high_bit_set (digits V) ->
  (mp_top V <= mp_top U)%nat ->
  (mp_top U + 2 <= length (mp_p U))%nat \/
  (mp_top U + 1 <= length (mp_p U))%nat /\ mag U < 2 ^ 31 * B ^ (Z.of_nat (mp_top U) - 1) ->
  (forall q, quotient = Some q -> h0 !! q = Some Q /\ raw Q /\ q <> v) ->
  exists t T U' Q', div_main u v quotient (<[u := U]> h0) = Done t (<[t := T]> (<[u := U']> (put_opt quotient Q' h0))) /\
    h0 !! t = None /\ t <> u /\ mp_static T = false /\
    raw U' /\ mp_top U' = mp_top V /\ mag U' = mag U mod mag V /\ mp_sign U' = mp_sign U /\ mp_static U' = mp_static U /\
    (forall q, quotient = Some q ->
       raw Q' /\ mag Q' = mag U / mag V /\ mp_sign Q' = mp_sign Q /\ mp_static Q' = mp_static Q).
Proof.
  intros Hu Hv TU RV HV Hle Hroom HQ. assert (u <> v) as Huv by congruence.
  destruct (div_extend_ok h0 u U V TU RV HV Hle Hroom) as (U1 & E1 & R1 & M1 & T1 & D1 & S1 & St1).
  destruct (mpnew_ok (<[u := U1]> h0) (4 * Dbits) ltac:(done)) as (t & T0 & Et & Ht & RT & _ & _ & StT & _ & LT).
  assert (t <> u) as Htu by (intros ->; by rewrite lookup_insert_eq in Ht). rewrite lookup_insert_ne in Ht by done.
  unfold div_main. mrun. erewrite bind_Done; [|apply obj_Done; rewrite lookup_insert_ne by done; exact Hv].
  erewrite bind_Done; [|exact E1]. erewrite bind_Done; [|exact Et].
  set (h1 := <[t := T0]> (<[u := U1]> h0)).
  assert (h1 !! u = Some U1) as Hu1 by (unfold h1; rewrite lookup_insert_ne by done; apply lookup_insert_eq).
  mrun. cbv zeta. set (n := (mp_top U1 - mp_top V)%nat) in *.
  destruct (quotient_room h1 quotient Q n) as (Q1 & Eq & Eqp & HQ1).
  { intros q Eq. destruct (HQ q Eq) as (Hq & RQ & _). unfold h1. by rewrite !lookup_insert_ne by congruence. }
  erewrite bind_Done; [|exact Eq]. erewrite bind_Done; [|exact Eqp].
  assert (put_opt quotient Q1 h1 !! t = Some T0) as Ht1.
  { destruct quotient as [q|]; cbn [put_opt]; [|apply lookup_insert_eq].
    destruct (HQ q eq_refl) as (Hq & _). rewrite lookup_insert_ne by congruence. apply lookup_insert_eq. }
  mrun. set (qp := match quotient with None => None | Some _ => _ end).
  destruct (main_loop U1 V n qp (mp_p T0)) as (p & qp' & tp & El & Up & Dp & Lp & Tp & Hqp);
    [done|done|done|lia|done|apply RT|unfold mpmindigits in LT; lia| |].
  { intros q0 Eq0. unfold qp in Eq0. destruct quotient as [q|]; [|done]. injection Eq0 as <-.
    destruct (HQ1 q eq_refl) as (R0 & Hn & _). rewrite <- Hn. apply R0. }
  mrun. unfold put. do 2 (erewrite bind_Done; [|reflexivity]).
  set (T' := T0 <| mp_p := tp |>). set (U' := _ <| mp_top := (mp_top U1 - n)%nat |>).
  assert (raw U' /\ mag U' = mag U mod mag V) as [RU' MU'].
  { split; [split_and!; [exact Dp|change (mp_top U1 - n <= length p)%nat; lia|change (0 < length p)%nat; lia]|].
    rewrite <- M1, <- Up. change (val (take (mp_top U1 - n) p) = val (take (mp_top V) p)). do 2 f_equal. lia. }
  destruct quotient as [q|].
  - destruct (HQ q eq_refl) as (Hq & RQ & Hqv). destruct (HQ1 q eq_refl) as (RQ1 & HnQ & SQ1 & StQ1).
    destruct Hqp as (ds & -> & Lds & Dds & Vds). cbn [when put_opt].
    erewrite bind_Done; [|apply set_obj_Done; rewrite !lookup_insert_ne by congruence; apply lookup_insert_eq].
    set (Q' := Q1 <| mp_p := ds ++ drop n (mp_p Q1) |>). exists t, T', U', Q'.
    parts; try done; [|change (mp_top U1 - n = mp_top V)%nat; lia|].
    + cbn [mret mpm_ret]. f_equal. apply map_eq. intros k. unfold h1. rewrite !lookup_insert.
      repeat case_decide; done || congruence.
    + intros _ _. destruct RQ1 as (DQ1 & LQ1 & PQ1).
      assert (length (ds ++ drop n (mp_p Q1)) = length (mp_p Q1)) as LQ'.
      { rewrite length_app, length_drop. lia. }
      parts; try done.
      * split_and!; [|change (mp_top Q1 <= length (ds ++ drop n (mp_p Q1)))%nat; lia
                     |change (0 < length (ds ++ drop n (mp_p Q1)))%nat; lia].
        change (is_digits (ds ++ drop n (mp_p Q1))). apply Forall_app. split; [done|by apply Forall_drop].
      * rewrite <- M1, <- Vds. change (val (take (mp_top Q1) (ds ++ drop n (mp_p Q1))) = val ds).
        rewrite HnQ, <- Lds. by rewrite take_app_length.
  - cbn [when put_opt]. erewrite bind_Done; [|reflexivity]. exists t, T', U', Q.
    parts; try done; [|change (mp_top U1 - n = mp_top V)%nat; lia].
    cbn [mret mpm_ret]. f_equal. apply map_eq. intros k. unfold h1. rewrite !lookup_insert.
    repeat case_decide; done || congruence.
Qed.

(** [mpnorm] of any object. *)
Lemma mpnorm_trim h a b :
  h !! a = Some b -> raw b ->
  exists b', mpnorm a h = Done tt (<[a := b']> h) /\ trimmed b' /\ mag b' = mag b /\
    mp_static b' = mp_static b /\ (mag b <> 0 -> mp_sign b' = mp_sign b).
Proof.
  intros Ha (Hd & Ht & Hp). destruct (norm_top_ok (mp_p b) (mp_top b) Hd Ht) as (k & E & Hk & Hv & Hn).
  unfold mpnorm. mrun. mrun. eexists. split; [reflexivity|]. set (b' := _ <| mp_sign := _ |>).
  assert (raw b') by (split_and!; [exact Hd|change (k <= length (mp_p b))%nat; lia|exact Hp]).
  parts; [split; [done|exact Hn]|exact Hv|done|]. unfold mag, digits. rewrite <- Hv.
  change (mp_sign b') with (if (k =? 0)%nat then 1 else mp_sign b).
  destruct (Nat.eqb_spec k 0) as [->|]; [|done]. by rewrite take_0.
Qed.

Section division.
Context (h : heap) (dividend divisor : Z) (quotient remainder : option Z) (x y Q R : mpint).
Hypotheses (Hx : h !! dividend = Some x) (Tx : trimmed x) (Hy : h !! divisor = Some y) (Ty : trimmed y)
  (Hy0 : mp_top y <> 0%nat) (Hle : mag y <= mag x)
  (HQ : forall q, quotient = Some q -> h !! q = Some Q /\ raw Q)
  (HR : forall r, remainder = Some r -> h !! r = Some R /\ raw R)
  (Hqr : forall q, quotient = Some q -> remainder <> Some q).

Local Lemma dividend_nonzero : mp_top x <> 0%nat.
Proof using Tx Ty Hy0 Hle. pose proof (mag_top y x Ty Tx Hle). lia. Qed.

(** D1: [u] is a copy of the dividend; [v] is the divisor or a copy of it. *)
Lemma div_copies_ok s :
  0 <= s < 32 -> (forall V, trimmed V -> mag V = mag y * 2 ^ s -> high_bit_set (digits V) /\ mp_top V = mp_top y) ->
  exists u v U V h0, div_copies dividend divisor quotient remainder s h = Done (u, v) (<[u := U]> h0) /\
    h0 !! u = None /\ h0 !! v = Some V /\
    (v = divisor /\ h0 = h /\ quotient <> Some divisor /\ remainder <> Some divisor \/
     h !! v = None /\ h0 = <[v := V]> h /\ mp_static V = false) /\
    trimmed U /\ mag U = mag x * 2 ^ s /\ mp_sign U = mp_sign x /\ mp_static U = false /\
    (mp_top x + 2 <= length (mp_p U))%nat /\
    trimmed V /\ mag V = mag y * 2 ^ s.
Proof using Hx Tx Hy Ty Hy0 Hle.
  intros Hs Hnorm. pose proof dividend_nonzero as Hx0. unfold div_copies. mrun.
  destruct (mpnew_ok h ((Z.of_nat (mp_top x) + 2) * Dbits + s)) as (u & U0 & Eu & Hu & RU0 & _ & _ & SU0 & LU0 & _);
    [unfold Dbits; lia|].
  assert (mp_top x + 2 <= length (mp_p U0))%nat as LU.
  { apply Nat2Z.inj_le. etransitivity; [|exact LU0]. unfold DIGITS. rewrite Z.quot_div_nonneg by (unfold Dbits; lia).
    apply Z.div_le_lower_bound; unfold Dbits; lia. }
  erewrite bind_Done; [|exact Eu].
  assert (<[u := U0]> h !! dividend = Some x) as Hx' by (by rewrite lookup_insert_ne by congruence).
  destruct ((s =? 0) && negb (bool_decide (quotient = Some divisor)) && negb (bool_decide (remainder = Some divisor))) eqn:Ec.
  - apply andb_true_iff in Ec as [Ec Hr']. apply andb_true_iff in Ec as [Es Hq'].
    apply Z.eqb_eq in Es as ->. apply negb_true_iff, bool_decide_eq_false in Hr', Hq'.
    destruct (mpassign_trimmed (<[u := U0]> h) dividend u x U0) as (U & EU & TU & SU & _ & MU & StU & LU');
      [done|done|apply lookup_insert_eq|done|].
    erewrite bind_Done; [|exact EU]. rewrite insert_insert_eq.
    exists u, divisor, U, y, h. rewrite Z.mul_1_r, Z.mul_1_r. parts; try done; [by left|congruence|lia].
  - destruct (mpleft_up (<[u := U0]> h) dividend u x U0 Hx' (proj1 Tx) (lookup_insert_eq _ _ _) RU0 s)
      as (U & EU & TU & SU & MU & StU & LU'); [lia|done|].
    rewrite insert_insert_eq in EU. erewrite bind_Done; [|exact EU].
    erewrite bind_Done; [|apply obj_Done; rewrite lookup_insert_ne by congruence; exact Hy].
    destruct (mpnew_ok (<[u := U]> h) (Z.of_nat (mp_top y) * Dbits)) as (v & V0 & Ev & Hv & RV0 & _ & _ & SV0 & _);
      [unfold Dbits; lia|].
    assert (u <> v) as Huv by (intros ->; by rewrite lookup_insert_eq in Hv). rewrite lookup_insert_ne in Hv by done.
    erewrite bind_Done; [|exact Ev].
    destruct (mpleft_up (<[v := V0]> (<[u := U]> h)) divisor v y V0) with (n := s) as (V & EV & TV & _ & MV & StV & _);
      [rewrite !lookup_insert_ne by congruence; done|apply Ty|apply lookup_insert_eq|done|lia|done|].
    rewrite insert_insert_eq in EV. erewrite bind_Done; [|exact EV].
    rewrite insert_insert_ne by done.
    exists u, v, U, V, (<[v := V]> h). parts; try done; try congruence; [..|lia].
    + by rewrite lookup_insert_ne.
    + apply lookup_insert_eq.
    + right. split_and!; try done. congruence.
Qed.

Let qsign : Z := if mp_sign x =? mp_sign y then mp_sign Q else -1.

(** The sign of the quotient. *)
Lemma div_quotient_ok hv h0 (u t : Z) Q1 :
  (forall a b, h !! a = Some b -> h0 !! a = Some b) -> h0 !! u = None -> h0 !! t = None ->
  (forall q, quotient = Some q -> raw Q1 /\ mag Q1 <> 0 /\ mp_sign Q1 = mp_sign Q /\ mp_static Q1 = mp_static Q) ->
  (forall a, (exists b, h0 !! a = Some b) -> hv !! a = put_opt quotient Q1 h0 !! a) ->
  exists Q2, when quotient (fun q =>
      mpnorm q;;
      x ← obj dividend;
      y ← obj divisor;
      if negb (mp_sign x =? mp_sign y) then set_obj q (fun Q => Q <| mp_sign := -1 |>) else mret tt) hv
    = Done tt (put_opt quotient Q2 hv) /\
    (forall q, quotient = Some q -> trimmed Q2 /\ mag Q2 = mag Q1 /\ mp_sign Q2 = qsign /\ mp_static Q2 = mp_static Q).
Proof using All.
  intros Hh Hu Ht HQ1 Hv. destruct quotient as [q|]; [|by exists Q]. cbn [when put_opt] in *.
  destruct (HQ q eq_refl) as [Hq _]. destruct (HQ1 q eq_refl) as (R1 & M1 & S1 & St1).
  assert (hv !! q = Some Q1) as Hvq by (rewrite Hv by eauto; apply lookup_insert_eq).
  destruct (mpnorm_trim hv q Q1 Hvq R1) as (Q2 & E2 & T2 & M2 & St2 & S2). specialize (S2 M1).
  erewrite bind_Done; [|exact E2].
  assert (forall a b, h !! a = Some b -> exists b', <[q := Q2]> hv !! a = Some b' /\ mp_sign b' = mp_sign b) as Hsg.
  { intros a b Ha. destruct (decide (a = q)) as [->|Hne].
    - exists Q2. rewrite lookup_insert_eq. split; [done|]. assert (b = Q) as -> by congruence. congruence.
    - exists b. rewrite lookup_insert_ne by done. rewrite Hv by eauto. rewrite lookup_insert_ne by done. auto. }
  destruct (Hsg _ _ Hx) as (x' & Hx' & Sx'). destruct (Hsg _ _ Hy) as (y' & Hy' & Sy').
  mrun. mrun. rewrite Sx', Sy'. unfold qsign. destruct (mp_sign x =? mp_sign y); cbn [negb].
  - exists Q2. split; [done|]. intros _ _. parts; try done; congruence.
  - erewrite set_obj_Done; [|apply lookup_insert_eq]. rewrite insert_insert_eq. eexists. split; [reflexivity|].
    intros _ _. parts; [exact T2|exact M2|done|]. change (mp_static Q2 = mp_static Q). congruence.
Qed.

Let rsign : Z :=
  if bool_decide (remainder = Some dividend) then if mag x mod mag y =? 0 then 1 else mp_sign x
  else if bool_decide (quotient = Some dividend) then qsign else mp_sign x.

(** The remainder: [hv] is the heap once the quotient is done. *)
Lemma div_remainder_ok hv (u s : Z) U Q2 :
  hv !! u = Some U -> raw U -> mp_top U <> 0%nat -> 0 <= s < 32 -> mp_sign U = mp_sign x ->
  mag U = mag x mod mag y * 2 ^ s ->
  (forall q, quotient = Some q -> mp_sign Q2 = qsign) ->
  (forall a, (exists b, h !! a = Some b) -> hv !! a = put_opt quotient Q2 h !! a) ->
  exists R2, when remainder (fun r =>
      mpright u s r;;
      x ← obj dividend;
      set_obj r (fun R => R <| mp_sign := mp_sign x |>)) hv
    = Done tt (put_opt remainder R2 hv) /\
    (forall r, remainder = Some r ->
       trimmed R2 /\ mag R2 = mag x mod mag y /\ mp_sign R2 = rsign /\ mp_static R2 = mp_static R).
Proof using All.
  intros HU RU TU Hs SU MU HQ2 Hv. destruct remainder as [r|] eqn:Er; [|by exists R]. cbn [when put_opt].
  destruct (HR r eq_refl) as [Hr RR].
  assert (hv !! r = Some R) as Hvr.
  { rewrite Hv by eauto. destruct quotient as [q|]; [|done]. cbn [put_opt].
    rewrite lookup_insert_ne; [done|]. intros ->. by apply (Hqr r). }
  destruct (mpright_down hv u r U R HU RU Hvr RR s) as (c & Ec & Tc & Mc & Stc & Sc); [lia|done|].
  rewrite MU, Z.div_mul in Mc by lia.
  assert (mp_sign c = if mag x mod mag y =? 0 then 1 else mp_sign x) as Sc'.
  { rewrite Sc, SU, <- Mc. rewrite (Z.div_small s) by (unfold Dbits; lia).
    destruct (Nat.ltb_spec (Z.to_nat 0) (mp_top U)); [|lia]. rewrite andb_true_r.
    pose proof (mag_zero c Tc) as Hz. destruct (Nat.eqb_spec (mp_top c) 0), (Z.eqb_spec (mag c) 0); tauto. }
  erewrite bind_Done; [|exact Ec].
  assert (exists b, <[r := c]> hv !! dividend = Some b /\ mp_sign b = rsign) as (b & Hb & Sb).
  { unfold rsign. rewrite lookup_insert. destruct (decide (r = dividend)) as [->|Hne].
    - exists c. rewrite bool_decide_true by done. done.
    - rewrite bool_decide_false by congruence. rewrite Hv by eauto. destruct quotient as [q|]; cbn [put_opt].
      + rewrite lookup_insert. destruct (decide (q = dividend)) as [->|Hne'].
        * exists Q2. rewrite bool_decide_true by done. split; [done|]. by eapply HQ2.
        * exists x. by rewrite bool_decide_false by congruence.
      + exists x. done. }
  mrun. erewrite set_obj_Done; [|apply lookup_insert_eq]. rewrite insert_insert_eq.
  eexists. split; [reflexivity|]. intros _ _. parts; [exact Tc|exact Mc|exact Sb|exact Stc].
Qed.

(** The space for the dividend is enough. *)
Lemma div_room U s :
  trimmed U -> mag U = mag x * 2 ^ s -> 0 <= s < 32 -> (mp_top x + 2 <= length (mp_p U))%nat ->
  (mp_top U + 2 <= length (mp_p U))%nat \/
  (mp_top U + 1 <= length (mp_p U))%nat /\ mag U < 2 ^ 31 * B ^ (Z.of_nat (mp_top U) - 1).
Proof using All.
  intros [RU TU] MU Hs Hlen. destruct (Nat.le_gt_cases (mp_top U) (mp_top x)) as [|Hgt]; [left; lia|].
  destruct TU as [|TU]; [lia|]. pose proof (mag_range x (proj1 Tx)) as Rx.
  assert (2 ^ s <= 2 ^ 31) by (apply Z.pow_le_mono_r; lia).
  assert (mag U < 2 ^ 31 * B ^ Z.of_nat (mp_top x)) as Hm by nia.
  assert (B ^ (Z.of_nat (mp_top U) - 1) < B ^ (Z.of_nat (mp_top x) + 1)) as Hp.
  { rewrite Z.pow_add_r, Z.pow_1_r by lia. lia. }
  apply Z.pow_lt_mono_r_iff in Hp; [|lia..]. right.
  replace (Z.of_nat (mp_top U) - 1) with (Z.of_nat (mp_top x)) by lia. split; [lia|done].
Qed.

(** Freeing the copies leaves the results. *)
Lemma div_free_ok h0 (u v t : Z) U V T Q2 R2 :
  h0 !! u = None -> h0 !! t = None -> t <> u -> h0 !! v = Some V ->
  mp_static T = false -> mp_static U = false ->
  (v = divisor /\ h0 = h /\ quotient <> Some divisor /\ remainder <> Some divisor \/
   h !! v = None /\ h0 = <[v := V]> h /\ mp_static V = false) ->
  (mpfree (Some t);; mpfree (Some u);; if v =? divisor then mret tt else mpfree (Some v))
    (put_opt remainder R2 (<[t := T]> (<[u := U]> (put_opt quotient Q2 h0))))
  = Done tt (put_opt remainder R2 (put_opt quotient Q2 h)).
Proof using All.
  intros Hu Ht Htu Hv StT StU Hcopy.
  assert (forall o c a (m : heap), (forall r, o = Some r -> a <> r) -> put_opt o c m !! a = m !! a) as Hlk.
  { intros o c a m Ho. destruct o as [r|]; [|done]. cbn. rewrite lookup_insert_ne; [done|]. intros ->. by apply (Ho a). }
  assert (forall o c a (m : heap), (forall r, o = Some r -> a <> r) ->
    delete a (put_opt o c m) = put_opt o c (delete a m)) as Hdel.
  { intros o c a m Ho. destruct o as [r|]; [|done]. cbn. rewrite delete_insert_ne; [done|]. by apply (Ho r). }
  assert (forall a b, h !! a = Some b -> h0 !! a = Some b) as Hh.
  { destruct Hcopy as [(_ & -> & _)|(Hn & -> & _)]; [done|]. intros a b Ha. rewrite lookup_insert_ne by congruence. done. }
  assert (forall a r, h0 !! a = None -> remainder = Some r -> a <> r) as Hr1.
  { intros a r Ha Er ->. destruct (HR r Er) as [Hr _]. apply Hh in Hr. congruence. }
  assert (forall a q, h0 !! a = None -> quotient = Some q -> a <> q) as Hq1.
  { intros a q Ha Eq ->. destruct (HQ q Eq) as [Hq _]. apply Hh in Hq. congruence. }
  erewrite bind_Done; [|eapply mpfree_Done; [rewrite Hlk by eauto; apply lookup_insert_eq|done]].
  rewrite Hdel by eauto. rewrite delete_insert_id
    by (rewrite lookup_insert_ne by done; rewrite Hlk by eauto; done).
  erewrite bind_Done; [|eapply mpfree_Done; [rewrite Hlk by eauto; apply lookup_insert_eq|done]].
  rewrite Hdel by eauto. rewrite delete_insert_id by (rewrite Hlk by eauto; done).
  destruct Hcopy as [(-> & -> & _)|(Hn & -> & StV)].
  - by rewrite Z.eqb_refl.
  - destruct (Z.eqb_spec v divisor) as [->|_]; [congruence|].
    assert (forall r, remainder = Some r -> v <> r) as Hr2 by (intros r Er ->; destruct (HR r Er); congruence).
    assert (forall q, quotient = Some q -> v <> q) as Hq2 by (intros q Eq ->; destruct (HQ q Eq); congruence).
    erewrite mpfree_Done; [|rewrite !Hlk by done; apply lookup_insert_eq|done].
    do 2 rewrite Hdel by done. by rewrite delete_insert_id.
Qed.

(** Division of a number by a smaller one. *)
Lemma div_big :
  exists Q2 R2, mpdiv dividend divisor quotient remainder h = Done tt (put_opt remainder R2 (put_opt quotient Q2 h)) /\
    (forall q, quotient = Some q ->
       trimmed Q2 /\ mag Q2 = mag x / mag y /\ mp_sign Q2 = qsign /\ mp_static Q2 = mp_static Q) /\
    (forall r, remainder = Some r ->
       trimmed R2 /\ mag R2 = mag x mod mag y /\ mp_sign R2 = rsign /\ mp_static R2 = mp_static R).
Proof using All.
  destruct (normalise y Ty Hy0) as (d & s & Ed & Es & Hs & Hnorm).
  destruct (mpmagcmp_ok h dividend divisor x y Hx Tx Hy Ty) as (c & Ec & Hc).
  assert (mag y <> 0) as My0 by (intros E; apply (mag_zero y Ty) in E; done). pose proof (mag_range y (proj1 Ty)) as My.
  unfold mpdiv. mrun. destruct (Nat.eqb_spec (mp_top y) 0); [done|]. erewrite bind_Done; [|exact Ec].
  destruct (Z.ltb_spec c 0); [lia|]. mrun. rewrite Es.
  destruct (div_copies_ok s Hs Hnorm) as (u & v & U & V & h0 & E0 & Hu & Hv & Hcopy & TU & MU & SU & StU & LU & TV & MV).
  erewrite bind_Done; [|exact E0]. destruct (Hnorm V TV MV) as [HV HtV].
  assert (forall a b, h !! a = Some b -> h0 !! a = Some b) as Hh.
  { destruct Hcopy as [(_ & -> & _)|(Hn & -> & _)]; [done|]. intros a b Ha. by rewrite lookup_insert_ne by congruence. }
  assert (forall q, quotient = Some q -> q <> v) as Hqv.
  { destruct Hcopy as [(-> & _ & Hq & _)|(Hn & _)]; [congruence|]. intros q Eq ->. destruct (HQ v Eq). congruence. }
  assert (mag V <= mag U) as HleU by (rewrite MU, MV; apply Z.mul_le_mono_nonneg_r; lia).
  destruct (div_main_ok h0 u v quotient U V Q) as (t & T & U' & Q1 & E1 & Ht & Htu & StT & RU' & TU' & MU' & SU' & StU' & HQ1);
    [done|done|done|apply TV|done|by apply mag_top|by eapply div_room| |].
  { intros q Eq. destruct (HQ q Eq) as [Hq RQ]. auto. }
  erewrite bind_Done; [|exact E1].
  rewrite MU, MV in MU', HQ1. rewrite Z.mul_mod_distr_r in MU' by lia. rewrite Z.div_mul_cancel_r in HQ1 by lia.
  set (hv := <[t := T]> (<[u := U']> (put_opt quotient Q1 h0))).
  assert (forall a, (exists b, h0 !! a = Some b) -> forall Qa, <[t := T]> (<[u := U']> (put_opt quotient Qa h0)) !! a = put_opt quotient Qa h0 !! a) as Hlk.
  { intros a [b Ha] Qa. by rewrite !lookup_insert_ne by congruence. }
  destruct (div_quotient_ok hv h0 u t Q1) as (Q2 & E2 & HQ2); [done|done|done| |intros a Ha; by apply Hlk|].
  { intros q Eq. destruct (HQ1 q Eq) as (RQ1 & MQ1 & SQ1 & StQ1). parts; try done. rewrite MQ1.
    assert (1 <= mag x / mag y) by (apply Z.div_le_lower_bound; lia). lia. }
  assert (put_opt quotient Q2 hv = <[t := T]> (<[u := U']> (put_opt quotient Q2 h0))) as Ehv.
  { unfold hv. destruct quotient as [q|]; [|done]. cbn [put_opt]. destruct (HQ q eq_refl) as [Hq _]. apply Hh in Hq.
    apply map_eq. intros k. rewrite !lookup_insert. repeat case_decide; done || congruence. }
  unfold div_results. erewrite bind_Done; [|exact E2]. rewrite Ehv.
  destruct (div_remainder_ok (<[t := T]> (<[u := U']> (put_opt quotient Q2 h0))) u s U' Q2) as (R2 & E3 & HR2);
    [rewrite lookup_insert_ne by done; apply lookup_insert_eq|done|lia|done|congruence|done|intros q Eq; apply (HQ2 q Eq)| |].
  { intros a [b Ha]. rewrite Hlk by eauto. destruct quotient as [q|]; cbn [put_opt]; rewrite ?lookup_insert; [case_decide; [done|]|];
      by rewrite Ha, (Hh _ _ Ha). }
  erewrite bind_Done; [|exact E3]. rewrite (div_free_ok h0 u v t U' V T Q2 R2) by (done || congruence).
  exists Q2, R2. split; [done|]. split; [|done]. intros q Eq. destruct (HQ2 q Eq) as (T2 & M2 & S2 & St2).
  destruct (HQ1 q Eq) as (_ & MQ1 & _). parts; try done. congruence.
Qed.
End division.

(** ** Quotients and remainders *)

Lemma signs_quot x y :
  normal x -> normal y -> mpval y <> 0 ->
  Z.quot (mpval x) (mpval y) = (if mp_sign x =? mp_sign y then 1 else -1) * (mag x / mag y) /\
  Z.rem (mpval x) (mpval y) = mp_sign x * (mag x mod mag y).
Proof.
  intros Nx Ny Hy. destruct (normal_mag x Nx) as [Mx Sx]. destruct (normal_mag y Ny) as [My Sy].
  rewrite Z.quot_div, Z.rem_mod, <- Mx, <- My by done. rewrite Sx, Sy.
  destruct (Z.eq_dec (mpval x) 0) as [E|Hx].
  - rewrite E in *. rewrite Mx. change (Z.abs 0) with 0. rewrite Z.div_0_l, Z.mod_0_l by lia. lia.
  - destruct (Z.ltb_spec (mpval x) 0), (Z.ltb_spec (mpval y) 0); cbn [Z.eqb Pos.eqb];
      rewrite ?(Z.sgn_neg (mpval x)), ?(Z.sgn_pos (mpval x)), ?(Z.sgn_neg (mpval y)), ?(Z.sgn_pos (mpval y)) by lia; lia.
Qed.

(** A dividend smaller than the divisor. *)
Lemma div_small h (dividend divisor : Z) quotient remainder x y Q R :
  h !! dividend = Some x -> trimmed x -> h !! divisor = Some y -> trimmed y -> mag x < mag y ->
  h !! mpzero = Some _mpzero -> remainder <> Some mpzero ->
  (forall q, quotient = Some q -> h !! q = Some Q /\ raw Q /\ remainder <> Some q) ->
  (forall r, remainder = Some r -> h !! r = Some R /\ raw R) ->
  exists Q2 R2, mpdiv dividend divisor quotient remainder h = Done tt (put_opt remainder R2 (put_opt quotient Q2 h)) /\
    (forall q, quotient = Some q -> normal Q2 /\ mpval Q2 = 0) /\
    (forall r, remainder = Some r ->
       trimmed R2 /\ mag R2 = mag x /\ mp_sign R2 = mp_sign x /\ mp_static R2 = mp_static R).
Proof.
  intros Hx Tx Hy Ty Hlt Hz Hrz HQ HR. pose proof (mag_range x (proj1 Tx)) as Mx.
  destruct (mpmagcmp_ok h dividend divisor x y Hx Tx Hy Ty) as (c & Ec & Hc).
  unfold mpdiv. mrun. destruct (Nat.eqb_spec (mp_top y) 0) as [E|_].
  { apply (mag_zero y Ty) in E. lia. }
  erewrite bind_Done; [|exact Ec]. destruct (Z.ltb_spec c 0); [|lia].
  assert (exists R2, when remainder (mpassign dividend) h = Done tt (put_opt remainder R2 h) /\
    (forall r, remainder = Some r ->
       trimmed R2 /\ mag R2 = mag x /\ mp_sign R2 = mp_sign x /\ mp_static R2 = mp_static R)) as (R2 & ER & HR2).
  { destruct remainder as [r|]; [|by exists R]. destruct (HR r eq_refl) as [Hr RR].
    destruct (mpassign_trimmed h dividend r x R Hx Tx Hr RR) as (R2 & E & T2 & S2 & _ & M2 & St2 & _). by exists R2. }
  erewrite bind_Done; [|exact ER]. destruct quotient as [q|]; [|by exists Q, R2]. cbn [when put_opt].
  destruct (HQ q eq_refl) as (Hq & RQ & Hrq).
  destruct (mpassign_trimmed (put_opt remainder R2 h) mpzero q _mpzero Q) as (Q2 & E & T2 & S2 & Ht2 & M2 & _).
  1,3: destruct remainder as [r|]; cbn [put_opt]; [rewrite lookup_insert_ne by congruence|]; done.
  1: by_decide. 1: done.
  exists Q2, R2. rewrite E. split; [|split; [|done]].
  - f_equal. destruct remainder as [r|]; cbn [put_opt]; [|done]. rewrite insert_insert_ne by congruence. done.
  - intros _ _. split; [split; [exact T2|]; rewrite S2; by split; [left|]|]. unfold mpval. rewrite M2. cbn. lia.
Qed.

Section quotients.
Context (h : heap) (b m q r : Z) (x y Q R : mpint).
Hypotheses (Hx : h !! b = Some x) (Nx : normal x) (Hy : h !! m = Some y) (Ny : normal y) (Hy0 : mpval y <> 0)
  (HR : h !! r = Some R) (RR : raw R) (Hz : h !! mpzero = Some _mpzero) (Hrz : r <> mpzero).

Local Lemma divisor_digits : mp_top y <> 0%nat.
Proof using Ny Hy0.
  intros E. apply (mag_zero y (proj1 Ny)) in E. unfold mpval in Hy0. rewrite E in Hy0. lia.
Qed.

(** C6: [mpdiv] of a normal form by one that is not zero, into a quotient whose object has the sign 1
    and a remainder, makes the quotient and the remainder of the division that rounds towards
    zero, changes nothing else and frees all it allocated. The results are different objects and
    not the constant zero; they may be operands, but the quotient may be in the place of the
    dividend only if the divisor is positive. A negative dividend that is a multiple of the
    divisor leaves a remainder of zero with a negative sign, which is not a normal form. *)
Theorem mpdiv_correct :
  h !! q = Some Q -> raw Q -> mp_sign Q = 1 -> q <> r -> (q = b -> 0 < mpval y) ->
  exists c d, mpdiv b m (Some q) (Some r) h = Done tt (<[r := d]> (<[q := c]> h)) /\
    normal c /\ mpval c = Z.quot (mpval x) (mpval y) /\
    trimmed d /\ mpval d = Z.rem (mpval x) (mpval y) /\ (0 <= mpval x \/ mpval d <> 0 -> normal d).
Proof using All.
  intros HQ RQ SQ Hqr Hqb. pose proof divisor_digits as Ht. destruct (signs_quot x y Nx Ny Hy0) as [-> ->].
  pose proof Nx as (Tx & Sx & _). pose proof Ny as (Ty & Sy & _).
  pose proof (mag_range x (proj1 Tx)) as Mx. pose proof (mag_range y (proj1 Ty)) as My.
  destruct (normal_mag x Nx) as [Ax Bx]. destruct (normal_mag y Ny) as [Ay By].
  destruct (Z.le_gt_cases (mag y) (mag x)) as [Hle|Hgt].
  - destruct (div_big h b m (Some q) (Some r) x y Q R) as (c & d & E & Hc & Hd); try done; try congruence.
    1,2: by intros ? [= <-].
    destruct (Hc q eq_refl) as (Tc & Mc & Sc & _). destruct (Hd r eq_refl) as (Td & Md & Sd & _).
    rewrite SQ in Sc, Sd. assert (mp_sign d = mp_sign x \/ mp_sign d = 1 /\ mag d = 0) as Hs.
    { rewrite Sd, Md. case_bool_decide; [bcase; tauto|]. case_bool_decide as Hb; [|by left].
      injection Hb as ->. assert (x = Q) as -> by congruence. specialize (Hqb eq_refl). bcase; lia. }
    exists c, d. split; [done|]. assert (1 <= mag x / mag y) by (apply Z.div_le_lower_bound; lia).
    assert (mp_top c <> 0%nat) by (intros E0; apply (mag_zero c Tc) in E0; lia).
    parts; [split; [exact Tc|]|unfold mpval; by rewrite Sc, Mc|exact Td| |].
    + rewrite Sc. split; [bcase; lia|done].
    + unfold mpval. rewrite <- Md. destruct Hs as [->|[-> ->]]; lia.
    + intros Hn. split; [exact Td|]. split; [lia|]. intros E0. apply (mag_zero d Td) in E0.
      unfold mpval in Hn. rewrite E0 in Hn. destruct Hs as [->|[-> _]]; [|done]. rewrite Bx. bcase; unfold mpval in *; lia.
  - destruct (div_small h b m (Some q) (Some r) x y Q R) as (c & d & E & Hc & Hd); try done; try congruence.
    1: intros ? [= <-]; parts; congruence. 1: by intros ? [= <-].
    destruct (Hc q eq_refl) as (Nc & Vc). destruct (Hd r eq_refl) as (Td & Md & Sd & St).
    rewrite Z.div_small, Z.mod_small, Z.mul_0_r by lia.
    exists c, d. parts; try done; [unfold mpval; congruence|]. intros _. split; [exact Td|]. rewrite Sd. split; [done|].
    rewrite (mag_zero d Td), Md, <- (mag_zero x Tx). apply Nx.
Qed.

Lemma mpmod_ok :
  r <> m -> 0 < mpval y -> 0 <= mpval x \/ mpval x mod mpval y <> 0 ->
  exists d, mpmod b m r h = Done tt (<[r := d]> h) /\ normal d /\ mpval d = mpval x mod mpval y /\
    mp_static d = mp_static R.
Proof using Hx Nx Hy Ny Hy0 HR RR Hz Hrz.
  intros Hrm Hpos Hnm. pose proof divisor_digits as Ht.
  pose proof Nx as (Tx & Sx & Zx). pose proof Ny as (Ty & Sy & _).
  pose proof (mag_range x (proj1 Tx)) as Mx. pose proof (mag_range y (proj1 Ty)) as My.
  destruct (normal_mag x Nx) as [Ax Bx]. destruct (normal_mag y Ny) as [Ay By].
  assert (exists d, mpdiv b m None (Some r) h = Done tt (<[r := d]> h) /\ trimmed d /\ mag d = mag x mod mag y /\
    (mag d <> 0 -> mp_sign d = mp_sign x) /\ (mp_sign d = mp_sign x \/ mp_sign d = 1) /\
    mp_static d = mp_static R) as (d & E & Td & Md & Sd & Sd' & St).
  { destruct (Z.le_gt_cases (mag y) (mag x)) as [Hle|Hgt].
    - destruct (div_big h b m None (Some r) x y R R) as (c & d & E & _ & Hd); try done; [by intros ? [= <-]|].
      destruct (Hd r eq_refl) as (Td & Md & Sd & St). exists d. cbn [put_opt] in E. rewrite (bool_decide_false (None = Some b)) in Sd by done.
      rewrite <- Md in Sd. parts; try done; [intros Hd0|]; rewrite Sd; case_bool_decide; bcase; auto; lia.
    - destruct (div_small h b m None (Some r) x y R R) as (c & d & E & _ & Hd); try done; [congruence|by intros ? [= <-]|].
      destruct (Hd r eq_refl) as (Td & Md & Sd & St). exists d. rewrite Z.mod_small by lia. parts; try done. by left. }
  unfold mpmod. erewrite bind_Done; [|exact E]. mrun. rewrite Ax, Ay in Md.
  replace (Z.abs (mpval y)) with (mpval y) in * by lia. rewrite By in *.
  pose proof (Z.mod_pos_bound (mpval x) (mpval y) Hpos) as Hmod. pose proof (mag_zero d Td) as Hd0.
  destruct (Z.ltb_spec (mpval x) 0) as [Hneg|Hnn].
  - assert (Z.abs (mpval x) mod mpval y = mpval y - mpval x mod mpval y) as Em.
    { replace (Z.abs (mpval x)) with (- mpval x) by lia. rewrite Z.mod_opp_l_nz by lia. done. }
    rewrite Sd by lia. rewrite Bx. cbn [Z.ltb Z.compare]. unfold mpadd.
    erewrite bind_Done; [|apply obj_Done; rewrite lookup_insert_ne by done; exact Hy]. mrun.
    rewrite Sd by lia. rewrite By, Bx. destruct (Z.ltb_spec (mpval y) 0); [lia|]. cbn [Z.eqb negb Z.ltb Z.compare].
    destruct (mpmagsub_ok (<[r := d]> h) m r r y d d) as (b' & Eb & Nb & Vb & Sb' & _);
      [by rewrite lookup_insert_ne|done|apply lookup_insert_eq|done|apply lookup_insert_eq|apply Td|].
    rewrite Eb, insert_insert_eq. exists b'. parts; try done; [lia|congruence].
  - replace (Z.abs (mpval x)) with (mpval x) in Md by lia. assert (mp_sign d = 1) as S1 by (destruct Sd' as [->| ->]; done).
    rewrite S1. cbn [Z.ltb Z.compare]. exists d. parts; try done.
    + split; [exact Td|]. rewrite S1. by split; [left|].
    + unfold mpval at 1. rewrite S1, Md. lia.
Qed.

(** [mpmod] makes the remainder that is not negative, for a positive modulus; not so when
    a negative number is a multiple of the modulus. *)
Theorem mpmod_correct :
  r <> m -> 0 < mpval y -> 0 <= mpval x \/ mpval x mod mpval y <> 0 ->
  exists d, mpmod b m r h = Done tt (<[r := d]> h) /\ normal d /\ mpval d = mpval x mod mpval y.
Proof using Hx Nx Hy Ny Hy0 HR RR Hz Hrz.
  intros Hrm Hpos Hnm. destruct (mpmod_ok Hrm Hpos Hnm) as (d & E & N & V & _). by exists d.
Qed.
End quotients.

(** ** On numbers *)

(** The trial digit from the two highest digits is too large by two here. *)
Lemma trial_digit_terminates_witness :
  exists qd t', trial_digit ([4294967295; 2147483648] ++ []) 2 ([] ++ [0; 0; 2147483647] ++ []) 2 [7; 7; 7; 7] = Some (qd, t') /\
    val [0; 0; 2147483647] / val [4294967295; 2147483648] <= qd <= val [0; 0; 2147483647] / val [4294967295; 2147483648] + 1.
Proof.
  apply (trial_digit_terminates [4294967295; 2147483648] [] [] [0; 0; 2147483647] [] [7; 7; 7; 7]);
    first [on_numbers | unfold high_bit_set; on_numbers | by_decide].
Defined.

Lemma mpdiv_correct_witness :
  exists c d, mpdiv 11 10 (Some 12) (Some 11) ex_heap = Done tt (<[11 := d]> (<[12 := c]> ex_heap)) /\
    normal c /\ mpval c = Z.quot (1 + 3 * B) (-7000000) /\
    trimmed d /\ mpval d = Z.rem (1 + 3 * B) (-7000000) /\ (0 <= 1 + 3 * B \/ mpval d <> 0 -> normal d).
Proof. apply (mpdiv_correct ex_heap 11 10 12 11 ex_two ex_neg ex_nil ex_two); first [on_numbers | done]. Defined.

Lemma mpmod_correct_witness :
  exists d, mpmod 10 11 12 ex_heap = Done tt (<[12 := d]> ex_heap) /\ normal d /\
    mpval d = -7000000 mod (1 + 3 * B).
Proof. apply (mpmod_correct ex_heap 10 11 12 ex_neg ex_two ex_nil); first [on_numbers | done]. Defined.

(** Division by zero ends the program. *)
Theorem mpdiv_by_zero h (dividend divisor : Z) quotient remainder y :
  h !! divisor = Some y -> mp_top y = 0%nat -> mpdiv dividend divisor quotient remainder h = Stopped Abort.
Proof. intros Hy E. unfold mpdiv. mrun. by rewrite E. Qed.

(** A negative multiple of the modulus: the remainder is the modulus and not zero. *)
Theorem mpmod_negative_multiple :
  mpmod 10 11 12 {[ mpzero := _mpzero; 10 := mkMpint (-1) 1 [4] false; 11 := mkMpint 1 1 [2] false; 12 := ex_nil ]}
  = Done tt {[ mpzero := _mpzero; 10 := mkMpint (-1) 1 [4] false; 11 := mkMpint 1 1 [2] false;
               12 := mkMpint 1 1 [2] false ]}.
Proof. vm_compute. reflexivity. Qed.

(** The quotient keeps the sign its object had when the operands have the same sign: seven by two
    is minus three. *)
Theorem mpdiv_sign_kept :
  mpdiv 11 mptwo (Some 10) None {[ mpzero := _mpzero; mptwo := _mptwo; 10 := ex_neg; 11 := mkMpint 1 1 [7] false ]}
  = Done tt {[ mpzero := _mpzero; mptwo := _mptwo; 10 := mkMpint (-1) 1 [3; 0] false; 11 := mkMpint 1 1 [7] false ]}.
Proof. vm_compute. reflexivity. Qed.
