(* ===== verification/Mpconv.v ===== *)
(** * Conversions of [mpint]s to and from machine integers

    [mptoi.c], [mptoui.c], [mptov.c] and [mptouv.c]. *)

From S2P Require Import Prelude Mpvec Mpmul Mpint MpintProps Mpshift.

Implicit Types (h : heap).

(** ** Machine integers *)

Definition MAXUINT : Z := u32 (-1).
Definition MAXINT : Z := MAXUINT .>> 1.
Definition MININT : Z := u32 (MAXINT + 1).
Definition MAXUVLONG : Z := u64 (Z.lnot 0).
Definition MAXVLONG : Z := MAXUVLONG .>> 1.
Definition MINVLONG : Z := u64 (MAXVLONG + 1).

(** The object a conversion writes to: its argument, or a new one for nil. *)
Definition target (b : option Z) (n : Z) : mpm Z :=
  match b with None => mpnew n | Some b => mret b end.

(** [*b->p = d] *)
Definition set_first (b d : Z) : mpm unit :=
  x ← obj b;
  p ← lift (write_digit (mp_p x) 0 d);
  put b (x <| mp_p := p |>).

(** [-i] for a signed integer of [w] bits, which the least one has not. *)
Definition neg (w i : Z) : mpm Z := if i =? - 2 ^ (w - 1) then halt Undefined else mret (- i).

Definition itomp (i : Z) (b : option Z) : mpm Z :=
  b ← target b 0;
  mpassign mpzero b;;
  (if negb (i =? 0) then set_obj b (fun x => x <| mp_top := 1%nat |>) else mret tt);;
  (if i <? 0 then
     set_obj b (fun x => x <| mp_sign := -1 |>);;
     j ← neg 32 i;
     set_first b (u32 j)
   else set_first b (u32 i));;
  mret b.

Definition mptoi (b : Z) : mpm Z :=
  s ← obj b;
  if (mp_top s =? 0)%nat then mret 0
  else
    x ← lift (mp_p s !! 0%nat);
    if 0 <? mp_sign s then
      if (1 <? mp_top s)%nat || (MAXINT <? x) then mret (s32 MAXINT) else mret (s32 x)
    else
      if (1 <? mp_top s)%nat || (u32 (MAXINT + 1) <? x) then mret (s32 MININT)
      else neg 32 (s32 x).

Definition uitomp (i : Z) (b : option Z) : mpm Z :=
  b ← target b 0;
  mpassign mpzero b;;
  (if negb (i =? 0) then set_obj b (fun x => x <| mp_top := 1%nat |>) else mret tt);;
  set_first b (u32 i);;
  mret b.

(** The first digit is read also when there is none. *)
Definition mptoui (b : Z) : mpm Z :=
  s ← obj b;
  x ← lift (mp_p s !! 0%nat);
  if mp_sign s <? 0 then mret 0
  else if (1 <? mp_top s)%nat || (MAXUINT <? x) then mret MAXUINT else mret x.

Definition VLDIGITS : nat := 2.

(** The loop of [vtomp] and [uvtomp]: the digits of [uv] from position [s] on, [n] at most. *)
Fixpoint vl_digits (n s : nat) (uv : Z) (p : list Z) : option (list Z * nat) :=
  match n with
  | O => Some (p, s)
  | S n =>
      if uv =? 0 then Some (p, s)
      else
        p ← write_digit p s (u32 uv);
        vl_digits n (S s) ((uv .>> 16) .>> 16) p
  end.

(** The number given to [mpnew] and [mpbits] is a number of bytes. *)
Definition vl_target (b : option Z) : mpm Z :=
  b ← match b with
      | None => mpnew (Z.of_nat VLDIGITS * 4)
      | Some b => mpbits b (Z.of_nat VLDIGITS * 4);; mret b
      end;
  mpassign mpzero b;;
  mret b.

Definition vl_store (b uv : Z) : mpm unit :=
  x ← obj b;
  '(p, s) ← lift (vl_digits VLDIGITS 0 uv (mp_p x));
  put b (x <| mp_p := p |> <| mp_top := s |>).

Definition vtomp (v : Z) (b : option Z) : mpm Z :=
  b ← vl_target b;
  if v =? 0 then mret b
  else
    uv ← (if v <? 0 then
            set_obj b (fun x => x <| mp_sign := -1 |>);;
            j ← neg 64 v;
            mret (u64 j)
          else mret (u64 v));
    vl_store b uv;;
    mret b.

Definition uvtomp (v : Z) (b : option Z) : mpm Z :=
  b ← vl_target b;
  if v =? 0 then mret b
  else
    vl_store b v;;
    mret b.

(** [d << n] on digits, defined for less than their number of bits. *)
Definition shift_digit (d n : Z) : mpm Z := if n <? 32 then mret (u32 (d .<< n)) else halt Undefined.

Fixpoint mptov_loop (n s : nat) (p : list Z) (v : Z) : mpm Z :=
  match n with
  | O => mret v
  | S n =>
      d ← lift (p !! s);
      w ← shift_digit d (Z.of_nat s * 4 * 8);
      mptov_loop n (S s) p (v .| w)
  end.

Definition mptov (b : Z) : mpm Z :=
  x ← obj b;
  if (mp_top x =? 0)%nat then mret 0
  else
    mpnorm b;;
    x ← obj b;
    if (VLDIGITS <? mp_top x)%nat then
      mret (if 0 <? mp_sign x then s64 MAXVLONG else s64 MINVLONG)
    else
      v ← mptov_loop (mp_top x) 0 (mp_p x) 0;
      if 0 <? mp_sign x then mret (s64 (if MAXVLONG <? v then MAXVLONG else v))
      else if MINVLONG <? v then mret (s64 MINVLONG)
      else neg 64 (s64 v).

Fixpoint mptouv_loop (n s : nat) (p : list Z) (v : Z) : option Z :=
  match n with
  | O => Some v
  | S n =>
      d ← p !! s;
      mptouv_loop n (S s) p (v .| u64 (d .<< (Z.of_nat s * 4 * 8)))
  end.

Definition mptouv (b : Z) : mpm Z :=
  x ← obj b;
  if (mp_top x =? 0)%nat then mret 0
  else
    mpnorm b;;
    x ← obj b;
    if (VLDIGITS <? mp_top x)%nat then mret MAXVLONG
    else lift (mptouv_loop (mp_top x) 0 (mp_p x) 0).

(** ** The object before it gets its digits *)

Lemma mpzero_ok : trimmed _mpzero.
Proof. by_decide. Qed.

(** [mpassign(mpzero, b)] *)
Lemma assign_zero h (b : Z) s :
  h !! mpzero = Some _mpzero -> h !! b = Some s -> raw s ->
  exists c, mpassign mpzero b h = Done tt (<[b := c]> h) /\ raw c /\ mp_sign c = 1 /\ mp_top c = 0%nat /\
    (length (mp_p s) <= length (mp_p c))%nat.
Proof.
  intros Hz Hs Rs. destruct (mpassign_trimmed h mpzero b _mpzero s Hz mpzero_ok Hs Rs) as (c & E & [Rc _] & Sc & Tc & _ & _ & Lc).
  by exists c.
Qed.

(** The normal form of a number below the base, from the object that holds its only digit. *)
Lemma one_digit c p d t :
  raw c -> in_u 32 d -> (t = 0%nat /\ d = 0 \/ t = 1%nat /\ d <> 0) -> write_digit (mp_p c) 0 d = Some p ->
  let b := c <| mp_p := p |> <| mp_top := t |> in trimmed b /\ mag b = d.
Proof.
  intros (Dc & _ & Pc) Hd Ht Ew b. destruct (mp_p c) as [|x l] eqn:Ep; [cbn in Pc; lia|].
  unfold write_digit in Ew. cbn in Ew. injection Ew as <-. inversion_clear Dc as [|? ? _ Dl].
  assert (mag b = d) as Mb.
  { change (val (take t (d :: l)) = d). destruct Ht as [[-> ->]|[-> _]]; [done|]. cbn [take val]. rewrite take_0. cbn [val]. lia. }
  assert (raw b) as Rb.
  { split_and!; [constructor; done| |cbn; lia]. change (t <= length (d :: l))%nat. cbn [length]. lia. }
  split; [split; [exact Rb|]|exact Mb]. change (mp_top b) with t. rewrite Mb.
  destruct Ht as [[-> _]|[-> Hd0]]; [by left|]. right. change (B ^ (Z.of_nat 1 - 1)) with 1. unfold in_u in Hd. lia.
Qed.

Lemma set_first_ok h (b : Z) s d :
  h !! b = Some s -> raw s ->
  exists p, write_digit (mp_p s) 0 d = Some p /\ set_first b d h = Done tt (<[b := s <| mp_p := p |>]> h).
Proof.
  intros Hs (_ & _ & Ps). unfold set_first, write_digit. mrun.
  destruct (Nat.ltb_spec 0 (length (mp_p s))); [|lia]. eexists. split; [reflexivity|]. mrun. done.
Qed.

(** The digit of a number of one digit. *)
Lemma first_digit x :
  normal x -> exists d, mp_p x !! 0%nat = Some d /\ in_u 32 d /\
    (mp_top x = 0%nat -> mag x = 0) /\ (mp_top x = 1%nat -> mag x = d /\ d <> 0) /\
    ((1 < mp_top x)%nat -> B <= mag x).
Proof.
  intros ([(Dx & Lx & Px) Tx] & _). destruct (mp_p x) as [|d l] eqn:Ep; [cbn in Px; lia|].
  inversion_clear Dx as [|? ? Hd Dl]. exists d. unfold mag, digits in *. rewrite Ep in *. split; [done|]. split; [exact Hd|].
  split_and!.
  - intros ->. by rewrite take_0.
  - intros E. rewrite E in *. cbn [take val] in *. rewrite take_0 in *. cbn [val] in *.
    change (B ^ (Z.of_nat 1 - 1)) with 1 in Tx. destruct Tx as [|Tx]; [done|]. lia.
  - intros H1. destruct Tx as [|Tx]; [lia|]. etransitivity; [|exact Tx].
    rewrite <- (Z.pow_1_r B) at 1. apply Z.pow_le_mono_r; lia.
Qed.

(** ** Machine integers and numbers *)

Section int.
Context (h : heap) (b : Z) (s : mpint).
Hypotheses (Hz : h !! mpzero = Some _mpzero) (Hs : h !! b = Some s) (Rs : raw s).

Lemma itomp_ok i :
  in_s 32 i -> i <> - 2 ^ 31 ->
  exists c, itomp i (Some b) h = Done b (<[b := c]> h) /\ normal c /\ mpval c = i.
Proof using Hz Hs Rs.
  intros Hi Hmin. unfold in_s in Hi. change (2 ^ (32 - 1)) with (2 ^ 31) in Hi.
  destruct (assign_zero h b s Hz Hs Rs) as (c & E & Rc & Sc & Tc & _).
  set (d := Z.abs i). assert (in_u 32 d) as Hd by (unfold in_u, d; lia).
  set (t := if i =? 0 then 0%nat else 1%nat).
  unfold itomp, target. erewrite bind_Done; [|reflexivity]. erewrite bind_Done; [|exact E].
  set (c1 := c <| mp_top := t |>).
  assert ((if negb (i =? 0) then set_obj b (fun x => x <| mp_top := 1%nat |>) else mret tt) (<[b := c]> h)
    = Done tt (<[b := c1]> h)) as E1.
  { unfold c1, t. destruct (i =? 0); cbn [negb].
    - cbn [mret mpm_ret]. do 2 f_equal. rewrite <- Tc. done.
    - erewrite set_obj_Done; [|apply lookup_insert_eq]. by rewrite insert_insert_eq. }
  erewrite bind_Done; [|exact E1].
  assert (raw c1) as R1.
  { destruct Rc as (? & ? & ?). split_and!; [done| |done]. change (t <= length (mp_p c))%nat. unfold t. destruct (i =? 0); lia. }
  set (c2 := c1 <| mp_sign := if i <? 0 then -1 else 1 |>).
  assert (raw c2) as R2 by exact R1.
  destruct (set_first_ok (<[b := c2]> h) b c2 d (lookup_insert_eq _ _ _) R2) as (p & Ep & E3).
  rewrite insert_insert_eq in E3.
  assert ((if i <? 0 then set_obj b (fun x => x <| mp_sign := -1 |>);; j ← neg 32 i; set_first b (u32 j)
           else set_first b (u32 i)) (<[b := c1]> h) = Done tt (<[b := c2 <| mp_p := p |>]> h)) as E2.
  { rewrite <- E3. unfold c2, d. destruct (Z.ltb_spec i 0).
    - erewrite bind_Done; [|apply set_obj_Done, lookup_insert_eq]. rewrite insert_insert_eq. unfold neg.
      destruct (Z.eqb_spec i (- 2 ^ (32 - 1))); [done|]. erewrite bind_Done; [|reflexivity].
      by rewrite wrap_small, Z.abs_neq by (unfold in_u; lia).
    - rewrite wrap_small, Z.abs_eq by (unfold in_u; lia). do 2 f_equal. unfold c1. rewrite <- Sc. done. }
  erewrite bind_Done; [|exact E2]. eexists. split; [reflexivity|].
  destruct (one_digit c p d t Rc Hd) as [Tb Mb]; [unfold t, d; destruct (Z.eqb_spec i 0); [left|right]; lia|exact Ep|].
  destruct (signed _ (if i <? 0 then -1 else 1) Tb) as [Nb Vb]; [destruct (i <? 0); lia|rewrite Mb; unfold d; destruct (Z.ltb_spec i 0); lia|].
  split; [exact Nb|]. etransitivity; [exact Vb|]. rewrite Mb. unfold d. destruct (Z.ltb_spec i 0); lia.
Qed.
End int.

(** The nearest number of a range. *)
Definition clamp (lo hi v : Z) : Z := Z.max lo (Z.min hi v).

Lemma mptoi_ok h (b : Z) x :
  h !! b = Some x -> normal x -> mpval x <> - 2 ^ 31 ->
  mptoi b h = Done (clamp (- 2 ^ 31) (2 ^ 31 - 1) (mpval x)) h.
Proof.
  intros Hx Nx Hmin. destruct (first_digit x Nx) as (d & Ed & Hd & H0 & H1 & H2). destruct (normal_mag x Nx) as [Mx Sx].
  unfold mptoi. mrun. unfold in_u in Hd. destruct (Nat.eqb_spec (mp_top x) 0) as [E|Hne].
  { specialize (H0 E). unfold mpval. rewrite H0, Z.mul_0_r. done. }
  mrun. change MAXINT with (2 ^ 31 - 1). change (u32 (2 ^ 31 - 1 + 1)) with (2 ^ 31).
  change (s32 (2 ^ 31 - 1)) with (2 ^ 31 - 1). change (s32 MININT) with (- 2 ^ 31).
  unfold clamp, neg. change (2 ^ (32 - 1)) with (2 ^ 31). rewrite Sx.
  destruct (Nat.ltb_spec 1 (mp_top x)) as [Ht|Ht]; cbn [orb].
  - specialize (H2 Ht). destruct (Z.ltb_spec (mpval x) 0); cbn [Z.ltb Z.compare]; unfold mret, mpm_ret; f_equal; lia.
  - destruct (H1 ltac:(lia)) as [Md Hd0]. destruct (Z.ltb_spec (mpval x) 0); cbn [Z.ltb Z.compare].
    + destruct (Z.ltb_spec (2 ^ 31) d); [unfold mret, mpm_ret; f_equal; lia|].
      rewrite swrap_small by (unfold in_s; change (2 ^ (32 - 1)) with (2 ^ 31); lia || lia).
      destruct (Z.eqb_spec d (- 2 ^ 31)); [lia|]. unfold mret, mpm_ret. f_equal. lia.
    + destruct (Z.ltb_spec (2 ^ 31 - 1) d); unfold mret, mpm_ret; f_equal; [lia|].
      rewrite swrap_small by (unfold in_s; change (2 ^ (32 - 1)) with (2 ^ 31); lia). lia.
Qed.

(** [mpnorm] leaves a normal form alone. *)
Lemma mpnorm_normal h (b : Z) x : h !! b = Some x -> normal x -> mpnorm b h = Done tt h.
Proof.
  intros Hx ([Rx Tx] & _ & Zx). pose proof Rx as (Dx & Lx & _). unfold mpnorm. mrun.
  destruct (norm_top_ok (mp_p x) (mp_top x) Dx Lx) as (k & E & Hk & Vk & _). mrun.
  assert (k = mp_top x) as ->.
  { destruct Tx as [E0|Tx]; [lia|]. unfold mag, digits in Tx. rewrite <- Vk in Tx.
    pose proof (val_range (take k (mp_p x)) ltac:(by apply Forall_take)) as Hr. rewrite length_take, Nat.min_l in Hr by lia.
    assert (Z.of_nat (mp_top x) - 1 < Z.of_nat k) by (apply (Z.pow_lt_mono_r_iff B); lia). lia. }
  unfold put. f_equal. apply insert_id. rewrite Hx. f_equal.
  destruct (Nat.eqb_spec (mp_top x) 0) as [E0|]; [|done]. rewrite <- (Zx E0). done.
Qed.

Lemma mptoui_ok h (b : Z) x :
  h !! b = Some x -> normal x -> mp_top x <> 0%nat ->
  mptoui b h = Done (clamp 0 (2 ^ 32 - 1) (mpval x)) h.
Proof.
  intros Hx Nx Hne. destruct (first_digit x Nx) as (d & Ed & Hd & _ & H1 & H2). destruct (normal_mag x Nx) as [Mx Sx].
  unfold mptoui. do 2 mrun. change MAXUINT with (2 ^ 32 - 1). unfold in_u in Hd. rewrite Sx. unfold clamp, mret, mpm_ret.
  destruct (Z.ltb_spec (mpval x) 0); cbn [Z.ltb Z.compare]; [f_equal; lia|].
  destruct (Nat.ltb_spec 1 (mp_top x)) as [Ht|Ht]; cbn [orb].
  - specialize (H2 Ht). f_equal. lia.
  - destruct (H1 ltac:(lia)) as [Md _]. destruct (Z.ltb_spec (2 ^ 32 - 1) d); f_equal; lia.
Qed.

Lemma uitomp_ok h (b : Z) s i :
  h !! mpzero = Some _mpzero -> h !! b = Some s -> raw s -> in_u 32 i ->
  exists c, uitomp i (Some b) h = Done b (<[b := c]> h) /\ normal c /\ mpval c = i /\ mp_p c !! 0%nat = Some i.
Proof.
  intros Hz Hs Rs Hi. destruct (assign_zero h b s Hz Hs Rs) as (c & E & Rc & Sc & Tc & _).
  set (t := if i =? 0 then 0%nat else 1%nat). set (c1 := c <| mp_top := t |>).
  unfold uitomp, target. erewrite bind_Done; [|reflexivity]. erewrite bind_Done; [|exact E].
  assert ((if negb (i =? 0) then set_obj b (fun x => x <| mp_top := 1%nat |>) else mret tt) (<[b := c]> h)
    = Done tt (<[b := c1]> h)) as E1.
  { unfold c1, t. destruct (i =? 0); cbn [negb].
    - cbn [mret mpm_ret]. do 2 f_equal. rewrite <- Tc. done.
    - erewrite set_obj_Done; [|apply lookup_insert_eq]. by rewrite insert_insert_eq. }
  erewrite bind_Done; [|exact E1].
  assert (raw c1) as R1.
  { destruct Rc as (? & ? & ?). split_and!; [done| |done]. change (t <= length (mp_p c))%nat. unfold t. destruct (i =? 0); lia. }
  rewrite wrap_small by done.
  destruct (set_first_ok (<[b := c1]> h) b c1 i (lookup_insert_eq _ _ _) R1) as (p & Ep & E3).
  rewrite insert_insert_eq in E3. erewrite bind_Done; [|exact E3]. eexists. split; [reflexivity|].
  destruct (one_digit c p i t Rc Hi) as [Tb Mb]; [unfold t; destruct (Z.eqb_spec i 0); [left|right]; lia|exact Ep|].
  destruct (signed _ 1 Tb) as [Nb Vb]; [lia|done|]. rewrite <- Sc in Nb, Vb.
  split; [exact Nb|]. split; [etransitivity; [exact Vb|]; rewrite Mb, Sc; lia|].
  change (p !! 0%nat = Some i). unfold write_digit in Ep. destruct (Nat.ltb_spec 0 (length (mp_p c1))); [|done].
  injection Ep as <-. by apply list_lookup_insert_eq.
Qed.

(** ** Long integers *)

Lemma vl_target_ok h (b : Z) s :
  h !! mpzero = Some _mpzero -> h !! b = Some s -> raw s -> b <> mpzero ->
  exists c, vl_target (Some b) h = Done b (<[b := c]> h) /\ raw c /\ mp_sign c = 1 /\ mp_top c = 0%nat /\
    (length (mp_p s) <= length (mp_p c))%nat.
Proof.
  intros Hz Hs Rs Hbz. destruct (with_bits_ok (Z.of_nat VLDIGITS * 4) s Rs) as (Rw & _ & _ & Lw & _).
  set (w := with_bits _ s) in *.
  destruct (assign_zero (<[b := w]> h) b w) as (c & E & Rc & Sc & Tc & Lc);
    [by rewrite lookup_insert_ne|apply lookup_insert_eq|done|].
  unfold vl_target, mpbits. erewrite bind_Done; [|erewrite bind_Done; [reflexivity|by apply set_obj_Done]].
  rewrite insert_insert_eq in E. erewrite bind_Done; [|exact E]. exists c. parts; try done. lia.
Qed.

Lemma vl_store_ok h (b : Z) c v :
  h !! b = Some c -> raw c -> (2 <= length (mp_p c))%nat -> 0 < v < 2 ^ 64 ->
  exists p t, vl_store b v h = Done tt (<[b := c <| mp_p := p |> <| mp_top := t |>]> h) /\
    trimmed (c <| mp_p := p |> <| mp_top := t |>) /\ mag (c <| mp_p := p |> <| mp_top := t |>) = v.
Proof.
  intros Hc (Dc & _ & _) Lc Hv. unfold vl_store. mrun. destruct (mp_p c) as [|x0 [|x1 l]] eqn:Ep; [cbn in Lc; lia..|].
  inversion_clear Dc as [|? ? Hx0 Dc']. inversion_clear Dc' as [|? ? Hx1 Dl].
  cbn [vl_digits VLDIGITS]. destruct (Z.eqb_spec v 0); [lia|]. unfold write_digit. cbn [length Nat.ltb Nat.leb mbind option_bind].
  rewrite !shiftr_div, Z.div_div by lia. change (2 ^ 16 * 2 ^ 16) with B.
  assert (in_u 32 (u32 v)) as Hw by (by apply wrap_range). pose proof (Z.div_mod v B ltac:(lia)) as Ev.
  destruct (Z.eqb_spec (v / B) 0) as [E0|Hne].
  - erewrite bind_Done; [|reflexivity]. exists (u32 v :: x1 :: l), 1%nat. split; [done|]. set (b' := _ <| mp_top := 1%nat |>).
    assert (u32 v = v) as Eu by (unfold wrap; lia).
    assert (mag b' = v) as Mb by (change (u32 v + B * 0 = v); lia).
    split; [|exact Mb]. split; [split_and!; [constructor; [exact Hw|constructor; [exact Hx1|exact Dl]]|cbn; lia|cbn; lia]|]. right. rewrite Mb.
    change (1 <= v). lia.
  - assert (in_u 32 (v / B)) as Hq by (split; [apply Z.div_pos; lia|apply Z.div_lt_upper_bound; lia]).
    cbn [length Nat.ltb Nat.leb mbind option_bind insert list_insert]. rewrite (wrap_small 32 (v / B)) by done.
    erewrite bind_Done; [|reflexivity].
    exists (u32 v :: v / B :: l), 2%nat. split; [done|]. set (b' := _ <| mp_top := 2%nat |>).
    assert (mag b' = v) as Mb.
    { change (u32 v + B * (v / B + B * 0) = v). unfold wrap. lia. }
    split; [|exact Mb]. split; [split_and!; [constructor; [exact Hw|constructor; [exact Hq|exact Dl]]|cbn; lia|cbn; lia]|]. right. rewrite Mb.
    change (B <= v). unfold in_u in Hq. pose proof (Z.mod_pos_bound v B ltac:(lia)). lia.
Qed.

Lemma uvtomp_ok h (b : Z) s v :
  h !! mpzero = Some _mpzero -> h !! b = Some s -> raw s -> b <> mpzero -> (2 <= length (mp_p s))%nat -> in_u 64 v ->
  exists c, uvtomp v (Some b) h = Done b (<[b := c]> h) /\ normal c /\ mpval c = v.
Proof.
  intros Hz Hs Rs Hbz Ls Hv. destruct (vl_target_ok h b s Hz Hs Rs Hbz) as (c & E & Rc & Sc & Tc & Lc).
  unfold uvtomp. erewrite bind_Done; [|exact E]. unfold in_u in Hv. destruct (Z.eqb_spec v 0) as [->|Hne].
  - exists c. split; [done|]. assert (mag c = 0) as Mc by (unfold mag, digits; by rewrite Tc, take_0).
    split; [|unfold mpval; rewrite Mc; lia]. split; [split; [exact Rc|by left]|]. rewrite Sc. by split; [left|].
  - destruct (vl_store_ok (<[b := c]> h) b c v) as (p & t & E2 & Tb & Mb); [apply lookup_insert_eq|done|lia|lia|].
    erewrite bind_Done; [|exact E2]. rewrite insert_insert_eq. eexists. split; [reflexivity|].
    destruct (signed _ 1 Tb) as [Nb Vb]; [by left|done|]. rewrite <- Sc in Nb, Vb.
    split; [exact Nb|]. etransitivity; [exact Vb|]. rewrite Mb, Sc. lia.
Qed.

(** The two lowest digits. *)
Lemma two_digits x :
  raw x -> mp_top x = 2%nat -> exists d0 d1, in_u 32 d0 /\ in_u 32 d1 /\ mp_p x !! 0%nat = Some d0 /\
    mp_p x !! 1%nat = Some d1 /\ mag x = d0 + B * d1.
Proof.
  intros (Dx & Lx & _) E. rewrite E in Lx. unfold mag, digits. rewrite E.
  destruct (mp_p x) as [|d0 [|d1 l]]; [cbn in Lx; lia..|]. inversion_clear Dx as [|? ? H0 D1]. inversion_clear D1 as [|? ? H1 _].
  exists d0, d1. cbn [take val]. rewrite take_0. cbn [val]. split; [done|]. split; [done|]. parts; try done. lia.
Qed.

Lemma mptouv_ok h (b : Z) x :
  h !! b = Some x -> normal x ->
  mptouv b h = Done (if 2 ^ 64 <=? mag x then 2 ^ 63 - 1 else mag x) h.
Proof.
  intros Hx Nx. destruct (first_digit x Nx) as (d & Ed & Hd & H0 & H1 & _). pose proof Nx as (Tx & _).
  unfold mptouv. mrun. unfold mret at 1, mpm_ret at 1. destruct (Nat.eqb_spec (mp_top x) 0) as [E|Hne].
  { by rewrite H0. }
  erewrite bind_Done; [|by apply (mpnorm_normal h b x)]. mrun. destruct (Nat.ltb_spec VLDIGITS (mp_top x)) as [Ht|Ht].
  - destruct Tx as [_ [|Tx]]; [done|].
    assert (2 ^ 64 <= mag x).
    { etransitivity; [|exact Tx]. change (2 ^ 64) with (B ^ 2). apply Z.pow_le_mono_r; unfold VLDIGITS in Ht; lia. }
    destruct (Z.leb_spec (2 ^ 64) (mag x)); [done|lia].
  - unfold VLDIGITS in Ht. assert (mp_top x = 1%nat \/ mp_top x = 2%nat) as [E|E] by lia; rewrite E.
    + destruct (H1 E) as [-> _]. cbn [mptouv_loop]. rewrite Ed. cbn [mbind option_bind].
      change (Z.of_nat 0 * 4 * 8) with 0. unfold in_u in Hd. rewrite Z.shiftl_0_r, Z.lor_0_l, wrap_small by (unfold in_u; lia).
      destruct (Z.leb_spec (2 ^ 64) d); [lia|done].
    + destruct (two_digits x (proj1 Tx) E) as (d0 & d1 & D0 & D1 & E0 & E1 & Em). rewrite Em.
      cbn [mptouv_loop]. rewrite E0. cbn [mbind option_bind]. rewrite E1. cbn [mbind option_bind].
      change (Z.of_nat 0 * 4 * 8) with 0. change (Z.of_nat 1 * 4 * 8) with 32. pose proof D0 as D0'. unfold in_u in D0', D1.
      rewrite Z.shiftl_0_r, Z.lor_0_l, !wrap_small
        by (unfold in_u; rewrite ?Z.shiftl_mul_pow2 by lia; lia).
      rewrite lor_shiftl_add by (done || lia). destruct (Z.leb_spec (2 ^ 64) (d0 + B * d1)); [lia|].
      unfold lift, mret, mpm_ret. f_equal. ring.
Qed.

Section conversions.
Context (h : heap) (b : Z) (s : mpint).
Hypotheses (Hz : h !! mpzero = Some _mpzero) (Hs : h !! b = Some s) (Rs : raw s).

(** Every [int] but the least goes through an [mpint] unchanged. *)
Theorem itomp_mptoi i :
  in_s 32 i -> i <> - 2 ^ 31 ->
  exists c, (a ← itomp i (Some b); mptoi a) h = Done i (<[b := c]> h) /\ normal c /\ mpval c = i.
Proof using Hz Hs Rs.
  intros Hi Hmin. destruct (itomp_ok h b s Hz Hs Rs i Hi Hmin) as (c & E & Nc & Vc).
  exists c. erewrite bind_Done; [|exact E]. erewrite mptoi_ok; [|apply lookup_insert_eq|done|congruence].
  split; [|done]. f_equal. unfold clamp. rewrite Vc. unfold in_s in Hi. change (2 ^ (32 - 1)) with (2 ^ 31) in Hi. lia.
Qed.

(** Every [uvlong] goes through an [mpint] with room for two digits unchanged. *)
Theorem uvtomp_mptouv v :
  b <> mpzero -> (2 <= length (mp_p s))%nat -> in_u 64 v ->
  exists c, (a ← uvtomp v (Some b); mptouv a) h = Done v (<[b := c]> h) /\ normal c /\ mpval c = v.
Proof using Hz Hs Rs.
  intros Hbz Ls Hv. destruct (uvtomp_ok h b s v Hz Hs Rs Hbz Ls Hv) as (c & E & Nc & Vc).
  exists c. erewrite bind_Done; [|exact E]. erewrite mptouv_ok; [|apply lookup_insert_eq|done].
  split; [|done]. f_equal. destruct (normal_mag c Nc) as [-> _]. rewrite Vc. unfold in_u in Hv.
  destruct (Z.leb_spec (2 ^ 64) (Z.abs v)); lia.
Qed.
End conversions.

(** [mptoi] and [mptoui] give the nearest integer of their type. *)
Theorem mptoi_saturates h (b : Z) x :
  h !! b = Some x -> normal x -> mpval x <> - 2 ^ 31 ->
  mptoi b h = Done (clamp (- 2 ^ 31) (2 ^ 31 - 1) (mpval x)) h /\
  (mp_top x <> 0%nat -> mptoui b h = Done (clamp 0 (2 ^ 32 - 1) (mpval x)) h).
Proof. intros Hx Nx Hm. split; [by apply mptoi_ok|]. intros Ht. by apply mptoui_ok. Qed.

(** [mptouv] gives the magnitude, and half the largest [uvlong] for one that does not fit. *)
Theorem mptouv_large h (b : Z) x :
  h !! b = Some x -> normal x -> 2 ^ 64 <= mag x -> mptouv b h = Done (2 ^ 63 - 1) h.
Proof.
  intros Hx Nx Hm. rewrite (mptouv_ok h b x Hx Nx). destruct (Z.leb_spec (2 ^ 64) (mag x)); [done|lia].
Qed.

(** [mptov] of a number of two digits shifts a digit by as many bits as it has. *)
Theorem mptov_two_digits h (b : Z) x :
  h !! b = Some x -> normal x -> mp_top x = 2%nat -> mptov b h = Stopped Undefined.
Proof.
  intros Hx Nx E. destruct (two_digits x (proj1 (proj1 Nx)) E) as (d0 & d1 & _ & _ & E0 & E1 & _).
  unfold mptov. mrun. rewrite E. cbn [Nat.eqb]. erewrite bind_Done; [|by apply (mpnorm_normal h b x)]. mrun.
  rewrite E. cbn [VLDIGITS Nat.ltb Nat.leb mptov_loop]. apply bind_Stopped. mrun.
  erewrite bind_Done; [|reflexivity]. mrun. done.
Qed.

(** [mptoui] of zero is the digit that was last stored. *)
Theorem mptoui_stale :
  (mpassign mpzero 11;; mptoui 11) ex_heap = Done 1 (<[11 := mkMpint 1 0 [1; 3] false]> ex_heap).
Proof. vm_compute. reflexivity. Qed.

(** [vtomp] counts the space in bytes: an object with one digit is overrun. *)
Theorem vtomp_overrun : vtomp B (Some 12) ex_heap = Stopped Fault.
Proof. vm_compute. reflexivity. Qed.

(** ** On numbers *)

Lemma itomp_mptoi_witness :
  exists c, (a ← itomp (-12) (Some 12); mptoi a) ex_heap = Done (-12) (<[12 := c]> ex_heap) /\ normal c /\ mpval c = -12.
Proof. apply (itomp_mptoi ex_heap 12 ex_nil); first [on_numbers | done]. Defined.

Lemma uvtomp_mptouv_witness :
  exists c, (a ← uvtomp (2 ^ 63 + 5) (Some 11); mptouv a) ex_heap = Done (2 ^ 63 + 5) (<[11 := c]> ex_heap) /\
    normal c /\ mpval c = 2 ^ 63 + 5.
Proof. apply (uvtomp_mptouv ex_heap 11 ex_two); first [on_numbers | done]. Defined.

Lemma mptoi_saturates_witness :
  mptoi 11 ex_heap = Done (2 ^ 31 - 1) ex_heap /\
  (2%nat <> 0%nat -> mptoui 11 ex_heap = Done (2 ^ 32 - 1) ex_heap).
Proof. apply (mptoi_saturates ex_heap 11 ex_two); first [on_numbers | done]. Defined.
