(* ===== verification/Mpbytes.v ===== *)
(** * Numbers as arrays of bytes: [betomp.c], [letomp.c], [mptobe.c] and [mptole.c] *)

From S2P Require Import Prelude Mpvec Mpmul Mpint MpintProps Mpshift Mpconv.

Implicit Types (h : heap).

(** ** Reading bytes *)

(** The loop that dumps leading zeros. The first byte is read whatever [n] is. *)
Fixpoint be_skip (p : bytes) (n : Z) : option (bytes * Z) :=
  match p with
  | [] => None
  | c :: p' => if (c =? 0) && (1 <? n) then be_skip p' (n - 1) else Some (p, n)
  end.

(** [n] bytes from [p] into the digits of [bp], from position [m] down. *)
Fixpoint be_loop (n : nat) (p : bytes) (m s x : Z) (bp : list Z) : option (list Z) :=
  match n with
  | O => Some bp
  | S n =>
      match p with
      | [] => None
      | c :: p =>
          let x := x .| u32 (c .<< s) in
          let s := s - 8 in
          if s <? 0 then
            bp ← (if m <? 0 then None else write_digit bp (Z.to_nat m) x);
            be_loop n p (m - 1) (Dbits - 8) 0 bp
          else be_loop n p m s x bp
      end
  end.

Definition betomp (p : bytes) (n : Z) (b : option Z) : mpm Z :=
  b ← target b 0;
  '(p, n) ← lift (be_skip p n);
  mpbits b (s32 (u32 (n * 8)));;
  set_obj b (fun x => x <| mp_top := Z.to_nat (u32 (Dbits - 1 + u32 (n * 8)) / Dbits) |>);;
  x ← obj b;
  bp ← lift (be_loop (Z.to_nat n) p (Z.of_nat (mp_top x) - 1) (u32 (u32 (n - 1) * 8) mod Dbits) 0 (mp_p x));
  put b (x <| mp_p := bp |>);;
  mret b.

(** The loop of [letomp]: [i] bits of the digit [m] are in [x]. *)
Fixpoint le_loop (n : nat) (p : bytes) (i : Z) (m : nat) (x : Z) (bp : list Z)
    : option (Z * nat * Z * list Z) :=
  match n with
  | O => Some (i, m, x, bp)
  | S n =>
      match p with
      | [] => None
      | c :: p =>
          let x := x .| u32 (c .<< i) in
          let i := i + 8 in
          if i =? Dbits then
            bp ← write_digit bp m x;
            le_loop n p 0 (S m) 0 bp
          else le_loop n p i m x bp
      end
  end.

Definition letomp (s : bytes) (n : Z) (b : option Z) : mpm Z :=
  b ← target b 0;
  mpbits b (s32 (u32 (8 * n)));;
  y ← obj b;
  '(i, m, x, bp) ← lift (le_loop (Z.to_nat n) s 0 0 0 (mp_p y));
  '(bp, m) ← lift (if 0 <? i then bp ← write_digit bp m x; Some (bp, S m) else Some (bp, m));
  put b (y <| mp_p := bp |> <| mp_top := m |>);;
  mret b.

(** ** Writing bytes *)

(** What a loop has done: it found the array full, or goes on. [out] is what was written. *)
Inductive written := Full (out : bytes) | Room (out : bytes) (suppress : bool).

(** [if(p >= e) return -1; *p++ = c;] for each byte of a digit, from [j] bits up, where leading
    zeros are left out. *)
Fixpoint be_digit (js : list Z) (x n : Z) (out : bytes) (suppress : bool) : written :=
  match js with
  | [] => Room out suppress
  | j :: js =>
      let c := u8 (x .>> j) in
      if (c =? 0) && suppress then be_digit js x n out suppress
      else if n <=? len out then Full out
      else be_digit js x n (out ++ [c]) false
  end.

Fixpoint be_digits (i : nat) (bp : list Z) (n : Z) (out : bytes) (suppress : bool) : option written :=
  match i with
  | O => Some (Room out suppress)
  | S i =>
      x ← bp !! i;
      match be_digit [24; 16; 8; 0] x n out suppress with
      | Full out => Some (Full out)
      | Room out suppress => be_digits i bp n out suppress
      end
  end.

(** The array, of [n] bytes for the caller's [p] or of as many as are surely enough, and its
    contents at the end: the bytes written, and zeros. *)
Definition out_array (p : option (bytes * Z)) (top : nat) : bytes * Z :=
  match p with
  | None => let n := (Z.of_nat top + 1) * 4 in (replicate (Z.to_nat n) 0, n)
  | Some pn => pn
  end.

Definition filled (p : bytes) (n : Z) (out : bytes) : option bytes :=
  p ← store p 0 (replicate (Z.to_nat n) 0);
  store p 0 out.

Definition mptobe (b : Z) (p : option (bytes * Z)) : mpm (Z * bytes) :=
  x ← obj b;
  let '(p, n) := out_array p (mp_top x) in
  if (mp_top x =? 0)%nat then
    p ← lift (filled p n []);
    mret (if n <? 1 then -1 else 1, p)
  else
    w ← lift (be_digits (mp_top x) (mp_p x) n [] true);
    match w with
    | Full out => p ← lift (filled p n out); mret (-1, p)
    | Room out _ =>
        match out with
        | [] =>
            if n <=? 0 then p ← lift (filled p n []); mret (-1, p)
            else p ← lift (filled p n [0]); mret (1, p)
        | _ => p ← lift (filled p n out); mret (len out, p)
        end
    end.

Fixpoint le_digit (j : nat) (x n : Z) (out : bytes) : written :=
  match j with
  | O => Room out false
  | S j => if n <=? len out then Full out else le_digit j (x .>> 8) n (out ++ [u8 x])
  end.

Fixpoint le_digits (k i : nat) (bp : list Z) (n : Z) (out : bytes) : option written :=
  match k with
  | O => Some (Room out false)
  | S k =>
      x ← bp !! i;
      match le_digit 4 x n out with
      | Full out => Some (Full out)
      | Room out _ => le_digits k (S i) bp n out
      end
  end.

(** [while(x > 0)]: a digit has four bytes. *)
Fixpoint le_last (fuel : nat) (x n : Z) (out : bytes) : option written :=
  if 0 <? x then
    match fuel with
    | O => None
    | S fuel => if n <=? len out then Some (Full out) else le_last fuel (x .>> 8) n (out ++ [u8 x])
    end
  else Some (Room out false).

Definition mptole (b : Z) (p : option (bytes * Z)) : mpm (Z * bytes) :=
  x ← obj b;
  let '(p, n) := out_array p (mp_top x) in
  if (mp_top x =? 0)%nat then
    p ← lift (filled p n []);
    mret (if n <? 1 then -1 else 0, p)
  else
    w ← lift (le_digits (mp_top x - 1) 0 (mp_p x) n []);
    w ← match w with
        | Full out => mret (Full out)
        | Room out _ => d ← lift (mp_p x !! (mp_top x - 1)%nat); lift (le_last 4 d n out)
        end;
    match w with
    | Full out => p ← lift (filled p n out); mret (-1, p)
    | Room out _ => p ← lift (filled p n out); mret (len out, p)
    end.

(** ** The numbers of arrays of bytes *)

Fixpoint be_val (bs : bytes) : Z :=
  match bs with
  | [] => 0
  | c :: bs => c * 256 ^ len bs + be_val bs
  end.

Fixpoint le_val (bs : bytes) : Z :=
  match bs with
  | [] => 0
  | c :: bs => c + 256 * le_val bs
  end.

Lemma be_val_app a b : be_val (a ++ b) = be_val a * 256 ^ len b + be_val b.
Proof.
  induction a as [|c a IH]; cbn [be_val app]; [lia|]. rewrite IH, length_app, Nat2Z.inj_add, Z.pow_add_r by lia. ring.
Qed.

Lemma le_val_app a b : le_val (a ++ b) = le_val a + 256 ^ len a * le_val b.
Proof.
  induction a as [|c a IH]; cbn [le_val app length]; [lia|]. rewrite IH, Nat2Z.inj_succ, Z.pow_succ_r by lia. ring.
Qed.

Lemma be_val_range bs : is_bytes bs -> 0 <= be_val bs < 256 ^ len bs.
Proof.
  induction 1 as [|c bs Hc _ IH]; cbn [be_val length]; [done|]. rewrite Nat2Z.inj_succ, Z.pow_succ_r by lia.
  unfold in_u in Hc. change (2 ^ 8) with 256 in Hc. nia.
Qed.

Lemma pow_256_4 k : 0 <= k -> 256 ^ (4 * k) = B ^ k.
Proof. intros. rewrite Z.pow_mul_r by lia. done. Qed.

(** ** Reading big-endian *)

Lemma be_skip_ok bs rest :
  bs <> [] -> exists bs', be_skip (bs ++ rest) (len bs) = Some (bs' ++ rest, len bs') /\ bs' <> [] /\
    be_val bs' = be_val bs /\ (is_bytes bs -> is_bytes bs') /\ (length bs' <= length bs)%nat /\
    (length bs' = 1%nat \/ exists c bs2, bs' = c :: bs2 /\ c <> 0).
Proof.
  induction bs as [|c bs IH]; intros Hne; [done|]. cbn [be_skip app].
  destruct (Z.eqb_spec c 0) as [->|Hc]; cbn [andb].
  - destruct (Z.ltb_spec 1 (len (0 :: bs))) as [H1|H1]; cbn [length] in H1.
    + destruct IH as (bs' & E & Hne' & V & Hb & L & Hm); [by intros ->|].
      replace (len (0 :: bs) - 1) with (len bs) by (cbn [length]; lia). exists bs'. rewrite E.
      parts; try done; cbn [be_val length]; [intros H; inversion_clear H; auto|lia].
    + exists (0 :: bs). parts; try done. left. cbn [length]. lia.
  - exists (c :: bs). parts; try done. right. by exists c, bs.
Qed.

(** A byte added below the bits of a digit that are there. *)
Lemma add_byte x c s :
  0 <= s <= 24 -> in_u 8 c -> x mod 2 ^ (s + 8) = 0 -> in_u 32 x ->
  x .| u32 (c .<< s) = x + c * 2 ^ s /\ in_u 32 (x + c * 2 ^ s) /\ (8 <= s -> (x + c * 2 ^ s) mod 2 ^ (s - 8 + 8) = 0).
Proof.
  intros Hs Hc Hx Hd. unfold in_u in *. change (2 ^ 8) with 256 in Hc.
  assert (2 ^ (s + 8) = 256 * 2 ^ s) as E8 by (rewrite Z.pow_add_r by lia; change (2 ^ 8) with 256; ring).
  assert (2 ^ 32 = 2 ^ (24 - s) * 2 ^ (s + 8)) as E32 by (rewrite <- Z.pow_add_r by lia; f_equal; lia).
  assert (c * 2 ^ s < 2 ^ (s + 8)) as Hcs by nia.
  assert (x = (x / 2 ^ (s + 8)) * 2 ^ (s + 8)) as Ex by (rewrite (Z.div_mod x (2 ^ (s + 8))) at 1 by lia; lia).
  set (q := x / 2 ^ (s + 8)) in *. assert (q < 2 ^ (24 - s)) as Hq by nia.
  assert (0 <= q) by (unfold q; apply Z.div_pos; lia).
  rewrite (Z.shiftl_mul_pow2 c) by lia. rewrite wrap_small by (unfold in_u; nia). parts.
  - rewrite Ex, Z.lor_comm, <- (Z.shiftl_mul_pow2 q) by lia. rewrite lor_shiftl_add by (unfold in_u; nia || lia).
    rewrite Z.shiftl_mul_pow2 by lia. ring.
  - nia.
  - nia.
  - intros _. replace (s - 8 + 8) with s by lia. rewrite Ex, E8. apply Z.mod_divide; [lia|].
    exists (q * 256 + c). ring.
Qed.

Lemma be_loop_ok bs rest q s x bp :
  is_bytes bs -> is_digits bp -> bs <> [] -> (q < length bp)%nat -> 0 <= s <= 24 -> s mod 8 = 0 ->
  len bs - 1 = 4 * Z.of_nat q + s / 8 -> in_u 32 x -> x mod 2 ^ (s + 8) = 0 ->
  exists bp', be_loop (length bs) (bs ++ rest) (Z.of_nat q) s x bp = Some bp' /\ is_digits bp' /\
    length bp' = length bp /\ drop (S q) bp' = drop (S q) bp /\
    val (take (S q) bp') = x * B ^ Z.of_nat q + be_val bs.
Proof.
  intros Hb. revert q s x bp. induction Hb as [|c bs Hc Hb IH]; intros q s x bp Dp Hne Hq Hs Hs8 Hlen Hx Hxm; [done|].
  cbn [be_loop length app be_val]. cbn [length] in Hlen.
  destruct (add_byte x c s Hs Hc Hxm Hx) as (Ex & Hx' & Hxm'). rewrite Ex.
  assert (256 ^ len bs = 2 ^ s * B ^ Z.of_nat q) as Ep.
  { replace (len bs) with (4 * Z.of_nat q + s / 8) by lia. rewrite Z.pow_add_r by (lia || (apply Z.div_pos; lia)).
    rewrite pow_256_4 by lia. replace (2 ^ s) with (256 ^ (s / 8)); [ring|].
    change 256 with (2 ^ 8). rewrite <- Z.pow_mul_r by (lia || (apply Z.div_pos; lia)). f_equal. pose proof (Z.div_mod s 8). lia. }
  destruct (Z.ltb_spec (s - 8) 0) as [Hneg|Hpos].
  - assert (s = 0) as -> by (rewrite Z.mod_small in Hs8 by lia; lia). destruct (Z.ltb_spec (Z.of_nat q) 0); [lia|]. rewrite Nat2Z.id.
    change (2 ^ 0) with 1 in *. rewrite !Z.mul_1_r, ?Z.mul_1_l in *. change (0 / 8) with 0 in Hlen.
    unfold write_digit. destruct (Nat.ltb_spec q (length bp)); [|lia]. cbn [mbind option_bind].
    assert (is_digits (<[q := x + c]> bp)) as Dp' by (by apply Forall_insert).
    destruct q as [|q].
    + destruct bs; [|cbn [length] in Hlen; lia]. cbn [be_loop length]. eexists. split; [reflexivity|].
      rewrite length_insert. parts; try done; [by rewrite drop_insert_lt by lia|].
      destruct bp as [|y bp]; [cbn in Hq; lia|].
      cbn [insert list_insert take val]. rewrite take_0. cbn [val be_val Z.of_nat]. change (B ^ 0) with 1. lia.
    + destruct (IH q 24 0 (<[S q := x + c]> bp)) as (bp' & E & D & L & Hdr & V); try done.
      { by intros ->; cbn [length] in Hlen; lia. }
      { rewrite length_insert. lia. }
      { change (24 / 8) with 3. lia. }
      replace (Z.of_nat (S q) - 1) with (Z.of_nat q) by lia. change (Dbits - 8) with 24. rewrite E.
      exists bp'. rewrite L, length_insert. parts; try done.
      * replace (S (S q)) with (S q + 1)%nat by lia. rewrite <- (drop_drop bp'), Hdr, drop_drop. by rewrite drop_insert_lt by lia.
      * assert (bp' !! S q = Some (x + c)) as El.
        { rewrite <- (Nat.add_0_r (S q)), <- lookup_drop, Hdr, lookup_drop, Nat.add_0_r. by apply list_lookup_insert_eq. }
        rewrite (take_S_r _ _ _ El), val_app, V, length_take, Nat.min_l by (rewrite L, length_insert; lia).
        cbn [val]. rewrite Ep. ring.
  - destruct (IH q (s - 8) (x + c * 2 ^ s) bp) as (bp' & E & D & L & Hdr & V); try done; try lia.
    { intros ->. cbn [length] in Hlen. assert (1 <= s / 8) by (apply Z.div_le_lower_bound; lia). lia. }
    { rewrite <- (Z.mod_add s (-1) 8) in Hs8 by lia. replace (s + -1 * 8) with (s - 8) in Hs8 by lia. done. }
    { replace (s - 8) with (s + -1 * 8) by lia. rewrite Z.div_add by lia. lia. }
    rewrite E. exists bp'. parts; try done. rewrite V, Ep. ring.
Qed.

(** [betomp]: the number of the bytes; the sign is the one the object had. *)
Lemma betomp_ok h (b : Z) s bs rest :
  h !! b = Some s -> raw s -> is_bytes bs -> bs <> [] -> len bs < 2 ^ 28 ->
  exists c, betomp (bs ++ rest) (len bs) (Some b) h = Done b (<[b := c]> h) /\ raw c /\
    mag c = be_val bs /\ mp_sign c = mp_sign s /\ (be_val bs <> 0 -> trimmed c).
Proof.
  intros Hs Rs Hb Hne Hlen. destruct (be_skip_ok bs rest Hne) as (p & Ep & Hnp & Vp & Bp & Lp & Hm).
  specialize (Bp Hb). unfold betomp, target. erewrite bind_Done; [|reflexivity]. mrun. cbn beta iota.
  assert (1 <= len p) as L1 by (destruct p; [done|cbn [length]; lia]).
  rewrite (wrap_small 32 (len p * 8)) by (unfold in_u; lia).
  rewrite swrap_small by (unfold in_s; change (2 ^ (32 - 1)) with (2 ^ 31); lia).
  unfold mpbits. mrun. mrun. rewrite insert_insert_eq. mrun.
  rewrite (wrap_small 32 (len p - 1)), !wrap_small by (unfold in_u, Dbits; lia).
  destruct (with_bits_ok (len p * 8) s Rs) as (Rw & Hn & _ & _ & Hsg & _). set (w := with_bits _ s) in *.
  set (q := Z.to_nat ((len p - 1) / 4)).
  pose proof (Z.div_mod (len p - 1) 4 ltac:(lia)) as Edm. pose proof (Z.mod_pos_bound (len p - 1) 4 ltac:(lia)) as Hmb.
  assert (0 <= (len p - 1) / 4) as Hq0 by (apply Z.div_pos; lia).
  assert ((Dbits - 1 + len p * 8) / Dbits = Z.of_nat q + 1) as Etop.
  { symmetry. apply (Z.div_unique _ _ _ (7 + 8 * ((len p - 1) mod 4))); unfold Dbits, q; lia. }
  unfold DIGITS in Hn. rewrite Z.quot_div_nonneg, Etop in Hn by (unfold Dbits; lia).
  set (w1 := w <| mp_top := _ |>). change (mp_top w1) with (Z.to_nat ((Dbits - 1 + len p * 8) / Dbits)).
  assert (mp_top w1 = S q) as Tw by (change (Z.to_nat ((Dbits - 1 + len p * 8) / Dbits) = S q); rewrite Etop; lia).
  pose proof Rw as (Dw & Lw & Pw). change (mp_p w1) with (mp_p w).
  assert (((len p - 1) * 8) mod Dbits = 8 * ((len p - 1) mod 4)) as Es.
  { unfold Dbits. symmetry. apply (Z.mod_unique _ _ ((len p - 1) / 4)); lia. }
  destruct (be_loop_ok p rest q (8 * ((len p - 1) mod 4)) 0 (mp_p w)) as (bp & El & Dbp & Lbp & _ & Vbp);
    [done|done|done|lia|lia|by rewrite Z.mul_comm, Z.mod_mul by lia|rewrite (Z.mul_comm 8), Z.div_mul by lia; unfold q; lia
    |by_decide|apply Z.mod_0_l; lia|].
  rewrite Etop, Es. replace (Z.of_nat (Z.to_nat (Z.of_nat q + 1)) - 1) with (Z.of_nat q) by lia.
  rewrite Nat2Z.id. mrun. unfold put. erewrite bind_Done; [|reflexivity]. rewrite insert_insert_eq.
  eexists. split; [reflexivity|]. set (c := w1 <| mp_p := bp |>).
  assert (mag c = be_val bs) as Mc.
  { unfold mag, digits. change (mp_p c) with bp. change (mp_top c) with (mp_top w1). rewrite Tw, Vbp. lia. }
  assert (raw c) as Rc.
  { split_and!; [exact Dbp| |change (0 < length bp)%nat; lia]. change (mp_top c) with (mp_top w1). change (mp_p c) with bp. lia. }
  parts; try done. intros Hv. split; [exact Rc|]. right. change (mp_top c) with (mp_top w1). rewrite Tw, Mc, <- Vp.
  replace (Z.of_nat (S q) - 1) with (Z.of_nat q) by lia.
  destruct Hm as [H1|(x & p2 & -> & Hx)].
  - assert (q = 0%nat) as -> by (unfold q; rewrite H1; done). change (B ^ Z.of_nat 0) with 1.
    pose proof (be_val_range p Bp). lia.
  - inversion_clear Bp as [|? ? Bx B2]. pose proof (be_val_range p2 B2). cbn [be_val]. unfold in_u in Bx.
    rewrite <- pow_256_4 by lia. transitivity (256 ^ len p2); [apply Z.pow_le_mono_r; [lia|]|].
    { cbn [length] in *. unfold q in *. lia. }
    assert (0 < 256 ^ len p2) by lia. nia.
Qed.

(** ** Writing *)

(** The bytes [cs] written to an array of [n] bytes after [out], leading zeros left out if
    [suppress]. *)
Fixpoint emit (cs : bytes) (n : Z) (out : bytes) (suppress : bool) : written :=
  match cs with
  | [] => Room out suppress
  | c :: cs =>
      if (c =? 0) && suppress then emit cs n out suppress
      else if n <=? len out then Full out
      else emit cs n (out ++ [c]) false
  end.

Lemma emit_app a b n out sup :
  emit (a ++ b) n out sup
  = match emit a n out sup with Full o => Full o | Room o s => emit b n o s end.
Proof.
  revert out sup. induction a as [|c a IH]; intros out sup; [done|]. cbn [emit app].
  destruct ((c =? 0) && sup); [apply IH|]. destruct (n <=? len out); [done|apply IH].
Qed.

Lemma emit_all cs n out :
  len out <= n ->
  if len out + len cs <=? n then emit cs n out false = Room (out ++ cs) false
  else exists o, emit cs n out false = Full o /\ len o = n.
Proof.
  revert out. induction cs as [|c cs IH]; intros out Hn; cbn [emit length].
  { rewrite app_nil_r. destruct (Z.leb_spec (len out + Z.of_nat 0) n); [done|lia]. }
  rewrite andb_false_r. destruct (Z.leb_spec n (len out)) as [Hf|Hr].
  - destruct (Z.leb_spec (len out + Z.of_nat (S (length cs))) n); [lia|]. exists out. split; [done|lia].
  - specialize (IH (out ++ [c])). rewrite length_app in IH. cbn [length] in IH. specialize (IH ltac:(lia)).
    replace (Z.of_nat (length out + 1) + len cs) with (len out + Z.of_nat (S (length cs))) in IH by lia.
    rewrite <- app_assoc in IH. exact IH.
Qed.

(** Without the leading zeros. *)
Fixpoint strip (cs : bytes) : bytes :=
  match cs with
  | [] => []
  | c :: cs' => if c =? 0 then strip cs' else cs
  end.

Lemma strip_ok cs :
  be_val (strip cs) = be_val cs /\ (is_bytes cs -> is_bytes (strip cs)) /\ (length (strip cs) <= length cs)%nat /\
  (strip cs = [] \/ exists c l, strip cs = c :: l /\ c <> 0).
Proof.
  induction cs as [|c cs (V & Hb & L & Hh)]; cbn [strip]; [by parts; try done; left|].
  destruct (Z.eqb_spec c 0) as [->|Hc]; cbn [be_val length].
  - parts; try done; [intros H; inversion_clear H; auto|lia].
  - parts; try done. right. by exists c, cs.
Qed.

Lemma emit_strip cs n out :
  emit cs n out true = match strip cs with [] => Room out true | cs => emit cs n out false end.
Proof.
  induction cs as [|c cs IH]; cbn [emit strip]; [done|]. destruct (c =? 0) eqn:E; cbn [andb].
  - by rewrite IH.
  - cbn [emit]. by rewrite E.
Qed.

Lemma filled_ok p n out :
  0 <= n <= len p -> len out <= n ->
  filled p n out = Some (out ++ replicate (Z.to_nat n - length out) 0 ++ drop (Z.to_nat n) p).
Proof.
  intros Hn Ho. unfold filled.
  assert (store p 0 (replicate (Z.to_nat n) 0) = Some (replicate (Z.to_nat n) 0 ++ drop (Z.to_nat n) p)) as ->.
  { replace p with (take (Z.to_nat n) p ++ drop (Z.to_nat n) p) at 1 by apply take_drop.
    apply store_head. rewrite length_take, length_replicate. lia. }
  cbn [mbind option_bind]. replace (replicate (Z.to_nat n) 0) with (replicate (length out) 0 ++ replicate (Z.to_nat n - length out) (0 : Z)).
  - rewrite <- app_assoc. apply store_head. by rewrite length_replicate.
  - rewrite <- replicate_add. f_equal. lia.
Qed.

(** The bytes of a digit, and of a number. *)
Definition be4 (x : Z) : bytes := map (fun j => u8 (x .>> j)) [24; 16; 8; 0].
Definition be_bytes (ds : list Z) : bytes := concat (map be4 (reverse ds)).

Lemma digit_bytes x :
  in_u 32 x -> x = u8 (x .>> 24) * 256 ^ 3 + u8 (x .>> 16) * 256 ^ 2 + u8 (x .>> 8) * 256 + u8 (x .>> 0).
Proof.
  intros Hx. rewrite !shiftr_div by lia. unfold wrap. change (2 ^ 8) with 256.
  change (2 ^ 24) with (256 * 256 * 256). change (2 ^ 16) with (256 * 256). change (2 ^ 0) with 1.
  unfold in_u in Hx. change (2 ^ 32) with (256 * 256 * 256 * 256) in Hx. change (256 ^ 3) with (256 * 256 * 256).
  change (256 ^ 2) with (256 * 256). rewrite <- !Z.div_div by lia. rewrite Z.div_1_r.
  pose proof (Z.div_mod x 256). pose proof (Z.div_mod (x / 256) 256). pose proof (Z.div_mod (x / 256 / 256) 256).
  assert (0 <= x / 256 / 256 / 256 < 256).
  { rewrite !Z.div_div by lia. split; [apply Z.div_pos; lia|apply Z.div_lt_upper_bound; lia]. }
  rewrite (Z.mod_small (x / 256 / 256 / 256)) by lia. lia.
Qed.

Lemma be_bytes_snoc ds x : be_bytes (ds ++ [x]) = be4 x ++ be_bytes ds.
Proof. unfold be_bytes. by rewrite reverse_app. Qed.

Lemma be_bytes_ok ds :
  is_digits ds -> be_val (be_bytes ds) = val ds /\ is_bytes (be_bytes ds) /\ len (be_bytes ds) = 4 * len ds.
Proof.
  induction ds as [|x ds IH] using rev_ind; intros Hd; [done|]. apply Forall_app in Hd as [Hd Hx].
  rewrite Forall_singleton in Hx. destruct (IH Hd) as (V & Hb & L).
  rewrite be_bytes_snoc, be_val_app, V, val_app. cbn [val]. rewrite L, pow_256_4 by lia. parts.
  - assert (be_val (be4 x) = x) as ->; [|ring]. rewrite (digit_bytes x Hx) at 2. unfold be4. cbn [map be_val length].
    change (256 ^ Z.of_nat 3) with (256 ^ 3). change (256 ^ Z.of_nat 2) with (256 ^ 2). change (256 ^ Z.of_nat 1) with 256.
    change (256 ^ Z.of_nat 0) with 1. ring.
  - apply Forall_app. split; [|done]. unfold be4. cbn [map].
    repeat (constructor; [by apply wrap_range|]). constructor.
  - rewrite length_app, length_app. change (length (be4 x)) with 4%nat. cbn [length]. lia.
Qed.

Lemma be_digits_emit i bp n out sup :
  (i <= length bp)%nat -> be_digits i bp n out sup = Some (emit (be_bytes (take i bp)) n out sup).
Proof.
  revert out sup. induction i as [|i IH]; intros out sup Hi; [by rewrite take_0|]. cbn [be_digits].
  destruct (lookup_lt_is_Some_2 bp i) as [x Hx]; [lia|]. rewrite Hx. cbn [mbind option_bind].
  rewrite (take_S_r _ _ _ Hx), be_bytes_snoc, emit_app.
  assert (forall js o s, be_digit js x n o s = emit (map (fun j => u8 (x .>> j)) js) n o s) as ->.
  { induction js as [|j js IHj]; intros o s; [done|]. cbn [be_digit emit map]. rewrite !IHj. done. }
  fold (be4 x). destruct (emit (be4 x) n out sup); [done|]. apply IH. lia.
Qed.

Lemma fill_run h p n out (k : Z) :
  0 <= n <= len p -> len out <= n ->
  exists p', (p0 ← lift (filled p n out); mret (k, p0)) h = Done (k, p') h /\ length p' = length p /\
    exists t, p' = out ++ t.
Proof.
  intros Hn Ho. erewrite bind_Done; [|apply lift_Done, filled_ok; [lia|done]]. eexists. split; [reflexivity|].
  split; [|by eexists]. rewrite !length_app, length_replicate, length_drop. lia.
Qed.

Lemma filled_zero p n : 1 <= n <= len p -> filled p n [] = filled p n [0].
Proof.
  intros Hn. rewrite !filled_ok by (cbn [length]; lia). f_equal. cbn [length app]. rewrite Nat.sub_0_r.
  destruct (Z.to_nat n) as [|k] eqn:E; [lia|]. by replace (S k - 1)%nat with k by lia.
Qed.

(** What both functions give: the bytes, if there is room for them. *)
Definition bytes_given (r : mpres (Z * bytes)) h (p : bytes) (n : Z) (bs : bytes) : Prop :=
  exists p', r = Done (if len bs <=? n then len bs else -1, p') h /\ length p' = length p /\
    (len bs <= n -> exists t, p' = bs ++ t).

Lemma given_room h p n bs :
  0 <= n <= len p -> len bs <= n -> bytes_given ((p0 ← lift (filled p n bs); mret (len bs, p0)) h) h p n bs.
Proof.
  intros Hn Hb. destruct (fill_run h p n bs (len bs) Hn Hb) as (p' & E & L & T). exists p'.
  destruct (Z.leb_spec (len bs) n); [done|lia].
Qed.

Lemma given_full h p n bs out :
  0 <= n <= len p -> n < len bs -> len out <= n ->
  bytes_given ((p0 ← lift (filled p n out); mret (-1, p0)) h) h p n bs.
Proof.
  intros Hn Hb Ho. destruct (fill_run h p n out (-1) Hn Ho) as (p' & E & L & T). exists p'.
  destruct (Z.leb_spec (len bs) n); [lia|]. parts; try done. lia.
Qed.

(** [mptobe]: the shortest array of the number, of one byte at least, if it fits. *)
Lemma mptobe_ok h (b : Z) x p n :
  h !! b = Some x -> raw x -> 0 <= n <= len p ->
  exists bs, bytes_given (mptobe b (Some (p, n)) h) h p n bs /\
    is_bytes bs /\ be_val bs = mag x /\ (bs = [0] \/ exists c l, bs = c :: l /\ c <> 0) /\
    (len bs = 1 \/ len bs <= 4 * Z.of_nat (mp_top x)).
Proof.
  intros Hx Rx Hn. destruct (digits_ok x Rx) as [Dx Lx]. pose proof Rx as (_ & Ltx & _).
  destruct (be_bytes_ok (digits x) Dx) as (Vb & Bb & Lb). destruct (strip_ok (be_bytes (digits x))) as (Vs & Bs & Ls & Hs).
  specialize (Bs Bb). unfold mptobe. mrun. cbn [out_array]. destruct (Nat.eqb_spec (mp_top x) 0) as [E|Hne].
  - exists [0]. parts; [|constructor; [by_decide|done]|unfold mag, digits; by rewrite E, take_0|by left|by left].
    destruct (Z.ltb_spec n 1); [by apply given_full; cbn [length]; lia|].
    rewrite filled_zero by lia. apply given_room; cbn [length]; lia.
  - erewrite bind_Done; [|apply lift_Done; by apply be_digits_emit]. fold (digits x). rewrite emit_strip.
    destruct Hs as [Es|(c & l & Es & Hc)]; rewrite Es in *.
    + exists [0]. parts; [|constructor; [by_decide|done]|unfold mag; by rewrite <- Vb, <- Vs|by left|by left].
      destruct (Z.leb_spec n 0); [by apply given_full; cbn [length]; lia|]. apply given_room; cbn [length]; lia.
    + exists (c :: l). parts; [|done|unfold mag; by rewrite <- Vb, <- Vs|right; by exists c, l|right; lia].
      pose proof (emit_all (c :: l) n [] ltac:(cbn; lia)) as He. change (len [] + len (c :: l)) with (len (c :: l)) in He.
      destruct (Z.leb_spec (len (c :: l)) n).
      * rewrite He. cbn [app]. apply given_room; lia.
      * destruct He as (o & -> & Lo). apply given_full; lia.
Qed.

(** ** Little-endian *)

(** The bytes of a digit, the lowest first, and those up to its last that is not zero. *)
Definition le4 (x : Z) : bytes := [u8 x; u8 (x .>> 8); u8 (x .>> 8 .>> 8); u8 (x .>> 8 .>> 8 .>> 8)].

Fixpoint le_min (fuel : nat) (x : Z) : bytes :=
  match fuel with
  | O => []
  | S fuel => if 0 <? x then u8 x :: le_min fuel (x .>> 8) else []
  end.

Lemma le_digit_emit x n out : le_digit 4 x n out = emit (le4 x) n out false.
Proof.
  unfold le4. cbn [le_digit emit]. rewrite !andb_false_r. done.
Qed.

Lemma le_digits_emit k i bp n out :
  (i + k <= length bp)%nat ->
  le_digits k i bp n out = Some (emit (concat (map le4 (take k (drop i bp)))) n out false).
Proof.
  revert i out. induction k as [|k IH]; intros i out Hi; [by rewrite take_0|]. cbn [le_digits].
  destruct (lookup_lt_is_Some_2 bp i) as [x Hx]; [lia|]. rewrite Hx. cbn [mbind option_bind].
  rewrite (drop_S _ _ _ Hx). cbn [take map concat]. rewrite emit_app, le_digit_emit.
  assert (forall cs o, match emit cs n o false with Full _ => True | Room _ s => s = false end) as Hf.
  { induction cs as [|c cs IHc]; intros o; [done|]. cbn [emit]. rewrite andb_false_r. destruct (n <=? len o); [done|apply IHc]. }
  specialize (Hf (le4 x) out). destruct (emit (le4 x) n out false); [done|]. subst. apply IH. lia.
Qed.

Lemma le_last_emit fuel x n out :
  0 <= x < 256 ^ Z.of_nat fuel -> le_last fuel x n out = Some (emit (le_min fuel x) n out false).
Proof.
  revert x out. induction fuel as [|fuel IH]; intros x out Hx; cbn [le_last le_min].
  - change (256 ^ Z.of_nat 0) with 1 in Hx. destruct (Z.ltb_spec 0 x); [lia|done].
  - destruct (Z.ltb_spec 0 x); [|done]. cbn [emit]. rewrite andb_false_r. destruct (n <=? len out); [done|]. apply IH.
    rewrite Nat2Z.inj_succ, Z.pow_succ_r in Hx by lia. rewrite shiftr_div by lia. change (2 ^ 8) with 256.
    split; [apply Z.div_pos; lia|apply Z.div_lt_upper_bound; lia].
Qed.

Lemma le_min_ok fuel x :
  0 <= x < 256 ^ Z.of_nat fuel -> le_val (le_min fuel x) = x /\ is_bytes (le_min fuel x) /\
    (length (le_min fuel x) <= fuel)%nat /\ (x <> 0 -> 256 ^ (len (le_min fuel x) - 1) <= x /\ le_min fuel x <> []).
Proof.
  revert x. induction fuel as [|fuel IH]; intros x Hx; cbn [le_min].
  - change (256 ^ Z.of_nat 0) with 1 in Hx. cbn [le_val length]. parts; try done; lia.
  - rewrite Nat2Z.inj_succ, Z.pow_succ_r in Hx by lia. destruct (Z.ltb_spec 0 x); [|cbn [le_val length]; parts; done || lia].
    assert (0 <= x .>> 8 < 256 ^ Z.of_nat fuel) as Hx'.
    { rewrite shiftr_div by lia. change (2 ^ 8) with 256. split; [apply Z.div_pos; lia|apply Z.div_lt_upper_bound; lia]. }
    destruct (IH (x .>> 8) Hx') as (V & Hb & L & Hm). cbn [le_val length]. rewrite V.
    assert (x = u8 x + 256 * (x .>> 8)) as Ex.
    { rewrite shiftr_div by lia. unfold wrap. change (2 ^ 8) with 256. pose proof (Z.div_mod x 256). lia. }
    pose proof (wrap_range 8 x ltac:(lia)) as Hw. unfold in_u in Hw.
    parts; [lia|by constructor; [apply wrap_range|]|lia|]. intros _. split; [|done].
    replace (Z.of_nat (S (length (le_min fuel (x .>> 8)))) - 1) with (len (le_min fuel (x .>> 8))) by lia.
    destruct (Z.eq_dec (x .>> 8) 0) as [E|Hne].
    + rewrite E in *. destruct fuel; cbn [le_min length Z.ltb Z.compare]; change (256 ^ Z.of_nat 0) with 1; lia.
    + destruct (Hm Hne) as [Hp Hne']. destruct (le_min fuel (x .>> 8)) as [|c l]; [done|]. cbn [length] in *.
      replace (Z.of_nat (S (length l)) - 1) with (len l) in Hp by lia. rewrite Nat2Z.inj_succ, Z.pow_succ_r by lia. lia.
Qed.

Lemma le_bytes_ok ds :
  is_digits ds -> le_val (concat (map le4 ds)) = val ds /\ is_bytes (concat (map le4 ds)) /\
    len (concat (map le4 ds)) = 4 * len ds.
Proof.
  induction 1 as [|x ds Hx Hd (V & Hb & L)]; [done|]. cbn [map concat val length]. rewrite le_val_app, V, length_app.
  change (length (le4 x)) with 4%nat. parts.
  - change (256 ^ Z.of_nat 4) with B. assert (le_val (le4 x) = x) as ->; [|done].
    rewrite (digit_bytes x Hx) at 2. unfold le4. cbn [le_val]. rewrite !Z.shiftr_shiftr by lia.
    change (8 + 8 + 8) with 24. change (8 + 8) with 16. rewrite Z.shiftr_0_r. change (256 ^ 3) with (256 * 256 * 256).
    change (256 ^ 2) with (256 * 256). ring.
  - apply Forall_app. split; [|done]. unfold le4. repeat (constructor; [by apply wrap_range|]). constructor.
  - lia.
Qed.

(** [mptole]: the shortest array of the number, none for zero, if it fits. *)
Lemma mptole_ok h (b : Z) x p n :
  h !! b = Some x -> trimmed x -> 0 < n <= len p ->
  exists bs, bytes_given (mptole b (Some (p, n)) h) h p n bs /\
    is_bytes bs /\ le_val bs = mag x /\ (mag x <> 0 -> 256 ^ (len bs - 1) <= mag x) /\ len bs <= 4 * Z.of_nat (mp_top x).
Proof.
  intros Hx Tx Hn. pose proof Tx as [Rx _]. pose proof (mag_range x Rx) as Mx. unfold mptole. mrun. cbn [out_array].
  destruct (Nat.eqb_spec (mp_top x) 0) as [E|Hne].
  { exists []. destruct (Z.ltb_spec n 1); [lia|]. assert (mag x = 0) as Mx0 by (unfold mag, digits; by rewrite E, take_0).
    parts; try done; [apply (given_room h p n []); cbn [length]; lia|cbn [length]; lia]. }
  pose proof Rx as (_ & Ltx & _). destruct (digits_snoc x Rx Hne) as (low & d & Ed & Dl & Hd & Ll & El & Em).
  assert (take (mp_top x - 1) (mp_p x) = low) as Et.
  { rewrite digits_app, Ed, <- app_assoc, <- Ll. by rewrite take_app_length. }
  assert (0 <= d < 256 ^ Z.of_nat 4) as Hd4 by exact Hd.
  destruct (le_bytes_ok low Dl) as (V1 & B1 & L1). destruct (le_min_ok 4 d Hd4) as (V2 & B2 & L2 & M2).
  assert (d <> 0) as Hd0.
  { destruct Tx as [_ [|Tx]]; [done|]. pose proof (val_range low Dl) as Rl. rewrite Ll in Rl.
    replace (Z.of_nat (mp_top x - 1)) with (Z.of_nat (mp_top x) - 1) in Rl by lia. intros ->. lia. }
  destruct (M2 Hd0) as [P2 N2]. set (c1 := concat (map le4 low)) in *. set (c2 := le_min 4 d) in *.
  assert (le_val (c1 ++ c2) = mag x) as Vb.
  { rewrite le_val_app, V1, V2, L1, pow_256_4, Em by lia. do 3 f_equal. lia. }
  exists (c1 ++ c2). rewrite length_app. parts; [|by apply Forall_app|done| |lia].
  - erewrite bind_Done; [|apply lift_Done, le_digits_emit; lia]. rewrite drop_0, Et. fold c1.
    pose proof (emit_all c1 n [] ltac:(cbn; lia)) as H1. cbn [length app] in H1. change (Z.of_nat 0 + len c1) with (len c1) in H1.
    destruct (Z.leb_spec (len c1) n) as [Hr|Hf].
    + rewrite H1. erewrite bind_Done; [|erewrite bind_Done; [apply lift_Done; by apply le_last_emit|by apply lift_Done]].
      fold c2. pose proof (emit_all c2 n c1 Hr) as H2. destruct (Z.leb_spec (len c1 + len c2) n).
      * rewrite H2. apply given_room; [lia|rewrite length_app; lia].
      * destruct H2 as (o & -> & Lo). apply given_full; [lia|rewrite length_app; lia|lia].
    + destruct H1 as (o & -> & Lo). erewrite bind_Done; [|reflexivity]. apply given_full; [lia|rewrite length_app; lia|lia].
  - intros _. rewrite Em. pose proof (val_range low Dl) as Rl.
    replace (Z.of_nat (length c1 + length c2) - 1) with (4 * len low + (len c2 - 1)) by lia.
    assert (0 <= len c2 - 1) by (destruct c2; [done|cbn [length]; lia]).
    rewrite Z.pow_add_r, pow_256_4, Ll by lia. replace (Z.of_nat (mp_top x - 1)) with (Z.of_nat (mp_top x) - 1) by lia.
    assert (0 < B ^ (Z.of_nat (mp_top x) - 1)) by lia. nia.
Qed.

(** A byte added above the bits that are there. *)
Lemma add_high_byte x c i :
  0 <= i <= 24 -> in_u 8 c -> 0 <= x < 2 ^ i ->
  x .| u32 (c .<< i) = x + c * 2 ^ i /\ 0 <= x + c * 2 ^ i < 2 ^ (i + 8).
Proof.
  intros Hi Hc Hx. unfold in_u in Hc. change (2 ^ 8) with 256 in Hc.
  assert (2 ^ (i + 8) = 2 ^ i * 256) as E8 by (rewrite Z.pow_add_r by lia; done).
  assert (2 ^ (i + 8) <= 2 ^ 32) by (apply Z.pow_le_mono_r; lia).
  rewrite wrap_small by (unfold in_u; rewrite Z.shiftl_mul_pow2 by lia; nia).
  rewrite lor_shiftl_add by (lia || exact Hx). split; [done|]. nia.
Qed.

Lemma le_loop_ok bs rest i m x bp :
  is_bytes bs -> is_digits bp -> 0 <= i < 32 -> i mod 8 = 0 -> 0 <= x < 2 ^ i ->
  4 * Z.of_nat m + i / 8 + len bs <= 4 * len bp ->
  exists i' m' x' bp', le_loop (length bs) (bs ++ rest) i m x bp = Some (i', m', x', bp') /\
    is_digits bp' /\ length bp' = length bp /\ 0 <= i' < 32 /\ i' mod 8 = 0 /\ 0 <= x' < 2 ^ i' /\
    4 * Z.of_nat m' + i' / 8 = 4 * Z.of_nat m + i / 8 + len bs /\
    val (take m' bp') + B ^ Z.of_nat m' * x' = val (take m bp) + B ^ Z.of_nat m * (x + 2 ^ i * le_val bs).
Proof.
  intros Hb. revert i m x bp. induction Hb as [|c bs Hc Hb IH]; intros i m x bp Dp Hi Hi8 Hx Hlen.
  { exists i, m, x, bp. cbn [length le_val] in *. parts; try done; lia. }
  cbn [le_loop app length le_val] in *. pose proof (Z.div_mod i 8) as Ei.
  assert (i <= 24) as Hi24 by lia.
  destruct (add_high_byte x c i ltac:(lia) Hc Hx) as [Ex Hx']. rewrite Ex.
  assert (2 ^ (i + 8) = 2 ^ i * 256) as E8 by (rewrite Z.pow_add_r by lia; done).
  unfold Dbits. destruct (Z.eqb_spec (i + 8) 32) as [E32|Hne].
  - assert (i = 24) as -> by lia. change (24 / 8) with 3 in Hlen. change (24 + 8) with 32 in *.
    unfold write_digit. destruct (Nat.ltb_spec m (length bp)); [|lia]. cbn [mbind option_bind].
    destruct (IH 0 (S m) 0 (<[m := x + c * 2 ^ 24]> bp)) as (i' & m' & x' & bp' & E & D & L & Hi' & Hi8' & Hx2 & Hl & V).
    + apply Forall_insert; [done|]. exact Hx'.
    + lia.
    + done.
    + done.
    + rewrite length_insert. change (0 / 8) with 0. lia.
    + rewrite length_insert in L. exists i', m', x', bp'. change (0 / 8) with 0 in Hl. change (24 / 8) with 3. parts; try done; try lia.
      rewrite V. rewrite (take_S_r _ _ (x + c * 2 ^ 24)) by (by apply list_lookup_insert_eq).
      rewrite val_app, take_insert_ge, length_take, Nat.min_l by (rewrite ?length_insert; lia). cbn [val].
      rewrite Nat2Z.inj_succ, Z.pow_succ_r by lia. change (2 ^ 0) with 1. change B with (2 ^ 24 * 256) at 3. ring.
  - destruct (IH (i + 8) m (x + c * 2 ^ i) bp) as (i' & m' & x' & bp' & E & D & L & Hi' & Hi8' & Hx2 & Hl & V); try done.
    + lia.
    + rewrite <- (Z.mod_add i 1 8) in Hi8 by lia. exact Hi8.
    + replace (i + 8) with (i + 1 * 8) by lia. rewrite Z.div_add by lia. lia.
    + replace ((i + 8) / 8) with (i / 8 + 1) in Hl by (replace (i + 8) with (i + 1 * 8) by lia; rewrite Z.div_add by lia; lia).
      exists i', m', x', bp'. parts; try done; try lia.
Qed.

(** [letomp]: the number of the bytes, with the sign the object had; trimmed when the array was
    as short as possible. *)
Lemma letomp_ok h (b : Z) s bs rest :
  h !! b = Some s -> raw s -> is_bytes bs -> len bs < 2 ^ 28 ->
  exists c, letomp (bs ++ rest) (len bs) (Some b) h = Done b (<[b := c]> h) /\ raw c /\
    mag c = le_val bs /\ mp_sign c = mp_sign s /\ (bs = [] \/ 256 ^ (len bs - 1) <= le_val bs -> trimmed c).
Proof.
  intros Hs Rs Hb Hlen. unfold letomp, target. erewrite bind_Done; [|reflexivity].
  rewrite (wrap_small 32) by (unfold in_u; lia).
  rewrite swrap_small by (unfold in_s; change (2 ^ (32 - 1)) with (2 ^ 31); lia).
  destruct (with_bits_ok (8 * len bs) s Rs) as (Rw & Hn & _ & _ & Hsg & _). unfold mpbits. mrun. mrun.
  set (w := with_bits _ s) in *. pose proof Rw as (Dw & Lw & Pw).
  assert (len bs <= 4 * len (mp_p w)) as Hroom.
  { unfold DIGITS in Hn. rewrite Z.quot_div_nonneg in Hn by (unfold Dbits; lia).
    pose proof (Z.div_mod (Dbits - 1 + 8 * len bs) Dbits). pose proof (Z.mod_pos_bound (Dbits - 1 + 8 * len bs) Dbits).
    unfold Dbits in *. lia. }
  destruct (le_loop_ok bs rest 0 0 0 (mp_p w)) as (i & m & x & bp & E & Dp & Lp & Hi & Hi8 & Hx & Hl & V);
    [done|done|lia|done|done|change (0 / 8) with 0; lia|].
  rewrite Nat2Z.id. mrun. cbn beta iota. change (0 / 8) with 0 in Hl.
  rewrite take_0 in V. cbn [val] in V. change (2 ^ 0) with 1 in V. change (B ^ Z.of_nat 0) with 1 in V.
  pose proof (Z.div_mod i 8 ltac:(lia)) as Ei.
  assert (exists bp2 m2, (if 0 <? i then bp0 ← write_digit bp m x; Some (bp0, S m) else Some (bp, m)) = Some (bp2, m2) /\
    is_digits bp2 /\ length bp2 = length bp /\ (m2 <= length bp2)%nat /\ val (take m2 bp2) = le_val bs /\
    (4 * (Z.of_nat m2 - 1) < len bs \/ m2 = 0%nat)) as (bp2 & m2 & E2 & D2 & L2 & Hm2 & V2 & Hmin).
  { destruct (Z.ltb_spec 0 i) as [Hp|Hp].
    - unfold write_digit. destruct (Nat.ltb_spec m (length bp)); [|lia]. cbn [mbind option_bind].
      exists (<[m := x]> bp), (S m). rewrite length_insert. parts; try done; try lia.
      + apply Forall_insert; [done|]. unfold in_u. assert (2 ^ i <= 2 ^ 32) by (apply Z.pow_le_mono_r; lia). lia.
      + rewrite (take_S_r _ _ x) by (by apply list_lookup_insert_eq).
        rewrite val_app, take_insert_ge, length_take, Nat.min_l by (rewrite ?length_insert; lia). cbn [val]. lia.
    - assert (i = 0) as -> by lia. change (0 / 8) with 0 in Hl. change (2 ^ 0) with 1 in Hx. assert (x = 0) as -> by lia.
      exists bp, m. parts; try done; lia. }
  mrun. cbn beta iota. unfold put. erewrite bind_Done; [|reflexivity]. rewrite insert_insert_eq.
  eexists. split; [reflexivity|]. set (c := _ <| mp_top := m2 |>).
  assert (raw c) as Rc by (split_and!; [exact D2|exact Hm2|change (0 < length bp2)%nat; lia]).
  parts; [exact Rc|exact V2|exact Hsg|]. intros Hb0. split; [exact Rc|]. change (mp_top c) with m2.
  change (mag c) with (val (take m2 bp2)). rewrite V2. destruct Hmin as [Hmin|]; [|by left].
  destruct Hb0 as [->|Hb0]; [left; cbn [length] in Hmin; lia|]. destruct m2 as [|m2]; [by left|]. right.
  etransitivity; [|exact Hb0]. rewrite <- pow_256_4 by lia. apply Z.pow_le_mono_r; lia.
Qed.

(** ** Round trips *)

Section round_trips.
Context (h : heap) (a b : Z) (x s : mpint).
Hypotheses (Hx : h !! a = Some x) (Tx : trimmed x) (Hs : h !! b = Some s) (Rs : raw s)
  (Hsmall : Z.of_nat (mp_top x) < 2 ^ 25).

(** [betomp] reads back the magnitude that [mptobe] wrote, to any other object or the same;
    the sign is not part of the array. *)
Theorem mptobe_betomp :
  exists c, ('(n, p) ← mptobe a None; betomp p n (Some b)) h = Done b (<[b := c]> h) /\
    mag c = mag x /\ mp_sign c = mp_sign s /\ (mag x <> 0 -> trimmed c).
Proof using All.
  set (n := (Z.of_nat (mp_top x) + 1) * 4).
  destruct (mptobe_ok h a x (replicate (Z.to_nat n) 0) n Hx (proj1 Tx)) as (bs & (p & E & L & T) & Bb & Vb & Hb & Lb).
  { rewrite length_replicate. lia. }
  assert (len bs <= n) as Hn by (unfold n; lia). destruct (T Hn) as [t ->].
  assert (mptobe a None h = Done (len bs, bs ++ t) h) as E'.
  { destruct (Z.leb_spec (len bs) n); [|lia]. rewrite <- E. unfold mptobe. erewrite !bind_Done by (by apply obj_Done). done. }
  erewrite bind_Done; [|exact E']. cbn beta iota.
  destruct (betomp_ok h b s bs t Hs Rs Bb) as (c & Ec & _ & Mc & Sc & Tc); [destruct Hb as [->|(? & ? & -> & _)]; done|unfold n in *; lia|].
  exists c. rewrite <- Vb. done.
Qed.

(** [letomp] reads back the number that [mptole] wrote, digit for digit. *)
Theorem mptole_letomp :
  exists c, ('(n, p) ← mptole a None; letomp p n (Some b)) h = Done b (<[b := c]> h) /\
    trimmed c /\ mag c = mag x /\ mp_sign c = mp_sign s.
Proof using All.
  set (n := (Z.of_nat (mp_top x) + 1) * 4).
  destruct (mptole_ok h a x (replicate (Z.to_nat n) 0) n Hx Tx) as (bs & (p & E & L & T) & Bb & Vb & Hb & Lb).
  { rewrite length_replicate. lia. }
  assert (len bs <= n) as Hn by (unfold n; lia). destruct (T Hn) as [t ->].
  assert (mptole a None h = Done (len bs, bs ++ t) h) as E'.
  { destruct (Z.leb_spec (len bs) n); [|lia]. rewrite <- E. unfold mptole. erewrite !bind_Done by (by apply obj_Done). done. }
  erewrite bind_Done; [|exact E']. cbn beta iota.
  destruct (letomp_ok h b s bs t Hs Rs Bb) as (c & Ec & Rc & Mc & Sc & Tc); [unfold n in *; lia|].
  exists c. rewrite <- Vb. parts; try done. apply Tc. destruct bs as [|c0 bs]; [by left|]. right. rewrite Vb. apply Hb.
  intros E0. apply (mag_zero x Tx) in E0. rewrite E0 in Lb. cbn [length] in Lb. lia.
Qed.
End round_trips.

(** ** On numbers *)

Lemma mptobe_betomp_witness :
  exists c, ('(n, p) ← mptobe 11 None; betomp p n (Some 12)) ex_heap = Done 12 (<[12 := c]> ex_heap) /\
    mag c = 1 + 3 * B /\ mp_sign c = 1 /\ (1 + 3 * B <> 0 -> trimmed c).
Proof. apply (mptobe_betomp ex_heap 11 12 ex_two ex_nil); on_numbers. Defined.

Lemma mptole_letomp_witness :
  exists c, ('(n, p) ← mptole 11 None; letomp p n (Some 11)) ex_heap = Done 11 (<[11 := c]> ex_heap) /\
    trimmed c /\ mag c = 1 + 3 * B /\ mp_sign c = 1.
Proof. apply (mptole_letomp ex_heap 11 11 ex_two ex_two); on_numbers. Defined.

(** The number [betomp] reads from a zero byte has a digit and is not equal to zero. *)
Theorem betomp_zero :
  (b ← betomp [0] 1 (Some 12); mpcmp b mpzero) ex_heap = Done 1 (<[12 := mkMpint 1 1 [0] false]> ex_heap).
Proof. vm_compute. reflexivity. Qed.

(** Both readers leave the sign of the object: five becomes minus five. *)
Theorem betomp_sign_kept :
  betomp [5] 1 (Some 10) ex_heap = Done 10 (<[10 := mkMpint (-1) 1 [5; 0] false]> ex_heap).
Proof. vm_compute. reflexivity. Qed.
