(* ===== verification/Mpexp.v ===== *)
(** * Powers: [mpexp.c]

    The client of multiplication and division: two objects hold the power in turn. *)

From S2P Require Import Prelude Mpvec Mpmul Mpint MpintProps Mpshift Mpdiv.

Implicit Types (h : heap).

(** ** The function *)

(** [for(bit = mpdighi; (bit & d) == 0; bit >>= 1);] [None]: the digit is zero, and the loop does
    not end. *)
Fixpoint exp_first (n : nat) (bit d : Z) : option Z :=
  match n with
  | O => None
  | S n => if (bit .& d) =? 0 then exp_first n (bit .>> 1) d else Some bit
  end.

Section loops.
Context (t : bool -> Z) (b e : Z) (m : option Z).

(** One bit of the exponent; [t j] holds the power. *)
Definition exp_step (bit d : Z) (j : bool) : mpm bool :=
  mpmul (t j) (t j) (t (negb j));;
  j ← (if negb ((bit .& d) =? 0) then
         mpmul (t (negb j)) b (t j);;
         mret j
       else mret (negb j));
  match m with
  | None => mret j
  | Some m =>
      T ← obj (t j);
      M ← obj m;
      if (mp_top M <? mp_top T)%nat then
        mpmod (t j) m (t (negb j));;
        mret (negb j)
      else mret j
  end.

Fixpoint exp_bits (fuel : nat) (bit d : Z) (j : bool) : mpm bool :=
  if bit =? 0 then mret j
  else
    match fuel with
    | O => halt Endless
    | S fuel =>
        j ← exp_step bit d j;
        exp_bits fuel (bit .>> 1) d j
    end.

(** The digits of the exponent from position [i] down, the first of them [d] from [bit] on. *)
Fixpoint exp_digits (i : nat) (bit d : Z) (j : bool) : mpm bool :=
  j ← exp_bits 32 bit d j;
  match i with
  | O => mret j
  | S i =>
      E ← obj e;
      d ← lift (mp_p E !! i);
      exp_digits i mpdighi d j
  end.

(** The power of the exponent's bits after the first, reduced, and its place. *)
Definition exp_main : mpm bool :=
  E ← obj e;
  d ← lift (mp_p E !! (mp_top E - 1)%nat);
  match exp_first 32 mpdighi d with
  | None => halt Endless
  | Some bit =>
      j ← exp_digits (mp_top E - 1) (bit .>> 1) d false;
      match m with
      | None => mret j
      | Some m => mpmod (t j) m (t (negb j));; mret (negb j)
      end
  end.
End loops.

(** A copy of an operand that is the result. *)
Definition exp_copy (res a : Z) : mpm Z := if res =? a then mpcopy a else mret a.

Definition mpexp (b e : Z) (m : option Z) (res : Z) : mpm unit :=
  i ← mpcmp e mpzero;
  if i =? 0 then mpassign mpone res
  else if i <? 0 then halt Fatal
  else
    t0 ← mpcopy b;
    b' ← exp_copy res b;
    e' ← exp_copy res e;
    m' ← match m with None => mret None | Some m => m' ← exp_copy res m; mret (Some m') end;
    let t := fun j : bool => if j then res else t0 in
    j ← exp_main t b' e' m';
    (if (t j =? res) then mpfree (Some (t (negb j)))
     else
       mpassign (t j) res;;
       mpfree (Some (t j)));;
    (if res =? b then mpfree (Some b') else mret tt);;
    (if res =? e then mpfree (Some e') else mret tt);;
    match m with
    | None => mret tt
    | Some m => if res =? m then mpfree m' else mret tt
    end.

(** ** One object holds a power *)

(** [v] is the power [w], or congruent to it modulo [M]. *)
Definition power_is (M : option Z) (v w : Z) : Prop :=
  match M with
  | None => v = w
  | Some M => 0 <= v /\ v mod M = w mod M
  end.

Lemma power_mul M v w v' w' :
  (match M with None => True | Some M => 0 < M end) ->
  power_is M v w -> power_is M v' w' -> power_is M (v * v') (w * w').
Proof.
  destruct M as [M|]; cbn [power_is]; intros HM; [|by intros -> ->]. intros [H1 E1] [H2 E2].
  split; [lia|]. rewrite Z.mul_mod, E1, E2, <- Z.mul_mod by lia. done.
Qed.

(** The bit [n - 1] of a digit. *)
Definition bit_at (n : nat) : Z := match n with O => 0 | S k => 2 ^ Z.of_nat k end.

Lemma bit_at_S n : bit_at (S n) .>> 1 = bit_at n.
Proof.
  cbn [bit_at]. rewrite shiftr_div by lia. destruct n as [|k]; cbn [bit_at]; [done|].
  rewrite Nat2Z.inj_succ, Z.pow_succ_r, Z.mul_comm by lia. change (2 ^ 1) with 2. apply Z.div_mul. lia.
Qed.

Lemma bit_test d k :
  0 <= k -> ((2 ^ k .& d) =? 0) = negb (Z.testbit d k) /\ d mod 2 ^ (k + 1) = d mod 2 ^ k + (if Z.testbit d k then 2 ^ k else 0).
Proof.
  intros Hk. split.
  - destruct (Z.testbit d k) eqn:Eb; cbn [negb].
    + apply Z.eqb_neq. intros E. assert (Z.testbit (2 ^ k .& d) k = true) as Ht
        by (rewrite Z.land_spec, Eb; by rewrite Z.pow2_bits_true by lia). by rewrite E, Z.bits_0 in Ht.
    + apply Z.eqb_eq, Z.bits_inj_0. intros n. rewrite Z.land_spec.
      destruct (Z.eq_dec n k) as [->|Hn]; [by rewrite Eb, andb_false_r|]. by rewrite Z.pow2_bits_false by lia.
  - rewrite Z.pow_add_r, Z.pow_1_r, Z.rem_mul_r by lia. f_equal.
    rewrite <- (Z.testbit_spec' d k) by lia.
    destruct (Z.testbit d k); cbn [Z.b2z]; lia.
Qed.

(** The first bit of a digit that is not zero. *)
Lemma exp_first_ok k d :
  0 < d < 2 ^ Z.of_nat k ->
  exists n, exp_first k (bit_at k) d = Some (bit_at (S n)) /\ (n < k)%nat /\ 2 ^ Z.of_nat n <= d < 2 ^ Z.of_nat (S n).
Proof.
  induction k as [|k IH]; intros Hd; [change (2 ^ Z.of_nat 0) with 1 in Hd; lia|].
  cbn [exp_first]. rewrite bit_at_S. destruct (bit_test d (Z.of_nat k) ltac:(lia)) as [Eb Em].
  cbn [bit_at]. rewrite Eb. rewrite Z.add_1_r, <- Nat2Z.inj_succ, Z.mod_small in Em by lia.
  pose proof (Z.mod_pos_bound d (2 ^ Z.of_nat k) ltac:(lia)) as Hm.
  destruct (Z.testbit d (Z.of_nat k)); cbn [negb].
  - exists k. split; [done|]. split; [lia|]. lia.
  - destruct IH as (n & E & Hn & Hr); [lia|]. exists n. split; [done|]. split; [lia|done].
Qed.

(** The power is a normal form, and the object that will be freed is not a constant. *)
Definition held (j : bool) (y z : mpint) : Prop :=
  normal y /\ raw z /\ mp_static (if j then z else y) = false.

Section powers.
Context (h0 : heap) (t0 res b e : Z) (m : option Z) (xb xe xm : mpint).
Hypotheses (Ht : t0 <> res) (Hb : h0 !! b = Some xb) (Nb : normal xb) (Hb0 : b <> t0) (Hb1 : b <> res)
  (He : h0 !! e = Some xe) (Ne : normal xe) (He0 : e <> t0) (He1 : e <> res)
  (Hm : forall a, m = Some a -> h0 !! a = Some xm /\ normal xm /\ 0 < mpval xm /\ a <> t0 /\ a <> res /\ 0 <= mpval xb)
  (Hz : h0 !! mpzero = Some _mpzero) (Hz0 : t0 <> mpzero) (Hz1 : res <> mpzero).

Let t := fun j : bool => if j then res else t0.
Let M : option Z := match m with None => None | Some _ => Some (mpval xm) end.

(** The heap with the power in [t j] and something in the other object. *)
Definition turn (j : bool) (y z : mpint) : heap := <[t j := y]> (<[t (negb j) := z]> h0).

Local Lemma t_ne j : t j <> t (negb j).
Proof using Ht. destruct j; cbn; congruence. Qed.

Local Lemma turn_swap j y z : turn j y z = turn (negb j) z y.
Proof using Ht.
  unfold turn. rewrite negb_involutive. apply insert_insert_ne. apply t_ne.
Qed.

Local Lemma turn_other j y z a : a <> t0 -> a <> res -> turn j y z !! a = h0 !! a.
Proof using Ht. intros. unfold turn. destruct j; cbn; by rewrite !lookup_insert_ne by congruence. Qed.

Local Lemma turn_here j y z : turn j y z !! t j = Some y.
Proof using Ht. apply lookup_insert_eq. Qed.

Local Lemma turn_there j y z : turn j y z !! t (negb j) = Some z.
Proof using Ht. rewrite turn_swap. apply lookup_insert_eq. Qed.

Local Lemma turn_set j y z c : <[t (negb j) := c]> (turn j y z) = turn j y c.
Proof using Ht.
  rewrite !(turn_swap j). unfold turn. by rewrite insert_insert_eq.
Qed.

(** A reduction moves the power to the other object. *)
Local Lemma exp_mod_ok a j y z :
  m = Some a -> held j y z -> 0 <= mpval y ->
  exists c, mpmod (t j) a (t (negb j)) (turn j y z) = Done tt (turn (negb j) c y) /\ held (negb j) c y /\
    mpval c = mpval y mod mpval xm.
Proof using All.
  intros Ea (Ny & Rz & Sz) H0. destruct (Hm a Ea) as (Ha & Na & Pa & Ha0 & Ha1 & _).
  destruct (mpmod_ok (turn j y z) (t j) a (t (negb j)) y xm z) as (c & Ec & Nc & Vc & Sc);
    [apply turn_here|done|by rewrite turn_other|done|lia|apply turn_there|done|by rewrite turn_other
    |destruct j; cbn; congruence|destruct j; cbn; congruence|done|by left|].
  rewrite turn_set, (turn_swap j y c) in Ec. exists c. parts; try done.
  split_and!; [exact Nc|apply Ny|]. destruct j; cbn in *; congruence.
Qed.

(** One bit: the square, times the base when the bit is set, reduced when it is long. *)
Lemma exp_step_ok bit d j y z w :
  held j y z -> power_is M (mpval y) w ->
  exists j' y' z', exp_step t b m bit d j (turn j y z) = Done j' (turn j' y' z') /\ held j' y' z' /\
    power_is M (mpval y') (w * w * (if (bit .& d) =? 0 then 1 else mpval xb)).
Proof using All.
  intros (Ny & Rz & Sz) Hw. pose proof exp_mod_ok as Hmod.
  assert (match M with None => True | Some M => 0 < M end) as HM.
  { unfold M. destruct m as [a|]; [|done]. by destruct (Hm a eq_refl) as (_ & _ & ? & _). }
  assert (power_is M (mpval xb) (mpval xb)) as Hxb.
  { unfold M. destruct m as [a|]; [|done]. split; [|done]. by destruct (Hm a eq_refl) as (_ & _ & _ & _ & _ & ?). }
  destruct (mpmul_ok (turn j y z) (t j) (t j) (t (negb j)) y y z) as (c & Ec & Nc & Vc & Sc);
    [apply turn_here|done|apply turn_here|done|apply turn_there|done|].
  rewrite turn_set in Ec. unfold exp_step. erewrite bind_Done; [|exact Ec].
  assert (exists j1 y1 z1, (if negb ((bit .& d) =? 0) then mpmul (t (negb j)) b (t j);; mret j else mret (negb j)) (turn j y c)
    = Done j1 (turn j1 y1 z1) /\ held j1 y1 z1 /\
    power_is M (mpval y1) (w * w * (if (bit .& d) =? 0 then 1 else mpval xb))) as (j1 & y1 & z1 & E1 & (N1 & R1 & S1) & P1).
  { pose proof (power_mul M _ _ _ _ HM Hw Hw) as Hsq. rewrite <- Vc in Hsq.
    destruct ((bit .& d) =? 0); cbn [negb].
    - exists (negb j), c, y. rewrite turn_swap, Z.mul_1_r. parts; try done. split_and!; [exact Nc|apply Ny|].
      destruct j; cbn in *; congruence.
    - destruct (mpmul_ok (turn (negb j) c y) (t (negb j)) b (t j) c xb y) as (c2 & Ec2 & N2 & V2 & S2);
        [apply turn_here|done|by rewrite turn_other|done|rewrite <- turn_swap; apply turn_here|apply Ny|].
      rewrite <- turn_swap in Ec2. unfold turn at 2 in Ec2. rewrite insert_insert_eq in Ec2. fold (turn j c2 c) in Ec2.
      exists j, c2, c. erewrite bind_Done; [|exact Ec2]. parts; try done; [|rewrite V2; by apply power_mul].
      split_and!; [exact N2|apply Nc|]. destruct j; cbn in *; congruence. }
  erewrite bind_Done; [|exact E1]. unfold M in *. destruct m as [a|]; [|by exists j1, y1, z1].
  destruct (Hm a eq_refl) as (Ha & Na & Pa & Ha0 & Ha1 & _).
  erewrite bind_Done; [|apply obj_Done, turn_here]. erewrite bind_Done; [|apply obj_Done; by rewrite turn_other].
  destruct (Nat.ltb (mp_top xm) (mp_top y1)); [|by exists j1, y1, z1].
  cbn [power_is] in P1. destruct P1 as [P0 P1].
  destruct (Hmod a j1 y1 z1) as (c2 & Ec2 & N2 & V2); [done|by split_and!|done|].
  erewrite bind_Done; [|exact Ec2]. exists (negb j1), c2, y1. parts; try done. cbn [power_is]. rewrite V2.
  split; [apply Z.mod_pos_bound; lia|]. by rewrite Z.mod_mod by lia.
Qed.

Lemma exp_bits_ok n fuel d j y z w :
  (n <= fuel)%nat -> in_u 32 d -> 0 <= w -> held j y z -> power_is M (mpval y) (mpval xb ^ w) ->
  exists j' y' z', exp_bits t b m fuel (bit_at n) d j (turn j y z) = Done j' (turn j' y' z') /\ held j' y' z' /\
    power_is M (mpval y') (mpval xb ^ (w * 2 ^ Z.of_nat n + d mod 2 ^ Z.of_nat n)).
Proof using All.
  intros Hn Hd. revert n j y z w Hn. induction fuel as [|fuel IH]; intros n j y z w Hn Hw Ny Hp.
  all: destruct n as [|k]; cbn [exp_bits]; [rewrite Z.eqb_refl; exists j, y, z; rewrite Z.mod_1_r, Z.mul_1_r, Z.add_0_r; done|].
  1: lia.
  cbn [bit_at]. destruct (Z.eqb_spec (2 ^ Z.of_nat k) 0); [lia|].
  destruct (exp_step_ok (2 ^ Z.of_nat k) d j y z _ Ny Hp) as (j1 & y1 & z1 & E1 & N1 & P1).
  erewrite bind_Done; [|exact E1]. fold (bit_at (S k)). rewrite bit_at_S.
  destruct (bit_test d (Z.of_nat k) ltac:(lia)) as [Eb Em]. rewrite Eb in P1.
  set (a := if Z.testbit d (Z.of_nat k) then 1 else 0).
  assert (0 <= a) by (unfold a; destruct (Z.testbit d (Z.of_nat k)); lia).
  assert (mpval xb ^ w * mpval xb ^ w * (if negb (Z.testbit d (Z.of_nat k)) then 1 else mpval xb) = mpval xb ^ (2 * w + a)) as Ew.
  { rewrite Z.pow_add_r, (Z.mul_comm 2 w), Z.pow_mul_r, Z.pow_2_r by lia. unfold a.
    destruct (Z.testbit d (Z.of_nat k)); cbn [negb]; rewrite ?Z.pow_1_r, ?Z.pow_0_r; ring. }
  rewrite Ew in P1.
  destruct (IH k j1 y1 z1 (2 * w + a)) as (j2 & y2 & z2 & E2 & N2 & P2); [lia|lia|done..|].
  exists j2, y2, z2. parts; try done.
  replace (w * 2 ^ Z.of_nat (S k) + d mod 2 ^ Z.of_nat (S k)) with ((2 * w + a) * 2 ^ Z.of_nat k + d mod 2 ^ Z.of_nat k); [done|].
  rewrite Nat2Z.inj_succ, <- Z.add_1_r, Em, Z.pow_add_r, Z.pow_1_r by lia. unfold a. destruct (Z.testbit d (Z.of_nat k)); ring.
Qed.

Lemma exp_digits_ok i n d j y z w :
  (n <= 32)%nat -> in_u 32 d -> 0 <= w -> held j y z -> (i <= length (mp_p xe))%nat ->
  power_is M (mpval y) (mpval xb ^ w) ->
  exists j' y' z', exp_digits t b e m i (bit_at n) d j (turn j y z) = Done j' (turn j' y' z') /\ held j' y' z' /\
    power_is M (mpval y')
      (mpval xb ^ ((w * 2 ^ Z.of_nat n + d mod 2 ^ Z.of_nat n) * B ^ Z.of_nat i + val (take i (mp_p xe)))).
Proof using All.
  revert n d j y z w. induction i as [|i IH]; intros n d j y z w Hn Hd Hw Ny Hi Hp; cbn [exp_digits].
  all: destruct (exp_bits_ok n 32 d j y z w Hn Hd Hw Ny Hp) as (j1 & y1 & z1 & E1 & N1 & P1); erewrite bind_Done; [|exact E1].
  { exists j1, y1, z1. rewrite take_0. cbn [val Z.of_nat]. by rewrite Z.pow_0_r, Z.mul_1_r, Z.add_0_r. }
  pose proof Ne as ([(De & _) _] & _).
  destruct (lookup_lt_is_Some_2 (mp_p xe) i) as [x Hx]; [lia|]. pose proof (Forall_lookup_1 _ _ _ _ De Hx) as Dx.
  erewrite bind_Done; [|apply obj_Done; by rewrite turn_other]. mrun. change mpdighi with (bit_at 32).
  pose proof (Z.mod_pos_bound d (2 ^ Z.of_nat n) ltac:(lia)) as Hmod.
  destruct (IH 32%nat x j1 y1 z1 (w * 2 ^ Z.of_nat n + d mod 2 ^ Z.of_nat n)) as (j2 & y2 & z2 & E2 & N2 & P2);
    [lia|done|nia|done|lia|done|].
  exists j2, y2, z2. parts; try done. rewrite (take_S_r _ _ _ Hx), val_app, length_take, Nat.min_l by lia. cbn [val].
  rewrite Nat2Z.inj_succ, Z.pow_succ_r by lia. change (2 ^ Z.of_nat 32) with B in P2. rewrite (Z.mod_small x) in P2 by exact Dx.
  match goal with |- power_is _ _ (_ ^ ?u) => match type of P2 with power_is _ _ (_ ^ ?v) => replace u with v by ring end end. done.
Qed.

(** The whole power, from the base in the first object. *)
Lemma exp_main_ok y z :
  held false y z -> mpval y = mpval xb -> 0 < mpval xe ->
  exists j y' z', exp_main t b e m (turn false y z) = Done j (turn j y' z') /\ held j y' z' /\
    mpval y' = match m with None => mpval xb ^ mpval xe | Some _ => (mpval xb ^ mpval xe) mod mpval xm end.
Proof using All.
  intros Hy Vy Hpos. pose proof exp_mod_ok as Hmod. pose proof Ne as (Te & _). destruct (normal_mag xe Ne) as [Me _].
  assert (mp_top xe <> 0%nat) as Hne by (intros E; apply (mag_zero xe Te) in E; lia).
  destruct (digits_snoc xe (proj1 Te) Hne) as (low & d & Ed & Dl & Hd & Ll & El & Em).
  assert (d <> 0) as Hd0.
  { destruct Te as [_ [|Te]]; [done|]. pose proof (val_range low Dl) as Rl. rewrite Ll in Rl.
    replace (Z.of_nat (mp_top xe - 1)) with (Z.of_nat (mp_top xe) - 1) in Rl by lia. intros ->. lia. }
  unfold in_u in Hd. destruct (exp_first_ok 32 d) as (n & En & Hn & Hr); [change (2 ^ Z.of_nat 32) with B; lia|].
  unfold exp_main. erewrite bind_Done; [|apply obj_Done; by rewrite turn_other]. mrun.
  change mpdighi with (bit_at 32). rewrite En, bit_at_S. pose proof Te as [(_ & Lp & _) _].
  destruct (exp_digits_ok (mp_top xe - 1) n d false y z 1) as (j & y1 & z1 & E1 & H1 & P1); [lia|done|lia|done|lia| |].
  { rewrite Vy, Z.pow_1_r. unfold M. destruct m as [a|]; [|done]. split; [|done].
    by destruct (Hm a eq_refl) as (_ & _ & _ & _ & _ & ?). }
  erewrite bind_Done; [|exact E1].
  replace ((1 * 2 ^ Z.of_nat n + d mod 2 ^ Z.of_nat n) * B ^ Z.of_nat (mp_top xe - 1)
    + val (take (mp_top xe - 1) (mp_p xe))) with (mpval xe) in P1.
  2: { assert (take (mp_top xe - 1) (mp_p xe) = low) as ->.
       { rewrite digits_app, Ed, <- app_assoc, <- Ll. by rewrite take_app_length. }
       assert (d mod 2 ^ Z.of_nat n = d - 2 ^ Z.of_nat n) as ->.
       { rewrite Nat2Z.inj_succ, Z.pow_succ_r in Hr by lia. symmetry. apply (Z.mod_unique _ _ 1); lia. }
       replace (mpval xe) with (mag xe) by lia. rewrite Em.
       replace (Z.of_nat (mp_top xe - 1)) with (Z.of_nat (mp_top xe) - 1) by lia. ring. }
  unfold M in P1. destruct m as [a|] eqn:Ea; [|by exists j, y1, z1]. cbn [power_is] in P1. destruct P1 as [P0 P1].
  destruct (Hmod a j y1 z1) as (c2 & Ec2 & N2 & V2); [done|done|done|].
  erewrite bind_Done; [|exact Ec2]. exists (negb j), c2, y1. parts; try done. by rewrite V2, P1.
Qed.
End powers.

(** ** [mpexp] *)

(** A copy of an operand that is the result; the operand otherwise. *)
Lemma exp_copy_ok h (res a : Z) x :
  h !! a = Some x -> normal x ->
  exists a' x', exp_copy res a h = Done a' (if res =? a then <[a' := x']> h else h) /\
    (if res =? a then <[a' := x']> h else h) !! a' = Some x' /\ normal x' /\ mpval x' = mpval x /\ a' <> res /\
    (if res =? a then h !! a' = None /\ mp_static x' = false else a' = a).
Proof.
  intros Ha Nx. unfold exp_copy. destruct (Z.eqb_spec res a) as [->|Hne].
  - destruct (mpcopy_ok h a x Ha Nx) as (a' & x' & E & Hn & Nx' & Vx & Sx). exists a', x'. rewrite lookup_insert_eq.
    parts; try done. congruence.
  - exists a, x. by parts.
Qed.

(** Leaving the result in its place and freeing the other object. *)
Lemma exp_finish h0 (t0 res : Z) j y z :
  t0 <> res -> held j y z ->
  let t := fun j : bool => if j then res else t0 in
  exists c, (if t j =? res then mpfree (Some (t (negb j))) else mpassign (t j) res;; mpfree (Some (t j)))
      (turn h0 t0 res j y z) = Done tt (<[res := c]> (delete t0 h0)) /\ normal c /\ mpval c = mpval y.
Proof.
  intros Ht (Ny & Rz & Sz) t. destruct j; cbn [negb t].
  - exists y. rewrite Z.eqb_refl. erewrite mpfree_Done; [|rewrite (turn_swap h0 t0 res Ht); apply lookup_insert_eq|done].
    parts; try done. f_equal. rewrite (turn_swap h0 t0 res Ht). unfold turn. cbn [negb].
    rewrite delete_insert_eq, delete_insert_ne by done. done.
  - destruct (Z.eqb_spec t0 res); [done|]. unfold turn. cbn [negb].
    destruct (mpassign_trimmed (<[t0 := y]> (<[res := z]> h0)) t0 res y z) as (c & Ec & Tc & Sc & Hc & Mc & _);
      [apply lookup_insert_eq|apply Ny|rewrite lookup_insert_ne by done; apply lookup_insert_eq|done|].
    erewrite bind_Done; [|exact Ec].
    erewrite mpfree_Done; [|rewrite lookup_insert_ne by done; apply lookup_insert_eq|done].
    exists c. parts.
    + f_equal. apply map_eq. intros k. rewrite !lookup_delete, !lookup_insert, !lookup_delete. repeat case_decide; congruence.
    + split; [exact Tc|]. rewrite Sc, Hc. apply Ny.
    + unfold mpval. by rewrite Sc, Mc.
Qed.

(** Freeing a copy that was made. *)
Lemma exp_free h (res a a' : Z) x' :
  (res = a -> h !! a' = Some x' /\ mp_static x' = false) ->
  (if res =? a then mpfree (Some a') else mret tt) h = Done tt (if res =? a then delete a' h else h).
Proof.
  intros Hf. destruct (Z.eqb_spec res a) as [E|]; [|done]. destruct (Hf E) as [Ha Hs]. by erewrite mpfree_Done.
Qed.

Section mpexp.
Context (h : heap) (b e m res : Z) (xb xe xm s : mpint).
Hypotheses (Hb : h !! b = Some xb) (Nb : normal xb) (He : h !! e = Some xe) (Ne : normal xe)
  (Hm : h !! m = Some xm) (Nm : normal xm) (Hs : h !! res = Some s) (Rs : raw s)
  (Hz : h !! mpzero = Some _mpzero) (Ho : h !! mpone = Some _mpone) (Hrz : res <> mpzero)
  (Vb : 0 <= mpval xb) (Ve : 0 <= mpval xe) (Vm : 0 < mpval xm).

(** The end of [mpexp]. *)
Definition exp_frees (b' e' m' : Z) : mpm unit :=
  (if res =? b then mpfree (Some b') else mret tt);;
  (if res =? e then mpfree (Some e') else mret tt);;
  if res =? m then mpfree (Some m') else mret tt.

(** The copies [mpexp] starts with, all of which are freed at its end. *)
Lemma exp_copies_ok :
  exists t0 c0 b' xb' e' xe' m' xm' h4,
    (forall A (k : Z -> Z -> Z -> option Z -> mpm A),
       (t0 ← mpcopy b; b' ← exp_copy res b; e' ← exp_copy res e;
        m' ← (m' ← exp_copy res m; mret (Some m'));
        k t0 b' e' m') h = k t0 b' e' (Some m') h4) /\
    (forall k v, h !! k = Some v -> h4 !! k = Some v) /\ h !! t0 = None /\
    h4 !! t0 = Some c0 /\ normal c0 /\ mpval c0 = mpval xb /\ mp_static c0 = false /\
    h4 !! b' = Some xb' /\ normal xb' /\ mpval xb' = mpval xb /\ b' <> res /\ b' <> t0 /\
    h4 !! e' = Some xe' /\ normal xe' /\ mpval xe' = mpval xe /\ e' <> res /\ e' <> t0 /\
    h4 !! m' = Some xm' /\ normal xm' /\ mpval xm' = mpval xm /\ m' <> res /\ m' <> t0 /\
    (forall c, exp_frees b' e' m' (<[res := c]> (delete t0 h4)) = Done tt (<[res := c]> h)).
Proof using All.
  destruct (mpcopy_ok h b xb Hb Nb) as (t0 & c0 & E0 & H0 & N0 & V0 & S0). 
  destruct (exp_copy_ok (<[t0 := c0]> h) res b xb) as (b' & xb' & E1 & L1 & N1 & V1 & D1 & F1);
    [by rewrite lookup_insert_ne by congruence|done|].
  set (h2 := if res =? b then _ else _) in *.
  assert (forall k v, h !! k = Some v -> h2 !! k = Some v) as X2.
  { intros k v Hk. unfold h2. destruct (Z.eqb_spec res b) as [Eb|]; rewrite !lookup_insert_ne; try congruence.
    intros ->. rewrite lookup_insert_ne in F1 by congruence. destruct F1. congruence. }
  destruct (exp_copy_ok h2 res e xe) as (e' & xe' & E2 & L2 & N2 & V2 & D2 & F2); [by apply X2|done|].
  set (h3 := if res =? e then _ else _) in *.
  assert (forall k v, h2 !! k = Some v -> h3 !! k = Some v) as X3.
  { intros k v Hk. unfold h3. destruct (Z.eqb_spec res e) as [Eb|]; [|done]. destruct F2. rewrite lookup_insert_ne; congruence. }
  destruct (exp_copy_ok h3 res m xm) as (m' & xm' & E3 & L3 & N3 & V3 & D3 & F3); [by apply X3, X2|done|].
  set (h4 := if res =? m then _ else _) in *.
  assert (forall k v, h3 !! k = Some v -> h4 !! k = Some v) as X4.
  { intros k v Hk. unfold h4. destruct (Z.eqb_spec res m) as [Eb|]; [|done]. destruct F3. rewrite lookup_insert_ne; congruence. }
  assert (h2 !! t0 = Some c0 /\ b' <> t0) as [T2 B2].
  { unfold h2. destruct (Z.eqb_spec res b) as [Eb|]; [|split; [apply lookup_insert_eq|congruence]].
    destruct F1 as [F1 _]. assert (b' <> t0) as Hbt by (intros ->; by rewrite lookup_insert_eq in F1).
    split; [|done]. rewrite lookup_insert_ne by done. apply lookup_insert_eq. }
  assert (e' <> t0) as B3 by (destruct (res =? e); [intros ->; destruct F2; congruence|congruence]).
  assert (m' <> t0) as B4 by (pose proof (X3 _ _ T2); destruct (res =? m); [intros ->; destruct F3; congruence|congruence]).
  pose proof (X4 _ _ (X3 _ _ T2)) as T4. pose proof (X4 _ _ (X3 _ _ (X2 _ _ Hs))) as R4.
  exists t0, c0, b', xb', e', xe', m', xm', h4. parts; try done; try (by apply X4, X3); try (by apply X4).
  { intros A k. erewrite bind_Done; [|exact E0]. erewrite bind_Done; [|exact E1]. fold h2. erewrite bind_Done; [|exact E2].
    fold h3. erewrite bind_Done; [|erewrite bind_Done; [reflexivity|exact E3]]. done. }
  { auto. }
  intros c. unfold exp_frees.
  assert (forall k v, h4 !! k = Some v -> k <> res -> k <> t0 -> (<[res := c]> (delete t0 h4)) !! k = Some v) as Hlk.
  { intros k v Hk K1 K2. by rewrite lookup_insert_ne, lookup_delete_ne by congruence. }
  assert (res = b -> res = e -> b' <> e') as Dbe by (intros -> ->; rewrite Z.eqb_refl in *; destruct F2; congruence).
  assert (res = b -> res = m -> b' <> m') as Dbm.
  { intros -> ->. pose proof (X3 _ _ L1) as Y. rewrite Z.eqb_refl in *. destruct F3. congruence. }
  assert (res = e -> res = m -> e' <> m') as Dem.
  { intros -> ->. rewrite Z.eqb_refl in *. destruct F3. congruence. }
  erewrite bind_Done; [|apply (exp_free _ res b b' xb'); intros ->; rewrite Z.eqb_refl in F1; split; [by apply Hlk; [apply X4, X3|..]|apply F1]].
  erewrite bind_Done; [|apply (exp_free _ res e e' xe'); intros E; split; [|subst e; rewrite Z.eqb_refl in F2; apply F2]].
  2: { destruct (Z.eqb_spec res b); [rewrite lookup_delete_ne by auto|]; by apply Hlk; [apply X4|..]. }
  rewrite (exp_free _ res m m' xm').
  2: { intros E. split; [|subst m; rewrite Z.eqb_refl in F3; apply F3].
       destruct (Z.eqb_spec res e); [rewrite lookup_delete_ne by auto|];
         (destruct (Z.eqb_spec res b); [rewrite lookup_delete_ne by auto|]); by apply Hlk. }
  f_equal.
  assert (forall (f g : heap) k, (forall v, f !! k = Some v -> g !! k = Some v) -> g !! k = None -> f !! k = None) as Hback.
  { intros f g k Hfg Hk. destruct (f !! k) as [v|] eqn:E; [|done]. specialize (Hfg v eq_refl). congruence. }
  assert (res = b -> h !! b' = None) as G1.
  { intros ->. rewrite Z.eqb_refl in F1. destruct F1 as [F1 _]. by rewrite lookup_insert_ne in F1 by congruence. }
  assert (res = e -> h !! e' = None) as G2 by (intros ->; rewrite Z.eqb_refl in F2; apply (Hback h h2); [auto|apply F2]).
  assert (res = m -> h !! m' = None) as G3.
  { intros ->. rewrite Z.eqb_refl in F3. apply (Hback h h3); [auto|apply F3]. }
  clear - G1 G2 G3 H0 D1 D2 D3. subst h2 h3 h4. apply map_eq. intros k.
  destruct (Z.eqb_spec res b), (Z.eqb_spec res e), (Z.eqb_spec res m);
    rewrite ?lookup_delete, ?lookup_insert, ?lookup_delete, ?lookup_insert;
    repeat case_decide; subst; try congruence; try rewrite ?lookup_delete, ?lookup_insert; repeat case_decide; first [congruence | symmetry; auto].
Qed.

(** An exponent that is not zero. *)
Lemma mpexp_positive :
  0 < mpval xe ->
  exists c, mpexp b e (Some m) res h = Done tt (<[res := c]> h) /\ normal c /\
    mpval c = (mpval xb ^ mpval xe) mod mpval xm.
Proof using All.
  intros Hpos. destruct (mpcmp_ok h e mpzero xe _mpzero He Ne Hz ltac:(by_decide)) as (i & Ei & Hi).
  change (mpval _mpzero) with 0 in Hi. unfold mpexp. erewrite bind_Done; [|exact Ei].
  destruct (Z.eqb_spec i 0); [lia|]. destruct (Z.ltb_spec i 0); [lia|].
  destruct exp_copies_ok as (t0 & c0 & b' & xb' & e' & xe' & m' & xm' & h4 & Ecp & X4 & H0 & T4 & N0 & V0 & S0
    & L1 & N1 & V1 & D1 & B1 & L2 & N2 & V2 & D2 & B2 & L3 & N3 & V3 & D3 & B3 & Hfree).
  rewrite Ecp. pose proof (X4 _ _ Hs) as R4.
  assert (turn h4 t0 res false c0 s = h4) as Et.
  { unfold turn. cbn [negb]. by rewrite (insert_id h4 res s R4), (insert_id h4 t0 c0 T4). }
  destruct (exp_main_ok h4 t0 res b' e' (Some m') xb' xe' xm') with (y := c0) (z := s) as (j & y & z & Em & Hh & Vy);
    try done; try congruence; try (by apply X4).
  { intros a [= <-]. rewrite V1, V3. parts; done || lia. }
  rewrite Et in Em. cbv zeta. erewrite bind_Done; [|exact Em].
  destruct (exp_finish h4 t0 res j y z) as (c & Ec & Nc & Vc); [congruence|done|]. erewrite bind_Done; [|exact Ec].
  exists c. rewrite Vc, Vy, V1, V2, V3. parts; try done. apply Hfree.
Qed.

Lemma mpexp_ok :
  mpval xm <> 1 \/ mpval xe <> 0 ->
  exists c, mpexp b e (Some m) res h = Done tt (<[res := c]> h) /\ normal c /\
    mpval c = (mpval xb ^ mpval xe) mod mpval xm.
Proof using All.
  intros H1. destruct (Z.eq_dec (mpval xe) 0) as [E|Hne]; [|apply mpexp_positive; lia].
  destruct (mpcmp_ok h e mpzero xe _mpzero He Ne Hz ltac:(by_decide)) as (i & Ei & Hi).
  change (mpval _mpzero) with 0 in Hi. unfold mpexp. erewrite bind_Done; [|exact Ei].
  destruct (Z.eqb_spec i 0); [|lia].
  destruct (mpassign_trimmed h mpone res _mpone s Ho ltac:(by_decide) Hs Rs) as (c & Ec & Tc & Sc & Tt & Mc & _).
  exists c. split; [done|]. split; [split; [exact Tc|]; rewrite Sc, Tt; by split; [left|]|].
  unfold mpval at 1. rewrite Sc, Mc, E, Z.pow_0_r. change (mp_sign _mpone * mag _mpone) with 1.
  by rewrite Z.mod_small by lia.
Qed.

End mpexp.

(** ** On numbers *)

