(* ===== verification/Mpcalc.v ===== *)
(** * Sequences of operations on numbers

    The arithmetic of [libmp] as a client sees it: the heap of normal forms implements a store
    of integers. *)

From S2P Require Import Prelude Mpvec Mpmul Mpint MpintProps Mpshift Mpdiv Mpexp.

Implicit Types (h : heap) (A : gmap Z Z).

(** ** Operations *)

(** The calls a client makes, with the addresses of their operands and of their result. *)
Inductive op :=
  | Assign (a c : Z)
  | Add (a b c : Z)
  | Sub (a b c : Z)
  | Mul (a b c : Z)
  | Left (a n c : Z)
  | Mod (a m c : Z)
  | Exp (a e m c : Z).

Definition run (o : op) : mpm unit :=
  match o with
  | Assign a c => mpassign a c
  | Add a b c => mpadd a b c
  | Sub a b c => mpsub a b c
  | Mul a b c => mpmul a b c
  | Left a n c => mpleft a n c
  | Mod a m c => mpmod a m c
  | Exp a e m c => mpexp a e (Some m) c
  end.

Fixpoint run_all (os : list op) : mpm unit :=
  match os with
  | [] => mret tt
  | o :: os => run o;; run_all os
  end.

(** ** The store of integers *)

(** Operands of fewer than [2 ^ 29] bits: then the bit counts and digit counts that the code
    computes with type [int] do not overflow. *)
Definition operand A (a : Z) : option Z := v ← A !! a; if Z.log2 (Z.abs v) <? 2 ^ 29 then Some v else None.

(** The integer an operation computes, where it is meant to be used: a shift is to the left and
    by fewer than [2 ^ 30] bits; a modulus is positive and not the place of the remainder, and
    what is reduced is not a negative multiple of it; a power has a base and an exponent that
    are not negative, and is not the power 0 modulo 1. *)
Definition result (o : op) A : option Z :=
  match o with
  | Assign a _ => operand A a
  | Add a b _ => u ← operand A a; v ← operand A b; Some (u + v)
  | Sub a b _ => u ← operand A a; v ← operand A b; Some (u - v)
  | Mul a b _ => u ← operand A a; v ← operand A b; Some (u * v)
  | Left a n _ => u ← operand A a; if (0 <=? n) && (n <? 2 ^ 30) then Some (u * 2 ^ n) else None
  | Mod a m c =>
      u ← operand A a; v ← operand A m;
      if (0 <? v) && ((0 <=? u) || negb (u mod v =? 0)) && negb (c =? m) then Some (u mod v) else None
  | Exp a e m _ =>
      u ← operand A a; n ← operand A e; v ← operand A m;
      if (0 <=? u) && (0 <=? n) && (0 <? v) && (negb (v =? 1) || negb (n =? 0)) then Some ((u ^ n) mod v) else None
  end.

Definition place (o : op) : Z :=
  match o with
  | Assign _ c | Add _ _ c | Sub _ _ c | Mul _ _ c | Left _ _ c | Mod _ _ c | Exp _ _ _ c => c
  end.

(** The constants are not written to, and a result has an object. *)
Definition arun (o : op) A : option (gmap Z Z) :=
  v ← result o A;
  if negb (place o =? mpzero) && negb (place o =? mpone) && bool_decide (is_Some (A !! place o))
  then Some (<[place o := v]> A) else None.

Fixpoint arun_all (os : list op) A : option (gmap Z Z) :=
  match os with
  | [] => Some A
  | o :: os => A ← arun o A; arun_all os A
  end.

(** ** Refinement *)

(** All objects are normal forms, and the constants are in place. *)
Definition well_formed h : Prop :=
  map_Forall (fun _ => normal) h /\ h !! mpzero = Some _mpzero /\ h !! mpone = Some _mpone.

Definition abs h : gmap Z Z := mpval <$> h.

Lemma abs_lookup h a v :
  well_formed h -> abs h !! a = Some v -> exists x, h !! a = Some x /\ normal x /\ mpval x = v.
Proof.
  intros [Hn _] Ha. unfold abs in Ha. apply lookup_fmap_Some in Ha as (x & Hv & Hx).
  exists x. split; [done|]. split; [exact (Hn _ _ Hx)|done].
Qed.

(** A result in its place. *)
Lemma stored h c b v :
  well_formed h -> c <> mpzero -> c <> mpone -> normal b -> mpval b = v ->
  well_formed (<[c := b]> h) /\ abs (<[c := b]> h) = <[c := v]> (abs h).
Proof.
  intros (Hn & Hz & Ho) Hc0 Hc1 Nb <-. split; [|apply fmap_insert].
  split; [by apply map_Forall_insert_2|]. by rewrite !lookup_insert_ne by congruence.
Qed.

(** One operation. *)
Lemma run_refines h o A :
  well_formed h -> arun o (abs h) = Some A ->
  exists h', run o h = Done tt h' /\ well_formed h' /\ abs h' = A.
Proof.
  intros Hw Ha. unfold arun in Ha. destruct (result o (abs h)) as [v|] eqn:Er; [|done]. cbn [mbind option_bind] in Ha.
  destruct (negb (place o =? mpzero) && negb (place o =? mpone) && bool_decide (is_Some (abs h !! place o))) eqn:Eg; [|done].
  injection Ha as <-. apply andb_true_iff in Eg as [Eg Hs]. apply andb_true_iff in Eg as [H0 H1].
  apply negb_true_iff, Z.eqb_neq in H0, H1. apply bool_decide_eq_true in Hs as [w Hs].
  destruct (abs_lookup _ _ _ Hw Hs) as (s & Hc & Ns & _). pose proof (proj1 (proj1 Ns)) as Rs.
  pose proof Hw as (_ & Hz & Ho).
  cut (exists b, run o h = Done tt (<[place o := b]> h) /\ normal b /\ mpval b = v).
  { intros (b & E & Nb & Vb). exists (<[place o := b]> h). split; [done|]. by apply stored. }
  assert (forall a u, operand (abs h) a = Some u -> exists x, h !! a = Some x /\ normal x /\ mpval x = u) as Hop.
  { intros a u Hu. apply abs_lookup; [done|]. unfold operand in Hu. by inv_opt Hu. }
  clear Hs Ns w. destruct o; cbn [result place run] in *; inv_opt Er;
    repeat match goal with E : operand (abs h) _ = Some _ |- _ =>
      let x := fresh "x" in let Hx := fresh "Hx" in let Nx := fresh "Nx" in
      destruct (Hop _ _ E) as (x & Hx & Nx & <-); clear E end;
    repeat match goal with E : _ && _ = true |- _ => apply andb_true_iff in E as [? ?] end.
  - destruct (mpassign_trimmed h a c x s) as (b & E & Tb & Sb & Ht & Mb & _); [done|apply Nx|done..|].
    exists b. split; [done|]. split; [split; [exact Tb|rewrite Sb, Ht; apply Nx]|]. unfold mpval. by rewrite Sb, Mb.
  - eapply mpadd_ok; eassumption.
  - eapply mpsub_ok; eassumption.
  - destruct (mpmul_ok h a b c x0 x s) as (r & E & Nr & Vr & _); [done..|]. by exists r.
  - destruct (mpleft_ok h a c x s Hx Nx Hc Rs n) as (r & E & _ & Vr & Nr). 
    exists r. split; [done|]. unfold shifted in Vr. destruct (Z.ltb_spec n 0); [lia|]. split; [|done]. apply Nr.
    unfold keeps_bits. destruct (Nat.eq_dec (mp_top x) 0) as [E0|].
    + pose proof Nx as (_ & _ & Zx). by rewrite (Zx E0).
    + assert (- n / Dbits <= 0) by (apply Z.div_le_upper_bound; unfold Dbits; lia).
      destruct (Z.ltb_spec (- n / Dbits) (Z.of_nat (mp_top x))); [by rewrite orb_true_r|lia].
  - destruct (mpmod_ok h a m c x0 x s) as (r & E & Nr & Vr & _); try done; try lia.
    by exists r.
  - eapply mpexp_ok; try eassumption; lia.
Qed.

(** C18: A sequence of operations that is defined on a store of integers, with operands of fewer
    than [2 ^ 29] bits and the conditions of [result] on shifts, moduli and exponents, does the
    same on the heap: every call returns, every object stays a normal form and holds the integer
    of the store, and the constants and all other objects are left alone. *)
Theorem run_all_refines h os A :
  well_formed h -> arun_all os (abs h) = Some A ->
  exists h', run_all os h = Done tt h' /\ well_formed h' /\ abs h' = A.
Proof.
  revert h. induction os as [|o os IH]; intros h Hw Ha; cbn [arun_all run_all] in *.
  - injection Ha as <-. by exists h.
  - destruct (arun o (abs h)) as [A1|] eqn:E; [|done]. cbn [mbind option_bind] in Ha.
    destruct (run_refines h o A1 Hw E) as (h1 & E1 & W1 & <-). erewrite bind_Done; [|exact E1]. by apply IH.
Qed.

(** A few operations, some of them in place. *)
Definition ex_ops : list op :=
  [Add mpone mptwo 10; Mul 10 10 10; Add 10 11 10; Left 10 70 11; Sub 11 mptwo 12; Mod 12 10 11; Exp 12 mptwo 10 12].

Lemma run_all_refines_witness :
  exists h', run_all ex_ops ex_heap = Done tt h' /\ well_formed h' /\
    abs h' = {[ mpzero := 0; mpone := 1; mptwo := 2; 10 := 3 * B + 10;
                11 := ((3 * B + 10) * 2 ^ 70 - 2) mod (3 * B + 10);
                12 := (((3 * B + 10) * 2 ^ 70 - 2) ^ 2) mod (3 * B + 10) ]}.
Proof.
  apply (run_all_refines ex_heap ex_ops).
  - split; [by_decide|done].
  - vm_compute. reflexivity.
Defined.
