(* ===== verification/Mpgcd.v ===== *)
(** * Greatest common divisors and inverses: [mpextendedgcd.c] and [mpinvert.c]

    The extended binary algorithm. The macro [iseven] looks at the first digit of the array
    whether it belongs to the number or not, so a zero must have an even digit there. *)

From S2P Require Import Prelude Mpvec Mpmul Mpint MpintProps Mpshift Mpdiv.

Implicit Types (h : heap).

(** ** [mpextendedgcd.c] *)

Definition iseven (a : Z) : mpm bool :=
  x ← obj a; d ← lift (mp_p x !! 0%nat); mret ((d .& 1) =? 0).

(** The number of bits of the digits: each turn of a loop takes one off. *)
Definition bits_of (a : Z) : mpm nat := x ← obj a; mret (32 * mp_top x)%nat.

(** The loop that takes out the common powers of two. *)
Fixpoint common_twos (fuel : nat) (a b g : Z) : mpm Z :=
  ea ← iseven a;
  eb ← (if (ea : bool) then iseven b else mret false);
  if (eb : bool) then
    match fuel with
    | O => halt Endless
    | S fuel => mpright a 1 a;; mpright b 1 b;; common_twos fuel a b (g + 1)
    end
  else mret g.

(** The correction of coefficients of which one is odd. *)
Definition make_even (A B a b : Z) : mpm unit :=
  eA ← iseven A;
  odd ← (if (eA : bool) then eB ← iseven B; mret (negb eB) else mret true);
  if (odd : bool) then mpadd A b A;; mpsub B a B else mret tt.

(** The loop that halves [u] with the coefficients [A] and [B]. *)
Fixpoint halve (fuel : nat) (u A B a b : Z) : mpm unit :=
  e ← iseven u;
  if (e : bool) then
    match fuel with
    | O => halt Endless
    | S fuel =>
        mpright u 1 u;;
        make_even A B a b;;
        mpright A 1 A;;
        mpright B 1 B;;
        halve fuel u A B a b
    end
  else mret tt.

Definition halve_all (u A B a b : Z) : mpm unit := n ← bits_of u; halve n u A B a b.

(** One turn of the main loop; the result tells whether it goes on. *)
Definition gcd_turn (u v A B C D a b : Z) : mpm bool :=
  halve_all u A B a b;;
  halve_all v C D a b;;
  c ← mpcmp u v;
  (if 0 <=? c then mpsub u v u;; mpsub A C A;; mpsub B D B
   else mpsub v u v;; mpsub C A C;; mpsub D B D);;
  x ← obj u;
  mret (negb (mp_top x =? 0)%nat).

Fixpoint gcd_loop (fuel : nat) (u v A B C D a b : Z) : mpm unit :=
  match fuel with
  | O => halt Endless
  | S fuel =>
      go ← gcd_turn u v A B C D a b;
      if (go : bool) then gcd_loop fuel u v A B C D a b else mret tt
  end.

(** The part for numbers that are not zero. *)
Definition gcd_main (a b v x y : Z) : mpm unit :=
  a ← mpcopy a;
  b ← mpcopy b;
  n ← bits_of a;
  g ← common_twos n a b 0;
  u ← mpcopy a;
  mpassign b v;;
  A ← mpcopy mpone;
  B ← mpcopy mpzero;
  C ← mpcopy mpzero;
  D ← mpcopy mpone;
  nu ← bits_of u;
  nv ← bits_of v;
  gcd_loop (S (nu + nv)) u v A B C D a b;;
  mpassign C x;;
  mpassign D y;;
  mpleft v g v;;
  mpfree (Some A);;
  mpfree (Some B);;
  mpfree (Some C);;
  mpfree (Some D);;
  mpfree (Some u);;
  mpfree (Some a);;
  mpfree (Some b).

Definition mpextendedgcd (a b v x y : Z) : mpm unit :=
  xa ← obj a;
  xb ← obj b;
  if (mp_sign xa <? 0) || (mp_sign xb <? 0) then
    mpassign mpzero v;;
    mpassign mpzero y;;
    mpassign mpzero x
  else if (mp_top xa =? 0)%nat then
    mpassign b v;;
    mpassign mpone y;;
    mpassign mpzero x
  else if (mp_top xb =? 0)%nat then
    mpassign a v;;
    mpassign mpone x;;
    mpassign mpzero y
  else gcd_main a b v x y.

(** ** [mpinvert.c] *)

Definition mpinvert (b m res : Z) : mpm unit :=
  dc1 ← mpnew 0;
  dc2 ← mpnew 0;
  mpextendedgcd b m dc1 res dc2;;
  c ← mpcmp dc1 mpone;
  if negb (c =? 0) then halt Abort
  else
    mpmod res m res;;
    mpfree (Some dc1);;
    mpfree (Some dc2).

(** ** Numbers in a heap *)

(** The object [a] holds the integer [z]. *)
Definition num h (a z : Z) : Prop :=
  exists x, h !! a = Some x /\ normal x /\ mpval x = z /\ clean x.

Definition static_of h (a : Z) : option bool := mp_static <$> h !! a.

(** Only the objects [S] may have changed, and none has come or gone. *)
Definition only (S : list Z) h h' : Prop :=
  (forall k, k ∉ S -> h' !! k = h !! k) /\ (forall k, static_of h' k = static_of h k).

(** Disequalities of addresses, from hypotheses. *)
Ltac away :=
  rewrite ?not_elem_of_cons; split_and?;
  first [assumption | apply not_eq_sym; assumption | apply not_elem_of_nil].

(** An inclusion of lists of addresses. *)
Ltac incl := clear; set_solver.

Lemma only_refl S h : only S h h.
Proof. done. Qed.

Lemma only_trans S1 S2 S h1 h2 h3 :
  only S1 h1 h2 -> only S2 h2 h3 -> (forall k, k ∈ S1 -> k ∈ S) -> (forall k, k ∈ S2 -> k ∈ S) -> only S h1 h3.
Proof.
  intros [E1 F1] [E2 F2] H1 H2. split; [|intros k; by rewrite F2].
  intros k Hk. rewrite E2 by auto. apply E1. auto.
Qed.

Lemma only_incl S1 S h h' : only S1 h h' -> (forall k, k ∈ S1 -> k ∈ S) -> only S h h'.
Proof. intros [E F] H. split; auto. Qed.

Lemma only_num S h h' k z : only S h h' -> k ∉ S -> num h k z -> num h' k z.
Proof. intros [E _] Hk (x & Hx & H). exists x. by rewrite E. Qed.

Lemma only_lookup S h h' k : only S h h' -> k ∉ S -> h' !! k = h !! k.
Proof. intros [E _]. apply E. Qed.

Lemma only_insert h c b s : h !! c = Some s -> mp_static b = mp_static s -> only [c] h (<[c := b]> h).
Proof.
  intros Hs Hst. split; intros k; unfold static_of.
  - intros Hk. apply lookup_insert_ne. set_solver.
  - destruct (decide (k = c)) as [->|Hne]; [|by rewrite lookup_insert_ne].
    rewrite lookup_insert_eq, Hs. exact (f_equal Some Hst).
Qed.

Lemma num_insert h c b : normal b -> clean b -> num (<[c := b]> h) c (mpval b).
Proof. intros. exists b. by rewrite lookup_insert_eq. Qed.

Lemma sub_num h a b p q :
  num h a p -> num h b q -> h !! mpzero = Some _mpzero ->
  exists h', mpsub a b a h = Done tt h' /\ num h' a (p - q) /\ only [a] h h'.
Proof.
  intros (x & Hx & Nx & <- & Cx) (y & Hy & Ny & <- & Cy) Hz.
  destruct (mpsub_full h a b a x y x Hx Nx Hy Ny Hx (proj1 (proj1 Nx)) Hz) as (r & E & Nr & Vr & Sr & Cr).
  exists (<[a := r]> h). split; [done|]. rewrite <- Vr. split; [by apply num_insert; auto|by eapply only_insert].
Qed.

Lemma add_num h a b p q :
  num h a p -> num h b q -> q <> 0 -> h !! mpzero = Some _mpzero ->
  exists h', mpadd a b a h = Done tt h' /\ num h' a (p + q) /\ only [a] h h'.
Proof.
  intros (x & Hx & Nx & <- & Cx) (y & Hy & Ny & <- & Cy) Hq Hz.
  destruct (mpadd_full h a b a x y x Hx Nx Hy Ny Hx (proj1 (proj1 Nx)) Hz) as (r & E & Nr & Vr & Sr & Cr).
  exists (<[a := r]> h). split; [done|]. rewrite <- Vr. split; [by apply num_insert; auto|by eapply only_insert].
Qed.

Lemma gcd_first_digit x :
  normal x -> clean x -> exists d, mp_p x !! 0%nat = Some d /\ ((d .& 1) =? 0) = Z.even (mpval x).
Proof.
  intros Nx Cx. pose proof Nx as ([Rx Tx] & Sx & Zx). pose proof (digits_ok x Rx) as [Dx Lx].
  destruct (Nat.eq_dec (mp_top x) 0) as [E|Hne].
  - exists 0. split; [by apply Cx|]. pose proof (proj1 (mag_zero x (proj1 Nx)) E) as Em.
    unfold mpval. by rewrite Em, Z.mul_0_r.
  - destruct (digits x) as [|d ds] eqn:Ed; [cbn in Lx; lia|]. exists d. split.
    + rewrite digits_app, Ed. done.
    + change 1 with (Z.ones 1). rewrite Z.land_ones by lia. change (2 ^ 1) with 2.
      unfold mpval, mag. rewrite Ed. cbn [val]. rewrite Zeven_mod.
      unfold Zeq_bool. rewrite !Zmod_even. rewrite Z.even_mul, Z.even_add, Z.even_mul.
      change (Z.even B) with true. cbn [orb].
      destruct Sx as [-> | ->]; cbn [Z.even orb]; by destruct (Z.even d).
Qed.

Lemma even_num h a p : num h a p -> iseven a h = Done (Z.even p) h.
Proof.
  intros (x & Hx & Nx & <- & Cx). destruct (gcd_first_digit x Nx Cx) as (d & Ed & E). unfold iseven. mrun. mrun. by rewrite E.
Qed.

Lemma half_num h a p :
  num h a p -> Z.even p = true -> exists h', mpright a 1 a h = Done tt h' /\ num h' a (p / 2) /\ only [a] h h'.
Proof.
  intros (x & Hx & Nx & <- & Cx) Hp. pose proof Nx as ([Rx Tx] & Sx & Zx).
  apply Z.even_spec in Hp as [k Hk].
  destruct (Nat.eq_dec (mp_top x) 0) as [E|Hne].
  - exists h. pose proof (proj1 (mag_zero x (proj1 Nx)) E) as Em.
    assert (mpval x = 0) as Ev by (unfold mpval; rewrite Em; lia). rewrite Ev.
    split; [|split; [exists x; by rewrite Ev|apply only_refl]].
    unfold mpright, shift_start. mrun. mrun. rewrite E. cbn [Nat.eqb].
    erewrite set_obj_Done by apply lookup_insert_eq. rewrite insert_insert_eq. f_equal. apply insert_id.
    rewrite Hx. f_equal. destruct x; cbn in *. by subst.
  - destruct (mpright_down h a a x x Hx Rx Hx Rx 1) as (c & Ec & Tc & Mc & Stc & Sc); [lia|done|].
    pose proof (mag_range x Rx). pose proof (mag_zero x (proj1 Nx)) as X0.
    assert (mag x = 2 * Z.abs k) as Mx by (destruct (normal_mag x Nx); lia).
    assert (mag c = Z.abs k) as Mc' by (rewrite Mc, Mx; change (2 ^ 1) with 2; rewrite Z.mul_comm, Z.div_mul; lia).
    assert (mp_top c <> 0%nat) as Hc by (intros E; apply (mag_zero c Tc) in E; lia).
    destruct (Nat.eqb_spec (mp_top c) 0); [done|]. cbn [andb] in Sc.
    assert (normal c) as Nc by (split; [done|split; [by rewrite Sc|by intros ?]]).
    assert (mpval c = mpval x / 2) as Vc.
    { unfold mpval in *. rewrite Sc, Mc'. replace (mp_sign x * mag x) with (k * 2) by lia. rewrite Z.div_mul by lia. destruct Sx as [Es|Es]; rewrite Es in *; lia. }
    exists (<[a := c]> h). split; [done|]. rewrite <- Vc. split; [apply num_insert; [done|by intros ?]|by eapply only_insert].
Qed.

Lemma cmp_num h a b p q : num h a p -> num h b q -> exists c, mpcmp a b h = Done c h /\ Z.sgn c = Z.sgn (p - q).
Proof. intros (x & Hx & Nx & <- & _) (y & Hy & Ny & <- & _). by apply mpcmp_ok. Qed.

Lemma top_num h a p : num h a p -> exists x, obj a h = Done x h /\ (mp_top x =? 0)%nat = (p =? 0).
Proof.
  intros (x & Hx & Nx & <- & _). exists x. split; [by apply obj_Done|]. pose proof (mag_zero x (proj1 Nx)) as X0.
  destruct (normal_mag x Nx) as [Mx _]. destruct (Nat.eqb_spec (mp_top x) 0), (Z.eqb_spec (mpval x) 0); lia.
Qed.

Lemma bits_num h a p : num h a p -> exists n, bits_of a h = Done n h /\ Z.abs p < 2 ^ Z.of_nat n.
Proof.
  intros (x & Hx & Nx & <- & _). exists (32 * mp_top x)%nat. split; [unfold bits_of; by mrun|].
  destruct (normal_mag x Nx) as [<- _]. pose proof (mag_range x (proj1 (proj1 Nx))).
  replace (2 ^ Z.of_nat (32 * mp_top x)) with (B ^ Z.of_nat (mp_top x)); [lia|].
  change B with (2 ^ 32). rewrite <- Z.pow_mul_r by lia. f_equal. lia.
Qed.

(** The first part of a sequence at once. *)
Lemma bind_prefix {X Y} (m : mpm X) (f : X -> mpm unit) (k : unit -> mpm Y) h h' :
  (m ≫= f) h = Done tt h' -> (m ≫= fun x => f x ≫= k) h = k tt h'.
Proof. unfold mbind, mpm_bind. destruct (m h) as [x h1|]; [|done]. by intros ->. Qed.

(** ** Arithmetic *)

Lemma gcd_half x v : Z.odd v = true -> Z.gcd (2 * x) v = Z.gcd x v.
Proof.
  intros Hv. pose proof (Z.gcd_divide_l x v). pose proof (Z.gcd_divide_r x v).
  apply Z.gcd_unique; [apply Z.gcd_nonneg|by apply Z.divide_mul_r|done|].
  intros q Hq Hqv. apply Z.gcd_greatest; [|done]. apply (Z.gauss q 2 x); [done|].
  pose proof (Z.gcd_nonneg q 2). pose proof (Z.gcd_divide_l q 2) as D1. pose proof (Z.gcd_divide_r q 2) as D2.
  apply Z.divide_pos_le in D2 as Hle; [|lia]. assert (Z.gcd q 2 <> 2) as Hne.
  { intros E. rewrite E in D1. assert (2 | v) as [m ->] by (by etransitivity).
    by rewrite Z.odd_mul, andb_false_r in Hv. }
  assert (Z.gcd q 2 <> 0) by (intros E; apply Z.gcd_eq_0_r in E; lia). lia.
Qed.

Lemma gcd_halves k : forall x v, 0 <= k -> Z.odd v = true -> Z.gcd (2 ^ k * x) v = Z.gcd x v.
Proof.
  intros x v Hk Hv. revert k Hk. apply natlike_ind; [by rewrite Z.mul_1_l|]. intros k Hk IH.
  by rewrite Z.pow_succ_r, <- Z.mul_assoc, gcd_half.
Qed.

Lemma even_sum_cases p q a b :
  Z.even (p * a + q * b) = true -> Z.even a && Z.even b = false -> Z.even p && Z.even q = false ->
  Z.even (p + b) = true /\ Z.even (q - a) = true.
Proof.
  rewrite Z.even_add, !Z.even_mul, Z.even_sub, Z.even_add.
  destruct (Z.even a), (Z.even b), (Z.even p), (Z.even q); cbn; done.
Qed.

Lemma even_half z : Z.even z = true -> z = 2 * (z / 2).
Proof. intros [k ->]%Z.even_spec. rewrite (Z.mul_comm 2 k), Z.div_mul; lia. Qed.

Lemma half_identity U P Q a b :
  U = 2 * (U / 2) -> P = 2 * (P / 2) -> Q = 2 * (Q / 2) -> P * a + Q * b = U -> P / 2 * a + Q / 2 * b = U / 2.
Proof.
  generalize (U / 2) (P / 2) (Q / 2). intros u p q -> -> -> E.
  apply (Z.mul_reg_l _ _ 2); [done|]. rewrite <- E. ring.
Qed.

(** What the subtraction of odd numbers leaves. *)
Lemma subtract_odd U V c :
  0 < U -> 0 < V -> Z.odd U = true -> Z.odd V = true -> Z.sgn c = Z.sgn (U - V) ->
  let '(U', V') := if 0 <=? c then (U - V, V) else (U, V - U) in
  0 <= U' /\ 0 < V' /\ Z.gcd U' V' = Z.gcd U V /\ U' * V' <= U * V /\
  Z.odd U' || Z.odd V' = true /\ Z.odd U' && Z.odd V' = false.
Proof.
  intros HU HV HoU HoV Hc. destruct (Z.leb_spec 0 c).
  - rewrite Z.gcd_comm, Z.gcd_sub_diag_r, (Z.gcd_comm V), Z.odd_sub, HoU, HoV. split_and!; try done; nia.
  - rewrite Z.gcd_sub_diag_r, Z.odd_sub, HoU, HoV. split_and!; try done; nia.
Qed.

Lemma subtract_identity P Q R S a b U V :
  P * a + Q * b = U -> R * a + S * b = V -> (P - R) * a + (Q - S) * b = U - V.
Proof. intros <- <-. ring. Qed.

Lemma odd_part_pos U U1 k : 0 < U -> 0 <= k -> U = 2 ^ k * U1 -> 0 < U1.
Proof. intros HU Hk ->. apply Z.mul_pos_cancel_l in HU; [done|]. by apply Z.pow_pos_nonneg. Qed.

(** What a turn does to the product of the numbers, the measure of the loop. *)
Lemma turn_measure U V U1 V1 U2 V2 k j :
  0 < U -> 0 < V -> 0 <= k -> 0 <= j -> U = 2 ^ k * U1 -> V = 2 ^ j * V1 ->
  Z.odd U1 = true -> Z.odd V1 = true -> U2 * V2 <= U1 * V1 ->
  (if Z.odd U && Z.odd V then 1 else 2) * (U2 * V2) <= U * V.
Proof.
  intros HU HV Hk Hj EU EV O1 O2 Hle.
  assert (1 <= 2 ^ k /\ 1 <= 2 ^ j) as [? ?] by (split; apply (Z.pow_le_mono_r 2 0); lia).
  pose proof (odd_part_pos U U1 k HU Hk EU). pose proof (odd_part_pos V V1 j HV Hj EV).
  assert (U * V = (2 ^ k * 2 ^ j) * (U1 * V1)) as E by (rewrite EU, EV; ring).
  assert (0 < U1 * V1) by (by apply Z.mul_pos_pos).
  destruct (Z.odd U && Z.odd V) eqn:Eo.
  - assert (1 <= 2 ^ k * 2 ^ j) by nia. rewrite E. nia.
  - assert (2 <= 2 ^ k * 2 ^ j); [|rewrite E; nia].
    assert (2 <= 2 ^ k \/ 2 <= 2 ^ j) as [?|?]; [|nia..].
    destruct (Z.eq_dec k 0) as [->|]; [|left; apply (Z.pow_le_mono_r 2 1); lia].
    destruct (Z.eq_dec j 0) as [->|]; [|right; apply (Z.pow_le_mono_r 2 1); lia].
    by rewrite EU, EV, !Z.odd_mul, O1, O2 in Eo.
Qed.

Lemma gcd_odd_parts U V U1 V1 k j :
  0 <= k -> 0 <= j -> U = 2 ^ k * U1 -> V = 2 ^ j * V1 -> Z.odd U1 = true -> Z.odd V1 = true ->
  Z.odd U || Z.odd V = true -> Z.gcd U1 V1 = Z.gcd U V.
Proof.
  intros Hk Hj -> -> O1 O2 Ho. rewrite !Z.odd_mul, O1, O2, !andb_true_r in Ho.
  destruct (Z.odd (2 ^ k)) eqn:Ek.
  - assert (k = 0) as ->. { destruct (Z.eq_dec k 0); [done|]. by rewrite Z.odd_pow in Ek by lia. }
    rewrite Z.mul_1_l, (Z.gcd_comm _ (_ * _)), gcd_halves by done. apply Z.gcd_comm.
  - cbn in Ho. assert (j = 0) as ->. { destruct (Z.eq_dec j 0); [done|]. by rewrite Z.odd_pow in Ho by lia. }
    rewrite Z.mul_1_l. by rewrite gcd_halves.
Qed.

(** ** Halving *)

Section halving.
Context (u A B a b pa pb : Z).
Hypothesis (apart : (u <> A /\ u <> B /\ u <> a /\ u <> b /\ A <> B) /\ (A <> a /\ A <> b /\ B <> a /\ B <> b) /\
  (u <> mpzero /\ A <> mpzero /\ B <> mpzero)).
Hypothesis (Hpa : 0 < pa) (Hpb : 0 < pb) (Hodd : Z.even pa && Z.even pb = false).

(** The numbers of a triple and the identity between them. *)
Record triple h (U P Q : Z) : Prop := mkTriple {
  tr_u : num h u U; tr_A : num h A P; tr_B : num h B Q; tr_a : num h a pa; tr_b : num h b pb;
  tr_zero : h !! mpzero = Some _mpzero; tr_pos : 0 < U; tr_id : P * pa + Q * pb = U }.

Lemma make_even_ok h U P Q :
  num h A P -> num h B Q -> num h a pa -> num h b pb -> h !! mpzero = Some _mpzero ->
  P * pa + Q * pb = U -> Z.even U = true ->
  exists h' P' Q', make_even A B a b h = Done tt h' /\ num h' A P' /\ num h' B Q' /\ only [A; B] h h' /\ P' * pa + Q' * pb = U /\ Z.even P' = true /\ Z.even Q' = true.
Proof using All.
  intros nA nB na nb Hz Eid Hev. destruct apart as ((_ & _ & _ & _ & HAB) & (HAa & HAb & HBa & HBb) & (_ & HA & HB)).
  unfold make_even. erewrite bind_Done by by apply even_num.
  assert (((if Z.even P then eB ← iseven B; mret (negb eB) else mret true) : mpm bool) h
    = Done (negb (Z.even P && Z.even Q)) h) as E.
  { destruct (Z.even P); [|done]. by erewrite bind_Done by by apply even_num. }
  erewrite bind_Done by exact E. destruct (Z.even P && Z.even Q) eqn:Epq; cbn [negb].
  - apply andb_true_iff in Epq as [? ?]. exists h, P, Q. split_and!; try done.
  - destruct (even_sum_cases P Q pa pb) as [E1 E2]; [by rewrite Eid|done|done|].
    destruct (add_num h A b P pb nA nb) as (h1 & R1 & n1 & O1); [clear -Hpb; lia|done|].
    destruct (sub_num h1 B a Q pa) as (h2 & R2 & n2 & O2);
      [by eapply only_num; [exact O1|away|]|by eapply only_num; [exact O1|away|]|by rewrite (only_lookup _ _ _ _ O1) by away|].
    exists h2, (P + pb), (Q - pa). split_and!; try done; [|by eapply only_num; [exact O2|away|]| |rewrite <- Eid; ring].
    + by erewrite bind_Done by exact R1.
    + eapply only_trans; [exact O1|exact O2|incl..].
Qed.

Lemma halve_ok fuel : forall h U P Q,
  triple h U P Q -> U < 2 ^ Z.of_nat fuel ->
  exists h' U' P' Q' k, halve fuel u A B a b h = Done tt h' /\ triple h' U' P' Q' /\ only [u; A; B] h h' /\
    Z.odd U' = true /\ 0 <= k /\ U = 2 ^ k * U'.
Proof using All.
  induction fuel as [|fuel IH]; intros h U P Q [nu nA nB na nb Hz Hu Eid] Hf; cbn [halve].
  { cbn in Hf. clear -Hf Hu. lia. }
  erewrite bind_Done by by apply even_num. destruct (Z.even U) eqn:Eu.
  2:{ exists h, U, P, Q, 0. rewrite <- Z.negb_even, Eu. split_and!; first [done | by constructor | by rewrite Z.mul_1_l]. }
  destruct apart as ((HuA & HuB & Hua & Hub & HAB) & (HAa & HAb & HBa & HBb) & (Hu0 & HA & HB)).
  destruct (half_num h u U nu Eu) as (h1 & R1 & n1 & O1). erewrite bind_Done by exact R1.
  destruct (make_even_ok h1 U P Q) as (h2 & P' & Q' & R2 & nA2 & nB2 & O2 & Eid2 & EP & EQ);
    try (by eapply only_num; [exact O1|away|]); [by rewrite (only_lookup _ _ _ _ O1) by away|done|done|].
  destruct (half_num h2 A P' nA2 EP) as (h3 & R3 & nA3 & O3).
  destruct (half_num h3 B Q') as (h4 & R4 & nB4 & O4); [by eapply only_num; [exact O3|away|]|done|].
  assert (only [A; B] h1 h4) as O14.
  { eapply only_trans; [exact O2| |done|done]. eapply only_trans; [exact O3|exact O4|incl..]. }
  assert (only [u; A; B] h h4) as Oh by (eapply only_trans; [exact O1|exact O14|incl..]).
  pose proof (even_half U Eu) as EU. pose proof (even_half P' EP) as EP'. pose proof (even_half Q' EQ) as EQ'.
  destruct (IH h4 (U / 2) (P' / 2) (Q' / 2)) as (h' & U' & P2 & Q2 & k & R & T & O & Ho & Hk & Ek).
  { constructor; try done.
    - by eapply only_num; [exact O14|away|].
    - by eapply only_num; [exact O4|away|].
    - by eapply only_num; [exact Oh|away|].
    - by eapply only_num; [exact Oh|away|].
    - by rewrite (only_lookup _ _ _ _ Oh) by away.
    - clear -Hu EU. lia.
    - clear -EU EP' EQ' Eid2. by eapply half_identity. }
  { clear -Hf EU. rewrite Nat2Z.inj_succ, Z.pow_succ_r in Hf by lia. lia. }
  exists h', U', P2, Q2, (k + 1). split_and!; try done; [| |clear -Hk; lia|].
  - erewrite bind_Done by exact R2. erewrite bind_Done by exact R3. by erewrite bind_Done by exact R4.
  - eapply only_trans; [exact Oh|exact O|done..].
  - clear -EU Ek Hk. rewrite Z.pow_add_r, Z.mul_comm by lia. lia.
Qed.

Lemma halve_all_ok h U P Q :
  triple h U P Q ->
  exists h' U' P' Q' k, halve_all u A B a b h = Done tt h' /\ triple h' U' P' Q' /\ only [u; A; B] h h' /\
    Z.odd U' = true /\ 0 <= k /\ U = 2 ^ k * U'.
Proof using All.
  intros T. destruct (bits_num h u U (tr_u _ _ _ _ T)) as (n & E & Hn). unfold halve_all.
  erewrite bind_Done by exact E. apply (halve_ok n h U P Q T). pose proof (tr_pos _ _ _ _ T) as HU. clear -HU Hn. lia.
Qed.
End halving.

(** ** The main loop *)

(** All disequalities from a list without duplicates. *)
Ltac spread H :=
  let H' := fresh in pose proof H as H'; rewrite !NoDup_cons, !not_elem_of_cons in H'; destruct_and! H'.

(** [lia], without the disequalities of addresses. *)
Ltac lia_apart :=
  repeat match goal with
  | H : ?x <> ?y |- _ =>
    (is_var x || constr_eq x mpzero || constr_eq x mpone); (is_var y || constr_eq y mpzero || constr_eq y mpone); clear H
  | H : NoDup _ |- _ => clear H
  end; lia.

Section main.
Context (u v A B C D a b pa pb : Z).
Hypothesis (Hnd : NoDup [mpzero; u; v; A; B; C; D; a; b]).
Hypothesis (Hpa : 0 < pa) (Hpb : 0 < pb) (Hodd : Z.even pa && Z.even pb = false).

Record pairs h (U V P Q R S : Z) : Prop := mkPairs {
  pr_u : num h u U; pr_v : num h v V; pr_A : num h A P; pr_B : num h B Q; pr_C : num h C R; pr_D : num h D S;
  pr_a : num h a pa; pr_b : num h b pb; pr_zero : h !! mpzero = Some _mpzero;
  pr_id1 : P * pa + Q * pb = U; pr_id2 : R * pa + S * pb = V }.

(** Both numbers become odd. *)
Lemma halve_both h U V P Q R S :
  pairs h U V P Q R S -> 0 < U -> 0 < V ->
  exists h' U' V' P' Q' R' S' k j,
    (halve_all u A B a b;; halve_all v C D a b) h = Done tt h' /\ pairs h' U' V' P' Q' R' S' /\
    only [u; v; A; B; C; D] h h' /\ Z.odd U' = true /\ Z.odd V' = true /\ 0 <= k /\ 0 <= j /\
    U = 2 ^ k * U' /\ V = 2 ^ j * V'.
Proof using All.
  intros [nu nv nA nB nC nD na nb Hz E1 E2] HU HV. spread Hnd.
  destruct (halve_all_ok u A B a b pa pb) with (h := h) (U := U) (P := P) (Q := Q)
    as (h1 & U' & P' & Q' & k & R1 & [] & O1 & Ho1 & Hk & Ek); [by split_and!|done..|by constructor|].
  assert (forall x z, num h x z -> x ∉ [u; A; B] -> num h1 x z) as K1 by eauto using only_num.
  destruct (halve_all_ok v C D a b pa pb) with (h := h1) (U := V) (P := R) (Q := S)
    as (h2 & V' & R' & S' & j & R2 & [] & O2 & Ho2 & Hj & Ej);
    [by split_and!|done..|constructor; try done; apply K1; try done; away|].
  exists h2, U', V', P', Q', R', S', k, j. split_and!; try done.
  - by erewrite bind_Done by exact R1.
  - constructor; try done; (eapply only_num; [exact O2|away|done]).
  - eapply only_trans; [exact O1|exact O2|incl..].
Qed.

(** The greater number gives way to the difference. *)
Lemma subtract_pairs h U V P Q R S :
  pairs h U V P Q R S -> 0 < U -> 0 < V -> Z.odd U = true -> Z.odd V = true ->
  exists h' U' V' P' Q' R' S',
    (c ← mpcmp u v;
     if 0 <=? c then mpsub u v u;; mpsub A C A;; mpsub B D B
     else mpsub v u v;; mpsub C A C;; mpsub D B D) h = Done tt h' /\ pairs h' U' V' P' Q' R' S' /\
    only [u; v; A; B; C; D] h h' /\ 0 <= U' /\ 0 < V' /\ Z.gcd U' V' = Z.gcd U V /\ U' * V' <= U * V /\
    Z.odd U' || Z.odd V' = true /\ Z.odd U' && Z.odd V' = false.
Proof using Hnd.
  intros [nu nv nA nB nC nD na nb Hz E1 E2] HU HV HoU HoV. spread Hnd.
  destruct (cmp_num h u v U V nu nv) as (c & Ec & Hc). erewrite bind_Done by exact Ec.
  pose proof (subtract_odd U V c HU HV HoU HoV Hc) as Har.
  destruct (0 <=? c); destruct Har as (Ha1 & Ha2 & Ha3 & Ha4 & Ha5 & Ha6).
  - destruct (sub_num h u v U V nu nv Hz) as (h1 & R1 & n1 & O1). erewrite bind_Done by exact R1.
    destruct (sub_num h1 A C P R) as (h2 & R2 & n2 & O2);
      [by eapply only_num; [exact O1|away|]..|by rewrite (only_lookup _ _ _ _ O1) by away|]. erewrite bind_Done by exact R2.
    assert (only [u; A] h h2) as O02 by (eapply only_trans; [exact O1|exact O2|incl..]).
    destruct (sub_num h2 B D Q S) as (h3 & R3 & n3 & O3);
      [by eapply only_num; [exact O02|away|]..|by rewrite (only_lookup _ _ _ _ O02) by away|].
    assert (only [u; A; B] h h3) as O03 by (eapply only_trans; [exact O02|exact O3|incl..]).
    assert (only [A; B] h1 h3) as O13 by (eapply only_trans; [exact O2|exact O3|incl..]).
    exists h3, (U - V), V, (P - R), (Q - S), R, S.
    split_and!; try assumption.
    + constructor; try assumption; first [by apply subtract_identity | by eapply only_num; [exact O03|away|] | by eapply only_num; [exact O13|away|] | by eapply only_num; [exact O3|away|] | by rewrite (only_lookup _ _ _ _ O03) by away].
    + eapply only_incl; [exact O03|incl].
  - destruct (sub_num h v u V U nv nu Hz) as (h1 & R1 & n1 & O1). erewrite bind_Done by exact R1.
    destruct (sub_num h1 C A R P) as (h2 & R2 & n2 & O2);
      [by eapply only_num; [exact O1|away|]..|by rewrite (only_lookup _ _ _ _ O1) by away|]. erewrite bind_Done by exact R2.
    assert (only [v; C] h h2) as O02 by (eapply only_trans; [exact O1|exact O2|incl..]).
    destruct (sub_num h2 D B S Q) as (h3 & R3 & n3 & O3);
      [by eapply only_num; [exact O02|away|]..|by rewrite (only_lookup _ _ _ _ O02) by away|].
    assert (only [v; C; D] h h3) as O03 by (eapply only_trans; [exact O02|exact O3|incl..]).
    assert (only [C; D] h1 h3) as O13 by (eapply only_trans; [exact O2|exact O3|incl..]).
    exists h3, U, (V - U), P, Q, (R - P), (S - Q).
    split_and!; try assumption.
    + constructor; try assumption; first [by apply subtract_identity | by eapply only_num; [exact O03|away|] | by eapply only_num; [exact O13|away|] | by eapply only_num; [exact O3|away|] | by rewrite (only_lookup _ _ _ _ O03) by away].
    + eapply only_incl; [exact O03|incl].
Qed.

Lemma gcd_turn_ok h U V P Q R S :
  pairs h U V P Q R S -> 0 < U -> 0 < V -> Z.odd U || Z.odd V = true ->
  exists h' U' V' P' Q' R' S', gcd_turn u v A B C D a b h = Done (negb (U' =? 0)) h' /\
    pairs h' U' V' P' Q' R' S' /\ only [u; v; A; B; C; D] h h' /\ 0 <= U' /\ 0 < V' /\ Z.gcd U' V' = Z.gcd U V /\
    (if Z.odd U && Z.odd V then 1 else 2) * (U' * V') <= U * V /\
    Z.odd U' || Z.odd V' = true /\ Z.odd U' && Z.odd V' = false.
Proof using All.
  intros Hp HU HV Ho.
  destruct (halve_both h U V P Q R S Hp HU HV) as (h1 & U1 & V1 & P1 & Q1 & R1 & S1 & k & j & E1 & Hp1 & O1 & HoU & HoV & Hk & Hj & EU & EV).
  assert (0 < U1 /\ 0 < V1) as [HU1 HV1].
  { split; [exact (odd_part_pos U U1 k HU Hk EU)|exact (odd_part_pos V V1 j HV Hj EV)]. }
  destruct (subtract_pairs h1 U1 V1 P1 Q1 R1 S1 Hp1 HU1 HV1 HoU HoV)
    as (h2 & U2 & V2 & P2 & Q2 & R2 & S2 & E2 & Hp2 & O2 & Ha1 & Ha2 & Ha3 & Ha4 & Ha5 & Ha6).
  destruct (top_num h2 u U2 (pr_u _ _ _ _ _ _ _ Hp2)) as (x & Ex & Et).
  exists h2, U2, V2, P2, Q2, R2, S2. split_and!; try assumption.
  - unfold gcd_turn. rewrite (bind_prefix _ _ _ _ _ E1), (bind_prefix _ _ _ _ _ E2).
    erewrite bind_Done by exact Ex. by rewrite Et.
  - eapply only_trans; [exact O1|exact O2|incl..].
  - rewrite Ha3. exact (gcd_odd_parts U V U1 V1 k j Hk Hj EU EV HoU HoV Ho).
  - exact (turn_measure U V U1 V1 U2 V2 k j HU HV Hk Hj EU EV HoU HoV Ha4).
Qed.

(** The loop ends with the greatest common divisor in [v]. *)
Lemma gcd_loop_ok fuel : forall h U V P Q R S,
  pairs h U V P Q R S -> 0 < U -> 0 < V -> Z.odd U || Z.odd V = true ->
  (if Z.odd U && Z.odd V then 2 else 1) * (U * V) < 2 ^ Z.of_nat fuel ->
  exists h' R' S', gcd_loop fuel u v A B C D a b h = Done tt h' /\
    num h' v (Z.gcd U V) /\ num h' C R' /\ num h' D S' /\ only [u; v; A; B; C; D] h h' /\
    R' * pa + S' * pb = Z.gcd U V.
Proof using All.
  induction fuel as [|fuel IH]; intros h U V P Q R S Hp HU HV Ho Hf.
  { exfalso. clear -Hf HU HV. cbn in Hf. destruct (Z.odd U && Z.odd V); nia. }
  destruct (gcd_turn_ok h U V P Q R S Hp HU HV Ho)
    as (h1 & U1 & V1 & P1 & Q1 & R1 & S1 & E1 & Hp1 & O1 & Ha1 & Ha2 & Ha3 & Ha4 & Ha5 & Ha6).
  cbn [gcd_loop]. erewrite bind_Done by exact E1. destruct (Z.eqb_spec U1 0) as [->|Hne]; cbn [negb].
  - destruct Hp1 as [_ nv _ _ nC nD _ _ _ _ Eid]. rewrite <- Ha3, Z.gcd_0_l, Z.abs_eq by (clear -Ha2; lia).
    exists h1, R1, S1. by split_and!.
  - destruct (IH h1 U1 V1 P1 Q1 R1 S1 Hp1) as (h2 & R2 & S2 & E2 & nv & nC & nD & O2 & Eid);
      [clear -Ha1 Hne; lia|done|done| |].
    { clear -Hf Ha4 Ha6. rewrite Ha6. rewrite Nat2Z.inj_succ, Z.pow_succ_r in Hf by lia.
      destruct (Z.odd U && Z.odd V); lia. }
    rewrite Ha3 in *. exists h2, R2, S2. split_and!; try assumption. eapply only_trans; [exact O1|exact O2|incl..].
Qed.
End main.
