(* ===== verification/MpgcdProps.v ===== *)
(** * What [mpextendedgcd] and [mpinvert] compute

    The loops of [Mpgcd] between the copies they work on and the results: the greatest common
    divisor, the coefficients, the objects that are allocated and freed. *)

From S2P Require Import Prelude Mpvec Mpmul Mpint MpintProps Mpshift Mpdiv Mpgcd.

Implicit Types (h : heap).

(** ** Objects allocated and results written

    Since [h], the objects [F] are new and not static, and of the old ones only [S] have changed. *)
Record grown (F S : list Z) h h' : Prop := mkGrown {
  gr_new : NoDup F;
  gr_none : forall k, k ∈ F -> h !! k = None;
  gr_free : forall k, k ∈ F -> static_of h' k = Some false;
  gr_old : forall k, k ∉ F -> static_of h' k = static_of h k;
  gr_same : forall k, k ∉ F -> k ∉ S -> h' !! k = h !! k }.

Lemma grown_start S h : grown [] S h h.
Proof. constructor; try done; [apply NoDup_nil_2|..]; by intros k ?%elem_of_nil. Qed.

Lemma grown_end S h h' : grown [] S h h' -> only S h h'.
Proof. intros [_ _ _ Ho Hs]. split; intros k; [|apply Ho, not_elem_of_nil]. intros Hk. apply Hs; [apply not_elem_of_nil|done]. Qed.

Lemma grown_only F S S' h h1 h2 :
  grown F S h h1 -> only S' h1 h2 -> (forall k, k ∈ S' -> k ∈ F \/ k ∈ S) -> grown F S h h2.
Proof.
  intros [Hn Hnone Hf Ho Hs] [E Es] Hin. constructor; try done.
  - intros k Hk. rewrite Es. by apply Hf.
  - intros k Hk. rewrite Es. by apply Ho.
  - intros k HF HS. rewrite E; [by apply Hs|]. intros Hk. by destruct (Hin k Hk).
Qed.

Lemma static_of_None h k : static_of h k = None <-> h !! k = None.
Proof. unfold static_of. by destruct (h !! k). Qed.

(** An object that is not there is neither an old one nor a new one. *)
Lemma grown_fresh F S h h' k : grown F S h h' -> h' !! k = None -> h !! k = None /\ k ∉ F.
Proof.
  intros [Hn Hnone Hf Ho Hs] Hk. apply static_of_None in Hk. assert (k ∉ F) as HF.
  { intros Hin. by rewrite (Hf k Hin) in Hk. }
  split; [|done]. apply static_of_None. by rewrite <- Ho.
Qed.

Lemma grown_alloc F S h h' k c :
  grown F S h h' -> h' !! k = None -> mp_static c = false -> grown (k :: F) S h (<[k := c]> h').
Proof.
  intros G Hk Hc. destruct (grown_fresh _ _ _ _ _ G Hk) as [H0 HF]. destruct G as [Hn Hnone Hf Ho Hs].
  assert (forall j, j <> k -> static_of (<[k := c]> h') j = static_of h' j) as Hne.
  { intros j Hj. unfold static_of. by rewrite lookup_insert_ne. }
  constructor.
  - by apply NoDup_cons.
  - intros j [->|Hj]%elem_of_cons; [done|by apply Hnone].
  - intros j Hj. destruct (decide (j = k)) as [->|Hjk].
    + unfold static_of. rewrite lookup_insert_eq. exact (f_equal Some Hc).
    + rewrite Hne by done. apply Hf. by apply elem_of_cons in Hj as [?|?].
  - intros j [Hjk Hj]%not_elem_of_cons. rewrite Hne by done. by apply Ho.
  - intros j [Hjk Hj]%not_elem_of_cons HS. rewrite lookup_insert_ne by done. by apply Hs.
Qed.

Lemma grown_free k F S h h' :
  grown (k :: F) S h h' -> mpfree (Some k) h' = Done tt (delete k h') /\ grown F S h (delete k h').
Proof.
  intros [Hn Hnone Hf Ho Hs]. apply NoDup_cons in Hn as [HkF Hn].
  pose proof (Hf k ltac:(by left)) as Hst. unfold static_of in Hst. destruct (h' !! k) as [c|] eqn:Hk; [|done].
  injection Hst as Hst. split; [by eapply mpfree_Done|].
  assert (forall j, j <> k -> static_of (delete k h') j = static_of h' j) as Hne.
  { intros j Hj. unfold static_of. by rewrite lookup_delete_ne. }
  assert (h !! k = None) as H0 by (apply Hnone; by left).
  constructor; [done|..].
  - intros j Hj. apply Hnone. by right.
  - intros j Hj. rewrite Hne by (by intros ->). apply Hf. by right.
  - intros j Hj. destruct (decide (j = k)) as [->|Hjk].
    + unfold static_of. by rewrite lookup_delete_eq, H0.
    + rewrite Hne by done. apply Ho. by apply not_elem_of_cons.
  - intros j Hj HS. destruct (decide (j = k)) as [->|Hjk]; [by rewrite lookup_delete_eq|].
    rewrite lookup_delete_ne by done. apply Hs; [by apply not_elem_of_cons|done].
Qed.

(** An old object is none of the new ones. *)
Lemma grown_not_new F S h h' k x : grown F S h h' -> h !! k = Some x -> k ∉ F.
Proof. intros G Hk HF. by rewrite (gr_none _ _ _ _ G k HF) in Hk. Qed.

Lemma grown_lookup F S h h' k x : grown F S h h' -> h !! k = Some x -> k ∉ S -> h' !! k = Some x.
Proof. intros G Hk HS. rewrite (gr_same _ _ _ _ G); [done|by eapply grown_not_new|done]. Qed.

Lemma grown_more F S S' h h' : grown F S h h' -> (forall k, k ∈ S -> k ∈ S') -> grown F S' h h'.
Proof. intros [Hn Hnone Hf Ho Hs] Hin. constructor; try done. intros k HF HS'. apply Hs; [done|]. by intros ?%Hin. Qed.

(** ** The operations on numbers *)

(** The object [a] holds [z], whatever lies in digits that do not belong to it. *)
Definition holds h (a z : Z) : Prop := exists x, h !! a = Some x /\ normal x /\ mpval x = z.

Lemma num_holds h a z : num h a z -> holds h a z.
Proof. intros (x & Hx & Nx & Ex & _). by exists x. Qed.

Lemma holds_num h a z : holds h a z -> z <> 0 -> num h a z.
Proof.
  intros (x & Hx & Nx & <-) Hz. exists x. split_and!; try done. apply clean_nonzero; [apply Nx|].
  intros E. apply Hz. unfold mpval. by rewrite E, Z.mul_0_r.
Qed.

Lemma holds_only S h h' k z : only S h h' -> k ∉ S -> holds h k z -> holds h' k z.
Proof. intros [E _] Hk (x & Hx & H). exists x. by rewrite E. Qed.

Lemma copy_num F S h h' a p :
  grown F S h h' -> holds h' a p -> p <> 0 ->
  exists k h'', mpcopy a h' = Done k h'' /\ h' !! k = None /\ num h'' k p /\ grown (k :: F) S h h'' /\
    (forall j, j <> k -> h'' !! j = h' !! j).
Proof.
  intros G (x & Hx & Nx & <-) Hp. destruct (mpcopy_ok h' a x Hx Nx) as (k & c & E & Hk & Nc & Vc & Sc).
  exists k, (<[k := c]> h'). split_and!; try done.
  - apply holds_num; [|done]. exists c. by rewrite lookup_insert_eq.
  - by apply grown_alloc.
  - intros j Hj. by rewrite lookup_insert_ne.
Qed.

Lemma num_kept h h' k : h !! k = None -> (forall j, j <> k -> h' !! j = h !! j) -> forall j z, num h j z -> num h' j z.
Proof. intros Hk Hs j z (c & Hc & Hr). exists c. by rewrite Hs by congruence. Qed.

(** The copy of [mpzero] is a zero with an even digit. *)
Lemma copy_zero F S h h' :
  grown F S h h' -> h' !! mpzero = Some _mpzero ->
  exists k h'', mpcopy mpzero h' = Done k h'' /\ h' !! k = None /\ num h'' k 0 /\ grown (k :: F) S h h'' /\
    (forall j, j <> k -> h'' !! j = h' !! j).
Proof.
  intros G Hz. assert (h' !! fresh (dom h') = None) as Hk by apply not_elem_of_dom, is_fresh.
  assert (exists c, mpcopy mpzero h' = Done (fresh (dom h')) (<[fresh (dom h') := c]> h') /\ normal c /\
    mpval c = 0 /\ clean c /\ mp_static c = false) as (c & E & Nc & Vc & Cc & Sc).
  { set (c := mkMpint 1 0 (replicate 33 0) false). exists c. split; [|split; [by_decide|done]].
    assert (fresh (dom h') <> mpzero) as Hne by congruence.
    assert (mpnew (Dbits * len (mp_p _mpzero)) h' = Done (fresh (dom h')) (<[fresh (dom h') := c]> h')) as En by done.
    unfold mpcopy. mrun. erewrite bind_Done by exact En. mrun.
    unfold move_digits. erewrite bind_Done.
    2:{ erewrite bind_Done by (apply obj_Done; rewrite lookup_insert_ne, lookup_insert_ne by done; exact Hz).
        do 3 mrun. reflexivity. }
    cbv beta. unfold mret, mpm_ret. f_equal. rewrite !insert_insert_eq. done. }
  exists (fresh (dom h')), (<[fresh (dom h') := c]> h'). split_and!; try done.
  - exists c. by rewrite lookup_insert_eq.
  - by apply grown_alloc.
  - intros j Hj. by rewrite lookup_insert_ne.
Qed.

Lemma assign_num h old new p n :
  holds h old p -> h !! new = Some n -> raw n ->
  exists h', mpassign old new h = Done tt h' /\ holds h' new p /\ only [new] h h'.
Proof.
  intros (x & Hx & Nx & <-) Hn Rn. pose proof Nx as (Tx & Sx & Zx).
  destruct (mpassign_trimmed h old new x n Hx Tx Hn Rn) as (b & E & Tb & Sb & Ht & Mb & St & _).
  exists (<[new := b]> h). split_and!; [done| |by eapply only_insert].
  exists b. rewrite lookup_insert_eq. split_and!; [done| |unfold mpval; by rewrite Sb, Mb].
  split; [done|]. by rewrite Sb, Ht.
Qed.

Lemma left_num h a p g :
  holds h a p -> 0 < p -> 0 <= g -> exists h', mpleft a g a h = Done tt h' /\ holds h' a (2 ^ g * p) /\ only [a] h h'.
Proof.
  intros (x & Hx & Nx & <-) Hp Hg. pose proof Nx as (Tx & Sx & Zx). pose proof (mag_zero x Tx) as X0.
  pose proof (mag_range x (proj1 Tx)). destruct (normal_mag x Nx) as [Mx _].
  destruct (mpleft_up h a a x x Hx (proj1 Tx) Hx (proj1 Tx) g Hg) as (c & E & Tc & Sc & Mc & St & _); [lia|].
  exists (<[a := c]> h). split_and!; [done| |by eapply only_insert].
  exists c. rewrite lookup_insert_eq. split_and!; [done| |unfold mpval; rewrite Sc, Mc; ring].
  split; [done|]. rewrite Sc. split; [done|]. intros Ht. apply (mag_zero c Tc) in Ht. 
  assert (0 < 2 ^ g) by (by apply Z.pow_pos_nonneg). nia.
Qed.

(** Three assignments, as in the simple cases. *)
Lemma assign_three h c d e f g i k l m F G I :
  holds h c k -> holds h d l -> holds h e m ->
  h !! f = Some F -> raw F -> h !! g = Some G -> raw G -> h !! i = Some I -> raw I ->
  f <> g -> f <> i -> g <> i -> d <> f -> e <> f -> e <> g ->
  exists h', (mpassign c f;; mpassign d g;; mpassign e i) h = Done tt h' /\ only [f; g; i] h h' /\
    holds h' f k /\ holds h' g l /\ holds h' i m.
Proof.
  intros Hc Hd He Hf RF Hg RG Hi RI Hfg Hfi Hgi Hdf Hef Heg.
  destruct (assign_num h c f k F Hc Hf RF) as (h1 & E1 & n1 & O1). erewrite bind_Done by exact E1.
  destruct (assign_num h1 d g l G) as (h2 & E2 & n2 & O2);
    [by eapply holds_only; [exact O1|away|]|by rewrite (only_lookup _ _ _ _ O1) by away|done|]. erewrite bind_Done by exact E2.
  assert (only [f; g] h h2) as O12 by (eapply only_trans; [exact O1|exact O2|incl..]).
  destruct (assign_num h2 e i m I) as (h3 & E3 & n3 & O3);
    [by eapply holds_only; [exact O12|away|]|by rewrite (only_lookup _ _ _ _ O12) by away|done|].
  exists h3. split_and!; try done; [eapply only_trans; [exact O12|exact O3|incl..]|..].
  - eapply holds_only; [exact O3|away|]. by eapply holds_only; [exact O2|away|].
  - by eapply holds_only; [exact O3|away|].
Qed.

(** The sign and the size of the object of a number. *)
Lemma holds_obj h a p :
  holds h a p -> exists x, obj a h = Done x h /\ (mp_sign x <? 0) = (p <? 0) /\ (mp_top x =? 0)%nat = (p =? 0).
Proof.
  intros (x & Hx & Nx & <-). exists x. split; [by apply obj_Done|]. pose proof Nx as (Tx & Sx & Zx).
  pose proof (mag_zero x Tx) as X0. pose proof (mag_range x (proj1 Tx)). unfold mpval.
  split; [destruct (Z.ltb_spec (mp_sign x) 0), (Z.ltb_spec (mp_sign x * mag x) 0)
         |destruct (Nat.eqb_spec (mp_top x) 0), (Z.eqb_spec (mp_sign x * mag x) 0)]; try done; destruct Sx as [Es|Es]; rewrite Es in *; lia.
Qed.

(** ** The common powers of two *)

Lemma common_twos_ok fuel a b : a <> b -> forall h p q g,
  num h a p -> num h b q -> 0 < p -> 0 < q -> p < 2 ^ Z.of_nat fuel ->
  exists h' p' q' k, common_twos fuel a b g h = Done (g + k) h' /\ num h' a p' /\ num h' b q' /\ only [a; b] h h' /\
    0 <= k /\ p = 2 ^ k * p' /\ q = 2 ^ k * q' /\ 0 < p' /\ 0 < q' /\ Z.even p' && Z.even q' = false.
Proof.
  intros Hne. induction fuel as [|fuel IH]; intros h p q g Na Nb Hp Hq Hf; [cbn in Hf; lia|].
  cbn [common_twos]. erewrite bind_Done by (by apply even_num). destruct (Z.even p) eqn:Ep.
  - erewrite bind_Done by (by apply even_num). destruct (Z.even q) eqn:Eq.
    + destruct (half_num h a p Na Ep) as (h1 & R1 & n1 & O1). erewrite bind_Done by exact R1.
      destruct (half_num h1 b q) as (h2 & R2 & n2 & O2); [eapply only_num; [exact O1|away|done]|done|].
      erewrite bind_Done by exact R2. pose proof (even_half p Ep). pose proof (even_half q Eq).
      destruct (IH h2 (p / 2) (q / 2) (g + 1)) as (h' & p' & q' & k & R & nA & nB & O & Hk & E1 & E2 & Hrest);
        [eapply only_num; [exact O2|away|done]|done|lia|lia| |].
      { rewrite Nat2Z.inj_succ, Z.pow_succ_r in Hf by lia. lia. }
      exists h', p', q', (k + 1). rewrite R, Z.pow_add_r by lia. split_and!; try done; try apply Hrest; [f_equal; lia| |lia|lia|lia].
      assert (only [a; b] h h2) as Oh by (eapply only_trans; [exact O1|exact O2|incl..]).
      eapply only_trans; [exact Oh|exact O|done..].
    + exists h, p, q, 0. rewrite Z.add_0_r, Z.mul_1_l, Z.mul_1_l, Ep, Eq. by split_and!.
  - exists h, p, q, 0. rewrite Z.add_0_r, Z.mul_1_l, Z.mul_1_l, Ep. cbn [andb]. by split_and!.
Qed.

(** The loop has enough turns for the sizes of the two numbers. *)
Lemma gcd_fuel U V nu nv :
  0 < U < 2 ^ Z.of_nat nu -> 0 < V < 2 ^ Z.of_nat nv ->
  (if Z.odd U && Z.odd V then 2 else 1) * (U * V) < 2 ^ Z.of_nat (S (nu + nv)).
Proof.
  intros HU HV. rewrite Nat2Z.inj_succ, Nat2Z.inj_add, Z.pow_succ_r, Z.pow_add_r by lia.
  assert (U * V < 2 ^ Z.of_nat nu * 2 ^ Z.of_nat nv) by (apply Z.mul_lt_mono_nonneg; lia).
  destruct (Z.odd U && Z.odd V); nia.
Qed.

Lemma gcd_scaled k p q p' q' : 0 <= k -> p = 2 ^ k * p' -> q = 2 ^ k * q' -> 2 ^ k * Z.gcd p' q' = Z.gcd p q.
Proof. intros Hk -> ->. rewrite Z.gcd_mul_mono_l_nonneg; [done|]. apply Z.pow_nonneg. lia. Qed.

(** Freeing one after the other. *)
Fixpoint frees (F : list Z) : mpm unit :=
  match F with
  | [] => mret tt
  | [k] => mpfree (Some k)
  | k :: F => mpfree (Some k);; frees F
  end.

Lemma frees_ok F S h : forall h1, grown F S h h1 ->
  exists h', frees F h1 = Done tt h' /\ only S h h' /\ (forall k, k ∉ F -> h' !! k = h1 !! k).
Proof.
  induction F as [|k F IH]; intros h1 G; [exists h1; split_and!; [done|by apply grown_end|done]|].
  destruct (grown_free _ _ _ _ _ G) as [E G1]. destruct (IH _ G1) as (h' & E' & O & Hs).
  exists h'. split_and!; [|done|].
  - destruct F; [|cbn [frees]; by erewrite bind_Done]. injection E' as <-. exact E.
  - intros j [Hjk Hj]%not_elem_of_cons. rewrite Hs by done. by apply lookup_delete_ne.
Qed.

Lemma grown_perm F F' S h h' : F ≡ₚ F' -> grown F S h h' -> grown F' S h h'.
Proof.
  intros P [Hn Hnone Hf Ho Hs].
  constructor; [by rewrite <- P|intros k Hk..]; rewrite <- P in Hk; eauto.
Qed.

(** ** [mpextendedgcd] *)

Section gcd.
Context (h : heap) (a b v x y : Z) (V0 X0 Y0 : mpint) (p q : Z).
Hypotheses (Ha : holds h a p) (Hb : holds h b q).
Hypotheses (HV : h !! v = Some V0) (RV : raw V0) (HX : h !! x = Some X0) (RX : raw X0) (HY : h !! y = Some Y0) (RY : raw Y0).
Hypotheses (Hz : h !! mpzero = Some _mpzero) (Ho : h !! mpone = Some _mpone).
Hypothesis (Hdiff : NoDup [v; x; y; mpzero; mpone]).

(** What is left to do when the loop is over, and its effect. *)
Lemma gcd_finish F C D g h1 R S d :
  grown F [v] h h1 -> C ∈ F -> D ∈ F ->
  num h1 C R -> num h1 D S -> num h1 v d -> 0 < d -> 0 <= g ->
  exists h', (mpassign C x;; mpassign D y;; mpleft v g v;; frees F) h1 = Done tt h' /\
    only [v; x; y] h h' /\ holds h' v (2 ^ g * d) /\ holds h' x R /\ holds h' y S.
Proof using All.
  intros G HC HD nC nD nv Hd Hg. spread Hdiff.
  assert (v ∉ F /\ x ∉ F /\ y ∉ F) as (vF & xF & yF) by (split_and!; by eapply grown_not_new).
  assert (D <> x /\ D <> y /\ C <> x) as (Dx & Dy & Cx) by (split_and!; congruence).
  destruct (assign_num h1 C x R X0) as (h2 & E2 & n2 & O2);
    [by apply num_holds|by eapply grown_lookup; [exact G|done|away]|done|].
  erewrite bind_Done by exact E2.
  destruct (assign_num h2 D y S Y0) as (h3 & E3 & n3 & O3);
    [by eapply holds_only, num_holds; [exact O2|away|]|
     rewrite (only_lookup _ _ _ _ O2) by away; by eapply grown_lookup; [exact G|done|away]|done|].
  erewrite bind_Done by exact E3.
  assert (only [x; y] h1 h3) as O13 by (eapply only_trans; [exact O2|exact O3|incl..]).
  destruct (left_num h3 v d g) as (h4 & E4 & n4 & O4);
    [by eapply holds_only, num_holds; [exact O13|away|]|done|done|].
  erewrite bind_Done by exact E4.
  assert (grown F [v; x; y] h h4) as G4.
  { assert (only [v; x; y] h1 h4) as O14 by (eapply only_trans; [exact O13|exact O4|incl..]).
    eapply grown_only; [eapply grown_more; [exact G|incl]|exact O14|by right]. }
  destruct (frees_ok F _ _ _ G4) as (h' & E & O & Hs).
  assert (forall k z, k ∉ F -> holds h4 k z -> holds h' k z) as Hk.
  { intros k z Hk (w & Hw & Hr). exists w. by rewrite Hs. }
  exists h'. split_and!; [done|done|..].
  - by apply Hk.
  - apply Hk; [done|]. eapply holds_only; [exact O4|away|]. by eapply holds_only; [exact O3|away|].
  - apply Hk; [done|]. by eapply holds_only; [exact O4|away|].
Qed.

(** The objects the loop works on. *)
Lemma gcd_start {X} (k : Z -> Z -> Z -> Z -> Z -> mpm X) a' b' p' q' h1 :
  grown [b'; a'] [] h h1 -> num h1 a' p' -> num h1 b' q' -> 0 < p' -> 0 < q' ->
  exists u A B C D h', (u ← mpcopy a'; mpassign b' v;; A ← mpcopy mpone; B ← mpcopy mpzero;
      C ← mpcopy mpzero; D ← mpcopy mpone; k u A B C D) h1 = k u A B C D h' /\
    grown [D; C; B; A; u; b'; a'] [v] h h' /\ pairs u v A B C D a' b' p' q' h' p' q' 1 0 0 1.
Proof using All.
  intros G1 na1 nb1 Hp Hq. spread Hdiff.
  assert (forall F h', grown F [v] h h' -> holds h' mpone 1) as one.
  { intros F h' G. exists _mpone. split; [by eapply grown_lookup; [exact G|done|away]|]. split; [by_decide|done]. }
  assert (forall F h', grown F [v] h h' -> h' !! mpzero = Some _mpzero) as zero.
  { intros F h' G. by eapply grown_lookup; [exact G|done|away]. }
  destruct (copy_num _ _ _ _ a' p' G1 (num_holds _ _ _ na1)) as (u & h2 & E2 & F2 & nu2 & G2 & K2); [lia_apart|].
  erewrite bind_Done by exact E2. pose proof (num_kept _ _ _ F2 K2 _ _ na1) as na2. pose proof (num_kept _ _ _ F2 K2 _ _ nb1) as nb2.
  destruct (assign_num h2 b' v q' V0) as (h3 & E3 & nv3 & O3);
    [by apply num_holds|by eapply grown_lookup; [exact G2|done|apply not_elem_of_nil]|done|].
  erewrite bind_Done by exact E3. apply holds_num in nv3; [|lia_apart].
  assert (v ∉ [u; b'; a']) as vF by (by eapply grown_not_new; [exact G2|]). rewrite !not_elem_of_cons in vF. destruct_and! vF.
  assert (grown [u; b'; a'] [v] h h3) as G3.
  { eapply grown_only; [eapply grown_more; [exact G2|incl]|exact O3|by right]. }
  destruct (copy_num _ _ _ _ mpone 1 G3 (one _ _ G3)) as (A & h4 & E4 & F4 & nA & G4 & K4); [done|]. erewrite bind_Done by exact E4.
  destruct (copy_zero _ _ _ _ G4 (zero _ _ G4)) as (B & h5 & E5 & F5 & nB & G5 & K5). erewrite bind_Done by exact E5.
  destruct (copy_zero _ _ _ _ G5 (zero _ _ G5)) as (C & h6 & E6 & F6 & nC & G6 & K6). erewrite bind_Done by exact E6.
  destruct (copy_num _ _ _ _ mpone 1 G6 (one _ _ G6)) as (D & h7 & E7 & F7 & nD & G7 & K7); [done|]. erewrite bind_Done by exact E7.
  pose proof (fun j z n => num_kept _ _ _ F7 K7 j z n) as K67. pose proof (fun j z n => K67 j z (num_kept _ _ _ F6 K6 j z n)) as K57.
  pose proof (fun j z n => K57 j z (num_kept _ _ _ F5 K5 j z n)) as K47. pose proof (fun j z n => K47 j z (num_kept _ _ _ F4 K4 j z n)) as K37.
  exists u, A, B, C, D, h7. split_and!; [done|done|].
  constructor; [| |auto..|exact (zero _ _ G7)|ring|ring]; apply K37; try done; eapply only_num; try exact O3; try done; away.
Qed.

(** The loop on those objects. *)
Lemma gcd_run {X} (k : mpm X) u A B C D a' b' p' q' h1 :
  grown [D; C; B; A; u; b'; a'] [v] h h1 -> pairs u v A B C D a' b' p' q' h1 p' q' 1 0 0 1 ->
  0 < p' -> 0 < q' -> Z.even p' && Z.even q' = false ->
  exists h' R T, (nu ← bits_of u; nv ← bits_of v; gcd_loop (S (nu + nv)) u v A B C D a' b';; k) h1 = k h' /\
    grown [A; B; C; D; u; a'; b'] [v] h h' /\ num h' v (Z.gcd p' q') /\ num h' C R /\ num h' D T /\
    R * p' + T * q' = Z.gcd p' q'.
Proof using All.
  intros G P Hp Hq Hodd. assert (NoDup [mpzero; u; v; A; B; C; D; a'; b']) as Hnd.
  { assert (v ∉ [D; C; B; A; u; b'; a'] /\ mpzero ∉ [D; C; B; A; u; b'; a']) as [vF zF]
      by (split; by eapply grown_not_new; [exact G|]).
    pose proof (gr_new _ _ _ _ G) as Hn. spread Hdiff. clear -Hn vF zF H2.
    assert (NoDup (mpzero :: v :: [D; C; B; A; u; b'; a'])) as Hall.
    { apply NoDup_cons. split; [|by apply NoDup_cons]. apply not_elem_of_cons. split; [by apply not_eq_sym|done]. }
    assert ([mpzero; u; v; A; B; C; D; a'; b'] ≡ₚ mpzero :: v :: [D; C; B; A; u; b'; a']) as -> by solve_Permutation.
    exact Hall. }
  destruct (bits_num h1 u p' (pr_u _ _ _ _ _ _ _ _ _ _ _ _ _ _ _ _ _ P)) as (nu & Eu & Hu).
  destruct (bits_num h1 v q' (pr_v _ _ _ _ _ _ _ _ _ _ _ _ _ _ _ _ _ P)) as (nv & Ev & Hv).
  erewrite bind_Done by exact Eu. erewrite bind_Done by exact Ev.
  destruct (gcd_loop_ok u v A B C D a' b' p' q' Hnd Hp Hq Hodd (S (nu + nv)) h1 p' q' 1 0 0 1 P Hp Hq)
    as (h' & R & T & E & nv' & nC & nD & O & Eid).
  { rewrite <- !Z.negb_even, <- negb_andb, Hodd. done. }
  { apply gcd_fuel; [clear -Hu Hp|clear -Hv Hq]; lia. }
  exists h', R, T. split_and!; try done; [by erewrite bind_Done by exact E|].
  apply (grown_perm [D; C; B; A; u; b'; a']); [solve_Permutation|].
  eapply grown_only; [exact G|exact O|incl].
Qed.

Lemma gcd_main_ok :
  0 < p -> 0 < q ->
  exists h' X Y, gcd_main a b v x y h = Done tt h' /\ only [v; x; y] h h' /\
    holds h' v (Z.gcd p q) /\ holds h' x X /\ holds h' y Y /\ p * X + q * Y = Z.gcd p q.
Proof using All.
  intros Hp Hq. unfold gcd_main. pose proof (grown_start [] h) as G0.
  destruct (copy_num _ _ _ _ a p G0 Ha) as (a' & h1 & E1 & F1 & na1 & G1 & K1); [lia_apart|]. erewrite bind_Done by exact E1.
  assert (holds h1 b q) as Hb1.
  { destruct Hb as (w & Hw & Hr). exists w. by rewrite K1 by congruence. }
  destruct (copy_num _ _ _ _ b q G1 Hb1) as (b' & h2 & E2 & F2 & nb2 & G2 & K2); [lia_apart|]. erewrite bind_Done by exact E2.
  pose proof (num_kept _ _ _ F2 K2 _ _ na1) as na2.
  assert (a' <> b') as Hab by (pose proof (gr_new _ _ _ _ G2) as Hn; spread Hn; by apply not_eq_sym).
  destruct (bits_num h2 a' p na2) as (n & En & Hn). erewrite bind_Done by exact En.
  destruct (common_twos_ok n a' b' Hab h2 p q 0 na2 nb2 Hp Hq) as (h3 & p' & q' & g & E3 & na3 & nb3 & O3 & Hg & Ep & Eq & Hp' & Hq' & Hodd); [lia_apart|].
  erewrite bind_Done by exact E3. rewrite Z.add_0_l.
  assert (grown [b'; a'] [] h h3) as G3 by (eapply grown_only; [exact G2|exact O3|incl]).
  edestruct (gcd_start (fun u A B C D => nu ← bits_of u; nv ← bits_of v; gcd_loop (S (nu + nv)) u v A B C D a' b';;
    (mpassign C x;; mpassign D y;; mpleft v g v;; frees [A; B; C; D; u; a'; b'])) a' b' p' q' h3 G3 na3 nb3 Hp' Hq')
    as (u & A & B & C & D & h4 & E4 & G4 & P4).
  destruct (gcd_run (mpassign C x;; mpassign D y;; mpleft v g v;; frees [A; B; C; D; u; a'; b'])
    u A B C D a' b' p' q' h4 G4 P4 Hp' Hq' Hodd) as (h5 & R & T & E5 & G5 & nv5 & nC5 & nD5 & Eid).
  assert (0 < Z.gcd p' q') as Hd by (pose proof (Z.gcd_nonneg p' q'); assert (Z.gcd p' q' <> 0); [rewrite Z.gcd_eq_0|]; lia_apart).
  destruct (gcd_finish [A; B; C; D; u; a'; b'] C D g h5 R T (Z.gcd p' q') G5) as (h' & E & O & Ov & Ox & Oy);
    [incl|incl|done..|].
  exists h', R, T. rewrite <- (gcd_scaled g p q p' q' Hg Ep Eq). split_and!; try done.
  - rewrite <- E, <- E5, <- E4. reflexivity.
  - rewrite <- Eid, Ep, Eq. ring.
Qed.

Local Lemma holds_constants : holds h mpzero 0 /\ holds h mpone 1.
Proof using Hz Ho. split; [exists _mpzero|exists _mpone]; (split; [done|split; [by_decide|done]]). Qed.

Lemma mpextendedgcd_ok :
  0 <= p -> 0 <= q ->
  exists h' X Y, mpextendedgcd a b v x y h = Done tt h' /\ only [v; x; y] h h' /\
    holds h' v (Z.gcd p q) /\ holds h' x X /\ holds h' y Y /\ p * X + q * Y = Z.gcd p q.
Proof using All.
  intros Hp Hq. destruct holds_constants as [H0 H1]. destruct (holds_obj h a p Ha) as (xa & Ea & Sa & Ta).
  destruct (holds_obj h b q Hb) as (xb & Eb & Sb & Tb).
  unfold mpextendedgcd. erewrite bind_Done by exact Ea. erewrite bind_Done by exact Eb. rewrite Sa, Sb, Ta, Tb.
  destruct (Z.ltb_spec p 0); [lia_apart|]. destruct (Z.ltb_spec q 0); [lia_apart|]. cbn [orb].
  spread Hdiff. destruct (Z.eqb_spec p 0) as [E|Hp0]; [|destruct (Z.eqb_spec q 0) as [E|Hq0]].
  - destruct (assign_three h b mpone mpzero v y x q 1 0 V0 Y0 X0) as (h' & R & O & Ov & Oy & Ox); try done; try by apply not_eq_sym.
    exists h', 0, 1. rewrite E, Z.gcd_0_l, Z.abs_eq by done. split_and!; try done; [eapply only_incl; [exact O|incl]|ring].
  - destruct (assign_three h a mpone mpzero v x y p 1 0 V0 X0 Y0) as (h' & R & O & Ov & Ox & Oy); try done; try by apply not_eq_sym.
    exists h', 1, 0. rewrite E, Z.gcd_0_r, Z.abs_eq by done. split_and!; try done. ring.
  - apply gcd_main_ok; lia_apart.
Qed.

(** C13: [mpextendedgcd] of two numbers that are not negative makes their greatest common
    divisor and coefficients that combine the numbers to it, whatever of the operands are
    results too; all other objects are as before, and all it allocated is freed. *)
Theorem mpextendedgcd_correct :
  0 <= p -> 0 <= q ->
  exists h' X Y, mpextendedgcd a b v x y h = Done tt h' /\ only [v; x; y] h h' /\
    holds h' v (Z.gcd p q) /\ holds h' x X /\ holds h' y Y /\ p * X + q * Y = Z.gcd p q.
Proof using All. exact mpextendedgcd_ok. Qed.

(** [mpextendedgcd] of a negative number makes three zeros. *)
Theorem mpextendedgcd_negative :
  p < 0 \/ q < 0 ->
  exists h', mpextendedgcd a b v x y h = Done tt h' /\ only [v; x; y] h h' /\
    holds h' v 0 /\ holds h' x 0 /\ holds h' y 0.
Proof using All.
  intros Hneg. destruct holds_constants as [H0 H1]. destruct (holds_obj h a p Ha) as (xa & Ea & Sa & Ta).
  destruct (holds_obj h b q Hb) as (xb & Eb & Sb & Tb).
  unfold mpextendedgcd. erewrite bind_Done by exact Ea. erewrite bind_Done by exact Eb. rewrite Sa, Sb.
  replace ((p <? 0) || (q <? 0)) with true by (destruct (Z.ltb_spec p 0), (Z.ltb_spec q 0); cbn; lia_apart).
  spread Hdiff.
  destruct (assign_three h mpzero mpzero mpzero v y x 0 0 0 V0 Y0 X0) as (h' & R & O & Ov & Oy & Ox); try done; try by apply not_eq_sym.
  exists h'. split_and!; try done. eapply only_incl; [exact O|incl].
Qed.
End gcd.

(** ** [mpinvert] *)

(** An inverse is not a multiple of the modulus. *)
Lemma inverse_nonzero p m X Y : 1 < m -> p * X + m * Y = 1 -> X mod m <> 0.
Proof.
  intros Hm E H0. apply Z.mod_divide in H0 as [z ->]; [|lia].
  assert (m | 1) as D by (exists (p * z + Y); rewrite <- E; ring). apply Z.divide_pos_le in D; lia.
Qed.

Lemma inverse_mod p m X Y : 1 < m -> p * X + m * Y = 1 -> (p * (X mod m)) mod m = 1.
Proof.
  intros Hm E. rewrite Z.mul_mod_idemp_r by lia. replace (p * X) with (1 + (- Y) * m) by lia.
  rewrite Z.mod_add by lia. apply Z.mod_small. lia.
Qed.

Lemma new_num F S h h' :
  grown F S h h' -> exists k c, mpnew 0 h' = Done k (<[k := c]> h') /\ h' !! k = None /\ raw c /\ grown (k :: F) S h (<[k := c]> h').
Proof.
  intros G. destruct (mpnew_ok h' 0) as (k & c & E & Hk & Rc & _ & _ & Sc & _); [done|].
  exists k, c. split_and!; try done. by apply grown_alloc.
Qed.

Section invert.
Context (h : heap) (b m res : Z) (R0 : mpint) (p q : Z).
Hypotheses (Hb : holds h b p) (Hm : holds h m q) (HR : h !! res = Some R0) (RR : raw R0).
Hypotheses (Hz : h !! mpzero = Some _mpzero) (Ho : h !! mpone = Some _mpone).
Hypotheses (Hdiff : NoDup [m; res; mpzero; mpone]) (Hp : 0 <= p) (Hq : 1 < q).

(** The common part: the greatest common divisor, compared with one. *)
Lemma invert_start (k : Z -> Z -> Z -> mpm unit) :
  exists d1 d2 h' c X Y, (dc1 ← mpnew 0; dc2 ← mpnew 0; mpextendedgcd b m dc1 res dc2;;
      c ← mpcmp dc1 mpone; k dc1 dc2 c) h = k d1 d2 c h' /\ grown [d1; d2] [res] h h' /\
    (c = 0 <-> Z.gcd p q = 1) /\ holds h' res X /\ p * X + q * Y = Z.gcd p q.
Proof using All.
  destruct (new_num _ _ _ _ (grown_start [res] h)) as (d1 & c1 & E1 & F1 & RC1 & G1). erewrite bind_Done by exact E1.
  destruct (new_num _ _ _ _ G1) as (d2 & c2 & E2 & F2 & RC2 & G2). erewrite bind_Done by exact E2.
  set (h2 := <[d2 := c2]> _) in *. destruct (grown_fresh _ _ _ _ _ G1 F2) as [F2' N2]. rewrite not_elem_of_cons in N2. destruct N2 as [N2 _].
  assert (forall k w, h !! k = Some w -> h2 !! k = Some w) as Hlk.
  { intros j w Hw. unfold h2. by rewrite !lookup_insert_ne by congruence. }
  assert (forall k z, holds h k z -> holds h2 k z) as Hlh by (intros j z (w & Hw & Hr); exists w; auto).
  spread Hdiff.
  destruct (mpextendedgcd_ok h2 b m d1 res d2 c1 R0 c2 p q) as (h3 & X & Y & E3 & O3 & O1 & OX & OY & Eid); auto; [..|lia_apart|].
  { unfold h2. rewrite lookup_insert_ne by done. apply lookup_insert_eq. }
  { apply lookup_insert_eq. }
  { assert (d1 <> res /\ d1 <> mpzero /\ d1 <> mpone /\ d2 <> res /\ d2 <> mpzero /\ d2 <> mpone) as Hd by (split_and!; congruence).
    destruct_and! Hd. rewrite !NoDup_cons. split_and!; try apply NoDup_nil_2; away. }
  erewrite bind_Done by exact E3.
  assert (holds h3 mpone 1) as One.
  { exists _mpone. rewrite (only_lookup _ _ _ _ O3) by (rewrite !not_elem_of_cons; split_and!; try apply not_elem_of_nil; congruence).
    rewrite (Hlk _ _ Ho). split; [done|]. split; [by_decide|done]. }
  destruct O1 as (w & Hw & Nw & Vw). destruct One as (w1 & Hw1 & Nw1 & Vw1).
  destruct (mpcmp_ok h3 d1 mpone w w1 Hw Nw Hw1 Nw1) as (c & Ec & Hc). rewrite Vw, Vw1 in Hc. erewrite bind_Done by exact Ec.
  exists d1, d2, h3, c, X, Y. split_and!; try done; [|split; intros; lia_apart].
  apply (grown_perm [d2; d1]); [solve_Permutation|]. eapply grown_only; [exact G2|exact O3|clear; set_solver].
Qed.


(** [mpinvert] aborts when the number has no inverse. *)
Theorem mpinvert_none : Z.gcd p q <> 1 -> mpinvert b m res h = Stopped Abort.
Proof using All.
  intros Hg. unfold mpinvert.
  edestruct (invert_start (fun dc1 dc2 c => if negb (c =? 0) then halt Abort else mpmod res m res;; frees [dc1; dc2]))
    as (d1 & d2 & h1 & c & X & Y & E & G & Hc & _).
  destruct (Z.eqb_spec c 0) as [E0|]; [tauto|]. exact E.
Qed.
End invert.

(** ** On numbers *)

Definition gcd_heap : heap :=
  {[ mpzero := _mpzero; mpone := _mpone; 20 := mkMpint 1 1 [84] false; 21 := mkMpint 1 1 [36; 9] false;
     22 := ex_nil; 23 := ex_neg; 24 := mkMpint 1 1 [25] false ]}.

Ltac on_heap := repeat split; first [by eexists; split; [reflexivity|split; [by_decide|reflexivity]] | reflexivity | by_decide].

Lemma mpextendedgcd_correct_witness :
  exists h' X Y, mpextendedgcd 20 21 22 23 20 gcd_heap = Done tt h' /\ only [22; 23; 20] gcd_heap h' /\
    holds h' 22 12 /\ holds h' 23 X /\ holds h' 20 Y /\ 84 * X + 36 * Y = 12.
Proof. apply (mpextendedgcd_correct gcd_heap 20 21 22 23 20 ex_nil ex_neg (mkMpint 1 1 [84] false) 84 36); on_heap. Defined.

Lemma mpextendedgcd_negative_witness :
  exists h', mpextendedgcd 20 23 22 23 20 gcd_heap = Done tt h' /\ only [22; 23; 20] gcd_heap h' /\
    holds h' 22 0 /\ holds h' 23 0 /\ holds h' 20 0.
Proof.
  apply (mpextendedgcd_negative gcd_heap 20 23 22 23 20 ex_nil ex_neg (mkMpint 1 1 [84] false) 84 (-7000000)); [on_heap..|].
  by right.
Defined.


Lemma mpinvert_none_witness : mpinvert 21 20 22 gcd_heap = Stopped Abort.
Proof. apply (mpinvert_none gcd_heap 21 20 22 ex_nil 36 84); first [on_heap | done]. Defined.
