(* ===== verification/Avl.v ===== *)
(** * Balanced trees: [libavl/avl.c]

    The whole library: nodes with parent pointers and balance bits, insertion, deletion,
    searches with neighbours, and the walks that survive deletions. An [Avl**] is a slot: the
    root of the tree or a child of a node. Nodes belong to the client, who embeds them in his
    own structures and compares those; so [cmp] is a function of two addresses. *)

From S2P Require Import Prelude.
#[local] Set Primitive Projections.

(** ** Data *)

Record Avl := mkAvl { a_p : option Z; a_n0 : option Z; a_n1 : option Z; a_bal : Z }.

(** The pointers [next] and [tree] are in the list [t_walks] of the tree. *)
Record Avlwalk := mkAvlwalk { w_started : Z; w_moved : Z; w_node : option Z }.

(** A tree with the memory its nodes and walks live in. *)
Record Avltree := mkAvltree {
  t_nodes : gmap Z Avl;
  t_root : option Z;
  t_walks : list Z;
  t_walkers : gmap Z Avlwalk }.

(** Why a function does not return: an access through a nil or dangling pointer, a failed
    assertion, [abort], a recursion deeper than there are nodes. *)
Inductive halted := BadPointer | AssertFails | Aborts | TooDeep.

Inductive avres (A : Type) := Run (a : A) (s : Avltree) | Halt (why : halted).
Arguments Run {A}.
Arguments Halt {A}.

Definition avm (A : Type) : Type := Avltree -> avres A.

#[global] Instance avm_ret : MRet avm := fun A a s => Run a s.
#[global] Instance avm_bind : MBind avm := fun A B k m s =>
  match m s with Run a s => k a s | Halt why => Halt why end.

Definition fail {A} (why : halted) : avm A := fun _ => Halt why.
Definition the_tree : avm Avltree := fun s => Run s s.
Definition modify (f : Avltree -> Avltree) : avm unit := fun s => Run tt (f s).
Definition set_nodes (h : gmap Z Avl) (s : Avltree) : Avltree := s <| t_nodes := h |>.

Definition nonnil (p : option Z) : avm Z :=
  match p with Some a => mret a | None => fail BadPointer end.
Definition node (a : Z) : avm Avl := fun s =>
  match t_nodes s !! a with Some n => Run n s | None => Halt BadPointer end.
Definition set_node (a : Z) (f : Avl -> Avl) : avm unit := fun s =>
  match t_nodes s !! a with
  | Some n => Run tt (set_nodes (<[a := f n]> (t_nodes s)) s)
  | None => Halt BadPointer
  end.

(** [n[i]]. *)
Definition kid (i : bool) (n : Avl) : option Z := if i then a_n1 n else a_n0 n.
Definition set_kid (i : bool) (v : option Z) (n : Avl) : Avl :=
  if i then n <| a_n1 := v |> else n <| a_n0 := v |>.

(** ** Slots *)

Inductive slot := Root | Kid (a : Z) (i : bool).

Definition get_slot (tp : slot) : avm (option Z) :=
  match tp with
  | Root => s ← the_tree; mret (t_root s)
  | Kid a i => n ← node a; mret (kid i n)
  end.

Definition set_slot (tp : slot) (v : option Z) : avm unit :=
  match tp with
  | Root => modify (fun s => s <| t_root := v |>)
  | Kid a i => set_node a (set_kid i v)
  end.

Definition deref (tp : slot) : avm Z := v ← get_slot tp; nonnil v.

(** [if(v) v->p = p]. *)
Definition set_parent (v p : option Z) : avm unit :=
  match v with Some a => set_node a (fun n => n <| a_p := p |>) | None => mret tt end.

(** ** Rotations *)

Definition singleleft (tp : slot) (p : option Z) : avm unit :=
  a ← deref tp;
  na ← node a;
  c ← nonnil (a_n1 na);
  nc ← node c;
  let r2 := a_bal nc in
  let l := (if 0 <? r2 then r2 else 0) + 1 - a_bal na in
  set_node a (fun n => n <| a_n1 := a_n0 nc |>);;
  set_parent (a_n0 nc) (Some a);;
  set_node c (fun n => n <| a_n0 := Some a |>);;
  set_parent (Some a) (Some c);;
  set_slot tp (Some c);;
  set_parent (Some c) p;;
  set_node a (fun n => n <| a_bal := - l |>);;
  set_node c (fun n => n <| a_bal := r2 - ((if 0 <? l then l else 0) + 1) |>).

Definition singleright (tp : slot) (p : option Z) : avm unit :=
  a ← deref tp;
  na ← node a;
  c ← nonnil (a_n0 na);
  nc ← node c;
  let l2 := - a_bal nc in
  let r := a_bal na + ((if 0 <? l2 then l2 else 0) + 1) in
  set_node a (fun n => n <| a_n0 := a_n1 nc |>);;
  set_parent (a_n1 nc) (Some a);;
  set_node c (fun n => n <| a_n1 := Some a |>);;
  set_parent (Some a) (Some c);;
  set_slot tp (Some c);;
  set_parent (Some c) p;;
  set_node a (fun n => n <| a_bal := r |>);;
  set_node c (fun n => n <| a_bal := ((if 0 <? r then r else 0) + 1) - l2 |>).

Definition doublerightleft (tp : slot) (p : option Z) : avm unit :=
  a ← deref tp;
  singleright (Kid a true) (Some a);;
  singleleft tp p.

Definition doubleleftright (tp : slot) (p : option Z) : avm unit :=
  a ← deref tp;
  singleleft (Kid a false) (Some a);;
  singleright tp p.

Definition balance (tp : slot) (p : option Z) : avm unit :=
  a ← deref tp;
  na ← node a;
  if a_bal na =? -2 then
    c ← nonnil (a_n0 na);
    nc ← node c;
    if a_bal nc <=? 0 then singleright tp p
    else if a_bal nc =? 1 then doubleleftright tp p
    else fail AssertFails
  else if a_bal na =? 2 then
    c ← nonnil (a_n1 na);
    nc ← node c;
    if 0 <=? a_bal nc then singleleft tp p
    else if a_bal nc =? -1 then doublerightleft tp p
    else fail AssertFails
  else mret tt.

Definition canoncmp (cmp : Z) : Z := if cmp <? 0 then -1 else if 0 <? cmp then 1 else 0.

(** The index [(i+1)/2] of a child. *)
Definition side (i : Z) : bool := negb (Z.quot (i + 1) 2 =? 0).

(** Adds [d] to the balance of the node in the slot. *)
Definition add_bal (tp : slot) (d : Z) : avm unit :=
  a ← deref tp; set_node a (fun n => n <| a_bal := a_bal n + d |>).

(** The balance of the node in the slot. *)
Definition bal_at (tp : slot) : avm Z := a ← deref tp; n ← node a; mret (a_bal n).

(** ** Predecessor and successor *)

(** [for(; a->n[i]; a = a->n[i]);] *)
Fixpoint descend (fuel : nat) (i : bool) (a : Z) : avm Z :=
  match fuel with
  | O => fail TooDeep
  | S fuel =>
      n ← node a;
      match kid i n with Some b => descend fuel i b | None => mret a end
  end.

(** [while(a->p && a->p->n[i] == a) a = a->p; return a->p;] *)
Fixpoint climb (fuel : nat) (i : bool) (a : Z) : avm (option Z) :=
  match fuel with
  | O => fail TooDeep
  | S fuel =>
      n ← node a;
      match a_p n with
      | None => mret None
      | Some q =>
          nq ← node q;
          if bool_decide (kid i nq = Some a) then climb fuel i q else mret (Some q)
      end
  end.

(** A path is no longer than there are nodes. *)
Definition depth (s : Avltree) : nat := S (size (t_nodes s)).

Definition findpredecessor (a : option Z) : avm (option Z) :=
  match a with
  | None => mret None
  | Some a =>
      s ← the_tree;
      n ← node a;
      match a_n0 n with
      | Some b => r ← descend (depth s) true b; mret (Some r)
      | None => climb (depth s) false a
      end
  end.

Definition findsuccessor (a : option Z) : avm (option Z) :=
  match a with
  | None => mret None
  | Some a =>
      s ← the_tree;
      n ← node a;
      match a_n1 n with
      | Some b => r ← descend (depth s) false b; mret (Some r)
      | None => climb (depth s) true a
      end
  end.

(** ** Walks *)

Definition walker (w : Z) : avm Avlwalk := fun s =>
  match t_walkers s !! w with Some x => Run x s | None => Halt BadPointer end.
Definition set_walker (w : Z) (x : Avlwalk) : avm unit :=
  modify (fun s => s <| t_walkers := <[w := x]> (t_walkers s) |>).

(** The walk [x] after the node it was at has gone: [p] is the predecessor. *)
Definition moved_to (p : option Z) (x : Avlwalk) : Avlwalk :=
  let x := x <| w_moved := 1 |> <| w_node := p |> in
  if bool_decide (p = None) then x <| w_started := 0 |> else x.

(** The loop of [walkdel] over the walks of the tree. *)
Fixpoint walkdel_loop (a : Z) (p : option Z) (ws : list Z) : avm unit :=
  match ws with
  | [] => mret tt
  | w :: ws =>
      x ← walker w;
      (if bool_decide (w_node x = Some a) then set_walker w (moved_to p x) else mret tt);;
      walkdel_loop a p ws
  end.

Definition walkdel (a : Z) : avm unit :=
  p ← findpredecessor (Some a);
  s ← the_tree;
  walkdel_loop a p (t_walks s).

(** [w] is the address the allocator returns. *)
Definition avlwalk (w : Z) : avm Z :=
  set_walker w (mkAvlwalk 0 0 None);;
  modify (fun s => s <| t_walks := w :: t_walks s |>);;
  mret w.

(** [for(a = root; a && a->n[i]; a = a->n[i]);] *)
Definition outermost (i : bool) : avm (option Z) :=
  s ← the_tree;
  match t_root s with
  | None => mret None
  | Some a => r ← descend (depth s) i a; mret (Some r)
  end.

Definition avlnext (w : Z) : avm (option Z) :=
  x ← walker w;
  if w_started x =? 0 then
    a ← outermost false;
    set_walker w (x <| w_node := a |> <| w_started := 1 |>);;
    mret a
  else
    a ← findsuccessor (w_node x);
    if bool_decide (a = w_node x) then fail Aborts
    else set_walker w (x <| w_node := a |>);; mret a.

Definition avlprev (w : Z) : avm (option Z) :=
  x ← walker w;
  if w_started x =? 0 then
    a ← outermost true;
    set_walker w (x <| w_node := a |> <| w_started := 1 |>);;
    mret a
  else if negb (w_moved x =? 0) then
    set_walker w (x <| w_moved := 0 |>);;
    mret (w_node x)
  else
    a ← findpredecessor (w_node x);
    if bool_decide (a = w_node x) then fail Aborts
    else set_walker w (x <| w_node := a |>);; mret a.

Fixpoint unlink (w : Z) (ws : list Z) : list Z :=
  match ws with
  | [] => []
  | x :: ws => if x =? w then ws else x :: unlink w ws
  end.

Definition endwalk (w : Z) : avm unit :=
  _ ← walker w;
  modify (fun s => s <| t_walks := unlink w (t_walks s) |> <| t_walkers := delete w (t_walkers s) |>).

(** ** Insertion, deletion, search *)

Section compare.
Context (cmp : Z -> Z -> Z).

(** The result is the growth of the subtree and the value of [*rfree]. *)
Fixpoint _insertavl (fuel : nat) (tp : slot) (p : option Z) (r : Z) (rfree : option Z)
    : avm (Z * option Z) :=
  match fuel with
  | O => fail TooDeep
  | S fuel =>
      t ← get_slot tp;
      match t with
      | None =>
          set_node r (fun n => n <| a_bal := 0 |> <| a_n0 := None |> <| a_n1 := None |> <| a_p := p |>);;
          set_slot tp (Some r);;
          mret (1, rfree)
      | Some t =>
          nt ← node t;
          let ob := a_bal nt in
          let i := canoncmp (cmp r t) in
          if negb (i =? 0) then
            '(d, rfree) ← _insertavl fuel (Kid t (side i)) (Some t) r rfree;
            add_bal tp (i * d);;
            balance tp p;;
            b ← bal_at tp;
            mret (if (ob =? 0) && negb (b =? 0) then 1 else 0, rfree)
          else
            set_slot tp (Some r);;
            old ← node t;
            set_node r (fun _ => old);;
            set_parent (a_n0 old) (Some r);;
            set_parent (a_n1 old) (Some r);;
            mret (0, Some t)
      end
  end.

(** The result is the growth of the subtree and the value of [*r]. *)
Fixpoint successor (fuel : nat) (tp : slot) (p : option Z) : avm (Z * Z) :=
  match fuel with
  | O => fail TooDeep
  | S fuel =>
      t ← deref tp;
      nt ← node t;
      match a_n0 nt with
      | None =>
          set_slot tp (a_n1 nt);;
          set_parent (a_n1 nt) p;;
          mret (-1, t)
      | Some _ =>
          let ob := a_bal nt in
          '(d, r) ← successor fuel (Kid t false) (Some t);
          add_bal tp (- d);;
          balance tp p;;
          b ← bal_at tp;
          mret (if negb (ob =? 0) && (b =? 0) then -1 else 0, r)
      end
  end.

(** Deleting a node with two kids: its successor takes its place. *)
Definition replace_by_successor (fuel : nat) (tp : slot) (p : option Z) (or : Z) : avm unit :=
  '(d, r) ← successor fuel (Kid or true) (Some or);
  set_node or (fun n => n <| a_bal := a_bal n + d |>);;
  nor ← node or;
  set_node r (fun n => n <| a_bal := a_bal nor |> <| a_n0 := a_n0 nor |> <| a_n1 := a_n1 nor |>);;
  set_slot tp (Some r);;
  set_parent (Some r) p;;
  set_parent (a_n0 nor) (Some r);;
  set_parent (a_n1 nor) (Some r).

(** The result is the growth of the subtree and the value of [*del]. *)
Fixpoint _deleteavl (fuel : nat) (tp : slot) (p : option Z) (rx : Z) (del : option Z)
    (predel : Z -> avm unit) : avm (Z * option Z) :=
  match fuel with
  | O => fail TooDeep
  | S fuel =>
      t ← get_slot tp;
      match t with
      | None => mret (0, del)
      | Some t =>
          nt ← node t;
          let ob := a_bal nt in
          let i := canoncmp (cmp rx t) in
          if negb (i =? 0) then
            '(d, del) ← _deleteavl fuel (Kid t (side i)) (Some t) rx del predel;
            add_bal tp (i * d);;
            balance tp p;;
            b ← bal_at tp;
            mret (if negb (ob =? 0) && (b =? 0) then -1 else 0, del)
          else
            predel t;;
            nt ← node t;
            match a_n0 nt, a_n1 nt with
            | None, v | v, None =>
                set_slot tp v;;
                set_parent v p;;
                mret (-1, Some t)
            | _, _ =>
                replace_by_successor fuel tp p t;;
                balance tp p;;
                b ← bal_at tp;
                mret (if negb (ob =? 0) && (b =? 0) then -1 else 0, Some t)
            end
      end
  end.

(** The value of [*oldp] is the result. *)
Definition insertavl (new : Z) : avm (option Z) :=
  s ← the_tree;
  '(_, old) ← _insertavl (depth s) Root None new None;
  mret old.

Definition deleteavl (key : Z) : avm (option Z) :=
  s ← the_tree;
  '(_, old) ← _deleteavl (depth s) Root None key None walkdel;
  mret old.

(** The [do] loop of [_lookupavl], after which [i] and [p] are the last comparison and node. *)
Fixpoint lookup_loop (fuel : nat) (t : Z) (p : option Z) (r : Z) : avm (Z + Z * Z) :=
  match fuel with
  | O => fail TooDeep
  | S fuel =>
      nt ← node t;
      if negb (bool_decide (a_p nt = p)) then fail AssertFails
      else
        let i := canoncmp (cmp r t) in
        if i =? 0 then mret (inl t)
        else
          match kid (side i) nt with
          | Some t' => lookup_loop fuel t' (Some t) r
          | None => mret (inr (i, t))
          end
  end.

Definition _lookupavl (t : option Z) (r : Z) (neighbor : Z) : avm (option Z) :=
  match t with
  | None => mret None
  | Some t =>
      s ← the_tree;
      res ← lookup_loop (depth s) t None r;
      match res with
      | inl t => mret (Some t)
      | inr (i, p) =>
          if neighbor =? 0 then mret None
          else if neighbor <? 0 then if 0 <? i then mret (Some p) else findpredecessor (Some p)
          else if i <? 0 then mret (Some p) else findsuccessor (Some p)
      end
  end.

Definition searchavl (key : Z) (neighbor : Z) : avm (option Z) :=
  s ← the_tree; _lookupavl (t_root s) key neighbor.

Definition lookupavl (key : Z) : avm (option Z) :=
  s ← the_tree; _lookupavl (t_root s) key 0.
End compare.

(** A tree without nodes over the memory [h]. *)
Definition mkavltree (h : gmap Z Avl) : Avltree := mkAvltree h None [] ∅.
