(* ===== verification/AvlRep.v ===== *)
(** * Trees in memory

    The tree that the nodes reached from a slot make up, what a function may change when it
    works on the tree in a slot, and the rotations: they keep the order of the nodes and bring
    the heights back into balance. *)

From S2P Require Import Prelude Avl.

Implicit Types (s : Avltree) (tp : slot) (p v w : option Z) (h : gmap Z Avl) (X Y : list Z).

(** ** Trees *)

Inductive tree := Leaf | Node (l : tree) (a : Z) (b : Z) (r : tree).

Definition ptr (t : tree) : option Z := match t with Leaf => None | Node _ a _ _ => Some a end.

(** The nodes in order. *)
Fixpoint elems (t : tree) : list Z :=
  match t with Leaf => [] | Node l a _ r => elems l ++ a :: elems r end.

Fixpoint height (t : tree) : Z :=
  match t with Leaf => 0 | Node l _ _ r => 1 + Z.max (height l) (height r) end.

Definition root_bal (t : tree) : Z := match t with Leaf => 0 | Node _ _ b _ => b end.

(** The balance bits are the differences of the heights. *)
Fixpoint measured (t : tree) : Prop :=
  match t with
  | Leaf => True
  | Node l _ b r => b = height r - height l /\ measured l /\ measured r
  end.

(** An AVL tree: the differences are at most one. *)
Fixpoint balanced (t : tree) : Prop :=
  match t with
  | Leaf => True
  | Node l _ b r => b = height r - height l /\ -1 <= b <= 1 /\ balanced l /\ balanced r
  end.

(** [t] is in the memory [h], below the parent [p]. *)
Fixpoint reps h p (t : tree) : Prop :=
  match t with
  | Leaf => True
  | Node l a b r =>
      h !! a = Some (mkAvl p (ptr l) (ptr r) b) /\ reps h (Some a) l /\ reps h (Some a) r
  end.

Lemma height_nonneg t : 0 <= height t.
Proof. induction t; cbn [height]; lia. Qed.

Lemma elem_of_node x l a b r : x ∈ elems (Node l a b r) <-> x ∈ elems l \/ x = a \/ x ∈ elems r.
Proof. cbn [elems]. set_solver. Qed.

Lemma reps_ext h h' p t : (forall b, b ∈ elems t -> h' !! b = h !! b) -> reps h p t -> reps h' p t.
Proof.
  revert p. induction t as [|l IHl a b r IHr]; intros p E; [done|]. cbn [reps]. intros (Ha & Hl & Hr).
  split_and!; [rewrite E; [done|]|apply IHl; [|done]|apply IHr; [|done]];
    try (intros x Hx; apply E); rewrite elem_of_node; auto.
Qed.

Lemma reps_alloc h p t x : reps h p t -> x ∈ elems t -> is_Some (h !! x).
Proof.
  revert p. induction t as [|l IHl a b r IHr]; intros p; [by rewrite elem_of_nil|]. cbn [reps].
  intros (Ha & Hl & Hr). rewrite elem_of_node. intros [Hx|[->|Hx]]; eauto.
Qed.

(** ** Slots *)

Definition slot_val tp s : option (option Z) :=
  match tp with Root => Some (t_root s) | Kid a i => kid i <$> t_nodes s !! a end.

Definition plug tp v s : Avltree :=
  match tp with
  | Root => mkAvltree (t_nodes s) v (t_walks s) (t_walkers s)
  | Kid a i => mkAvltree (alter (set_kid i v) a (t_nodes s)) (t_root s) (t_walks s) (t_walkers s)
  end.

(** The slot is not in one of the nodes of [X]. *)
Definition outside tp X : Prop := match tp with Root => True | Kid a _ => a ∉ X end.

Lemma kid_set_kid i v n : kid i (set_kid i v n) = v.
Proof. by destruct i. Qed.
Lemma set_kid_kid i n : set_kid i (kid i n) n = n.
Proof. by destruct i, n. Qed.
Lemma set_kid_twice i v w n : set_kid i v (set_kid i w n) = set_kid i v n.
Proof. by destruct i, n. Qed.

Lemma outside_incl tp X Y : outside tp Y -> (forall x, x ∈ X -> x ∈ Y) -> outside tp X.
Proof. destruct tp; [done|]. cbn. eauto. Qed.

Lemma plug_same tp v s : slot_val tp s = Some v -> plug tp v s = s.
Proof.
  destruct tp as [|a i], s as [h r ws m]; cbn; [by intros [= ->]|].
  destruct (h !! a) as [n|] eqn:E; [|done]. cbn. intros [= <-].
  f_equal. apply map_eq. intros b. destruct (decide (b = a)) as [->|Hne].
  - rewrite lookup_alter_eq, E. cbn. by rewrite set_kid_kid.
  - by rewrite lookup_alter_ne.
Qed.

Lemma plug_plug tp v w s : plug tp v (plug tp w s) = plug tp v s.
Proof.
  destruct tp as [|a i], s as [h r ws m]; cbn; [done|]. f_equal. apply map_eq. intros b.
  destruct (decide (b = a)) as [->|Hne].
  - rewrite !lookup_alter_eq. destruct (h !! a); cbn; [by rewrite set_kid_twice|done].
  - by rewrite !lookup_alter_ne.
Qed.

(** ** Effects *)

(** From [s] to [s'] the slot got the value [v], and of the nodes only those of [X] changed. *)
Record effect tp v X s s' : Prop := mkEffect {
  eff_nodes : forall b, b ∉ X -> t_nodes s' !! b = t_nodes (plug tp v s) !! b;
  eff_root : t_root s' = t_root (plug tp v s);
  eff_walks : t_walks s' = t_walks s;
  eff_walkers : t_walkers s' = t_walkers s;
  eff_dom : dom (t_nodes s') = dom (t_nodes s) }.

Lemma t_nodes_plug_ne tp v s b : outside tp [b] -> t_nodes (plug tp v s) !! b = t_nodes s !! b.
Proof. destruct tp; [done|]. cbn. intros H. apply lookup_alter_ne. set_solver. Qed.

Lemma plug_walks tp v s : t_walks (plug tp v s) = t_walks s /\ t_walkers (plug tp v s) = t_walkers s.
Proof. by destruct tp. Qed.

Lemma dom_plug tp v s : dom (t_nodes (plug tp v s)) = dom (t_nodes s).
Proof. destruct tp; [done|]. apply dom_alter_L. Qed.

Lemma effect_refl tp v X s : slot_val tp s = Some v -> effect tp v X s s.
Proof. intros E. constructor; rewrite ?(plug_same tp v s E); done. Qed.

Lemma effect_plug tp v X s : effect tp v X s (plug tp v s).
Proof. constructor; try apply plug_walks; [done..|apply dom_plug]. Qed.

(** [plug] sees of the nodes only the one the slot is in. *)
Lemma plug_cong tp v s s' b :
  (forall q i, tp = Kid q i -> t_nodes s' !! q = t_nodes s !! q) -> t_nodes s' !! b = t_nodes s !! b ->
  t_nodes (plug tp v s') !! b = t_nodes (plug tp v s) !! b.
Proof.
  destruct tp as [|q i]; cbn; [done|]. intros Hq Hb. destruct (decide (b = q)) as [->|Hne].
  - by rewrite !lookup_alter_eq, (Hq q i).
  - by rewrite !lookup_alter_ne.
Qed.

Lemma effect_trans tp v w X Y Z0 s1 s2 s3 :
  effect tp v X s1 s2 -> effect tp w Y s2 s3 ->
  (forall x, x ∈ X -> x ∈ Z0) -> (forall x, x ∈ Y -> x ∈ Z0) -> outside tp Z0 ->
  effect tp w Z0 s1 s3.
Proof.
  intros [N1 R1 W1 K1 D1] [N2 R2 W2 K2 D2] HX HY Ho. constructor; [|..|congruence|congruence|congruence].
  - intros b Hb. rewrite N2 by auto. rewrite <- (plug_plug tp w v s1).
    apply plug_cong; [intros q i ->|]; apply N1; auto.
  - rewrite R2. destruct tp; [done|]. exact R1.
Qed.

Lemma effect_incl tp v X Y s s' : effect tp v X s s' -> (forall x, x ∈ X -> x ∈ Y) -> effect tp v Y s s'.
Proof. intros [N R W K D] H. constructor; auto. Qed.

(** What happens in a child of a node is an effect on that node. *)
Lemma effect_kid tp w a i v X Y s s' :
  effect (Kid a i) v Y s s' -> slot_val tp s = Some w -> a ∈ X -> (forall x, x ∈ Y -> x ∈ X) ->
  effect tp w X s s'.
Proof.
  intros [N R W K D] Hw Ha HY. constructor; rewrite ?(plug_same tp w s Hw); try done.
  intros b Hb. rewrite N by auto. cbn. apply lookup_alter_ne. by intros ->.
Qed.

Lemma effect_val tp v X s s' :
  effect tp v X s s' -> outside tp X -> is_Some (slot_val tp s) -> slot_val tp s' = Some v.
Proof.
  intros [N R W K D] Ho. destruct tp as [|a i]; cbn in *; [by rewrite R|].
  rewrite (N a) by done. rewrite lookup_alter_eq. destruct (t_nodes s !! a) as [n|]; cbn.
  - by rewrite kid_set_kid.
  - by intros [? [=]].
Qed.

Lemma effect_lookup tp v X s s' b :
  effect tp v X s s' -> b ∉ X -> outside tp [b] -> t_nodes s' !! b = t_nodes s !! b.
Proof. intros [N _ _ _ _] Hb Ho. rewrite N by done. by apply t_nodes_plug_ne. Qed.

Lemma effect_reps tp v X s s' p t :
  effect tp v X s s' -> (forall x, x ∈ elems t -> x ∉ X) -> outside tp (elems t) ->
  reps (t_nodes s) p t -> reps (t_nodes s') p t.
Proof.
  intros He HX Ho. apply reps_ext. intros b Hb. apply (effect_lookup _ _ _ _ _ _ He); [auto|].
  eapply outside_incl; [done|]. intros x Hx. by apply list_elem_of_singleton in Hx as ->.
Qed.

(** A slot outside of the changed nodes whose node is not the owner of [tp] keeps its value. *)
Lemma effect_other tp v X s s' a :
  effect tp v X s s' -> a ∉ X -> outside tp [a] -> forall i, slot_val (Kid a i) s' = slot_val (Kid a i) s.
Proof. intros He Ha Ho i. cbn. by rewrite (effect_lookup _ _ _ _ _ _ He). Qed.

(** ** A tree in a slot *)

Record holds tp p (t : tree) s : Prop := mkHolds {
  hold_val : slot_val tp s = Some (ptr t);
  hold_reps : reps (t_nodes s) p t;
  hold_nodup : NoDup (elems t);
  hold_out : outside tp (elems t) }.

(** ** Running the functions *)

Definition tweak (a : Z) (f : Avl -> Avl) s : Avltree :=
  mkAvltree (alter f a (t_nodes s)) (t_root s) (t_walks s) (t_walkers s).

Lemma bind_Run {A B} (m : avm A) (k : A -> avm B) s a s' : m s = Run a s' -> (m ≫= k) s = k a s'.
Proof. unfold mbind, avm_bind. by intros ->. Qed.

Lemma node_Run a n s : t_nodes s !! a = Some n -> node a s = Run n s.
Proof. unfold node. by intros ->. Qed.

Lemma set_node_Run a f s : is_Some (t_nodes s !! a) -> set_node a f s = Run tt (tweak a f s).
Proof.
  intros [n E]. unfold set_node. rewrite E. f_equal. destruct s as [h r ws m]. unfold tweak. cbn in *.
  change (mkAvltree (<[a := f n]> h) r ws m = mkAvltree (alter f a h) r ws m). f_equal.
  apply map_eq. intros b. destruct (decide (b = a)) as [->|Hne].
  - by rewrite lookup_insert_eq, lookup_alter_eq, E.
  - by rewrite lookup_insert_ne, lookup_alter_ne.
Qed.

Lemma get_slot_Run tp v s : slot_val tp s = Some v -> get_slot tp s = Run v s.
Proof.
  destruct tp as [|a i]; cbn; [by intros [= <-]|]. destruct (t_nodes s !! a) as [n|] eqn:E; [|done].
  cbn. intros [= <-]. unfold mbind, avm_bind. by rewrite (node_Run a n s E).
Qed.

Lemma set_slot_Run tp v s : is_Some (slot_val tp s) -> set_slot tp v s = Run tt (plug tp v s).
Proof.
  destruct tp as [|a i]; cbn [slot_val]; [by destruct s|]. intros H. apply set_node_Run.
  destruct (t_nodes s !! a); [eauto|by destruct H as [? [=]]].
Qed.

Lemma deref_Run tp a s : slot_val tp s = Some (Some a) -> deref tp s = Run a s.
Proof. intros E. unfold deref. by erewrite bind_Run by by apply get_slot_Run. Qed.

Lemma lookup_tweak_eq a f s : t_nodes (tweak a f s) !! a = f <$> t_nodes s !! a.
Proof. apply lookup_alter_eq. Qed.
Lemma lookup_tweak_ne a f s b : a <> b -> t_nodes (tweak a f s) !! b = t_nodes s !! b.
Proof. apply lookup_alter_ne. Qed.
Lemma lookup_tweak_Some a f s b : is_Some (t_nodes (tweak a f s) !! b) <-> is_Some (t_nodes s !! b).
Proof. cbn. by rewrite <- !elem_of_dom, dom_alter_L. Qed.
Lemma lookup_plug_Some tp v s b : is_Some (t_nodes (plug tp v s) !! b) <-> is_Some (t_nodes s !! b).
Proof. by rewrite <- !elem_of_dom, dom_plug. Qed.
Lemma slot_tweak tp a f s : outside tp [a] -> slot_val tp (tweak a f s) = slot_val tp s.
Proof. destruct tp as [|q i]; cbn; [done|]. intros H. rewrite lookup_alter_ne by set_solver. done. Qed.

(** A change of a node is an effect. *)
Lemma effect_tweak tp v X s a f : slot_val tp s = Some v -> a ∈ X -> effect tp v X s (tweak a f s).
Proof.
  intros E Ha. constructor; rewrite ?(plug_same tp v s E); try done.
  - intros b Hb. apply lookup_tweak_ne. by intros ->.
  - apply dom_alter_L.
Qed.

(** The state after [set_parent]. *)
Definition adopt (t : tree) p s : Avltree :=
  match ptr t with Some a => tweak a (fun n => n <| a_p := p |>) s | None => s end.

Lemma set_parent_Run t p q s : reps (t_nodes s) q t -> set_parent (ptr t) p s = Run tt (adopt t p s).
Proof.
  unfold adopt. destruct t as [|l a b r]; cbn [ptr set_parent reps]; [done|]. intros (E & _).
  apply set_node_Run. by rewrite E.
Qed.

Lemma lookup_adopt t p s b : b ∉ elems t -> t_nodes (adopt t p s) !! b = t_nodes s !! b.
Proof. destruct t as [|l a c r]; [done|]. intros H. apply lookup_tweak_ne. cbn in H. set_solver. Qed.

Lemma adopt_reps t p q s : NoDup (elems t) -> reps (t_nodes s) q t -> reps (t_nodes (adopt t p s)) p t.
Proof.
  destruct t as [|l a b r]; [done|]. cbn [elems]. intros Hnd (E & Hl & Hr).
  apply NoDup_app in Hnd as (_ & Hd & [Ha _]%NoDup_cons). split_and!.
  - change (t_nodes (tweak a (fun n => n <| a_p := p |>) s) !! a = Some (mkAvl p (ptr l) (ptr r) b)).
    by rewrite lookup_tweak_eq, E.
  - eapply reps_ext; [|exact Hl]. intros x Hx. apply lookup_tweak_ne. set_solver.
  - eapply reps_ext; [|exact Hr]. intros x Hx. apply lookup_tweak_ne. set_solver.
Qed.

Lemma effect_adopt tp v X s t p :
  slot_val tp s = Some v -> (forall x, x ∈ elems t -> x ∈ X) -> effect tp v X s (adopt t p s).
Proof.
  intros E H. destruct t as [|l a b r]; [by apply effect_refl|]. apply effect_tweak; [done|].
  apply H. cbn [elems]. set_solver.
Qed.

(** ** Rotations *)

(** Lookups in a changed memory. *)
Ltac solve_ne := first [assumption | apply not_eq_sym; assumption].
Ltac peek :=
  repeat first
    [ rewrite lookup_tweak_eq | rewrite lookup_tweak_ne by solve_ne
    | rewrite t_nodes_plug_ne by solve_ne | rewrite lookup_adopt by solve_ne ].
Lemma adopt_slot tp t p s : outside tp (elems t) -> slot_val tp (adopt t p s) = slot_val tp s.
Proof.
  intros H. destruct t as [|l a b r]; [done|]. apply slot_tweak. eapply outside_incl; [done|].
  intros y Hy. apply list_elem_of_singleton in Hy as ->. cbn. set_solver.
Qed.

Lemma adopt_Some t p s b : is_Some (t_nodes (adopt t p s) !! b) <-> is_Some (t_nodes s !! b).
Proof. destruct t as [|l a c r]; [done|]. apply lookup_tweak_Some. Qed.

Ltac alloc :=
  repeat first [rewrite lookup_tweak_Some | rewrite lookup_plug_Some | rewrite adopt_Some];
  eauto using mk_is_Some.

Lemma nodup_node l a b r :
  NoDup (elems (Node l a b r)) -> NoDup (elems l) /\ NoDup (elems r) /\ a ∉ elems l /\ a ∉ elems r /\
  (forall x, x ∈ elems l -> x ∉ elems r).
Proof.
  cbn [elems]. intros (Hl & Hd & [Ha Hr]%NoDup_cons)%NoDup_app. split_and!; try done.
  - intros Hx. apply (Hd a Hx). set_solver.
  - intros x Hx Hx'. apply (Hd x Hx). set_solver.
Qed.

(** Effects in sequence. *)
Lemma effect_then_tweak tp v X s s' a f :
  outside tp X -> is_Some (slot_val tp s) -> a ∈ X -> effect tp v X s s' -> effect tp v X s (tweak a f s').
Proof.
  intros Ho Hs Ha He. eapply effect_trans; [exact He|apply effect_tweak; [|exact Ha]|done..].
  by apply (effect_val _ _ _ _ _ He).
Qed.

Lemma effect_then_adopt tp v X s s' t p :
  outside tp X -> is_Some (slot_val tp s) -> (forall x, x ∈ elems t -> x ∈ X) ->
  effect tp v X s s' -> effect tp v X s (adopt t p s').
Proof.
  intros Ho Hs Ht He. eapply effect_trans; [exact He|apply effect_adopt; [|exact Ht]|done..].
  by apply (effect_val _ _ _ _ _ He).
Qed.

Lemma effect_then_plug tp v w X s s' : outside tp X -> effect tp v X s s' -> effect tp w X s (plug tp w s').
Proof. intros Ho He. eapply effect_trans; [exact He|apply (effect_plug _ _ X)|done..]. Qed.

(** A node with the tree [k] on the side [i] and [o] on the other. *)
Definition fork (i : bool) (o : tree) (a b : Z) (k : tree) : tree :=
  if i then Node o a b k else Node k a b o.
Definition fork_node (i : bool) p (o : tree) (b : Z) (k : tree) : Avl :=
  if i then mkAvl p (ptr o) (ptr k) b else mkAvl p (ptr k) (ptr o) b.

Lemma reps_fork h p i o a b k :
  reps h p (fork i o a b k) <-> h !! a = Some (fork_node i p o b k) /\ reps h (Some a) o /\ reps h (Some a) k.
Proof. destruct i; cbn [fork reps fork_node]; naive_solver. Qed.

Lemma elem_of_fork x i o a b k : x ∈ elems (fork i o a b k) <-> x ∈ elems o \/ x = a \/ x ∈ elems k.
Proof. destruct i; cbn [fork]; rewrite elem_of_node; naive_solver. Qed.

Lemma nodup_fork i o a b k :
  NoDup (elems (fork i o a b k)) -> NoDup (elems o) /\ NoDup (elems k) /\ a ∉ elems o /\ a ∉ elems k /\
  (forall x, x ∈ elems o -> x ∉ elems k).
Proof. destruct i; cbn [fork]; intros H%nodup_node; naive_solver. Qed.

(** The state after a rotation that lifts the child [c] of [a] on the side [i]: [y], which lay
    between them, changes its parent, and the balance bits become [ba'] and [bc']. *)
Definition relinked (i : bool) (a c : Z) (y : tree) s : Avltree :=
  tweak a (fun n => n <| a_p := Some c |>)
    (tweak c (set_kid (negb i) (Some a)) (adopt y (Some a) (tweak a (set_kid i (ptr y)) s))).
Definition rotated tp p (i : bool) (a c : Z) (y : tree) (ba' bc' : Z) s : Avltree :=
  tweak c (fun n => n <| a_bal := bc' |>) (tweak a (fun n => n <| a_bal := ba' |>)
    (tweak c (fun n => n <| a_p := p |>) (plug tp (Some c) (relinked i a c y s)))).

Section rotation.
Context tp p i x a ba y c bc z s (H : holds tp p (fork i x a ba (fork i y c bc z)) s).
Let X := elems (fork i x a ba (fork i y c bc z)).

Lemma rotation_apart :
  a <> c /\ (outside tp [a] /\ outside tp [c] /\ outside tp (elems y)) /\
  (a ∉ elems y /\ c ∉ elems y) /\ (a ∈ X /\ c ∈ X /\ forall b, b ∈ elems y -> b ∈ X) /\ NoDup (elems y) /\
  (forall b, b ∈ elems x \/ b ∈ elems z -> b <> a /\ b <> c /\ b ∉ elems y /\ outside tp [b]).
Proof.
  destruct H as [_ _ Hnd Ho]. apply nodup_fork in Hnd as (_ & Hndc & Hax & Hac & Hxc).
  apply nodup_fork in Hndc as (Hny & _ & Hcy & Hcz & Hyz). rewrite elem_of_fork in Hac.
  setoid_rewrite elem_of_fork in Hxc. subst X.
  assert (forall Y, (forall b, b ∈ Y -> b ∈ elems x \/ b = a \/ b ∈ elems y \/ b = c \/ b ∈ elems z) -> outside tp Y) as O.
  { intros Y HY. eapply outside_incl; [exact Ho|]. intros b Hb. rewrite !elem_of_fork. naive_solver. }
  assert (forall b, b ∈ elems (fork i x a ba (fork i y c bc z)) <->
    b ∈ elems x \/ b = a \/ b ∈ elems y \/ b = c \/ b ∈ elems z) as E by (intros b; rewrite !elem_of_fork; tauto).
  split_and!; try (intros *; rewrite E; tauto); try done.
  - intros ->. tauto.
  - apply O. intros b Hb. apply list_elem_of_singleton in Hb as ->. tauto.
  - apply O. intros b Hb. apply list_elem_of_singleton in Hb as ->. tauto.
  - apply O. tauto.
  - tauto.
  - intros b Hb. split_and!; [intros ->; tauto|intros ->..|intros Hy|].
    + specialize (Hxc c). tauto.
    + specialize (Hxc b). specialize (Hyz b). tauto.
    + apply O. intros b' Hb'. apply list_elem_of_singleton in Hb' as ->. tauto.
Qed.

Lemma relinked_run {A} (k : unit -> avm A) :
  (set_node a (set_kid i (ptr y));;
   set_parent (ptr y) (Some a);;
   set_node c (set_kid (negb i) (Some a));;
   set_parent (Some a) (Some c) ≫= k) s = k tt (relinked i a c y s).
Proof.
  destruct rotation_apart as (Hac & _ & (Hay & Hcy) & _). destruct H as [_ R _ _].
  rewrite !reps_fork in R. destruct R as (Ea & _ & Ec & Ry & _).
  assert (is_Some (t_nodes s !! a) /\ is_Some (t_nodes s !! c)) as [Aa Ac] by eauto.
  erewrite bind_Run by by apply set_node_Run.
  erewrite bind_Run.
  2:{ eapply set_parent_Run, reps_ext; [|exact Ry]. intros b Hb. apply lookup_tweak_ne. by intros ->. }
  erewrite bind_Run by (apply set_node_Run; alloc).
  erewrite bind_Run by (apply set_node_Run; alloc). done.
Qed.

Lemma relinked_slot : slot_val tp (relinked i a c y s) = Some (Some a).
Proof.
  destruct rotation_apart as (Hac & (Oa & Oc & Oy) & _). destruct H as [Hv _ _ _]. unfold relinked.
  rewrite !slot_tweak, adopt_slot, slot_tweak, Hv by done. by destruct i.
Qed.

Lemma rotated_run ba' bc' :
  (set_node a (set_kid i (ptr y));;
   set_parent (ptr y) (Some a);;
   set_node c (set_kid (negb i) (Some a));;
   set_parent (Some a) (Some c);;
   set_slot tp (Some c);;
   set_parent (Some c) p;;
   set_node a (fun n => n <| a_bal := ba' |>);;
   set_node c (fun n => n <| a_bal := bc' |>)) s = Run tt (rotated tp p i a c y ba' bc' s).
Proof.
  rewrite relinked_run.
  destruct H as [_ R _ _]. rewrite !reps_fork in R. destruct R as (Ea & _ & Ec & _).
  assert (is_Some (t_nodes s !! a) /\ is_Some (t_nodes s !! c)) as [Aa Ac] by eauto.
  assert (is_Some (t_nodes (relinked i a c y s) !! a) /\ is_Some (t_nodes (relinked i a c y s) !! c)) as [Ba Bc]
    by (unfold relinked; split; alloc).
  erewrite bind_Run by (apply set_slot_Run; rewrite relinked_slot; eauto).
  erewrite bind_Run by (apply set_node_Run; alloc).
  erewrite bind_Run by (apply set_node_Run; alloc).
  apply set_node_Run; alloc.
Qed.

Lemma rotated_effect ba' bc' : effect tp (Some c) X s (rotated tp p i a c y ba' bc' s).
Proof.
  destruct rotation_apart as (_ & _ & _ & (Xa & Xc & Xy) & _). destruct H as [Hv _ _ Ho].
  unfold rotated, relinked.
  repeat first [apply effect_then_tweak | eapply effect_then_plug | apply effect_then_adopt]; try done;
    try (eexists; exact Hv). by apply effect_refl.
Qed.

Lemma rotated_holds ba' bc' :
  holds tp p (fork i (fork i x a ba' y) c bc' z) (rotated tp p i a c y ba' bc' s).
Proof.
  destruct rotation_apart as (Hac & (Oa & Oc & Oy) & (Hay & Hcy) & _ & Hny & Hxz).
  pose proof H as [Hv R Hnd Ho]. rewrite !reps_fork in R. destruct R as (Ea & Rx & Ec & Ry & Rz).
  constructor.
  - rewrite (effect_val _ _ _ _ _ (rotated_effect ba' bc')); [by destruct i|done|by rewrite Hv].
  - rewrite !reps_fork. unfold rotated, relinked. split_and!.
    + peek. rewrite Ec. by destruct i.
    + peek. rewrite Ea. by destruct i.
    + eapply reps_ext; [|exact Rx]. intros b Hb. destruct (Hxz b (or_introl Hb)) as (? & ? & ? & ?). by peek.
    + eapply reps_ext; [|apply (adopt_reps y (Some a) (Some c) (tweak a (set_kid i (ptr y)) s) Hny)].
      * intros b Hb. assert (outside tp [b] /\ b <> a /\ b <> c) as (? & ? & ?).
        { split_and!; [eapply outside_incl; [exact Oy|]; intros ? ->%list_elem_of_singleton; done|congruence..]. }
        by peek.
      * eapply reps_ext; [|exact Ry]. intros b Hb. apply lookup_tweak_ne. congruence.
    + eapply reps_ext; [|exact Rz]. intros b Hb. destruct (Hxz b (or_intror Hb)) as (? & ? & ? & ?). by peek.
  - revert Hnd. destruct i; cbn [fork elems]; by rewrite <- ?app_assoc.
  - eapply outside_incl; [exact Ho|]. intros b. rewrite !elem_of_fork. tauto.
Qed.
End rotation.

Lemma singleleft_ok tp p x a ba y c bc z s :
  holds tp p (Node x a ba (Node y c bc z)) s ->
  let l := Z.max bc 0 + 1 - ba in
  exists s', singleleft tp p s = Run tt s' /\
    holds tp p (Node (Node x a (- l) y) c (bc - (Z.max l 0 + 1)) z) s' /\
    effect tp (Some c) (elems (Node x a ba (Node y c bc z))) s s'.
Proof.
  intros H l. exists (rotated tp p true a c y (- l) (bc - (Z.max l 0 + 1)) s).
  split; [|split; [apply (rotated_holds tp p true x a ba y c bc z s H)|by apply (rotated_effect tp p true x a ba)]].
  pose proof H as [Hv (Ea & _ & Ec & _) _ _]. unfold singleleft.
  erewrite bind_Run by by apply deref_Run. erewrite bind_Run by by apply node_Run.
  erewrite bind_Run by done. erewrite bind_Run by by apply node_Run. cbn [a_bal a_n0].
  replace ((if 0 <? bc then bc else 0) + 1 - ba) with l by (unfold l; bcase; lia).
  replace (if 0 <? l then l else 0) with (Z.max l 0) by (bcase; lia).
  exact (rotated_run tp p true x a ba y c bc z s H _ _).
Qed.

Lemma singleright_ok tp p x a ba y c bc z s :
  holds tp p (Node (Node z c bc y) a ba x) s ->
  let r := ba + (Z.max (- bc) 0 + 1) in
  exists s', singleright tp p s = Run tt s' /\
    holds tp p (Node z c ((Z.max r 0 + 1) + bc) (Node y a r x)) s' /\
    effect tp (Some c) (elems (Node (Node z c bc y) a ba x)) s s'.
Proof.
  intros H r. exists (rotated tp p false a c y r ((Z.max r 0 + 1) + bc) s).
  split; [|split; [apply (rotated_holds tp p false x a ba y c bc z s H)|by apply (rotated_effect tp p false x a ba)]].
  pose proof H as [Hv (Ea & (Ec & _) & _) _ _]. unfold singleright.
  erewrite bind_Run by by apply deref_Run. erewrite bind_Run by by apply node_Run.
  erewrite bind_Run by done. erewrite bind_Run by by apply node_Run. cbn [a_bal a_n1].
  replace (ba + ((if 0 <? - bc then - bc else 0) + 1)) with r by (unfold r; bcase; lia).
  replace ((if 0 <? r then r else 0) + 1 - - bc) with (Z.max r 0 + 1 + bc) by (bcase; lia).
  exact (rotated_run tp p false x a ba y c bc z s H _ _).
Qed.

(** ** Subtrees *)

Lemma holds_kid tp p i o a b k s : holds tp p (fork i o a b k) s -> holds (Kid a i) (Some a) k s.
Proof.
  intros [Hv R Hnd Ho]. rewrite reps_fork in R. destruct R as (Ea & Ro & Rk).
  apply nodup_fork in Hnd as (_ & Hk & _ & Ha & _). constructor; try done.
  cbn. rewrite Ea. by destruct i.
Qed.

(** After a change of the child on the side [i]. *)
Lemma holds_child tp p i o a b k k' Y s s' :
  holds tp p (fork i o a b k) s -> effect (Kid a i) (ptr k') Y s s' -> holds (Kid a i) (Some a) k' s' ->
  a ∉ Y -> outside tp Y -> (forall x, x ∈ Y -> x ∉ elems o) ->
  NoDup (elems (fork i o a b k')) -> outside tp (elems (fork i o a b k')) ->
  holds tp p (fork i o a b k') s'.
Proof.
  intros [Hv R Hnd Ho] He [_ Rk _ _] HaY Htp HoY Hnd' Ho'.
  rewrite reps_fork in R. destruct R as (Ea & Ro & _).
  apply nodup_fork in Hnd as (_ & _ & Hao & _ & _).
  assert (outside tp [a]) as Oa.
  { eapply outside_incl; [exact Ho|]. intros ? ->%list_elem_of_singleton. rewrite elem_of_fork. auto. }
  constructor; [|rewrite reps_fork; split_and!|done..].
  - assert (ptr (fork i o a b k') = ptr (fork i o a b k)) as -> by by destruct i. rewrite <- Hv.
    destruct tp as [|q j]; cbn; [by rewrite (eff_root _ _ _ _ _ He)|].
    rewrite (effect_lookup _ _ _ _ _ q He); [done|done|]. cbn in *. set_solver.
  - rewrite (eff_nodes _ _ _ _ _ He a HaY). cbn. rewrite lookup_alter_eq, Ea. by destruct i.
  - eapply effect_reps; [exact He| |exact Hao|exact Ro]. intros x Hx Hx'. by apply (HoY x).
  - done.
Qed.

(** The same when only nodes of the child change. *)
Lemma holds_inside tp p i o a b k k' s s' :
  holds tp p (fork i o a b k) s -> effect (Kid a i) (ptr k') (elems k) s s' ->
  holds (Kid a i) (Some a) k' s' -> elems k' = elems k ->
  holds tp p (fork i o a b k') s' /\ effect tp (Some a) (elems (fork i o a b k)) s s'.
Proof.
  intros H He Hk E. pose proof H as [Hv _ Hnd Ho].
  assert (elems (fork i o a b k') = elems (fork i o a b k)) as E' by (destruct i; cbn; by rewrite E).
  pose proof Hnd as (_ & _ & _ & Ha & Hd)%nodup_fork. split.
  - eapply holds_child; [exact H|exact He|exact Hk|done|..]; rewrite ?E'; try done.
    + eapply outside_incl; [exact Ho|]. intros x. rewrite elem_of_fork. auto.
    + intros x Hx Hx'. by apply (Hd x).
  - eapply effect_kid; [exact He|by destruct i|..]; intros *; rewrite elem_of_fork; auto.
Qed.

(** ** [balance] *)

Lemma doublerightleft_ok tp p x a ba y c bc (u : tree) d bd z s :
  holds tp p (Node x a ba (Node (Node y d bd u) c bc z)) s ->
  exists s' ba' bc' bd', doublerightleft tp p s = Run tt s' /\
    holds tp p (Node (Node x a ba' y) d bd' (Node u c bc' z)) s' /\
    effect tp (Some d) (elems (Node x a ba (Node (Node y d bd u) c bc z))) s s' /\
    (ba = 2 -> bc = -1 -> -1 <= bd <= 1 -> ba' = Z.min (- bd) 0 /\ bc' = Z.max (- bd) 0 /\ bd' = 0).
Proof.
  intros H. pose proof H as [Hv (Ea & _) Hnd Ho].
  destruct (singleright_ok (Kid a true) (Some a) z c bc u d bd y s) as (s1 & E1 & H1 & F1).
  { by eapply (holds_kid tp p true). }
  edestruct (holds_inside tp p true x a ba) as [H1' F1']; [exact H| |exact H1|cbn; by rewrite <- app_assoc|]; [exact F1|].
  edestruct (singleleft_ok tp p x a ba) as (s2 & E2 & H2 & F2); [exact H1'|].
  exists s2. do 3 eexists. split_and!; [|exact H2| |].
  - unfold doublerightleft. erewrite bind_Run by by apply deref_Run.
    by erewrite bind_Run by exact E1.
  - eapply effect_trans; [exact F1'|exact F2|done| |done]. intros b. cbn. set_solver.
  - lia.
Qed.

Lemma doubleleftright_ok tp p x a ba y c bc (u : tree) d bd z s :
  holds tp p (Node (Node z c bc (Node u d bd y)) a ba x) s ->
  exists s' ba' bc' bd', doubleleftright tp p s = Run tt s' /\
    holds tp p (Node (Node z c bc' u) d bd' (Node y a ba' x)) s' /\
    effect tp (Some d) (elems (Node (Node z c bc (Node u d bd y)) a ba x)) s s' /\
    (ba = -2 -> bc = 1 -> -1 <= bd <= 1 -> ba' = Z.max (- bd) 0 /\ bc' = Z.min (- bd) 0 /\ bd' = 0).
Proof.
  intros H. pose proof H as [Hv (Ea & _) Hnd Ho].
  destruct (singleleft_ok (Kid a false) (Some a) z c bc u d bd y s) as (s1 & E1 & H1 & F1).
  { by eapply (holds_kid tp p false). }
  edestruct (holds_inside tp p false x a ba) as [H1' F1']; [exact H| |exact H1|cbn; by rewrite <- app_assoc|]; [exact F1|].
  edestruct (singleright_ok tp p x a ba) as (s2 & E2 & H2 & F2); [exact H1'|].
  exists s2. do 3 eexists. split_and!; [|exact H2| |].
  - unfold doubleleftright. erewrite bind_Run by by apply deref_Run.
    by erewrite bind_Run by exact E1.
  - eapply effect_trans; [exact F1'|exact F2|done| |done]. intros b. cbn. set_solver.
  - lia.
Qed.

(** Out of balance, and the higher child leans to one side. *)
Definition steep (t : tree) : Prop :=
  match t with
  | Leaf => False
  | Node l _ b r => b = 2 /\ root_bal r <> 0 \/ b = -2 /\ root_bal l <> 0
  end.

(** What [balance] makes of the tree [t] in a slot whose children are balanced. *)
Definition rebalanced (t t' : tree) : Prop :=
  balanced t' /\ elems t' = elems t /\ (-1 <= root_bal t <= 1 -> t' = t) /\ t' <> Leaf /\
  (steep t -> root_bal t' = 0) /\
  height t' = height t - (if (root_bal t' =? 0) && (1 <? Z.abs (root_bal t)) then 1 else 0).

Ltac rebalance :=
  unfold rebalanced; cbn [balanced height root_bal elems steep] in *; split_and!;
  first [done | lia | by simplify_list_eq | intros; exfalso; lia
    | change (1 <? Z.abs (-2)) with true; change (1 <? Z.abs 2) with true; bcase; cbn; lia].

Lemma balance_ok tp p l a b r s :
  holds tp p (Node l a b r) s -> b = height r - height l -> -2 <= b <= 2 -> balanced l -> balanced r ->
  exists t' s', balance tp p s = Run tt s' /\ holds tp p t' s' /\
    effect tp (ptr t') (elems (Node l a b r)) s s' /\ rebalanced (Node l a b r) t'.
Proof.
  intros H Eb Hb Bl Br. pose proof H as [Hv (Ea & Rl & Rr) _ _].
  pose proof (height_nonneg l). pose proof (height_nonneg r).
  unfold balance. erewrite bind_Run by by apply deref_Run. erewrite bind_Run by by apply node_Run.
  cbn [a_bal a_n0 a_n1].
  destruct (Z.eqb_spec b (-2)) as [->|]; [|destruct (Z.eqb_spec b 2) as [->|]].
  - destruct l as [|z c bc y]; cbn [height] in Eb; [lia|]. destruct Rl as (Ec & Rz & Ry).
    destruct Bl as (Ebc & Hbc & Bz & By). cbn [ptr].
    erewrite bind_Run by done. erewrite bind_Run by by apply node_Run. cbn [a_bal].
    destruct (Z.leb_spec bc 0).
    + destruct (singleright_ok tp p r a (-2) y c bc z s H) as (s' & E & H' & F).
      do 2 eexists. split_and!; [exact E|exact H'|exact F|]. rebalance.
    + assert (bc = 1) as -> by lia. cbn [Z.eqb Pos.eqb].
      destruct y as [|w d bd y]; [cbn [height] in Ebc; pose proof (height_nonneg z); lia|]. destruct By as (Ebd & Hbd & Bw & By).
      destruct (doubleleftright_ok tp p r a (-2) y c 1 w d bd z s H) as (s' & ba' & bc' & bd' & E & H' & F & Q).
      destruct Q as (-> & -> & ->); [done..|]. cbn [height] in *.
      do 2 eexists. split_and!; [exact E|exact H'|exact F|]. rebalance.
  - destruct r as [|y c bc z]; cbn [height] in Eb; [lia|]. destruct Rr as (Ec & Ry & Rz).
    destruct Br as (Ebc & Hbc & By & Bz). cbn [ptr].
    erewrite bind_Run by done. erewrite bind_Run by by apply node_Run. cbn [a_bal].
    destruct (Z.leb_spec 0 bc).
    + destruct (singleleft_ok tp p l a 2 y c bc z s H) as (s' & E & H' & F).
      do 2 eexists. split_and!; [exact E|exact H'|exact F|]. rebalance.
    + assert (bc = -1) as -> by lia. cbn [Z.eqb Pos.eqb].
      destruct y as [|y d bd w]; [cbn [height] in Ebc; pose proof (height_nonneg z); lia|]. destruct By as (Ebd & Hbd & By & Bw).
      destruct (doublerightleft_ok tp p l a 2 y c (-1) w d bd z s H) as (s' & ba' & bc' & bd' & E & H' & F & Q).
      destruct Q as (-> & -> & ->); [done..|]. cbn [height] in *.
      do 2 eexists. split_and!; [exact E|exact H'|exact F|]. rebalance.
  - exists (Node l a b r), s. split_and!; [done|done|by apply effect_refl|].
    unfold rebalanced. cbn [balanced height root_bal steep]. split_and!; try done; try lia. bcase; cbn; lia.
Qed.
