(* ===== verification/AvlOrder.v ===== *)
(** * The order of a tree

    What the client promises of his comparison, sorted lists of nodes as the specification of
    a tree, and how the operations on lists go along with the structure of a tree. *)

From stdpp Require Import sorting.
From S2P Require Import Prelude Avl AvlRep.

(** ** Comparison *)

(** [cmp] orders the nodes, some of which may be equal to each other. *)
Class Ordering (cmp : Z -> Z -> Z) : Prop := {
  cmp_sgn a b : Z.sgn (cmp b a) = - Z.sgn (cmp a b);
  cmp_trans a b c : cmp a b <= 0 -> cmp b c <= 0 -> cmp a c <= 0 }.

(** ** Sorted lists *)

(** An element without duplicates has one place. *)
Lemma place_unique (a : Z) l1 l2 l1' l2' :
  NoDup (l1 ++ a :: l2) -> l1 ++ a :: l2 = l1' ++ a :: l2' -> l1 = l1' /\ l2 = l2'.
Proof.
  revert l1'. induction l1 as [|x l1 IH]; intros l1' Hnd E; cbn in *; apply NoDup_cons in Hnd as [Hx Hnd].
  - destruct l1' as [|y l1']; [by injection E|]. injection E as -> ->. set_solver.
  - destruct l1' as [|y l1']; cbn in E; [injection E as -> <-; set_solver|]. injection E as -> E.
    by destruct (IH l1' Hnd E) as [-> ->].
Qed.

Section lists.
Context (cmp : Z -> Z -> Z).

Abbreviation sorted := (StronglySorted (fun a b => cmp a b < 0)).

(** [r] takes the place of an equal element. *)
Fixpoint linsert (r : Z) (l : list Z) : list Z :=
  match l with
  | [] => [r]
  | x :: l =>
      if cmp r x <? 0 then r :: x :: l else if 0 <? cmp r x then x :: linsert r l else r :: l
  end.

Definition ldelete (r : Z) (l : list Z) : list Z := filter (fun x => cmp r x <> 0) l.

Definition lfind (r : Z) (l : list Z) : option Z := snd <$> list_find (fun x => cmp r x = 0) l.

Context `{Ordering cmp}.

Lemma cmp_self a : cmp a a = 0.
Proof. pose proof (cmp_sgn a a). lia. Qed.

Lemma cmp_swap a b : (cmp a b < 0 <-> 0 < cmp b a) /\ (cmp a b = 0 <-> cmp b a = 0).
Proof. pose proof (cmp_sgn a b). lia. Qed.

Lemma cmp_lt_le a b c : cmp a b < 0 -> cmp b c <= 0 -> cmp a c < 0.
Proof.
  intros H1 H2. pose proof (cmp_trans a b c). pose proof (cmp_trans b c a).
  pose proof (cmp_swap a c). pose proof (cmp_swap c a). pose proof (cmp_swap a b). lia.
Qed.

Lemma cmp_le_lt a b c : cmp a b <= 0 -> cmp b c < 0 -> cmp a c < 0.
Proof.
  intros H1 H2. pose proof (cmp_trans a b c). pose proof (cmp_trans c a b).
  pose proof (cmp_swap a c). pose proof (cmp_swap c b). pose proof (cmp_swap b c). pose proof (cmp_swap c a). lia.
Qed.

Lemma sorted_nodup l : sorted l -> NoDup l.
Proof.
  induction 1 as [|a l Hl IH Ha]; constructor; [|done]. intros Hin.
  rewrite Forall_forall in Ha. specialize (Ha a Hin). rewrite cmp_self in Ha. lia.
Qed.

Lemma sorted_node l a b r :
  sorted (elems (Node l a b r)) <-> sorted (elems l) /\ sorted (elems r) /\
    (forall x, x ∈ elems l -> cmp x a < 0) /\ (forall x, x ∈ elems r -> cmp a x < 0).
Proof.
  cbn [elems]. rewrite StronglySorted_app. split.
  - intros (Hd & Hl & Hr). inversion Hr as [|? ? Hr' Ha]; subst. rewrite Forall_forall in Ha.
    split_and!; try done. intros x Hx. apply Hd; set_solver.
  - intros (Hl & Hr & Hla & Har). split_and!; [|done|].
    + intros x y Hx [->|Hy]%elem_of_cons; [auto|]. apply (cmp_lt_le x a y); [auto|]. specialize (Har y Hy). lia.
    + constructor; [done|]. by apply Forall_forall.
Qed.

Lemma sorted_fork i o a b k : sorted (elems (fork i o a b k)) -> sorted (elems o) /\ sorted (elems k).
Proof. destruct i; cbn [fork]; rewrite sorted_node; tauto. Qed.

(** *** Insertion *)

Lemma linsert_app_gt r l1 l2 : (forall x, x ∈ l1 -> 0 < cmp r x) -> linsert r (l1 ++ l2) = l1 ++ linsert r l2.
Proof.
  induction l1 as [|x l1 IH]; intros H1; [done|]. cbn. pose proof (H1 x ltac:(set_solver)).
  bcase; try lia. rewrite IH; [done|]. intros y Hy. apply H1. set_solver.
Qed.

Lemma linsert_app_lt r l1 a l2 : cmp r a < 0 -> linsert r (l1 ++ a :: l2) = linsert r l1 ++ a :: l2.
Proof.
  intros Ha. induction l1 as [|x l1 IH]; cbn.
  - by bcase; [|lia..].
  - by bcase; rewrite ?IH.
Qed.

Lemma elem_of_linsert r l x : x ∈ linsert r l -> x = r \/ x ∈ l.
Proof.
  induction l as [|y l IH]; cbn; [set_solver|]. bcase; rewrite ?elem_of_cons; naive_solver.
Qed.

Lemma linsert_sorted r l : sorted l -> sorted (linsert r l).
Proof.
  induction 1 as [|a l Hl IH Ha]; cbn; [repeat constructor|]. rewrite Forall_forall in Ha. bcase.
  - constructor; [constructor; [done|by apply Forall_forall]|]. apply Forall_forall.
    intros x [->|Hx]%elem_of_cons; [done|]. apply (cmp_lt_le r a x); [done|]. specialize (Ha x Hx). lia.
  - constructor; [done|]. apply Forall_forall. intros x [->|Hx]%elem_of_linsert; [|auto].
    apply cmp_swap. lia.
  - constructor; [done|]. apply Forall_forall. intros x Hx. apply (cmp_le_lt r a x); [lia|auto].
Qed.

(** *** Along a tree *)

(** The side of [a] on which [r] belongs. *)
Definition goes (r a : Z) (i : bool) : Prop := if i then 0 < cmp r a else cmp r a < 0.

Lemma goes_fork r i o a b k :
  sorted (elems (fork i o a b k)) -> goes r a i -> forall x, x ∈ elems o -> cmp r x <> 0 /\ goes r x i.
Proof.
  destruct i; cbn [fork goes]; rewrite sorted_node; intros (_ & _ & Hl & Hr) Hi x Hx.
  - specialize (Hl x Hx). pose proof (cmp_lt_le x a r). pose proof (cmp_swap x r). pose proof (cmp_swap a r). lia.
  - specialize (Hr x Hx). pose proof (cmp_lt_le r a x). lia.
Qed.

Lemma linsert_fork r i o a b b' k k' :
  sorted (elems (fork i o a b k)) -> goes r a i -> elems k' = linsert r (elems k) ->
  elems (fork i o a b' k') = linsert r (elems (fork i o a b k)).
Proof.
  intros Hs Hi E. pose proof (goes_fork r i o a b k Hs Hi) as Hgo. destruct i; cbn [fork elems goes] in *.
  - rewrite linsert_app_gt by (intros; by apply Hgo). cbn. by bcase; try lia; rewrite E.
  - by rewrite linsert_app_lt, E.
Qed.

Lemma ldelete_sorted r l : sorted l -> sorted (ldelete r l).
Proof.
  unfold ldelete. induction 1 as [|a l Hl IH Ha]; [constructor|]. rewrite filter_cons. case_decide; [|done].
  constructor; [done|]. apply Forall_forall. intros x [_ Hx]%list_elem_of_filter. rewrite Forall_forall in Ha. auto.
Qed.

(** Only one element of a sorted list is equal to a key. *)
Lemma equal_unique l key a b : sorted l -> a ∈ l -> b ∈ l -> cmp key a = 0 -> cmp key b = 0 -> a = b.
Proof.
  intros Hs Ha Hb Ea Eb. pose proof (cmp_swap key a). pose proof (cmp_swap key b).
  assert (~ cmp a b < 0 /\ ~ cmp b a < 0) as [Hab Hba].
  { pose proof (cmp_lt_le a b key). pose proof (cmp_lt_le b a key). lia. }
  induction Hs as [|x l Hl IH Hx]; [set_solver|]. rewrite Forall_forall in Hx.
  apply elem_of_cons in Ha as [->|Ha], Hb as [->|Hb]; auto; exfalso; eauto.
Qed.

Lemma ldelete_others l1 a l2 key :
  sorted (l1 ++ a :: l2) -> cmp key a = 0 -> forall y, y ∈ l1 \/ y ∈ l2 -> cmp key y <> 0.
Proof.
  intros Hs Ea y Hy Ey. pose proof (sorted_nodup _ Hs) as (_ & Hd & [Ha _]%NoDup_cons)%NoDup_app.
  assert (a = y) as <- by (apply (equal_unique (l1 ++ a :: l2) key); set_solver). set_solver.
Qed.

Lemma ldelete_none r l : (forall x, x ∈ l -> cmp r x <> 0) -> ldelete r l = l.
Proof.
  unfold ldelete. induction l as [|x l IH]; intros Hl; [done|]. rewrite filter_cons_True by (apply Hl; set_solver).
  f_equal. apply IH. intros y Hy. apply Hl. set_solver.
Qed.

Lemma ldelete_fork r i o a b b' k k' :
  sorted (elems (fork i o a b k)) -> goes r a i -> elems k' = ldelete r (elems k) ->
  elems (fork i o a b' k') = ldelete r (elems (fork i o a b k)).
Proof.
  intros Hs Hi E. pose proof (goes_fork r i o a b k Hs Hi) as Hgo.
  assert (filter (fun x => cmp r x <> 0) (elems o) = elems o) as Eo.
  { apply ldelete_none. intros x Hx. by apply Hgo. }
  assert (cmp r a <> 0) by (destruct i; cbn in Hi; lia). unfold ldelete in *.
  destruct i; cbn [fork elems]; rewrite filter_app, filter_cons_True by done; by rewrite Eo, E.
Qed.

Lemma lfind_node r l a b t :
  sorted (elems (Node l a b t)) -> cmp r a = 0 -> lfind r (elems (Node l a b t)) = Some a.
Proof.
  intros (_ & _ & Hl & _)%sorted_node E. unfold lfind. apply fmap_Some. exists (length (elems l), a).
  split; [|done]. cbn [elems]. apply list_find_Some. split_and!.
  - apply list_lookup_middle. done.
  - done.
  - intros j y Hj Hlt Hy. rewrite lookup_app_l in Hj by done. apply list_elem_of_lookup_2 in Hj.
    specialize (Hl y Hj). pose proof (cmp_le_lt y a y). pose proof (cmp_lt_le y a r). pose proof (cmp_swap r y).
    pose proof (cmp_swap r a). pose proof (cmp_swap y r). lia.
Qed.

Lemma lfind_fork r i o a b k :
  sorted (elems (fork i o a b k)) -> goes r a i -> lfind r (elems (fork i o a b k)) = lfind r (elems k).
Proof.
  intros Hs Hi. pose proof (goes_fork r i o a b k Hs Hi) as Hgo.
  assert (cmp r a <> 0) as Ha by (destruct i; cbn in Hi; lia).
  assert (forall l2, lfind r (elems o ++ l2) = lfind r l2) as Eo.
  { intros l2. induction (elems o) as [|x l IH]; [done|]. unfold lfind in *. cbn.
    rewrite decide_False by (apply Hgo; set_solver).
    rewrite <- IH by (intros y Hy; apply Hgo; set_solver). by destruct (list_find _ (l ++ l2)) as [[]|]. }
  assert (forall l, lfind r (l ++ a :: elems o) = lfind r l) as Eo'.
  { induction l as [|x l IH]; unfold lfind in *; cbn.
    - rewrite decide_False by done. specialize (Eo []). rewrite app_nil_r in Eo. unfold lfind in Eo. cbn in Eo.
      by destruct (list_find _ (elems o)) as [[]|].
    - destruct (decide (cmp r x = 0)); [done|]. cbn in *.
      destruct (list_find _ (l ++ a :: elems o)) as [[]|], (list_find _ l) as [[]|]; cbn in *; congruence. }
  destruct i; cbn [fork elems]; [|apply Eo']. rewrite Eo. unfold lfind. cbn. rewrite decide_False by done.
  by destruct (list_find _ (elems k)) as [[]|].
Qed.
End lists.
