(* ===== verification/AvlInsert.v ===== *)
(** * Insertion into a tree

    [_insertavl] keeps the tree balanced and its nodes in order: the nodes after it are the
    nodes before with the new one inserted. *)

From stdpp Require Import sorting.
From S2P Require Import Prelude Avl AvlRep AvlOrder.

Implicit Types (s : Avltree) (tp : slot) (p v w : option Z).

(** ** Back in the parent *)

Definition sign (i : bool) : Z := if i then 1 else -1.

Lemma balanced_fork i o a b k :
  balanced (fork i o a b k) <->
  b = sign i * (height k - height o) /\ -1 <= b <= 1 /\ balanced o /\ balanced k.
Proof. destruct i; cbn [fork balanced sign]; intuition lia. Qed.

Lemma height_fork i o a b k : height (fork i o a b k) = 1 + Z.max (height o) (height k).
Proof. destruct i; cbn [fork height]; lia. Qed.

Lemma holds_bal tp p i o a b k f s :
  holds tp p (fork i o a b k) s -> (forall n, f n = n <| a_bal := a_bal (f n) |>) ->
  holds tp p (fork i o a (a_bal (f (fork_node i p o b k))) k) (tweak a f s).
Proof.
  intros [Hv R Hnd Ho] Hf. pose proof Hnd as (_ & _ & Hao & Hak & _)%nodup_fork.
  assert (forall b', elems (fork i o a b' k) = elems (fork i o a b k)) as E by (intros; by destruct i).
  assert (outside tp [a]) as Oa.
  { eapply outside_incl; [exact Ho|]. intros ? ->%list_elem_of_singleton. rewrite elem_of_fork. auto. }
  constructor; rewrite ?E; try done.
  - rewrite slot_tweak by done. rewrite Hv. by destruct i.
  - rewrite reps_fork in *. destruct R as (Ea & Ro & Rk). split_and!.
    + rewrite lookup_tweak_eq, Ea. cbn. f_equal. rewrite Hf. by destruct i.
    + eapply reps_ext; [|exact Ro]. intros x Hx. apply lookup_tweak_ne. congruence.
    + eapply reps_ext; [|exact Rk]. intros x Hx. apply lookup_tweak_ne. congruence.
Qed.

Lemma bal_at_Run tp p t s : holds tp p t s -> t <> Leaf -> bal_at tp s = Run (root_bal t) s.
Proof.
  intros [Hv R _ _] Ht. destruct t as [|l a b r]; [done|]. destruct R as (Ea & _). unfold bal_at.
  erewrite bind_Run by by apply deref_Run. by erewrite bind_Run by by apply node_Run.
Qed.

Lemma seq_Run {A} (m n : avm unit) (k : unit -> avm A) s s' :
  (m;; n) s = Run tt s' -> (m;; (n ≫= k)) s = k tt s'.
Proof. unfold mbind, avm_bind. destruct (m s); [|done]. by intros ->. Qed.

(** The child on the side [i] has changed and [d] is the growth of its height. *)
Lemma parent_rebalances tp p i o a b k k' d Y X s s1 :
  holds tp p (fork i o a b k) s -> balanced (fork i o a b k) ->
  effect (Kid a i) (ptr k') Y s s1 -> holds (Kid a i) (Some a) k' s1 ->
  balanced k' -> height k' = height k + d -> -1 <= d <= 1 ->
  NoDup (elems (fork i o a b k')) -> outside tp X -> a ∉ Y -> (forall x, x ∈ Y -> x ∉ elems o) ->
  (forall x, x ∈ Y \/ x ∈ elems (fork i o a b k) \/ x ∈ elems k' -> x ∈ X) ->
  exists t' s', (add_bal tp (sign i * d);; balance tp p) s1 = Run tt s' /\ holds tp p t' s' /\
    effect tp (ptr t') X s s' /\ rebalanced (fork i o a (b + sign i * d) k') t' /\ bal_at tp s' = Run (root_bal t') s'.
Proof.
  intros H B He Hk Bk Hh Hd Hnd HX HaY HoY HX'. pose proof H as [Hv R _ Ho].
  apply balanced_fork in B as (Eb & Hb & Bo & _).
  assert (holds tp p (fork i o a b k') s1) as H1.
  { eapply holds_child; [exact H|exact He|exact Hk|done|..]; try done;
      (eapply outside_incl; [exact HX|]); intros x; rewrite ?elem_of_fork; intros Hx; apply HX'; rewrite ?elem_of_fork; tauto. }
  assert (effect tp (Some a) X s s1) as F1.
  { eapply effect_kid; [exact He|by destruct i|..]; intros *; [|intros]; apply HX'; rewrite ?elem_of_fork; tauto. }
  pose proof (holds_bal tp p i o a b k' (fun n => n <| a_bal := a_bal n + sign i * d |>) s1 H1 (fun _ => eq_refl)) as H2.
  set (s2 := tweak a _ s1) in *. replace (a_bal _) with (b + sign i * d) in H2 by by destruct i.
  assert (effect tp (Some a) X s s2) as F2.
  { apply effect_then_tweak; [done|by rewrite Hv| |done]. apply HX'. rewrite elem_of_fork. tauto. }
  assert (exists t' s', balance tp p s2 = Run tt s' /\ holds tp p t' s' /\
    effect tp (ptr t') (elems (fork i o a (b + sign i * d) k')) s2 s' /\
    rebalanced (fork i o a (b + sign i * d) k') t') as (t' & s' & E & H' & F' & Q).
  { destruct i; cbn [sign fork] in *; apply balance_ok; try done; lia. }
  exists t', s'. split_and!; try done.
  - unfold add_bal. erewrite bind_Run; [exact E|].
    pose proof H1 as [Hv1 R1 _ _]. rewrite reps_fork in R1. destruct R1 as (Ea & _).
    erewrite bind_Run by (apply deref_Run; rewrite Hv1; by destruct i). apply set_node_Run. by rewrite Ea.
  - eapply effect_trans; [exact F2|exact F'|done| |done]. intros x. rewrite elem_of_fork. intros Hx.
    apply HX'. rewrite elem_of_fork. tauto.
  - apply (bal_at_Run tp p); [done|]. apply Q.
Qed.

Lemma root_bal_fork i o a b k : root_bal (fork i o a b k) = b.
Proof. by destruct i. Qed.

(** What the functions return is the growth of the whole tree. *)
Lemma insert_growth i o a b k k' d t' :
  balanced (fork i o a b k) -> height k' = height k + d -> 0 <= d <= 1 ->
  (d = 1 -> k = Leaf \/ root_bal k' <> 0) -> rebalanced (fork i o a (b + sign i * d) k') t' ->
  height t' = height (fork i o a b k) + (if (b =? 0) && negb (root_bal t' =? 0) then 1 else 0).
Proof.
  rewrite balanced_fork. intros (Eb & Hb & _) Hk Hd Hd1 (_ & _ & Eq & _ & Hst & Ht).
  rewrite root_bal_fork in *. rewrite Ht, !height_fork.
  destruct (Z.leb_spec (Z.abs (b + sign i * d)) 1).
  - rewrite Eq, root_bal_fork by lia. destruct i; cbn [sign] in *; bcase; cbn; lia.
  - assert (d = 1) as -> by (destruct i; cbn in *; lia).
    rewrite Hst; [destruct i; cbn [sign] in *; bcase; cbn; lia|].
    destruct (Hd1 eq_refl) as [->|Hk1]; [pose proof (height_nonneg o); destruct i; cbn in *; lia|].
    destruct i; cbn in *; lia.
Qed.

(** The part of [rebalanced] that does not depend on the nodes. *)
Definition levels (o : tree) (b : Z) (k t' : tree) : Prop :=
  (-1 <= b <= 1 -> root_bal t' = b) /\
  height t' = 1 + Z.max (height o) (height k) - (if (root_bal t' =? 0) && (1 <? Z.abs b) then 1 else 0).

Lemma rebalanced_levels i o a b k t' : rebalanced (fork i o a b k) t' -> levels o b k t'.
Proof.
  intros (_ & _ & Eq & _ & _ & Ht). rewrite root_bal_fork, height_fork in *. split; [|done].
  intros Hb. by rewrite Eq, root_bal_fork.
Qed.

Lemma delete_growth i o a b k k' d t' :
  balanced (fork i o a b k) -> height k' = height k + d -> -1 <= d <= 0 ->
  levels o (b + sign i * d) k' t' ->
  height t' = height (fork i o a b k) + (if negb (b =? 0) && (root_bal t' =? 0) then -1 else 0).
Proof.
  rewrite balanced_fork. intros (Eb & Hb & _) Hk Hd (Eq & Ht). rewrite Ht, height_fork.
  destruct (Z.leb_spec (Z.abs (b + sign i * d)) 1).
  - rewrite Eq by lia. destruct i; cbn [sign] in *; bcase; cbn; lia.
  - destruct i; cbn [sign] in *; bcase; cbn; lia.
Qed.

(** ** Insertion *)

Lemma canon_goes cmp r a :
  canoncmp (cmp r a) = 0 /\ cmp r a = 0 \/
  exists i, canoncmp (cmp r a) = sign i /\ side (sign i) = i /\ goes cmp r a i.
Proof.
  unfold canoncmp. destruct (Z.ltb_spec (cmp r a) 0); [right; by exists false|].
  destruct (Z.ltb_spec 0 (cmp r a)); [right; by exists true|]. left. split; [done|lia].
Qed.

Lemma fork_exists i l a b r : exists o k, Node l a b r = fork i o a b k.
Proof. destruct i; [by exists l, r|by exists r, l]. Qed.

Lemma fork_ptr i o a b k : ptr (fork i o a b k) = Some a.
Proof. by destruct i. Qed.

Lemma kid_fork_node i p o b k : kid i (fork_node i p o b k) = ptr k.
Proof. by destruct i. Qed.

(** The outcome of an operation on the tree [t] in a slot that leaves the nodes [l]: [d] is the
    growth of the tree. *)
Record outcome tp p (t : tree) (l X : list Z) (d : Z) s s' (t' : tree) : Prop := mkOutcome {
  out_holds : holds tp p t' s';
  out_effect : effect tp (ptr t') X s s';
  out_balanced : balanced t';
  out_elems : elems t' = l;
  out_height : height t' = height t + d }.

Section insert.
Context (cmp : Z -> Z -> Z) `{!Ordering cmp}.
Abbreviation sorted := (StronglySorted (fun a b => cmp a b < 0)).

(** The case of an empty slot. *)
Lemma insert_leaf tp p r rfree s fuel :
  holds tp p Leaf s -> outside tp [r] -> is_Some (t_nodes s !! r) ->
  exists s', _insertavl cmp (S fuel) tp p r rfree s = Run (1, rfree) s' /\
    outcome tp p Leaf [r] [r] 1 s s' (Node Leaf r 0 Leaf).
Proof.
  intros [Hv _ _ _] Ho Hr. cbn [_insertavl]. erewrite bind_Run by by apply get_slot_Run. cbn [ptr].
  erewrite bind_Run by by apply set_node_Run. set (s1 := tweak r _ s).
  assert (slot_val tp s1 = Some None) as Hv1 by (unfold s1; by rewrite slot_tweak).
  erewrite bind_Run by (apply set_slot_Run; by rewrite Hv1).
  eexists. split; [reflexivity|].
  assert (effect tp (Some r) [r] s (plug tp (Some r) s1)) as He.
  { eapply effect_then_plug; [done|]. apply effect_tweak; [exact Hv|set_solver]. }
  constructor; [|done..].
  constructor; [by rewrite (effect_val _ _ _ _ _ He)| |cbn; repeat constructor; set_solver|done].
  cbn [reps ptr]. split; [|done]. rewrite t_nodes_plug_ne by done. unfold s1. rewrite lookup_tweak_eq.
  destruct Hr as [n ->]. done.
Qed.

(** The case of an equal node, which is replaced. *)
Lemma insert_equal tp p l t b t2 r rfree s fuel :
  holds tp p (Node l t b t2) s -> cmp r t = 0 -> balanced (Node l t b t2) -> sorted (elems (Node l t b t2)) ->
  r ∉ elems (Node l t b t2) -> outside tp [r] -> is_Some (t_nodes s !! r) ->
  exists s', _insertavl cmp (S fuel) tp p r rfree s = Run (0, Some t) s' /\
    outcome tp p (Node l t b t2) (elems l ++ r :: elems t2) (r :: elems (Node l t b t2)) 0 s s' (Node l r b t2).
Proof.
  intros H Ec B Hs Hr Or Hal. pose proof H as [Hv (Et & Rl & R2) Hnd Ho].
  pose proof Hnd as (Nl & N2 & Htl & Ht2 & Hd)%nodup_node. rewrite elem_of_node in Hr.
  set (s1 := plug tp (Some r) s). set (s2 := tweak r (fun _ => mkAvl p (ptr l) (ptr t2) b) s1).
  set (s3 := adopt l (Some r) s2). set (s4 := adopt t2 (Some r) s3).
  assert (forall x, x ∈ elems l \/ x = t \/ x ∈ elems t2 -> outside tp [x]) as Ox.
  { intros x Hx. eapply outside_incl; [exact Ho|]. intros ? ->%list_elem_of_singleton. by rewrite elem_of_node. }
  assert (reps (t_nodes s2) (Some t) l) as Rl2.
  { eapply reps_ext; [|exact Rl]. intros x Hx. unfold s2, s1. rewrite lookup_tweak_ne by (intros ->; tauto).
    apply t_nodes_plug_ne, Ox. tauto. }
  assert (reps (t_nodes s3) (Some t) t2) as R23.
  { eapply reps_ext; [|exact R2]. intros x Hx. unfold s3. rewrite lookup_adopt by (intros Hx'; by apply (Hd x)).
    unfold s2, s1. rewrite lookup_tweak_ne by (intros ->; tauto). apply t_nodes_plug_ne, Ox. tauto. }
  exists s4. split.
  - cbn [_insertavl]. erewrite bind_Run by by apply get_slot_Run. cbn [ptr].
    erewrite bind_Run by by apply node_Run. rewrite Ec. change (canoncmp 0) with 0. cbn [Z.eqb negb].
    erewrite bind_Run by (apply set_slot_Run; by rewrite Hv). fold s1.
    erewrite bind_Run; [|apply node_Run; unfold s1; rewrite t_nodes_plug_ne by (apply Ox; tauto); exact Et].
    erewrite bind_Run by (apply set_node_Run; unfold s1; alloc). fold s2. cbn [a_n0 a_n1].
    erewrite bind_Run by (by eapply set_parent_Run). fold s3.
    by erewrite bind_Run by (by eapply set_parent_Run).
  - assert (outside tp (r :: elems (Node l t b t2))) as OX.
    { destruct tp; [done|]. cbn in Or, Ho |- *. set_solver. }
    assert (effect tp (Some r) (r :: elems (Node l t b t2)) s s4) as He.
    { unfold s4, s3, s2, s1. repeat first [apply effect_then_tweak | apply effect_then_adopt]; try done;
        try (by rewrite Hv); try (cbn; set_solver). apply effect_plug. }
    constructor; try done; [|cbn [height]; lia].
    constructor.
    + by rewrite (effect_val _ _ _ _ _ He OX) by by rewrite Hv.
    + cbn [reps]. split_and!.
      * unfold s4, s3. rewrite !lookup_adopt by tauto. unfold s2. rewrite lookup_tweak_eq.
        destruct (proj2 (lookup_plug_Some tp (Some r) s r) Hal) as [n En]. unfold s1. by rewrite En.
      * eapply reps_ext; [|apply (adopt_reps l (Some r) (Some t) s2 Nl Rl2)]. fold s3.
        intros x Hx. apply lookup_adopt. by apply Hd.
      * apply (adopt_reps t2 (Some r) (Some t) s3 N2 R23).
    + cbn [elems]. apply NoDup_app. split_and!; [done| |constructor; [tauto|done]].
      intros x Hx [->|Hx']%elem_of_cons; [tauto|]. by apply (Hd x).
    + eapply outside_incl; [exact OX|]. intros x. rewrite elem_of_node. cbn. set_solver.
Qed.

Lemma insert_ok fuel : forall tp p t r rfree s,
  holds tp p t s -> balanced t -> sorted (elems t) ->
  r ∉ elems t -> outside tp [r] -> is_Some (t_nodes s !! r) -> height t < Z.of_nat fuel ->
  exists t' d s', _insertavl cmp fuel tp p r rfree s =
      Run (d, match lfind cmp r (elems t) with Some x => Some x | None => rfree end) s' /\
    outcome tp p t (linsert cmp r (elems t)) (r :: elems t) d s s' t' /\
    0 <= d <= 1 /\ (d = 1 -> t = Leaf \/ root_bal t' <> 0).
Proof.
  induction fuel as [|fuel IH]; intros tp p t r rfree s H B Hs Hr Or Hal Hf; [pose proof (height_nonneg t); lia|].
  destruct t as [|l a b t2].
  { destruct (insert_leaf tp p r rfree s fuel H Or Hal) as (s' & E & O).
    exists (Node Leaf r 0 Leaf), 1, s'. split_and!; first [done | lia | by left]. }
  destruct (canon_goes cmp r a) as [[Ec Ec']|(i & Ec & Es & Hg)].
  { destruct (insert_equal tp p l a b t2 r rfree s fuel H Ec' B Hs Hr Or Hal) as (s' & E & O).
    exists (Node l r b t2), 0, s'. rewrite (lfind_node cmp) by done. split_and!; try lia; [done|].
    assert (linsert cmp r (elems (Node l a b t2)) = elems l ++ r :: elems t2) as ->; [|done].
    cbn [elems]. rewrite (linsert_app_gt cmp).
    - cbn. by bcase; try lia.
    - intros x Hx. apply (sorted_node cmp) in Hs as (_ & _ & Hl & _). specialize (Hl x Hx).
      pose proof (cmp_lt_le cmp x a r). pose proof (cmp_swap cmp x r). pose proof (cmp_swap cmp r a).
      pose proof (cmp_swap cmp a r). lia. }
  destruct (fork_exists i l a b t2) as (o & k & Et). rewrite Et in *. clear Et l t2.
  pose proof H as [Hv R Hnd Ho]. rewrite reps_fork in R. destruct R as (Ea & Ro & Rk).
  pose proof Hnd as (_ & _ & Hao & Hak & Hok)%nodup_fork. rewrite elem_of_fork in Hr.
  rewrite height_fork in Hf. pose proof B as (Eb & Hb & Bo & Bk)%balanced_fork.
  destruct (IH (Kid a i) (Some a) k r rfree s) as (k' & d & s1 & E1 & [Hk' F1 Bk' Ek' Hh'] & Hd & Hd1);
    [by eapply holds_kid|done|by apply (sorted_fork cmp i o a b)|tauto|cbn; set_solver|done|lia|].
  pose proof (linsert_fork cmp r i o a b b k k' Hs Hg Ek') as Ef.
  edestruct (parent_rebalances tp p i o a b k k' d (r :: elems k) (r :: elems (fork i o a b k)) s s1)
    as (t' & s' & E' & H' & F' & Q & Eb'); try done.
  - lia.
  - rewrite Ef. by apply (sorted_nodup cmp), (linsert_sorted cmp).
  - destruct tp; [done|]. cbn in Or, Ho |- *. set_solver.
  - set_solver.
  - intros x [->|Hx]%elem_of_cons; [tauto|]. intros Hx'. by apply (Hok x).
  - intros x. rewrite Ek', !elem_of_cons, elem_of_fork.
    intros [?|[?|?%elem_of_linsert]]; tauto.
  - pose proof Q as (Bt & Et & _). exists t'. eexists _, s'. split; [|split; [|split]].
    + cbn [_insertavl]. erewrite bind_Run by (apply get_slot_Run; by rewrite Hv, fork_ptr). cbn iota beta.
      erewrite bind_Run by by apply node_Run. rewrite Ec, Es. destruct (Z.eqb_spec (sign i) 0); [by destruct i|].
      cbn [negb]. erewrite bind_Run by exact E1. cbn beta iota. rewrite (seq_Run _ _ _ _ _ E').
      erewrite bind_Run by exact Eb'. rewrite (lfind_fork cmp) by done.
      replace (a_bal (fork_node i p o b k)) with b by by destruct i. done.
    + constructor; try done; [|].
      * rewrite Et, <- Ef. by destruct i.
      * by apply (insert_growth i o a b k k' d).
    + bcase; cbn; lia.
    + intros Hd'. right. revert Hd'. bcase; cbn; lia.
Qed.
End insert.
