(* ===== verification/AvlDelete.v ===== *)
(** * Deletion from a tree

    [successor] takes the first node out of a tree, [_deleteavl] the node that is equal to the
    key, and both leave a balanced tree of the other nodes in their order. *)

From stdpp Require Import sorting.
From S2P Require Import Prelude Avl AvlRep AvlOrder AvlInsert.

Implicit Types (s : Avltree) (tp : slot) (p v w : option Z).

(** ** Taking out a node with at most one child *)

Lemma splice_ok tp p i a b k s :
  holds tp p (fork i Leaf a b k) s ->
  exists s', (set_slot tp (ptr k);; set_parent (ptr k) p) s = Run tt s' /\ holds tp p k s' /\
    effect tp (ptr k) (elems (fork i Leaf a b k)) s s'.
Proof.
  intros [Hv R Hnd Ho]. rewrite reps_fork in R. destruct R as (Ea & _ & Rk).
  apply nodup_fork in Hnd as (_ & Nk & _).
  assert (outside tp (elems k)) as Ok.
  { eapply outside_incl; [exact Ho|]. intros x. rewrite elem_of_fork. tauto. }
  assert (reps (t_nodes (plug tp (ptr k) s)) (Some a) k) as Rk'.
  { eapply effect_reps; [apply (effect_plug tp (ptr k) [])|set_solver|done|done]. }
  exists (adopt k p (plug tp (ptr k) s)). split; [|split].
  - erewrite bind_Run by (apply set_slot_Run; by rewrite Hv). by eapply set_parent_Run.
  - constructor; try done; [|by eapply adopt_reps].
    rewrite adopt_slot by done. eapply effect_val; [apply (effect_plug _ _ [])|by destruct tp; set_solver|by rewrite Hv].
  - apply effect_then_adopt; [done|by rewrite Hv|..|apply effect_plug]. intros x. rewrite elem_of_fork. tauto.
Qed.

(** ** The successor *)

Lemma successor_ok fuel : forall tp p l a b r s,
  holds tp p (Node l a b r) s -> balanced (Node l a b r) -> height (Node l a b r) <= Z.of_nat fuel ->
  exists x es t' d s', elems (Node l a b r) = x :: es /\ successor fuel tp p s = Run (d, x) s' /\
    outcome tp p (Node l a b r) es (elems (Node l a b r)) d s s' t' /\ -1 <= d <= 0.
Proof.
  induction fuel as [|fuel IH]; intros tp p l a b r s H B Hf.
  { cbn [height] in Hf. pose proof (height_nonneg l). pose proof (height_nonneg r). lia. }
  pose proof H as [Hv (Ea & Rl & Rr) Hnd Ho]. cbn [successor].
  erewrite bind_Run by by apply deref_Run. erewrite bind_Run by by apply node_Run. cbn [a_n0 a_n1 a_bal].
  destruct l as [|l1 c bc l2].
  { destruct (splice_ok tp p true a b r s H) as (s' & E & H' & F). cbn [ptr].
    exists a, (elems r), r, (-1), s'. split_and!; try done; [by rewrite (seq_Run _ _ _ _ _ E)|].
    destruct B as (Eb & Hb & _ & Br). constructor; try done. cbn [height] in *. pose proof (height_nonneg r). lia. }
  cbn [ptr]. set (l := Node l1 c bc l2) in *.
  pose proof B as (Eb & Hb & Bl & Br). cbn [height] in Hf.
  destruct (IH (Kid a false) (Some a) l1 c bc l2 s) as (x & es & l' & d & s1 & Ex & E1 & [Hl' F1 Bl' El' Hh'] & Hd);
    [by eapply (holds_kid tp p false)|done|fold l; pose proof (height_nonneg r); lia|].
  fold l in Ex, Hh', F1.
  pose proof Hnd as (Nl & Nr & Hal & Har & Hlr)%nodup_node.
  edestruct (parent_rebalances tp p false r a b l l' d (elems l) (elems (Node l a b r)) s s1)
    as (t' & s' & E' & H' & F' & Q & Eb'); try done; cbn [fork].
  - lia.
  - revert Hnd. cbn [elems]. rewrite El', Ex. cbn. by intros [_ ?]%NoDup_cons.
  - intros y. rewrite El', elem_of_node. intros [?|[?|Hy]]; [tauto..|]. left. rewrite Ex. set_solver.
  - pose proof Q as (Bt & Et & _).
    exists x, (es ++ a :: elems r), t', (if negb (b =? 0) && (root_bal t' =? 0) then -1 else 0), s'. split_and!; [cbn [elems]; by rewrite Ex| | |bcase; cbn; lia..].
    + erewrite bind_Run by exact E1. cbn beta iota. replace (- d) with (sign false * d) by (cbn; lia).
      rewrite (seq_Run _ _ _ _ _ E'). by erewrite bind_Run by exact Eb'.
    + constructor; try done; [rewrite Et; cbn [fork elems]; by rewrite El'|].
      by eapply (delete_growth false r a b l l' d), rebalanced_levels.
Qed.

(** ** A node with two children *)

(** The state after [x] has taken the place of [a] above [l] and [r]. *)
Definition moved_in tp p (a x d : Z) (l r : tree) (b : Z) s : Avltree :=
  adopt r (Some x) (adopt l (Some x) (tweak x (fun n => n <| a_p := p |>) (plug tp (Some x)
    (tweak x (fun n => n <| a_bal := b |> <| a_n0 := ptr l |> <| a_n1 := ptr r |>)
      (tweak a (fun n => n <| a_bal := a_bal n + d |>) s))))).

Section replace.
Context tp p (l : tree) (a b : Z) (r r' : tree) (x : Z) (es : list Z) (d : Z) s s1.
Context (H : holds tp p (Node l a b r) s) (Ex : elems r = x :: es).
Context (Hr' : holds (Kid a true) (Some a) r' s1) (Er' : elems r' = es).
Context (F1 : effect (Kid a true) (ptr r') (elems r) s s1).
Let X := elems (Node l a b r).

Lemma replace_apart :
  (a <> x /\ a ∉ elems l /\ a ∉ elems r' /\ x ∉ elems l /\ x ∉ elems r') /\
  (forall y, y ∈ elems l -> y ∉ elems r') /\ NoDup (elems l) /\ NoDup (elems r') /\
  (forall y, y ∈ elems l \/ y = a \/ y = x \/ y ∈ elems r' -> outside tp [y] /\ y ∈ X).
Proof.
  pose proof H as [_ _ Hnd Ho]. pose proof Hnd as (Nl & Nr & Hal & Har & Hd)%nodup_node.
  rewrite Ex in *. apply NoDup_cons in Nr as [Hx Nes]. rewrite Er'.
  split_and!; try done; try set_solver.
  intros y Hy. assert (y ∈ X) as HX by (unfold X; rewrite elem_of_node, Ex, elem_of_cons; tauto).
  split; [|done]. eapply outside_incl; [exact Ho|]. by intros ? ->%list_elem_of_singleton.
Qed.

Lemma replace_memory :
  t_nodes s1 !! a = Some (mkAvl p (ptr l) (ptr r') b) /\ is_Some (t_nodes s1 !! x) /\
  reps (t_nodes s1) (Some a) l /\ reps (t_nodes s1) (Some a) r' /\ is_Some (slot_val tp s1) /\
  effect tp (Some a) X s s1.
Proof.
  pose proof H as [Hv (Ea & Rl & Rr) Hnd Ho]. pose proof Hnd as (Nl & Nr & Hal & Har & Hd)%nodup_node.
  assert (effect tp (Some a) X s s1) as Fa.
  { eapply effect_kid; [exact F1|done|unfold X; cbn; set_solver..]. }
  split_and!; try done.
  - rewrite (eff_nodes _ _ _ _ _ F1 a Har). cbn. rewrite lookup_alter_eq, Ea. done.
  - rewrite <- elem_of_dom, (eff_dom _ _ _ _ _ F1), elem_of_dom. eapply reps_alloc; [exact Rr|]. rewrite Ex. set_solver.
  - eapply effect_reps; [exact F1|done|done|done].
  - apply Hr'.
  - by rewrite (effect_val _ _ _ _ _ Fa) by (done || by rewrite Hv).
Qed.

Lemma replace_holds :
  holds tp p (Node l x (b + d) r') (moved_in tp p a x d l r' (b + d) s1) /\
  effect tp (Some x) X s (moved_in tp p a x d l r' (b + d) s1).
Proof.
  destruct replace_apart as ((Hax & Hal & Har & Hxl & Hxr) & Hd & Nl & Nr & Hin).
  destruct replace_memory as (Ea & [nx Enx] & Rl & Rr & Hs & Fa). pose proof H as [Hv _ _ Ho].
  assert (effect tp (Some x) X s (moved_in tp p a x d l r' (b + d) s1)) as F.
  { unfold moved_in.
    repeat first [apply effect_then_tweak | eapply effect_then_plug | apply effect_then_adopt]; try done;
      try (by rewrite Hv); try (intros; apply Hin; tauto); try (apply Hin; tauto). }
  split; [|done]. constructor.
  - by rewrite (effect_val _ _ _ _ _ F) by (done || by rewrite Hv).
  - cbn [reps]. split_and!.
    + unfold moved_in. rewrite !lookup_adopt by done. rewrite lookup_tweak_eq, t_nodes_plug_ne by (apply Hin; tauto).
      rewrite lookup_tweak_eq, lookup_tweak_ne, Enx by done. done.
    + eapply reps_ext; [intros y Hy; apply lookup_adopt; by apply Hd|]. eapply adopt_reps; [done|].
      eapply reps_ext; [|exact Rl]. intros y Hy. assert (y <> x /\ y <> a) as [? ?] by (split; congruence).
      assert (outside tp [y]) by (apply Hin; tauto). by peek.
    + eapply adopt_reps; [done|]. eapply reps_ext; [|exact Rr]. intros y Hy.
      assert (y <> x /\ y <> a /\ y ∉ elems l) as (? & ? & ?) by (split_and!; [congruence..|intros ?; by apply (Hd y)]).
      assert (outside tp [y]) by (apply Hin; tauto). by peek.
  - cbn [elems]. apply NoDup_app. split_and!; [done| |by constructor].
    intros y Hy [->|?]%elem_of_cons; [done|]. by apply (Hd y).
  - eapply outside_incl; [exact Ho|]. intros y. rewrite elem_of_node. intros ?. apply Hin. tauto.
Qed.

Lemma replace_run fuel :
  successor fuel (Kid a true) (Some a) s = Run (d, x) s1 ->
  replace_by_successor fuel tp p a s = Run tt (moved_in tp p a x d l r' (b + d) s1).
Proof.
  intros E. destruct replace_apart as ((Hax & Hal & Har & Hxl & Hxr) & Hd & Nl & Nr & Hin).
  destruct replace_memory as (Ea & Hx & Rl & Rr & Hs & _). unfold replace_by_successor.
  erewrite bind_Run by exact E. cbn beta iota. erewrite bind_Run by (apply set_node_Run; by rewrite Ea).
  set (s2 := tweak a _ s1).
  assert (t_nodes s2 !! a = Some (mkAvl p (ptr l) (ptr r') (b + d))) as Ea2 by (unfold s2; by rewrite lookup_tweak_eq, Ea).
  erewrite bind_Run by by apply node_Run. cbn [a_bal a_n0 a_n1].
  erewrite bind_Run by (apply set_node_Run; unfold s2; alloc).
  assert (outside tp [x] /\ outside tp [a]) as [Ox Oa] by (split; apply Hin; tauto).
  erewrite bind_Run by (apply set_slot_Run; unfold s2; by rewrite !slot_tweak).
  erewrite bind_Run by (apply set_node_Run; unfold s2; alloc).
  assert (forall y, y <> x -> y <> a -> outside tp [y] -> forall f g h,
    t_nodes (tweak x f (plug tp (Some x) (tweak x g (tweak a h s1)))) !! y = t_nodes s1 !! y) as Hy
    by (intros; by peek).
  erewrite bind_Run.
  2:{ eapply set_parent_Run, reps_ext; [|exact Rl]. intros y Hyl.
      apply Hy; [congruence..|apply Hin; tauto]. }
  eapply set_parent_Run, reps_ext; [|exact Rr]. intros y Hyr.
  rewrite lookup_adopt by (intros ?; by apply (Hd y)). apply Hy; [congruence..|apply Hin; tauto].
Qed.
End replace.

(** ** Deletion *)

(** [s0] is [s] but for the walks. *)
Definition same_tree s s0 : Prop :=
  t_nodes s0 = t_nodes s /\ t_root s0 = t_root s /\ t_walks s0 = t_walks s.

Lemma holds_same tp p t s s0 : same_tree s s0 -> holds tp p t s -> holds tp p t s0.
Proof.
  intros (En & Er & _) [Hv R Hnd Ho]. constructor; rewrite ?En; try done.
  rewrite <- Hv. destruct tp; cbn; by rewrite ?En, ?Er.
Qed.

Section delete.
Context (cmp : Z -> Z -> Z) `{!Ordering cmp} (predel : Z -> avm unit).
Abbreviation sorted := (StronglySorted (fun a b => cmp a b < 0)).

(** [predel] is called for the node that goes, before anything changes. *)
Definition predeleted rx (es : list Z) s s0 : Prop :=
  same_tree s s0 /\
  match lfind cmp rx es with Some a => predel a s = Run tt s0 | None => s0 = s end.

Lemma ldelete_node rx l a b r :
  sorted (elems (Node l a b r)) -> cmp rx a = 0 -> ldelete cmp rx (elems (Node l a b r)) = elems l ++ elems r.
Proof.
  intros (_ & _ & Hl & Hr)%(sorted_node cmp) E. cbn [elems].
  assert (forall x, x ∈ elems l \/ x ∈ elems r -> cmp rx x <> 0) as Hne.
  { intros x Hx Ex. pose proof (cmp_swap cmp rx a). pose proof (cmp_swap cmp rx x).
    destruct Hx as [Hx|Hx]; [specialize (Hl x Hx); pose proof (cmp_lt_le cmp x a rx); lia|].
    specialize (Hr x Hx). pose proof (cmp_lt_le cmp a x rx). lia. }
  pose proof (ldelete_none cmp rx (elems l) (fun x Hx => Hne x (or_introl Hx))) as El.
  pose proof (ldelete_none cmp rx (elems r) (fun x Hx => Hne x (or_intror Hx))) as Er.
  unfold ldelete in *. rewrite filter_app, filter_cons_False by (intros ?; lia). by rewrite El, Er.
Qed.

(** The node with the key, with at most one child. *)
Lemma delete_single tp p i a b k s :
  holds tp p (fork i Leaf a b k) s -> balanced (fork i Leaf a b k) ->
  exists s', (set_slot tp (ptr k);; set_parent (ptr k) p) s = Run tt s' /\
    outcome tp p (fork i Leaf a b k) (elems k) (elems (fork i Leaf a b k)) (-1) s s' k.
Proof.
  intros H B. destruct (splice_ok tp p i a b k s H) as (s' & E & H' & F). exists s'. split; [done|].
  apply balanced_fork in B as (_ & _ & _ & Bk). constructor; try done. rewrite height_fork. cbn [height].
  pose proof (height_nonneg k). lia.
Qed.

(** The node with the key, with two children. *)
Lemma delete_double fuel tp p l a b r1 c bc r2 s :
  let r := Node r1 c bc r2 in
  holds tp p (Node l a b r) s -> balanced (Node l a b r) -> height (Node l a b r) <= Z.of_nat fuel ->
  exists t' d s', (replace_by_successor fuel tp p a;; balance tp p) s = Run tt s' /\
    bal_at tp s' = Run (root_bal t') s' /\ d = (if negb (b =? 0) && (root_bal t' =? 0) then -1 else 0) /\
    outcome tp p (Node l a b r) (elems l ++ elems r) (elems (Node l a b r)) d s s' t'.
Proof.
  intros r H B Hf. pose proof B as (Eb & Hb & Bl & Br). pose proof (height_nonneg l). cbn [height] in Hf.
  destruct (successor_ok fuel (Kid a true) (Some a) r1 c bc r2 s) as
    (x & es & r' & d & s1 & Ex & E1 & [Hr' F1 Br' Er' Hh'] & Hd);
    [by eapply (holds_kid tp p true)|done|fold r; cbn [height] in *; lia|].
  fold r in Ex, Hh', F1.
  destruct (replace_holds tp p l a b r r' x es d s s1 H Ex Hr' Er' F1) as [H2 F2].
  set (s2 := moved_in _ _ _ _ _ _ _ _ _) in *.
  destruct (balance_ok tp p l x (b + d) r' s2) as (t' & s' & E' & H' & F' & Q); [done|lia|lia|done|done|].
  pose proof Q as (Bt & Et & Eq & Hne & _ & Ht).
  exists t'. eexists. exists s'. split_and!; [| |reflexivity|constructor; try done].
  - erewrite bind_Run; [exact E'|]. by eapply replace_run.
  - by eapply bal_at_Run.
  - eapply effect_trans; [exact F2|exact F'|done| |apply H]. intros y. rewrite !elem_of_node, Ex, Er'. set_solver.
  - rewrite Et. cbn [elems]. by rewrite Er', Ex.
  - apply (delete_growth true l a b r r' d t' B Hh' Hd).
    replace (sign true * d) with d by (cbn; lia). by apply (rebalanced_levels true l x).
Qed.

Lemma delete_ok fuel : forall tp p t rx del s s0,
  holds tp p t s -> balanced t -> sorted (elems t) -> predeleted rx (elems t) s s0 -> height t < Z.of_nat fuel ->
  exists t' d s', _deleteavl cmp fuel tp p rx del predel s =
      Run (d, match lfind cmp rx (elems t) with Some x => Some x | None => del end) s' /\
    outcome tp p t (ldelete cmp rx (elems t)) (elems t) d s0 s' t' /\ -1 <= d <= 0.
Proof.
  induction fuel as [|fuel IH]; intros tp p t rx del s s0 H B Hs Hp Hf; [pose proof (height_nonneg t); lia|].
  cbn [_deleteavl]. erewrite bind_Run by (apply get_slot_Run, H). pose proof Hp as [Hsame Hpre].
  pose proof (holds_same tp p t s s0 Hsame H) as H0.
  destruct t as [|l a b r]; cbn [ptr].
  { exists Leaf, 0, s. split_and!; try done; try lia. rewrite Hpre. constructor; try done.
    apply effect_refl. apply H. }
  pose proof H as [_ (Ea & _) _ _]. erewrite bind_Run by by apply node_Run. cbn [a_bal].
  destruct (canon_goes cmp rx a) as [[Ec Ec']|(i & Ec & Es & Hg)].
  - rewrite Ec. cbn [Z.eqb negb]. rewrite (lfind_node cmp) in * by done. rewrite ldelete_node by done.
    erewrite bind_Run by exact Hpre. pose proof H0 as [_ (Ea0 & _) _ _]. erewrite bind_Run by by apply node_Run.
    cbn [a_n0 a_n1]. destruct l as [|l1 c1 bc1 l2]; [|destruct r as [|r1 c2 bc2 r2]]; cbn [ptr].
    + destruct (delete_single tp p true a b r s0 H0 B) as (s' & E & O).
      exists r, (-1), s'. split_and!; [by rewrite (seq_Run _ _ _ _ _ E)|done|lia..].
    + destruct (delete_single tp p false a b (Node l1 c1 bc1 l2) s0 H0 B) as (s' & E & O).
      exists (Node l1 c1 bc1 l2), (-1), s'. split_and!; [by rewrite (seq_Run _ _ _ _ _ E)| |lia..].
      change (elems Leaf) with (@nil Z). by rewrite app_nil_r.
    + destruct (delete_double fuel tp p (Node l1 c1 bc1 l2) a b r1 c2 bc2 r2 s0 H0 B) as (t' & d & s' & E & Eb & Ed & O); [lia|].
      exists t', d, s'. split_and!; [|done|rewrite Ed; bcase; cbn; lia..].
      rewrite (seq_Run _ _ _ _ _ E). erewrite bind_Run by exact Eb. by rewrite Ed.
  - destruct (fork_exists i l a b r) as (o & k & Et). rewrite Et in *. rewrite (lfind_fork cmp) in * by done.
    pose proof H0 as [_ _ Hnd Ho]. pose proof Hnd as (_ & _ & Hao & Hak & Hok)%nodup_fork.
    rewrite height_fork in Hf. pose proof B as (Eb & Hb & Bo & Bk)%balanced_fork.
    destruct (IH (Kid a i) (Some a) k rx del s s0) as (k' & d & s1 & E1 & [Hk' F1 Bk' Ek' Hh'] & Hd);
      [by eapply holds_kid|done|by apply (sorted_fork cmp i o a b)|done|lia|].
    pose proof (ldelete_fork cmp rx i o a b b k k' Hs Hg Ek') as Ef.
    edestruct (parent_rebalances tp p i o a b k k' d (elems k) (elems (fork i o a b k)) s0 s1)
      as (t' & s' & E' & H' & F' & Q & Eb'); try done.
    + lia.
    + rewrite Ef. by apply NoDup_filter.
    + intros x Hx Hx'. by apply (Hok x).
    + intros x. rewrite Ek', elem_of_fork. unfold ldelete. rewrite list_elem_of_filter. tauto.
    + pose proof Q as (Bt & Et' & _). exists t'. eexists _, s'. split_and!; [|constructor; try done|..].
      * rewrite Ec, Es. destruct (Z.eqb_spec (sign i) 0); [by destruct i|]. cbn [negb].
        erewrite bind_Run by exact E1. cbn beta iota. rewrite (seq_Run _ _ _ _ _ E').
        by erewrite bind_Run by exact Eb'.
      * rewrite Et', <- Ef. by destruct i.
      * by eapply (delete_growth i o a b k k' d), rebalanced_levels.
      * bcase; cbn; lia.
      * bcase; cbn; lia.
Qed.
End delete.
