(* ===== verification/AvlWalk.v ===== *)
(** * Walking a tree

    The predecessor and the successor of a node by way of the parent pointers, and the search
    with its neighbours. *)

From stdpp Require Import sorting.
From S2P Require Import Prelude Avl AvlRep AvlOrder AvlInsert.

Implicit Types (s : Avltree) (tp : slot) (p v w : option Z) (l : list Z).

(** ** Neighbours in a list *)

(** The end of a list on the side [i]. *)
Definition outer (i : bool) l : option Z := if i then last l else head l.

(** [x] comes directly after [a]. *)
Fixpoint adjacent l (a x : Z) : Prop :=
  match l with
  | [] => False
  | y :: l => y = a /\ head l = Some x \/ adjacent l a x
  end.

(** [x] is next to [a] on the side [i]. *)
Definition follows (i : bool) l (a x : Z) : Prop := if i then adjacent l a x else adjacent l x a.

Lemma adjacent_app (u l : list Z) c a x :
  adjacent (u ++ c :: l) a x ->
  adjacent u a x \/ (last u = Some a /\ x = c) \/ (a = c /\ head l = Some x) \/ adjacent l a x.
Proof.
  induction u as [|y u IH]; cbn [app adjacent]; [naive_solver|]. intros [[-> E]|H].
  - destruct u; cbn in *; [injection E as <-|]; auto.
  - destruct (IH H) as [?|[[E ->]|?]]; auto. destruct u; [done|]. rewrite last_cons_cons. auto.
Qed.

Lemma adjacent_mid (u l : list Z) a x : adjacent (u ++ a :: x :: l) a x.
Proof. induction u; cbn; auto. Qed.

Lemma follows_fork i o c b k a x :
  follows i (elems (fork i o c b k)) a x ->
  follows i (elems o) a x \/ (outer i (elems o) = Some a /\ x = c) \/
  (a = c /\ outer (negb i) (elems k) = Some x) \/ follows i (elems k) a x.
Proof. destruct i; cbn [fork elems follows outer negb]; intros H%adjacent_app; naive_solver. Qed.

Lemma outer_fork i o c b k :
  outer i (elems (fork i o c b k)) = match k with Leaf => Some c | _ => outer i (elems k) end.
Proof.
  destruct i; cbn [fork elems outer].
  - rewrite last_app_cons. destruct k as [|k1 d bd k2]; [done|]. rewrite last_cons.
    destruct (last (elems (Node k1 d bd k2))) eqn:E; [done|]. apply last_None in E. cbn in E. by destruct (elems k1).
  - destruct k as [|k1 d bd k2]; [done|]. cbn [elems]. by destruct (elems k1).
Qed.

Lemma outer_elem i l a : outer i l = Some a -> a ∈ l.
Proof. destruct i; cbn; [apply last_Some_elem_of|]. apply head_Some_elem_of. Qed.

(** ** Paths in a tree *)

Lemma tree_fork_ind (i : bool) (P : tree -> Prop) :
  P Leaf -> (forall o a b k, P o -> P k -> P (fork i o a b k)) -> forall t, P t.
Proof. intros HL HN. induction t as [|l IHl a b r IHr]; [done|]. destruct i; by apply HN with (b := b). Qed.

Lemma descend_ok i fuel : forall p t s,
  reps (t_nodes s) p t -> t <> Leaf -> height t <= Z.of_nat fuel ->
  exists a x, ptr t = Some a /\ descend fuel i a s = Run x s /\ outer i (elems t) = Some x.
Proof.
  induction fuel as [|fuel IH]; intros p t s R Ht Hf.
  { destruct t as [|l a b r]; [done|]. cbn [height] in Hf. pose proof (height_nonneg l). pose proof (height_nonneg r). lia. }
  destruct t as [|l a b r]; [done|]. destruct (fork_exists i l a b r) as (o & k & Et). rewrite Et in *. clear Et Ht.
  rewrite reps_fork in R. destruct R as (Ea & Ro & Rk). rewrite height_fork in Hf. rewrite fork_ptr, outer_fork.
  exists a. destruct k as [|k1 d bd k2].
  - exists a. split_and!; try done. cbn [descend]. erewrite bind_Run by by apply node_Run. by rewrite kid_fork_node.
  - destruct (IH (Some a) (Node k1 d bd k2) s) as (c & x & [= <-] & E & Ex); [done|done|lia|].
    exists x. split_and!; try done. cbn [descend]. erewrite bind_Run by by apply node_Run. by rewrite kid_fork_node.
Qed.

(** The outermost node has no child on its side, and climbing from it leads to the root. *)
Lemma climb_outer i t : forall p a s,
  reps (t_nodes s) p t -> outer i (elems t) = Some a ->
  exists n c m, t_nodes s !! a = Some n /\ kid i n = None /\ ptr t = Some c /\ Z.of_nat m < height t /\
    forall fuel, climb (m + fuel) i a s = climb fuel i c s.
Proof.
  induction t as [|o c b k _ IHk] using (tree_fork_ind i); intros p a s R; [by destruct i|].
  rewrite outer_fork, reps_fork, fork_ptr, height_fork in *. destruct R as (Ec & Ro & Rk).
  pose proof (height_nonneg o). pose proof (height_nonneg k).
  destruct k as [|k1 d bd k2].
  - intros [= <-]. exists (fork_node i p o b Leaf), c, 0%nat. split_and!; try done; [by destruct i|]. cbn; lia.
  - intros Ha. destruct (IHk (Some c) a s Rk Ha) as (n & d' & m & En & Hn & [= <-] & Hm & Hc).
    exists n, c, (m + 1)%nat. split_and!; try done; [lia|].
    intros fuel. rewrite <- Nat.add_assoc, Hc. cbn [Nat.add climb]. destruct Rk as (Ed & _).
    erewrite bind_Run by by apply node_Run. cbn [a_p]. erewrite bind_Run by by apply node_Run.
    rewrite kid_fork_node. by rewrite bool_decide_true.
Qed.

(** [findsuccessor] is [find true], [findpredecessor] is [find false]. *)
Definition find (i : bool) (fuel : nat) (a : Z) : avm (option Z) :=
  n ← node a;
  match kid i n with
  | Some b => r ← descend fuel (negb i) b; mret (Some r)
  | None => climb fuel i a
  end.

Lemma find_next i t : forall p a x fuel s,
  reps (t_nodes s) p t -> NoDup (elems t) -> height t <= Z.of_nat fuel -> follows i (elems t) a x ->
  find i fuel a s = Run (Some x) s.
Proof.
  induction t as [|o c b k IHo IHk] using (tree_fork_ind i); intros p a x fuel s R Hnd Hf; [by destruct i|].
  rewrite reps_fork, height_fork in *. destruct R as (Ec & Ro & Rk).
  apply nodup_fork in Hnd as (No & Nk & Hco & Hck & Hd). pose proof (height_nonneg o). pose proof (height_nonneg k).
  intros [Hx|[[Hx ->]|[[-> Hx]|Hx]]]%follows_fork.
  - apply (IHo (Some c)); try done. lia.
  - destruct (climb_outer i o (Some c) a s Ro Hx) as (n & d & m & En & Hn & Hp & Hm & Hc).
    unfold find. erewrite bind_Run by by apply node_Run. rewrite Hn.
    replace fuel with (m + S (fuel - m - 1))%nat by lia. rewrite Hc. cbn [climb].
    destruct o as [|o1 d' bd o2]; [done|]. injection Hp as ->. destruct Ro as (Ed & _).
    erewrite bind_Run by by apply node_Run. cbn [a_p]. erewrite bind_Run by by apply node_Run.
    rewrite kid_fork_node, bool_decide_false; [done|]. intros Ek. destruct k as [|k1 d' bk k2]; [done|].
    injection Ek as ->. apply (Hd d); cbn; set_solver.
  - unfold find. erewrite bind_Run by by apply node_Run. rewrite kid_fork_node.
    destruct k as [|k1 d bd k2]; [by destruct i|].
    destruct (descend_ok (negb i) fuel (Some c) (Node k1 d bd k2) s Rk) as (d' & y & [= <-] & E & Ey); [done|lia|].
    cbn [ptr]. erewrite bind_Run by exact E. rewrite Hx in Ey. by injection Ey as ->.
  - apply (IHk (Some c)); try done. lia.
Qed.

Lemma find_end i t a fuel s :
  reps (t_nodes s) None t -> height t <= Z.of_nat fuel -> outer i (elems t) = Some a ->
  find i fuel a s = Run None s.
Proof.
  intros R Hf H. destruct (climb_outer i t None a s R H) as (n & c & m & En & Hn & Hp & Hm & Hc).
  unfold find. erewrite bind_Run by by apply node_Run. rewrite Hn.
  replace fuel with (m + S (fuel - m - 1))%nat by lia. rewrite Hc. cbn [climb].
  destruct t as [|l c' b r]; [done|]. injection Hp as ->. destruct R as (Ec & _).
  by erewrite bind_Run by by apply node_Run.
Qed.

(** ** Enough fuel *)

Lemma height_length t : height t <= len (elems t).
Proof.
  induction t as [|l IHl a b r IHr]; [done|]. cbn [height elems]. rewrite length_app. cbn [length]. lia.
Qed.

Lemma holds_depth p t s : holds Root p t s -> height t < Z.of_nat (depth s).
Proof.
  intros [_ R Hnd _]. unfold depth. pose proof (height_length t).
  assert (length (elems t) <= size (t_nodes s))%nat; [|lia].
  rewrite <- (size_dom (t_nodes s)), <- (size_list_to_set (C := gset Z) (elems t)) by done.
  apply subseteq_size. intros x Hx. rewrite elem_of_list_to_set in Hx. rewrite elem_of_dom. by eapply reps_alloc.
Qed.

(** The node after the position [l1] in the nodes [l1 ++ l2]. *)
Lemma findsuccessor_ok t s l1 a l2 :
  holds Root None t s -> elems t = l1 ++ a :: l2 -> findsuccessor (Some a) s = Run (head l2) s.
Proof.
  intros H E. pose proof (holds_depth None t s H). destruct H as [_ R Hnd _].
  assert (findsuccessor (Some a) s = find true (depth s) a s) as -> by done. destruct l2 as [|x l2].
  - apply (find_end true t); [done|lia|]. rewrite E. apply last_snoc.
  - apply (find_next true t None); [done..|lia|]. rewrite E. apply adjacent_mid.
Qed.

Lemma findpredecessor_ok t s l1 a l2 :
  holds Root None t s -> elems t = l1 ++ a :: l2 -> findpredecessor (Some a) s = Run (last l1) s.
Proof.
  intros H E. pose proof (holds_depth None t s H). destruct H as [_ R Hnd _].
  assert (findpredecessor (Some a) s = find false (depth s) a s) as -> by done.
  destruct l1 as [|x l1 _] using rev_ind.
  - apply (find_end false t); [done|lia|]. by rewrite E.
  - rewrite last_snoc. apply (find_next false t None); [done..|lia|]. rewrite E, <- app_assoc. apply adjacent_mid.
Qed.

Lemma outermost_ok i t s : holds Root None t s -> outermost i s = Run (outer i (elems t)) s.
Proof.
  intros H. pose proof (holds_depth None t s H). destruct H as [[= Hr] R _ _]. unfold outermost.
  erewrite bind_Run by done. rewrite Hr. destruct t as [|l a b r]; [by destruct i|]. cbn [ptr].
  destruct (descend_ok i (depth s) None (Node l a b r) s R) as (a' & x & [= <-] & E & Ex); [done|lia|].
  erewrite bind_Run by exact E. by rewrite Ex.
Qed.

(** ** Search *)

Section search.
Context (cmp : Z -> Z -> Z) `{!Ordering cmp}.
Abbreviation sorted := (StronglySorted (fun a b => cmp a b < 0)).

Definition less (key : Z) l : list Z := filter (fun x => 0 < cmp key x) l.
Definition more (key : Z) l : list Z := filter (fun x => cmp key x < 0) l.

(** The nodes of a list on one side of a key. *)
Lemma filter_all (P : Z -> Prop) `{!forall x, Decision (P x)} l : (forall x, x ∈ l -> P x) -> filter P l = l.
Proof.
  induction l as [|y l IH]; intros Hl; [done|]. rewrite filter_cons_True by (apply Hl; set_solver).
  f_equal. apply IH. intros x Hx. apply Hl. set_solver.
Qed.
Lemma filter_none (P : Z -> Prop) `{!forall x, Decision (P x)} l : (forall x, x ∈ l -> ~ P x) -> filter P l = [].
Proof.
  induction l as [|y l IH]; intros Hl; [done|]. rewrite filter_cons_False by (apply Hl; set_solver).
  apply IH. intros x Hx. apply Hl. set_solver.
Qed.

(** The parts of a node the key does not lie in. *)
Lemma sides_fork key i o a b k :
  sorted (elems (fork i o a b k)) -> goes cmp key a i ->
  if i then less key (elems (fork i o a b k)) = elems o ++ a :: less key (elems k) /\
            more key (elems (fork i o a b k)) = more key (elems k)
  else less key (elems (fork i o a b k)) = less key (elems k) /\
       more key (elems (fork i o a b k)) = more key (elems k) ++ a :: elems o.
Proof.
  intros Hs Hg. pose proof (goes_fork cmp key i o a b k Hs Hg) as Ho. unfold less, more.
  destruct i; cbn [fork elems goes] in *; rewrite !filter_app, !filter_cons.
  - rewrite (decide_True _ _ Hg), decide_False by lia.
    rewrite (filter_all _ (elems o)) by (intros x Hx; apply Ho, Hx).
    rewrite (filter_none _ (elems o)); [done|]. intros x Hx. destruct (Ho x Hx) as [_ G]. cbn in G. lia.
  - rewrite decide_False, (decide_True _ _ Hg) by lia.
    rewrite (filter_none (fun x => 0 < cmp key x) (elems o)) by (intros x Hx; destruct (Ho x Hx); lia).
    rewrite (filter_all _ (elems o)) by (intros x Hx; apply Ho, Hx). by rewrite app_nil_r.
Qed.

(** A node that is last of the smaller ones or first of the greater ones. *)
Definition beside key l (j q : Z) : Prop :=
  j = 1 /\ last (less key l) = Some q \/ j = -1 /\ head (more key l) = Some q.

Lemma beside_fork key i o a b k j q :
  sorted (elems (fork i o a b k)) -> goes cmp key a i -> beside key (elems k) j q ->
  beside key (elems (fork i o a b k)) j q.
Proof.
  intros Hs Hg. pose proof (sides_fork key i o a b k Hs Hg) as E. unfold beside.
  destruct i, E as [-> ->]; intros [[-> H]|[-> H]]; [left|right|left|right]; split; try done.
  - by rewrite last_app_cons, last_cons, H.
  - by destruct (more key (elems k)).
Qed.

Lemma lookup_ok fuel : forall p t key s,
  reps (t_nodes s) p t -> sorted (elems t) -> t <> Leaf -> height t <= Z.of_nat fuel ->
  exists a res, ptr t = Some a /\ lookup_loop cmp fuel a p key s = Run res s /\
    match lfind cmp key (elems t) with
    | Some x => res = inl x
    | None => exists j q, res = inr (j, q) /\ beside key (elems t) j q
    end.
Proof.
  induction fuel as [|fuel IH]; intros p t key s R Hs Ht Hf.
  { destruct t as [|l a b r]; [done|]. cbn [height] in Hf. pose proof (height_nonneg l). pose proof (height_nonneg r). lia. }
  destruct t as [|l a b r]; [done|]. pose proof R as (Ea & _). exists a. cbn [lookup_loop].
  destruct (canon_goes cmp key a) as [[Ec Ec']|(i & Ec & Es & Hg)].
  { exists (inl a). rewrite (lfind_node cmp) by done. split_and!; try done.
    erewrite bind_Run by by apply node_Run. cbn [a_p]. rewrite bool_decide_true by done. cbn [negb]. by rewrite Ec. }
  destruct (fork_exists i l a b r) as (o & k & Et). rewrite Et in *.
  rewrite reps_fork in R. destruct R as (Ea' & Ro & Rk). rewrite height_fork in Hf.
  assert (forall res, match kid (side (canoncmp (cmp key a))) (fork_node i p o b k) with
    | Some t' => lookup_loop cmp fuel t' (Some a) key
    | None => mret (inr (canoncmp (cmp key a), a)) end s = Run res s ->
    lookup_loop cmp (S fuel) a p key s = Run res s) as Hrun.
  { intros res E. cbn [lookup_loop]. erewrite bind_Run by exact (node_Run _ _ _ Ea').
    rewrite bool_decide_true by by destruct i. cbn [negb]. destruct (Z.eqb_spec (canoncmp (cmp key a)) 0); [|done].
    rewrite Ec in *. by destruct i. }
  rewrite Ec, Es, kid_fork_node in Hrun. rewrite (lfind_fork cmp) by done.
  destruct k as [|k1 d bd k2].
  - exists (inr (sign i, a)). split_and!; [by rewrite fork_ptr|by apply Hrun|].
    exists (sign i), a. split; [done|]. pose proof (sides_fork key i o a b Leaf Hs Hg) as E. unfold beside.
    destruct i, E as [-> ->]; [left|right]; split; try done. exact (last_snoc a (elems o)).
  - destruct (IH (Some a) (Node k1 d bd k2) key s) as (d' & res & [= <-] & E & Hres);
      [done|by apply (sorted_fork cmp i o a b)|done|lia|].
    exists res. split_and!; [by rewrite fork_ptr|by apply Hrun|].
    destruct (lfind cmp key _); [done|]. destruct Hres as (j & q & -> & Hb).
    exists j, q. split; [done|]. by apply beside_fork.
Qed.

Lemma sides_split key l : sorted l -> lfind cmp key l = None -> l = less key l ++ more key l.
Proof.
  unfold lfind. rewrite fmap_None, list_find_None, Forall_forall. intros Hs Hn.
  induction Hs as [|a l Hl IH Ha]; [done|]. rewrite Forall_forall in Ha.
  assert (cmp key a <> 0) by (apply Hn; set_solver). unfold less, more in *. rewrite !filter_cons.
  destruct (Z.lt_ge_cases 0 (cmp key a)).
  - rewrite decide_True, decide_False by lia. cbn. f_equal. apply IH. intros x Hx. apply Hn. set_solver.
  - rewrite decide_False, decide_True by lia.
    assert (forall x, x ∈ l -> cmp key x < 0) as Hm.
    { intros x Hx. pose proof (cmp_lt_le cmp key a x). specialize (Ha x Hx). lia. }
    rewrite (filter_all (fun x => cmp key x < 0) l) by done.
    rewrite (filter_none (fun x => 0 < cmp key x) l); [done|]. intros x Hx. specialize (Hm x Hx). lia.
Qed.

(** The node equal to the key, or the nearest on the side of [neighbor]. *)
Definition lsearch (key neighbor : Z) l : option Z :=
  match lfind cmp key l with
  | Some x => Some x
  | None =>
      if neighbor =? 0 then None else if neighbor <? 0 then last (less key l) else head (more key l)
  end.

Lemma search_ok t key neighbor s :
  holds Root None t s -> sorted (elems t) ->
  _lookupavl cmp (ptr t) key neighbor s = Run (lsearch key neighbor (elems t)) s.
Proof.
  intros H Hs. pose proof (holds_depth None t s H) as Hd. pose proof H as [_ R _ _]. unfold lsearch.
  assert (t = Leaf \/ t <> Leaf) as [->|Ht] by (destruct t; [by left|by right]); [cbn; by bcase|].
  destruct (lookup_ok (depth s) None t key s R Hs Ht) as (a & res & -> & E & Hres); [lia|].
  cbn [_lookupavl]. erewrite bind_Run by done. erewrite bind_Run by exact E.
  destruct (lfind cmp key (elems t)) as [x|] eqn:El; [by rewrite Hres|].
  destruct Hres as (j & q & -> & Hb). pose proof (sides_split key (elems t) Hs El) as Es.
  destruct (Z.eqb_spec neighbor 0); [done|]. destruct Hb as [[-> Hq]|[-> Hq]]; cbn [Z.ltb Z.compare].
  - destruct (neighbor <? 0); [by rewrite Hq|].
    destruct (less key (elems t)) as [|x l _] using rev_ind; [done|]. rewrite last_snoc in Hq. injection Hq as ->.
    eapply findsuccessor_ok; [done|]. rewrite Es at 1. by rewrite <- app_assoc.
  - destruct (neighbor <? 0); [|by rewrite Hq].
    destruct (more key (elems t)) as [|x l]; [done|]. injection Hq as ->. by eapply findpredecessor_ok.
Qed.
End search.
