(* ===== verification/AvlProps.v ===== *)
(** * What the functions of [libavl] promise

    The tree as its client sees it: a sorted list of nodes. Insertion, deletion and search on
    that list, the walks along it, and the bound on the height that makes the tree balanced. *)

From stdpp Require Import sorting.
From S2P Require Import Prelude Avl AvlRep AvlOrder AvlInsert AvlDelete AvlWalk.

Implicit Types (s : Avltree) (l : list Z) (p : option Z).

(** ** The height *)

(** A balanced tree of height [h] has at least [2 ^ (h / 2) - 1] nodes. *)
Lemma balanced_height t : balanced t -> 2 ^ height t <= (len (elems t) + 1) ^ 2.
Proof.
  induction t as [|l IHl a b r IHr]; [done|]. cbn [balanced height elems]. intros (Eb & Hb & Bl & Br).
  specialize (IHl Bl). specialize (IHr Br). rewrite length_app. cbn [length].
  pose proof (height_nonneg l). pose proof (height_nonneg r).
  set (x := len (elems l)) in *. set (y := len (elems r)) in *.
  assert (forall m n u v : Z, 0 <= n -> n - 1 <= m <= n -> 0 <= u -> 0 <= v -> 2 ^ m <= (u + 1) ^ 2 -> 2 ^ n <= (v + 1) ^ 2 ->
    0 <= m -> 2 ^ (1 + n) <= (u + v + 2) ^ 2) as G.
  { intros m n u v Hn Hm Hu Hv Hmu Hnv Hm0. rewrite Z.pow_add_r by lia.
    assert (2 ^ n <= 2 * 2 ^ m) by (rewrite <- Z.pow_succ_r by lia; apply Z.pow_le_mono_r; lia).
    assert (2 ^ m <= 2 ^ n) by (apply Z.pow_le_mono_r; lia). nia. }
  replace (Z.of_nat (length (elems l) + S (length (elems r))) + 1) with (x + y + 2) by lia.
  destruct (Z.le_ge_cases (height l) (height r)).
  - rewrite Z.max_r by lia. apply (G (height l)); lia.
  - rewrite Z.max_l by lia. replace (x + y) with (y + x) by lia. apply (G (height r)); lia.
Qed.

(** ** The tree as a list *)

Section client.
Context (cmp : Z -> Z -> Z) `{!Ordering cmp}.
Abbreviation sorted := (StronglySorted (fun a b => cmp a b < 0)).

(** The tree holds the nodes [l], in order, and is balanced. *)
Definition represents s l : Prop :=
  exists t, holds Root None t s /\ balanced t /\ sorted l /\ elems t = l.

(** Nothing but the nodes [X] and the root has changed. *)
Definition nodes_only (X : list Z) s s' : Prop :=
  (forall b, b ∉ X -> t_nodes s' !! b = t_nodes s !! b) /\ dom (t_nodes s') = dom (t_nodes s) /\
  t_walks s' = t_walks s.

Lemma effect_nodes_only v X s s' : effect Root v X s s' -> nodes_only X s s'.
Proof. intros [N R W K D]. by split_and!. Qed.

Lemma insertavl_ok s l new :
  represents s l -> new ∉ l -> is_Some (t_nodes s !! new) ->
  exists s', insertavl cmp new s = Run (lfind cmp new l) s' /\ represents s' (linsert cmp new l) /\
    nodes_only (new :: l) s s' /\ t_walkers s' = t_walkers s.
Proof.
  intros (t & H & B & Hs & <-) Hn Ha. pose proof (holds_depth None t s H).
  destruct (insert_ok cmp (depth s) Root None t new None s) as (t' & d & s' & E & O & _); try done.
  exists s'. split_and!.
  - unfold insertavl. erewrite bind_Run by done. erewrite bind_Run by exact E. by destruct (lfind cmp new (elems t)).
  - exists t'. destruct O. split_and!; try done. by apply linsert_sorted.
  - eapply effect_nodes_only, O.
  - apply O.
Qed.

(** *** Walks and deletion *)

Definition walks_ok s : Prop := Forall (fun w => is_Some (t_walkers s !! w)) (t_walks s).

(** What the deletion of [a] with predecessor [p] does to a walk. *)
Definition relocate (a : Z) p (x : Avlwalk) : Avlwalk :=
  if bool_decide (w_node x = Some a) then moved_to p x else x.

Lemma moved_to_node p x : w_node (moved_to p x) = p.
Proof. unfold moved_to. by case_bool_decide. Qed.

Lemma walkdel_loop_ok a p ws : forall s, p <> Some a ->
  Forall (fun w => is_Some (t_walkers s !! w)) ws ->
  exists s', walkdel_loop a p ws s = Run tt s' /\ same_tree s s' /\
    forall w, t_walkers s' !! w = if decide (w ∈ ws) then relocate a p <$> t_walkers s !! w else t_walkers s !! w.
Proof.
  induction ws as [|w ws IH]; intros s Hp Hw; [by exists s|]. apply Forall_cons in Hw as [[x Ex] Hw].
  set (s1 := mkAvltree (t_nodes s) (t_root s) (t_walks s) (<[w := relocate a p x]> (t_walkers s))).
  assert ((if bool_decide (w_node x = Some a) then set_walker w (moved_to p x) else mret tt) s = Run tt s1) as E1.
  { unfold s1, relocate. case_bool_decide; [by destruct s|]. rewrite insert_id by done. by destruct s. }
  destruct (IH s1 Hp) as (s' & E & Hsame & Hl).
  { eapply Forall_impl; [exact Hw|]. intros w' Hw'. cbn. destruct (decide (w' = w)) as [->|]; [by rewrite lookup_insert_eq|].
    by rewrite lookup_insert_ne. }
  exists s'. split_and!.
  - cbn [walkdel_loop]. erewrite bind_Run; [|unfold walker; rewrite Ex; reflexivity]. by erewrite bind_Run by exact E1.
  - exact Hsame.
  - intros w'. rewrite Hl. unfold s1. cbn [t_walkers]. destruct (decide (w' = w)) as [->|Hne].
    + rewrite lookup_insert_eq, Ex. rewrite (decide_True (P := w ∈ w :: ws)) by set_solver.
      assert (relocate a p (relocate a p x) = relocate a p x) as Hid.
      { unfold relocate. destruct (bool_decide (w_node x = Some a)) eqn:Eb; rewrite ?moved_to_node, ?Eb; [|done].
        by rewrite bool_decide_false. }
      destruct (decide (w ∈ ws)); cbn; by rewrite ?Hid.
    + rewrite lookup_insert_ne by done. by destruct (decide (w' ∈ ws)), (decide (w' ∈ w :: ws)); set_solver.
Qed.

Lemma walkdel_ok t s l1 a l2 :
  holds Root None t s -> walks_ok s -> elems t = l1 ++ a :: l2 ->
  exists s', walkdel a s = Run tt s' /\ same_tree s s' /\
    forall w, w ∈ t_walks s -> t_walkers s' !! w = relocate a (last l1) <$> t_walkers s !! w.
Proof.
  intros H Hw E. pose proof (hold_nodup _ _ _ _ H) as Hnd. rewrite E in Hnd. apply NoDup_app in Hnd as (_ & Hd & _).
  destruct (walkdel_loop_ok a (last l1) (t_walks s) s) as (s' & E' & Hsame & Hl); [|done|].
  { intros Ha. apply (Hd a); [by apply last_Some_elem_of|set_solver]. }
  exists s'. split_and!; [|done|].
  - unfold walkdel. erewrite bind_Run by by eapply findpredecessor_ok. by erewrite bind_Run by done.
  - intros w Hin. by rewrite Hl, decide_True.
Qed.

(** The place of the deleted node. *)
Lemma lfind_place key l a : lfind cmp key l = Some a -> exists l1 l2, l = l1 ++ a :: l2 /\ cmp key a = 0.
Proof.
  unfold lfind. intros ([k a'] & (Hk & E & _)%list_find_Some & [= ->])%fmap_Some.
  exists (take k l), (drop (S k) l). split; [|done]. symmetry. by apply take_drop_middle.
Qed.

Lemma deleteavl_ok s l key :
  represents s l -> walks_ok s ->
  exists s', deleteavl cmp key s = Run (lfind cmp key l) s' /\ represents s' (ldelete cmp key l) /\
    nodes_only l s s' /\
    match lfind cmp key l with
    | None => t_walkers s' = t_walkers s
    | Some a => forall l1 l2 w, l = l1 ++ a :: l2 -> w ∈ t_walks s ->
        t_walkers s' !! w = relocate a (last l1) <$> t_walkers s !! w
    end.
Proof.
  intros (t & H & B & Hs & <-) Hw. pose proof (holds_depth None t s H).
  assert (exists s0, predeleted cmp walkdel key (elems t) s s0 /\
    match lfind cmp key (elems t) with
    | None => t_walkers s0 = t_walkers s
    | Some a => forall l1 l2 w, elems t = l1 ++ a :: l2 -> w ∈ t_walks s ->
        t_walkers s0 !! w = relocate a (last l1) <$> t_walkers s !! w
    end) as (s0 & Hp & Hwk).
  { unfold predeleted. destruct (lfind cmp key (elems t)) as [a|] eqn:El; [|by exists s].
    destruct (lfind_place _ _ _ El) as (l1 & l2 & E & _).
    destruct (walkdel_ok t s l1 a l2 H Hw E) as (s0 & E0 & Hsame & Hl). exists s0. split; [done|].
    intros l1' l2' w E' Hin. rewrite (Hl w Hin). do 2 f_equal.
    pose proof (hold_nodup _ _ _ _ H) as Hnd. rewrite E in E', Hnd.
    by destruct (place_unique a l1 l2 l1' l2') as [-> _]. }
  destruct (delete_ok cmp walkdel (depth s) Root None t key None s s0) as (t' & d & s' & E & O & _); try done.
  destruct Hp as [(En & _ & Ew) _].
  exists s'. split_and!.
  - unfold deleteavl. erewrite bind_Run by done. erewrite bind_Run by exact E. by destruct (lfind cmp key (elems t)).
  - exists t'. destruct O. split_and!; try done. by apply ldelete_sorted.
  - destruct (effect_nodes_only _ _ _ _ (out_effect _ _ _ _ _ _ _ _ _ O)) as (N & D & W).
    split_and!; [|congruence..]. intros b Hb. rewrite N by done. by rewrite En.
  - rewrite (eff_walkers _ _ _ _ _ (out_effect _ _ _ _ _ _ _ _ _ O)). exact Hwk.
Qed.

(** *** The operations *)

(** C30: [insertavl] puts the new node at its place in the order, or in the place of an equal node,
    which it returns; the tree stays balanced, and no other memory is touched. *)
Theorem insertavl_correct s l new :
  represents s l -> new ∉ l -> is_Some (t_nodes s !! new) ->
  exists s', insertavl cmp new s = Run (lfind cmp new l) s' /\ represents s' (linsert cmp new l) /\
    nodes_only (new :: l) s s' /\ t_walkers s' = t_walkers s.
Proof. apply insertavl_ok. Qed.

(** C16: [deleteavl] takes the node that is equal to the key out of the tree and returns it; the
    tree stays balanced, and a walk that was at the node goes back to its predecessor. *)
Theorem deleteavl_correct s l key :
  represents s l -> walks_ok s ->
  exists s', deleteavl cmp key s = Run (lfind cmp key l) s' /\ represents s' (ldelete cmp key l) /\
    nodes_only l s s' /\
    match lfind cmp key l with
    | None => t_walkers s' = t_walkers s
    | Some a => forall l1 l2 w, l = l1 ++ a :: l2 -> w ∈ t_walks s ->
        t_walkers s' !! w = relocate a (last l1) <$> t_walkers s !! w
    end.
Proof. apply deleteavl_ok. Qed.

Lemma searchavl_ok s l key neighbor :
  represents s l -> searchavl cmp key neighbor s = Run (lsearch cmp key neighbor l) s.
Proof.
  intros (t & H & _ & Hs & <-). unfold searchavl. erewrite bind_Run by done.
  pose proof (hold_val _ _ _ _ H) as [= ->]. by apply search_ok.
Qed.

(** [searchavl] finds the node that is equal to the key; when there is none it returns the
    nearest node that is smaller (greater) if [neighbor] is negative (positive). [lookupavl]
    is the search without a neighbour. Neither changes anything. *)
Theorem searchavl_correct s l key neighbor :
  represents s l ->
  searchavl cmp key neighbor s = Run (lsearch cmp key neighbor l) s /\
  lookupavl cmp key s = Run (lfind cmp key l) s.
Proof.
  intros H. split; [by apply searchavl_ok|]. change (lookupavl cmp key s) with (searchavl cmp key 0 s).
  rewrite (searchavl_ok s l) by done. unfold lsearch. by destruct (lfind cmp key l).
Qed.

(** C37: A search in a tree of [n] nodes looks at no more than [2 * log2 (n + 1) + 1] of them. *)
Theorem lookup_steps s l key a n :
  represents s l -> t_root s = Some a -> 2 * Z.log2 (len l + 1) < Z.of_nat n ->
  exists res, lookup_loop cmp n a None key s = Run res s.
Proof.
  intros (t & H & B & Hs & <-) Hr Hn. pose proof H as [Hv R _ _]. injection Hv as Hv. rewrite Hr in Hv.
  pose proof (balanced_height t B) as Hh. apply Z.log2_le_mono in Hh. rewrite Z.log2_pow2 in Hh by apply height_nonneg.
  rewrite Z.pow_2_r in Hh. pose proof (Z.log2_mul_above (len (elems t) + 1) (len (elems t) + 1) ltac:(lia) ltac:(lia)).
  destruct (lookup_ok cmp n None t key s R Hs) as (a' & res & Ea & E & _); [by intros ->|lia|].
  exists res. rewrite Ea in Hv. by injection Hv as ->.
Qed.

(** *** Walks *)

Definition at_walker (w : Z) (x : Avlwalk) s : Avltree :=
  mkAvltree (t_nodes s) (t_root s) (t_walks s) (<[w := x]> (t_walkers s)).

Lemma represents_same s s' l : same_tree s s' -> represents s l -> represents s' l.
Proof. intros Hsame (t & H & B & Hs & E). exists t. split_and!; try done. by eapply holds_same. Qed.

Lemma represents_at s l w x : represents s l -> represents (at_walker w x s) l.
Proof. by apply represents_same. Qed.

Lemma avlnext_first s l w x :
  represents s l -> t_walkers s !! w = Some x -> w_started x = 0 ->
  avlnext w s = Run (head l) (at_walker w (mkAvlwalk 1 (w_moved x) (head l)) s).
Proof.
  intros (t & H & _ & _ & <-) Ex E0. unfold avlnext. erewrite bind_Run; [|unfold walker; rewrite Ex; reflexivity].
  rewrite E0. cbn [Z.eqb]. erewrite bind_Run by by apply (outermost_ok false t). by destruct s, x.
Qed.

Lemma avlnext_step s l w x l1 a l2 :
  represents s l -> t_walkers s !! w = Some x -> w_started x <> 0 -> w_node x = Some a -> l = l1 ++ a :: l2 ->
  avlnext w s = Run (head l2) (at_walker w (mkAvlwalk (w_started x) (w_moved x) (head l2)) s).
Proof.
  intros (t & H & _ & _ & E) Ex E0 En El. unfold avlnext. erewrite bind_Run; [|unfold walker; rewrite Ex; reflexivity].
  destruct (Z.eqb_spec (w_started x) 0); [done|]. rewrite En, El in *.
  erewrite bind_Run by by eapply findsuccessor_ok.
  rewrite bool_decide_false; [by destruct s, x|]. intros Ha%head_Some_elem_of.
  pose proof (hold_nodup _ _ _ _ H) as Hnd. rewrite E in Hnd.
  apply NoDup_app in Hnd as (_ & _ & [Hn _]%NoDup_cons). done.
Qed.

(** The loop [while(a = avlnext(w))] of a client. *)
Fixpoint walk_all (fuel : nat) (w : Z) : avm (list Z) :=
  match fuel with
  | O => fail TooDeep
  | S fuel =>
      a ← avlnext w;
      match a with Some a => l ← walk_all fuel w; mret (a :: l) | None => mret [] end
  end.

Lemma walk_rest l2 : forall l1 a s x w,
  represents s (l1 ++ a :: l2) -> t_walkers s !! w = Some x -> w_started x <> 0 -> w_node x = Some a ->
  exists s', walk_all (S (length l2)) w s = Run l2 s' /\ same_tree s s'.
Proof.
  induction l2 as [|b l2 IH]; intros l1 a s x w H Ex E0 En; cbn [walk_all length];
    (erewrite bind_Run by by eapply avlnext_step); cbn [head].
  - by eexists.
  - set (x' := mkAvlwalk (w_started x) (w_moved x) (Some b)).
    destruct (IH (l1 ++ [a]) b (at_walker w x' s) x' w) as (s' & E & Hsame);
      [rewrite <- app_assoc; by apply represents_at|apply lookup_insert_eq|done|done|].
    cbn [walk_all length] in E. erewrite bind_Run by exact E. by exists s'.
Qed.

(** A walk visits all the nodes in order and then returns nil. *)
Theorem walk_in_order s l w x :
  represents s l -> t_walkers s !! w = Some x -> w_started x = 0 ->
  exists s', walk_all (S (length l)) w s = Run l s' /\ same_tree s s'.
Proof.
  intros H Ex E0. cbn [walk_all]. erewrite bind_Run by by eapply avlnext_first. destruct l as [|a l]; cbn [head].
  - by eexists.
  - set (x' := mkAvlwalk 1 (w_moved x) (Some a)).
    destruct (walk_rest l [] a (at_walker w x' s) x' w) as (s' & E & Hsame);
      [by apply represents_at|apply lookup_insert_eq|done|done|].
    cbn [length]. erewrite bind_Run by exact E. by exists s'.
Qed.

(** A walk at a node that stays: what is ahead of it is what is left of it. *)
Lemma ahead_stays l key l1 a l2 :
  l = l1 ++ a :: l2 -> cmp key a <> 0 -> ldelete cmp key l = ldelete cmp key l1 ++ a :: ldelete cmp key l2.
Proof. intros -> Ha. unfold ldelete. by rewrite filter_app, filter_cons_True. Qed.

(** A walk at the node that goes. *)
Lemma ahead_goes l key l1 a l2 :
  sorted l -> l = l1 ++ a :: l2 -> cmp key a = 0 -> ldelete cmp key l = l1 ++ l2 /\ ldelete cmp key l2 = l2.
Proof.
  intros Hs -> Ea. pose proof (ldelete_others cmp l1 a l2 key Hs Ea) as Hne.
  assert (ldelete cmp key l1 = l1 /\ ldelete cmp key l2 = l2) as [E1 E2] by (split; apply (ldelete_none cmp); auto).
  split; [|done]. unfold ldelete in *. rewrite filter_app, filter_cons_False by (intros ?; lia). by rewrite E1, E2.
Qed.

Lemma avlnext_relocated s l1 a l2 w x :
  represents s (l1 ++ l2) -> t_walkers s !! w = Some (relocate a (last l1) x) -> w_node x = Some a -> w_started x <> 0 ->
  exists s', avlnext w s = Run (head l2) s' /\ same_tree s s'.
Proof.
  intros H Ew En E0. unfold relocate in Ew. rewrite bool_decide_true in Ew by done.
  destruct l1 as [|q l1 _] using rev_ind; eexists; (split; [|shelve]).
  - by eapply avlnext_first.
  - rewrite last_snoc in Ew. eapply avlnext_step; [exact H|exact Ew|done|done|by rewrite <- app_assoc].
  Unshelve. all: done.
Qed.

(** C35: A walk goes on after a deletion, even of the node it is at: its next node is the first of
    those that were ahead of it and are left. *)
Theorem walk_survives_delete s l w x l1 a l2 key :
  represents s l -> walks_ok s -> w ∈ t_walks s -> t_walkers s !! w = Some x ->
  w_started x <> 0 -> w_node x = Some a -> l = l1 ++ a :: l2 ->
  exists s' s'', deleteavl cmp key s = Run (lfind cmp key l) s' /\
    avlnext w s' = Run (head (ldelete cmp key l2)) s'' /\ same_tree s' s''.
Proof.
  intros H Hw Hin Ex E0 En El. pose proof H as (t & _ & _ & Hs & _).
  destruct (deleteavl_ok s l key H Hw) as (s' & E & H' & _ & Hwk). exists s'.
  assert (cmp key a <> 0 -> t_walkers s' !! w = Some x -> exists s'',
    avlnext w s' = Run (head (ldelete cmp key l2)) s'' /\ same_tree s' s'') as Hstay.
  { intros Ha Hx. eexists. split; [|shelve]. eapply avlnext_step; [exact H'|exact Hx|done|done|by apply ahead_stays].
    Unshelve. done. }
  enough (exists s'', avlnext w s' = Run (head (ldelete cmp key l2)) s'' /\ same_tree s' s'') as (s'' & Ha & Hb)
    by by exists s''.
  destruct (lfind cmp key l) as [d|] eqn:Ef.
  - destruct (lfind_place key l d Ef) as (m1 & m2 & Em & Ed). specialize (Hwk m1 m2 w Em Hin). rewrite Ex in Hwk.
    destruct (decide (d = a)) as [->|Hne].
    + destruct (place_unique a m1 m2 l1 l2) as [-> ->]; [rewrite <- Em; by apply (sorted_nodup cmp)|congruence|].
      destruct (ahead_goes l key l1 a l2 Hs El Ed) as [E12 E2]. rewrite E12, E2 in *. by eapply avlnext_relocated.
    + apply Hstay.
      * intros Ea. apply Hne. apply (equal_unique cmp l key); try done; [rewrite Em|rewrite El]; set_solver.
      * rewrite Hwk. cbn. unfold relocate. rewrite bool_decide_false; [done|]. rewrite En. congruence.
  - apply Hstay; [|by rewrite Hwk]. intros Ea. unfold lfind in Ef. apply fmap_None, list_find_None in Ef.
    rewrite Forall_forall in Ef. apply (Ef a); [rewrite El; set_solver|done].
Qed.

(** *** Sequences of operations *)

Inductive avl_op := Insert (new : Z) | Delete (key : Z) | Search (key neighbor : Z).

Definition avl_step (o : avl_op) : avm (option Z) :=
  match o with
  | Insert new => insertavl cmp new
  | Delete key => deleteavl cmp key
  | Search key neighbor => searchavl cmp key neighbor
  end.

Fixpoint avl_run (os : list avl_op) : avm (list (option Z)) :=
  match os with
  | [] => mret []
  | o :: os => r ← avl_step o; rs ← avl_run os; mret (r :: rs)
  end.

(** The same on a sorted list; [D] are the nodes the client has, and he must not insert one
    that is in the tree. *)
Definition list_step (D : gset Z) (o : avl_op) (l : list Z) : option (option Z * list Z) :=
  match o with
  | Insert new =>
      if decide (new ∈ D /\ new ∉ l) then Some (lfind cmp new l, linsert cmp new l) else None
  | Delete key => Some (lfind cmp key l, ldelete cmp key l)
  | Search key neighbor => Some (lsearch cmp key neighbor l, l)
  end.

Fixpoint list_run (D : gset Z) (os : list avl_op) (l : list Z) : option (list (option Z) * list Z) :=
  match os with
  | [] => Some ([], l)
  | o :: os => '(r, l) ← list_step D o l; '(rs, l) ← list_run D os l; Some (r :: rs, l)
  end.

Lemma avl_step_ok o s l r l' :
  represents s l -> walks_ok s -> list_step (dom (t_nodes s)) o l = Some (r, l') ->
  exists s', avl_step o s = Run r s' /\ represents s' l' /\ walks_ok s' /\ dom (t_nodes s') = dom (t_nodes s).
Proof.
  intros H Hw. destruct o as [new|key|key neighbor]; cbn [list_step avl_step].
  - case_decide as Hd; [|done]. intros [= <- <-]. destruct Hd as [Hn Hl]. apply elem_of_dom in Hn.
    destruct (insertavl_ok s l new H Hl Hn) as (s' & E & H' & (_ & D & W) & K). exists s'. split_and!; try done.
    unfold walks_ok. by rewrite W, K.
  - intros [= <- <-]. destruct (deleteavl_ok s l key H Hw) as (s' & E & H' & (_ & D & W) & K).
    exists s'. split_and!; try done. unfold walks_ok in *. rewrite W. rewrite Forall_forall in *. intros w Hin.
    specialize (Hw w Hin). destruct (lfind cmp key l) as [a|] eqn:Ef; [|by rewrite K].
    destruct (lfind_place key l a Ef) as (l1 & l2 & El & _). rewrite (K l1 l2 w El Hin). by apply fmap_is_Some.
  - intros [= <- <-]. exists s. split_and!; try done. by apply searchavl_ok.
Qed.

(** C8: A tree is a sorted list to its client: whatever he inserts, deletes and searches, the
    results are those of the same operations on the list of its nodes. *)
Theorem avl_refines os : forall s l rs l',
  represents s l -> walks_ok s -> list_run (dom (t_nodes s)) os l = Some (rs, l') ->
  exists s', avl_run os s = Run rs s' /\ represents s' l'.
Proof.
  induction os as [|o os IH]; intros s l rs l' H Hw; cbn [list_run avl_run]; [intros [= <- <-]; by exists s|].
  destruct (list_step _ o l) as [[r l1]|] eqn:Es; [|done]. cbn [mbind option_bind].
  destruct (list_run _ os l1) as [[rs1 l2]|] eqn:Er; [|done]. intros [= <- <-].
  destruct (avl_step_ok o s l r l1 H Hw Es) as (s1 & E1 & H1 & W1 & D1). rewrite <- D1 in Er.
  destruct (IH s1 l1 rs1 l2 H1 W1 Er) as (s2 & E2 & H2). exists s2. split; [|done].
  erewrite bind_Run by exact E1. by erewrite bind_Run by exact E2.
Qed.
End client.

(** ** The theorems at work *)

(** Nodes are equal when they agree but for the last digit. *)
Definition ex_cmp (a b : Z) : Z := a / 10 - b / 10.

#[export] Instance ex_ordering : Ordering ex_cmp.
Proof. unfold ex_cmp. constructor; lia. Qed.

Definition ex_tree : tree := Node (Node Leaf 11 0 Leaf) 21 0 (Node Leaf 31 0 Leaf).

(** A tree of three nodes, two more nodes of the client, and a walk that is at [at_]. *)
Definition ex_avl (at_ : option Z) : Avltree :=
  mkAvltree {[ 11 := mkAvl (Some 21) None None 0; 21 := mkAvl None (Some 11) (Some 31) 0;
               31 := mkAvl (Some 21) None None 0; 12 := mkAvl None None None 0; 41 := mkAvl None None None 0 ]}
    (Some 21) [7] {[ 7 := mkAvlwalk (if at_ then 1 else 0) 0 at_ ]}.

Lemma ex_represents at_ : represents ex_cmp (ex_avl at_) [11; 21; 31].
Proof.
  exists ex_tree. split_and!; [|cbn; lia| |done].
  - constructor; [done|cbn; done|by_decide|done].
  - repeat constructor.
Qed.

Lemma ex_walks at_ : walks_ok (ex_avl at_).
Proof. repeat constructor. by eexists. Qed.

Lemma insertavl_correct_witness :
  exists s', insertavl ex_cmp 12 (ex_avl None) = Run (Some 11) s' /\ represents ex_cmp s' [12; 21; 31] /\
    nodes_only [12; 11; 21; 31] (ex_avl None) s' /\ t_walkers s' = t_walkers (ex_avl None).
Proof. apply (insertavl_correct ex_cmp (ex_avl None) [11; 21; 31] 12); [apply ex_represents|by_decide|by_decide]. Defined.

Lemma deleteavl_correct_witness :
  exists s', deleteavl ex_cmp 20 (ex_avl (Some 21)) = Run (Some 21) s' /\ represents ex_cmp s' [11; 31] /\
    nodes_only [11; 21; 31] (ex_avl (Some 21)) s' /\
    forall l1 l2 w, [11; 21; 31] = l1 ++ 21 :: l2 -> w ∈ [7] ->
      t_walkers s' !! w = relocate 21 (last l1) <$> t_walkers (ex_avl (Some 21)) !! w.
Proof. apply (deleteavl_correct ex_cmp (ex_avl (Some 21)) [11; 21; 31] 20); [apply ex_represents|apply ex_walks]. Defined.

Lemma searchavl_correct_witness :
  searchavl ex_cmp 25 (-1) (ex_avl None) = Run (Some 21) (ex_avl None) /\
  lookupavl ex_cmp 25 (ex_avl None) = Run (Some 21) (ex_avl None).
Proof. apply (searchavl_correct ex_cmp (ex_avl None) [11; 21; 31] 25 (-1)), ex_represents. Defined.

Lemma lookup_steps_witness : exists res, lookup_loop ex_cmp 5 21 None 45 (ex_avl None) = Run res (ex_avl None).
Proof. apply (lookup_steps ex_cmp (ex_avl None) [11; 21; 31] 45 21 5); [apply ex_represents|done|by_decide]. Defined.

Lemma walk_in_order_witness :
  exists s', walk_all 4 7 (ex_avl None) = Run [11; 21; 31] s' /\ same_tree (ex_avl None) s'.
Proof. apply (walk_in_order ex_cmp (ex_avl None) [11; 21; 31] 7 (mkAvlwalk 0 0 None)); [apply ex_represents|done|done]. Defined.

Lemma walk_survives_delete_witness :
  exists s' s'', deleteavl ex_cmp 20 (ex_avl (Some 21)) = Run (Some 21) s' /\
    avlnext 7 s' = Run (Some 31) s'' /\ same_tree s' s''.
Proof.
  apply (walk_survives_delete ex_cmp (ex_avl (Some 21)) [11; 21; 31] 7 (mkAvlwalk 1 0 (Some 21)) [11] 21 [31] 20);
    [apply ex_represents|apply ex_walks|by_decide|done..].
Defined.

Lemma avl_refines_witness :
  exists s', avl_run ex_cmp [Insert 41; Delete 20; Insert 12; Search 25 1] (ex_avl None) =
      Run [None; Some 21; Some 11; Some 31] s' /\ represents ex_cmp s' [12; 31; 41].
Proof.
  apply (avl_refines ex_cmp [Insert 41; Delete 20; Insert 12; Search 25 1] (ex_avl None) [11; 21; 31]);
    [apply ex_represents|apply ex_walks|vm_compute; reflexivity].
Defined.

(** ** Walks and changes of the tree *)

Definition result {A} (r : avres A) : A + halted := match r with Run a _ => inl a | Halt why => inr why end.

(** A walk that a deletion moved back keeps the mark: after a step forward [avlprev] returns
    the node it is at and not the one before. *)
Theorem avlprev_repeats :
  result ((_ ← deleteavl ex_cmp 20; a ← avlnext 7; b ← avlprev 7; mret (a, b)) (ex_avl (Some 21)))
  = inl (Some 31, Some 31).
Proof. vm_compute. reflexivity. Qed.

(** A walk at a node that an insertion replaces stays at the old node, and leads to nodes that
    are no longer in the tree. *)
Theorem insert_strands_walk :
  result ((o ← insertavl ex_cmp 12; d ← deleteavl ex_cmp 20; a ← avlnext 7; b ← lookupavl ex_cmp 21;
           mret (o, d, a, b)) (ex_avl (Some 11)))
  = inl (Some 11, Some 21, Some 21, None).
Proof. vm_compute. reflexivity. Qed.

(** Past the end of the nodes the next step of a walk aborts the process. *)
Theorem avlnext_past_end :
  result ((a ← avlnext 7; b ← avlnext 7; mret (a, b)) (ex_avl (Some 31))) = inr Aborts.
Proof. vm_compute. reflexivity. Qed.
