(* ===== verification/Bio.v ===== *)
(** * Buffered input and output: [libbio]

    A buffer [Biobuf] reads or writes one open file through an array of bytes. While reading,
    the array ends with the last bytes that came from the file and [icount] is the negative
    number of those not yet consumed; while writing it starts with the bytes not yet written
    and [ocount] is the negative room left. Pointers into the array are offsets. *)

From S2P Require Import Prelude Utf.

#[local] Set Primitive Projections.

(** ** [bio.h] *)

Definition Bungetsize : Z := 4.
Definition Bmagic : Z := 0x314159.
Definition Beof : Z := -1.
Definition Bbad : Z := -2.

Inductive bstate := Binactive | Bractive | Bwactive | Bracteof.

#[global] Instance bstate_eq_dec : EqDecision bstate.
Proof. solve_decision. Defined.

Record Biobuf := mkBiobuf {
  icount : Z; ocount : Z; rdline : Z; runesize : Z; state : bstate; fid : Z; flag : Z;
  offset : Z; bsize : Z; bbuf : Z; ebuf : Z; gbuf : Z; mem : bytes }.

(** The system calls on a descriptor: [read], the bytes it delivers or [None] for -1; [write]
    and [lseek], their results; [close]. *)
Class Sys (W : Type) := {
  sys_read : W -> Z -> Z -> option bytes * W;
  sys_write : W -> Z -> bytes -> Z * W;
  sys_seek : W -> Z -> Z -> Z -> Z * W;
  sys_close : W -> Z -> Z * W }.

(** [memmove(dst, src, n)] within an array. *)
Definition memmove (m : bytes) (dst src n : Z) : option bytes := bs ← load m src n; store m dst bs.

(** [memchr], as an offset. *)
Fixpoint memchr (bs : bytes) (c : Z) : option Z :=
  match bs with
  | [] => None
  | x :: bs => if x =? u8 c then Some 0 else (fun i => i + 1) <$> memchr bs c
  end.

(** ** [binit.c] *)

Definition OREAD : Z := 0.
Definition OWRITE : Z := 1.
Definition OTRUNC : Z := 16.
Definition OCEXEC : Z := 32.
Definition ORCLOSE : Z := 64.

(** The table of the buffers that are flushed at exit. *)
Definition MAXBUFS : nat := 20.

Definition deinstall (wbufs : list (option Z)) (bp : Z) : list (option Z) :=
  (fun o => if decide (o = Some bp) then None else o) <$> wbufs.

Fixpoint install_loop (wbufs : list (option Z)) (bp : Z) : list (option Z) :=
  match wbufs with
  | [] => []
  | None :: l => Some bp :: l
  | o :: l => o :: install_loop l bp
  end.

Definition install (wbufs : list (option Z)) (bp : Z) : list (option Z) :=
  install_loop (deinstall wbufs bp) bp.

(** The mode without the flags. *)
Definition open_mode (mode : Z) : Z := mode .& Z.lnot ((OCEXEC .| ORCLOSE) .| OTRUNC).

(** The buffer [b] that [Binits] sets up on the array [p] of [size] bytes. *)
Definition Binits_buf (b : Biobuf) (f mode : Z) (p : bytes) (size : Z) : Z * Biobuf :=
  let start := Bungetsize in
  let size := size - Bungetsize in
  let md := open_mode mode in
  let init b :=
    b <| mem := p |> <| bbuf := start |> <| ebuf := start + size |> <| bsize := size |>
      <| icount := 0 |> <| gbuf := start + size |> <| fid := f |> <| flag := 0 |>
      <| rdline := 0 |> <| offset := 0 |> <| runesize := 0 |> in
  if md =? OREAD then (0, init (b <| state := Bractive |> <| ocount := 0 |>))
  else if md =? OWRITE then (0, init (b <| state := Bwactive |> <| ocount := - size |>))
  else (Beof, b).

Definition Binits (wbufs : list (option Z)) (bp : Z) (b : Biobuf) (f mode : Z) (p : bytes) (size : Z)
    : Z * list (option Z) * Biobuf :=
  let '(r, b) := Binits_buf b f mode p size in
  (r, if open_mode mode =? OWRITE then install wbufs bp else wbufs, b).

Definition Bsize : Z := 8 * 1024.

Definition Binit (wbufs : list (option Z)) (bp : Z) (b : Biobuf) (f mode : Z) (p : bytes)
    : Z * list (option Z) * Biobuf :=
  Binits wbufs bp b f mode p (Bungetsize + Bsize).

(** [Bfdopen], at the address [bp] that [malloc] returns and with the memory [b] and [p] there. *)
Definition Bfdopen (wbufs : list (option Z)) (bp : Z) (b : Biobuf) (f mode : Z) (p : bytes)
    : list (option Z) * Biobuf :=
  let '(_, wbufs, b) := Binits wbufs bp b f mode p (Bungetsize + Bsize) in
  (wbufs, b <| flag := Bmagic |>).

Section operations.
Context `{Sys W}.
Implicit Types (b : Biobuf) (w : W).

(** ** [boffset.c], [bbuffered.c], [bfildes.c] *)

Definition Boffset b : Z :=
  match state b with
  | Bracteof | Bractive => offset b + icount b
  | Bwactive => offset b + (bsize b + ocount b)
  | Binactive => Beof
  end.

Definition Bbuffered b : Z :=
  match state b with
  | Bracteof | Bractive => - icount b
  | Bwactive => bsize b + ocount b
  | Binactive => 0
  end.

Definition Bfildes b : Z := fid b.

(** ** [bgetc.c] *)

(** The next buffer; the result tells whether there are bytes in it. *)
Definition Bgetc_fill b w : option (bool * Biobuf * W) :=
  m ← memmove (mem b) (bbuf b - Bungetsize) (ebuf b - Bungetsize) Bungetsize;
  let b := b <| mem := m |> in
  match sys_read w (fid b) (bsize b) with
  | (None, w) => Some (false, b <| gbuf := bbuf b |> <| state := Binactive |>, w)
  | (Some [], w) => Some (false, b <| gbuf := bbuf b |> <| state := Bracteof |>, w)
  | (Some bs, w) =>
      let i := len bs in
      m ← store (mem b) (bbuf b) bs;
      let b := b <| mem := m |> <| gbuf := bbuf b |> in
      b ← (if i <? bsize b then
             m ← memmove (mem b) (ebuf b - i - Bungetsize) (bbuf b - Bungetsize) (i + Bungetsize);
             Some (b <| mem := m |> <| gbuf := ebuf b - i |>)
           else Some b);
      Some (true, b <| icount := - i |> <| offset := offset b + i |>, w)
  end.

(** The buffer that has been filled is not empty, so that two turns are enough. *)
Fixpoint Bgetc_loop (fuel : nat) b w : option (Z * Biobuf * W) :=
  match fuel with
  | O => None
  | S fuel =>
      let i := icount b in
      if negb (i =? 0) then
        c ← load1 (mem b) (ebuf b + i); Some (c, b <| icount := i + 1 |>, w)
      else if decide (state b = Bractive) then
        '(go, b, w) ← Bgetc_fill b w;
        if (go : bool) then Bgetc_loop fuel b w else Some (Beof, b, w)
      else Some (Beof, if decide (state b = Bracteof) then b <| state := Bractive |> else b, w)
  end.

Definition Bgetc b w : option (Z * Biobuf * W) := Bgetc_loop 2 b w.

Definition Bungetc b : Z * Biobuf :=
  let b := if decide (state b = Bracteof) then b <| state := Bractive |> else b in
  if decide (state b = Bractive) then (1, b <| icount := icount b - 1 |>) else (Beof, b).

(** ** [bgetrune.c] *)

(** The loop that reads until there is a full rune; [str] holds the bytes read so far. *)
Fixpoint Bgetrune_loop (fuel : nat) (str : bytes) b w : option (Z * Biobuf * W) :=
  match fuel with
  | O => None
  | S fuel =>
      '(c, b, w) ← Bgetc b w;
      if c <? 0 then Some (c, b, w)
      else
        let str := str ++ [c] in
        let i := len str in
        full ← fullrune str i;
        if (full : bool) then
          '(rune, n) ← chartorune str;
          let b := b <| runesize := n |> in
          Some (rune, Nat.iter (Z.to_nat (i - n)) (fun b => snd (Bungetc b)) b, w)
        else Bgetrune_loop fuel str b w
  end.

(** A rune has at most [UTFmax] bytes. *)
Definition Bgetrune b w : option (Z * Biobuf * W) :=
  '(c, b, w) ← Bgetc b w;
  if c <? Runeself then Some (c, b <| runesize := 1 |>, w)
  else Bgetrune_loop (Z.to_nat UTFmax) [c] b w.

Definition Bungetrune b : Z * Biobuf :=
  let b := if decide (state b = Bracteof) then b <| state := Bractive |> else b in
  if decide (state b = Bractive) then
    (1, b <| icount := icount b - runesize b |> <| runesize := 0 |>)
  else (Beof, b).

(** ** [bread.c] *)

(** The loop with [c] bytes to go, [ic] for [icount] and [p] the bytes delivered. Every second
    turn delivers a byte. *)
Fixpoint Bread_loop (fuel : nat) b w (c ic : Z) (p : bytes) : option (bytes * Biobuf * W) :=
  match fuel with
  | O => None
  | S fuel =>
      if 0 <? c then
        let n := if c <? - ic then c else - ic in
        if n =? 0 then
          if decide (state b = Bractive) then
            match sys_read w (fid b) (bsize b) with
            | (None, w) => Some (p, b <| state := Binactive |> <| icount := ic |>, w)
            | (Some [], w) => Some (p, b <| state := Bracteof |> <| icount := ic |>, w)
            | (Some bs, w) =>
                let i := len bs in
                m ← store (mem b) (bbuf b) bs;
                let b := b <| mem := m |> <| gbuf := bbuf b |> <| offset := offset b + i |> in
                b ← (if i <? bsize b then
                       m ← memmove (mem b) (ebuf b - i) (bbuf b) i;
                       Some (b <| mem := m |> <| gbuf := ebuf b - i |>)
                     else Some b);
                Bread_loop fuel b w c (- i) p
            end
          else Some (p, b <| icount := ic |>, w)
        else
          bs ← load (mem b) (ebuf b + ic) n;
          Bread_loop fuel b w (c - n) (ic + n) (p ++ bs)
      else Some (p, b <| icount := ic |>, w)
  end.

(** The bytes that [Bread] stores; it returns their number. *)
Definition Bread b w (count : Z) : option (bytes * Biobuf * W) :=
  Bread_loop (S (2 * Z.to_nat count)) b w count (icount b) [].

(** ** [brdline.c] *)

(** The loop that appends to the [i] bytes at the start of the buffer. *)
Fixpoint Brdline_loop (fuel : nat) b w (delim i : Z) : option (option Z * Biobuf * W) :=
  match fuel with
  | O => None
  | S fuel =>
      if i <? bsize b then
        match sys_read w (fid b) (bsize b - i) with
        | (None, w) | (Some [], w) =>
            m ← memmove (mem b) (ebuf b - i) (bbuf b) i;
            Some (None, b <| mem := m |> <| rdline := i |> <| icount := - i |> <| gbuf := ebuf b - i |>, w)
        | (Some bs, w) =>
            let j := len bs in
            m ← store (mem b) (bbuf b + i) bs;
            let b := b <| mem := m |> <| offset := offset b + j |> in
            match memchr bs delim with
            | Some ep =>
                let n := i + j in
                let ip := ebuf b - n in
                b ← (if n <? bsize b then
                       m ← memmove (mem b) ip (bbuf b) n; Some (b <| mem := m |> <| gbuf := ip |>)
                     else Some b);
                let k := i + ep + 1 in
                Some (Some ip, b <| rdline := k |> <| icount := k - n |>, w)
            | None => Brdline_loop fuel b w delim (i + j)
            end
        end
      else Some (None, b <| rdline := bsize b |> <| icount := - bsize b |> <| gbuf := bbuf b |>, w)
  end.

(** The line is the [rdline] bytes at the pointer returned. *)
Definition Brdline b w (delim : Z) : option (option Z * Biobuf * W) :=
  let i := - icount b in
  if (i =? 0) && negb (bool_decide (state b = Bractive)) then
    let b := if decide (state b = Bracteof) then b <| state := Bractive |> else b in
    Some (None, b <| rdline := 0 |> <| gbuf := ebuf b |>, w)
  else
    let ip := ebuf b - i in
    bs ← load (mem b) ip i;
    match memchr bs delim with
    | Some ep => Some (Some ip, b <| rdline := ep + 1 |> <| icount := icount b + (ep + 1) |>, w)
    | None =>
        m ← (if i <? bsize b then memmove (mem b) (bbuf b) ip i else Some (mem b));
        let b := b <| mem := m |> <| gbuf := bbuf b |> in
        Brdline_loop (S (Z.to_nat (bsize b))) b w delim i
    end.

Definition Blinelen b : Z := rdline b.

(** ** [brdstr.c] *)

(** [badd] appends to the [n] bytes of the string [p]; the result is the string up to its NUL
    and its new length. Bytes are compared as C's (signed) [char]. *)
Definition badd (p : option bytes) (n : Z) (data : bytes) (delim : Z) (nulldelim : bool) : option bytes * Z :=
  let s := take (Z.to_nat n) (default [] p) ++ data in
  let s := match last s with
           | Some c => if nulldelim && (s8 c =? delim) then removelast s else s
           | None => s
           end in
  (Some (s ++ [0]), len s).

(** What follows when the delimiter is at offset [ep] of the [i] bytes in the buffer. *)
Definition Brdstr_found b w (delim : Z) (nulldelim : bool) (i ep : Z) (p : option bytes)
    : option (option bytes * Biobuf * W) :=
  let ip := ebuf b - i in
  b ← (if i <? bsize b then
         m ← memmove (mem b) ip (bbuf b) i; Some (b <| mem := m |> <| gbuf := ip |>)
       else Some b);
  let j := ep + 1 in
  data ← load (mem b) ip j;
  let '(p, n) := badd p (rdline b) data delim nulldelim in
  Some (p, b <| icount := j - i |> <| rdline := n |>, w).

(** Both loops, with [i] bytes in the buffer and [p] the string so far. *)
Fixpoint Brdstr_loop (fuel : nat) b w (delim : Z) (nulldelim : bool) (i : Z) (p : option bytes)
    : option (option bytes * Biobuf * W) :=
  match fuel with
  | O => None
  | S fuel =>
      if i <? bsize b then
        match sys_read w (fid b) (bsize b - i) with
        | (None, w) | (Some [], w) =>
            if i =? 0 then Some (p, b, w)
            else
              m ← store (mem b) (bbuf b + i) [0];
              Brdstr_found (b <| mem := m |>) w 0 true (i + 1) i p
        | (Some bs, w) =>
            m ← store (mem b) (bbuf b + i) bs;
            let b := b <| mem := m |> <| offset := offset b + len bs |> in
            match memchr bs delim with
            | Some ep => Brdstr_found b w delim nulldelim (i + len bs) (i + ep) p
            | None => Brdstr_loop fuel b w delim nulldelim (i + len bs) p
            end
        end
      else
        data ← load (mem b) (bbuf b) (bsize b);
        let '(p, n) := badd p (rdline b) data 0 false in
        Brdstr_loop fuel (b <| rdline := n |> <| icount := 0 |> <| gbuf := ebuf b |>) w delim nulldelim 0 p
  end.

Definition Brdstr (fuel : nat) b w (delim : Z) (nulldelim : bool) : option (option bytes * Biobuf * W) :=
  let i := - icount b in
  let b := b <| rdline := 0 |> in
  if (i =? 0) && negb (bool_decide (state b = Bractive)) then
    let b := if decide (state b = Bracteof) then b <| state := Bractive |> else b in
    Some (None, b <| gbuf := ebuf b |>, w)
  else
    let ip := ebuf b - i in
    bs ← load (mem b) ip i;
    match memchr bs delim with
    | Some ep =>
        let j := ep + 1 in
        let b := b <| icount := icount b + j |> in
        data ← load (mem b) ip j;
        let '(p, n) := badd None (rdline b) data delim nulldelim in
        Some (p, b <| rdline := n |>, w)
    | None =>
        m ← (if i <? bsize b then memmove (mem b) (bbuf b) ip i else Some (mem b));
        Brdstr_loop fuel (b <| mem := m |> <| gbuf := bbuf b |>) w delim nulldelim i None
    end.

(** ** [bflush.c], [bputc.c], [bwrite.c], [bputrune.c] *)

Definition Bflush b w : option (Z * Biobuf * W) :=
  match state b with
  | Bwactive =>
      let n := bsize b + ocount b in
      if n =? 0 then Some (0, b, w)
      else
        bs ← load (mem b) (bbuf b) n;
        let '(c, w) := sys_write w (fid b) bs in
        if n =? c then Some (0, b <| offset := offset b + n |> <| ocount := - bsize b |>, w)
        else Some (Beof, b <| state := Binactive |> <| ocount := 0 |>, w)
  | Bracteof | Bractive => Some (0, b <| state := Bractive |> <| icount := 0 |> <| gbuf := ebuf b |>, w)
  | Binactive => Some (Beof, b, w)
  end.

(** A flushed buffer has room, so that two turns are enough when it has any size. *)
Fixpoint Bputc_loop (fuel : nat) b w (c : Z) : option (Z * Biobuf * W) :=
  match fuel with
  | O => None
  | S fuel =>
      let i := ocount b in
      if negb (i =? 0) then
        m ← store (mem b) (ebuf b + i) [u8 c]; Some (0, b <| mem := m |> <| ocount := i + 1 |>, w)
      else
        '(r, b, w) ← Bflush b w;
        if r =? Beof then Some (Beof, b, w) else Bputc_loop fuel b w c
  end.

Definition Bputc b w (c : Z) : option (Z * Biobuf * W) := Bputc_loop 2 b w c.

(** The loop with the bytes [p] to go and [oc] for [ocount]. *)
Fixpoint Bwrite_loop (fuel : nat) b w (p : bytes) (oc count : Z) : option (Z * Biobuf * W) :=
  match fuel with
  | O => None
  | S fuel =>
      let c := len p in
      if 0 <? c then
        let n := if c <? - oc then c else - oc in
        if n =? 0 then
          if decide (state b = Bwactive) then
            bs ← load (mem b) (bbuf b) (bsize b);
            let '(i, w) := sys_write w (fid b) bs in
            if i =? bsize b then
              Bwrite_loop fuel (b <| offset := offset b + i |>) w p (- bsize b) count
            else Some (Beof, b <| state := Binactive |>, w)
          else Some (Beof, b, w)
        else
          m ← store (mem b) (ebuf b + oc) (take (Z.to_nat n) p);
          Bwrite_loop fuel (b <| mem := m |>) w (drop (Z.to_nat n) p) (oc + n) count
      else Some (count, b <| ocount := oc |>, w)
  end.

Definition Bwrite b w (p : bytes) : option (Z * Biobuf * W) :=
  Bwrite_loop (S (2 * length p)) b w p (ocount b) (len p).

(** [Rune] is an [unsigned int]. *)
Definition Bputrune b w (c : Z) : option (Z * Biobuf * W) :=
  let rune := u32 c in
  if rune <? Runeself then
    '(_, b, w) ← Bputc b w rune; Some (1, b, w)
  else
    '(n, str) ← runetochar (replicate (Z.to_nat UTFmax) 0) rune;
    if n =? 0 then Some (Bbad, b, w)
    else
      '(r, b, w) ← Bwrite b w (take (Z.to_nat n) str);
      Some (if negb (r =? n) then Beof else n, b, w).

(** ** [bseek.c] *)

Definition Bseek b w (off base : Z) : option (Z * Biobuf * W) :=
  match state b with
  | Binactive => Some (Beof, b, w)
  | Bwactive =>
      '(_, b, w) ← Bflush b w;
      let '(n, w) := sys_seek w (fid b) off base in
      Some (n, b <| offset := n |>, w)
  | Bracteof | Bractive =>
      let b := if decide (state b = Bracteof)
               then b <| state := Bractive |> <| icount := 0 |> <| gbuf := ebuf b |> else b in
      let '(n, base) := if base =? 1 then (off + Boffset b, 0) else (off, base) in
      let d := n - Boffset b in
      let bufsz := ebuf b - gbuf b in
      let within := (base =? 0) && (- bufsz <=? d) && (d <=? bufsz) in
      let b := if within then b <| icount := icount b + d |> else b in
      if within && (if 0 <=? d then icount b <=? 0 else - icount b <=? ebuf b - gbuf b)
      then Some (n, b, w)
      else
        let '(n, w) := sys_seek w (fid b) n base in
        Some (n, b <| icount := 0 |> <| gbuf := ebuf b |> <| offset := n |>, w)
  end.

(** [Bterm]: the result, the table of buffers, and the buffer unless it is freed. *)
Definition Bterm (wbufs : list (option Z)) (bp : Z) b w : option (Z * list (option Z) * option Biobuf * W) :=
  let wbufs := deinstall wbufs bp in
  '(ret, b, w) ← Bflush b w;
  if flag b =? Bmagic then
    let '(r, w) := sys_close w (fid b) in
    Some (if r <? 0 then -1 else ret, wbufs, None, w)
  else Some (ret, wbufs, Some b, w).

(** [batexit], on the buffers [bufs] by address. *)
Fixpoint batexit (wbufs : list (option Z)) (bufs : gmap Z Biobuf) w : option (list (option Z) * gmap Z Biobuf * W) :=
  match wbufs with
  | [] => Some ([], bufs, w)
  | None :: l => '(l, bufs, w) ← batexit l bufs w; Some (None :: l, bufs, w)
  | Some bp :: l =>
      b ← bufs !! bp;
      '(_, b, w) ← Bflush b w;
      '(l, bufs, w) ← batexit l (<[bp := b]> bufs) w;
      Some (None :: l, bufs, w)
  end.
End operations.

(** ** An open file *)

(** The [n] bytes at [p], or as many as there are. *)
Definition sub {A} (l : list A) (p n : Z) : list A := take (Z.to_nat n) (drop (Z.to_nat p) l).

(** What the system promises for reading from the descriptor [fd]: the file has contents and a
    position; [read] delivers the bytes at the position, at least one unless the position is at
    the end; [lseek] sets the position. *)
Class Readable (W : Type) `{Sys W} (fd : Z) := {
  contents : W -> bytes;
  pos : W -> Z;
  pos_nonneg w : 0 <= pos w;
  sys_read_spec w n : 0 < n ->
    exists bs w', sys_read w fd n = (Some bs, w') /\ len bs <= n /\ contents w' = contents w /\
      pos w' = pos w + len bs /\ sub (contents w) (pos w) (len bs) = bs /\
      (bs = [] -> len (contents w) <= pos w);
  sys_seek_spec w n base : base = 0 \/ base = 2 ->
    let n' := if base =? 0 then n else len (contents w) + n in
    0 <= n' -> exists w', sys_seek w fd n base = (n', w') /\ contents w' = contents w /\ pos w' = n' }.

(** The contents after [write] at [p]; a gap is filled with zeros. *)
Definition overwrite (F : bytes) (p : Z) (bs : bytes) : bytes :=
  match bs with
  | [] => F
  | _ => take (Z.to_nat p) F ++ replicate (Z.to_nat p - length F) 0 ++ bs ++ drop (Z.to_nat p + length bs) F
  end.

(** The same for writing: all bytes are written. *)
Class Writable (W : Type) `{Readable W fd} := {
  sys_write_spec w bs :
    exists w', sys_write w fd bs = (len bs, w') /\ contents w' = overwrite (contents w) (pos w) bs /\
      pos w' = pos w + len bs }.

(** ** A file whose reads deliver at most [f_chunk] bytes *)

Record memfile := mkMemfile { f_contents : bytes; f_pos : nat; f_chunk : nat }.

#[export] Instance memfile_sys : Sys memfile := {|
  sys_read w fd n :=
    let bs := take (S (f_chunk w)) (sub (f_contents w) (Z.of_nat (f_pos w)) n) in
    (Some bs, w <| f_pos := (f_pos w + length bs)%nat |>);
  sys_write w fd bs :=
    (len bs, w <| f_contents := overwrite (f_contents w) (Z.of_nat (f_pos w)) bs |>
               <| f_pos := (f_pos w + length bs)%nat |>);
  sys_seek w fd n base :=
    let n := if base =? 0 then n else if base =? 1 then Z.of_nat (f_pos w) + n else len (f_contents w) + n in
    if n <? 0 then (-1, w) else (n, w <| f_pos := Z.to_nat n |>);
  sys_close w fd := (0, w) |}.

#[export] Instance memfile_readable fd : Readable memfile fd.
Proof.
  refine {| contents := f_contents; pos w := Z.of_nat (f_pos w) |}; intros [F p c].
  - cbn. lia.
  - intros n Hn. eexists _, _. split; [reflexivity|]. cbn -[take sub Z.of_nat Nat.add].
    set (bs := take _ _).
    assert (length bs = Nat.min (S c) (Nat.min (Z.to_nat n) (length F - p))) as L.
    { unfold bs, sub. rewrite !length_take, length_drop, Nat2Z.id. done. }
    split_and!; [lia|done|lia| |].
    + unfold sub. rewrite !Nat2Z.id. rewrite L. unfold bs, sub. rewrite Nat2Z.id, take_take.
      destruct (Nat.le_gt_cases (Nat.min (S c) (Z.to_nat n)) (length F - p)).
      * f_equal. lia.
      * rewrite !take_ge; [done|rewrite length_drop; lia..].
    + intros E. rewrite E in L. cbn [length] in L. lia.
  - cbn -[Z.of_nat]. intros n base Hb. set (n' := if base =? 0 then n else len F + n). intros Hn'.
    exists (mkMemfile F (Z.to_nat n') c). split_and!; [|done|cbn -[Z.of_nat]; lia].
    replace (if base =? 0 then n else _) with n' by (unfold n'; by destruct Hb as [-> | ->]).
    by destruct (Z.ltb_spec n' 0); [lia|].
Defined.

#[export] Instance memfile_writable fd : Writable memfile (fd := fd).
Proof. constructor. intros [F p c] bs. eexists. split; [reflexivity|]. split; [done|]. cbn -[Z.of_nat]. lia. Qed.
