(* ===== verification/BioRead.v ===== *)
(** * Reading through a buffer

    The end of the buffer mirrors the file just before the position of the descriptor: the
    operations of [libbio] that read deliver the file from the position [p] on, in whatever
    pieces the system hands it out. *)

From S2P Require Import Prelude Utf UtfString Bio.

(** ** Pieces of lists *)

Section pieces.
Context {A : Type}.
Implicit Types (l m bs : list A) (p n : Z).

Lemma sub_nil l p : sub l p 0 = [].
Proof. done. Qed.

Lemma sub_length l p n : 0 <= p -> 0 <= n -> p + n <= len l -> len (sub l p n) = n.
Proof. intros. unfold sub. rewrite length_take, length_drop. lia. Qed.

Lemma sub_plus l p n k : 0 <= p -> 0 <= n -> 0 <= k -> sub l p (n + k) = sub l p n ++ sub l (p + n) k.
Proof.
  intros. unfold sub. rewrite !Z2Nat.inj_add, <- drop_drop by lia.
  rewrite <- (take_drop (Z.to_nat n) (drop (Z.to_nat p) l)) at 1.
  destruct (Nat.le_gt_cases (Z.to_nat n) (length (drop (Z.to_nat p) l))).
  - rewrite take_app_add'; [done|]. rewrite length_take. lia.
  - rewrite !(drop_ge (drop _ _)), take_nil, !app_nil_r, take_take by lia. f_equal. lia.
Qed.

Lemma sub_sub l p n a k : 0 <= p -> 0 <= a -> 0 <= k -> a + k <= n -> sub (sub l p n) a k = sub l (p + a) k.
Proof.
  intros. unfold sub. rewrite take_drop_commute, take_take.
  replace (Nat.min (Z.to_nat a + Z.to_nat k) (Z.to_nat n)) with (Z.to_nat a + Z.to_nat k)%nat by lia.
  rewrite <- take_drop_commute, drop_drop. do 2 f_equal. lia.
Qed.

Lemma load_sub m p n : 0 <= p -> 0 <= n -> p + n <= len m -> load m p n = Some (sub m p n).
Proof.
  intros. unfold load. replace (_ && _) with true; [done|]. symmetry. rewrite !andb_true_iff, !Z.leb_le. lia.
Qed.

Lemma sub_app_exact (a b c : list A) p n : len a = p -> len b = n -> sub (a ++ b ++ c) p n = b.
Proof. intros <- <-. unfold sub. rewrite !Nat2Z.id, drop_app_length, take_app_length. done. Qed.

Lemma load1_sub m p x : 0 <= p -> load1 m p = Some x <-> sub m p 1 = [x].
Proof.
  intros Hp. unfold load1, sub. destruct (Z.leb_spec 0 p); [|lia]. change (Z.to_nat 1) with 1%nat.
  replace (m !! Z.to_nat p) with (drop (Z.to_nat p) m !! 0%nat) by (by rewrite lookup_drop, Nat.add_0_r).
  destruct (drop _ m) as [|y l]; cbn; [by split|].
  split; by intros [= ->].
Qed.

(** A store changes the bytes stored and no others. *)
Lemma store_sub m p bs :
  0 <= p -> p + len bs <= len m ->
  exists m', store m p bs = Some m' /\ len m' = len m /\ sub m' p (len bs) = bs /\
    (forall q n, 0 <= q -> 0 <= n -> q + n <= p \/ p + len bs <= q -> sub m' q n = sub m q n).
Proof.
  intros Hp Hl. destruct (store_Some m p bs Hp Hl) as (m' & E & L). exists m'.
  destruct (store_inv _ _ _ _ E) as (pre & old & post & -> & -> & -> & Lo).
  split_and!; [done|by rewrite L|by apply sub_app_exact|]. intros q n Hq Hn Hd.
  unfold sub. destruct Hd as [Hd|Hd].
  - rewrite !(drop_app_le pre) by lia. rewrite !(take_app_le (drop _ pre)) by (rewrite length_drop; lia). done.
  - rewrite !(drop_app_ge pre), !drop_app_ge by lia. by rewrite Lo.
Qed.
End pieces.

Lemma memmove_sub m d s n :
  0 <= d -> 0 <= s -> 0 <= n -> d + n <= len m -> s + n <= len m ->
  exists m', memmove m d s n = Some m' /\ len m' = len m /\ sub m' d n = sub m s n /\
    (forall q k, 0 <= q -> 0 <= k -> q + k <= d \/ d + n <= q -> sub m' q k = sub m q k).
Proof.
  intros Hd Hs Hn Hdl Hsl. unfold memmove. rewrite load_sub by done. cbn [mbind option_bind].
  pose proof (sub_length m s n Hs Hn Hsl) as L.
  destruct (store_sub m d (sub m s n) Hd ltac:(lia)) as (m' & E & L' & Es & Ho). rewrite L in *. by exists m'.
Qed.

Lemma memchr_app x y c :
  memchr (x ++ y) c = match memchr x c with Some j => Some j | None => (fun j => len x + j) <$> memchr y c end.
Proof.
  induction x as [|a x IH]; cbn [memchr app length].
  - by destruct (memchr y c).
  - destruct (a =? u8 c); [done|]. rewrite IH. destruct (memchr x c); [done|]. destruct (memchr y c); [|done].
    cbn. f_equal. lia.
Qed.

Lemma memchr_range x c j : memchr x c = Some j -> 0 <= j < len x.
Proof.
  revert j. induction x as [|a x IH]; intros j; cbn [memchr length]; [done|].
  destruct (a =? u8 c); [intros [= <-]; lia|]. destruct (memchr x c) as [k|]; [|done].
  cbn. intros [= <-]. specialize (IH k eq_refl). lia.
Qed.

(** The fields of an updated buffer. *)
Ltac fields :=
  unfold upd in *; cbn [icount ocount rdline runesize state fid flag offset bsize bbuf ebuf gbuf mem] in *.

(** ** What a buffer that reads knows of the file *)

(** The last [k] bytes of the array [m] of [e] bytes are those of the file before offset [o]. *)
Definition known (m : bytes) (e o : Z) (F : bytes) (k : Z) : Prop :=
  0 <= k <= o /\ k <= e /\ (0 < k -> o <= len F) /\ sub m (e - k) k = sub F (o - k) k.

Lemma known_less m e o F k j : known m e o F k -> 0 <= j <= k -> known m e o F j.
Proof.
  intros (H1 & H2 & H3 & E) Hj. split_and!; [lia..|].
  replace (e - j) with (e - k + (k - j)) by lia. replace (o - j) with (o - k + (k - j)) by lia.
  rewrite <- (sub_sub m (e - k) k), <- (sub_sub F (o - k) k) by lia. by rewrite E.
Qed.

Lemma known_0 m e o F : 0 <= o -> 0 <= e -> known m e o F 0.
Proof. intros. split_and!; [lia..|done]. Qed.

(** A change of the array before the known bytes. *)
Lemma known_frame m m' e o F k :
  known m e o F k -> sub m' (e - k) k = sub m (e - k) k -> known m' e o F k.
Proof. intros (H1 & H2 & H3 & E) Hm. split_and!; try assumption; [lia..|]. by rewrite Hm. Qed.

(** Bytes [bs] that come from the file are known once they follow known ones at the end. *)
Lemma known_filled m m' e o F v bs :
  known m e o F v -> sub F o (len bs) = bs -> len bs + v <= e -> bs <> [] ->
  sub m' (e - len bs - v) (len bs + v) = sub m (e - v) v ++ bs ->
  known m' e (o + len bs) F (len bs + v).
Proof.
  intros (H1 & H2 & H3 & E) Ef Hl Hne Em. split_and!; [lia|lia|lia| |].
  - intros _. assert (len (sub F o (len bs)) = len bs) as L by (by rewrite Ef).
    unfold sub in L. rewrite length_take, length_drop in L. destruct bs; [done|]. cbn [length] in *. lia.
  - replace (e - (len bs + v)) with (e - len bs - v) by lia. rewrite Em, E.
    replace (o + len bs - (len bs + v)) with (o - v) by lia.
    rewrite (Z.add_comm (len bs) v), sub_plus by lia. f_equal.
    replace (o - v + v) with o by lia. done.
Qed.

(** Opening a buffer and its invariant for proofs: all fields are variables. *)
Ltac open_buf b R :=
  destruct b as [ic oc rl rs st fi fl o bz bb eb gb m];
  destruct R as [Rb Re Rz Rm Rf Rs Reof RF Rp Rpp Ri Ru Rk Rg]; fields;
  assert (Bungetsize = 4) as B4 by done.

Section reading.
Context `{Readable W fd}.
Implicit Types (b : Biobuf) (w : W) (F : bytes) (p u : Z) (s eof : bool).

(** The buffer is at position [p] of the file [F]; [eof] tells that the end of the file has been
    met, [u] how many bytes can be put back, [s] that [gbuf] is right, which seeks rely on. *)
Record rinv s F p eof u b w : Prop := mkRinv {
  r_bbuf : bbuf b = Bungetsize; r_ebuf : ebuf b = Bungetsize + bsize b;
  r_size : Bungetsize <= bsize b; r_mem : len (mem b) = ebuf b; r_fid : fid b = fd;
  r_state : state b = if eof then Bracteof else Bractive;
  r_eof : eof = true -> icount b = 0 /\ len F <= p;
  r_file : contents w = F; r_pos : offset b = pos w; r_p : p = offset b + icount b;
  r_icount : icount b <= 0; r_u : 0 <= u; r_known : known (mem b) (ebuf b) (offset b) F (u - icount b);
  r_seek : s = true -> eof = false ->
    Bungetsize <= gbuf b <= ebuf b /\ - icount b <= ebuf b - gbuf b /\
    known (mem b) (ebuf b) (offset b) F (ebuf b - gbuf b) }.

Lemma rinv_weaken s F p eof u b w u' s' :
  rinv s F p eof u b w -> 0 <= u' <= u -> (s' = true -> s = true) -> rinv s' F p eof u' b w.
Proof. intros [] Hu Hs. split; try done; [lia| |auto]. eapply known_less; [done|lia]. Qed.

(** What the array holds after the memory moves of [Bgetc] and of [Bread]. *)
Lemma fill_memory m bs bz v :
  len m = 4 + bz -> 4 <= bz -> 0 < len bs <= bz -> 0 <= v <= 4 ->
  exists m1 m2 m3, memmove m 0 bz 4 = Some m1 /\ store m1 4 bs = Some m2 /\
    (if len bs <? bz then memmove m2 (bz - len bs) 0 (len bs + 4) else Some m2) = Some m3 /\
    len m3 = len m /\ sub m3 (4 + bz - len bs - v) (len bs + v) = sub m (4 + bz - v) v ++ bs.
Proof.
  intros Lm Hz Hl Hv. destruct (memmove_sub m 0 bz 4) as (m1 & E1 & L1 & S1 & O1); [lia..|].
  destruct (store_sub m1 4 bs) as (m2 & E2 & L2 & S2 & O2); [lia..|].
  assert (sub m2 (4 - v) (len bs + v) = sub m (4 + bz - v) v ++ bs) as K.
  { rewrite (Z.add_comm (len bs) v), sub_plus by lia. replace (4 - v + v) with 4 by lia. rewrite S2. f_equal.
    rewrite O2 by lia. rewrite <- (Z.add_0_l (4 - v)), <- (sub_sub m1 0 4), S1, sub_sub by lia. f_equal. lia. }
  exists m1, m2. destruct (Z.ltb_spec (len bs) bz).
  - destruct (memmove_sub m2 (bz - len bs) 0 (len bs + 4)) as (m3 & E3 & L3 & S3 & O3); [lia..|].
    exists m3. split_and!; [done..|lia|]. rewrite <- K.
    replace (4 + bz - len bs - v) with (bz - len bs + (4 - v)) by lia.
    rewrite <- (sub_sub m3 (bz - len bs) (len bs + 4)), S3, sub_sub by lia. f_equal.
  - exists m2. split_and!; [done..|lia|]. rewrite <- K. f_equal. lia.
Qed.

Lemma Bgetc_fill_ok s F p u b w :
  rinv s F p false u b w -> icount b = 0 ->
  exists go b' w', Bgetc_fill b w = Some (go, b', w') /\
    if (go : bool) then icount b' < 0 /\ rinv s F p false (Z.min u Bungetsize) b' w'
    else rinv s F p true (Z.min u Bungetsize) b' w'.
Proof.
  intros R Hi. open_buf b R. unfold Bgetc_fill. fields. subst ic.
  rewrite Z.sub_0_r in Rk. rewrite Z.add_0_r in Rpp.
  pose proof (pos_nonneg w) as Hp0. set (v := Z.min u Bungetsize).
  assert (0 <= v <= u /\ v <= 4) as Hv by (unfold v; lia).
  apply (known_less _ _ _ F u v) in Rk; [|lia].
  destruct (memmove_sub m (bb - Bungetsize) (eb - Bungetsize) Bungetsize)
    as (m1 & E1 & L1 & S1 & O1); [lia..|]. rewrite E1. cbn [mbind option_bind].
  rewrite Rf. destruct (sys_read_spec w bz ltac:(lia)) as (bs & w' & Er & Lb & Ew & Ep & Es & Hz). rewrite Er.
  rewrite RF, <- Rp in *.
  destruct bs as [|c0 bs0]; [|set (bs := c0 :: bs0) in *].
  - eexists false, _, w'. split; [reflexivity|]. cbv beta iota. specialize (Hz eq_refl). cbn [length] in Ep.
    split; fields; try done; [lia..|]. apply (known_frame m); rewrite Z.sub_0_r; [done|]. apply O1; lia.
  - assert (0 < len bs) as Hl by (unfold bs; cbn [length]; lia). cbv zeta. fields.
    destruct (fill_memory m bs bz v) as (m1' & m2 & m3 & E1' & E2 & E3 & L3 & K); [lia..|].
    replace (bb - Bungetsize) with 0 in * by lia. replace (eb - Bungetsize) with bz in * by lia.
    rewrite Rb in *. rewrite B4 in *. rewrite E1' in E1. injection E1 as <-. rewrite E2. cbn [mbind option_bind].
    replace (eb - len bs - 4) with (bz - len bs) by lia.
    assert (known m3 eb (o + len bs) F (len bs + v)) as K3.
    { apply (known_filled m); [done..|lia|done|]. by replace eb with (4 + bz) by lia. }
    exists true. destruct (Z.ltb_spec (len bs) bz).
    + rewrite E3. cbn [mbind option_bind]. eexists _, w'. split; [reflexivity|]. fields. split; [lia|].
      split; fields; try done; try lia; [by replace (v - - len bs) with (len bs + v) by lia|].
      intros _ _. split; [lia|]. split; [lia|]. eapply known_less; [exact K3|lia].
    + injection E3 as <-. cbn [mbind option_bind]. eexists _, w'. split; [reflexivity|]. fields. split; [lia|].
      split; fields; try done; try lia; [by replace (v - - len bs) with (len bs + v) by lia|].
      intros _ _. split; [lia|]. split; [lia|]. eapply known_less; [exact K3|lia].
Qed.

(** A byte of the buffer. *)
Lemma take_byte s F p eof u b w :
  rinv s F p eof u b w -> icount b < 0 ->
  exists c, load1 (mem b) (ebuf b + icount b) = Some c /\ F !! Z.to_nat p = Some c /\ 0 <= p < len F /\
    rinv s F (p + 1) false (u + 1) (b <| icount := icount b + 1 |>) w.
Proof.
  intros R Hi. open_buf b R. pose proof Rk as (K1 & K2 & K3 & K4).
  apply (known_less _ _ _ _ _ (- ic)) in Rk as Kc; [|lia]. destruct Kc as (_ & _ & _ & Kc).
  assert (sub m (eb + ic) 1 = sub F p 1) as E1.
  { replace (eb + ic) with (eb - - ic + 0) by lia. rewrite <- (sub_sub m (eb - - ic) (- ic) 0 1), Kc, sub_sub by lia. f_equal. lia. }
  destruct (load1_Some m (eb + ic)) as [c Hc]; [lia|]. exists c.
  assert (0 <= p) as Hp by lia. apply load1_sub in Hc as Hc'; [|lia]. rewrite E1 in Hc'. apply load1_sub in Hc'; [|done].
  apply load1_inv in Hc' as [Hr Hl]. split_and!; [done..|lia|lia|].
  destruct eof; [destruct (Reof eq_refl); lia|].
  split; fields; try done; try lia; [by replace (u + 1 - (ic + 1)) with (u - ic) by lia|].
  intros Es _. destruct (Rg Es eq_refl) as (G1 & G2 & G3). split_and!; try done; lia.
Qed.

(** [Bgetc] delivers the byte at the position, or [Beof] at the end of the file. *)
Lemma Bgetc_ok s F p eof u b w :
  rinv s F p eof u b w ->
  exists c b' w', Bgetc b w = Some (c, b', w') /\
    (if p <? len F then F !! Z.to_nat p = Some c /\ rinv s F (p + 1) false (Z.min u Bungetsize + 1) b' w'
     else c = Beof /\ rinv (s && negb eof) F p (negb eof) (Z.min u Bungetsize) b' w').
Proof.
  intros R. unfold Bgetc. cbn [Bgetc_loop]. pose proof (r_icount _ _ _ _ _ _ _ R) as Hi. pose proof (r_u _ _ _ _ _ _ _ R) as Hu.
  assert (forall p' e' s' b1 w1 u', rinv s' F p' e' u' b1 w1 -> u' >= Z.min u Bungetsize -> icount b1 < 0 -> p' = p -> s' = s ->
    exists c b' w', (c ← load1 (mem b1) (ebuf b1 + icount b1); Some (c, b1 <| icount := icount b1 + 1 |>, w1)) = Some (c, b', w') /\
      (if p <? len F then F !! Z.to_nat p = Some c /\ rinv s F (p + 1) false (Z.min u Bungetsize + 1) b' w'
       else c = Beof /\ rinv (s && negb eof) F p (negb eof) (Z.min u Bungetsize) b' w')) as Htake.
  { intros p' e' s' b1 w1 u' R1 Hu' Hi1 -> ->. destruct (take_byte _ _ _ _ _ _ _ R1 Hi1) as (c & E & EF & Hp & R2).
    rewrite E. cbn [mbind option_bind]. eexists c, _, w1. split; [done|]. destruct (Z.ltb_spec p (len F)); [|lia].
    split; [done|]. eapply rinv_weaken; [exact R2|unfold Bungetsize in *; lia|done]. }
  destruct (Z.eqb_spec (icount b) 0) as [E0|Hne]; cbn [negb].
  - case_decide as Hst.
    + assert (eof = false) as -> by (destruct eof; [rewrite (r_state _ _ _ _ _ _ _ R) in Hst; done|done]).
      destruct (Bgetc_fill_ok _ _ _ _ _ _ R E0) as (go & b1 & w1 & E & R1). rewrite E. cbn [mbind option_bind].
      destruct go.
      * destruct R1 as [Hi1 R1]. destruct (Z.eqb_spec (icount b1) 0); [lia|]. cbn [negb].
        eapply Htake; [exact R1|lia..|done|done].
      * exists Beof, b1, w1. split; [done|]. destruct (r_eof _ _ _ _ _ _ _ R1 eq_refl) as [_ He].
        destruct (Z.ltb_spec p (len F)); [lia|]. split; [done|]. by rewrite andb_true_r.
    + destruct eof; [|by rewrite (r_state _ _ _ _ _ _ _ R) in Hst]. rewrite (r_state _ _ _ _ _ _ _ R).
      destruct (r_eof _ _ _ _ _ _ _ R eq_refl) as [_ He]. cbn [decide].
      eexists Beof, _, w. split; [reflexivity|]. destruct (Z.ltb_spec p (len F)); [lia|]. split; [done|].
      rewrite andb_false_r. cbn [negb]. apply (rinv_weaken _ _ _ _ _ _ _ (Z.min u Bungetsize) false) in R; [|unfold Bungetsize in *; lia|done].
      open_buf b R. split; fields; done.
  - eapply Htake; [exact R|unfold Bungetsize; lia|lia|done|done].
Qed.

(** [Bungetc] goes back by one byte. *)
Lemma Bungetc_ok s F p eof u b w :
  rinv s F p eof u b w -> 0 < u ->
  exists b', Bungetc b = (1, b') /\
    rinv (s && negb eof && (- icount b <? ebuf b - gbuf b)) F (p - 1) false (u - 1) b' w.
Proof.
  intros R Hu. unfold Bungetc. destruct eof; open_buf b R; subst st; fields.
  - rewrite decide_True by done. fields. rewrite decide_True, andb_false_r by done. eexists. split; [reflexivity|].
    split; fields; try done; try lia. by replace (u - 1 - (ic - 1)) with (u - ic) by lia.
  - rewrite (decide_False (P := Bractive = Bracteof)) by done. fields. rewrite decide_True, andb_true_r by done.
    eexists. split; [reflexivity|].
    split; fields; try done; try lia; [by replace (u - 1 - (ic - 1)) with (u - ic) by lia|].
    intros [Es Hlt%Z.ltb_lt]%andb_prop _. destruct (Rg Es eq_refl) as (G1 & G2 & G3). split_and!; try done; lia.
Qed.

(** Bytes that were read to offset [q] of the buffer, behind [q] known ones, moved to its end. *)
Lemma append_memory m bs (q bz : Z) :
  len m = 4 + bz -> 0 <= q -> q + len bs <= bz -> exists m2 m3, store m (4 + q) bs = Some m2 /\
    len m2 = len m /\ sub m2 4 (q + len bs) = sub m 4 q ++ bs /\
    memmove m2 (4 + bz - (q + len bs)) 4 (q + len bs) = Some m3 /\
    len m3 = len m /\ sub m3 (4 + bz - (q + len bs)) (q + len bs) = sub m 4 q ++ bs.
Proof.
  intros Lm Hq Hl. destruct (store_sub m (4 + q) bs) as (m2 & E2 & L2 & S2 & O2); [lia..|].
  destruct (memmove_sub m2 (4 + bz - (q + len bs)) 4 (q + len bs)) as (m3 & E3 & L3 & S3 & O3); [lia..|].
  assert (sub m2 4 (q + len bs) = sub m 4 q ++ bs) as K by (rewrite sub_plus by lia; f_equal; [apply O2; lia|done]).
  exists m2, m3. split_and!; [done..|lia|]. by rewrite S3.
Qed.

Lemma sub_past l (p n : Z) : len l <= p -> sub l p n = ([] : bytes).
Proof. intros. unfold sub. rewrite drop_ge, take_nil by lia. done. Qed.

Lemma Bread_loop_ok s F fuel : forall p eof b w c ic acc,
  rinv s F p eof 0 (b <| icount := ic |>) w -> 0 <= c -> (0 < fuel)%nat ->
  2 * c + (if ic =? 0 then 1 else 0) <= Z.of_nat fuel ->
  exists b' w', Bread_loop fuel b w c ic acc = Some (acc ++ sub F p c, b', w') /\
    rinv s F (p + len (sub F p c)) (eof || (0 <? c) && (len F <? p + c)) 0 b' w'.
Proof.
  induction fuel as [|fuel IH]; intros p eof b w c ic acc R Hc Hf Hm; [lia|]. cbn [Bread_loop].
  destruct (Z.ltb_spec 0 c) as [Hc0|Hc0]; cbn [andb].
  2:{ assert (c = 0) as -> by lia. rewrite sub_nil, app_nil_r, orb_false_r. cbn [length]. rewrite Z.add_0_r. by eexists _, _. }
  destruct b as [ic0 oc rl rs st fi fl off bz bb eb gb m]. pose proof R as [Rb Re Rz Rm Rf Rs Reof RF Rp Rpp Ri Ru Rk Rg]. fields.
  subst bb fi. change Bungetsize with 4 in *. assert (Bungetsize = 4) as B4 by done. pose proof (pos_nonneg w) as Hp0.
  set (n := if c <? - ic then c else - ic). assert (0 <= n <= c /\ n <= - ic /\ (n = c \/ n = - ic)) as Hn by (unfold n; bcase; lia).
  destruct (Z.eqb_spec n 0) as [E0|Hn0].
  - assert (ic = 0) as -> by lia. cbn [Z.eqb] in Hm. case_decide as Hst.
    + assert (eof = false) as -> by (by destruct eof; subst).
      destruct (sys_read_spec w bz ltac:(lia)) as (bs & w' & Er & Lb & Ew & Ep & Es & Hz). rewrite Er, RF, <- Rp in *.
      destruct bs as [|c0 bs0]; [|set (bs := c0 :: bs0) in *].
      * specialize (Hz eq_refl). cbn [length] in Ep. rewrite sub_past, app_nil_r by lia. eexists _, _. split; [reflexivity|].
        cbn [length orb]. destruct (Z.ltb_spec (len F) (p + c)); [|lia]. split; fields; try done; try lia.
      * assert (0 < len bs) as Hl by (unfold bs; cbn [length]; lia). cbv zeta.
        destruct (append_memory m bs 0 bz) as (m2 & m3 & E2 & L2 & K2 & E3 & L3 & K3); [lia..|].
        rewrite Z.add_0_l, Z.add_0_r in *. rewrite sub_nil, app_nil_l in *. rewrite E2. cbn [mbind option_bind]. fields.
        assert (bz = eb - 4) as Hbz by lia. replace (4 + bz) with eb in * by lia.
        assert (forall m' g, len m' = eb -> sub m' (eb - len bs) (len bs) = bs -> g = eb - len bs ->
          exists b' w'', Bread_loop fuel (mkBiobuf ic0 oc rl rs st fd fl (off + len bs) bz 4 eb g m') w' c (- len bs) acc =
              Some (acc ++ sub F p c, b', w'') /\
            rinv s F (p + len (sub F p c)) (false || (len F <? p + c)) 0 b' w'') as Hrec.
        { intros m' g Lm' Sm' ->.
          assert (known m' eb (off + len bs) F (len bs)) as Kn.
          { replace (len bs) with (len bs + 0) at 2 by lia. apply (known_filled m);
              [by apply known_0; lia|done|lia|done|]. by rewrite sub_nil, Z.sub_0_r, Z.add_0_r. }
          destruct (IH p false (mkBiobuf ic0 oc rl rs st fd fl (off + len bs) bz 4 eb (eb - len bs) m') w' c (- len bs) acc)
            as (b' & w'' & E & R'); [|done|lia|bcase; lia|].
          - split; fields; try done; try lia.
            intros _ _. split; [lia|]. split; [lia|]. by replace (eb - (eb - len bs)) with (len bs) by lia.
          - destruct (Z.ltb_spec 0 c); [|lia]. by eexists _, _. }
        destruct (Z.ltb_spec (len bs) bz).
        -- rewrite E3. cbn [mbind option_bind]. apply Hrec; [lia|done|done].
        -- cbn [mbind option_bind]. apply Hrec; [lia| |lia]. by replace (eb - len bs) with 4 by lia.
    + destruct eof; [|done]. destruct (Reof eq_refl) as [_ He]. rewrite sub_past, app_nil_r by done. cbn [length orb].
      rewrite Z.add_0_r. by eexists _, _.
  - pose proof Rk as (K1 & K2 & K3 & _). rewrite Z.sub_0_l in *. rewrite load_sub by lia. cbn [mbind option_bind].
    apply (known_less _ _ _ _ _ (- ic)) in Rk as Kc; [|lia]. destruct Kc as (_ & _ & _ & Kc).
    assert (sub m (eb + ic) n = sub F p n) as E1.
    { replace (eb + ic) with (eb - - ic + 0) by lia. rewrite <- (sub_sub m (eb - - ic) (- ic) 0 n), Kc, sub_sub by lia. f_equal. lia. }
    rewrite E1. assert (len (sub F p n) = n) as Ln by (apply sub_length; lia).
    assert (eof = false) as -> by (destruct eof; [destruct (Reof eq_refl); lia|done]).
    destruct (Z.eqb_spec ic 0); [lia|].
    destruct (IH (p + n) false (mkBiobuf ic0 oc rl rs st fd fl off bz 4 eb gb m) w (c - n) (ic + n) (acc ++ sub F p n))
      as (b' & w'' & E & R'); [|lia|lia| |].
    + split; fields; try done; try lia; [apply (known_less _ _ _ _ _ _ Rk); lia|].
      intros Es _. destruct (Rg Es eq_refl) as (G1 & G2 & G3). split_and!; try done; lia.
    + bcase; lia.
    + exists b', w''. rewrite E. split; [by rewrite <- app_assoc, <- sub_plus, Zplus_minus by lia|].
      replace c with (n + (c - n)) at 1 by lia. rewrite sub_plus, length_app, Nat2Z.inj_add, Ln, Z.add_assoc by lia.
      replace (p + c) with (p + n + (c - n)) by lia. cbn [orb] in *. destruct (Z.ltb_spec 0 (c - n)); [done|].
      cbn [andb] in R'. destruct (Z.ltb_spec (len F) (p + n + (c - n))); [lia|done].
Qed.

(** [Bread] delivers the next bytes of the file, as many as there are. *)
Lemma Bread_ok s F p eof u b w count :
  rinv s F p eof u b w -> 0 <= count ->
  exists b' w', Bread b w count = Some (sub F p count, b', w') /\
    rinv s F (p + len (sub F p count)) (eof || (0 <? count) && (len F <? p + count)) 0 b' w'.
Proof.
  intros R Hc. apply (rinv_weaken _ _ _ _ _ _ _ 0 s) in R; [|pose proof (r_u _ _ _ _ _ _ _ R); lia|done].
  apply (Bread_loop_ok s F (S (2 * Z.to_nat count)) p eof b w count (icount b) []); [exact R|done|lia|bcase; lia].
Qed.

(** The position that [Bseek] is asked for. *)
Definition seek_target F p (off base : Z) : Z :=
  if base =? 0 then off else if base =? 1 then off + p else len F + off.

(** The part of [Bseek] after the end of file has been forgotten. *)
Lemma seek_ok F p u b w n base :
  rinv true F p false u b w -> base = 0 \/ base = 2 -> 0 <= (if base =? 0 then n else len F + n) ->
  exists b' w',
    (let d := n - Boffset b in
     let bufsz := ebuf b - gbuf b in
     let within := (base =? 0) && (- bufsz <=? d) && (d <=? bufsz) in
     let b := if within then b <| icount := icount b + d |> else b in
     if within && (if 0 <=? d then icount b <=? 0 else - icount b <=? ebuf b - gbuf b)
     then Some (n, b, w)
     else
       let '(n, w) := sys_seek w (fid b) n base in
       Some (n, b <| icount := 0 |> <| gbuf := ebuf b |> <| offset := n |>, w))
    = Some (if base =? 0 then n else len F + n, b', w') /\ rinv true F (if base =? 0 then n else len F + n) false 0 b' w'.
Proof.
  intros R Hb Hn. open_buf b R. subst st fi. unfold Boffset. fields.
  set (d := n - (o + ic)). set (bufsz := eb - gb). cbv zeta. destruct (Rg eq_refl eq_refl) as (Hg & Hig & Kg).
  pose proof Rk as (K1 & K2 & K3 & _). pose proof (sys_seek_spec w n base Hb) as Hsk. cbv zeta in Hsk. rewrite RF in Hsk.
  destruct (Hsk Hn) as (w' & Es & Ew & Ep). set (n' := if base =? 0 then n else len F + n) in *.
  assert (forall x, rinv true F n' false 0 (mkBiobuf 0 oc rl rs Bractive fd fl n' bz bb eb eb x) w' <-> len x = eb) as Hout.
  { intros x. split; [by intros []|]. intros Hx. split; fields; try done; try lia.
    - apply known_0; lia.
    - intros _ _. split; [lia|]. split; [lia|]. rewrite Z.sub_diag. apply known_0; lia. }
  destruct ((base =? 0) && (- bufsz <=? d) && (d <=? bufsz)) eqn:Ein; cbn [andb].
  - rewrite !andb_true_iff, Z.eqb_eq, !Z.leb_le in Ein. destruct Ein as [[-> D1] D2]. fields.
    destruct (if 0 <=? d then ic + d <=? 0 else - (ic + d) <=? eb - gb) eqn:Eok.
    + exists (mkBiobuf (ic + d) oc rl rs Bractive fd fl o bz bb eb gb m), w. split; [done|].
      unfold n', d, bufsz in *. cbn [Z.eqb] in *.
      assert (ic + (n - (o + ic)) <= 0 /\ - (ic + (n - (o + ic))) <= eb - gb) as [I1 I2] by (bcase; lia).
      split; fields; try done; [lia| ]. apply (known_less _ _ _ _ _ _ Kg). lia.
    + rewrite Es. eexists _, _. split; [reflexivity|]. fields. by apply Hout.
  - cbv iota. fields. rewrite Es. eexists _, _. split; [reflexivity|]. fields. by apply Hout.
Qed.

(** [Bseek] moves to any position, within the buffer or by a seek of the file. *)
Lemma Bseek_ok F p eof u b w off base :
  rinv true F p eof u b w -> base = 0 \/ base = 1 \/ base = 2 -> 0 <= seek_target F p off base ->
  exists b' w', Bseek b w off base = Some (seek_target F p off base, b', w') /\
    rinv true F (seek_target F p off base) false 0 b' w'.
Proof.
  intros R Hb Hn. unfold Bseek. rewrite (r_state _ _ _ _ _ _ _ R).
  set (b1 := if decide ((if eof then Bracteof else Bractive) = Bracteof) then _ else _).
  assert (rinv true F p false 0 b1 w) as R1.
  { destruct eof; [|eapply rinv_weaken; [exact R|pose proof (r_u _ _ _ _ _ _ _ R); lia|done]].
    unfold b1. rewrite decide_True by done. pose proof (pos_nonneg w). destruct (r_eof _ _ _ _ _ _ _ R eq_refl).
    open_buf b R. split; fields; try done; try lia; [apply known_0; lia|].
    intros _ _. split; [lia|]. split; [lia|]. rewrite Z.sub_diag. apply known_0; lia. }
  assert (Boffset b1 = p) as Hoff by (unfold Boffset; rewrite (r_state _ _ _ _ _ _ _ R1); symmetry; exact (r_p _ _ _ _ _ _ _ R1)).
  assert (exists n base', (if base =? 1 then (off + Boffset b1, 0) else (off, base)) = (n, base') /\ (base' = 0 \/ base' = 2) /\
    (if base' =? 0 then n else len F + n) = seek_target F p off base) as (n & base' & E & Hb' & En).
  { unfold seek_target. rewrite Hoff. destruct Hb as [-> |[-> | ->]]; eexists _, _; (split; [reflexivity|]); by auto. }
  destruct (seek_ok F p 0 b1 w n base' R1 Hb' ltac:(by rewrite En)) as (b' & w' & Es & R'). rewrite En in *. 
  exists b', w'. split; [|done]. rewrite <- Es. destruct eof; cbv zeta; fold b1; by rewrite E.
Qed.

(** What [Brdline] promises: the line up to the delimiter, if there is one among the next bytes
    that the buffer can hold. *)
Definition line_result F p (bz delim : Z) (r : option Z) b w : Prop :=
  match memchr (sub F p bz) delim with
  | Some j => exists ip, r = Some ip /\ load (mem b) ip (rdline b) = Some (sub F p (j + 1)) /\ rdline b = j + 1 /\
      rinv true F (p + (j + 1)) false 0 b w
  | None => r = None /\ rdline b = len (sub F p bz) /\ rinv true F p false 0 b w
  end.

(** The loop has the first [i] bytes at the start of the buffer. *)
Lemma Brdline_loop_ok F p delim fuel : forall oc rl rs fl bz m w i ic0,
  4 <= bz -> len m = 4 + bz -> contents w = F -> pos w = p + i -> 0 <= p -> 0 <= i <= bz ->
  (0 < i -> p + i <= len F) -> sub m 4 i = sub F p i -> memchr (sub F p i) delim = None -> bz - i < Z.of_nat fuel ->
  exists r b' w', Brdline_loop fuel (mkBiobuf ic0 oc rl rs Bractive fd fl (p + i) bz 4 (4 + bz) 4 m) w delim i = Some (r, b', w') /\
    line_result F p bz delim r b' w'.
Proof.
  induction fuel as [|fuel IH]; intros oc rl rs fl bz m w i ic0 Hz Lm RF Rp Hp Hi HiF Sm Hmc Hf; [lia|].
  cbn [Brdline_loop]. fields. assert (Bungetsize = 4) as B4 by done.
  assert (known m 4 (p + i) F 0) as _ by (apply known_0; lia).
  destruct (Z.ltb_spec i bz) as [Hlt|Hge].
  2:{ assert (i = bz) as -> by lia. eexists _, _, _. split; [reflexivity|]. unfold line_result. rewrite Hmc. fields.
      split; [done|]. split; [symmetry; apply sub_length; lia|].
      assert (known m (4 + bz) (p + bz) F bz) as K.
      { split_and!; [lia..|]. by replace (4 + bz - bz) with 4 by lia; replace (p + bz - bz) with p by lia. }
      split; fields; try done; try lia; [by replace (0 - - bz) with bz by lia|].
      intros _ _. split_and!; [lia..|]. by replace (4 + bz - 4) with bz by lia. }
  destruct (sys_read_spec w (bz - i) ltac:(lia)) as (bs & w' & Er & Lb & Ew & Ep & Es & Hz0). rewrite Er, RF, Rp in *.
  assert (forall m' x, x = i + len bs -> x <= bz -> 0 < x -> len m' = 4 + bz -> (0 < x -> p + x <= len F) ->
    sub m' (4 + bz - x) x = sub F p x -> known m' (4 + bz) (p + x) F x) as Kn.
  { intros m' x -> Hx1 Hx2 Hm' Hx3 Hs. split_and!; [lia..|]. rewrite Hs. f_equal. lia. }
  destruct bs as [|c0 bs0]; [|set (bs := c0 :: bs0) in *].
  - specialize (Hz0 eq_refl). cbn [length] in *.
    destruct (memmove_sub m (4 + bz - i) 4 i) as (m3 & E3 & L3 & S3 & _); [lia..|]. rewrite E3. cbn [mbind option_bind].
    assert (sub F p bz = sub F p i) as Esub.
    { replace bz with (i + (bz - i)) by lia. rewrite sub_plus, (sub_past F (p + i)), app_nil_r by lia. done. }
    assert (known m3 (4 + bz) (p + i) F i) as K.
    { destruct (Z.eq_dec i 0) as [->|]; [apply known_0; lia|]. apply Kn; [lia..|]. by rewrite S3, Sm. }
    eexists _, _, _. split; [reflexivity|]. unfold line_result. rewrite Esub, Hmc. fields. split; [done|].
    split; [destruct (Z.eq_dec i 0) as [->|]; [done|symmetry; apply sub_length; lia]|].
    split; fields; try done; try lia.
    + by replace (0 - - i) with i by lia.
    + intros _ _. split_and!; [lia..|]. by replace (4 + bz - (4 + bz - i)) with i by lia.
  - assert (0 < len bs) as Hl by (unfold bs; cbn [length]; lia).
    destruct (append_memory m bs i bz) as (m2 & m3 & E2 & L2 & K2 & E3 & L3 & K3); [lia..|].
    rewrite E2. cbn [mbind option_bind]. fields.
    assert (p + (i + len bs) <= len F) as HF.
    { assert (len (sub F (p + i) (len bs)) = len bs) as L by (by rewrite Es).
      unfold sub in L. rewrite length_take, length_drop in L. lia. }
    assert (sub m 4 i ++ bs = sub F p (i + len bs)) as EF by (rewrite sub_plus, Es, Sm by lia; done).
    rewrite EF in *.
    destruct (memchr bs delim) as [ep|] eqn:Emc.
    + apply memchr_range in Emc as Hep.
      assert (memchr (sub F p bz) delim = Some (i + ep)) as Eline.
      { replace bz with (i + len bs + (bz - i - len bs)) by lia.
        rewrite sub_plus, memchr_app, <- EF, Sm, memchr_app, Hmc, Emc by lia. cbn. f_equal. rewrite sub_length; lia. }
      assert (forall m', len m' = 4 + bz -> sub m' (4 + bz - (i + len bs)) (i + len bs) = sub F p (i + len bs) ->
        line_result F p bz delim (Some (4 + bz - (i + len bs)))
          (mkBiobuf (i + ep + 1 - (i + len bs)) oc (i + ep + 1) rs Bractive fd fl (p + i + len bs) bz 4 (4 + bz)
             (4 + bz - (i + len bs)) m') w') as Hres.
      { intros m' Lm' Sm'. unfold line_result. rewrite Eline. exists (4 + bz - (i + len bs)). fields. split; [done|].
        split; [|split; [done|]].
        - rewrite load_sub by lia. f_equal. rewrite <- (Z.add_0_r (4 + bz - (i + len bs))), <- (Z.add_0_r p).
          rewrite <- (sub_sub m' _ (i + len bs)), <- (sub_sub F _ (i + len bs)) by lia. by rewrite Sm'.
        - specialize (Kn m' (i + len bs) eq_refl ltac:(lia) ltac:(lia) Lm' ltac:(lia) Sm'). rewrite Z.add_assoc in Kn.
          split; fields; try done; try lia.
          + apply (known_less _ _ _ _ _ _ Kn). lia.
          + intros _ _. split_and!; [lia..|]. by replace (4 + bz - (4 + bz - (i + len bs))) with (i + len bs) by lia. }
      destruct (Z.ltb_spec (i + len bs) bz).
      * rewrite E3. cbn [mbind option_bind]. eexists _, _, _. split; [reflexivity|]. apply Hres; [lia|done].
      * cbn [mbind option_bind]. eexists _, _, _. split; [reflexivity|]. fields.
        assert (4 + bz - (i + len bs) = 4) as E4 by lia. rewrite E4 in *. apply Hres; [lia|done].
    + replace (p + i + len bs) with (p + (i + len bs)) by lia. apply IH; try done; try lia.
      rewrite <- EF, Sm, memchr_app, Hmc, Emc. done.
Qed.

Lemma Brdline_ok F p eof u b w delim :
  rinv true F p eof u b w ->
  exists r b' w', Brdline b w delim = Some (r, b', w') /\ line_result F p (bsize b) delim r b' w'.
Proof.
  intros R. pose proof (pos_nonneg w) as Hp0. unfold Brdline. destruct eof.
  - destruct (r_eof _ _ _ _ _ _ _ R eq_refl) as [Hi He]. open_buf b R. subst st ic. cbn [Z.opp Z.eqb andb].
    rewrite bool_decide_false by done. cbn [negb]. rewrite decide_True by done. eexists _, _, _. split; [reflexivity|].
    unfold line_result. rewrite sub_past by done. fields. split; [done|]. split; [done|].
    split; fields; try done; try lia; [apply known_0; lia|].
    intros _ _. split_and!; [lia..|]. rewrite Z.sub_diag. apply known_0; lia.
  - open_buf b R. subst st. rewrite bool_decide_true, andb_false_r by done. destruct (Rg eq_refl eq_refl) as (G1 & G2 & G3).
    pose proof Rk as (K1 & K2 & K3 & _). apply (known_less _ _ _ _ _ (- ic)) in Rk as Kc; [|lia].
    destruct Kc as (_ & _ & _ & Kc). rewrite load_sub by lia. cbn [mbind option_bind].
    replace (o - - ic) with p in * by lia. rewrite Kc. destruct (memchr (sub F p (- ic)) delim) as [ep|] eqn:Emc.
    + destruct (Z.eq_dec ic 0) as [->|Hic]; [done|]. apply memchr_range in Emc as Hep. rewrite sub_length in Hep by lia.
      eexists _, _, _. split; [reflexivity|]. unfold line_result. fields.
      replace bz with (- ic + (bz + ic)) by lia. rewrite sub_plus, memchr_app, Emc by lia.
      exists (eb - - ic). split; [done|]. split; [|split; [done|]].
      * rewrite load_sub by lia. f_equal. rewrite <- (Z.add_0_r (eb - - ic)), <- (Z.add_0_r p).
        rewrite <- (sub_sub m _ (- ic)), <- (sub_sub F _ (- ic)) by lia. by rewrite Kc.
      * split; fields; try done; try lia; [apply (known_less _ _ _ _ _ _ Rk); lia|].
        intros _ _. split_and!; [lia..|done].
    + assert (exists m1, (if - ic <? bz then memmove m bb (eb - - ic) (- ic) else Some m) = Some m1 /\ len m1 = 4 + bz /\
        sub m1 4 (- ic) = sub F p (- ic)) as (m1 & E1 & L1 & S1).
      { destruct (Z.ltb_spec (- ic) bz).
        - destruct (memmove_sub m bb (eb - - ic) (- ic)) as (m1 & E1 & L1 & S1 & _); [lia..|].
          exists m1. split_and!; [done|lia|]. by rewrite Rb, Kc in S1.
        - exists m. split_and!; [done|lia|]. rewrite <- Kc. f_equal. lia. }
      rewrite E1. cbn [mbind option_bind]. fields. rewrite Rb, Re, Rf. change Bungetsize with 4.
      replace o with (p + - ic) by lia. apply Brdline_loop_ok; try done; lia.
Qed.

(** ** Runes *)

Lemma ungets_ok F n : forall p u b w,
  rinv false F p false u b w -> Z.of_nat n <= u ->
  rinv false F (p - Z.of_nat n) false (u - Z.of_nat n) (Nat.iter n (fun b => snd (Bungetc b)) b) w.
Proof.
  induction n as [|n IH]; intros p u b w R Hn.
  { change (rinv false F (p - 0) false (u - 0) b w). by rewrite !Z.sub_0_r. }
  specialize (IH p u b w R ltac:(lia)). destruct (Bungetc_ok _ _ _ _ _ _ _ IH) as (b' & E & R'); [lia|].
  change (Nat.iter (S n) (fun b => snd (Bungetc b)) b) with (snd (Bungetc (Nat.iter n (fun b => snd (Bungetc b)) b))).
  rewrite E. cbn [snd]. eapply rinv_weaken in R'; [|split; [|reflexivity]; lia|done].
  by replace (p - Z.of_nat (S n)) with (p - Z.of_nat n - 1) by lia; replace (u - Z.of_nat (S n)) with (u - Z.of_nat n - 1) by lia.
Qed.

(** The number of bytes that [fullrune] waits for. *)
Definition wanted (c : Z) : Z := if c <? 0x80 then 1 else if c <? 0xE0 then 2 else if c <? 0xF0 then 3 else 4.

Lemma fullrune_wanted c str n : 0 < n -> fullrune (c :: str) n = Some (wanted c <=? n).
Proof.
  intros Hn. unfold fullrune, wanted. destruct (Z.leb_spec n 0); [lia|]. cbn [lookup list_lookup mbind option_bind].
  change Tx with 0x80. change T3 with 0xE0. change T4 with 0xF0. change (UTFmax =? 3) with false. cbn [orb]. f_equal.
  destruct (c <? 0x80); [by destruct (Z.leb_spec 1 n); [|lia]|]. destruct (c <? 0xE0); [done|]. by destruct (c <? 0xF0).
Qed.

Lemma sub_head F (p n : Z) c : 0 <= p -> F !! Z.to_nat p = Some c -> 0 < n -> sub F p n = c :: sub F (p + 1) (n - 1).
Proof.
  intros Hp Hc Hn. replace n with (1 + (n - 1)) at 1 by lia. rewrite sub_plus by lia.
  replace (sub F p 1) with [c]; [done|]. symmetry. apply load1_sub; [done|]. unfold load1. by destruct (Z.leb_spec 0 p); [|lia].
Qed.

Lemma chartorune_prefix F p c n :
  is_bytes F -> 0 <= p -> F !! Z.to_nat p = Some c -> n = wanted c -> p + n <= len F ->
  exists r k, chartorune (sub F p n) = Some (r, k) /\ chartorune (drop (Z.to_nat p) F) = Some (r, k) /\ 1 <= k <= n.
Proof.
  intros HF Hp Hc En Hn. assert (1 <= n <= 4) as Hr by (subst n; unfold wanted; bcase; lia).
  assert (is_bytes (drop (Z.to_nat p) F)) as Hd by (by apply Forall_drop).
  destruct (fullrune_spec (drop (Z.to_nat p) F) n Hd) as (fb & Ef & Hf & _); [rewrite length_drop; lia|].
  rewrite (drop_S F c) in Ef by done. rewrite fullrune_wanted in Ef by lia. injection Ef as <-.
  destruct (Hf ltac:(apply Z.leb_le; lia)) as (r & k & E1 & E2 & Hk). exists r, k. split_and!; try done.
  destruct (chartorune_pos _ _ _ Hd E2) as [[_ ->]|[_ ->]]; [pose proof (utf8_len r)|]; lia.
Qed.

Lemma runesize_ungets n b : runesize (Nat.iter n (fun b => snd (Bungetc b)) b) = runesize b.
Proof.
  induction n as [|n IH]; [done|]. rewrite <- IH. change (Nat.iter (S n) ?f b) with (f (Nat.iter n f b)). cbv beta.
  generalize (Nat.iter n (fun b => snd (Bungetc b)) b). intros b'. unfold Bungetc.
  destruct (decide (state b' = Bracteof)); (destruct (decide _); reflexivity).
Qed.

Lemma rinv_runesize s F p eof u b w n : rinv s F p eof u b w -> rinv s F p eof u (b <| runesize := n |>) w.
Proof. intros []. by split. Qed.

(** What [Bgetrune] does from the byte [c] at [p] on: a rune as [chartorune] reads it, or the end
    of the file when that cuts the sequence off. *)
Definition rune_result F p c (r : Z) b w : Prop :=
  if p + wanted c <=? len F then
    exists k, chartorune (drop (Z.to_nat p) F) = Some (r, k) /\ runesize b = k /\ rinv false F (p + k) false k b w
  else r = Beof /\ rinv false F (len F) true 0 b w.

Lemma Bgetrune_loop_ok F p c fuel : forall i b w u,
  is_bytes F -> 0 <= p -> F !! Z.to_nat p = Some c ->
  rinv false F (p + i) false u b w -> 1 <= i <= u -> i < wanted c -> wanted c - i <= Z.of_nat fuel ->
  p + i <= len F ->
  exists r b' w', Bgetrune_loop fuel (sub F p i) b w = Some (r, b', w') /\ rune_result F p c r b' w'.
Proof.
  induction fuel as [|fuel IH]; intros i b w u HF Hp Hc R Hi Hw Hf Hl; [lia|]. cbn [Bgetrune_loop].
  assert (wanted c <= 4) as Hw4 by (unfold wanted; bcase; lia). assert (Bungetsize = 4) as B4 by done.
  destruct (Bgetc_ok _ _ _ _ _ _ _ R) as (x & b1 & w1 & E & Hx). rewrite E. cbn [mbind option_bind].
  destruct (Z.ltb_spec (p + i) (len F)) as [Hlt|Hge].
  - destruct Hx as [Ex R1]. assert (in_u 8 x) as Hx8 by (by eapply Forall_lookup_1 in HF; [|exact Ex]).
    destruct (Z.ltb_spec x 0); [range|]. cbv zeta.
    assert (sub F p i ++ [x] = sub F p (i + 1)) as Es.
    { rewrite sub_plus by lia. f_equal. symmetry. apply load1_sub; [lia|]. unfold load1. by destruct (Z.leb_spec 0 (p + i)); [|lia]. }
    rewrite Es, sub_length by lia. rewrite (sub_head F p (i + 1) c), fullrune_wanted by (done || lia).
    rewrite <- (sub_head F p (i + 1) c) by (done || lia). cbn [mbind option_bind].
    destruct (Z.leb_spec (wanted c) (i + 1)) as [Hfull|Hmore].
    + assert (i + 1 = wanted c) as Ew by lia. destruct (chartorune_prefix F p c (i + 1)) as (r & k & E1 & E2 & Hk); [done..|lia|].
      rewrite E1. cbn [mbind option_bind]. eexists _, _, _. split; [reflexivity|]. unfold rune_result.
      destruct (Z.leb_spec (p + wanted c) (len F)); [|lia]. exists k. split; [done|]. split; [by rewrite runesize_ungets|].
      apply (rinv_runesize _ _ _ _ _ _ _ k) in R1. apply (ungets_ok F (Z.to_nat (i + 1 - k))) in R1; [|lia].
      rewrite Z2Nat.id in R1 by lia. replace (p + i + 1 - (i + 1 - k)) with (p + k) in R1 by lia.
      eapply rinv_weaken; [exact R1|lia|done].
    + apply (IH _ _ _ (Z.min u Bungetsize + 1)); try done; try lia. by rewrite Z.add_assoc.
  - destruct Hx as [-> R1]. cbn [Z.ltb Z.compare Beof]. exists Beof, b1, w1. split; [done|]. unfold rune_result.
    destruct (Z.leb_spec (p + wanted c) (len F)); [lia|]. split; [done|]. replace (len F) with (p + i) by lia.
    eapply rinv_weaken; [exact R1|lia|done].
Qed.

(** [Bgetrune] reads one rune, as [chartorune] does, or nothing at the end. *)
Lemma Bgetrune_ok s F p eof u b w :
  is_bytes F -> rinv s F p eof u b w ->
  exists r b' w', Bgetrune b w = Some (r, b', w') /\
    match F !! Z.to_nat p with
    | Some c => rune_result F p c r b' w'
    | None => r = Beof /\ rinv false F p (negb eof) 0 b' w'
    end.
Proof.
  intros HF R. assert (0 <= p) as Hp.
  { pose proof (r_known _ _ _ _ _ _ _ R) as (K & _). pose proof (r_u _ _ _ _ _ _ _ R). rewrite (r_p _ _ _ _ _ _ _ R). lia. }
  pose proof (r_u _ _ _ _ _ _ _ R) as Hu. unfold Bgetrune.
  destruct (Bgetc_ok _ _ _ _ _ _ _ R) as (c & b1 & w1 & E & Hx). rewrite E. cbn [mbind option_bind].
  destruct (Z.ltb_spec p (len F)) as [Hlt|Hge].
  - destruct Hx as [Ec R1]. rewrite Ec. assert (in_u 8 c) as Hc8 by (by eapply Forall_lookup_1 in HF; [|exact Ec]).
    assert (sub F p 1 = [c]) as E1 by (by rewrite (sub_head F p 1 c)).
    destruct (Z.ltb_spec c Runeself) as [Hs|Hs]; unfold Runeself in Hs.
    + assert (wanted c = 1) as Ew by (unfold wanted; bcase; lia).
      destruct (chartorune_prefix F p c 1) as (r & k & E2 & E3 & Hk); [done..|lia|].
      assert (k = 1) as -> by lia. rewrite E1 in E2. cbn in E2. destruct (c <? Tx) eqn:Et; [|change Tx with 0x80 in Et; apply Z.ltb_ge in Et; lia].
      injection E2 as <-. eexists _, _, _. split; [reflexivity|]. unfold rune_result. destruct (Z.leb_spec (p + wanted c) (len F)); [|lia].
      exists 1. split_and!; [done..|]. apply rinv_runesize. eapply rinv_weaken; [exact R1|unfold Bungetsize; lia|done].
    + assert (2 <= wanted c <= 4) by (unfold wanted; bcase; lia). rewrite <- E1.
      apply (Bgetrune_loop_ok F p c _ 1 b1 w1 1); try done; try lia.
      * eapply rinv_weaken; [exact R1|unfold Bungetsize; lia|done].
      * change (Z.of_nat (Z.to_nat UTFmax)) with 4. lia.
  - destruct Hx as [-> R1]. rewrite lookup_ge_None_2 by lia. change (Beof <? Runeself) with true. cbv iota.
    eexists _, _, _. split; [reflexivity|]. split; [done|]. apply rinv_runesize. eapply rinv_weaken; [exact R1|unfold Bungetsize; lia|done].
Qed.

(** [Bungetrune] after it goes back to the start of the rune. *)
Lemma Bungetrune_ok F p u b w :
  rinv false F p false u b w -> 0 <= runesize b <= u ->
  exists b', Bungetrune b = (1, b') /\ rinv false F (p - runesize b) false (u - runesize b) b' w.
Proof.
  intros R Hr. unfold Bungetrune. rewrite (r_state _ _ _ _ _ _ _ R).
  rewrite (decide_False (P := Bractive = Bracteof)) by done. rewrite (r_state _ _ _ _ _ _ _ R), decide_True by done.
  eexists. split; [reflexivity|]. open_buf b R. split; fields; try done; try lia.
  by replace (u - rs - (ic - rs)) with (u - ic) by lia.
Qed.
End reading.
