(* ===== verification/BioWrite.v ===== *)
(** * Writing through a buffer

    The start of the buffer holds the bytes that have not reached the file yet: the operations
    of [libbio] that write do to the file what the system call would, once it is flushed. *)

From S2P Require Import Prelude Utf UtfString Bio BioRead.

(** ** The contents of a file *)

Lemma overwrite_app F p x y :
  0 <= p -> overwrite (overwrite F p x) (p + len x) y = overwrite F p (x ++ y).
Proof.
  intros Hp. destruct x as [|x0 x']; [by rewrite Z.add_0_r|]. destruct y as [|y0 y']; [by rewrite app_nil_r|].
  set (x := x0 :: x'). set (y := y0 :: y'). assert (length x <> 0)%nat by done.
  change (overwrite F p (x ++ y)) with
    (take (Z.to_nat p) F ++ replicate (Z.to_nat p - length F) 0 ++ (x ++ y) ++ drop (Z.to_nat p + length (x ++ y)) F).
  change (overwrite F p x) with (take (Z.to_nat p) F ++ replicate (Z.to_nat p - length F) 0 ++ x ++ drop (Z.to_nat p + length x) F).
  set (h := take (Z.to_nat p) F ++ replicate (Z.to_nat p - length F) 0).
  assert (length h = Z.to_nat p) as Lh by (unfold h; rewrite length_app, length_take, length_replicate; lia).
  rewrite !(app_assoc (take _ F)). fold h. unfold overwrite, y. fold y.
  assert (Z.to_nat (p + len x) = length (h ++ x)) as -> by (rewrite length_app; lia).
  replace (h ++ x ++ drop (Z.to_nat p + length x) F) with ((h ++ x) ++ drop (Z.to_nat p + length x) F) by (by rewrite app_assoc).
  rewrite take_app_length. replace (length (h ++ x) - length ((h ++ x) ++ _))%nat with 0%nat by (rewrite (length_app (h ++ x)); lia).
  rewrite drop_app_ge, drop_drop by lia. cbn [replicate app]. rewrite <- !app_assoc. do 4 f_equal. rewrite !length_app. lia.
Qed.

Lemma overwrite_length F p bs : 0 <= p -> bs <> [] -> len (overwrite F p bs) = Z.max (len F) (p + len bs).
Proof.
  intros Hp Hb. destruct bs as [|b0 bs]; [done|]. unfold overwrite.
  rewrite !length_app, length_take, length_replicate, length_drop. lia.
Qed.

Lemma overwrite_sub F p bs : 0 <= p -> bs <> [] -> sub (overwrite F p bs) p (len bs) = bs.
Proof.
  intros Hp Hb. destruct bs as [|b0 bs]; [done|]. unfold overwrite. rewrite app_assoc. apply sub_app_exact; [|done].
  rewrite length_app, length_take, length_replicate. lia.
Qed.

Section writing.
Context `{Writable W fd}.
Implicit Types (b : Biobuf) (w : W) (G : bytes) (p : Z).

(** The file will have the contents [G], and the next byte goes to [p]. *)
Record winv G p b w : Prop := mkWinv {
  w_bbuf : bbuf b = Bungetsize; w_ebuf : ebuf b = Bungetsize + bsize b; w_size : 0 < bsize b;
  w_mem : len (mem b) = ebuf b; w_fid : fid b = fd; w_state : state b = Bwactive;
  w_ocount : - bsize b <= ocount b <= 0; w_pos : offset b = pos w;
  w_p : p = offset b + (bsize b + ocount b);
  w_file : G = overwrite (contents w) (pos w) (sub (mem b) Bungetsize (bsize b + ocount b)) }.

Ltac open_wbuf b w R :=
  destruct b as [ic oc rl rs st fi fl o bz bb eb gb m];
  destruct R as [Rb Re Rz Rm Rf Rs Ro Rp Rpp RG]; fields; subst bb fi st;
  assert (Bungetsize = 4) as B4 by done; pose proof (pos_nonneg w) as Hp0.

(** [Bflush] brings the file up to date. *)
Lemma Bflush_ok G p b w :
  winv G p b w ->
  exists b' w', Bflush b w = Some (0, b', w') /\ winv G p b' w' /\ contents w' = G /\ pos w' = p /\ ocount b' = - bsize b'.
Proof.
  intros R. unfold Bflush. rewrite (w_state _ _ _ _ R). open_wbuf b w R.
  destruct (Z.eqb_spec (bz + oc) 0) as [E0|Hne].
  - eexists _, _. split; [reflexivity|]. rewrite E0 in *. rewrite sub_nil in RG. split_and!; fields; [|done|lia|lia].
    split; fields; try done; [lia..|]. by rewrite E0, sub_nil.
  - rewrite load_sub by lia. cbn [mbind option_bind]. set (bs := sub m Bungetsize (bz + oc)) in *.
    assert (len bs = bz + oc) as Lb by (apply sub_length; lia).
    destruct (sys_write_spec w bs) as (w' & E & Ew & Ep). rewrite E, Lb, Z.eqb_refl.
    eexists _, _. split; [reflexivity|]. split_and!; fields; [|congruence|lia|lia].
    split; fields; try done; try lia. replace (bz + - bz) with 0 by lia. rewrite sub_nil. cbn. congruence.
Qed.

(** Bytes that are stored behind those in the buffer. *)
Lemma pending_memory (m : bytes) oc bz (bs : bytes) :
  len m = 4 + bz -> - bz <= oc -> oc + len bs <= 0 ->
  exists m', store m (4 + bz + oc) bs = Some m' /\ len m' = len m /\ sub m' 4 (bz + (oc + len bs)) = sub m 4 (bz + oc) ++ bs.
Proof.
  intros Lm Ho Hl. destruct (store_sub m (4 + bz + oc) bs) as (m' & E & L & S & O); [lia..|].
  exists m'. split_and!; [done..|]. replace (bz + (oc + len bs)) with (bz + oc + len bs) by lia.
  rewrite sub_plus by lia. rewrite O by lia. f_equal. by replace (4 + (bz + oc)) with (4 + bz + oc) by lia.
Qed.

Lemma store_byte G p b w c :
  winv G p b w -> ocount b <> 0 ->
  exists m', store (mem b) (ebuf b + ocount b) [c] = Some m' /\
    winv (overwrite G p [c]) (p + 1) (b <| mem := m' |> <| ocount := ocount b + 1 |>) w.
Proof.
  intros R Ho. open_wbuf b w R.
  destruct (pending_memory m oc bz [c]) as (m' & E & L & S); [lia|lia|cbn; lia|]. rewrite Re, B4.
  exists m'. split; [done|]. cbn [length] in S. change (Z.of_nat 1) with 1 in S.
  split; fields; try done; try lia. rewrite B4, S, RG, B4. rewrite <- overwrite_app by done.
  rewrite sub_length by lia. f_equal. lia.
Qed.

Lemma Bputc_ok G p b w c :
  winv G p b w ->
  exists b' w', Bputc b w c = Some (0, b', w') /\ winv (overwrite G p [u8 c]) (p + 1) b' w'.
Proof.
  intros R. unfold Bputc. cbn [Bputc_loop]. destruct (Z.eqb_spec (ocount b) 0) as [E0|Hne]; cbn [negb].
  - destruct (Bflush_ok _ _ _ _ R) as (b1 & w1 & E & R1 & _ & _ & Eo). rewrite E. cbn [mbind option_bind]. change (0 =? Beof) with false. cbv iota.
    pose proof (w_size _ _ _ _ R1). destruct (Z.eqb_spec (ocount b1) 0); [lia|]. cbn [negb].
    destruct (store_byte G p b1 w1 (u8 c) R1) as (m' & Em & R'); [done|]. rewrite Em. by eexists _, _.
  - destruct (store_byte G p b w (u8 c) R Hne) as (m' & Em & R'). rewrite Em. by eexists _, _.
Qed.

Lemma Bwrite_loop_ok count fuel : forall G p b w oc bs,
  winv G p (b <| ocount := oc |>) w -> (0 < fuel)%nat ->
  2 * len bs + (if oc =? 0 then 1 else 0) <= Z.of_nat fuel ->
  exists b' w', Bwrite_loop fuel b w bs oc count = Some (count, b', w') /\ winv (overwrite G p bs) (p + len bs) b' w'.
Proof.
  induction fuel as [|fuel IH]; intros G p b w oc bs R Hf Hm; [lia|]. cbn [Bwrite_loop].
  destruct (Z.ltb_spec 0 (len bs)) as [Hl|Hl].
  2:{ destruct bs; [|cbn in Hl; lia]. cbn [length]. rewrite Z.add_0_r. by eexists _, _. }
  destruct b as [ic oc0 rl rs st fi fl o bz bb eb gb m]. pose proof R as [Rb Re Rz Rm Rf Rs Ro Rp Rpp RG]. fields.
  subst bb fi st. assert (Bungetsize = 4) as B4 by done. pose proof (pos_nonneg w) as Hp0.
  set (n := if len bs <? - oc then len bs else - oc). assert (0 <= n <= len bs /\ n <= - oc /\ (n = len bs \/ n = - oc)) as Hn by (unfold n; bcase; lia).
  destruct (Z.eqb_spec n 0) as [E0|Hn0].
  - assert (oc = 0) as -> by lia. cbn [Z.eqb] in Hm. rewrite decide_True by done. rewrite load_sub by lia. cbn [mbind option_bind].
    rewrite Z.add_0_r in *. destruct (sys_write_spec w (sub m Bungetsize bz)) as (w' & E & Ew & Ep). rewrite E.
    assert (len (sub m Bungetsize bz) = bz) as Lb by (apply sub_length; lia). rewrite Lb, Z.eqb_refl in *.
    apply IH; [|lia|bcase; lia]. fields. split; fields; try done; try lia.
    replace (bz + - bz) with 0 by lia. rewrite sub_nil. cbn. congruence.
  - destruct (Z.eqb_spec oc 0); [lia|]. rewrite Re, B4. assert (len (take (Z.to_nat n) bs) = n) as Ln by (rewrite length_take; lia).
    destruct (pending_memory m oc bz (take (Z.to_nat n) bs)) as (m' & E & L & S); [lia..|]. rewrite Ln in S. rewrite E. cbn [mbind option_bind].
    destruct (IH (overwrite G p (take (Z.to_nat n) bs)) (p + n) (mkBiobuf ic oc0 rl rs Bwactive fd fl o bz 4 (4 + bz) gb m') w (oc + n) (drop (Z.to_nat n) bs))
      as (b' & w' & E' & R').
    + split; fields; try done; try lia. rewrite B4, S, RG, B4. rewrite <- overwrite_app by done. rewrite sub_length by lia. f_equal. lia.
    + lia.
    + rewrite length_drop. bcase; lia.
    + exists b', w'. split; [exact E'|]. rewrite <- Ln in R' at 2. rewrite overwrite_app, take_drop in R' by lia.
      replace (p + len bs) with (p + n + len (drop (Z.to_nat n) bs)); [done|]. rewrite length_drop. lia.
Qed.

Lemma Bwrite_ok G p b w bs :
  winv G p b w -> exists b' w', Bwrite b w bs = Some (len bs, b', w') /\ winv (overwrite G p bs) (p + len bs) b' w'.
Proof. intros R. apply (Bwrite_loop_ok _ _ G p b w (ocount b) bs); [exact R|lia|bcase; lia]. Qed.

(** [Bputrune] writes the sequence of the rune, or of [Runeerror]. *)
Lemma Bputrune_ok G p b w c :
  winv G p b w -> in_u 32 c ->
  let r := if Runemax <? c then Runeerror else c in
  exists b' w', Bputrune b w c = Some (len (utf8 r), b', w') /\ winv (overwrite G p (utf8 r)) (p + len (utf8 r)) b' w'.
Proof.
  intros R Hc r. unfold Bputrune. rewrite (wrap_small 32) by done.
  destruct (Z.ltb_spec c Runeself) as [Hs|Hs]; unfold Runeself in Hs.
  - assert (r = c) as Er by (unfold r, Runemax; bcase; lia).
    destruct (Bputc_ok G p b w c R) as (b' & w' & E & R'). rewrite E. cbn [mbind option_bind].
    rewrite Er, utf8_low by lia. rewrite wrap_small in R' by range. by eexists _, _.
  - unfold runetochar. rewrite runetochar_utf8 by range. fold r. pose proof (utf8_len r) as Hl. unfold UTFmax in *.
    change (replicate (Z.to_nat 4) 0) with [0; 0; 0; 0].
    destruct (store_sub [0; 0; 0; 0] 0 (utf8 r)) as (m' & E & L & S & _); [lia|cbn [length]; lia|].
    rewrite E. cbn [mbind option_bind]. destruct (Z.eqb_spec (len (utf8 r)) 0); [lia|].
    unfold sub in S. cbn [drop] in S. change (drop (Z.to_nat 0) m') with m' in S. rewrite S.
    destruct (Bwrite_ok G p b w (utf8 r) R) as (b' & w' & E' & R'). rewrite E'. cbn [mbind option_bind].
    rewrite Z.eqb_refl. by eexists _, _.
Qed.

(** [Bseek] flushes first. *)
Lemma Bseek_write_ok G p b w off base :
  winv G p b w -> base = 0 \/ base = 2 -> 0 <= seek_target G p off base ->
  exists b' w', Bseek b w off base = Some (seek_target G p off base, b', w') /\
    winv G (seek_target G p off base) b' w' /\ contents w' = G.
Proof.
  intros R Hb Hn. unfold Bseek. rewrite (w_state _ _ _ _ R).
  destruct (Bflush_ok _ _ _ _ R) as (b1 & w1 & E & R1 & E1 & E2 & E3). rewrite E. cbn [mbind option_bind].
  rewrite (w_fid _ _ _ _ R1). pose proof (sys_seek_spec w1 off base Hb) as Hsk. cbv zeta in Hsk. rewrite E1 in Hsk.
  assert ((if base =? 0 then off else len G + off) = seek_target G p off base) as Et by (unfold seek_target; by destruct Hb as [-> | ->]).
  rewrite Et in Hsk. destruct (Hsk Hn) as (w2 & Es & Ec & Ep). rewrite Es. eexists _, _. split; [reflexivity|]. split; [|done].
  open_wbuf b1 w1 R1. split; fields; try done; try lia. rewrite E3, Ec. replace (bz + - bz) with 0 by lia. by rewrite sub_nil.
Qed.
End writing.

(** ** When the system refuses *)

Section errors.
Context `{Sys W}.
Implicit Types (b : Biobuf) (w : W).

(** A flush that fails makes the buffer inactive. *)
Lemma Bflush_fails b w bs c w' :
  state b = Bwactive -> bsize b + ocount b <> 0 -> load (mem b) (bbuf b) (bsize b + ocount b) = Some bs ->
  sys_write w (fid b) bs = (c, w') -> c <> bsize b + ocount b ->
  exists b', Bflush b w = Some (Beof, b', w') /\ state b' = Binactive /\ ocount b' = 0.
Proof.
  intros Hs Hn Hl Hw Hc. unfold Bflush. rewrite Hs, Hl. cbn [mbind option_bind]. rewrite Hw.
  destruct (Z.eqb_spec (bsize b + ocount b) 0); [done|]. destruct (Z.eqb_spec (bsize b + ocount b) c); [lia|].
  by eexists.
Qed.

(** Nothing more is written then, and every attempt is reported. *)
Lemma inactive_refuses b w c bs off base :
  state b = Binactive -> ocount b = 0 -> bs <> [] ->
  Bputc b w c = Some (Beof, b, w) /\ Bwrite b w bs = Some (Beof, b, w) /\ Bflush b w = Some (Beof, b, w) /\
  Bseek b w off base = Some (Beof, b, w).
Proof.
  intros Hs Ho Hb. unfold Bputc, Bwrite, Bseek. cbn [Bputc_loop Bwrite_loop Nat.mul Nat.add]. rewrite Ho.
  assert (Bflush b w = Some (Beof, b, w)) as Ef by (unfold Bflush; by rewrite Hs). cbn [Z.eqb negb]. rewrite Ef, Hs. cbn [mbind option_bind].
  split_and!; try done. destruct bs as [|b0 bs]; [done|]. cbn [length]. destruct (Z.ltb_spec 0 (Z.of_nat (S (length bs)))); [|lia].
  change (- 0) with 0. destruct (Z.ltb_spec (Z.of_nat (S (length bs))) 0); [lia|]. cbn [Z.eqb]. by rewrite decide_False.
Qed.

(** [Bputc] on a buffer that reads never returns: there is no room, and the flush that should
    make some succeeds. *)
Lemma Bputc_reading b w c fuel :
  state b = Bractive \/ state b = Bracteof -> ocount b = 0 -> Bputc_loop fuel b w c = None.
Proof.
  revert b. induction fuel as [|fuel IH]; intros b Hs Ho; [done|]. cbn [Bputc_loop]. rewrite Ho. cbn [Z.eqb negb].
  unfold Bflush. destruct Hs as [-> | ->]; cbn [mbind option_bind]; apply IH; [by left|done|by left|done].
Qed.
End errors.
