(* ===== verification/BioStr.v ===== *)
(** * Lines of any length: [Brdstr] *)

From S2P Require Import Prelude Utf UtfString Bio BioRead.

(** The string that [badd] has built of the bytes [acc]. *)
Definition built (acc : bytes) : option bytes := match acc with [] => None | _ => Some (acc ++ [0]) end.

(** What [badd] strips off its string. *)
Definition stripped (s : bytes) (delim : Z) (nulldelim : bool) : bytes :=
  match last s with
  | Some c => if nulldelim && (s8 c =? delim) then removelast s else s
  | None => s
  end.

Lemma badd_built acc data delim nulldelim :
  badd (built acc) (len acc) data delim nulldelim =
  (Some (stripped (acc ++ data) delim nulldelim ++ [0]), len (stripped (acc ++ data) delim nulldelim)).
Proof.
  unfold badd, stripped. rewrite Nat2Z.id.
  replace (take (length acc) (default [] (built acc))) with acc; [done|].
  destruct acc as [|a acc]; [done|].
  change (default [] (built (a :: acc))) with ((a :: acc) ++ [0]). by rewrite take_app_length.
Qed.

Lemma stripped_snoc s c delim : s8 c = delim -> stripped (s ++ [c]) delim true = s.
Proof. intros E. unfold stripped. rewrite last_snoc, E, Z.eqb_refl. cbn [andb]. apply removelast_last. Qed.

Lemma stripped_not s delim : stripped s delim false = s.
Proof. unfold stripped. by destruct (last s). Qed.

(** The line at the start of [R], and what remains of it in the string. *)
Definition line_of (R : bytes) (delim : Z) : bytes :=
  match memchr R delim with Some j => sub R 0 (j + 1) | None => R end.

Definition string_of (R : bytes) (delim : Z) (nulldelim : bool) : bytes :=
  match memchr R delim with Some j => sub R 0 (if nulldelim then j else j + 1) | None => R end.

Lemma memchr_at R c j : memchr R c = Some j -> R !! Z.to_nat j = Some (u8 c).
Proof.
  revert j. induction R as [|x R IH]; intros j; cbn [memchr]; [done|].
  destruct (Z.eqb_spec x (u8 c)) as [->|]; [by intros [= <-]|]. destruct (memchr R c) as [k|] eqn:E; [|done].
  cbn. intros [= <-]. apply memchr_range in E as Hk. replace (Z.to_nat (k + 1)) with (S (Z.to_nat k)) by lia. by apply IH.
Qed.

Section strings.
Context `{Readable W fd}.
Implicit Types (b : Biobuf) (w : W) (F acc : bytes) (p : Z).

(** What [Brdstr] promises. *)
Definition str_result F p delim nulldelim (r : option bytes) b w : Prop :=
  let R := drop (Z.to_nat p) F in
  r = (if decide (R = []) then None else Some (string_of R delim nulldelim ++ [0])) /\
  rdline b = (if decide (R = []) then 0 else len (string_of R delim nulldelim)) /\
  rinv false F (p + len (line_of R delim)) false 0 b w /\ - icount b <= bsize b.

Lemma string_stripped F p delim nulldelim j :
  0 <= delim < 128 -> 0 <= p -> memchr (drop (Z.to_nat p) F) delim = Some j ->
  stripped (sub F p (j + 1)) delim nulldelim = string_of (drop (Z.to_nat p) F) delim nulldelim.
Proof.
  intros Hd Hp E. unfold string_of. rewrite E. destruct nulldelim; [|by rewrite stripped_not].
  apply memchr_range in E as Hj. rewrite sub_plus by lia. apply memchr_at in E. rewrite lookup_drop in E.
  assert (sub F (p + j) 1 = [u8 delim]) as ->.
  { apply load1_sub; [lia|]. unfold load1. destruct (Z.leb_spec 0 (p + j)); [|lia]. rewrite <- E. f_equal. lia. }
  apply stripped_snoc. rewrite swrap_wrap by done. apply swrap_small; [done|]. unfold in_s. lia.
Qed.

(** The delimiter found at offset [ep] of the [n] bytes in the buffer. *)
Lemma Brdstr_found_ok F p q delim nulldelim acc ep n oc rs fl bz m w ic0 g :
  0 <= delim < 128 -> 4 <= bz -> len m = 4 + bz -> contents w = F -> 0 <= p -> q = p + len acc -> pos w = q + n ->
  0 <= ep < n -> n <= bz -> q + n <= len F -> acc = sub F p (len acc) -> sub m 4 n = sub F q n ->
  memchr (acc ++ sub F q n) delim = Some (len acc + ep) ->
  exists r b' w', Brdstr_found (mkBiobuf ic0 oc (len acc) rs Bractive fd fl (q + n) bz 4 (4 + bz) g m) w delim nulldelim n ep (built acc)
    = Some (r, b', w') /\ str_result F p delim nulldelim r b' w'.
Proof.
  intros Hd Hz Lm RF Hp Eq Rp Hep Hn HF Ea Sm Hmc. unfold Brdstr_found. fields.
  assert (Bungetsize = 4) as B4 by done.
  assert (exists m3 g', (if n <? bz then m' ← memmove m (4 + bz - n) 4 n; Some (mkBiobuf ic0 oc (len acc) rs Bractive fd fl (q + n) bz 4 (4 + bz) (4 + bz - n) m')
      else Some (mkBiobuf ic0 oc (len acc) rs Bractive fd fl (q + n) bz 4 (4 + bz) g m))
    = Some (mkBiobuf ic0 oc (len acc) rs Bractive fd fl (q + n) bz 4 (4 + bz) g' m3) /\ len m3 = 4 + bz /\
    sub m3 (4 + bz - n) n = sub F q n) as (m3 & g' & E3 & L3 & S3).
  { destruct (Z.ltb_spec n bz).
    - destruct (memmove_sub m (4 + bz - n) 4 n) as (m3 & E3 & L3 & S3 & _); [lia..|]. rewrite E3.
      eexists m3, _. split; [reflexivity|]. split; [lia|]. by rewrite S3.
    - eexists m, g. split; [done|]. split; [done|]. by replace (4 + bz - n) with 4 by lia. }
  rewrite E3. cbn [mbind option_bind]. fields. rewrite load_sub by lia. cbn [mbind option_bind].
  assert (sub m3 (4 + bz - n) (ep + 1) = sub F q (ep + 1)) as Sd.
  { rewrite <- (Z.add_0_r (4 + bz - n)), <- (Z.add_0_r q). rewrite <- (sub_sub m3 _ n), <- (sub_sub F _ n) by lia. by rewrite S3. }
  rewrite Sd, badd_built. eexists _, _, _. split; [reflexivity|].
  set (R := drop (Z.to_nat p) F).
  assert (acc ++ sub F q (ep + 1) = sub F p (len acc + ep + 1)) as Eline.
  { rewrite Ea at 1. replace (len acc + ep + 1) with (len acc + (ep + 1)) by lia. rewrite (sub_plus F p (len acc)), Eq by lia. done. }
  assert (forall k, sub R 0 k = sub F p k) as ER by done.
  assert (memchr R delim = Some (len acc + ep)) as EmR.
  { rewrite <- (take_drop (Z.to_nat (len acc + n)) R). change (take (Z.to_nat (len acc + n)) R) with (sub F p (len acc + n)).
    rewrite sub_plus, <- Ea, <- Eq, memchr_app, Hmc by lia. done. }
  assert (R <> []) as HR by (by intros E0; rewrite E0 in EmR).
  assert (stripped (acc ++ sub F q (ep + 1)) delim nulldelim = string_of R delim nulldelim) as Est
    by (rewrite Eline; by apply string_stripped).
  unfold str_result. fold R. rewrite !decide_False by done. fields. rewrite Est. split; [done|]. split; [done|].
  unfold line_of. rewrite EmR, ER, sub_length by lia. split; [|lia].
  split; fields; try done; try lia. split_and!; [lia..|].
  replace (4 + bz - (0 - (ep + 1 - n))) with (4 + bz - n + (ep + 1)) by lia. 
  replace (q + n - (0 - (ep + 1 - n))) with (q + (ep + 1)) by lia.
  rewrite <- (sub_sub m3 _ n), <- (sub_sub F _ n) by lia. by rewrite S3.
Qed.

(** The end of the file with [i] bytes in the buffer, where a NUL is put in for the delimiter. *)
Lemma Brdstr_end_ok F p q acc i oc rs fl bz m w ic0 g delim nulldelim :
  4 <= bz -> len m = 4 + bz -> contents w = F -> 0 <= p -> q = p + len acc -> pos w = q + i ->
  0 < i < bz -> q + i = len F -> acc = sub F p (len acc) -> sub m 4 i = sub F q i ->
  memchr (drop (Z.to_nat p) F) delim = None ->
  exists m2 r b' w', store m (4 + i) [0] = Some m2 /\
    Brdstr_found (mkBiobuf ic0 oc (len acc) rs Bractive fd fl (q + i) bz 4 (4 + bz) g m2) w 0 true (i + 1) i (built acc)
    = Some (r, b', w') /\ str_result F p delim nulldelim r b' w'.
Proof.
  intros Hz Lm RF Hp Eq Rp Hi HF Ea Sm Hmc. assert (Bungetsize = 4) as B4 by done.
  destruct (append_memory m [0] i bz) as (m2 & m3 & E2 & L2 & K2 & E3 & L3 & K3); [lia|lia|cbn [length]; lia|].
  cbn [length] in *. change (Z.of_nat 1) with 1 in *. exists m2. unfold Brdstr_found. fields.
  assert (exists m4 g', (if i + 1 <? bz then m' ← memmove m2 (4 + bz - (i + 1)) 4 (i + 1);
      Some (mkBiobuf ic0 oc (len acc) rs Bractive fd fl (q + i) bz 4 (4 + bz) (4 + bz - (i + 1)) m')
      else Some (mkBiobuf ic0 oc (len acc) rs Bractive fd fl (q + i) bz 4 (4 + bz) g m2))
    = Some (mkBiobuf ic0 oc (len acc) rs Bractive fd fl (q + i) bz 4 (4 + bz) g' m4) /\ len m4 = 4 + bz /\
    sub m4 (4 + bz - (i + 1)) (i + 1) = sub F q i ++ [0]) as (m4 & g' & E4 & L4 & S4).
  { destruct (Z.ltb_spec (i + 1) bz).
    - rewrite E3. eexists m3, _. split; [reflexivity|]. split; [lia|]. by rewrite K3, Sm.
    - eexists m2, g. split; [done|]. split; [lia|]. replace (4 + bz - (i + 1)) with 4 by lia. by rewrite K2, Sm. }
  rewrite E4. cbn [mbind option_bind]. fields. rewrite load_sub by lia. cbn [mbind option_bind].
  rewrite S4, badd_built, (app_assoc acc), stripped_snoc by done. eexists _, _, _. split; [done|]. split; [reflexivity|].
  set (R := drop (Z.to_nat p) F) in *.
  assert (acc ++ sub F q i = R) as ER.
  { rewrite Ea, Eq, <- sub_plus by lia. unfold sub, R. apply take_ge. rewrite length_drop. lia. }
  assert (R <> []) as HR by (rewrite <- ER; intros [_ E0]%app_nil; apply (f_equal length) in E0; unfold sub in E0;
    rewrite length_take, length_drop in E0; cbn in E0; lia).
  unfold str_result, string_of, line_of. fold R. rewrite Hmc, !decide_False, ER by done. fields. split; [done|]. split; [done|].
  assert (len R = len acc + i) as LR by (rewrite <- ER, length_app, Nat2Z.inj_add, sub_length by lia; lia).
  replace (i + 1 - (i + 1)) with 0 by lia. split; [|lia].
  split; fields; try done; try lia. apply known_0; lia.
Qed.

(** Both loops. *)
Lemma Brdstr_loop_ok F p delim nulldelim fuel : forall acc oc rs fl bz m w i q ic0 g,
  0 <= delim < 128 -> 4 <= bz -> len m = 4 + bz -> contents w = F -> 0 <= p -> q = p + len acc -> pos w = q + i ->
  0 <= i <= bz -> (0 < len acc + i -> q + i <= len F) -> acc = sub F p (len acc) -> sub m 4 i = sub F q i ->
  memchr (acc ++ sub F q i) delim = None ->
  (i = 0 -> ic0 = 0) ->
  2 * Z.max 0 (len F - (q + i)) + (if i =? bz then 1 else 0) < Z.of_nat fuel ->
  exists r b' w', Brdstr_loop fuel (mkBiobuf ic0 oc (len acc) rs Bractive fd fl (q + i) bz 4 (4 + bz) g m) w delim nulldelim i (built acc)
    = Some (r, b', w') /\ str_result F p delim nulldelim r b' w'.
Proof.
  induction fuel as [|fuel IH]; intros acc oc rs fl bz m w i q ic0 g Hd Hz Lm RF Hp Eq Rp Hi HiF Ea Sm Hmc Hic Hf; [bcase; lia|].
  cbn [Brdstr_loop]. fields. assert (Bungetsize = 4) as B4 by done.
  destruct (Z.ltb_spec i bz) as [Hlt|Hge].
  2:{ assert (i = bz) as -> by lia. rewrite Z.eqb_refl in Hf. rewrite load_sub by lia. cbn [mbind option_bind].
      rewrite badd_built, stripped_not, Sm. cbv zeta iota.
      assert (len (sub F q bz) = bz) as Ls by (apply sub_length; lia).
      replace (Some ((acc ++ sub F q bz) ++ [0])) with (built (acc ++ sub F q bz)).
      2:{ unfold built. destruct (acc ++ sub F q bz) eqn:E; [|done]. apply app_nil in E as [_ E]. rewrite E in Ls. cbn in Ls. lia. }
      replace (q + bz) with (q + bz + 0) by lia. apply IH; try done; try lia; rewrite ?length_app, ?Nat2Z.inj_add, ?Ls.
      - lia.
      - rewrite (sub_plus F p), <- Ea, Eq by lia. done.
      - rewrite sub_nil, app_nil_r. done.
      - destruct (Z.eqb_spec 0 bz); lia. }
  destruct (sys_read_spec w (bz - i) ltac:(lia)) as (bs & w' & Er & Lb & Ew & Ep & Es & Hz0). rewrite Er, RF, Rp in *.
  destruct bs as [|c0 bs0]; [|set (bs := c0 :: bs0) in *].
  - specialize (Hz0 eq_refl). cbn [length] in *.
    assert (memchr (drop (Z.to_nat p) F) delim = None) as HmR.
    { rewrite <- (take_drop (Z.to_nat (len acc + i)) (drop (Z.to_nat p) F)).
      change (take (Z.to_nat (len acc + i)) (drop (Z.to_nat p) F)) with (sub F p (len acc + i)).
      rewrite drop_drop, (drop_ge F), app_nil_r, sub_plus, <- Ea, <- Eq by lia. done. }
    destruct (Z.eqb_spec i 0) as [->|Hi0].
    + eexists _, _, _. split; [reflexivity|]. set (R := drop (Z.to_nat p) F) in *. rewrite Z.add_0_r in *.
      assert (acc = R) as ER.
      { rewrite Ea. unfold sub, R. apply take_ge. rewrite length_drop. lia. }
      unfold str_result, string_of, line_of. fold R. rewrite HmR. rewrite <- ER in *.
      rewrite (Hic eq_refl). split; [|split; fields].
      * destruct acc; [by rewrite decide_True|by rewrite decide_False].
      * destruct acc; [by rewrite decide_True|by rewrite decide_False].
      * split; [|lia]. split; fields; try done; try lia. apply known_0; lia.
    + destruct (Brdstr_end_ok F p q acc i oc rs fl bz m w' ic0 g delim nulldelim) as (m2 & r & b' & w'' & E2 & E & HR);
        try done; try lia. rewrite E2. cbn [mbind option_bind]. by eexists _, _, _.
  - assert (0 < len bs) as Hl by (unfold bs; cbn [length]; lia).
    destruct (append_memory m bs i bz) as (m2 & m3 & E2 & L2 & K2 & E3 & L3 & K3); [lia..|].
    rewrite E2. cbn [mbind option_bind]. fields. clear E3 L3 K3.
    assert (q + (i + len bs) <= len F) as HF.
    { assert (len (sub F (q + i) (len bs)) = len bs) as L by (by rewrite Es).
      unfold sub in L. rewrite length_take, length_drop in L. lia. }
    assert (sub F q i ++ bs = sub F q (i + len bs)) as EF by (rewrite sub_plus, Es by lia; done).
    rewrite Sm, EF in K2. replace (q + i + len bs) with (q + (i + len bs)) in * by lia.
    destruct (memchr bs delim) as [ep|] eqn:Emc.
    + apply memchr_range in Emc as Hep. apply Brdstr_found_ok; try done; try lia.
      rewrite <- EF, app_assoc, memchr_app, Hmc, Emc. cbn. f_equal. rewrite length_app, Nat2Z.inj_add, sub_length; lia.
    + apply IH; try done; try lia.
      * rewrite <- EF, app_assoc, memchr_app, Hmc, Emc. done.
      * destruct (Z.eqb_spec i bz); [lia|]. bcase; lia.
Qed.

Lemma Brdstr_ok s F p eof u b w delim nulldelim fuel :
  rinv s F p eof u b w -> - icount b <= bsize b -> 0 <= delim < 128 -> 2 * len F + 2 <= Z.of_nat fuel ->
  exists r b' w', Brdstr fuel b w delim nulldelim = Some (r, b', w') /\ str_result F p delim nulldelim r b' w'.
Proof.
  intros Rv Hib Hd Hf. pose proof (pos_nonneg w) as Hp0. unfold Brdstr. destruct eof.
  - destruct (r_eof _ _ _ _ _ _ _ Rv eq_refl) as [Hi He]. open_buf b Rv. subst st ic. cbn [Z.opp Z.eqb andb].
    rewrite bool_decide_false by done. cbn [negb]. rewrite decide_True by done. eexists _, _, _. split; [reflexivity|].
    unfold str_result, line_of. rewrite drop_ge, !decide_True by (done || lia). cbn [memchr length]. rewrite Z.add_0_r. fields.
    split; [done|]. split; [done|]. split; [|lia]. split; fields; try done; try lia. apply known_0; lia.
  - open_buf b Rv. subst st. rewrite bool_decide_true, andb_false_r by done.
    pose proof Rk as (K1 & K2 & K3 & _). apply (known_less _ _ _ _ _ (- ic)) in Rk as Kc; [|lia].
    destruct Kc as (_ & _ & _ & Kc). rewrite load_sub by lia. cbn [mbind option_bind].
    replace (o - - ic) with p in * by lia. rewrite Kc. destruct (memchr (sub F p (- ic)) delim) as [ep|] eqn:Emc.
    + destruct (Z.eq_dec ic 0) as [->|Hic]; [done|]. apply memchr_range in Emc as Hep. rewrite sub_length in Hep by lia.
      set (R := drop (Z.to_nat p) F).
      assert (memchr R delim = Some ep) as EmR.
      { rewrite <- (take_drop (Z.to_nat (- ic)) R). change (take (Z.to_nat (- ic)) R) with (sub F p (- ic)).
        by rewrite memchr_app, Emc. }
      assert (R <> []) as HR by (by intros E0; rewrite E0 in EmR).
      rewrite load_sub by lia. cbn [mbind option_bind].
      assert (sub m (eb - - ic) (ep + 1) = sub F p (ep + 1)) as Sd.
      { rewrite <- (Z.add_0_r (eb - - ic)), <- (Z.add_0_r p). rewrite <- (sub_sub m _ (- ic)), <- (sub_sub F _ (- ic)) by lia. by rewrite Kc. }
      rewrite Sd, (badd_built []). eexists _, _, _. split; [reflexivity|].
      unfold str_result. fold R. cbn [app]. rewrite !decide_False, string_stripped by (done || lia). fields.
      split; [done|]. split; [done|]. unfold line_of. rewrite EmR. change (sub R 0 (ep + 1)) with (sub F p (ep + 1)).
      rewrite sub_length by lia. split; [|lia]. split; fields; try done; try lia. apply (known_less _ _ _ _ _ _ Rk). lia.
    + assert (exists m1, (if - ic <? bz then memmove m bb (eb - - ic) (- ic) else Some m) = Some m1 /\ len m1 = 4 + bz /\
        sub m1 4 (- ic) = sub F p (- ic)) as (m1 & E1 & L1 & S1).
      { destruct (Z.ltb_spec (- ic) bz).
        - destruct (memmove_sub m bb (eb - - ic) (- ic)) as (m1 & E1 & L1 & S1 & _); [lia..|].
          exists m1. split_and!; [done|lia|]. by rewrite Rb, Kc in S1.
        - exists m. split_and!; [done|lia|]. rewrite <- Kc. f_equal. lia. }
      rewrite E1. cbn [mbind option_bind]. fields. rewrite Rb, Re, Rf. change Bungetsize with 4.
      replace o with (p + - ic) by lia. apply (Brdstr_loop_ok F p delim nulldelim fuel []); try done; try lia; [cbn; lia..|].
      cbn [length]. bcase; lia.
Qed.
End strings.
