(* ===== verification/BioProps.v ===== *)
(** * What [libbio] promises

    Sequences of operations on a buffer against a plain file, the round trip of runes, and the
    uses on which the library goes wrong. *)

From S2P Require Import Prelude Utf UtfString Bio BioRead BioWrite BioStr.

(** ** The abstract file: contents, a position and whether the end has been met *)

Inductive rop :=
| RGetc | RRead (n : Z) | RSeek (off base : Z) | RLine (delim : Z) | ROffset.

Inductive read_result :=
| GotByte (c : Z) | GotBytes (bs : bytes) | GotPos (n : Z) | GotLine (l : option bytes) (n : Z).

(** A reader of the file [F] with lines up to [bz] bytes. There is no step for a second [Bgetc] at
    the end of the file (after which a seek may go wrong) nor for a seek before the start. *)
Definition file_step (F : bytes) (bz : Z) (st : Z * bool) (o : rop) : option (read_result * (Z * bool)) :=
  let '(p, eof) := st in
  match o with
  | RGetc =>
      if (p <? len F) then c ← F !! Z.to_nat p; Some (GotByte c, (p + 1, false))
      else if (eof : bool) then None else Some (GotByte Beof, (p, true))
  | RRead n =>
      if n <? 0 then None
      else Some (GotBytes (sub F p n), (p + len (sub F p n), eof || (0 <? n) && (len F <? p + n)))
  | RSeek off base =>
      let n := seek_target F p off base in
      if (0 <=? base) && (base <=? 2) && (0 <=? n) then Some (GotPos n, (n, false)) else None
  | RLine delim =>
      match memchr (sub F p bz) delim with
      | Some j => Some (GotLine (Some (sub F p (j + 1))) (j + 1), (p + (j + 1), false))
      | None => Some (GotLine None (len (sub F p bz)), (p, false))
      end
  | ROffset => Some (GotPos p, (p, eof))
  end.

Fixpoint file_run (F : bytes) (bz : Z) (st : Z * bool) (ops : list rop) : option (list read_result * (Z * bool)) :=
  match ops with
  | [] => Some ([], st)
  | o :: ops => '(r, st) ← file_step F bz st o; '(rs, st) ← file_run F bz st ops; Some (r :: rs, st)
  end.

Section refinement.
Context `{Readable W fd}.
Implicit Types (b : Biobuf) (w : W).

Definition bio_step b w (o : rop) : option (read_result * Biobuf * W) :=
  match o with
  | RGetc => '(c, b, w) ← Bgetc b w; Some (GotByte c, b, w)
  | RRead n => '(bs, b, w) ← Bread b w n; Some (GotBytes bs, b, w)
  | RSeek off base => '(n, b, w) ← Bseek b w off base; Some (GotPos n, b, w)
  | RLine delim =>
      '(r, b, w) ← Brdline b w delim;
      match r with
      | Some ip => l ← load (mem b) ip (Blinelen b); Some (GotLine (Some l) (Blinelen b), b, w)
      | None => Some (GotLine None (Blinelen b), b, w)
      end
  | ROffset => Some (GotPos (Boffset b), b, w)
  end.

Fixpoint bio_run b w (ops : list rop) : option (list read_result * Biobuf * W) :=
  match ops with
  | [] => Some ([], b, w)
  | o :: ops => '(r, b, w) ← bio_step b w o; '(rs, b, w) ← bio_run b w ops; Some (r :: rs, b, w)
  end.

(** The size of a buffer does not change. *)
Lemma Bgetc_fill_size b w go b' w' : Bgetc_fill b w = Some (go, b', w') -> bsize b' = bsize b.
Proof.
  unfold Bgetc_fill. intros E. apply bind_Some in E as (m & _ & E). destruct (sys_read _ _ _) as [[[|c bs]|] w1].
  - by injection E as <- <- <-.
  - cbv zeta in E. apply bind_Some in E as (m2 & _ & E). apply bind_Some in E as (b2 & E2 & E). injection E as <- <- <-.
    destruct (_ <? _); [apply bind_Some in E2 as (m3 & _ & E2)|]; by injection E2 as <-.
  - by injection E as <- <- <-.
Qed.

Lemma Bgetc_size b w c b' w' : Bgetc b w = Some (c, b', w') -> bsize b' = bsize b.
Proof.
  unfold Bgetc. cbn [Bgetc_loop]. intros E. destruct (negb _).
  - apply bind_Some in E as (x & _ & E). by injection E as <- <- <-.
  - destruct (decide (state b = Bractive)); [|by injection E as <- <- <-; destruct (decide _)].
    apply bind_Some in E as ([[go b1] w1] & Ef & E). apply Bgetc_fill_size in Ef. destruct go; [|by injection E as <- <- <-].
    destruct (negb _); [apply bind_Some in E as (x & _ & E); by injection E as <- <- <-|].
    destruct (decide _); [apply bind_Some in E as ([[[] b2] w2] & Ef2 & E); [done|]; apply Bgetc_fill_size in Ef2; injection E as <- <- <-; congruence|].
    injection E as <- <- <-. by destruct (decide _).
Qed.

Lemma Bread_size b w n bs b' w' : Bread b w n = Some (bs, b', w') -> bsize b' = bsize b.
Proof.
  unfold Bread. generalize (S (2 * Z.to_nat n)) (icount b) ([] : bytes). intros fuel. revert b w n.
  induction fuel as [|fuel IH]; intros b w n ic acc; cbn [Bread_loop]; [done|]. intros E.
  destruct (0 <? n); [|by injection E as <- <- <-]. set (k := if n <? - ic then n else - ic) in *. destruct (k =? 0).
  - destruct (decide _); [|by injection E as <- <- <-]. destruct (sys_read _ _ _) as [[[|c l]|] w1]; [by injection E as <- <- <-| |by injection E as <- <- <-].
    cbv zeta in E. apply bind_Some in E as (m & _ & E). apply bind_Some in E as (b2 & E2 & E). apply IH in E. rewrite E.
    destruct (len (c :: l) <? _); [apply bind_Some in E2 as (m3 & _ & E2)|]; by injection E2 as <-.
  - apply bind_Some in E as (l & _ & E). by apply IH in E.
Qed.

Lemma Brdline_size b w d r b' w' : Brdline b w d = Some (r, b', w') -> bsize b' = bsize b.
Proof.
  assert (forall fuel b w i, Brdline_loop fuel b w d i = Some (r, b', w') -> bsize b' = bsize b) as Hloop.
  { induction fuel as [|fuel IH]; intros b1 w1 i; cbn [Brdline_loop]; [done|]. intros E.
    destruct (_ <? _); [|by injection E as <- <- <-]. destruct (sys_read _ _ _) as [[[|c l]|] w2].
    - apply bind_Some in E as (m & _ & E). by injection E as <- <- <-.
    - cbv zeta in E. apply bind_Some in E as (m & _ & E). destruct (memchr _ _); [|by apply IH in E].
      apply bind_Some in E as (b2 & E2 & E). injection E as <- <- <-.
      destruct (_ <? _); [apply bind_Some in E2 as (m3 & _ & E2)|]; by injection E2 as <-.
    - apply bind_Some in E as (m & _ & E). by injection E as <- <- <-. }
  unfold Brdline. intros E. destruct (_ && _); [injection E as <- <- <-; by destruct (decide _)|].
  apply bind_Some in E as (l & _ & E). destruct (memchr _ _); [by injection E as <- <- <-|].
  apply bind_Some in E as (m & _ & E). by apply Hloop in E.
Qed.

Lemma Bflush_size b w r b' w' : Bflush b w = Some (r, b', w') -> bsize b' = bsize b.
Proof.
  unfold Bflush. intros E. destruct (state b); try by injection E as <- <- <-.
  destruct (_ =? _); [by injection E as <- <- <-|]. apply bind_Some in E as (l & _ & E).
  destruct (sys_write _ _ _). destruct (_ =? _); by injection E as <- <- <-.
Qed.

Lemma Bseek_size b w off base r b' w' : Bseek b w off base = Some (r, b', w') -> bsize b' = bsize b.
Proof.
  unfold Bseek. intros E. set (b1 := if decide (state b = Bracteof) then _ else b) in *.
  assert (bsize b1 = bsize b) as E1 by (unfold b1; by destruct (decide _)).
  destruct (state b); [by injection E as <- <- <-| | |];
    [|apply bind_Some in E as ([[r1 b2] w2] & Ef & E); apply Bflush_size in Ef; destruct (sys_seek _ _ _ _); by injection E as <- <- <-|].
  all: destruct (if base =? 1 then _ else _) as [n bs]; cbv zeta in E.
  all: destruct ((bs =? 0) && _ && _); cbn [andb] in E; [destruct (if 0 <=? _ then _ else _)|]; try (by injection E as <- <- <-).
  all: destruct (sys_seek _ _ _ _); by injection E as <- <- <-.
Qed.

Lemma bio_step_refines F p eof u b w o r p' eof' :
  rinv true F p eof u b w -> file_step F (bsize b) (p, eof) o = Some (r, (p', eof')) ->
  exists b' w' u', bio_step b w o = Some (r, b', w') /\ rinv true F p' eof' u' b' w' /\ bsize b' = bsize b.
Proof.
  intros R E. destruct o as [|n|off base|delim|]; cbn [file_step bio_step] in *.
  - destruct (Bgetc_ok _ _ _ _ _ _ _ R) as (c & b' & w' & Ec & Hc). pose proof (Bgetc_size _ _ _ _ _ Ec) as Hs.
    rewrite Ec. cbn [mbind option_bind]. destruct (Z.ltb_spec p (len F)).
    + destruct Hc as [Hl R']. rewrite Hl in E. injection E as <- <- <-. by eexists _, _, _.
    + destruct eof; [done|]. injection E as <- <- <-. destruct Hc as [-> R']. by eexists _, _, _.
  - destruct (Z.ltb_spec n 0); [done|]. injection E as <- <- <-.
    destruct (Bread_ok _ _ _ _ _ _ _ n R) as (b' & w' & Eb & R'); [lia|]. pose proof (Bread_size _ _ _ _ _ _ Eb).
    rewrite Eb. by eexists _, _, _.
  - destruct (Z.leb_spec 0 base), (Z.leb_spec base 2), (Z.leb_spec 0 (seek_target F p off base)); try done. injection E as <- <- <-.
    destruct (Bseek_ok _ _ _ _ _ _ off base R) as (b' & w' & Eb & R'); [lia|done|]. pose proof (Bseek_size _ _ _ _ _ _ _ Eb).
    rewrite Eb. by eexists _, _, _.
  - destruct (Brdline_ok _ _ _ _ _ _ delim R) as (r' & b' & w' & Eb & Hl). pose proof (Brdline_size _ _ _ _ _ _ Eb).
    rewrite Eb. cbn [mbind option_bind]. unfold line_result in Hl. destruct (memchr _ delim) as [j|]; injection E as <- <- <-.
    + destruct Hl as (ip & -> & El & Er & R'). unfold Blinelen. rewrite El, Er. by eexists _, _, _.
    + destruct Hl as (-> & Er & R'). unfold Blinelen. rewrite Er. by eexists _, _, _.
  - injection E as <- <- <-. exists b, w, u. split; [|done]. unfold Boffset. rewrite (r_state _ _ _ _ _ _ _ R), (r_p _ _ _ _ _ _ _ R).
    by destruct eof.
Qed.

Lemma bio_run_refines F ops : forall p eof u b w rs p' eof',
  rinv true F p eof u b w -> file_run F (bsize b) (p, eof) ops = Some (rs, (p', eof')) ->
  exists b' w' u', bio_run b w ops = Some (rs, b', w') /\ rinv true F p' eof' u' b' w'.
Proof.
  induction ops as [|o ops IH]; intros p eof u b w rs p' eof' R E; cbn [file_run bio_run] in *.
  - injection E as <- <- <-. by eexists _, _, _.
  - apply bind_Some in E as ([r [p1 eof1]] & E1 & E). apply bind_Some in E as ([rs1 [p2 eof2]] & E2 & E). injection E as <- <- <-.
    destruct (bio_step_refines _ _ _ _ _ _ _ _ _ _ R E1) as (b1 & w1 & u1 & Eb & R1 & Hs). rewrite Eb. cbn [mbind option_bind].
    rewrite <- Hs in E2. destruct (IH _ _ _ _ _ _ _ _ R1 E2) as (b' & w' & u' & Er & R'). rewrite Er. by eexists _, _, _.
Qed.

Lemma Binits_OREAD b m : Binits_buf b fd OREAD m (len m) =
  (0, mkBiobuf 0 0 0 0 Bractive fd 0 0 (len m - Bungetsize) Bungetsize (Bungetsize + (len m - Bungetsize))
        (Bungetsize + (len m - Bungetsize)) m).
Proof. reflexivity. Qed.

(** A buffer that [Binits_buf] has set up for reading is at the start of the file. *)
Lemma Binits_reads b m w :
  pos w = 0 -> 2 * Bungetsize <= len m -> rinv true (contents w) 0 false 0 (snd (Binits_buf b fd OREAD m (len m))) w.
Proof.
  intros Hp Hm. rewrite Binits_OREAD. cbn [snd]. assert (Bungetsize = 4) as B4 by done.
  split; fields; try done; try lia; [apply known_0; lia|].
  intros _ _. split_and!; [lia..|]. rewrite Z.sub_diag. apply known_0; lia.
Qed.

(** C11: any sequence of [Bgetc], [Bread], [Bseek], [Brdline] and [Boffset] that [file_step] allows
    has on a buffer opened for reading the results it would have on the plain file, whatever
    pieces the system delivers the file in and however large the buffer is. Not allowed are a
    [Bgetc] at the end of the file after a [Bgetc] or [Bread] that has met the end already, with
    no [Bseek] or [Brdline] in between, a negative count, and a [Bseek] to before the start or
    with an unknown base. *)
Theorem bio_read_refines b m w ops rs p eof :
  pos w = 0 -> 2 * Bungetsize <= len m ->
  file_run (contents w) (len m - Bungetsize) (0, false) ops = Some (rs, (p, eof)) ->
  exists b' w', bio_run (snd (Binits_buf b fd OREAD m (len m))) w ops = Some (rs, b', w') /\
    Boffset b' = p /\ contents w' = contents w.
Proof.
  intros Hp Hm E. pose proof (Binits_reads b m w Hp Hm) as R.
  destruct (bio_run_refines _ ops _ _ _ _ _ rs p eof R) as (b' & w' & u' & Er & R'); [destruct b; exact E|].
  exists b', w'. split; [done|]. split; [|apply R']. unfold Boffset.
  rewrite (r_state _ _ _ _ _ _ _ R'), (r_p _ _ _ _ _ _ _ R'). by destruct eof.
Qed.
End refinement.

(** ** Writing *)

Inductive wop := WPutc (c : Z) | WWrite (bs : bytes) | WPutrune (r : Z) | WSeek (off base : Z) | WFlush.

(** A writer of a file: the result and the new contents and position. *)
Definition wfile_step (st : bytes * Z) (o : wop) : option (Z * (bytes * Z)) :=
  let '(G, p) := st in
  match o with
  | WPutc c => Some (0, (overwrite G p [u8 c], p + 1))
  | WWrite bs => Some (len bs, (overwrite G p bs, p + len bs))
  | WPutrune r =>
      if (0 <=? r) && (r <? 2 ^ 32) then
        let u := utf8 (if Runemax <? r then Runeerror else r) in Some (len u, (overwrite G p u, p + len u))
      else None
  | WSeek off base =>
      let n := seek_target G p off base in
      if ((base =? 0) || (base =? 2)) && (0 <=? n) then Some (n, (G, n)) else None
  | WFlush => Some (0, (G, p))
  end.

Fixpoint wfile_run (st : bytes * Z) (ops : list wop) : option (list Z * (bytes * Z)) :=
  match ops with
  | [] => Some ([], st)
  | o :: ops => '(r, st) ← wfile_step st o; '(rs, st) ← wfile_run st ops; Some (r :: rs, st)
  end.

Section writes.
Context `{Writable W fd}.
Implicit Types (b : Biobuf) (w : W).

Definition wbio_step b w (o : wop) : option (Z * Biobuf * W) :=
  match o with
  | WPutc c => Bputc b w c
  | WWrite bs => Bwrite b w bs
  | WPutrune r => Bputrune b w r
  | WSeek off base => Bseek b w off base
  | WFlush => Bflush b w
  end.

Fixpoint wbio_run b w (ops : list wop) : option (list Z * Biobuf * W) :=
  match ops with
  | [] => Some ([], b, w)
  | o :: ops => '(r, b, w) ← wbio_step b w o; '(rs, b, w) ← wbio_run b w ops; Some (r :: rs, b, w)
  end.

Lemma wbio_step_refines G p b w o r G' p' :
  winv G p b w -> wfile_step (G, p) o = Some (r, (G', p')) ->
  exists b' w', wbio_step b w o = Some (r, b', w') /\ winv G' p' b' w'.
Proof.
  intros R E. destruct o as [c|bs|c|off base|]; cbn [wfile_step wbio_step] in *.
  - injection E as <- <- <-. by apply Bputc_ok.
  - injection E as <- <- <-. by apply Bwrite_ok.
  - destruct ((0 <=? c) && (c <? 2 ^ 32)) eqn:Ec; [|done]. injection E as <- <- <-.
    apply Bputrune_ok; [done|]. rewrite andb_true_iff, Z.leb_le, Z.ltb_lt in Ec. done.
  - destruct (((base =? 0) || (base =? 2)) && (0 <=? seek_target G p off base)) eqn:Ec; [|done]. injection E as <- <- <-.
    rewrite andb_true_iff, orb_true_iff, !Z.eqb_eq, Z.leb_le in Ec.
    destruct (Bseek_write_ok G p b w off base R) as (b' & w' & Eb & R' & _); [tauto|tauto|]. by eexists _, _.
  - injection E as <- <- <-. destruct (Bflush_ok _ _ _ _ R) as (b' & w' & Eb & R' & _). by eexists _, _.
Qed.

Lemma wbio_run_refines ops : forall G p b w rs G' p',
  winv G p b w -> wfile_run (G, p) ops = Some (rs, (G', p')) ->
  exists b' w', wbio_run b w ops = Some (rs, b', w') /\ winv G' p' b' w'.
Proof.
  induction ops as [|o ops IH]; intros G p b w rs G' p' R E; cbn [wfile_run wbio_run] in *.
  - injection E as <- <- <-. by eexists _, _.
  - apply bind_Some in E as ([r [G1 p1]] & E1 & E). apply bind_Some in E as ([rs1 [G2 p2]] & E2 & E). injection E as <- <- <-.
    destruct (wbio_step_refines _ _ _ _ _ _ _ _ R E1) as (b1 & w1 & Eb & R1). rewrite Eb. cbn [mbind option_bind].
    destruct (IH _ _ _ _ _ _ _ R1 E2) as (b' & w' & Er & R'). rewrite Er. by eexists _, _.
Qed.

Lemma Binits_writes b m w :
  pos w = 0 -> Bungetsize < len m -> winv (contents w) 0 (snd (Binits_buf b fd OWRITE m (len m))) w.
Proof.
  intros Hp Hm. assert (Binits_buf b fd OWRITE m (len m) =
    (0, mkBiobuf 0 (- (len m - Bungetsize)) 0 0 Bwactive fd 0 0 (len m - Bungetsize) Bungetsize (Bungetsize + (len m - Bungetsize))
          (Bungetsize + (len m - Bungetsize)) m)) as -> by reflexivity.
  cbn [snd]. assert (Bungetsize = 4) as B4 by done. split; fields; try done; try lia.
  rewrite Z.add_opp_diag_r, sub_nil. done.
Qed.

(** C15: any sequence of [Bputc], [Bwrite], [Bputrune], [Bseek] (from the start or from the end of
    the file, to a place that is not before the start) and [Bflush] on a buffer opened for
    writing returns what the same writes return on the plain file, and after [Bterm] or another
    flush the file has the contents it would have then. A rune has its full UTF sequence of up to
    four bytes. *)
Theorem bio_write_refines b m w ops rs G p :
  pos w = 0 -> Bungetsize < len m -> wfile_run (contents w, 0) ops = Some (rs, (G, p)) ->
  exists b1 w1 b2 w2, wbio_run (snd (Binits_buf b fd OWRITE m (len m))) w ops = Some (rs, b1, w1) /\
    Boffset b1 = p /\ Bflush b1 w1 = Some (0, b2, w2) /\ contents w2 = G /\ pos w2 = p /\ Bbuffered b2 = 0.
Proof.
  intros Hp Hm E. pose proof (Binits_writes b m w Hp Hm) as R.
  destruct (wbio_run_refines ops _ _ _ _ rs G p R E) as (b1 & w1 & Er & R1).
  destruct (Bflush_ok _ _ _ _ R1) as (b2 & w2 & Ef & R2 & Ec & Ep & Eo).
  exists b1, w1, b2, w2. split_and!; try done.
  - unfold Boffset. rewrite (w_state _ _ _ _ R1). symmetry. exact (w_p _ _ _ _ R1).
  - unfold Bbuffered. rewrite (w_state _ _ _ _ R2), Eo. lia.
Qed.
End writes.

(** ** Runes *)

Lemma wanted_utf8 r c l : is_rune r -> utf8 r = c :: l -> wanted c = len (utf8 r).
Proof.
  intros Hr. unfold is_rune, Runemax in Hr. unfold utf8, wanted.
  destruct (Z.ltb_spec r 0x80); [|destruct (Z.ltb_spec r 0x800); [|destruct (Z.ltb_spec r 0x10000)]];
    intros [= <- _]; cbn [length]; bcase; divlia.
Qed.

Section runes.
Context `{Readable W fd}.
Implicit Types (b : Biobuf) (w : W).

Fixpoint Bgetrunes (n : nat) b w : option (list Z * Biobuf * W) :=
  match n with
  | O => Some ([], b, w)
  | S n => '(r, b, w) ← Bgetrune b w; '(rs, b, w) ← Bgetrunes n b w; Some (r :: rs, b, w)
  end.

Lemma Bgetrunes_ok rs : forall s pre F eof u b w,
  Forall is_rune rs -> is_bytes F -> F = pre ++ utf8s rs -> rinv s F (len pre) eof u b w ->
  exists b' w', Bgetrunes (S (length rs)) b w = Some (rs ++ [Beof], b', w').
Proof.
  induction rs as [|r rs IH]; intros s pre F eof u b w Hrs HF EF R; cbn [Bgetrunes length].
  - destruct (Bgetrune_ok _ _ _ _ _ _ _ HF R) as (r & b' & w' & E & Hr). rewrite E. cbn [mbind option_bind].
    rewrite lookup_ge_None_2 in Hr by (rewrite EF, app_nil_r; lia). destruct Hr as [-> _]. by eexists _, _.
  - inversion_clear Hrs as [|? ? Hr Hrs']. rewrite utf8s_cons in EF. pose proof (utf8_len r) as Hl.
    destruct (Bgetrune_ok _ _ _ _ _ _ _ HF R) as (r' & b' & w' & E & Hr'). rewrite E. cbn [mbind option_bind].
    destruct (utf8 r) as [|c l] eqn:Eu; [cbn in Hl; lia|]. rewrite Nat2Z.id in Hr'.
    assert (F !! length pre = Some c) as Hc by (rewrite EF; by rewrite lookup_app_r, Nat.sub_diag by lia).
    rewrite Hc in Hr'. unfold rune_result in Hr'. rewrite (wanted_utf8 r c l Hr Eu), Nat2Z.id in Hr'.
    assert (drop (length pre) F = utf8 r ++ utf8s rs) as Ed by (rewrite EF, drop_app_length, Eu; done).
    assert (len pre + len (utf8 r) <= len F) as HlF by (rewrite EF, !length_app, Eu; lia).
    destruct (Z.leb_spec (len pre + len (utf8 r)) (len F)); [|lia]. destruct Hr' as (k & Ek & _ & R').
    assert (is_bytes (utf8s rs)) as Hb by (apply (Forall_drop (in_u 8) (length pre)) in HF; rewrite Ed in HF; by apply Forall_app in HF as [_ ?]).
    rewrite Ed, chartorune_utf8 in Ek by done.
    injection Ek as <- <-. destruct (IH false (pre ++ utf8 r) F false (len (utf8 r)) b' w' Hrs' HF) as (b2 & w2 & E2).
    + by rewrite EF, <- app_assoc, Eu.
    + rewrite length_app, Nat2Z.inj_add. exact R'.
    + cbn [Bgetrunes] in E2. rewrite E2. by eexists _, _.
Qed.
End runes.

Lemma wfile_runes rs : forall G p,
  Forall is_rune rs -> 0 <= p ->
  wfile_run (G, p) (map WPutrune rs) = Some (map (fun r => len (utf8 r)) rs, (overwrite G p (utf8s rs), p + len (utf8s rs))).
Proof.
  induction rs as [|r rs IH]; intros G p Hrs Hp; cbn [map wfile_run]; [cbn; by rewrite Z.add_0_r|].
  inversion_clear Hrs as [|? ? Hr Hrs']. unfold is_rune, Runemax in Hr. cbn [wfile_step].
  destruct (Z.leb_spec 0 r); [|lia]. destruct (Z.ltb_spec r (2 ^ 32)); [|lia]. cbn [andb mbind option_bind].
  replace (Runemax <? r) with false by (symmetry; apply Z.ltb_ge; unfold Runemax; lia).
  rewrite IH by (done || lia). cbn [mbind option_bind]. rewrite utf8s_cons, overwrite_app, length_app, Nat2Z.inj_add, Z.add_assoc by done. done.
Qed.

(** C29: what [Bputrune] writes to an empty file, [Bgetrune] reads back rune for rune, up to
    [Runemax], through any two buffers and in whatever pieces the system delivers the file, and
    then meets its end. *)
Theorem bio_rune_roundtrip `{Writable W fd} (rs : list Z) (b1 b2 : Biobuf) (m1 m2 : bytes) (w : W) :
  Forall is_rune rs -> contents w = [] -> pos w = 0 -> Bungetsize < len m1 -> 2 * Bungetsize <= len m2 ->
  exists b3 w3 b4 w4,
    wbio_run (snd (Binits_buf b1 fd OWRITE m1 (len m1))) w (map WPutrune rs) = Some (map (fun r => len (utf8 r)) rs, b3, w3) /\
    Bflush b3 w3 = Some (0, b4, w4) /\
    forall w5, contents w5 = contents w4 -> pos w5 = 0 ->
      exists b6 w6, Bgetrunes (S (length rs)) (snd (Binits_buf b2 fd OREAD m2 (len m2))) w5 = Some (rs ++ [Beof], b6, w6).
Proof.
  intros Hrs Hc Hp Hm1 Hm2. pose proof (Binits_writes b1 m1 w Hp Hm1) as R. rewrite Hc in R.
  destruct (wbio_run_refines (map WPutrune rs) _ _ _ _ _ _ _ R (wfile_runes rs [] 0 Hrs ltac:(lia))) as (b3 & w3 & E3 & R3).
  destruct (Bflush_ok _ _ _ _ R3) as (b4 & w4 & E4 & R4 & Ec & _). exists b3, w3, b4, w4. split; [done|]. split; [done|].
  intros w5 Hc5 Hp5. pose proof (Binits_reads b2 m2 w5 Hp5 Hm2) as R5. rewrite Hc5, Ec in R5.
  assert (overwrite [] 0 (utf8s rs) = utf8s rs) as Eo by (unfold overwrite; destruct (utf8s rs); [done|cbn; by rewrite drop_nil, app_nil_r]).
  rewrite Eo in R5. eapply (Bgetrunes_ok rs true [] (utf8s rs)); [done| |done|exact R5].
  clear -Hrs. induction Hrs as [|r rs Hr _ IH]; [done|]. rewrite utf8s_cons. apply Forall_app. split; [by apply utf8_bytes|done].
Qed.

(** ** Putting bytes back, and lines of any length *)

(** The strings that [n] calls of [Brdstr] make of the file from [p] on. *)
Fixpoint file_strs (n : nat) (F : bytes) (p delim : Z) (nulldelim : bool) : list (option bytes) :=
  match n with
  | O => []
  | S n =>
      let R := drop (Z.to_nat p) F in
      (if decide (R = []) then None else Some (string_of R delim nulldelim ++ [0])) ::
      file_strs n F (p + len (line_of R delim)) delim nulldelim
  end.

Section bytes_and_lines.
Context `{Readable W fd}.
Implicit Types (b : Biobuf) (w : W).

Fixpoint Bgetcs (n : nat) b w : option (bytes * Biobuf * W) :=
  match n with
  | O => Some ([], b, w)
  | S n => '(c, b, w) ← Bgetc b w; '(cs, b, w) ← Bgetcs n b w; Some (c :: cs, b, w)
  end.

Lemma Bgetcs_ok s F n : forall p u b w,
  rinv s F p false u b w -> 0 <= p -> p + Z.of_nat n <= len F ->
  exists b' w' u', Bgetcs n b w = Some (sub F p (Z.of_nat n), b', w') /\
    rinv s F (p + Z.of_nat n) false u' b' w' /\ Z.min (u + Z.of_nat n) 5 <= u'.
Proof.
  induction n as [|n IH]; intros p u b w R Hp Hl; cbn [Bgetcs].
  - exists b, w, u. rewrite Z.add_0_r. split; [done|]. split; [done|lia].
  - destruct (Bgetc_ok _ _ _ _ _ _ _ R) as (c & b1 & w1 & E & Hc). rewrite E. cbn [mbind option_bind].
    destruct (Z.ltb_spec p (len F)); [|lia]. destruct Hc as [Hc R1].
    destruct (IH _ _ _ _ R1) as (b' & w' & u' & E' & R' & Hu'); [lia..|]. rewrite E'. cbn [mbind option_bind].
    exists b', w', u'. split; [|split; [|unfold Bungetsize in *; lia]].
    + rewrite (sub_head F p (Z.of_nat (S n)) c) by (done || lia). do 4 f_equal. f_equal. lia.
    + by replace (p + Z.of_nat (S n)) with (p + 1 + Z.of_nat n) by lia.
Qed.

(** Up to five of the bytes that [Bgetc] delivered can be put back, across the boundary of the
    buffer too, and are read again. *)
Theorem Bungetc_five b m w (n j : nat) k :
  pos w = 0 -> 2 * Bungetsize <= len m -> (n <= length (contents w))%nat -> (j <= n)%nat -> (j <= 5)%nat -> 0 <= k ->
  exists b1 w1 b2 w2, Bgetcs n (snd (Binits_buf b fd OREAD m (len m))) w = Some (take n (contents w), b1, w1) /\
    Bread (Nat.iter j (fun b => snd (Bungetc b)) b1) w1 k = Some (sub (contents w) (Z.of_nat (n - j)) k, b2, w2).
Proof.
  intros Hp Hm Hn Hj H5 Hk. pose proof (Binits_reads b m w Hp Hm) as R.
  destruct (Bgetcs_ok _ _ n _ _ _ _ R) as (b1 & w1 & u & E & R1 & Hu); [lia..|].
  apply (rinv_weaken _ _ _ _ _ _ _ u false) in R1; [|lia|done].
  apply (ungets_ok _ j) in R1; [|lia]. destruct (Bread_ok _ _ _ _ _ _ _ k R1 Hk) as (b2 & w2 & Er & _).
  exists b1, w1, b2, w2. split.
  - rewrite E. unfold sub. by rewrite Nat2Z.id.
  - replace (Z.of_nat (n - j)) with (0 + Z.of_nat n - Z.of_nat j) by lia. exact Er.
Qed.

Fixpoint Brdstrs (fuel n : nat) b w (delim : Z) (nulldelim : bool) : option (list (option bytes) * Biobuf * W) :=
  match n with
  | O => Some ([], b, w)
  | S n => '(r, b, w) ← Brdstr fuel b w delim nulldelim; '(rs, b, w) ← Brdstrs fuel n b w delim nulldelim; Some (r :: rs, b, w)
  end.

Lemma Brdstrs_ok F delim nulldelim fuel n : 0 <= delim < 128 -> 2 * len F + 2 <= Z.of_nat fuel -> forall s p eof u b w,
  rinv s F p eof u b w -> - icount b <= bsize b ->
  exists b' w', Brdstrs fuel n b w delim nulldelim = Some (file_strs n F p delim nulldelim, b', w').
Proof.
  intros Hd Hf. induction n as [|n IH]; intros s p eof u b w R Hb; cbn [Brdstrs file_strs]; [by eexists _, _|].
  destruct (Brdstr_ok _ _ _ _ _ _ _ delim nulldelim fuel R Hb Hd Hf) as (r & b1 & w1 & E & -> & _ & R1 & Hb1).
  rewrite E. cbn [mbind option_bind]. destruct (IH _ _ _ _ _ _ R1 Hb1) as (b' & w' & E'). rewrite E'. by eexists _, _.
Qed.

(** [Brdstr] returns the lines of the file one after the other, of any length, without the
    delimiter if asked, the last one also without a delimiter in the file, and then nothing. *)
Theorem Brdstr_lines b m w delim nulldelim fuel n :
  pos w = 0 -> 2 * Bungetsize <= len m -> 0 <= delim < 128 -> 2 * len (contents w) + 2 <= Z.of_nat fuel ->
  exists b' w', Brdstrs fuel n (snd (Binits_buf b fd OREAD m (len m))) w delim nulldelim =
    Some (file_strs n (contents w) 0 delim nulldelim, b', w').
Proof.
  intros Hp Hm Hd Hf. pose proof (Binits_reads b m w Hp Hm) as R.
  eapply Brdstrs_ok; [done|done|exact R|]. rewrite Binits_OREAD. cbn. unfold Bungetsize in *. lia.
Qed.
End bytes_and_lines.

(** ** Errors *)

(** C39: when the system does not take all bytes of a flush, [Bflush] reports it, and from then on
    every write, flush and seek is refused and leaves the file alone. *)
Theorem bio_write_error `{Sys W} (b : Biobuf) (w w' : W) bs c :
  state b = Bwactive -> bsize b + ocount b <> 0 -> load (mem b) (bbuf b) (bsize b + ocount b) = Some bs ->
  sys_write w (fid b) bs = (c, w') -> c <> bsize b + ocount b ->
  exists b', Bflush b w = Some (Beof, b', w') /\
    forall x xs off base, xs <> [] ->
      Bputc b' w' x = Some (Beof, b', w') /\ Bwrite b' w' xs = Some (Beof, b', w') /\
      Bflush b' w' = Some (Beof, b', w') /\ Bseek b' w' off base = Some (Beof, b', w').
Proof.
  intros Hs Hn Hl Hw Hc. destruct (Bflush_fails b w bs c w' Hs Hn Hl Hw Hc) as (b' & E & Hs' & Ho').
  exists b'. split; [done|]. intros x xs off base Hx. by apply inactive_refuses.
Qed.

(** ** The buffers that are flushed at exit *)

Definition listed (wbufs : list (option Z)) (bp : Z) : nat := length (filter (fun o => o = Some bp) wbufs).

Lemma listed_cons o wbufs bp : listed (o :: wbufs) bp = ((if decide (o = Some bp) then 1 else 0) + listed wbufs bp)%nat.
Proof. unfold listed. rewrite filter_cons. by destruct (decide (o = Some bp)). Qed.

Lemma deinstall_listed wbufs bp q : listed (deinstall wbufs bp) q = if decide (q = bp) then 0%nat else listed wbufs q.
Proof.
  induction wbufs as [|o l IH]; [by destruct (decide _)|]. change (deinstall (o :: l) bp) with
    ((if decide (o = Some bp) then None else o) :: deinstall l bp). rewrite !listed_cons, IH.
  destruct (decide (o = Some bp)) as [->|]; [|destruct (decide (q = bp)) as [->|]; [by rewrite decide_False|done]].
  rewrite (decide_False (P := None = Some q)) by done. destruct (decide (q = bp)); [done|]. by rewrite decide_False by congruence.
Qed.

Lemma install_loop_listed wbufs bp q :
  listed (install_loop wbufs bp) q = (listed wbufs q + if decide (q = bp /\ None ∈ wbufs) then 1 else 0)%nat.
Proof.
  induction wbufs as [|o l IH]; cbn [install_loop].
  - rewrite decide_False; [done|]. by intros [_ ?%elem_of_nil].
  - destruct o as [a|]; rewrite !listed_cons.
    + rewrite IH, Nat.add_assoc. f_equal. apply decide_ext. rewrite elem_of_cons. naive_solver.
    + rewrite (decide_False (P := None = Some q)) by done. destruct (decide (Some bp = Some q)) as [[= ->]|Hne].
      * rewrite decide_True; [lia|]. split; [done|by left].
      * rewrite decide_False; [lia|]. intros [-> _]. congruence.
Qed.

(** [install] enters a buffer once when a slot is free (or held by the buffer itself) and leaves
    the other entries as they are; with all slots taken by others the buffer is not entered. *)
Theorem install_spec wbufs bp q :
  listed (install wbufs bp) q =
  if decide (q = bp) then (if decide (None ∈ deinstall wbufs bp) then 1%nat else 0%nat) else listed wbufs q.
Proof.
  unfold install. rewrite install_loop_listed, deinstall_listed. destruct (decide (q = bp)) as [->|Hne].
  - cbn [Nat.add]. destruct (decide (None ∈ deinstall wbufs bp)); [by rewrite decide_True|rewrite decide_False; [done|tauto]].
  - rewrite (decide_False (P := q = bp /\ _)) by tauto. lia.
Qed.

(** ** On files *)

(** Two lines, of which the second has no end, read two or three bytes at a time through a buffer
    of eight bytes whose array starts out with sevens. *)
Definition ex_text : bytes := [97; 98; 99; 10; 100; 101; 102; 103; 104; 105; 106; 107; 108; 109; 110; 111].
Definition ex_file : memfile := mkMemfile ex_text 0 2.
Definition ex_array : bytes := replicate 12 7.
Definition ex_buf : Biobuf := mkBiobuf 0 0 0 0 Binactive 0 0 0 0 0 0 0 [].
Definition ex_reader : Biobuf := snd (Binits_buf ex_buf 3 OREAD ex_array (len ex_array)).
Definition ex_writer : Biobuf := snd (Binits_buf ex_buf 3 OWRITE ex_array (len ex_array)).
Definition ex_reads : list rop := [RGetc; RRead 5; RSeek 3 0; RLine 10; ROffset; RSeek (-6) 2; RLine 10; RGetc; RRead 100].

Lemma bio_read_refines_witness :
  exists b' w', bio_run ex_reader ex_file ex_reads =
    Some ([GotByte 97; GotBytes [98; 99; 10; 100; 101]; GotPos 3; GotLine (Some [10]) 1; GotPos 4; GotPos 10;
           GotLine None 6; GotByte 106; GotBytes [107; 108; 109; 110; 111]], b', w') /\
    Boffset b' = 16 /\ contents (fd := 3) w' = contents (fd := 3) ex_file.
Proof.
  apply (bio_read_refines (fd := 3) ex_buf ex_array ex_file ex_reads
    [GotByte 97; GotBytes [98; 99; 10; 100; 101]; GotPos 3; GotLine (Some [10]) 1; GotPos 4; GotPos 10;
     GotLine None 6; GotByte 106; GotBytes [107; 108; 109; 110; 111]] 16 true); first [reflexivity | by_decide].
Defined.

Definition ex_writes : list wop := [WPutc 65; WWrite [66; 67; 68; 69; 70; 71; 72; 73; 74; 75]; WPutrune 0x20AC; WSeek (-2) 2; WWrite [48]].

Lemma bio_write_refines_witness :
  exists b1 w1 b2 w2, wbio_run ex_writer (mkMemfile [1; 2; 3] 0 5) ex_writes = Some ([0; 10; 3; 12; 1], b1, w1) /\
    Boffset b1 = 13 /\ Bflush b1 w1 = Some (0, b2, w2) /\
    contents (fd := 3) w2 = [65; 66; 67; 68; 69; 70; 71; 72; 73; 74; 75; 0xE2; 48; 0xAC] /\ pos (fd := 3) w2 = 13 /\ Bbuffered b2 = 0.
Proof. apply (bio_write_refines (fd := 3) ex_buf ex_array (mkMemfile [1; 2; 3] 0 5) ex_writes); first [reflexivity | by_decide]. Defined.

Lemma bio_rune_roundtrip_witness :
  exists b3 w3 b4 w4,
    wbio_run ex_writer (mkMemfile [] 0 1) (map WPutrune [0x41; 0xE9; 0x20AC; 0x1F600]) = Some ([1; 2; 3; 4], b3, w3) /\
    Bflush b3 w3 = Some (0, b4, w4) /\
    forall w5, contents (fd := 3) w5 = contents (fd := 3) w4 -> pos (fd := 3) w5 = 0 ->
      exists b6 w6, Bgetrunes 5 ex_reader w5 = Some ([0x41; 0xE9; 0x20AC; 0x1F600; -1], b6, w6).
Proof.
  apply (bio_rune_roundtrip (fd := 3) [0x41; 0xE9; 0x20AC; 0x1F600] ex_buf ex_buf ex_array ex_array (mkMemfile [] 0 1));
    first [reflexivity | by_decide].
Defined.

Lemma Bungetc_five_witness :
  exists b1 w1 b2 w2, Bgetcs 10 ex_reader ex_file = Some (take 10 (contents (fd := 3) ex_file), b1, w1) /\
    Bread (Nat.iter 5 (fun b => snd (Bungetc b)) b1) w1 7 = Some (sub (contents (fd := 3) ex_file) 5 7, b2, w2).
Proof.
  apply (Bungetc_five (fd := 3) ex_buf ex_array ex_file 10 5 7); first [reflexivity | by_decide].
Defined.

Lemma Brdstr_lines_witness :
  exists b' w', Brdstrs 40 3 ex_reader ex_file 10 true =
    Some ([Some [97; 98; 99; 0]; Some [100; 101; 102; 103; 104; 105; 106; 107; 108; 109; 110; 111; 0]; None], b', w').
Proof.
  assert (file_strs 3 (contents (fd := 3) ex_file) 0 10 true =
    [Some [97; 98; 99; 0]; Some [100; 101; 102; 103; 104; 105; 106; 107; 108; 109; 110; 111; 0]; None]) as <- by reflexivity.
  apply (Brdstr_lines (fd := 3) ex_buf ex_array ex_file 10 true 40 3); first [reflexivity | by_decide].
Defined.

(** A device that takes nothing. *)
#[local] Instance full_device : Sys unit := {|
  sys_read w fd n := (Some [], w); sys_write w fd bs := (-1, w); sys_seek w fd n base := (n, w); sys_close w fd := (0, w) |}.

Definition ex_pending : Biobuf := mkBiobuf 0 (-5) 0 0 Bwactive 3 0 0 8 4 12 12 ex_array.

Lemma bio_write_error_witness :
  exists b', Bflush ex_pending tt = Some (Beof, b', tt) /\
    forall x xs off base, xs <> [] ->
      Bputc b' tt x = Some (Beof, b', tt) /\ Bwrite b' tt xs = Some (Beof, b', tt) /\
      Bflush b' tt = Some (Beof, b', tt) /\ Bseek b' tt off base = Some (Beof, b', tt).
Proof. apply (bio_write_error ex_pending tt tt [7; 7; 7] (-1)); first [reflexivity | by_decide]. Defined.

(** ** Where the library goes wrong *)

(** [Bgetc] at the end of the file marks the whole buffer as good. After a second [Bgetc] there a
    seek back within the buffer's size is done in the buffer, and delivers what happens to lie in
    it: here bytes of the array that never were in the file. *)
Theorem Bseek_after_eof :
  ('(_, b, w) ← Bread ex_reader ex_file 16; '(_, b, w) ← Bgetc b w; '(_, b, w) ← Bgetc b w;
   '(n, b, w) ← Bseek b w 11 0; '(bs, _, _) ← Bread b w 4; Some (n, bs)) = Some (11, [7; 7; 108; 109]) /\
  sub ex_text 11 4 = [107; 108; 109; 110].
Proof. split; reflexivity. Qed.

(** [Brdstr] puts a NUL behind the last line when the file does not end with the delimiter, and
    leaves it in the buffer as if it were data: a seek back is off by one. *)
Theorem Bseek_after_Brdstr :
  ('(_, b, w) ← Brdstr 40 ex_reader ex_file 10 true; '(_, b, w) ← Brdstr 40 b w 10 true;
   '(n, b, w) ← Bseek b w 12 0; '(bs, _, _) ← Bread b w 4; Some (n, bs)) = Some (12, [109; 110; 111; 0]) /\
  sub ex_text 12 4 = [108; 109; 110; 111].
Proof. split; reflexivity. Qed.

(** A [Bwrite] that fails does not record it in [ocount], as [Bflush] does: a short one after it is
    accepted although nothing can be written any more. *)
Theorem Bwrite_after_error :
  ('(r1, b, w) ← Bwrite ex_pending tt (replicate 6 65); '(r2, b, w) ← Bwrite b w [66; 67];
   '(r3, b, _) ← Bflush b w; Some (r1, r2, r3, state b)) = Some (Beof, 2, Beof, Binactive).
Proof. reflexivity. Qed.

(** [Bputrune] writes all bits of a rune, not the low 16 only: U+1F600 takes four bytes. *)
Theorem Bputrune_four_bytes :
  ('(n, b, w) ← Bputrune ex_writer (mkMemfile [] 0 1) 0x1F600; '(_, _, w) ← Bflush b w; Some (n, contents (fd := 3) w))
    = Some (4, [0xF0; 0x9F; 0x98; 0x80]).
Proof. reflexivity. Qed.

(** [Bputc] on a buffer opened for reading does not return, whatever the number of turns. *)
Theorem Bputc_endless fuel c : Bputc_loop fuel ex_reader ex_file c = None.
Proof. apply Bputc_reading; [by left|done]. Qed.

(** The table has [MAXBUFS] slots: with twenty buffers open for writing the next one is not
    flushed at exit, and what it holds is lost. *)
Theorem install_full :
  let wbufs := fold_left install (seqZ 1 20) (replicate MAXBUFS None) in
  install wbufs 21 = wbufs /\ listed wbufs 21 = 0%nat /\
  ('(_, bufs, w) ← batexit (install wbufs 21)
      (<[21 := ex_writer <| ocount := -3 |>]>
        (list_to_map ((fun i => (i, ex_writer)) <$> seqZ 1 20))) (mkMemfile [] 0 5);
   Some (f_contents w, Bbuffered <$> bufs !! 21)) = Some ([], Some 5).
Proof. vm_compute. done. Qed.
