(* ===== verification/Thread.v ===== *)
(** * Threads: [libthread/thread.c]

    The structures of [threadimpl.h], [include/thread.h] and the locks of [include/libc.h] in
    one memory, the queues of threads, the scheduler of a proc, and the locks. Every critical
    section that the code protects with the [Lock] of a structure is one function here; a
    function that ends in [_threadswitch] is two, the part before the switch and the part that
    its thread runs when it is scheduled again. *)

From S2P Require Import Prelude.
#[local] Set Primitive Projections.

(** ** Data *)

Record _Thread := mkThread {
  th_next : option Z; th_prev : option Z; th_proc : Z; th_alt : option Z; th_exiting : bool; th_mainthread : bool }.

Record _Threadlist := mkThreadlist { tl_head : option Z; tl_tail : option Z }.

(** The queues [runqueue] and [idlequeue] of a proc, like all lists of threads, are in the map
    of lists, under the address of the structure and the field. *)
Record Proc := mkProc {
  p_thread : option Z; p_pinthread : option Z; p_schedthread : option Z; p_nthread : Z; p_nswitch : Z;
  p_mainproc : bool; p_sysproc : bool }.

Record QLock := mkQLock { q_owner : option Z }.
Record RWLock := mkRWLock { rw_readers : Z; rw_writer : option Z }.
Record Rendez := mkRendez { r_l : Z }.

(** A channel: [a] and [n] of its arrays of alternatives are lists of addresses; [m] only says
    how much is allocated. *)
Record Channel := mkChannel {
  c_bufsize : Z; c_elemsize : Z; c_buf : bytes; c_nbuf : Z; c_off : Z; c_asend : list Z; c_arecv : list Z }.

Record Alt := mkAlt { al_c : option Z; al_v : option Z; al_op : Z; al_thread : option Z }.

Definition CHANEND := 0.
Definition CHANSND := 1.
Definition CHANRCV := 2.
Definition CHANNOP := 3.
Definition CHANNOBLK := 4.

(** A field that is a list of threads: [&p->runqueue] is [(p, Runqueue)]. *)
Inductive field := Runqueue | Idlequeue | Waiting | Rwaiting | Wwaiting.

#[global] Instance field_eq : EqDecision field.
Proof. solve_decision. Defined.

#[global] Instance field_countable : Countable field.
Proof.
  refine (inj_countable' (fun f => match f with Runqueue => 0 | Idlequeue => 1 | Waiting => 2 | Rwaiting => 3 | Wwaiting => 4 end)
    (fun n => match n with 0 => Runqueue | 1 => Idlequeue | 2 => Waiting | 3 => Rwaiting | _ => Wwaiting end) _).
  by intros [].
Defined.

Abbreviation lid := (Z * field)%type.

(** The memory. [w_threadprocs] is the list of the procs, [w_mem] holds the objects that
    alternatives point to. *)
Record world := mkWorld {
  w_threads : gmap Z _Thread; w_procs : gmap Z Proc; w_lists : gmap lid _Threadlist;
  w_qlocks : gmap Z QLock; w_rwlocks : gmap Z RWLock; w_rendez : gmap Z Rendez;
  w_chans : gmap Z Channel; w_alts : gmap Z Alt; w_mem : gmap Z bytes;
  w_threadprocs : list Z; w_threadnproc : Z; w_threadnsysproc : Z }.

(** Why a function does not return: an access through a nil or dangling pointer, [abort] or a
    failed [assert], a list that does not end, [threadexitsall]. *)
Inductive stopped := Crash | Abort | Endless | Exits.

Inductive tres (A : Type) := Done (a : A) (w : world) | Stop (why : stopped).
Arguments Done {A}.
Arguments Stop {A}.

Definition tm (A : Type) : Type := world -> tres A.

#[global] Instance tm_ret : MRet tm := fun A a w => Done a w.
#[global] Instance tm_bind : MBind tm := fun A B k m w =>
  match m w with Done a w => k a w | Stop why => Stop why end.

Definition stop {A} (why : stopped) : tm A := fun _ => Stop why.
Definition get {A} (f : world -> A) : tm A := fun w => Done (f w) w.
Definition change (f : world -> world) : tm unit := fun w => Done tt (f w).
Definition ptr {A} (p : option A) : tm A := match p with Some a => mret a | None => stop Crash end.

(** An object and a change of it, of each kind. *)
Definition thread (t : Z) : tm _Thread := fun w => match w_threads w !! t with Some x => Done x w | None => Stop Crash end.
Definition set_thread (t : Z) (f : _Thread -> _Thread) : tm unit := fun w =>
  match w_threads w !! t with Some x => Done tt (w <| w_threads := <[t := f x]> (w_threads w) |>) | None => Stop Crash end.
Definition proc (p : Z) : tm Proc := fun w => match w_procs w !! p with Some x => Done x w | None => Stop Crash end.
Definition set_proc (p : Z) (f : Proc -> Proc) : tm unit := fun w =>
  match w_procs w !! p with Some x => Done tt (w <| w_procs := <[p := f x]> (w_procs w) |>) | None => Stop Crash end.
Definition tlist (l : lid) : tm _Threadlist := fun w => match w_lists w !! l with Some x => Done x w | None => Stop Crash end.
Definition set_tlist (l : lid) (f : _Threadlist -> _Threadlist) : tm unit := fun w =>
  match w_lists w !! l with Some x => Done tt (w <| w_lists := <[l := f x]> (w_lists w) |>) | None => Stop Crash end.

(** [proc()->thread], where [p] is the proc that runs the code. *)
Definition threadnow (p : Z) : tm (option Z) := x ← proc p; mret (p_thread x).

(** ** Lists of threads *)

Definition addthread (l : lid) (t : Z) : tm unit :=
  x ← tlist l;
  match tl_tail x with
  | Some e => set_thread e (fun y => y <| th_next := Some t |>);; set_thread t (fun y => y <| th_prev := Some e |>)
  | None => set_tlist l (fun y => y <| tl_head := Some t |>);; set_thread t (fun y => y <| th_prev := None |>)
  end;;
  set_tlist l (fun y => y <| tl_tail := Some t |>);;
  set_thread t (fun y => y <| th_next := None |>).

Definition delthread (l : lid) (t : Z) : tm unit :=
  x ← thread t;
  match th_prev x with
  | Some e => set_thread e (fun y => y <| th_next := th_next x |>)
  | None => set_tlist l (fun y => y <| tl_head := th_next x |>)
  end;;
  x ← thread t;
  match th_next x with
  | Some e => set_thread e (fun y => y <| th_prev := th_prev x |>)
  | None => set_tlist l (fun y => y <| tl_tail := th_prev x |>)
  end.

Fixpoint onlist_loop (fuel : nat) (tt : option Z) (t : Z) : tm bool :=
  match fuel with
  | O => stop Endless
  | S fuel =>
    match tt with
    | None => mret false
    | Some e => if decide (e = t) then mret true else x ← thread e; onlist_loop fuel (th_next x) t
    end
  end.

Definition onlist (l : lid) (t : Z) : tm bool :=
  x ← tlist l; n ← get (fun w => size (w_threads w)); onlist_loop (S n) (tl_head x) t.

(** ** Scheduling *)

(** Waking the proc of [t] lets it try [procnext] again. *)
Definition _threadready (t : Z) : tm unit := x ← thread t; addthread (th_proc x, Runqueue) t.

(** Moves the idle threads, at least one, to the run queue. *)
Fixpoint run_idle (fuel : nat) (p : Z) : tm unit :=
  match fuel with
  | O => stop Endless
  | S fuel =>
    i ← tlist (p, Idlequeue);
    match tl_head i with
    | None => mret tt
    | Some t => delthread (p, Idlequeue) t;; addthread (p, Runqueue) t;; run_idle fuel p
    end
  end.

(** What an attempt to find a thread gives; after [Asleep] the code sleeps and tries again. *)
Inductive picked := Next (t : Z) | Nobody | Asleep.

(** The loop when no thread is pinned: with idle threads it goes round twice. *)
Fixpoint procnext_loop (fuel : nat) (p : Z) : tm picked :=
  match fuel with
  | O => stop Endless
  | S fuel =>
    q ← tlist (p, Runqueue);
    match tl_head q with
    | Some t => mret (Next t)
    | None =>
      x ← proc p;
      if p_nthread x =? 0 then mret Nobody
      else
        i ← tlist (p, Idlequeue);
        match tl_head i with
        | Some _ => n ← get (fun w => size (w_threads w)); run_idle (S n) p;; procnext_loop fuel p
        | None => mret Asleep
        end
    end
  end.

Definition procnext (p : Z) : tm picked :=
  x ← proc p;
  r ← match p_pinthread x with
      | Some t => on ← onlist (p, Runqueue) t; mret (if (on : bool) then Next t else Asleep)
      | None => procnext_loop 2 p
      end;
  match r with
  | Next t =>
    x ← proc p;
    if match p_pinthread x with Some u => bool_decide (u = t) | None => true end then
      delthread (p, Runqueue) t;;
      set_proc p (fun x => x <| p_thread := Some t |> <| p_nswitch := p_nswitch x + 1 |>);;
      mret r
    else stop Abort
  | _ => mret r
  end.

(** [_threadswitch] up to the call of [procnext]: the thread that ran gives up the proc. *)
Definition _threadswitch (p : Z) : tm unit :=
  x ← proc p;
  self ← ptr (p_thread x);
  set_proc p (fun x => x <| p_thread := None |>);;
  y ← thread self;
  if th_exiting y then set_proc p (fun x => x <| p_nthread := p_nthread x - 1 |>) else mret tt.

(** The rest of [pthreadscheduler], when [procnext] has found a thread or knows that there is
    none: [self] is the thread that gave up the proc, and is freed when it exits. *)
Definition pthreadscheduler_end (p self : Z) (r : picked) : tm unit :=
  match r with
  | Asleep => mret tt
  | Next t =>
    set_proc p (fun x => x <| p_schedthread := Some t |>);;
    y ← thread self;
    x ← proc p;
    if th_exiting y && negb (th_mainthread y && p_mainproc x)
    then change (fun w => w <| w_threads := delete self (w_threads w) |>)
    else mret tt
  | Nobody =>
    x ← proc p;
    change (fun w => w <| w_threadprocs := filter (fun q => q <> p) (w_threadprocs w) |>
                       <| w_threadnsysproc := w_threadnsysproc w - (if p_sysproc x then 1 else 0) |>
                       <| w_threadnproc := w_threadnproc w - 1 |>);;
    n ← get w_threadnproc;
    m ← get w_threadnsysproc;
    if n =? m then stop Exits else
    y ← thread self;
    if th_mainthread y && p_mainproc x then mret tt
    else change (fun w => w <| w_threads := delete self (w_threads w) |> <| w_procs := delete p (w_procs w) |>)
  end.

(** [threadyield] and [threadidle] up to the switch: the count of switches that they keep. *)
Definition threadyield (p : Z) : tm Z :=
  x ← proc p; t ← ptr (p_thread x); _threadready t;; _threadswitch p;; mret (p_nswitch x).

Definition threadidle (p : Z) : tm Z :=
  x ← proc p; t ← ptr (p_thread x); addthread (p, Idlequeue) t;; _threadswitch p;; mret (p_nswitch x).

(** After the switch: what [threadyield] and [threadidle] return. *)
Definition threadyield_end (p n : Z) : tm Z := x ← proc p; mret (p_nswitch x - n).

(** The message of [threadexits], which only [threadexitsall] uses, is left out. *)
Definition threadexits (p : Z) : tm unit :=
  x ← proc p; t ← ptr (p_thread x); set_thread t (fun y => y <| th_exiting := true |>);; _threadswitch p.

Definition threadpin (p : Z) : tm unit :=
  x ← proc p;
  match p_pinthread x with Some _ => stop Abort | None => set_proc p (fun x => x <| p_pinthread := p_thread x |>) end.

Definition threadunpin (p : Z) : tm unit :=
  x ← proc p;
  if decide (p_pinthread x = p_thread x) then set_proc p (fun x => x <| p_pinthread := None |>) else stop Abort.

(** [t] is the memory that [malloc] gives for the new thread. *)
Definition _threadcreate (t p : Z) : tm unit :=
  x ← proc p;
  change (fun w => w <| w_threads := <[t := mkThread None None p None false (p_nthread x =? 0)]> (w_threads w) |>);;
  set_proc p (fun x => x <| p_nthread := p_nthread x + 1 |>);;
  _threadready t.

Definition _threadsetsysproc (p : Z) : tm unit :=
  change (fun w => w <| w_threadnsysproc := w_threadnsysproc w + 1 |>);;
  n ← get w_threadnproc;
  m ← get w_threadnsysproc;
  if n =? m then stop Exits else set_proc p (fun x => x <| p_sysproc := true |>).

Definition singlethreaded : tm bool :=
  n ← get w_threadnproc;
  l ← get w_threadprocs;
  if n =? 1 then p ← ptr (head l); x ← proc p; mret (p_nthread x =? 1) else mret false.

(** ** Locks *)

Definition qlock_at (l : Z) : tm QLock := fun w => match w_qlocks w !! l with Some x => Done x w | None => Stop Crash end.
Definition set_qlock (l : Z) (f : QLock -> QLock) : tm unit := fun w =>
  match w_qlocks w !! l with Some x => Done tt (w <| w_qlocks := <[l := f x]> (w_qlocks w) |>) | None => Stop Crash end.
Definition rwlock_at (l : Z) : tm RWLock := fun w => match w_rwlocks w !! l with Some x => Done x w | None => Stop Crash end.
Definition set_rwlock (l : Z) (f : RWLock -> RWLock) : tm unit := fun w =>
  match w_rwlocks w !! l with Some x => Done tt (w <| w_rwlocks := <[l := f x]> (w_rwlocks w) |>) | None => Stop Crash end.
Definition rendez_at (r : Z) : tm Rendez := fun w => match w_rendez w !! r with Some x => Done x w | None => Stop Crash end.

(** A call that locks returns 1 or 0, or its thread has to wait. *)
Inductive lockres := Locked | Refused | Waits.

(** [addthread(l, threadnow())] and [_threadswitch()], where the code would deadlock if no
    other thread ran. *)
Definition wait_on (p : Z) (l : lid) : tm lockres :=
  s ← singlethreaded;
  if (s : bool) then stop Abort
  else self ← threadnow p; self ← ptr self; addthread l self;; _threadswitch p;; mret Waits.

Definition threadqlock (p l : Z) (block : bool) : tm lockres :=
  q ← qlock_at l;
  match q_owner q with
  | None =>
    self ← threadnow p;
    set_qlock l (fun q => q <| q_owner := self |>);;
    match self with None => stop Abort | Some _ => mret Locked end
  | Some _ => if block then wait_on p (l, Waiting) else mret Refused
  end.

(** After the switch. *)
Definition threadqlock_end (p l : Z) : tm lockres :=
  q ← qlock_at l;
  self ← threadnow p;
  if decide (q_owner q = self) then
    match q_owner q with None => stop Abort | Some _ => mret Locked end
  else stop Abort.

Definition threadqunlock (l : Z) : tm unit :=
  q ← qlock_at l;
  match q_owner q with
  | None => stop Abort
  | Some _ =>
    x ← tlist (l, Waiting);
    set_qlock l (fun q => q <| q_owner := tl_head x |>);;
    match tl_head x with
    | Some ready => delthread (l, Waiting) ready;; _threadready ready
    | None => mret tt
    end
  end.

Definition threadrlock (p l : Z) (block : bool) : tm lockres :=
  x ← rwlock_at l;
  ww ← tlist (l, Wwaiting);
  match rw_writer x, tl_head ww with
  | None, None => set_rwlock l (fun x => x <| rw_readers := rw_readers x + 1 |>);; mret Locked
  | _, _ => if block then wait_on p (l, Rwaiting) else mret Refused
  end.

Definition threadwlock (p l : Z) (block : bool) : tm lockres :=
  x ← rwlock_at l;
  if match rw_writer x with None => rw_readers x =? 0 | Some _ => false end then
    self ← threadnow p;
    set_rwlock l (fun x => x <| rw_writer := self |>);;
    mret Locked
  else if block then wait_on p (l, Wwaiting) else mret Refused.

(** [if(l->readers == 0 && (t = l->wwaiting.head) != nil)], and what follows. *)
Definition grant_writer (l : Z) : tm unit :=
  x ← rwlock_at l;
  ww ← tlist (l, Wwaiting);
  match tl_head ww with
  | Some t =>
    if rw_readers x =? 0 then
      delthread (l, Wwaiting) t;;
      set_rwlock l (fun x => x <| rw_writer := Some t |>);;
      _threadready t
    else mret tt
  | None => mret tt
  end.

Definition threadrunlock (l : Z) : tm unit :=
  set_rwlock l (fun x => x <| rw_readers := rw_readers x - 1 |>);;
  grant_writer l.

Fixpoint grant_readers (fuel : nat) (l : Z) : tm unit :=
  match fuel with
  | O => stop Endless
  | S fuel =>
    rw ← tlist (l, Rwaiting);
    match tl_head rw with
    | None => mret tt
    | Some t =>
      delthread (l, Rwaiting) t;;
      set_rwlock l (fun x => x <| rw_readers := rw_readers x + 1 |>);;
      _threadready t;;
      grant_readers fuel l
    end
  end.

Definition threadwunlock (l : Z) : tm unit :=
  set_rwlock l (fun x => x <| rw_writer := None |>);;
  x ← rwlock_at l;
  if rw_readers x =? 0 then
    n ← get (fun w => size (w_threads w));
    grant_readers (S n) l;;
    grant_writer l
  else stop Abort.

(** ** Sleep and wakeup *)

Definition threadrsleep (p r : Z) : tm unit :=
  s ← singlethreaded;
  if (s : bool) then stop Abort
  else
    x ← rendez_at r;
    self ← threadnow p; self ← ptr self;
    addthread (r, Waiting) self;;
    threadqunlock (r_l x);;
    _threadswitch p.

(** After the switch. *)
Definition threadrsleep_end (p r : Z) : tm lockres := x ← rendez_at r; threadqlock p (r_l x) true.

Fixpoint threadrwakeup_loop (fuel : nat) (r : Z) (all : bool) (i : Z) : tm Z :=
  match fuel with
  | O => stop Endless
  | S fuel =>
    if (i =? 1) && negb all then mret i
    else
      x ← tlist (r, Waiting);
      match tl_head x with
      | None => mret i
      | Some t => delthread (r, Waiting) t;; _threadready t;; threadrwakeup_loop fuel r all (i + 1)
      end
  end.

Definition threadrwakeup (r : Z) (all : bool) : tm Z :=
  n ← get (fun w => size (w_threads w)); threadrwakeup_loop (S n) r all 0.
