(* ===== verification/Chan.v ===== *)
(** * Channels: [libthread/channel.c]

    Channels with and without a buffer and the alternatives that threads wait with. An [Alt]
    lives at an address, the entries of an array at successive ones. The critical section of
    [chanalt], between [qlock(&chanlock)] and the matching [qunlock], is [chanalt_locked]. *)

From S2P Require Import Prelude Thread.

Definition chan (c : Z) : tm Channel := fun w => match w_chans w !! c with Some x => Done x w | None => Stop Crash end.
Definition set_chan (c : Z) (f : Channel -> Channel) : tm unit := fun w =>
  match w_chans w !! c with Some x => Done tt (w <| w_chans := <[c := f x]> (w_chans w) |>) | None => Stop Crash end.
Definition alt_at (a : Z) : tm Alt := fun w => match w_alts w !! a with Some x => Done x w | None => Stop Crash end.
Definition set_alt (a : Z) (f : Alt -> Alt) : tm unit := fun w =>
  match w_alts w !! a with Some x => Done tt (w <| w_alts := <[a := f x]> (w_alts w) |>) | None => Stop Crash end.

(** [chancreate]; [c] is the memory that [malloc] gives, with the bytes [buf] after it. *)
Definition chancreate (c elemsize bufsize : Z) (buf : bytes) : tm unit :=
  change (fun w => w <| w_chans := <[c := mkChannel bufsize elemsize buf 0 0 [] []]> (w_chans w) |>).

(** ** The arrays of alternatives that wait *)

Definition addarray (a : list Z) (alt : Z) : list Z := a ++ [alt].

(** The last element takes the place of the one that goes. *)
Definition delarray (a : list Z) (i : nat) : list Z :=
  match last a with
  | Some e => <[i := e]> (take (length a - 1) a)
  | None => a
  end.

Definition otherop (op : Z) : Z := CHANSND + CHANRCV - op.

Definition chanarray (c : Channel) (op : Z) : option (list Z) :=
  if op =? CHANSND then Some (c_asend c) else if op =? CHANRCV then Some (c_arecv c) else None.

Definition set_chanarray (op : Z) (a : list Z) (c : Channel) : Channel :=
  if op =? CHANSND then c <| c_asend := a |> else if op =? CHANRCV then c <| c_arecv := a |> else c.

Definition altcanexec (a : Z) : tm bool :=
  al ← alt_at a;
  if al_op al =? CHANNOP then mret false
  else match al_c al with
  | None => mret false
  | Some c =>
    c ← chan c;
    mret (if c_bufsize c =? 0 then
            match chanarray c (otherop (al_op al)) with Some ar => bool_decide (ar <> []) | None => false end
          else if al_op al =? CHANSND then c_nbuf c <? c_bufsize c
          else if al_op al =? CHANRCV then 0 <? c_nbuf c
          else false)
  end.

Definition altqueue (a : Z) : tm unit :=
  al ← alt_at a;
  match al_c al with
  | None => mret tt
  | Some c =>
    x ← chan c;
    ar ← ptr (chanarray x (al_op al));
    set_chan c (set_chanarray (al_op al) (addarray ar a))
  end.

Definition altdequeue (a : Z) : tm unit :=
  al ← alt_at a;
  c ← ptr (al_c al);
  x ← chan c;
  match chanarray x (al_op al) with
  | None => stop Abort
  | Some ar =>
    match list_find (eq a) ar with
    | Some (i, _) => set_chan c (set_chanarray (al_op al) (delarray ar i))
    | None => stop Abort
    end
  end.

(** The loop ends at the entry that ends the array. *)
Fixpoint altalldequeue_loop (fuel : nat) (a : Z) : tm unit :=
  match fuel with
  | O => stop Endless
  | S fuel =>
    al ← alt_at a;
    if (al_op al =? CHANEND) || (al_op al =? CHANNOBLK) then mret tt
    else
      (if al_op al =? CHANNOP then mret tt else altdequeue a);;
      altalldequeue_loop fuel (a + 1)
  end.

Definition altalldequeue (a : Z) : tm unit :=
  n ← get (fun w => size (w_alts w)); altalldequeue_loop (S n) a.

(** ** Moving the data *)

(** What [amove] moves: [n] bytes from an object, or zeros when there is none. *)
Definition source (v : option Z) (n : Z) : tm bytes :=
  match v with
  | None => mret (replicate (Z.to_nat n) 0)
  | Some o => m ← get w_mem; x ← ptr (m !! o); ptr (load x 0 n)
  end.

Definition deliver (v : option Z) (bs : bytes) : tm unit :=
  match v with
  | None => mret tt
  | Some o => m ← get w_mem; x ← ptr (m !! o); x ← ptr (store x 0 bs);
    change (fun w => w <| w_mem := <[o := x]> (w_mem w) |>)
  end.

(** [amove(r->v, s->v, n)]; nothing is read when there is no place for it. *)
Definition amove (dst src : option Z) (n : Z) : tm unit :=
  match dst with None => mret tt | Some _ => bs ← source src n; deliver dst bs end.

(** The first element of the buffer goes to [r->v]. *)
Definition take_out (c : Z) (r : Alt) : tm unit :=
  x ← chan c;
  let cp := wrap 32 (c_off x * c_elemsize x) in
  match al_v r with None => mret tt | Some _ => bs ← ptr (load (c_buf x) cp (c_elemsize x)); deliver (al_v r) bs end;;
  set_chan c (fun x => x <| c_nbuf := wrap 32 (c_nbuf x - 1) |>);;
  let off := wrap 32 (c_off x + 1) in
  set_chan c (fun x => x <| c_off := if off =? c_bufsize x then 0 else off |>).

(** [s->v] goes to the end of the buffer. *)
Definition put_in (c : Z) (s : Alt) : tm unit :=
  x ← chan c;
  if c_bufsize x =? 0 then stop Crash
  else
    let cp := wrap 32 (wrap 32 (c_off x + c_nbuf x) mod c_bufsize x * c_elemsize x) in
    bs ← source (al_v s) (c_elemsize x);
    buf ← ptr (store (c_buf x) cp bs);
    set_chan c (fun x => x <| c_buf := buf |> <| c_nbuf := wrap 32 (c_nbuf x + 1) |>).

Definition on_alt (a : option Alt) (f : Alt -> tm unit) : tm unit :=
  match a with Some a => f a | None => mret tt end.

Definition altcopy (s r : option Z) : tm unit :=
  match s with
  | None => match r with None => mret tt | Some _ => stop Abort end
  | Some s =>
    a ← alt_at s;
    b ← match r with Some r => b ← alt_at r; mret (Some b) | None => mret None end;
    c ← ptr (al_c a);
    let '(s, r) := if al_op a =? CHANRCV then (b, Some a) else (Some a, b) in
    if match s with Some s => negb (al_op s =? CHANSND) | None => false end
       || match r with Some r => negb (al_op r =? CHANRCV) | None => false end
    then stop Abort
    else
      x ← chan c;
      match s, r with
      | Some s', Some r' =>
        if c_nbuf x =? 0 then amove (al_v r') (al_v s') (c_elemsize x)
        else take_out c r';; put_in c s'
      | _, _ => on_alt r (take_out c);; on_alt s (put_in c)
      end
  end.

(** ** Executing an alternative *)

(** [rnd] is what [rand()] returns. *)
Definition altexec (a rnd : Z) : tm unit :=
  al ← alt_at a;
  c ← ptr (al_c al);
  x ← chan c;
  match chanarray x (otherop (al_op al)) with
  | Some ((_ :: _) as ar) =>
    other ← ptr (ar !! Z.to_nat (rnd mod len ar));
    altcopy (Some a) (Some other);;
    o ← alt_at other;
    t ← ptr (al_thread o);
    y ← thread t;
    first ← ptr (th_alt y);
    altalldequeue first;;
    set_thread t (fun y => y <| th_alt := Some other |>);;
    _threadready t
  | _ => altcopy (Some a) None
  end.

(** ** [chanalt] *)

(** The number of entries before the one that ends the array, and that one's operation. *)
Fixpoint alt_length (fuel : nat) (a : Z) : tm (nat * Z) :=
  match fuel with
  | O => stop Endless
  | S fuel =>
    al ← alt_at a;
    if (al_op al =? CHANEND) || (al_op al =? CHANNOBLK) then mret (0%nat, al_op al)
    else r ← alt_length fuel (a + 1); mret (S (fst r), snd r)
  end.

Fixpoint set_owner (n : nat) (a : Z) (t : Z) : tm unit :=
  match n with
  | O => mret tt
  | S n => set_alt a (fun al => al <| al_thread := Some t |>);; set_owner n (a + 1) t
  end.

Fixpoint count_can (n : nat) (a : Z) : tm Z :=
  match n with
  | O => mret 0
  | S n => can ← altcanexec a; r ← count_can n (a + 1); mret (if (can : bool) then r + 1 else r)
  end.

(** The [j]th of the entries that can execute, as its index. *)
Fixpoint find_can (n : nat) (a : Z) (j : Z) : tm (option Z) :=
  match n with
  | O => mret None
  | S n =>
    can ← altcanexec a;
    if (can : bool) && (j =? 0) then mret (Some 0)
    else r ← find_can n (a + 1) (if can then j - 1 else j); mret (option_map Z.succ r)
  end.

Fixpoint queue_all (n : nat) (a : Z) : tm unit :=
  match n with
  | O => mret tt
  | S n => al ← alt_at a; (if al_op al =? CHANNOP then mret tt else altqueue a);; queue_all n (a + 1)
  end.

(** A call of [chanalt] returns, or its thread waits with [n] entries, or it waits for the lock
    of all channels. *)
Inductive altres := Returns (i : Z) | Blocks (n : nat) | Contends (n : nat) (canblock : bool).

(** Up to [qlock(&chanlock)]. *)
Definition chanalt_begin (p a : Z) : tm (nat * bool) :=
  m ← get (fun w => size (w_alts w));
  r ← alt_length (S m) a;
  x ← proc p;
  t ← ptr (p_thread x);
  set_owner (fst r) a t;;
  set_thread t (fun y => y <| th_alt := Some a |>);;
  mret (fst r, snd r =? CHANEND).

(** With the lock held, and up to the release of the lock. *)
Definition chanalt_locked (a : Z) (n : nat) (canblock : bool) (rnd1 rnd2 : Z) : tm altres :=
  ncan ← count_can n a;
  found ← if ncan =? 0 then mret None else find_can n a (rnd1 mod ncan);
  match found with
  | Some i => altexec (a + i) rnd2;; mret (Returns i)
  | None => if negb canblock then mret (Returns (-1)) else queue_all n a;; mret (Blocks n)
  end.

(** The lock that protects all channels. *)
Definition chanlock : Z := -1.

(** The release of the lock, and the switch to another thread when the call waits. *)
Definition chanalt_unlock (p : Z) (r : altres) : tm altres :=
  threadqunlock chanlock;;
  match r with Blocks _ => _threadswitch p;; mret r | _ => mret r end.

(** A thread that had to wait for the lock goes on with [chanalt_locked] and [chanalt_unlock]. *)
Definition chanalt (p a rnd1 rnd2 : Z) : tm altres :=
  r ← chanalt_begin p a;
  l ← threadqlock p chanlock true;
  match l with
  | Locked => s ← chanalt_locked a (fst r) (snd r) rnd1 rnd2; chanalt_unlock p s
  | _ => mret (Contends (fst r) (snd r))
  end.

(** After the switch of a thread that waited with [n] entries. *)
Definition chanalt_end (p a : Z) (n : nat) : tm Z :=
  x ← proc p;
  t ← ptr (p_thread x);
  y ← thread t;
  e ← ptr (th_alt y);
  if (e <? a) || (a + Z.of_nat n <=? e) then stop Abort else mret (e - a).

(** ** Single operations *)

(** [_chanop]; its array of two entries is at [a], on the stack. *)
Definition _chanop (p a c op : Z) (v : option Z) (canblock : bool) (rnd1 rnd2 : Z) : tm altres :=
  change (fun w => w <| w_alts := <[a := mkAlt (Some c) v op None]>
    (<[a + 1 := mkAlt None None (if canblock then CHANEND else CHANNOBLK) None]> (w_alts w)) |>);;
  r ← chanalt p a rnd1 rnd2;
  mret (match r with Returns i => Returns (if i <? 0 then -1 else 1) | _ => r end).

Definition chansend (p a c : Z) (v : option Z) := _chanop p a c CHANSND v true.
Definition channbsend (p a c : Z) (v : option Z) := _chanop p a c CHANSND v false.
Definition chanrecv (p a c : Z) (v : option Z) := _chanop p a c CHANRCV v true.
Definition channbrecv (p a c : Z) (v : option Z) := _chanop p a c CHANRCV v false.
