(* ===== verification/ThreadRep.v ===== *)
(** * The queues of threads

    The lists that [addthread] and [delthread] link through the threads, as lists of
    addresses: a world whose queues are [Q], and what the functions do to [Q]. *)

From S2P Require Import Prelude Thread.

Implicit Types (w : world) (Q : gmap lid (list Z)).

Lemma tm_bind_Done {A B} (m : tm A) (k : A -> tm B) w a w' : m w = Done a w' -> (m ≫= k) w = k a w'.
Proof. unfold mbind, tm_bind. by intros ->. Qed.

Lemma thread_Done t w x : w_threads w !! t = Some x -> thread t w = Done x w.
Proof. unfold thread. by intros ->. Qed.
Lemma set_thread_Done t f w x :
  w_threads w !! t = Some x -> set_thread t f w = Done tt (w <| w_threads := <[t := f x]> (w_threads w) |>).
Proof. unfold set_thread. by intros ->. Qed.
Lemma proc_Done p w x : w_procs w !! p = Some x -> proc p w = Done x w.
Proof. unfold proc. by intros ->. Qed.
Lemma set_proc_Done p f w x :
  w_procs w !! p = Some x -> set_proc p f w = Done tt (w <| w_procs := <[p := f x]> (w_procs w) |>).
Proof. unfold set_proc. by intros ->. Qed.
Lemma tlist_Done l w x : w_lists w !! l = Some x -> tlist l w = Done x w.
Proof. unfold tlist. by intros ->. Qed.
Lemma set_tlist_Done l f w x :
  w_lists w !! l = Some x -> set_tlist l f w = Done tt (w <| w_lists := <[l := f x]> (w_lists w) |>).
Proof. unfold set_tlist. by intros ->. Qed.

(** ** Doubly linked lists *)

Definition orelse {A} (a b : option A) : option A := match a with Some x => Some x | None => b end.

(** From the pointer [p] before the first thread to the pointer [n] after the last. *)
Fixpoint links (th : gmap Z _Thread) (p : option Z) (ts : list Z) (n : option Z) : Prop :=
  match ts with
  | [] => True
  | t :: ts => exists x, th !! t = Some x /\ th_prev x = p /\ th_next x = orelse (head ts) n /\ links th (Some t) ts n
  end.

Lemma orelse_assoc {A} (a b c : option A) : orelse (orelse a b) c = orelse a (orelse b c).
Proof. by destruct a. Qed.

Lemma head_app_orelse {A} (l1 l2 : list A) : head (l1 ++ l2) = orelse (head l1) (head l2).
Proof. by destruct l1. Qed.

Lemma last_cons_orelse {A} (x : A) l : last (x :: l) = orelse (last l) (Some x).
Proof. rewrite last_cons. by destruct (last l). Qed.

Lemma links_app th l1 : forall p l2 n,
  links th p (l1 ++ l2) n <-> links th p l1 (orelse (head l2) n) /\ links th (orelse (last l1) p) l2 n.
Proof.
  induction l1 as [|t l1 IH]; intros p l2 n; [by cbn; split; [|intros [_ ?]]|].
  rewrite last_cons_orelse, orelse_assoc. cbn. setoid_rewrite IH. setoid_rewrite head_app_orelse. setoid_rewrite orelse_assoc.
  split; [intros (x & ? & ? & ? & ? & ?)|intros [(x & ? & ? & ? & ?) ?]]; eauto 10.
Qed.

Lemma links_ne th t y ts : forall p n, t ∉ ts -> links th p ts n -> links (<[t := y]> th) p ts n.
Proof.
  induction ts as [|u ts IH]; intros p n Ht; [done|]. apply not_elem_of_cons in Ht as [Htu Ht].
  intros (x & Hx & Hp & Hn & Hr). exists x. rewrite lookup_insert_ne by done. by auto.
Qed.

Lemma links_end th ts e x : forall p n n', NoDup ts -> last ts = Some e -> th !! e = Some x ->
  links th p ts n -> links (<[e := x <| th_next := n' |>]> th) p ts n'.
Proof.
  induction ts as [|t ts IH]; intros p n n' Hd Hl Hx H; [done|]. apply NoDup_cons in Hd as [Ht Hd].
  destruct H as (y & Hy & Hp & Hn & Hr). destruct ts as [|u ts].
  - injection Hl as ->. simplify_eq. cbn. exists (x <| th_next := n' |>). by rewrite lookup_insert_eq.
  - cbn in Hl. exists y. assert (e ∈ u :: ts) as He by (by apply last_Some_elem_of).
    rewrite lookup_insert_ne by (by intros ->). split_and!; try done. by eapply IH.
Qed.

Lemma links_start th ts e x p p' n : NoDup ts -> head ts = Some e -> th !! e = Some x ->
  links th p ts n -> links (<[e := x <| th_prev := p' |>]> th) p' ts n.
Proof.
  destruct ts as [|t ts]; [done|]. intros [Ht Hd]%NoDup_cons [= ->] Hx (y & Hy & Hp & Hn & Hr). simplify_eq.
  exists (x <| th_prev := p' |>). rewrite lookup_insert_eq. split_and!; try done. by apply links_ne.
Qed.

Lemma links_in th ts t : forall p n, links th p ts n -> t ∈ ts -> is_Some (th !! t).
Proof.
  induction ts as [|u ts IH]; intros p n H; [by intros ?%elem_of_nil|]. destruct H as (x & Hx & _ & _ & Hr).
  intros [->|]%elem_of_cons; eauto.
Qed.

Definition is_list (th : gmap Z _Thread) (l : _Threadlist) (ts : list Z) : Prop :=
  tl_head l = head ts /\ tl_tail l = last ts /\ NoDup ts /\ links th None ts None.

Lemma is_list_ne th l ts t y : t ∉ ts -> is_list th l ts -> is_list (<[t := y]> th) l ts.
Proof. intros Ht (Hh & Hl & Hd & H). split_and!; try done. by apply links_ne. Qed.

(** ** Running the functions *)

(** The next access of a computation, in a world that is written out. *)
Ltac look :=
  cbn [upd w_threads w_procs w_lists w_qlocks w_rwlocks w_rendez w_chans w_alts w_mem w_threadprocs w_threadnproc w_threadnsysproc];
  rewrite ?lookup_insert_eq, ?lookup_insert_ne by congruence; first [eassumption | reflexivity].
Ltac access :=
  first [apply thread_Done | apply set_thread_Done | apply proc_Done | apply set_proc_Done | apply tlist_Done | apply set_tlist_Done]; look.
Ltac trun := erewrite tm_bind_Done by access; cbv beta.

(** What a thread is apart from its links. *)
Definition core (x : _Thread) : Z * option Z * bool * bool := (th_proc x, th_alt x, th_exiting x, th_mainthread x).

(** Only links of the threads [ts] have changed. *)
Definition relink (ts : list Z) (th th' : gmap Z _Thread) : Prop :=
  forall u, core <$> th' !! u = core <$> th !! u /\ (u ∉ ts -> th' !! u = th !! u).

Lemma relink_insert ts th t x y : th !! t = Some x -> core y = core x -> t ∈ ts -> relink ts th (<[t := y]> th).
Proof.
  intros Hx E Ht u. destruct (decide (u = t)) as [->|Hu]; [|by rewrite lookup_insert_ne].
  rewrite lookup_insert_eq, Hx. cbn. rewrite E. split; [done|]. by intros [].
Qed.

Lemma relink_trans ts th1 th2 th3 : relink ts th1 th2 -> relink ts th2 th3 -> relink ts th1 th3.
Proof.
  intros H1 H2 u. destruct (H1 u) as [E1 F1], (H2 u) as [E2 F2]. split; [by rewrite E2|]. intros Hu. by rewrite F2, F1.
Qed.

Lemma links_relink ts0 th th' ts : relink ts0 th th' -> forall p n,
  (forall t, t ∈ ts -> t ∉ ts0) -> links th p ts n -> links th' p ts n.
Proof.
  intros Hr. induction ts as [|t ts IH]; intros p n Hts; [done|]. intros (x & Hx & Hp & Hn & H). exists x.
  rewrite (proj2 (Hr t)) by (apply Hts; by left). split_and!; try done. apply IH; [|done]. intros u Hu. apply Hts. by right.
Qed.

Lemma is_list_relink ts0 th th' l ts : relink ts0 th th' -> (forall t, t ∈ ts -> t ∉ ts0) -> is_list th l ts -> is_list th' l ts.
Proof. intros Hr Hts (Hh & Hl & Hd & H). split_and!; try done. by eapply links_relink. Qed.

Lemma addthread_list w k l ts t x :
  w_lists w !! k = Some l -> is_list (w_threads w) l ts -> w_threads w !! t = Some x -> t ∉ ts ->
  exists th' l', addthread k t w = Done tt (w <| w_threads := th' |> <| w_lists := <[k := l']> (w_lists w) |>) /\
    is_list th' l' (ts ++ [t]) /\ relink (t :: ts) (w_threads w) th'.
Proof.
  intros Hk (Hh & Hl & Hd & H) Hx Ht. unfold addthread. trun. rewrite Hl.
  assert (NoDup (ts ++ [t])) as Hd'.
  { apply NoDup_app. split_and!; [done| |apply NoDup_singleton]. by intros u Hu ->%list_elem_of_singleton. }
  destruct (last ts) as [e|] eqn:El.
  - assert (e ∈ ts) as He by (by apply last_Some_elem_of). assert (e <> t) by (by intros ->).
    destruct (links_in _ _ _ _ _ H He) as [y Hy].
    erewrite tm_bind_Done; [|trun; access]. trun. cbn [upd]. do 2 eexists. split; [|split].
    + etransitivity; [apply set_thread_Done; look|]. cbn. by rewrite insert_insert_eq.
    + split_and!; [|by rewrite last_snoc|done|].
      { etransitivity; [exact Hh|]. by destruct ts. }
      rewrite links_app, El. split.
      * apply links_ne; [done|]. by eapply links_end.
      * cbn. eexists. by rewrite lookup_insert_eq.
    + eapply relink_trans; [apply (relink_insert _ _ e y (y <| th_next := Some t |>)); [done|done|by right]|].
      eapply relink_insert; [by rewrite lookup_insert_ne|done|by left].
  - assert (ts = []) as -> by (by apply last_None).
    erewrite tm_bind_Done; [|trun; access]. trun. cbn [upd]. do 2 eexists. split; [|split].
    + etransitivity; [apply set_thread_Done; look|]. cbn. by rewrite !insert_insert_eq.
    + split_and!; try done. cbn. eexists. by rewrite lookup_insert_eq.
    + eapply relink_insert; [done|done|by left].
Qed.

Lemma delthread_list w k l l1 t l2 :
  w_lists w !! k = Some l -> is_list (w_threads w) l (l1 ++ t :: l2) ->
  exists th' l', delthread k t w = Done tt (w <| w_threads := th' |> <| w_lists := <[k := l']> (w_lists w) |>) /\
    is_list th' l' (l1 ++ l2) /\ relink (l1 ++ t :: l2) (w_threads w) th'.
Proof.
  intros Hk (Hh & Hl & Hd & H). rewrite links_app in H. destruct H as [H1 (x & Hx & Hp & Hn & H2)].
  assert (NoDup (l1 ++ l2) /\ NoDup l1 /\ NoDup l2) as (Hd' & Hd1 & Hd2).
  { rewrite NoDup_app, NoDup_cons in Hd. rewrite NoDup_app. set_solver. }
  assert (t ∉ l1 /\ t ∉ l2 /\ (forall u, u ∈ l1 -> u ∉ l2)) as (Ht1 & Ht2 & Hdis).
  { rewrite NoDup_app, NoDup_cons in Hd. set_solver. }
  assert (orelse (last l1) None = last l1) as E1 by (by destruct (last l1)). rewrite E1 in *.
  assert (orelse (head l2) None = head l2) as E2 by (by destruct (head l2)). rewrite E2 in *.
  unfold delthread. trun. rewrite Hp, Hn.
  (* the thread before *)
  assert (exists th1 la, (match last l1 with Some e => set_thread e (fun y => y <| th_next := head l2 |>)
      | None => set_tlist k (fun y => y <| tl_head := head l2 |>) end) w
      = Done tt (w <| w_threads := th1 |> <| w_lists := <[k := la]> (w_lists w) |>) /\
      links th1 None l1 (head l2) /\ relink l1 (w_threads w) th1 /\ tl_head la = head (l1 ++ l2) /\ tl_tail la = tl_tail l)
    as (th1 & la & R1 & K1 & C1 & Eh & Et).
  { destruct (last l1) as [e|] eqn:El.
    - assert (e ∈ l1) as He by (by apply last_Some_elem_of). destruct (links_in _ _ _ _ _ H1 He) as [y Hy].
      exists (<[e := y <| th_next := head l2 |>]> (w_threads w)), l. split_and!; try done.
      + erewrite set_thread_Done by exact Hy. by rewrite (insert_id (w_lists w)).
      + by eapply links_end.
      + by eapply relink_insert.
      + rewrite Hh. by destruct l1.
    - assert (l1 = []) as -> by (by apply last_None). exists (w_threads w), (l <| tl_head := head l2 |>). split_and!; try done.
      by erewrite set_tlist_Done. }
  erewrite tm_bind_Done by exact R1. assert (th1 !! t = Some x) as Hx1 by (by rewrite (proj2 (C1 t))).
  trun. rewrite Hp, Hn.
  assert (links th1 (Some t) l2 None) as K2.
  { eapply links_relink; [exact C1|set_solver|done]. }
  destruct (head l2) as [e|] eqn:Eh2.
  - assert (e ∈ l2) as He by (destruct l2; [done|injection Eh2 as ->; by left]). destruct (links_in _ _ _ _ _ K2 He) as [y Hy].
    exists (<[e := y <| th_prev := last l1 |>]> th1), la. split; [|split].
    + erewrite set_thread_Done by look. done.
    + split_and!; [done| |done|].
      * rewrite Et, Hl, !last_app, last_cons. destruct l2; [done|]. by destruct (last_is_Some (z :: l2)) as [_ [? ->]].
      * rewrite links_app, E1, Eh2. split; [by apply links_ne; [set_solver|]|by eapply links_start].
    + eapply relink_trans; [|by eapply relink_insert; [exact Hy|done|set_solver]].
      intros u. destruct (C1 u) as [? F]. split; [done|]. intros Hu. apply F. set_solver.
  - assert (l2 = []) as -> by (by destruct l2). rewrite app_nil_r in *.
    exists th1, (la <| tl_tail := last l1 |>). split; [|split].
    + erewrite set_tlist_Done by look. cbn. by rewrite insert_insert_eq.
    + by split_and!.
    + intros u. destruct (C1 u) as [? F]. split; [done|]. intros Hu. apply F. set_solver.
Qed.

(** ** The queues of a world *)

Record queued w Q : Prop := mkQueued {
  qd_list : forall k ts, Q !! k = Some ts -> exists l, w_lists w !! k = Some l /\ is_list (w_threads w) l ts;
  qd_one : forall k1 k2 ts1 ts2 t, Q !! k1 = Some ts1 -> Q !! k2 = Some ts2 -> t ∈ ts1 -> t ∈ ts2 -> k1 = k2 }.

Lemma queued_ext w w' Q : w_threads w' = w_threads w -> w_lists w' = w_lists w -> queued w Q -> queued w' Q.
Proof. intros E1 E2 [Hl Ho]. constructor; [|done]. by rewrite E1, E2. Qed.

Definition idle_in Q (t : Z) : Prop := forall k ts, Q !! k = Some ts -> t ∉ ts.

(** Only links have changed. *)
Definition relinked w w' : Prop :=
  (forall u, core <$> w_threads w' !! u = core <$> w_threads w !! u) /\
  w' = w <| w_threads := w_threads w' |> <| w_lists := w_lists w' |>.

#[global] Instance relinked_preorder : PreOrder relinked.
Proof.
  split; [by intros w|]. intros w1 w2 w3 [C1 E1] [C2 E2]. split; [intros u; by rewrite C2|].
  rewrite E2. rewrite E1 at 1. done.
Qed.

Lemma relinked_thread w w' t x :
  relinked w w' -> w_threads w !! t = Some x -> exists y, w_threads w' !! t = Some y /\ core y = core x.
Proof.
  intros [C _] Hx. specialize (C t). rewrite Hx in C. destruct (w_threads w' !! t) as [y|]; [|done].
  injection C as C. exists y. unfold core in *. split; [done|congruence].
Qed.

Lemma queued_update w Q k ts ts' ts0 th' l' :
  queued w Q -> Q !! k = Some ts -> relink ts0 (w_threads w) th' -> is_list th' l' ts' ->
  (forall t, t ∈ ts0 -> t ∈ ts \/ idle_in Q t) -> (forall t, t ∈ ts' -> t ∈ ts \/ idle_in Q t) ->
  queued (w <| w_threads := th' |> <| w_lists := <[k := l']> (w_lists w) |>) (<[k := ts']> Q).
Proof.
  intros [Hl Ho] Hk Hr H' Hts0 Hts'. constructor.
  - intros j us. cbn [upd w_lists w_threads]. destruct (decide (j = k)) as [->|Hj].
    + rewrite !lookup_insert_eq. intros [= <-]. eauto.
    + rewrite !lookup_insert_ne by done. intros Hus. destruct (Hl j us Hus) as (l & El & Hi). exists l. split; [done|].
      eapply is_list_relink; [exact Hr| |exact Hi]. intros t Ht Ht0. destruct (Hts0 t Ht0) as [Hin|Hid]; [|by eapply Hid].
      apply Hj. by eapply Ho.
  - assert (forall j us t, j <> k -> Q !! j = Some us -> t ∈ us -> t ∈ ts' -> False) as Hne.
    { intros j us t Hj Hus Ht Ht'. destruct (Hts' t Ht') as [Hin|Hid]; [|by eapply Hid]. apply Hj. by eapply Ho. }
    intros k1 k2 ts1 ts2 t. destruct (decide (k1 = k)) as [->|H1], (decide (k2 = k)) as [->|H2]; rewrite ?lookup_insert_eq, ?lookup_insert_ne by done;
      intros E1 E2; simplify_eq; try done; intros; try (exfalso; by eapply Hne). by eapply Ho.
Qed.

Lemma addthread_ok w Q k ts t x :
  queued w Q -> Q !! k = Some ts -> idle_in Q t -> w_threads w !! t = Some x ->
  exists w', addthread k t w = Done tt w' /\ queued w' (<[k := ts ++ [t]]> Q) /\ relinked w w'.
Proof.
  intros H Hk Hid Hx. destruct (qd_list _ _ H _ _ Hk) as (l & El & Hi).
  destruct (addthread_list w k l ts t x El Hi Hx) as (th' & l' & E & Hi' & Hr); [by eapply Hid|].
  eexists. split; [exact E|]. split; [|by split; [apply Hr|]].
  eapply queued_update; [done..| |]; intros u; rewrite ?elem_of_app, ?list_elem_of_singleton, ?elem_of_cons; intros [?|?]; subst; auto.
Qed.

Lemma delthread_ok w Q k l1 t l2 :
  queued w Q -> Q !! k = Some (l1 ++ t :: l2) ->
  exists w', delthread k t w = Done tt w' /\ queued w' (<[k := l1 ++ l2]> Q) /\ relinked w w' /\ idle_in (<[k := l1 ++ l2]> Q) t.
Proof.
  intros H Hk. destruct (qd_list _ _ H _ _ Hk) as (l & El & Hi).
  destruct (delthread_list w k l l1 t l2 El Hi) as (th' & l' & E & Hi' & Hr).
  eexists. split; [exact E|]. split_and!; [|by split; [apply Hr|]|].
  - eapply queued_update; [done..|by left|]. set_solver.
  - intros j us. destruct (decide (j = k)) as [->|Hj]; [rewrite lookup_insert_eq; intros [= <-]|rewrite lookup_insert_ne by done; intros Hus Ht].
    + destruct Hi as (_ & _ & Hd & _). rewrite NoDup_app, NoDup_cons in Hd. set_solver.
    + apply Hj. eapply (qd_one _ _ H); [exact Hus|exact Hk|exact Ht|set_solver].
Qed.

(** The first thread of a queue. *)
Lemma tlist_head w Q k ts : queued w Q -> Q !! k = Some ts -> exists x, tlist k w = Done x w /\ tl_head x = head ts.
Proof. intros H Hk. destruct (qd_list _ _ H _ _ Hk) as (l & El & Hi). exists l. split; [by apply tlist_Done|apply Hi]. Qed.

Lemma _threadready_ok w Q t x ts :
  queued w Q -> idle_in Q t -> w_threads w !! t = Some x -> Q !! (th_proc x, Runqueue) = Some ts ->
  exists w', _threadready t w = Done tt w' /\ queued w' (<[(th_proc x, Runqueue) := ts ++ [t]]> Q) /\ relinked w w'.
Proof. intros H Hid Hx Hk. unfold _threadready. trun. by eapply addthread_ok. Qed.
