(* ===== verification/ThreadLock.v ===== *)
(** * Locks and the scheduler, one operation at a time

    What each operation of [Thread] on the locks and on the run queue of a proc does to the
    queues. *)

From S2P Require Import Prelude Thread ThreadRep.

Implicit Types (w : world) (Q : gmap lid (list Z)).

Lemma qlock_Done l w q : w_qlocks w !! l = Some q -> qlock_at l w = Done q w.
Proof. unfold qlock_at. by intros ->. Qed.
Lemma set_qlock_Done l f w q :
  w_qlocks w !! l = Some q -> set_qlock l f w = Done tt (w <| w_qlocks := <[l := f q]> (w_qlocks w) |>).
Proof. unfold set_qlock. by intros ->. Qed.

(** A thread that is on a queue exists. *)
Lemma queued_thread w Q k ts t : queued w Q -> Q !! k = Some ts -> t ∈ ts -> exists th, w_threads w !! t = Some th.
Proof. intros H Hk Ht. destruct (qd_list _ _ H k ts Hk) as (l & _ & _ & _ & _ & Hl). by eapply links_in. Qed.

(** ** From one queue to the run queue *)

Lemma wake_head w Q k t ts th us :
  queued w Q -> Q !! k = Some (t :: ts) -> w_threads w !! t = Some th -> k <> (th_proc th, Runqueue) ->
  Q !! (th_proc th, Runqueue) = Some us ->
  exists w', (delthread k t;; _threadready t) w = Done tt w' /\
    queued w' (<[(th_proc th, Runqueue) := us ++ [t]]> (<[k := ts]> Q)) /\ relinked w w'.
Proof.
  intros H Hk Hth Hne Hus. destruct (delthread_ok w Q k [] t ts H Hk) as (w1 & E1 & H1 & R1 & Hid).
  destruct (relinked_thread _ _ _ _ R1 Hth) as (th1 & Hth1 & Hc). injection Hc as Hp _ _ _.
  destruct (_threadready_ok w1 (<[k := ts]> Q) t th1 us H1 Hid Hth1) as (w' & E' & H' & R').
  { rewrite Hp. by rewrite lookup_insert_ne. }
  exists w'. split_and!; [by erewrite tm_bind_Done by exact E1|by rewrite Hp in H'|by etransitivity].
Qed.

(** ** Waiting *)

(** The current thread of [p] leaves the proc. *)
Definition released (p : Z) w : world :=
  match w_procs w !! p with Some x => w <| w_procs := <[p := x <| p_thread := None |>]> (w_procs w) |> | None => w end.

Lemma _threadswitch_ok w p x t th :
  w_procs w !! p = Some x -> p_thread x = Some t -> w_threads w !! t = Some th -> th_exiting th = false ->
  _threadswitch p w = Done tt (released p w).
Proof.
  intros Hp Ht Hth He. unfold _threadswitch, released. trun. rewrite Ht. erewrite tm_bind_Done by done. trun. trun. by rewrite He, Hp.
Qed.

(** [singlethreaded] as a function of the world. *)
Definition single w : bool :=
  (w_threadnproc w =? 1) &&
  match head (w_threadprocs w) with
  | Some p => match w_procs w !! p with Some x => p_nthread x =? 1 | None => false end
  | None => false
  end.

(** The list of procs is that of the procs there are. *)
Definition procs_ok w : Prop :=
  w_threadnproc w = 1 -> exists p x, head (w_threadprocs w) = Some p /\ w_procs w !! p = Some x.

Lemma singlethreaded_ok w : procs_ok w -> singlethreaded w = Done (single w) w.
Proof.
  intros H. unfold singlethreaded, single. erewrite tm_bind_Done by done. erewrite tm_bind_Done by done.
  destruct (Z.eqb_spec (w_threadnproc w) 1) as [E|]; [|done]. destruct (H E) as (p & x & -> & Hp). rewrite Hp.
  erewrite tm_bind_Done by done. by trun.
Qed.

Section wait.
Context (w : world) (Q : gmap lid (list Z)) (p t : Z) (x : Proc) (th : _Thread) (k : lid) (ts : list Z).
Hypotheses (H : queued w Q) (Hp : w_procs w !! p = Some x) (Ht : p_thread x = Some t) (Hth : w_threads w !! t = Some th).
Hypotheses (He : th_exiting th = false) (Hid : idle_in Q t) (Hk : Q !! k = Some ts) (Hpr : procs_ok w).

Lemma wait_on_ok :
  if single w then wait_on p k w = Stop Abort
  else exists w', wait_on p k w = Done Waits (released p w') /\ queued w' (<[k := ts ++ [t]]> Q) /\ relinked w w'.
Proof using All.
  unfold wait_on. erewrite tm_bind_Done by (by apply singlethreaded_ok). destruct (single w); [done|].
  destruct (addthread_ok w Q k ts t th H Hk Hid Hth) as (w' & E & H' & R). exists w'. split_and!; [|done|done].
  unfold threadnow. erewrite tm_bind_Done by (by erewrite tm_bind_Done by (by apply proc_Done)). rewrite Ht. erewrite tm_bind_Done by done.
  erewrite tm_bind_Done by exact E. destruct (relinked_thread _ _ _ _ R Hth) as (th' & Hth' & Hc). injection Hc as _ _ Hex _.
  erewrite tm_bind_Done; [done|]. eapply _threadswitch_ok; [|exact Ht|exact Hth'|by rewrite Hex]. destruct R as [_ ->]. done.
Qed.

(** *** [QLock] *)

Lemma threadqlock_free l q block :
  w_qlocks w !! l = Some q -> q_owner q = None ->
  threadqlock p l block w = Done Locked (w <| w_qlocks := <[l := mkQLock (Some t)]> (w_qlocks w) |>).
Proof using Hp Ht.
  intros Hl Ho. unfold threadqlock. erewrite tm_bind_Done by (by apply qlock_Done). rewrite Ho. unfold threadnow.
  erewrite tm_bind_Done by (by erewrite tm_bind_Done by (by apply proc_Done)). erewrite tm_bind_Done by (by apply set_qlock_Done). by rewrite Ht.
Qed.
End wait.

Lemma threadqlock_owned p w l q o block :
  w_qlocks w !! l = Some q -> q_owner q = Some o ->
  threadqlock p l block w = (if block then wait_on p (l, Waiting) else mret Refused) w.
Proof. intros Hl Ho. unfold threadqlock. erewrite tm_bind_Done by (by apply qlock_Done). by rewrite Ho. Qed.

Lemma threadqunlock_nobody w Q l q o :
  queued w Q -> w_qlocks w !! l = Some q -> q_owner q = Some o -> Q !! (l, Waiting) = Some [] ->
  threadqunlock l w = Done tt (w <| w_qlocks := <[l := mkQLock None]> (w_qlocks w) |>).
Proof.
  intros H Hl Ho Hk. unfold threadqunlock. erewrite tm_bind_Done by (by apply qlock_Done). rewrite Ho.
  destruct (tlist_head _ _ _ _ H Hk) as (y & Ey & Hy). erewrite tm_bind_Done by exact Ey. rewrite Hy.
  by erewrite tm_bind_Done by (by apply set_qlock_Done).
Qed.

Lemma threadqunlock_next w Q l q o t ts th us :
  queued w Q -> w_qlocks w !! l = Some q -> q_owner q = Some o -> Q !! (l, Waiting) = Some (t :: ts) ->
  w_threads w !! t = Some th -> Q !! (th_proc th, Runqueue) = Some us ->
  exists w', threadqunlock l w = Done tt w' /\ queued w' (<[(th_proc th, Runqueue) := us ++ [t]]> (<[(l, Waiting) := ts]> Q)) /\
    relinked (w <| w_qlocks := <[l := mkQLock (Some t)]> (w_qlocks w) |>) w'.
Proof.
  intros H Hl Ho Hk Hth Hus. unfold threadqunlock. erewrite tm_bind_Done by (by apply qlock_Done). rewrite Ho.
  destruct (tlist_head _ _ _ _ H Hk) as (y & Ey & Hy). erewrite tm_bind_Done by exact Ey. rewrite Hy.
  erewrite tm_bind_Done by (by apply set_qlock_Done). cbn [head]. eapply wake_head; try done. by eapply queued_ext; [..|exact H].
Qed.

(** ** Threads made ready *)

(** The proc of a thread; every proc has a run queue. *)
Definition home w (t : Z) : Z := match w_threads w !! t with Some th => th_proc th | None => 0 end.
Definition homes w Q : Prop := forall t th, w_threads w !! t = Some th -> is_Some (Q !! (th_proc th, Runqueue)).

(** The queues when the threads [ts] have been put on their run queues. *)
Definition made_ready (h : Z -> Z) (ts : list Z) Q : gmap lid (list Z) :=
  foldl (fun Q t => alter (fun us => us ++ [t]) (h t, Runqueue) Q) Q ts.

Lemma relinked_home w w' : relinked w w' -> forall t, home w' t = home w t.
Proof.
  intros [C _] t. specialize (C t). unfold home. destruct (w_threads w !! t), (w_threads w' !! t); try done. by injection C.
Qed.

Lemma relinked_homes w w' Q : relinked w w' -> homes w Q -> homes w' Q.
Proof.
  intros [C _] H t th Ht. specialize (C t). rewrite Ht in C. destruct (w_threads w !! t) as [th0|] eqn:E; [|done].
  injection C as -> _ _ _. by eapply H.
Qed.

Lemma homes_more w Q Q' : (forall k, is_Some (Q !! k) -> is_Some (Q' !! k)) -> homes w Q -> homes w Q'.
Proof. intros HQ H t th Ht. by eapply HQ, H. Qed.

Lemma insert_more Q k ts j : is_Some (Q !! j) -> is_Some (<[k := ts]> Q !! j).
Proof. rewrite lookup_insert_is_Some'. by right. Qed.

Lemma alter_more Q (f : list Z -> list Z) k j : is_Some (Q !! j) -> is_Some (alter f k Q !! j).
Proof. by rewrite lookup_alter_is_Some. Qed.

Lemma insert_alter Q k us (f : list Z -> list Z) : Q !! k = Some us -> <[k := f us]> Q = alter f k Q.
Proof. intros Hk. apply map_eq. intros j. destruct (decide (j = k)) as [->|]; simplify_map_eq; done. Qed.

(** From the head of a queue that is not a run queue to the run queue. *)
Lemma wake_first w Q k t ts :
  queued w Q -> homes w Q -> Q !! k = Some (t :: ts) -> snd k <> Runqueue ->
  exists w', (delthread k t;; _threadready t) w = Done tt w' /\ queued w' (made_ready (home w) [t] (<[k := ts]> Q)) /\ relinked w w'.
Proof.
  intros H Hh Hk Hne. destruct (queued_thread w Q k _ t H Hk) as [th Hth]; [by left|]. destruct (Hh t th Hth) as [us Hus].
  assert (k <> (th_proc th, Runqueue)) as Hkn by (by intros ->).
  destruct (wake_head w Q k t ts th us H Hk Hth Hkn Hus) as (w' & E & H' & R).
  exists w'. split_and!; try done. cbn. unfold home. rewrite Hth. erewrite <- insert_alter; [exact H'|]. by rewrite lookup_insert_ne.
Qed.

Lemma made_ready_app h ts1 ts2 Q : made_ready h (ts1 ++ ts2) Q = made_ready h ts2 (made_ready h ts1 Q).
Proof. apply foldl_app. Qed.

Lemma made_ready_ext h h' ts Q : (forall t, h t = h' t) -> made_ready h ts Q = made_ready h' ts Q.
Proof. intros E. unfold made_ready. revert Q. induction ts as [|t ts IH]; intros Q; [done|]. cbn. by rewrite E. Qed.

Lemma made_ready_ne h ts Q k : snd k <> Runqueue -> made_ready h ts Q !! k = Q !! k.
Proof.
  intros Hk. unfold made_ready. revert Q. induction ts as [|t ts IH]; intros Q; [done|]. cbn. rewrite IH. apply lookup_alter_ne. by intros <-.
Qed.

Lemma made_ready_insert h ts Q k us : snd k <> Runqueue -> made_ready h ts (<[k := us]> Q) = <[k := us]> (made_ready h ts Q).
Proof.
  intros Hk. unfold made_ready. revert Q. induction ts as [|t ts IH]; intros Q; [done|]. cbn. rewrite <- IH. f_equal.
  apply map_eq. intros j. destruct (decide (j = k)) as [->|Hj].
  - rewrite lookup_alter_ne, !lookup_insert_eq by (by intros <-). done.
  - rewrite (lookup_insert_ne _ k j) by done. destruct (decide (j = (h t, Runqueue))) as [->|Hj2].
    + by rewrite !lookup_alter_eq, lookup_insert_ne by done.
    + by rewrite !lookup_alter_ne, lookup_insert_ne by done.
Qed.

Lemma made_ready_more h ts Q j : is_Some (Q !! j) -> is_Some (made_ready h ts Q !! j).
Proof. unfold made_ready. revert Q. induction ts as [|t ts IH]; intros Q Hj; [done|]. cbn. apply IH. by apply alter_more. Qed.

(** A queue has no more threads than there are. *)
Lemma queue_size w Q k ts : queued w Q -> Q !! k = Some ts -> (length ts <= size (w_threads w))%nat.
Proof.
  intros H Hk. destruct (qd_list _ _ H k ts Hk) as (l & _ & _ & _ & Hd & Hl).
  assert (list_to_set ts ⊆ dom (w_threads w)) as Hs.
  { intros t Ht%elem_of_list_to_set. apply elem_of_dom. by eapply links_in. }
  apply subseteq_size in Hs. rewrite size_list_to_set, size_dom in Hs by done. done.
Qed.

(** ** The scheduler *)

Lemma run_idle_ok p ids : forall fuel w Q rs,
  queued w Q -> Q !! (p, Idlequeue) = Some ids -> Q !! (p, Runqueue) = Some rs -> (length ids < fuel)%nat ->
  exists w', run_idle fuel p w = Done tt w' /\ queued w' (<[(p, Runqueue) := rs ++ ids]> (<[(p, Idlequeue) := []]> Q)) /\ relinked w w'.
Proof.
  induction ids as [|t ids IH]; intros [|fuel] w Q rs H Hi Hr Hf; cbn in Hf; try lia; cbn [run_idle];
    destruct (tlist_head _ _ _ _ H Hi) as (x & Ex & Hx); erewrite tm_bind_Done by exact Ex; rewrite Hx; cbn [head].
  - exists w. rewrite app_nil_r, (insert_id Q), insert_id by done. by split_and!.
  - destruct (delthread_ok w Q _ [] t ids H Hi) as (w1 & E1 & H1 & R1 & Hid). erewrite tm_bind_Done by exact E1. cbn [app] in *.
    destruct (queued_thread w Q _ _ t H Hi) as [th Hth]; [by left|]. destruct (relinked_thread _ _ _ _ R1 Hth) as (th1 & Hth1 & _).
    destruct (addthread_ok w1 _ (p, Runqueue) rs t th1 H1) as (w2 & E2 & H2 & R2); [by rewrite lookup_insert_ne|done|done|].
    erewrite tm_bind_Done by exact E2.
    destruct (IH fuel w2 _ (rs ++ [t]) H2) as (w3 & E3 & H3 & R3);
      [by rewrite lookup_insert_ne, lookup_insert_eq|by rewrite lookup_insert_eq|lia|].
    exists w3. split_and!; [done| |by etransitivity; [exact R1|etransitivity]].
    rewrite (insert_insert_ne _ (p, Idlequeue) (p, Runqueue)), insert_insert_eq, insert_insert_eq, <- app_assoc in H3 by done. done.
Qed.

Lemma onlist_loop_ok w t ts : forall fuel p, links (w_threads w) p ts None -> (length ts < fuel)%nat ->
  onlist_loop fuel (head ts) t w = Done (bool_decide (t ∈ ts)) w.
Proof.
  induction ts as [|u ts IH]; intros [|fuel] p H Hf; cbn in Hf; try lia; [done|]. cbn [onlist_loop head].
  destruct (decide (u = t)) as [->|Hne]; [rewrite bool_decide_eq_true_2; [done|by left]|].
  destruct H as (x & Hx & _ & Hn & Hr). trun. rewrite Hn. assert (orelse (head ts) None = head ts) as -> by (by destruct (head ts)).
  erewrite IH by (done || lia). f_equal. apply bool_decide_ext. rewrite elem_of_cons. split; [by right|]. by intros [->|].
Qed.

(** What [procnext] gives, and the run queue and the idle queue that are left: the pinned thread
    if it is ready, else the first thread that is ready, else the first idle one, and then the
    other idle threads are ready. *)
Definition pick (pin : option Z) (nthread : Z) (run idle : list Z) : picked * list Z * list Z :=
  match pin with
  | Some t => if decide (t ∈ run) then (Next t, filter (fun u => u <> t) run, idle) else (Asleep, run, idle)
  | None =>
    match run with
    | t :: ts => (Next t, ts, idle)
    | [] =>
      if nthread =? 0 then (Nobody, [], idle)
      else match idle with t :: ts => (Next t, ts, []) | [] => (Asleep, [], []) end
    end
  end.

(** The proc runs the thread that was found. *)
Definition dispatched (p : Z) (r : picked) w : world :=
  match r, w_procs w !! p with
  | Next t, Some x => w <| w_procs := <[p := x <| p_thread := Some t |> <| p_nswitch := p_nswitch x + 1 |>]> (w_procs w) |>
  | _, _ => w
  end.

Lemma remove_one (t : Z) l1 l2 : NoDup (l1 ++ t :: l2) -> filter (fun u => u <> t) (l1 ++ t :: l2) = l1 ++ l2.
Proof.
  intros Hd. apply NoDup_app in Hd as (H1 & Hx & [Ht H2]%NoDup_cons).
  assert (forall l : list Z, t ∉ l -> filter (fun u => u <> t) l = l) as Hf.
  { intros l Hl. induction l as [|u l IH]; [done|]. apply not_elem_of_cons in Hl as [Hu Hl]. rewrite filter_cons_True by done. by rewrite IH. }
  rewrite filter_app, filter_cons_False by (by intros []). rewrite !Hf; [done|done|]. intros Ht1. apply (Hx t Ht1). by left.
Qed.

Lemma procnext_take w Q p x t l1 l2 :
  queued w Q -> w_procs w !! p = Some x -> Q !! (p, Runqueue) = Some (l1 ++ t :: l2) ->
  exists w', (delthread (p, Runqueue) t;; set_proc p (fun x => x <| p_thread := Some t |> <| p_nswitch := p_nswitch x + 1 |>);; mret (Next t)) w
      = Done (Next t) (dispatched p (Next t) w') /\ queued w' (<[(p, Runqueue) := l1 ++ l2]> Q) /\ relinked w w'.
Proof.
  intros H Hp Hr. destruct (delthread_ok w Q _ l1 t l2 H Hr) as (w1 & E1 & H1 & R1 & _). exists w1. split_and!; [|done|done].
  assert (w_procs w1 !! p = Some x) as Hp1 by (destruct R1 as [_ ->]; exact Hp).
  erewrite tm_bind_Done by exact E1. unfold dispatched. rewrite Hp1. by trun.
Qed.

Lemma procnext_ok w Q p x rs ids :
  queued w Q -> w_procs w !! p = Some x -> Q !! (p, Runqueue) = Some rs -> Q !! (p, Idlequeue) = Some ids ->
  let '(r, rs', ids') := pick (p_pinthread x) (p_nthread x) rs ids in
  exists w', procnext p w = Done r (dispatched p r w') /\
    queued w' (<[(p, Runqueue) := rs']> (<[(p, Idlequeue) := ids']> Q)) /\ relinked w w'.
Proof.
  intros H Hp Hr Hi. unfold procnext, pick. trun.
  assert (<[(p, Runqueue) := rs]> (<[(p, Idlequeue) := ids]> Q) = Q) as Eid by (rewrite (insert_id Q), insert_id; done).
  destruct (p_pinthread x) as [t|] eqn:Epin.
  - destruct (qd_list _ _ H _ _ Hr) as (l & El & Hh & _ & Hd & Hlk). pose proof (queue_size _ _ _ _ H Hr) as Hsz.
    assert (onlist (p, Runqueue) t w = Done (bool_decide (t ∈ rs)) w) as Eon.
    { unfold onlist. trun. erewrite tm_bind_Done by done. rewrite Hh. eapply onlist_loop_ok; [exact Hlk|lia]. }
    erewrite tm_bind_Done by (by erewrite tm_bind_Done by exact Eon). case_bool_decide as Hin.
    + destruct (decide (t ∈ rs)) as [Hin'|]; [|done]. apply list_elem_of_split in Hin' as (l1 & l2 & ->).
      trun. rewrite Epin, bool_decide_eq_true_2 by done. rewrite remove_one by done.
      destruct (procnext_take w Q p x t l1 l2 H Hp Hr) as (w' & E & H' & R). exists w'. split_and!; [exact E| |done].
      by rewrite (insert_id Q).
    + destruct (decide (t ∈ rs)); [done|]. exists w. rewrite Eid. by split_and!.
  - destruct (tlist_head _ _ _ _ H Hr) as (y & Ey & Hy). destruct rs as [|t ts]; cbn [head] in Hy.
    2:{ assert (procnext_loop 2 p w = Done (Next t) w) as E1 by (cbn [procnext_loop]; erewrite tm_bind_Done by exact Ey; by rewrite Hy).
        erewrite tm_bind_Done by exact E1. cbv iota beta. trun. rewrite Epin.
        destruct (procnext_take w Q p x t [] ts H Hp Hr) as (w' & E & H' & R). exists w'. split_and!; [exact E| |done].
        by rewrite (insert_id Q). }
    destruct (p_nthread x =? 0) eqn:E0.
    { assert (procnext_loop 2 p w = Done Nobody w) as E1
        by (cbn [procnext_loop]; erewrite tm_bind_Done by exact Ey; rewrite Hy; trun; by rewrite E0).
      exists w. rewrite Eid. split_and!; try done. by erewrite tm_bind_Done by exact E1. }
    destruct (tlist_head _ _ _ _ H Hi) as (z & Ez & Hz). destruct ids as [|t ids]; cbn [head] in Hz.
    { assert (procnext_loop 2 p w = Done Asleep w) as E1.
      { cbn [procnext_loop]. erewrite tm_bind_Done by exact Ey. rewrite Hy. trun. rewrite E0. erewrite tm_bind_Done by exact Ez. by rewrite Hz. }
      exists w. rewrite Eid. split_and!; try done. by erewrite tm_bind_Done by exact E1. }
    pose proof (queue_size _ _ _ _ H Hi) as Hsz.
    destruct (run_idle_ok p (t :: ids) (S (size (w_threads w))) w Q [] H Hi Hr) as (w1 & E1 & H1 & R1); [lia|]. cbn [app] in H1.
    assert (w_procs w1 !! p = Some x) as Hp1 by (destruct R1 as [_ ->]; exact Hp).
    destruct (tlist_head _ _ (p, Runqueue) (t :: ids) H1) as (y1 & Ey1 & Hy1); [by rewrite lookup_insert_eq|].
    assert (procnext_loop 2 p w = Done (Next t) w1) as E2.
    { cbn [procnext_loop]. erewrite tm_bind_Done by exact Ey. rewrite Hy. trun. rewrite E0. erewrite tm_bind_Done by exact Ez. rewrite Hz.
      erewrite tm_bind_Done by done. erewrite tm_bind_Done by exact E1. erewrite tm_bind_Done by exact Ey1. by rewrite Hy1. }
    destruct (procnext_take w1 _ p x t [] ids H1 Hp1) as (w' & E & H' & R); [by rewrite lookup_insert_eq|].
    exists w'. rewrite insert_insert_eq in H'. split_and!; [|done|by etransitivity].
    erewrite tm_bind_Done by exact E2. cbv iota beta. erewrite tm_bind_Done by (by apply proc_Done). rewrite Epin. exact E.
Qed.

(** Thread [t] runs in proc [p]. *)
Definition running w Q (p t : Z) : Prop :=
  exists x th, w_procs w !! p = Some x /\ p_thread x = Some t /\ w_threads w !! t = Some th /\ th_exiting th = false /\ idle_in Q t.

Lemma released_same p w :
  w_threads (released p w) = w_threads w /\ w_lists (released p w) = w_lists w /\ w_rwlocks (released p w) = w_rwlocks w /\
  w_qlocks (released p w) = w_qlocks w /\ w_rendez (released p w) = w_rendez w /\
  w_threadprocs (released p w) = w_threadprocs w /\ w_threadnproc (released p w) = w_threadnproc w.
Proof. unfold released. by destruct (w_procs w !! p). Qed.

(** The effect of waiting, where it is not a deadlock. *)
Lemma waits_ok w Q p t k ts :
  queued w Q -> homes w Q -> procs_ok w -> running w Q p t -> Q !! k = Some ts ->
  if single w then wait_on p k w = Stop Abort
  else exists w', wait_on p k w = Done Waits w' /\ queued w' (<[k := ts ++ [t]]> Q) /\ homes w' (<[k := ts ++ [t]]> Q) /\
    w_rwlocks w' = w_rwlocks w /\ w_qlocks w' = w_qlocks w.
Proof.
  intros H Hh Hpr (x & th & Hp & Ht & Hth & He & Hid) Hk. pose proof (wait_on_ok w Q p t x th k ts H Hp Ht Hth He Hid Hk Hpr) as Hw.
  destruct (single w); [done|]. destruct Hw as (w' & E & H' & R). exists (released p w').
  destruct (released_same p w') as (E1 & E2 & E3 & E4 & _). split_and!; [done|by eapply queued_ext| | |].
  - intros u thu. rewrite E1. intros Hu. eapply homes_more; [|eapply relinked_homes; [exact R|exact Hh]|exact Hu]. intros j. apply insert_more.
  - rewrite E3. by destruct R as [_ ->].
  - rewrite E4. by destruct R as [_ ->].
Qed.

(** ** Two threads *)

(** Threads 1 and 2 run in procs 10 and 20, thread 3 is ready in proc 10; there are a lock of
    each kind at 30 and a rendezvous at 31. *)
Definition ex_lists : list lid :=
  [(10, Idlequeue); (20, Runqueue); (20, Idlequeue); (30, Waiting); (30, Rwaiting); (30, Wwaiting); (31, Waiting)].

Definition lock_world : world := mkWorld
  {[ 1 := mkThread None None 10 None false true; 2 := mkThread None None 20 None false false; 3 := mkThread None None 10 None false false ]}
  {[ 10 := mkProc (Some 1) None None 2 0 true false; 20 := mkProc (Some 2) None None 1 0 false false ]}
  (<[(10, Runqueue) := mkThreadlist (Some 3) (Some 3)]> (list_to_map (map (fun k => (k, mkThreadlist None None)) ex_lists)))
  {[ 30 := mkQLock None ]} {[ 30 := mkRWLock 0 None ]} {[ 31 := mkRendez 30 ]} ∅ ∅ ∅ [10; 20] 2 0.

Definition lock_queues : gmap lid (list Z) :=
  <[(10, Runqueue) := [3]]> (list_to_map (map (fun k => (k, [])) ex_lists)).

Lemma const_map_lookup {A} (l : list lid) (a b : A) k : (list_to_map (map (fun k => (k, a)) l) : gmap lid A) !! k = Some b -> b = a /\ k ∈ l.
Proof.
  induction l as [|j l IH]; cbn; [by rewrite lookup_empty|]. rewrite lookup_insert_Some. intros [[<- <-]|[_ H]]; [split; [done|by left]|].
  destruct (IH H) as [-> ?]. split; [done|by right].
Qed.

Lemma const_map_Some {A} (l : list lid) (a : A) k : k ∈ l -> (list_to_map (map (fun k => (k, a)) l) : gmap lid A) !! k = Some a.
Proof.
  induction l as [|j l IH]; cbn; [by intros ?%elem_of_nil|]. rewrite elem_of_cons, lookup_insert_Some.
  destruct (decide (j = k)) as [->|Hne]; [by left|]. intros [->|H]; [done|]. right. auto.
Qed.

Lemma lock_queues_inv k ts : lock_queues !! k = Some ts -> k = (10, Runqueue) /\ ts = [3] \/ k ∈ ex_lists /\ ts = [].
Proof. unfold lock_queues. rewrite lookup_insert_Some. intros [[<- <-]|[_ [-> ?]%const_map_lookup]]; auto. Qed.

Lemma lock_queued : queued lock_world lock_queues.
Proof.
  constructor.
  - intros k ts [[-> ->]|[Hk ->]]%lock_queues_inv.
    + exists (mkThreadlist (Some 3) (Some 3)). split; [done|]. split_and!; try done; [apply NoDup_singleton|]. by eexists.
    + exists (mkThreadlist None None). split; [|by split_and!; [..|apply NoDup_nil_2|]]. cbn [lock_world w_lists].
      rewrite lookup_insert_ne; [by apply const_map_Some|]. intros <-. revert Hk. by_decide.
  - intros k1 k2 ts1 ts2 t [[-> ->]|[_ ->]]%lock_queues_inv [[-> ->]|[_ ->]]%lock_queues_inv H1 H2; try done; by apply elem_of_nil in H1 || apply elem_of_nil in H2.
Qed.

Lemma lock_homes : homes lock_world lock_queues.
Proof.
  intros t th Ht. cbn [lock_world w_threads] in Ht. rewrite !lookup_insert_Some, lookup_singleton_Some in Ht.
  destruct Ht as [[_ <-]|[_ [[_ <-]|[_ [_ <-]]]]]; by eexists.
Qed.

Lemma lock_procs : procs_ok lock_world.
Proof. done. Qed.

Lemma lock_running : running lock_world lock_queues 10 1 /\ running lock_world lock_queues 20 2.
Proof.
  split; do 2 eexists; (split; [reflexivity|split; [reflexivity|split; [reflexivity|split; [reflexivity|]]]]);
    intros k ts [[_ ->]|[_ ->]]%lock_queues_inv; by_decide.
Qed.
