(* ===== verification/ThreadQueues.v ===== *)
(** * The queues that the memory holds

    The lists of threads as a walk along their links finds them, so that a run of the code is
    described by its states alone; in a well-formed state they are the queues that the
    invariants speak of. *)

From S2P Require Import Prelude Thread ThreadRep ThreadLock.

Implicit Types (w : world) (Q : gmap lid (list Z)) (D : gset lid).

(** Along [next] from the thread [p]. *)
Fixpoint along (fuel : nat) (th : gmap Z _Thread) (p : option Z) : list Z :=
  match fuel, p with
  | S fuel, Some t => t :: match th !! t with Some x => along fuel th (th_next x) | None => [] end
  | _, _ => []
  end.

Definition queue_of w (k : lid) : list Z :=
  match w_lists w !! k with Some l => along (size (w_threads w)) (w_threads w) (tl_head l) | None => [] end.

(** The queues with the names [D]. *)
Definition queues_of D w : gmap lid (list Z) := set_to_map (fun k => (k, queue_of w k)) D.

Lemma along_links th ts : forall fuel p, links th p ts None -> (length ts <= fuel)%nat -> along fuel th (head ts) = ts.
Proof.
  induction ts as [|t ts IH]; intros [|fuel] p H Hf; cbn in Hf; try done; try lia.
  destruct H as (x & Hx & _ & Hn & Hr). cbn. rewrite Hx, Hn. f_equal.
  assert (orelse (head ts) None = head ts) as -> by (by destruct (head ts)). by eapply IH; [|lia].
Qed.

Lemma queue_of_ok w Q k ts : queued w Q -> Q !! k = Some ts -> queue_of w k = ts.
Proof.
  intros H Hk. pose proof (queue_size _ _ _ _ H Hk). destruct (qd_list _ _ H k ts Hk) as (l & El & Hh & _ & _ & Hl).
  unfold queue_of. rewrite El, Hh. by eapply along_links.
Qed.

Lemma queues_of_lookup D w k ts : queues_of D w !! k = Some ts <-> k ∈ D /\ ts = queue_of w k.
Proof.
  unfold queues_of. rewrite lookup_set_to_map by (intros ?? _ _; cbn; congruence). split; [|intros [Hk ->]; by exists k].
  by intros (k' & Hk & [= -> <-]).
Qed.

Lemma queues_of_ok D w Q : queued w Q -> dom Q = D -> queues_of D w = Q.
Proof.
  intros H <-. apply map_eq. intros k. apply option_eq. intros ts. rewrite queues_of_lookup, elem_of_dom. split.
  - intros [[ts' Hts] ->]. by rewrite (queue_of_ok _ _ _ _ H Hts).
  - intros Hts. split; [by eexists|]. symmetry. by eapply queue_of_ok.
Qed.

Lemma queues_of_dom D w : dom (queues_of D w) = D.
Proof.
  apply set_eq. intros k. rewrite elem_of_dom. split; [by intros [ts [? _]%queues_of_lookup]|].
  intros Hk. exists (queue_of w k). by apply queues_of_lookup.
Qed.

Lemma made_ready_dom h ts Q : dom (made_ready h ts Q) = dom Q.
Proof. unfold made_ready. revert Q. induction ts as [|t ts IH]; intros Q; [done|]. cbn. by rewrite IH, dom_alter_L. Qed.

Lemma insert_dom Q k ts ts' : Q !! k = Some ts -> dom (<[k := ts']> Q) = dom Q.
Proof. intros Hk. apply elem_of_dom_2 in Hk. rewrite dom_insert_L. by apply subseteq_union_1_L, singleton_subseteq_l. Qed.
