(* ===== verification/ChanRep.v ===== *)
(** * The buffer of a channel and the alternatives that wait

    What a channel holds, as a list of elements; which threads wait with which alternatives;
    and what the steps of [chanalt] do to both. *)

From S2P Require Import Prelude Thread Chan ThreadRep.

(** ** The buffer as a list *)

Record chan_wf (x : Channel) : Prop := mkChanWf {
  cw_es : 0 <= c_elemsize x;
  cw_size : 0 <= c_bufsize x < 2 ^ 31;
  cw_bytes : c_bufsize x * c_elemsize x < 2 ^ 31;
  cw_buf : len (c_buf x) = c_bufsize x * c_elemsize x;
  cw_nbuf : 0 <= c_nbuf x <= c_bufsize x;
  cw_off : 0 <= c_off x /\ (c_off x < c_bufsize x \/ c_bufsize x = 0 /\ c_off x = 0) }.

(** The place of the [k]th element, and the element. *)
Definition place (x : Channel) (k : nat) : Z := (c_off x + Z.of_nat k) mod c_bufsize x * c_elemsize x.
Definition elem (x : Channel) (k : nat) : bytes := default [] (load (c_buf x) (place x k) (c_elemsize x)).
Definition contents (x : Channel) : list bytes := map (elem x) (seq 0 (Z.to_nat (c_nbuf x))).

Lemma store_frame_after {A} (m m' : list A) p bs q n :
  store m p bs = Some m' -> p + len bs <= q -> load m' q n = load m q n.
Proof.
  intros Hs Hq. unfold store in Hs. destruct (_ && _) eqn:E; [|done]. injection Hs as <-.
  rewrite !andb_true_iff, !Z.leb_le in E. rewrite app_assoc.
  assert (len (take (Z.to_nat p) m ++ bs) = p + len bs) as E1 by (rewrite length_app, length_take; lia).
  rewrite load_skip, E1 by lia. rewrite <- (take_drop (Z.to_nat (p + len bs)) m) at 2.
  assert (len (take (Z.to_nat (p + len bs)) m) = p + len bs) as E2 by (rewrite length_take; lia).
  by rewrite load_skip, E2 by lia.
Qed.

Lemma place_range x k : chan_wf x -> 0 < c_bufsize x -> 0 <= place x k /\ place x k + c_elemsize x <= c_bufsize x * c_elemsize x.
Proof.
  intros H Hb. pose proof (cw_es x H). pose proof (Z.mod_pos_bound (c_off x + Z.of_nat k) (c_bufsize x) Hb). unfold place. nia.
Qed.

Lemma elem_load x k : chan_wf x -> 0 < c_bufsize x -> load (c_buf x) (place x k) (c_elemsize x) = Some (elem x k) /\ len (elem x k) = c_elemsize x.
Proof.
  intros H Hb. destruct (place_range x k H Hb). pose proof (cw_buf x H). unfold elem.
  destruct (load_Some (c_buf x) (place x k) (c_elemsize x)) as (bs & -> & E); [lia|apply H|lia|done].
Qed.

Lemma contents_size x : chan_wf x -> 0 < c_bufsize x -> Forall (fun e => len e = c_elemsize x) (contents x).
Proof. intros H Hb. apply Forall_forall. intros e (k & -> & _)%list_elem_of_fmap. by apply elem_load. Qed.

(** *** Taking the first element *)

Definition popped (x : Channel) : Channel :=
  x <| c_nbuf := c_nbuf x - 1 |> <| c_off := if c_off x + 1 =? c_bufsize x then 0 else c_off x + 1 |>.

Lemma popped_place x k : chan_wf x -> 0 < c_bufsize x -> place (popped x) k = place x (S k).
Proof.
  intros H Hb. pose proof (cw_off x H). unfold place, popped. cbn. f_equal.
  destruct (Z.eqb_spec (c_off x + 1) (c_bufsize x)) as [E|].
  - replace (c_off x + Z.of_nat (S k)) with (Z.of_nat k + 1 * c_bufsize x) by lia. by rewrite Z.mod_add by lia.
  - f_equal. lia.
Qed.

Lemma popped_ok x : chan_wf x -> 0 < c_nbuf x -> chan_wf (popped x) /\ contents x = elem x 0 :: contents (popped x).
Proof.
  intros H Hn. pose proof H as [? ? ? ? ? Ho]. assert (0 < c_bufsize x) as Hb by lia. split.
  - constructor; try done.
    + change (c_nbuf (popped x)) with (c_nbuf x - 1). change (c_bufsize (popped x)) with (c_bufsize x). lia.
    + change (c_off (popped x)) with (if c_off x + 1 =? c_bufsize x then 0 else c_off x + 1).
      change (c_bufsize (popped x)) with (c_bufsize x). destruct (Z.eqb_spec (c_off x + 1) (c_bufsize x)); lia.
  - unfold contents. cbn. replace (Z.to_nat (c_nbuf x)) with (S (Z.to_nat (c_nbuf x - 1))) by lia.
    cbn. f_equal. rewrite <- seq_shift, map_map. apply map_ext. intros k. unfold elem. by rewrite popped_place.
Qed.

(** *** Adding an element *)

Definition pushed (x : Channel) (buf : bytes) : Channel := x <| c_buf := buf |> <| c_nbuf := c_nbuf x + 1 |>.

Lemma places_apart x j k : chan_wf x -> (j < k)%nat -> Z.of_nat k < c_bufsize x ->
  place x j + c_elemsize x <= place x k \/ place x k + c_elemsize x <= place x j.
Proof.
  intros H Hj Hk. pose proof (cw_es x H). unfold place. set (b := c_bufsize x) in *. set (o := c_off x).
  assert ((o + Z.of_nat j) mod b <> (o + Z.of_nat k) mod b) as Hne.
  { intros E. assert ((Z.of_nat k - Z.of_nat j) mod b = 0) as E0.
    { replace (Z.of_nat k - Z.of_nat j) with ((o + Z.of_nat k) - (o + Z.of_nat j)) by lia.
      rewrite Zminus_mod, E, Z.sub_diag. apply Z.mod_0_l. lia. }
    rewrite Z.mod_small in E0 by lia. lia. }
  nia.
Qed.

Lemma pushed_ok x bs : chan_wf x -> c_nbuf x < c_bufsize x -> len bs = c_elemsize x ->
  exists buf, store (c_buf x) (place x (Z.to_nat (c_nbuf x))) bs = Some buf /\
    chan_wf (pushed x buf) /\ contents (pushed x buf) = contents x ++ [bs].
Proof.
  intros H Hn Hbs. pose proof H as [? ? ? Hl ? Ho]. assert (0 < c_bufsize x) as Hb by lia.
  destruct (place_range x (Z.to_nat (c_nbuf x)) H Hb). set (n := Z.to_nat (c_nbuf x)) in *.
  destruct (store_Some (c_buf x) (place x n) bs) as (buf & Es & El); [lia|lia|]. exists buf. split_and!; [done| |].
  - constructor; try done.
    + change (len buf = c_bufsize x * c_elemsize x). lia.
    + change (0 <= c_nbuf x + 1 <= c_bufsize x). lia.
  - unfold contents. cbn. replace (Z.to_nat (c_nbuf x + 1)) with (n + 1)%nat by lia.
    rewrite seq_app, map_app. cbn [seq map]. f_equal; [|f_equal].
    + apply map_ext_in. intros k Hk%in_seq.
      change (default [] (load buf (place x k) (c_elemsize x)) = default [] (load (c_buf x) (place x k) (c_elemsize x))). f_equal.
      destruct (places_apart x k n H) as [Ha|Ha]; [lia|lia|by eapply store_frame|by eapply store_frame_after; [|rewrite Hbs]].
    + change (default [] (load buf (place x n) (c_elemsize x)) = bs). rewrite <- Hbs. by rewrite (load_store _ _ _ _ Es).
Qed.

(** ** Objects *)

Implicit Types (w : world) (m : gmap Z bytes).

(** What [amove] reads at [v] and leaves at [v], where [v] points to an object of at least [n] bytes. *)
Definition room m (v : option Z) (n : Z) : Prop := match v with None => True | Some o => exists y, m !! o = Some y /\ n <= len y end.
Definition value m (v : option Z) (n : Z) : bytes :=
  match v with None => replicate (Z.to_nat n) 0 | Some o => default [] (y ← m !! o; load y 0 n) end.
Definition delivered m (v : option Z) (bs : bytes) : gmap Z bytes :=
  match v with None => m | Some o => default m (y ← m !! o; y ← store y 0 bs; Some (<[o := y]> m)) end.

Lemma ptr_Some {A} (a : A) w : ptr (Some a) w = Done a w.
Proof. done. Qed.

Lemma source_ok w v n : 0 <= n -> room (w_mem w) v n -> source v n w = Done (value (w_mem w) v n) w /\ len (value (w_mem w) v n) = n.
Proof.
  intros Hn. destruct v as [o|]; cbn; [intros (y & Hy & Hl)|by rewrite length_replicate; split; [|lia]].
  destruct (load_Some y 0 n) as (bs & Eb & El); [lia|lia|lia|].
  split; [|by rewrite Hy; cbn; rewrite Eb]. unfold mbind, tm_bind, get. rewrite Hy. cbn. rewrite Eb. done.
Qed.

Lemma deliver_ok w v bs : room (w_mem w) v (len bs) -> deliver v bs w = Done tt (w <| w_mem := delivered (w_mem w) v bs |>).
Proof.
  destruct v as [o|]; cbn; [intros (y & Hy & Hl)|done]. destruct (store_Some y 0 bs) as (y' & Ey & El); [lia|lia|].
  unfold mbind, tm_bind, get. rewrite Hy. cbn. by rewrite Ey.
Qed.

Lemma value_delivered m o bs : room m (Some o) (len bs) -> value (delivered m (Some o) bs) (Some o) (len bs) = bs.
Proof.
  intros (y & Hy & Hl). cbn. rewrite Hy. cbn. destruct (store_Some y 0 bs) as (y' & Ey & El); [lia|lia|].
  rewrite Ey. cbn. rewrite lookup_insert_eq. cbn. by rewrite (load_store _ _ _ _ Ey).
Qed.

Lemma delivered_ne m v o bs : v <> Some o -> delivered m v bs !! o = m !! o.
Proof.
  destruct v as [o'|]; [|done]. intros Hne. cbn. destruct (m !! o') as [y|]; [|done]. cbn.
  destruct (store y 0 bs) as [y'|]; [|done]. cbn. apply lookup_insert_ne. congruence.
Qed.

Lemma room_delivered m v bs v' n : room m v' n -> room (delivered m v bs) v' n.
Proof.
  destruct v' as [o|]; [|done]. destruct (decide (v = Some o)) as [->|Hne].
  - intros (y & Hy & Hl). cbn. rewrite Hy. cbn. destruct (store y 0 bs) as [y'|] eqn:E; [|by exists y].
    exists y'. cbn. rewrite lookup_insert_eq. split; [done|]. by rewrite (store_length _ _ _ _ E).
  - intros (y & Hy & Hl). exists y. by rewrite delivered_ne.
Qed.

Lemma value_ne m v v' bs n : v' = None \/ v <> v' -> value (delivered m v bs) v' n = value m v' n.
Proof. intros H. destruct v' as [o|]; [|done]. cbn. rewrite delivered_ne; [done|]. by destruct H. Qed.

(** ** The steps of [altcopy] *)

Lemma chan_Done c w x : w_chans w !! c = Some x -> chan c w = Done x w.
Proof. unfold chan. by intros ->. Qed.
Lemma set_chan_Done c f w x :
  w_chans w !! c = Some x -> set_chan c f w = Done tt (w <| w_chans := <[c := f x]> (w_chans w) |>).
Proof. unfold set_chan. by intros ->. Qed.
Lemma alt_Done a w x : w_alts w !! a = Some x -> alt_at a w = Done x w.
Proof. unfold alt_at. by intros ->. Qed.
Lemma set_alt_Done a f w x :
  w_alts w !! a = Some x -> set_alt a f w = Done tt (w <| w_alts := <[a := f x]> (w_alts w) |>).
Proof. unfold set_alt. by intros ->. Qed.

Ltac crun := erewrite tm_bind_Done by (first [apply chan_Done | apply set_chan_Done | apply alt_Done | apply set_alt_Done]; look); cbv beta.

Lemma amove_ok w d s n :
  0 <= n -> room (w_mem w) s n -> room (w_mem w) d n ->
  amove d s n w = Done tt (w <| w_mem := delivered (w_mem w) d (value (w_mem w) s n) |>).
Proof.
  intros Hn Hs Hd. destruct d as [o|]; [|done]. unfold amove. destruct (source_ok w s n Hn Hs) as [E El].
  erewrite tm_bind_Done by exact E. apply deliver_ok. by rewrite El.
Qed.

Lemma take_out_ok w c x r :
  w_chans w !! c = Some x -> chan_wf x -> 0 < c_nbuf x -> room (w_mem w) (al_v r) (c_elemsize x) ->
  take_out c r w = Done tt (w <| w_mem := delivered (w_mem w) (al_v r) (elem x 0) |> <| w_chans := <[c := popped x]> (w_chans w) |>).
Proof.
  intros Hx H Hn Hr. pose proof H as [? ? ? ? ? [Ho Hob]]. assert (c_off x < c_bufsize x) as Hb by lia. clear Hob.
  unfold take_out. crun. assert (wrap 32 (c_off x * c_elemsize x) = place x 0) as ->.
  { unfold place. rewrite Z.add_0_r, (Z.mod_small (c_off x)) by lia. apply wrap_small. split; [nia|].
    apply (Z.le_lt_trans _ (c_bufsize x * c_elemsize x)); [nia|lia]. }
  rewrite (wrap_small 32 (c_off x + 1)) by range.
  destruct (elem_load x 0 H) as [El Es]; [lia|].
  assert ((match al_v r with None => mret tt | Some _ => bs ← ptr (load (c_buf x) (place x 0) (c_elemsize x)); deliver (al_v r) bs end) w
    = Done tt (w <| w_mem := delivered (w_mem w) (al_v r) (elem x 0) |>)) as E1.
  { destruct (al_v r) as [o|] eqn:Ev; [|done]. rewrite El. erewrite tm_bind_Done by apply ptr_Some. apply deliver_ok. by rewrite Es. }
  erewrite tm_bind_Done by exact E1.
  crun. etransitivity; [apply set_chan_Done; look|]. cbn [upd w_chans]. rewrite insert_insert_eq.
  assert (wrap 32 (c_nbuf x - 1) = c_nbuf x - 1) as E2 by (apply wrap_small; range). unfold popped. by rewrite E2.
Qed.

Lemma put_in_ok w c x s :
  w_chans w !! c = Some x -> chan_wf x -> c_nbuf x < c_bufsize x -> room (w_mem w) (al_v s) (c_elemsize x) ->
  exists buf, put_in c s w = Done tt (w <| w_chans := <[c := pushed x buf]> (w_chans w) |>) /\
    chan_wf (pushed x buf) /\ contents (pushed x buf) = contents x ++ [value (w_mem w) (al_v s) (c_elemsize x)].
Proof.
  intros Hx H Hn Hr. pose proof H as [? ? ? ? ? [Ho Hob]]. assert (c_off x < c_bufsize x) as Hb by lia. clear Hob.
  destruct (source_ok w (al_v s) (c_elemsize x)) as [Es El]; [done|done|].
  destruct (pushed_ok x _ H Hn El) as (buf & Eb & Hw & Hc). exists buf. split; [|done].
  unfold put_in. crun. destruct (Z.eqb_spec (c_bufsize x) 0); [lia|]. erewrite tm_bind_Done by exact Es.
  assert (wrap 32 (wrap 32 (c_off x + c_nbuf x) mod c_bufsize x * c_elemsize x) = place x (Z.to_nat (c_nbuf x))) as ->.
  { pose proof (place_range x (Z.to_nat (c_nbuf x)) H). rewrite (wrap_small _ (_ + _)) by range. unfold place in *.
    rewrite Z2Nat.id in * by lia. apply wrap_small. split; [nia|]. apply (Z.le_lt_trans _ (c_bufsize x * c_elemsize x)); lia. }
  rewrite Eb. erewrite tm_bind_Done by apply ptr_Some. erewrite set_chan_Done by exact Hx.
  assert (wrap 32 (c_nbuf x + 1) = c_nbuf x + 1) as E2 by (apply wrap_small; range). unfold pushed. by rewrite E2.
Qed.
