(* ===== verification/ChanWait.v ===== *)
(** * The alternatives that wait

    Threads wait with ranges of alternatives: [B] gives the range of a thread that waits. The
    arrays of every channel hold exactly the alternatives in those ranges, and [altqueue],
    [altdequeue] and [altalldequeue] move the bounds of the ranges. *)

From S2P Require Import Prelude Thread Chan ThreadRep ChanRep.

Implicit Types (w : world) (B : gmap Z (Z * Z)) (x : Channel).

(** ** Arrays *)

Lemma delarray_perm (ar : list Z) i a : ar !! i = Some a -> ar ≡ₚ a :: delarray ar i.
Proof.
  intros Hi. destruct ar as [|e ar _] using rev_ind; [done|]. unfold delarray. rewrite last_snoc, length_app. cbn [length].
  rewrite Nat.add_sub, take_app_length. destruct (decide (i < length ar)%nat) as [Hlt|Hge].
  - rewrite lookup_app_l in Hi by done. apply list_elem_of_split_length in Hi as (l1 & l2 & -> & ->).
    rewrite insert_app_r_alt, Nat.sub_diag by done. cbn. rewrite <- app_assoc. cbn. solve_Permutation.
  - pose proof (lookup_lt_Some _ _ _ Hi) as Hl. rewrite length_app in Hl. cbn in Hl. assert (i = length ar) as -> by lia.
    rewrite list_lookup_middle in Hi by done. injection Hi as ->. rewrite list_insert_ge by done. solve_Permutation.
Qed.

Lemma find_self (ar : list Z) a : a ∈ ar -> exists i, list_find (eq a) ar = Some (i, a) /\ ar !! i = Some a.
Proof.
  intros Ha. destruct (list_find_elem_of (eq a) ar a Ha eq_refl) as [[i b] E]. exists i.
  pose proof E as (Hi & <- & _)%list_find_Some. done.
Qed.

Definition is_op (op : Z) : Prop := op = CHANSND \/ op = CHANRCV.

Lemma chanarray_Some x op ar : chanarray x op = Some ar -> is_op op.
Proof. unfold chanarray, is_op. destruct (Z.eqb_spec op CHANSND), (Z.eqb_spec op CHANRCV); [by left..|by right|done]. Qed.

Lemma is_op_array x op : is_op op -> exists ar, chanarray x op = Some ar.
Proof. intros [->| ->]; by eexists. Qed.

Lemma set_chanarray_get x op op' ar : is_op op ->
  chanarray (set_chanarray op ar x) op' = if decide (op' = op) then Some ar else chanarray x op'.
Proof.
  unfold chanarray, set_chanarray. intros [->| ->]; cbn; destruct (decide (op' = _)) as [->|Hne]; try done.
  - destruct (Z.eqb_spec op' CHANSND); done.
  - by destruct (Z.eqb_spec op' CHANSND), (Z.eqb_spec op' CHANRCV).
Qed.

(** A channel but for its arrays. *)
Definition same_chan x x' : Prop :=
  (c_bufsize x', c_elemsize x', c_buf x', c_nbuf x', c_off x') = (c_bufsize x, c_elemsize x, c_buf x, c_nbuf x, c_off x).

Lemma set_chanarray_same op ar x : same_chan x (set_chanarray op ar x).
Proof. unfold set_chanarray. by destruct (op =? CHANSND), (op =? CHANRCV). Qed.

#[global] Instance same_chan_preorder : PreOrder same_chan.
Proof. split; [done|]. unfold same_chan. intros x y z Hxy Hyz. by rewrite Hyz. Qed.

Lemma same_chan_wf x x' : same_chan x x' -> chan_wf x -> chan_wf x' /\ contents x' = contents x.
Proof.
  unfold same_chan. intros E [H1 H2 H3 H4 H5 H6]. injection E as E1 E2 E3 E4 E5. split.
  - by constructor; rewrite ?E1, ?E2, ?E3, ?E4, ?E5.
  - unfold contents. rewrite E4. apply map_ext. intros k. unfold elem, place. by rewrite E1, E2, E3, E5.
Qed.

(** Channels that differ only in their arrays. *)
Definition same_chans (m m' : gmap Z Channel) : Prop :=
  forall c, match m !! c, m' !! c with Some x, Some x' => same_chan x x' | None, None => True | _, _ => False end.

#[global] Instance same_chans_preorder : PreOrder same_chans.
Proof.
  split; [intros m c; by destruct (m !! c)|]. intros m1 m2 m3 H1 H2 c. specialize (H1 c). specialize (H2 c).
  destruct (m1 !! c), (m2 !! c), (m3 !! c); try done. by etransitivity.
Qed.

Lemma same_chans_insert m c x x' : m !! c = Some x -> same_chan x x' -> same_chans m (<[c := x']> m).
Proof.
  intros Hx H c'. destruct (decide (c' = c)) as [->|Hne]; [by rewrite lookup_insert_eq, Hx|].
  rewrite lookup_insert_ne by done. by destruct (m !! c').
Qed.

Lemma same_chans_lookup m m' c x' : same_chans m m' -> m' !! c = Some x' -> exists x, m !! c = Some x /\ same_chan x x'.
Proof. intros H Hx. specialize (H c). rewrite Hx in H. destruct (m !! c) as [x|]; [|done]. by exists x. Qed.

(** ** Who waits *)

(** The alternative [y] on channel [c] waits. *)
Definition waits (alts : gmap Z Alt) B (op c y : Z) : Prop :=
  exists t lo hi al, B !! t = Some (lo, hi) /\ lo <= y < hi /\ alts !! y = Some al /\ al_op al = op /\ al_c al = Some c.

Definition arrays_ok w B : Prop := forall c x op ar,
  w_chans w !! c = Some x -> chanarray x op = Some ar -> NoDup ar /\ forall y, y ∈ ar <-> waits (w_alts w) B op c y.

(** No alternative belongs to two threads. *)
Definition ranges_ok B : Prop := forall t1 t2 lo1 hi1 lo2 hi2 y,
  B !! t1 = Some (lo1, hi1) -> B !! t2 = Some (lo2, hi2) -> lo1 <= y < hi1 -> lo2 <= y < hi2 -> t1 = t2.

Lemma waits_shrink alts B t lo hi op c y : ranges_ok B -> B !! t = Some (lo, hi) -> lo < hi ->
  waits alts (<[t := (lo + 1, hi)]> B) op c y <-> waits alts B op c y /\ y <> lo.
Proof.
  intros Hr Ht Hlt. split.
  - intros (u & lo' & hi' & al & Hu & Hy & Hal). destruct (decide (u = t)) as [->|Hne].
    + rewrite lookup_insert_eq in Hu. injection Hu as <- <-. split; [|lia]. exists t, lo, hi, al. split; [done|split; [lia|exact Hal]].
    + rewrite lookup_insert_ne in Hu by done. split; [by exists u, lo', hi', al|]. intros ->. apply Hne. eapply Hr; eauto. lia.
  - intros [(u & lo' & hi' & al & Hu & Hy & Hal) Hne]. destruct (decide (u = t)) as [->|Hut].
    + rewrite Ht in Hu. injection Hu as <- <-. exists t, (lo + 1), hi, al. rewrite lookup_insert_eq. split; [done|split; [lia|exact Hal]].
    + exists u, lo', hi', al. by rewrite lookup_insert_ne.
Qed.

Lemma waits_grow alts B t lo hi op c y : B !! t = Some (lo, hi) -> lo <= hi ->
  waits alts (<[t := (lo, hi + 1)]> B) op c y <->
  waits alts B op c y \/ y = hi /\ exists al, alts !! hi = Some al /\ al_op al = op /\ al_c al = Some c.
Proof.
  intros Ht Hle. split.
  - intros (u & lo' & hi' & al & Hu & Hy & Hal). destruct (decide (u = t)) as [->|Hne].
    + rewrite lookup_insert_eq in Hu. injection Hu as <- <-. destruct (decide (y = hi)) as [->|]; [right; eauto|].
      left. exists t, lo, hi, al. split; [done|split; [lia|exact Hal]].
    + rewrite lookup_insert_ne in Hu by done. left. by exists u, lo', hi', al.
  - intros [(u & lo' & hi' & al & Hu & Hy & Hal)|(-> & al & Hal)].
    + destruct (decide (u = t)) as [->|Hut].
      * rewrite Ht in Hu. injection Hu as <- <-. exists t, lo, (hi + 1), al. rewrite lookup_insert_eq. split; [done|split; [lia|exact Hal]].
      * exists u, lo', hi', al. by rewrite lookup_insert_ne.
    + exists t, lo, (hi + 1), al. rewrite lookup_insert_eq. split; [done|split; [lia|exact Hal]].
Qed.

Lemma arrays_update w B B' c x op ar ar' :
  arrays_ok w B -> w_chans w !! c = Some x -> chanarray x op = Some ar -> NoDup ar' ->
  (forall y, y ∈ ar' <-> waits (w_alts w) B' op c y) ->
  (forall op' c' y, is_op op' -> (op', c') <> (op, c) -> waits (w_alts w) B' op' c' y <-> waits (w_alts w) B op' c' y) ->
  arrays_ok (w <| w_chans := <[c := set_chanarray op ar' x]> (w_chans w) |>) B'.
Proof.
  intros H Hx Har Hnd Hin Hother c' x' op' ar1 Hx' Har'. cbn [upd w_chans w_alts] in *. pose proof (chanarray_Some _ _ _ Har) as Hop.
  pose proof (chanarray_Some _ _ _ Har') as Hop'. destruct (decide (c' = c)) as [->|Hne].
  - rewrite lookup_insert_eq in Hx'. injection Hx' as <-. rewrite set_chanarray_get in Har' by done.
    destruct (decide (op' = op)) as [->|Hne]; [by injection Har' as <-|].
    destruct (H c x op' ar1 Hx Har') as [Hd He]. split; [done|]. intros y. rewrite He. symmetry. apply Hother; [done|congruence].
  - rewrite lookup_insert_ne in Hx' by done. destruct (H c' x' op' ar1 Hx' Har') as [Hd He]. split; [done|].
    intros y. rewrite He. symmetry. apply Hother; [done|congruence].
Qed.

Lemma arrays_same w B B' :
  arrays_ok w B -> (forall op c y, is_op op -> waits (w_alts w) B' op c y <-> waits (w_alts w) B op c y) -> arrays_ok w B'.
Proof.
  intros H Hw c x op ar Hx Har. destruct (H c x op ar Hx Har) as [Hd He]. split; [done|]. intros y.
  rewrite He. symmetry. apply Hw. by eapply chanarray_Some.
Qed.

Section step.
Context (w : world) (B : gmap Z (Z * Z)) (t lo hi : Z) (al : Alt).
Hypotheses (H : arrays_ok w B) (Ht : B !! t = Some (lo, hi)).

Lemma altdequeue_ok c x :
  ranges_ok B -> lo < hi -> w_alts w !! lo = Some al -> is_op (al_op al) -> al_c al = Some c -> w_chans w !! c = Some x ->
  exists m, altdequeue lo w = Done tt (w <| w_chans := m |>) /\ same_chans (w_chans w) m /\
    arrays_ok (w <| w_chans := m |>) (<[t := (lo + 1, hi)]> B).
Proof using All.
  intros Hr Hlt Hal Hop Hc Hx. destruct (is_op_array x _ Hop) as [ar Har]. destruct (H c x _ ar Hx Har) as [Hd Hin].
  assert (waits (w_alts w) B (al_op al) c lo) as Hlo by (exists t, lo, hi, al; split_and!; done || lia).
  apply Hin in Hlo as Hlo'. destruct (find_self ar lo Hlo') as (i & Ef & Hi). pose proof (delarray_perm ar i lo Hi) as Hp.
  eexists. split_and!.
  - unfold altdequeue. erewrite tm_bind_Done by (by apply alt_Done). rewrite Hc. erewrite tm_bind_Done by apply ptr_Some.
    erewrite tm_bind_Done by (by apply chan_Done). rewrite Har, Ef. by apply set_chan_Done.
  - eapply same_chans_insert; [done|apply set_chanarray_same].
  - rewrite Hp in Hd. apply NoDup_cons in Hd as [Hni Hd]. eapply arrays_update; [done..| |].
    + intros y. rewrite waits_shrink, <- Hin by done. set (ar' := delarray ar i) in *. rewrite Hp, elem_of_cons. split; [|tauto].
      intros Hy. split; [by right|]. by intros ->.
    + intros op' c' y Hop' Hne. rewrite waits_shrink by done. split; [by intros [? _]|]. intros Hw. split; [done|]. intros ->.
      destruct Hw as (u & l & h & al' & _ & _ & Hal' & Ho & Hc'). rewrite Hal in Hal'. injection Hal' as <-. congruence.
Qed.

Lemma skip_nop : ranges_ok B -> lo < hi -> w_alts w !! lo = Some al -> al_op al = CHANNOP -> arrays_ok w (<[t := (lo + 1, hi)]> B).
Proof using All.
  intros Hr Hlt Hal Hop. eapply arrays_same; [exact H|]. intros op c y Ho. rewrite waits_shrink by done. split; [by intros [? _]|].
  intros Hw. split; [done|]. intros ->. destruct Hw as (u & l & h & al' & _ & _ & Hal' & Ho' & _).
  rewrite Hal in Hal'. injection Hal' as <-. rewrite Hop in Ho'. by destruct Ho as [-> | ->].
Qed.

Lemma altqueue_ok c x :
  lo <= hi -> (forall u l h, B !! u = Some (l, h) -> ~ l <= hi < h) ->
  w_alts w !! hi = Some al -> is_op (al_op al) -> al_c al = Some c -> w_chans w !! c = Some x ->
  exists m, altqueue hi w = Done tt (w <| w_chans := m |>) /\ same_chans (w_chans w) m /\
    arrays_ok (w <| w_chans := m |>) (<[t := (lo, hi + 1)]> B).
Proof using All.
  intros Hle Hnew Hal Hop Hc Hx. destruct (is_op_array x _ Hop) as [ar Har]. destruct (H c x _ ar Hx Har) as [Hd Hin].
  assert (hi ∉ ar) as Hni. { rewrite Hin. intros (u & l & h & a & Hu & Hy & _). by eapply Hnew. }
  eexists. split_and!.
  - unfold altqueue. erewrite tm_bind_Done by (by apply alt_Done). rewrite Hc.
    erewrite tm_bind_Done by (by apply chan_Done). rewrite Har. erewrite tm_bind_Done by apply ptr_Some. by apply set_chan_Done.
  - eapply same_chans_insert; [done|apply set_chanarray_same].
  - eapply arrays_update; [done..| | |].
    + apply NoDup_app. split_and!; [done| |apply NoDup_singleton]. by intros y Hy ->%list_elem_of_singleton.
    + intros y. unfold addarray. rewrite waits_grow, elem_of_app, list_elem_of_singleton, Hin by done. split; [|tauto].
      intros [?| ->]; [by left|right]. split; [done|]. by exists al.
    + intros op' c' y Hop' Hne. rewrite waits_grow by done. split; [|by left]. intros [?|(-> & a & Ha & Ho & Hc')]; [done|].
      rewrite Hal in Ha. injection Ha as <-. congruence.
Qed.

Lemma grow_nop : lo <= hi -> w_alts w !! hi = Some al -> al_op al = CHANNOP -> arrays_ok w (<[t := (lo, hi + 1)]> B).
Proof using All.
  intros Hle Hal Hop. eapply arrays_same; [exact H|]. intros op c y Ho. rewrite waits_grow by done. split; [|by left].
  intros [?|(-> & a & Ha & Ho' & _)]; [done|]. rewrite Hal in Ha. injection Ha as <-. rewrite Hop in Ho'. by destruct Ho as [-> | ->].
Qed.
End step.

(** ** The loops *)

(** An entry of the array of thread [t]. *)
Definition entry_ok w (t y : Z) (al : Alt) : Prop :=
  w_alts w !! y = Some al /\ al_thread al = Some t /\
  (al_op al = CHANNOP \/ is_op (al_op al) /\
   exists c x, al_c al = Some c /\ w_chans w !! c = Some x /\ room (w_mem w) (al_v al) (c_elemsize x)).

Lemma entry_chans w m t y al : same_chans (w_chans w) m -> entry_ok w t y al -> entry_ok (w <| w_chans := m |>) t y al.
Proof.
  intros Hm (Hal & Ht & Hop). split_and!; try done. destruct Hop as [?|(? & c & x & Hc & Hx & Hr)]; [by left|right].
  split; [done|]. specialize (Hm c). cbn [upd w_chans w_mem] in *. rewrite Hx in Hm. destruct (m !! c) as [x'|] eqn:E; [|done].
  exists c, x'. injection Hm as _ Hes _ _ _. split_and!; try done. by rewrite Hes.
Qed.

Lemma ranges_shrink B t lo hi lo' hi' : ranges_ok B -> B !! t = Some (lo, hi) -> lo <= lo' -> hi' <= hi -> ranges_ok (<[t := (lo', hi')]> B).
Proof.
  intros Hr Ht Hlo Hhi t1 t2 l1 h1 l2 h2 y. destruct (decide (t1 = t)) as [->|H1], (decide (t2 = t)) as [->|H2];
    rewrite ?lookup_insert_eq, ?lookup_insert_ne by done; intros E1 E2 Hy1 Hy2; simplify_eq; try done; eapply Hr; eauto; lia.
Qed.

Lemma altalldequeue_loop_ok t hi e fuel : forall w B lo,
  arrays_ok w B -> ranges_ok B -> B !! t = Some (lo, hi) -> lo <= hi ->
  (forall y, lo <= y < hi -> exists al, entry_ok w t y al) ->
  w_alts w !! hi = Some e -> al_op e = CHANEND -> hi - lo < Z.of_nat fuel ->
  exists m, altalldequeue_loop fuel lo w = Done tt (w <| w_chans := m |>) /\ same_chans (w_chans w) m /\
    arrays_ok (w <| w_chans := m |>) (<[t := (hi, hi)]> B).
Proof.
  induction fuel as [|fuel IH]; intros w B lo H Hr Ht Hle Hen He Hop Hf; [lia|]. cbn [altalldequeue_loop].
  destruct (decide (lo = hi)) as [->|Hne].
  { exists (w_chans w). erewrite tm_bind_Done by (by apply alt_Done). rewrite Hop. cbn [Z.eqb orb].
    split_and!; try done. by rewrite insert_id by done. }
  destruct (Hen lo) as (al & Hal & Htl & Hk); [lia|]. erewrite tm_bind_Done by (by apply alt_Done).
  assert (exists m, (if al_op al =? CHANNOP then mret tt else altdequeue lo) w = Done tt (w <| w_chans := m |>) /\
    same_chans (w_chans w) m /\ arrays_ok (w <| w_chans := m |>) (<[t := (lo + 1, hi)]> B)) as (m1 & E1 & S1 & H1).
  { destruct Hk as [Hn|(Ho & c & x & Hc & Hx & _)].
    - exists (w_chans w). rewrite Hn. cbn. split_and!; try done. eapply skip_nop; eauto. lia.
    - destruct (altdequeue_ok w B t lo hi al H Ht c x) as (m & E & Sm & H'); try done; [lia|]. exists m. split_and!; try done.
      by destruct Ho as [-> | ->]. }
  assert ((al_op al =? CHANEND) || (al_op al =? CHANNOBLK) = false) as ->
    by (destruct Hk as [->|([-> | ->] & _)]; done).
  erewrite tm_bind_Done by exact E1.
  destruct (IH (w <| w_chans := m1 |>) (<[t := (lo + 1, hi)]> B) (lo + 1)) as (m & E & Sm & H'); try done.
  - eapply ranges_shrink; eauto; lia.
  - by rewrite lookup_insert_eq.
  - lia.
  - intros y Hy. destruct (Hen y) as [a Ha]; [lia|]. exists a. by apply entry_chans.
  - lia.
  - rewrite insert_insert_eq in H'. exists m. split_and!; [exact E| |done]. by etransitivity; [exact S1|exact Sm].
Qed.

Lemma queue_all_ok t lo n : forall w B hi,
  arrays_ok w B -> B !! t = Some (lo, hi) -> lo <= hi ->
  (forall u l h y, B !! u = Some (l, h) -> hi <= y < hi + Z.of_nat n -> ~ l <= y < h) ->
  (forall y, hi <= y < hi + Z.of_nat n -> exists al, entry_ok w t y al) ->
  exists m, queue_all n hi w = Done tt (w <| w_chans := m |>) /\ same_chans (w_chans w) m /\
    arrays_ok (w <| w_chans := m |>) (<[t := (lo, hi + Z.of_nat n)]> B).
Proof.
  induction n as [|n IH]; intros w B hi H Ht Hle Hnew Hen.
  { exists (w_chans w). rewrite Z.add_0_r, insert_id by done. by split_and!. }
  cbn [queue_all]. destruct (Hen hi) as (al & Hal & Htl & Hk); [lia|]. erewrite tm_bind_Done by (by apply alt_Done).
  assert (exists m, (if al_op al =? CHANNOP then mret tt else altqueue hi) w = Done tt (w <| w_chans := m |>) /\
    same_chans (w_chans w) m /\ arrays_ok (w <| w_chans := m |>) (<[t := (lo, hi + 1)]> B)) as (m1 & E1 & S1 & H1).
  { destruct Hk as [Hn|(Ho & c & x & Hc & Hx & _)].
    - exists (w_chans w). rewrite Hn. cbn. split_and!; try done. by eapply grow_nop.
    - destruct (altqueue_ok w B t lo hi al H Ht c x) as (m & E & Sm & H'); try done.
      { intros u l h Hu. eapply Hnew; [exact Hu|lia]. }
      exists m. split_and!; try done. by destruct Ho as [-> | ->]. }
  erewrite tm_bind_Done by exact E1.
  destruct (IH (w <| w_chans := m1 |>) (<[t := (lo, hi + 1)]> B) (hi + 1)) as (m & E & Sm & H'); try done.
  - by rewrite lookup_insert_eq.
  - lia.
  - intros u l h y Hu Hy. destruct (decide (u = t)) as [->|Hut].
    + rewrite lookup_insert_eq in Hu. injection Hu as <- <-. lia.
    + rewrite lookup_insert_ne in Hu by done. eapply Hnew; [exact Hu|lia].
  - intros y Hy. destruct (Hen y) as [a Ha]; [lia|]. exists a. by apply entry_chans.
  - rewrite insert_insert_eq in H'. replace (hi + 1 + Z.of_nat n) with (hi + Z.of_nat (S n)) in H' by lia.
    exists m. split_and!; [exact E| |done]. by etransitivity; [exact S1|exact Sm].
Qed.

(** There are at least as many alternatives as an array has entries. *)
Lemma alts_size (alts : gmap Z Alt) lo n :
  (forall y, lo <= y < lo + Z.of_nat n -> is_Some (alts !! y)) -> (n <= size alts)%nat.
Proof.
  intros H.
  assert (list_to_set (seqZ lo (Z.of_nat n)) ⊆ dom alts) as Hs.
  { intros y. rewrite elem_of_list_to_set, elem_of_seqZ, elem_of_dom. apply H. }
  apply subseteq_size in Hs. rewrite size_list_to_set, length_seqZ, size_dom in Hs by apply NoDup_seqZ. lia.
Qed.
