(* ===== verification/ChanExec.v ===== *)
(** * What [chanalt] does under its lock

    The invariant of all channels and of the threads that wait, and the effect of executing
    or queueing the alternatives of a call. *)

From S2P Require Import Prelude Thread Chan ThreadRep ChanRep ChanWait.

Implicit Types (w : world) (B : gmap Z (Z * Z)) (Q : gmap lid (list Z)) (x : Channel).

(** ** The invariant *)

(** Threads wait only where nobody can serve them: for a full or an empty buffer, and without a
    buffer never two threads for each other. *)
Definition fair w B : Prop := forall c x, w_chans w !! c = Some x ->
  (0 < c_bufsize x -> forall y, waits (w_alts w) B CHANSND c y -> c_nbuf x = c_bufsize x) /\
  (0 < c_bufsize x -> forall y, waits (w_alts w) B CHANRCV c y -> c_nbuf x = 0) /\
  (c_bufsize x = 0 -> forall y z, waits (w_alts w) B CHANSND c y -> waits (w_alts w) B CHANRCV c z ->
    exists t lo hi, B !! t = Some (lo, hi) /\ lo <= y < hi /\ lo <= z < hi).

(** A thread that waits is on no queue; the first alternative is in its [alt]. *)
Definition blocked w Q (t lo hi : Z) : Prop :=
  lo <= hi /\ (forall y, lo <= y < hi -> exists al, entry_ok w t y al) /\
  (exists e, w_alts w !! hi = Some e /\ al_op e = CHANEND) /\
  (exists th ts, w_threads w !! t = Some th /\ th_alt th = Some lo /\ Q !! (th_proc th, Runqueue) = Some ts) /\ idle_in Q t.

Record chan_inv w B Q : Prop := mkChanInv {
  ci_queued : queued w Q;
  ci_chans : forall c x, w_chans w !! c = Some x -> chan_wf x;
  ci_arrays : arrays_ok w B;
  ci_ranges : ranges_ok B;
  ci_blocked : forall t lo hi, B !! t = Some (lo, hi) -> blocked w Q t lo hi;
  ci_fair : fair w B }.

(** *** Data moved *)

Definition kept x x' : Prop :=
  (c_bufsize x', c_elemsize x', c_asend x', c_arecv x') = (c_bufsize x, c_elemsize x, c_asend x, c_arecv x).

Lemma kept_array x x' op : kept x x' -> chanarray x' op = chanarray x op.
Proof. intros E. injection E as _ _ E1 E2. unfold chanarray. by rewrite E1, E2. Qed.

Lemma chan_inv_copy w B Q c x x' m :
  chan_inv w B Q -> w_chans w !! c = Some x -> kept x x' -> chan_wf x' ->
  (c_nbuf x' = c_nbuf x \/ 0 < c_bufsize x /\ forall op y, is_op op -> ~ waits (w_alts w) B op c y) ->
  (forall v n, room (w_mem w) v n -> room m v n) ->
  chan_inv (w <| w_mem := m |> <| w_chans := <[c := x']> (w_chans w) |>) B Q.
Proof.
  intros [Hq Hw Ha Hr Hb Hf] Hx Hk Hw' Hn Hroom. constructor; try done.
  - by eapply queued_ext; [..|exact Hq].
  - intros c' y. cbn. destruct (decide (c' = c)) as [->|Hne]; [|rewrite lookup_insert_ne by done; apply Hw].
    rewrite lookup_insert_eq. by intros [= <-].
  - intros c' y op ar. cbn. destruct (decide (c' = c)) as [->|Hne]; [|rewrite lookup_insert_ne by done; apply Ha].
    rewrite lookup_insert_eq. intros [= <-]. rewrite (kept_array _ _ _ Hk). by apply Ha.
  - intros t lo hi Ht. destruct (Hb t lo hi Ht) as (Hle & Hen & He & Hth & Hid). split_and!; try done.
    intros y Hy. destruct (Hen y Hy) as (al & Hal & Htl & Hop). exists al. split_and!; try done.
    destruct Hop as [?|(? & c' & z & Hc & Hz & Hrm)]; [by left|right]. split; [done|]. cbn. exists c'.
    destruct (decide (c' = c)) as [->|Hne].
    + exists x'. rewrite lookup_insert_eq. split_and!; try done. injection Hk as _ Hes _ _. apply Hroom.
      rewrite Hes. congruence.
    + exists z. rewrite lookup_insert_ne by done. split_and!; try done. by apply Hroom.
  - intros c' y. cbn. destruct (decide (c' = c)) as [->|Hne]; [|rewrite lookup_insert_ne by done; apply Hf].
    rewrite lookup_insert_eq. intros [= <-]. injection Hk as Eb _ _ _. rewrite Eb. destruct (Hf c x Hx) as (H1 & H2 & H3).
    destruct Hn as [->|[Hpos Hno]]; [done|]. split_and!; [intros _ y Hy..|lia].
    + by destruct (Hno CHANSND y (or_introl eq_refl)).
    + by destruct (Hno CHANRCV y (or_intror eq_refl)).
Qed.

(** *** Alternatives taken back *)

Lemma waits_delete alts B t hi op c y : waits alts (<[t := (hi, hi)]> B) op c y <-> waits alts (delete t B) op c y.
Proof.
  split; intros (u & lo & h & al & Hu & Hy & Hal); exists u, lo, h, al.
  - destruct (decide (u = t)) as [->|Hne]; [rewrite lookup_insert_eq in Hu; injection Hu as <- <-; lia|].
    rewrite lookup_insert_ne in Hu by done. by rewrite lookup_delete_ne.
  - destruct (decide (u = t)) as [->|Hne]; [by rewrite lookup_delete_eq in Hu|].
    rewrite lookup_delete_ne in Hu by done. by rewrite lookup_insert_ne.
Qed.

Lemma delete_Some B (t u : Z) (r : Z * Z) : delete t B !! u = Some r -> u <> t /\ B !! u = Some r.
Proof. by rewrite lookup_delete_Some; intros [? ?]. Qed.

Lemma waits_less alts B t op c y : waits alts (delete t B) op c y -> waits alts B op c y.
Proof. intros (u & lo & h & al & [_ Hu]%delete_Some & Hy & Hal). by exists u, lo, h, al. Qed.

Lemma blocked_chans w Q m t lo hi : same_chans (w_chans w) m -> blocked w Q t lo hi -> blocked (w <| w_chans := m |>) Q t lo hi.
Proof.
  intros Hm (Hle & Hen & He & Hth & Hid). split_and!; try done. intros y Hy. destruct (Hen y Hy) as [al Hal]. exists al.
  by apply entry_chans.
Qed.

Lemma fair_chans w B m : same_chans (w_chans w) m -> fair w B -> fair (w <| w_chans := m |>) B.
Proof.
  intros Hm Hf c x' Hx. destruct (same_chans_lookup _ _ _ _ Hm Hx) as (x & Ex & Hs). injection Hs as E1 _ _ E4 _.
  rewrite E1, E4. by apply Hf.
Qed.

Lemma wf_chans w m : same_chans (w_chans w) m -> (forall c x, w_chans w !! c = Some x -> chan_wf x) -> forall c x, m !! c = Some x -> chan_wf x.
Proof. intros Hm Hw c x' Hx. destruct (same_chans_lookup _ _ _ _ Hm Hx) as (x & Ex & Hs). eapply same_chan_wf; [exact Hs|eauto]. Qed.

Lemma fair_less w B t : ranges_ok B -> fair w B -> fair w (delete t B).
Proof.
  intros Hr Hf c x Hx. destruct (Hf c x Hx) as (H1 & H2 & H3). split_and!.
  - intros Hb y Hy. apply (H1 Hb y). by eapply waits_less.
  - intros Hb y Hy. apply (H2 Hb y). by eapply waits_less.
  - intros Hb y z Hy Hz. destruct (H3 Hb y z) as (u & lo & hi & Hu & Hy' & Hz'); [by eapply waits_less..|].
    exists u, lo, hi. split; [|done]. rewrite lookup_delete_ne; [done|]. intros <-.
    destruct Hy as (v & l & h & al & [Hne Hv]%delete_Some & Hyv & _). apply Hne. by eapply Hr.
Qed.

Lemma altalldequeue_ok w B Q u lo hi :
  chan_inv w B Q -> B !! u = Some (lo, hi) ->
  exists m, altalldequeue lo w = Done tt (w <| w_chans := m |>) /\ same_chans (w_chans w) m /\
    chan_inv (w <| w_chans := m |>) (delete u B) Q.
Proof.
  intros [Hq Hw Ha Hr Hb Hf] Hu. pose proof (Hb u lo hi Hu) as (Hle & Hen & (e & He & Hop) & _).
  assert (Z.to_nat (hi - lo) <= size (w_alts w))%nat as Hsz.
  { apply (alts_size _ lo). intros y Hy. destruct (Hen y) as (al & Hal & _); [lia|]. by exists al. }
  destruct (altalldequeue_loop_ok u hi e (S (size (w_alts w))) w B lo) as (m & E & Hs & Ha'); try done; [lia|].
  exists m. split_and!; [exact E|done|]. constructor.
  - by eapply queued_ext; [..|exact Hq].
  - by eapply wf_chans.
  - eapply arrays_same; [exact Ha'|]. intros op c y _. symmetry. apply waits_delete.
  - intros t1 t2 l1 h1 l2 h2 y [_ H1]%delete_Some [_ H2]%delete_Some. by apply Hr.
  - intros t l h [_ Ht]%delete_Some. apply blocked_chans; [done|by apply Hb].
  - apply fair_chans; [done|]. by apply fair_less.
Qed.

(** *** A thread made ready *)

Lemma is_list_alt th l ts t y a : th !! t = Some y -> is_list th l ts -> is_list (<[t := y <| th_alt := a |>]> th) l ts.
Proof.
  intros Hy (Hh & Hl & Hd & H). split_and!; try done. clear Hh Hl Hd. revert H. generalize (@None Z) at 1 3.
  induction ts as [|u ts IH]; intros p; [done|]. intros (z & Hz & Hp & Hn & Hr).
  destruct (decide (u = t)) as [->|Hne].
  - simplify_eq. eexists. rewrite lookup_insert_eq. split_and!; try done. by apply IH.
  - exists z. rewrite lookup_insert_ne by done. split_and!; try done. by apply IH.
Qed.

Lemma chan_inv_ready w B Q u th ts y :
  chan_inv w B Q -> B !! u = None -> w_threads w !! u = Some th -> idle_in Q u -> Q !! (th_proc th, Runqueue) = Some ts ->
  exists w', (set_thread u (fun z => z <| th_alt := Some y |>);; _threadready u) w = Done tt w' /\
    chan_inv w' B (<[(th_proc th, Runqueue) := ts ++ [u]]> Q) /\
    relinked (w <| w_threads := <[u := th <| th_alt := Some y |>]> (w_threads w) |>) w'.
Proof.
  intros [Hq Hw Ha Hr Hb Hf] Hu Hth Hid Hk. set (w1 := w <| w_threads := <[u := th <| th_alt := Some y |>]> (w_threads w) |>).
  assert (queued w1 Q) as Hq1.
  { destruct Hq as [Hl Ho]. constructor; [|done]. intros k us Hus. destruct (Hl k us Hus) as (l & El & Hi). exists l.
    split; [done|]. by apply is_list_alt. }
  erewrite tm_bind_Done by (apply set_thread_Done; exact Hth). fold w1.
  assert (w_threads w1 !! u = Some (th <| th_alt := Some y |>)) as Hu1 by apply lookup_insert_eq.
  destruct (_threadready_ok w1 Q u _ ts Hq1 Hid Hu1 Hk) as (w' & E & Hq' & Hrl). exists w'. split_and!; [done| |done].
  pose proof Hrl as [_ Ew]. assert (w_chans w' = w_chans w /\ w_alts w' = w_alts w /\ w_mem w' = w_mem w) as (Ec & Ea & Em).
  { by rewrite Ew. }
  constructor; [exact Hq'|by rewrite Ec| |done| |].
  - intros c x op ar. rewrite Ec, Ea. apply Ha.
  - intros t lo hi Ht. destruct (Hb t lo hi Ht) as (Hle & Hen & He & (th' & us & Hth' & Halt & Hk') & Hidt).
    assert (t <> u) as Hne by congruence. split_and!; [done| |by rewrite Ea| |].
    + intros z Hz. destruct (Hen z Hz) as (al & Hal). exists al. unfold entry_ok. by rewrite Ea, Ec, Em.
    + assert (w_threads w1 !! t = Some th') as Ht1 by (cbn; by rewrite lookup_insert_ne).
      destruct (relinked_thread _ _ _ _ Hrl Ht1) as (th2 & E2 & Hc). injection Hc as Hp Hal2 _ _.
      assert (is_Some (<[(th_proc th, Runqueue) := ts ++ [u]]> Q !! (th_proc th', Runqueue))) as [us' Hus'].
      { rewrite lookup_insert_is_Some. destruct (decide ((th_proc th, Runqueue) = (th_proc th', Runqueue))); [by left|right]. by rewrite Hk'. }
      exists th2, us'. split_and!; [done|congruence|]. by rewrite Hp.
    + intros k us2. destruct (decide (k = (th_proc th, Runqueue))) as [->|Hnk].
      * change (th_proc (th <| th_alt := Some y |>)) with (th_proc th). rewrite lookup_insert_eq. intros [= <-]. rewrite elem_of_app, list_elem_of_singleton. intros [Hin|Hin]; [exact (Hidt _ _ Hk Hin)|done].
      * rewrite lookup_insert_ne by done. by apply Hidt.
  - intros c x. rewrite Ec, Ea. apply Hf.
Qed.

(** ** Moving the data *)

(** From the alternative [s] to the alternative [r], through the buffer when it is not empty. *)
Lemma move_pair w c x (s r : Alt) :
  w_chans w !! c = Some x -> chan_wf x ->
  room (w_mem w) (al_v s) (c_elemsize x) -> room (w_mem w) (al_v r) (c_elemsize x) -> al_v s = None \/ al_v r <> al_v s ->
  exists x' v,
    (if c_nbuf x =? 0 then amove (al_v r) (al_v s) (c_elemsize x) else take_out c r;; put_in c s) w =
      Done tt (w <| w_mem := delivered (w_mem w) (al_v r) v |> <| w_chans := <[c := x']> (w_chans w) |>) /\
    kept x x' /\ chan_wf x' /\ c_nbuf x' = c_nbuf x /\ len v = c_elemsize x /\
    contents x ++ [value (w_mem w) (al_v s) (c_elemsize x)] = v :: contents x'.
Proof.
  intros Hx Hw Hs Hr Hne. destruct (source_ok w (al_v s) (c_elemsize x) (cw_es x Hw) Hs) as [_ Elen].
  destruct (Z.eqb_spec (c_nbuf x) 0) as [E0|Hn0].
  - exists x, (value (w_mem w) (al_v s) (c_elemsize x)). split_and!; try done.
    + rewrite amove_ok by first [done | apply Hw]. by rewrite (insert_id (w_chans w)).
    + unfold contents. by rewrite E0.
  - pose proof (cw_nbuf x Hw). assert (0 < c_nbuf x) as Hpos by lia. destruct (popped_ok x Hw Hpos) as [Hwp Hcp].
    set (w1 := w <| w_mem := delivered (w_mem w) (al_v r) (elem x 0) |> <| w_chans := <[c := popped x]> (w_chans w) |>).
    destruct (elem_load x 0 Hw) as [_ Ee]; [lia|].
    assert (value (w_mem w1) (al_v s) (c_elemsize x) = value (w_mem w) (al_v s) (c_elemsize x)) as Ev.
    { apply value_ne. destruct Hne; auto. }
    destruct (put_in_ok w1 c (popped x) s) as (buf & Eb & Hwb & Hcb); [apply lookup_insert_eq|done| |by apply room_delivered|].
    { change (c_nbuf x - 1 < c_bufsize x). lia. }
    exists (pushed (popped x) buf), (elem x 0). split_and!; try done.
    + erewrite tm_bind_Done by (by apply take_out_ok). etransitivity; [exact Eb|]. cbn. by rewrite insert_insert_eq.
    + change (c_nbuf x - 1 + 1 = c_nbuf x). lia.
    + rewrite Hcp, Hcb. cbn [app]. do 3 f_equal. symmetry. exact Ev.
Qed.

Lemma altcopy_pair w c x a al y ao :
  w_alts w !! a = Some al -> w_alts w !! y = Some ao -> is_op (al_op al) -> al_op ao = otherop (al_op al) ->
  al_c al = Some c -> w_chans w !! c = Some x -> chan_wf x ->
  room (w_mem w) (al_v al) (c_elemsize x) -> room (w_mem w) (al_v ao) (c_elemsize x) ->
  al_v al = None \/ al_v al <> al_v ao ->
  let '(s, r) := if al_op al =? CHANRCV then (al_v ao, al_v al) else (al_v al, al_v ao) in
  exists x' v, altcopy (Some a) (Some y) w =
      Done tt (w <| w_mem := delivered (w_mem w) r v |> <| w_chans := <[c := x']> (w_chans w) |>) /\
    kept x x' /\ chan_wf x' /\ c_nbuf x' = c_nbuf x /\ len v = c_elemsize x /\
    contents x ++ [value (w_mem w) s (c_elemsize x)] = v :: contents x'.
Proof.
  intros Hal Hao Hop Hoo Hc Hx Hw Hra Hro Hap.
  unfold altcopy. erewrite tm_bind_Done by (by apply alt_Done).
  erewrite tm_bind_Done by (by erewrite tm_bind_Done by (by apply alt_Done)). rewrite Hc. erewrite tm_bind_Done by apply ptr_Some.
  destruct Hop as [E|E].
  - assert (al_op ao = CHANRCV) as E' by (by rewrite Hoo, E). rewrite E.
    change (CHANSND =? CHANRCV) with false. cbv iota. rewrite E, E'. change (CHANSND =? CHANSND) with true. change (CHANRCV =? CHANRCV) with true.
    cbn [negb orb]. erewrite tm_bind_Done by (by apply chan_Done). eapply move_pair; try done. destruct Hap; auto.
  - assert (al_op ao = CHANSND) as E' by (by rewrite Hoo, E). rewrite E.
    change (CHANRCV =? CHANRCV) with true. cbv iota. rewrite E, E'. change (CHANSND =? CHANSND) with true. change (CHANRCV =? CHANRCV) with true.
    cbn [negb orb]. erewrite tm_bind_Done by (by apply chan_Done). eapply move_pair; try done.
    destruct Hap as [Hn|?]; [|by right]. destruct (al_v ao); [right; by rewrite Hn|by left].
Qed.

Lemma altcopy_send w c x a al :
  w_alts w !! a = Some al -> al_op al = CHANSND -> al_c al = Some c -> w_chans w !! c = Some x -> chan_wf x ->
  room (w_mem w) (al_v al) (c_elemsize x) -> c_nbuf x < c_bufsize x ->
  exists x', altcopy (Some a) None w = Done tt (w <| w_chans := <[c := x']> (w_chans w) |>) /\
    kept x x' /\ chan_wf x' /\ contents x' = contents x ++ [value (w_mem w) (al_v al) (c_elemsize x)].
Proof.
  intros Hal Hop Hc Hx Hw Hr Hn. destruct (put_in_ok w c x al Hx Hw Hn Hr) as (buf & E & Hwb & Hcb).
  exists (pushed x buf). split_and!; try done. unfold altcopy. erewrite tm_bind_Done by (by apply alt_Done).
  erewrite tm_bind_Done by done. rewrite Hc. erewrite tm_bind_Done by apply ptr_Some. rewrite Hop.
  change (CHANSND =? CHANRCV) with false. cbv iota. rewrite Hop. change (CHANSND =? CHANSND) with true.
  cbn [negb orb]. erewrite tm_bind_Done by (by apply chan_Done). cbn [on_alt]. by erewrite tm_bind_Done by done.
Qed.

Lemma altcopy_recv w c x a al :
  w_alts w !! a = Some al -> al_op al = CHANRCV -> al_c al = Some c -> w_chans w !! c = Some x -> chan_wf x ->
  room (w_mem w) (al_v al) (c_elemsize x) -> 0 < c_nbuf x ->
  exists x' v, altcopy (Some a) None w =
      Done tt (w <| w_mem := delivered (w_mem w) (al_v al) v |> <| w_chans := <[c := x']> (w_chans w) |>) /\
    kept x x' /\ chan_wf x' /\ len v = c_elemsize x /\ contents x = v :: contents x'.
Proof.
  intros Hal Hop Hc Hx Hw Hr Hn. destruct (popped_ok x Hw Hn) as [Hwp Hcp]. pose proof (cw_nbuf x Hw).
  destruct (elem_load x 0 Hw) as [_ Ee]; [lia|].
  exists (popped x), (elem x 0). split_and!; try done. unfold altcopy. erewrite tm_bind_Done by (by apply alt_Done).
  erewrite tm_bind_Done by done. rewrite Hc. erewrite tm_bind_Done by apply ptr_Some. rewrite Hop.
  change (CHANRCV =? CHANRCV) with true. cbv iota. rewrite Hop. change (CHANRCV =? CHANRCV) with true.
  cbn [negb orb]. erewrite tm_bind_Done by (by apply chan_Done). cbn [on_alt]. by erewrite tm_bind_Done by (by apply take_out_ok).
Qed.

(** ** Executing an alternative *)

(** The elements [S] go from the objects [ss] into channel [c], the elements [R] out of it to
    the objects [rs]: what was in the buffer and what is sent is what is received and what is
    in the buffer then. *)
Definition transfer w w' (c : Z) (ss rs : list (option Z)) (S R : list bytes) : Prop :=
  exists x x', w_chans w !! c = Some x /\ w_chans w' !! c = Some x' /\ c_elemsize x' = c_elemsize x /\
    S = map (fun s => value (w_mem w) s (c_elemsize x)) ss /\
    length R = length rs /\ Forall (fun v => len v = c_elemsize x) R /\
    contents x ++ S = R ++ contents x' /\
    w_mem w' = foldl (fun m rv => delivered m (fst rv) (snd rv)) (w_mem w) (zip rs R) /\
    same_chans (delete c (w_chans w)) (delete c (w_chans w')).

Definition sending (al : Alt) : list (option Z) := if al_op al =? CHANSND then [al_v al] else [].
Definition receiving (al : Alt) : list (option Z) := if al_op al =? CHANRCV then [al_v al] else [].

(** An alternative executes alone, or with one that waits; the thread of that one then is
    ready, and knows which it was. *)
Inductive executed w B Q (al : Alt) (c : Z) w' (S R : list bytes) : gmap Z (Z * Z) -> gmap lid (list Z) -> Prop :=
| executed_alone :
    (forall y, ~ waits (w_alts w) B (otherop (al_op al)) c y) -> transfer w w' c (sending al) (receiving al) S R ->
    w_threads w' = w_threads w -> executed w B Q al c w' S R B Q
| executed_with u lo hi y ao th ts :
    B !! u = Some (lo, hi) -> lo <= y < hi -> w_alts w !! y = Some ao -> al_op ao = otherop (al_op al) -> al_c ao = Some c ->
    transfer w w' c (sending al ++ sending ao) (receiving al ++ receiving ao) S R ->
    w_threads w !! u = Some th -> Q !! (th_proc th, Runqueue) = Some ts ->
    (forall t, core <$> w_threads w' !! t = core <$> <[u := th <| th_alt := Some y |>]> (w_threads w) !! t) ->
    (forall x' ar, w_chans w' !! c = Some x' -> chanarray x' (al_op ao) = Some ar -> y ∉ ar) ->
    executed w B Q al c w' S R (delete u B) (<[(th_proc th, Runqueue) := ts ++ [u]]> Q).

(** What [altcanexec] decides. *)
Definition can_exec x (op : Z) : bool :=
  if c_bufsize x =? 0 then
    match chanarray x (otherop op) with Some ar => bool_decide (ar <> []) | None => false end
  else if op =? CHANSND then c_nbuf x <? c_bufsize x
  else if op =? CHANRCV then 0 <? c_nbuf x
  else false.

Definition executable w (al : Alt) : bool :=
  if al_op al =? CHANNOP then false
  else match al_c al with
  | Some c => match w_chans w !! c with Some x => can_exec x (al_op al) | None => false end
  | None => false
  end.

Lemma altcanexec_ok w t y al : entry_ok w t y al -> altcanexec y w = Done (executable w al) w.
Proof.
  intros (Hal & _ & Hop). unfold altcanexec, executable. erewrite tm_bind_Done by (by apply alt_Done).
  destruct (al_op al =? CHANNOP) eqn:E; [done|]. destruct Hop as [Hn|(_ & c & x & Hc & Hx & _)]; [by rewrite Hn in E|].
  rewrite Hc, Hx. by erewrite tm_bind_Done by (by apply chan_Done).
Qed.

(** What the other side of an executable alternative is like. *)
Lemma exec_alone w B Q c x op :
  chan_inv w B Q -> w_chans w !! c = Some x -> is_op op -> can_exec x op = true -> chanarray x (otherop op) = Some [] ->
  0 < c_bufsize x /\ (forall op' y, is_op op' -> ~ waits (w_alts w) B op' c y) /\
  (op = CHANSND -> c_nbuf x < c_bufsize x) /\ (op = CHANRCV -> 0 < c_nbuf x).
Proof.
  intros H Hx Hop Hcan Har. pose proof (cw_size x (ci_chans _ _ _ H c x Hx)). unfold can_exec in Hcan. rewrite Har in Hcan.
  destruct (Z.eqb_spec (c_bufsize x) 0); [done|]. destruct (ci_arrays _ _ _ H c x _ _ Hx Har) as [_ Hno].
  destruct (ci_fair _ _ _ H c x Hx) as (F1 & F2 & _). destruct Hop as [-> | ->]; cbn in Hcan; apply Z.ltb_lt in Hcan.
  - split_and!; [lia| |lia|done]. intros op' y [-> | ->]; [|by rewrite <- Hno; intros ?%elem_of_nil]. intros Hy. specialize (F1 ltac:(lia) y Hy). lia.
  - split_and!; [lia| |done|lia]. intros op' y [-> | ->]; [by rewrite <- Hno; intros ?%elem_of_nil|]. intros Hy. specialize (F2 ltac:(lia) y Hy). lia.
Qed.

Lemma same_chans_except (m : gmap Z Channel) c x' : same_chans (delete c m) (delete c (<[c := x']> m)).
Proof. by rewrite delete_insert_eq. Qed.

Lemma same_chans_delete m m' c : same_chans m m' -> same_chans (delete c m) (delete c m').
Proof.
  intros H c'. destruct (decide (c' = c)) as [->|Hne]; [by rewrite !lookup_delete_eq|]. rewrite !lookup_delete_ne by done. apply H.
Qed.

(** What stays the same. *)
Definition frame w w' : Prop :=
  w_alts w' = w_alts w /\ w_procs w' = w_procs w /\ w_qlocks w' = w_qlocks w /\ w_threadprocs w' = w_threadprocs w /\
  w_threadnproc w' = w_threadnproc w.

Section exec.
Context (w : world) (B : gmap Z (Z * Z)) (Q : gmap lid (list Z)) (a : Z) (al : Alt) (c : Z) (x : Channel).
Hypotheses (H : chan_inv w B Q) (Hal : w_alts w !! a = Some al) (Hop : is_op (al_op al)) (Hc : al_c al = Some c).
Hypotheses (Hx : w_chans w !! c = Some x) (Hroom : room (w_mem w) (al_v al) (c_elemsize x)).

Lemma altcopy_alone :
  can_exec x (al_op al) = true -> chanarray x (otherop (al_op al)) = Some [] ->
  exists w' S R, altcopy (Some a) None w = Done tt w' /\ chan_inv w' B Q /\ frame w w' /\ executed w B Q al c w' S R B Q.
Proof using All.
  intros Hcan Har. pose proof (ci_chans _ _ _ H c x Hx) as Hw.
  destruct (exec_alone w B Q c x _ H Hx Hop Hcan Har) as (Hb & Hno & Hs & Hr).
  assert (is_op (otherop (al_op al))) as Hoo by (destruct Hop as [-> | ->]; [by right|by left]).
  destruct Hop as [E|E].
  - destruct (altcopy_send w c x a al Hal E Hc Hx Hw Hroom (Hs E)) as (x' & R & Hk & Hw' & Hcon). do 3 eexists. split; [exact R|].
    split_and!; [|done|].
    + apply (chan_inv_copy w B Q c x x' (w_mem w)); auto.
    + constructor; [intros y; by apply Hno| |done]. unfold transfer, sending, receiving. rewrite E. cbn.
      exists x, x'. injection Hk as _ Hes _ _. rewrite lookup_insert_eq.
      split; [done|]. split; [done|]. split; [done|]. split; [done|]. split; [by instantiate (1 := [])|]. split_and!; try done. apply same_chans_except.
  - destruct (altcopy_recv w c x a al Hal E Hc Hx Hw Hroom (Hr E)) as (x' & v & R & Hk & Hw' & Hl & Hcon). do 3 eexists. split; [exact R|].
    split_and!; [|done|].
    + apply (chan_inv_copy w B Q c x x'); auto using room_delivered.
    + constructor; [intros y; by apply Hno| |done]. unfold transfer, sending, receiving. rewrite E. cbn.
      exists x, x'. injection Hk as _ Hes _ _. rewrite lookup_insert_eq.
      split; [done|]. split; [done|]. split; [done|]. split; [done|]. split; [by instantiate (1 := [v])|].
      split_and!; [by apply Forall_singleton|by rewrite app_nil_r|done|apply same_chans_except].
Qed.

Lemma altexec_with y ao u lo hi :
  B !! u = Some (lo, hi) -> lo <= y < hi -> w_alts w !! y = Some ao -> al_op ao = otherop (al_op al) -> al_c ao = Some c ->
  al_v al = None \/ al_v al <> al_v ao ->
  exists w' S R B' Q', (altcopy (Some a) (Some y);; o ← alt_at y; t ← ptr (al_thread o); z ← thread t; first ← ptr (th_alt z);
      altalldequeue first;; set_thread t (fun z => z <| th_alt := Some y |>);; _threadready t) w = Done tt w' /\
    chan_inv w' B' Q' /\ frame w w' /\ executed w B Q al c w' S R B' Q'.
Proof using All.
  intros Hu Hy Hao Hoo Hoc Hap. pose proof (ci_chans _ _ _ H c x Hx) as Hw.
  pose proof (ci_blocked _ _ _ H u lo hi Hu) as (_ & Hen & _ & (th & ts & Hth & Halt & Hk) & Hid).
  destruct (Hen y Hy) as (ao' & Hao' & Htl & Hop'). rewrite Hao in Hao'. injection Hao' as <-.
  assert (room (w_mem w) (al_v ao) (c_elemsize x)) as Hro.
  { destruct Hop' as [E|(_ & c' & x' & Ec & Ex & Hr)]; [|congruence]. rewrite Hoo in E. by destruct Hop as [E' | E']; rewrite E' in E. }
  pose proof (altcopy_pair w c x a al y ao Hal Hao Hop Hoo Hc Hx Hw Hroom Hro Hap) as Hcp.
  destruct (if al_op al =? CHANRCV then _ else _) as [s r] eqn:Esr. destruct Hcp as (x' & v & R & Hkept & Hw' & Hn & Hl & Hcon).
  set (w1 := w <| w_mem := _ |> <| w_chans := _ |>) in R. assert (chan_inv w1 B Q) as H1.
  { apply (chan_inv_copy w B Q c x x'); auto using room_delivered. }
  destruct (altalldequeue_ok w1 B Q u lo hi H1 Hu) as (m & R2 & Hm & H2). set (w2 := w1 <| w_chans := m |>) in *.
  destruct (chan_inv_ready w2 (delete u B) Q u th ts y H2) as (w' & R3 & H3 & Hrl); [by rewrite lookup_delete_eq|done..|].
  exists w', [value (w_mem w) s (c_elemsize x)], [v], (delete u B), (<[(th_proc th, Runqueue) := ts ++ [u]]> Q). pose proof Hrl as [Hcore Ew]. split_and!; [|done|by rewrite Ew|].
  - erewrite tm_bind_Done by exact R. erewrite tm_bind_Done by (by apply alt_Done). rewrite Htl. erewrite tm_bind_Done by apply ptr_Some.
    erewrite tm_bind_Done by (by apply thread_Done). rewrite Halt. erewrite tm_bind_Done by apply ptr_Some.
    by erewrite tm_bind_Done by exact R2.
  - eapply executed_with; try done; last first.
    { intros x3 ar Hx3 Har. destruct (ci_arrays _ _ _ H3 c x3 _ ar Hx3 Har) as [_ Hin]. rewrite Hin.
      intros (u' & lo' & hi' & ? & [Hne Hu']%delete_Some & Hy' & _). apply Hne. by eapply (ci_ranges _ _ _ H). }
    assert (m = w_chans w') as Em by (by rewrite Ew).
    assert (w_mem w' = delivered (w_mem w) r v) as Emem by (by rewrite Ew).
    assert (sending al ++ sending ao = [s] /\ receiving al ++ receiving ao = [r]) as [-> ->].
    { unfold sending, receiving. rewrite Hoo. destruct Hop as [E|E]; rewrite E in *; cbn in *; by injection Esr as <- <-. }
    pose proof (Hm c) as Hmc. cbn in Hmc. rewrite lookup_insert_eq in Hmc. destruct (m !! c) as [x2|] eqn:Ex2; [|done].
    destruct (same_chan_wf _ _ Hmc Hw') as [_ Ec2]. injection Hkept as _ Hes _ _. injection Hmc as _ Hes2 _ _ _.
    exists x, x2. rewrite <- Em. cbn. rewrite Ex2, Ec2, Emem. split_and!; try done; [congruence|by apply Forall_singleton|].
    etransitivity; [|apply same_chans_delete; exact Hm]. cbn. apply same_chans_except.
Qed.

Lemma altexec_ok rnd :
  can_exec x (al_op al) = true ->
  (forall y ao, waits (w_alts w) B (otherop (al_op al)) c y -> w_alts w !! y = Some ao -> al_v al = None \/ al_v al <> al_v ao) ->
  exists w' S R B' Q', altexec a rnd w = Done tt w' /\ chan_inv w' B' Q' /\ frame w w' /\ executed w B Q al c w' S R B' Q'.
Proof using All.
  intros Hcan Hap. assert (is_op (otherop (al_op al))) as Hoo by (destruct Hop as [-> | ->]; [by right|by left]).
  destruct (is_op_array x _ Hoo) as [ar Har]. unfold altexec. erewrite tm_bind_Done by (by apply alt_Done).
  rewrite Hc. erewrite tm_bind_Done by apply ptr_Some. erewrite tm_bind_Done by (by apply chan_Done). rewrite Har.
  destruct ar as [|y0 ar'].
  - destruct (altcopy_alone Hcan Har) as (w' & S & R & E & H' & F & Hex). by exists w', S, R, B, Q.
  - set (ar := y0 :: ar') in *. destruct (lookup_lt_is_Some_2 ar (Z.to_nat (rnd mod len ar))) as [y Hy].
    { pose proof (Z.mod_pos_bound rnd (len ar)). unfold ar in *. cbn [length] in *. lia. }
    rewrite Hy. erewrite tm_bind_Done by apply ptr_Some. apply list_elem_of_lookup_2 in Hy.
    destruct (ci_arrays _ _ _ H c x _ _ Hx Har) as [_ Hin]. apply Hin in Hy as Hwt.
    pose proof Hwt as (u & lo & hi & ao & Hu & Hr & Hao & Ho & Hoc).
    eapply altexec_with; try done. by eapply Hap.
Qed.
End exec.

(** ** Scanning the alternatives of a call *)

Section scan.
Context (w : world) (t : Z).

Lemma count_can_ok n : forall a, (forall y, a <= y < a + Z.of_nat n -> exists al, entry_ok w t y al) ->
  exists k, count_can n a w = Done k w /\ 0 <= k /\
    (k = 0 -> forall y al, a <= y < a + Z.of_nat n -> w_alts w !! y = Some al -> executable w al = false).
Proof.
  induction n as [|n IH]; intros a Hen; [exists 0; split_and!; [done|lia|lia]|].
  destruct (IH (a + 1)) as (k & E & Hk & Hnone); [intros; apply Hen; lia|].
  destruct (Hen a) as [al Hal]; [lia|]. exists (if executable w al then k + 1 else k). cbn [count_can].
  erewrite tm_bind_Done by (by eapply altcanexec_ok). erewrite tm_bind_Done by exact E. split_and!; [done|destruct (executable w al); lia|].
  intros E0 y al' Hy Hal'. destruct (decide (y = a)) as [->|Hne].
  - destruct Hal as [Hal _]. rewrite Hal in Hal'. injection Hal' as <-. destruct (executable w al); [lia|done].
  - destruct (executable w al); [lia|]. apply (Hnone E0 y al'); [lia|done].
Qed.

Lemma find_can_ok n : forall a j, (forall y, a <= y < a + Z.of_nat n -> exists al, entry_ok w t y al) ->
  forall k, count_can n a w = Done k w -> 0 <= j < k ->
  exists i al, find_can n a j w = Done (Some i) w /\ 0 <= i < Z.of_nat n /\ w_alts w !! (a + i) = Some al /\ executable w al = true.
Proof.
  induction n as [|n IH]; intros a j Hen k Hk Hj; [injection Hk as <-; lia|].
  destruct (Hen a) as [al Hal]; [lia|]. cbn [count_can] in Hk. erewrite tm_bind_Done in Hk by (by eapply altcanexec_ok).
  destruct (count_can_ok n (a + 1)) as (k' & E & _); [intros; apply Hen; lia|]. erewrite tm_bind_Done in Hk by exact E.
  injection Hk as Hk. cbn [find_can]. erewrite tm_bind_Done by (by eapply altcanexec_ok).
  destruct (executable w al && (j =? 0)) eqn:Ej.
  - exists 0, al. rewrite Z.add_0_r. apply andb_true_iff in Ej as [? _]. split; [done|]. split; [lia|]. split; [apply Hal|done].
  - destruct (IH (a + 1) (if executable w al then j - 1 else j)) with (k := k') as (i & al' & Ef & Hi & Hal' & Hex);
      [intros; apply Hen; lia|done| |].
    { apply andb_false_iff in Ej. destruct (executable w al); [|lia]. destruct Ej as [|Ej%Z.eqb_neq]; [done|lia]. }
    exists (Z.succ i), al'. erewrite tm_bind_Done by exact Ef. split_and!; [done|lia|lia| |done].
    replace (a + Z.succ i) with (a + 1 + i) by lia. done.
Qed.
End scan.

(** ** The critical section *)

(** Thread [t] calls [chanalt] with [n] alternatives at [a]: they are not in use, their channels
    are not nil, and no object is both sent from and received into. *)
Record call_ok w B Q (t a : Z) (n : nat) (canblock : bool) : Prop := mkCall {
  ca_out : B !! t = None;
  ca_thread : exists th ts, w_threads w !! t = Some th /\ th_alt th = Some a /\ Q !! (th_proc th, Runqueue) = Some ts;
  ca_idle : idle_in Q t;
  ca_entries : forall y, a <= y < a + Z.of_nat n -> exists al, entry_ok w t y al;
  ca_end : exists e, w_alts w !! (a + Z.of_nat n) = Some e /\ al_op e = if canblock then CHANEND else CHANNOBLK;
  ca_new : forall u lo hi y, B !! u = Some (lo, hi) -> a <= y <= a + Z.of_nat n -> ~ lo <= y <= hi;
  ca_apart : forall y al c z ao, a <= y < a + Z.of_nat n -> w_alts w !! y = Some al -> al_c al = Some c ->
    waits (w_alts w) B (otherop (al_op al)) c z -> w_alts w !! z = Some ao -> al_v al = None \/ al_v al <> al_v ao }.

Definition none_executable w (a : Z) (n : nat) : Prop :=
  forall y al, a <= y < a + Z.of_nat n -> w_alts w !! y = Some al -> executable w al = false.

(** The three ways in which a call is answered, with the elements that went in and out of a
    channel. *)
Inductive answered w B Q (t a : Z) (n : nat) (canblock : bool) w' :
  option (Z * list bytes * list bytes) -> gmap Z (Z * Z) -> gmap lid (list Z) -> altres -> Prop :=
| answered_exec i al c S R B' Q' :
    0 <= i < Z.of_nat n -> w_alts w !! (a + i) = Some al -> is_op (al_op al) -> al_c al = Some c ->
    executed w B Q al c w' S R B' Q' -> answered w B Q t a n canblock w' (Some (c, S, R)) B' Q' (Returns i)
| answered_none :
    canblock = false -> none_executable w a n -> w' = w -> answered w B Q t a n canblock w' None B Q (Returns (-1))
| answered_block m :
    canblock = true -> none_executable w a n -> same_chans (w_chans w) m -> w' = w <| w_chans := m |> ->
    answered w B Q t a n canblock w' None (<[t := (a, a + Z.of_nat n)]> B) Q (Blocks n).

Lemma waits_new alts B t lo hi op c y : B !! t = None ->
  waits alts (<[t := (lo, hi)]> B) op c y <->
  waits alts B op c y \/ lo <= y < hi /\ exists al, alts !! y = Some al /\ al_op al = op /\ al_c al = Some c.
Proof.
  intros Ht. split.
  - intros (u & l & h & al & Hu & Hy & Hal). destruct (decide (u = t)) as [->|Hne].
    + rewrite lookup_insert_eq in Hu. injection Hu as <- <-. right. eauto.
    + rewrite lookup_insert_ne in Hu by done. left. by exists u, l, h, al.
  - intros [(u & l & h & al & Hu & Hy & Hal)|(Hy & al & Hal)].
    + exists u, l, h, al. by rewrite lookup_insert_ne by congruence.
    + exists t, lo, hi, al. by rewrite lookup_insert_eq.
Qed.

Section call.
Context (w : world) (B : gmap Z (Z * Z)) (Q : gmap lid (list Z)) (t a : Z) (n : nat) (canblock : bool).
Hypotheses (H : chan_inv w B Q) (Hcall : call_ok w B Q t a n canblock).

(** Queueing alternatives none of which can execute keeps the channels fair. *)
Lemma fair_block : none_executable w a n -> fair w (<[t := (a, a + Z.of_nat n)]> B).
Proof using All.
  intros Hnone c x Hx. pose proof Hcall as [Hout _ _ _ _ _ _]. destruct (ci_fair _ _ _ H c x Hx) as (F1 & F2 & F3).
  pose proof (cw_nbuf x (ci_chans _ _ _ H c x Hx)).
  assert (forall y op, is_op op -> (a <= y < a + Z.of_nat n /\ exists al, w_alts w !! y = Some al /\ al_op al = op /\ al_c al = Some c) ->
    can_exec x op = false) as Hcan.
  { intros y op Hop (Hy & al & Hal & <- & Hc). specialize (Hnone y al Hy Hal). unfold executable in Hnone. rewrite Hc, Hx in Hnone.
    by destruct Hop as [E|E]; rewrite E in *. }
  assert (forall op z, is_op op -> waits (w_alts w) B op c z -> exists ar, chanarray x op = Some ar /\ ar <> []) as Har.
  { intros op z Hop Hz. destruct (is_op_array x _ Hop) as [ar E]. exists ar. split; [done|]. destruct (ci_arrays _ _ _ H c x _ _ Hx E) as [_ Hin].
    apply Hin in Hz. intros ->. by apply elem_of_nil in Hz. }
  setoid_rewrite waits_new; [|done..]. split_and!.
  - intros Hb y [Hy|Hy]; [by eapply F1|]. apply Hcan in Hy; [|by left]. unfold can_exec in Hy. destruct (Z.eqb_spec (c_bufsize x) 0); [lia|].
    cbn in Hy. apply Z.ltb_ge in Hy. lia.
  - intros Hb y [Hy|Hy]; [by eapply F2|]. apply Hcan in Hy; [|by right]. unfold can_exec in Hy. destruct (Z.eqb_spec (c_bufsize x) 0); [lia|].
    cbn in Hy. apply Z.ltb_ge in Hy. lia.
  - intros Hb y z [Hy|Hy] [Hz|Hz].
    + destruct (F3 Hb y z Hy Hz) as (u & lo & hi & Hu & Hr). exists u, lo, hi. by rewrite lookup_insert_ne by congruence.
    + apply Hcan in Hz; [|by right]. destruct (Har _ _ (or_introl eq_refl) Hy) as (ar & E & Hne).
      unfold can_exec in Hz. rewrite Hb in Hz. change (otherop CHANRCV) with CHANSND in Hz. rewrite E in Hz. by apply bool_decide_eq_false in Hz.
    + apply Hcan in Hy; [|by left]. destruct (Har _ _ (or_intror eq_refl) Hz) as (ar & E & Hne).
      unfold can_exec in Hy. rewrite Hb in Hy. change (otherop CHANSND) with CHANRCV in Hy. rewrite E in Hy. by apply bool_decide_eq_false in Hy.
    + exists t, a, (a + Z.of_nat n). rewrite lookup_insert_eq. split_and!; try done; lia || apply Hy || apply Hz.
Qed.

Lemma ranges_new : ranges_ok (<[t := (a, a + Z.of_nat n)]> B).
Proof using All.
  pose proof Hcall as [Hout _ _ _ _ Hnew _]. intros t1 t2 l1 h1 l2 h2 y.
  destruct (decide (t1 = t)) as [->|H1], (decide (t2 = t)) as [->|H2]; rewrite ?lookup_insert_eq, ?lookup_insert_ne by done;
    intros E1 E2 Hy1 Hy2; simplify_eq; try done.
  - destruct (Hnew t2 l2 h2 y E2); lia.
  - destruct (Hnew t1 l1 h1 y E1); lia.
  - by eapply (ci_ranges _ _ _ H).
Qed.

Lemma queue_call :
  canblock = true -> none_executable w a n ->
  exists m, queue_all n a w = Done tt (w <| w_chans := m |>) /\ same_chans (w_chans w) m /\
    chan_inv (w <| w_chans := m |>) (<[t := (a, a + Z.of_nat n)]> B) Q.
Proof using All.
  intros Hcb Hnone. pose proof Hcall as [Hout Hth Hid Hen Hend Hnew _].
  destruct (queue_all_ok t a n w (<[t := (a, a)]> B) a) as (m & R & Hm & Ha).
  - eapply arrays_same; [apply (ci_arrays _ _ _ H)|]. intros op c y _. rewrite waits_new by done. split; [|by left].
    intros [?|[? _]]; [done|lia].
  - apply lookup_insert_eq.
  - done.
  - intros u l h y Hu Hy. destruct (decide (u = t)) as [->|Hne].
    + rewrite lookup_insert_eq in Hu. injection Hu as <- <-. lia.
    + rewrite lookup_insert_ne in Hu by done. intros Hr. apply (Hnew u l h y Hu); lia.
  - done.
  - rewrite insert_insert_eq in Ha. exists m. split_and!; try done. pose proof H as [Hq Hw _ _ Hb _]. constructor.
    + by eapply queued_ext; [..|exact Hq].
    + by eapply wf_chans.
    + done.
    + apply ranges_new.
    + intros u lo hi Hu. apply blocked_chans; [done|]. destruct (decide (u = t)) as [->|Hne].
      * rewrite lookup_insert_eq in Hu. injection Hu as <- <-. split_and!; try done; [lia|]. by rewrite Hcb in Hend.
      * rewrite lookup_insert_ne in Hu by done. by apply Hb.
    + apply fair_chans; [done|]. by apply fair_block.
Qed.

Lemma chanalt_locked_ok rnd1 rnd2 :
  exists r w' ev B' Q', chanalt_locked a n canblock rnd1 rnd2 w = Done r w' /\ chan_inv w' B' Q' /\ frame w w' /\
    answered w B Q t a n canblock w' ev B' Q' r.
Proof using All.
  pose proof (ca_entries _ _ _ _ _ _ _ Hcall) as Hen. unfold chanalt_locked.
  destruct (count_can_ok w t n a Hen) as (k & E & Hk & Hnone). erewrite tm_bind_Done by exact E.
  destruct (Z.eqb_spec k 0) as [E0|Hk0].
  - specialize (Hnone E0). erewrite tm_bind_Done by done. destruct (bool_dec canblock true) as [Hcb|Hcb%not_true_is_false]; rewrite Hcb; cbn [negb].
    + destruct (queue_call Hcb Hnone) as (m & R & Hm & H'). erewrite tm_bind_Done by exact R.
      do 5 eexists. split; [done|]. split_and!; [exact H'|done|]. by eapply answered_block.
    + exists (Returns (-1)), w, None, B, Q. split_and!; try done. by apply answered_none.
  - pose proof (Z.mod_pos_bound rnd1 k ltac:(lia)).
    destruct (find_can_ok w t n a (rnd1 mod k) Hen k E) as (i & al & Ef & Hi & Hal & Hex); [lia|]. erewrite tm_bind_Done by exact Ef.
    destruct (Hen (a + i)) as (al' & Hal' & _ & Hop); [lia|]. rewrite Hal in Hal'. injection Hal' as <-.
    unfold executable in Hex. destruct Hop as [Hn|(Hop & c & x & Hc & Hx & Hr)]; [by rewrite Hn in Hex|].
    rewrite Hc, Hx in Hex. assert (can_exec x (al_op al) = true) as Hcan by (destruct Hop as [Eo|Eo]; by rewrite Eo in * ).
    destruct (altexec_ok w B Q (a + i) al c x H Hal Hop Hc Hx Hr rnd2 Hcan) as (w' & S & R & B' & Q' & E' & H' & F & Hexd).
    { intros y ao. apply (ca_apart _ _ _ _ _ _ _ Hcall (a + i)); [lia|done|done]. }
    erewrite tm_bind_Done by exact E'. exists (Returns i), w', (Some (c, S, R)), B', Q'. split_and!; try done. by eapply answered_exec.
Qed.
End call.
