(* ===== verification/ChanRun.v ===== *)
(** * Runs of calls of [chanalt]

    Threads call [chanalt] in any order, with other code running in between. A run consists of
    executions of the code: who waits after a call, and which elements were sent and received,
    is read off the memory before and after it. *)

From S2P Require Import Prelude Thread Chan ThreadRep ThreadLock ThreadQueues ChanRep ChanWait ChanExec.

Implicit Types (w : world) (B : gmap Z (Z * Z)) (Q : gmap lid (list Z)) (D : gset lid) (x : Channel).

(** ** Other code *)

(** Code outside of [channel.c] does not touch channels, nor the alternatives and the objects
    that threads wait with; it may do anything else, and schedule threads. *)
Record outside B w Q w' Q' : Prop := mkOutside {
  ou_chans : w_chans w' = w_chans w;
  ou_alts : forall t lo hi y, B !! t = Some (lo, hi) -> lo <= y <= hi -> w_alts w' !! y = w_alts w !! y;
  ou_mem : forall t lo hi y al n, B !! t = Some (lo, hi) -> lo <= y < hi -> w_alts w !! y = Some al ->
    room (w_mem w) (al_v al) n -> room (w_mem w') (al_v al) n;
  ou_threads : forall t r, B !! t = Some r -> core <$> w_threads w' !! t = core <$> w_threads w !! t;
  ou_queued : queued w' Q';
  ou_idle : forall t r, B !! t = Some r -> idle_in Q' t;
  ou_procs : forall p, is_Some (Q !! (p, Runqueue)) -> is_Some (Q' !! (p, Runqueue)) }.

Lemma waits_outside B w Q w' Q' op c y : outside B w Q w' Q' -> waits (w_alts w') B op c y <-> waits (w_alts w) B op c y.
Proof.
  intros O. split; intros (t & lo & hi & al & Ht & Hy & Hal & Hr); exists t, lo, hi, al; split_and!; try done; try lia; try apply Hr.
  - rewrite <- (ou_alts _ _ _ _ _ O t lo hi y Ht) by lia. done.
  - rewrite (ou_alts _ _ _ _ _ O t lo hi y Ht) by lia. done.
Qed.

Lemma chan_inv_outside B w Q w' Q' : chan_inv w B Q -> outside B w Q w' Q' -> chan_inv w' B Q'.
Proof.
  intros [Hq Hw Ha Hr Hb Hf] O. pose proof O as [Ec Ea Em Et Hq' Hid Hpr]. constructor; try done.
  - intros c x. rewrite Ec. apply Hw.
  - intros c x op ar. rewrite Ec. intros Hx Har. destruct (Ha c x op ar Hx Har) as [Hd Hin]. split; [done|].
    intros y. rewrite Hin. symmetry. by apply (waits_outside _ _ _ _ _ _ _ _ O).
  - intros t lo hi Ht. destruct (Hb t lo hi Ht) as (Hle & Hen & (e & He & Hop) & (th & ts & Hth & Halt & Hk) & _). split_and!.
    + done.
    + intros y Hy. destruct (Hen y Hy) as (al & Hal & Htl & Ho). exists al. unfold entry_ok. rewrite (Ea t lo hi y Ht), Ec by lia.
      split_and!; try done. destruct Ho as [?|(Hop' & c & x & Hc & Hx & Hrm)]; [by left|right]. split; [done|]. exists c, x.
      split_and!; try done. by eapply Em.
    + exists e. rewrite (Ea t lo hi hi Ht) by lia. done.
    + specialize (Et t _ Ht). rewrite Hth in Et. destruct (w_threads w' !! t) as [th'|]; [|done]. injection Et as Ep Eal _ _.
      destruct (Hpr (th_proc th')) as [ts' Hts']; [by rewrite Ep, Hk|]. exists th', ts'. split_and!; try done. congruence.
    + by eapply Hid.
  - intros c x. rewrite Ec. intros Hx. destruct (Hf c x Hx) as (F1 & F2 & F3). split_and!.
    + intros Hp y Hy. apply (F1 Hp y). by apply (waits_outside _ _ _ _ _ _ _ _ O).
    + intros Hp y Hy. apply (F2 Hp y). by apply (waits_outside _ _ _ _ _ _ _ _ O).
    + intros Hz y z Hy Hz'. apply F3; [done|by apply (waits_outside _ _ _ _ _ _ _ _ O)..].
Qed.

(** ** What a call did *)

(** The alternatives that are queued on some channel, and whether one of those from [fst r] up to
    [snd r] is. *)
Definition queued_alts w : list Z := concat (map (fun cx : Z * Channel => c_asend cx.2 ++ c_arecv cx.2) (map_to_list (w_chans w))).
Definition in_line w (r : Z * Z) : bool := existsb (fun y => (r.1 <=? y) && (y <? r.2)) (queued_alts w).

(** Of the threads [B] that wait before a call, those whose alternatives it took off the
    channels are served; the others wait on, and the caller too if it was told to. *)
Definition taken_off w w1 (r : Z * Z) : bool := in_line w r && negb (in_line w1 r).
Definition served_by w w1 B : gmap Z (Z * Z) := filter (fun ur : Z * (Z * Z) => taken_off w w1 ur.2 = true) B.
Definition waiting_after w w1 B (t a : Z) (r : altres) : gmap Z (Z * Z) :=
  let B1 := filter (fun ur : Z * (Z * Z) => taken_off w w1 ur.2 = false) B in
  match r with Blocks n => <[t := (a, a + Z.of_nat n)]> B1 | _ => B1 end.

(** An element is sent, or received; one received into nil is lost. *)
Inductive chan_event := Sent (c : Z) (v : bytes) | Received (c : Z) (v : option bytes).

(** What the alternative at [y] moved: the object it sends from before the call, the object it
    receives into after. *)
Definition moved w w1 (y : Z) : list chan_event :=
  match w_alts w !! y with
  | Some al =>
    match al_c al with
    | Some c =>
      match w_chans w !! c with
      | Some x =>
        if al_op al =? CHANSND then [Sent c (value (w_mem w) (al_v al) (c_elemsize x))]
        else if al_op al =? CHANRCV then [Received c ((fun o => value (w_mem w1) (Some o) (c_elemsize x)) <$> al_v al)]
        else []
      | None => []
      end
    | None => []
    end
  | None => []
  end.

(** The alternative that the call returns, and that which each thread that was served has in its
    [alt]. *)
Definition call_events w w1 B (a : Z) (r : altres) : list chan_event :=
  match r with Returns i => if 0 <=? i then moved w w1 (a + i) else [] | _ => [] end ++
  concat (map (fun ur : Z * (Z * Z) => match w_threads w1 !! ur.1 with Some th => from_option (moved w w1) [] (th_alt th) | None => [] end)
    (map_to_list (served_by w w1 B))).

Definition sent (c : Z) (tr : list chan_event) : list bytes :=
  omap (fun e => match e with Sent c' v => if decide (c' = c) then Some v else None | _ => None end) tr.
Definition received (c : Z) (tr : list chan_event) : list (option bytes) :=
  omap (fun e => match e with Received c' v => if decide (c' = c) then Some v else None | _ => None end) tr.

(** A receiver sees the element, unless it receives into nil. *)
Definition sees (o : option bytes) (v : bytes) : Prop := match o with Some bs => bs = v | None => True end.

(** ** Runs *)

(** Threads that obey the rules of [call_ok] call [chanalt], and other code runs. *)
Inductive chan_run D : world -> gmap Z (Z * Z) -> list chan_event -> world -> gmap Z (Z * Z) -> Prop :=
| run_end w B : chan_run D w B [] w B
| run_call w B t a n canblock rnd1 rnd2 r w1 tr w2 B2 :
    call_ok w B (queues_of D w) t a n canblock -> chanalt_locked a n canblock rnd1 rnd2 w = Done r w1 ->
    chan_run D w1 (waiting_after w w1 B t a r) tr w2 B2 -> chan_run D w B (call_events w w1 B a r ++ tr) w2 B2
| run_other w B w1 tr w2 B2 :
    outside B w (queues_of D w) w1 (queues_of D w1) -> chan_run D w1 B tr w2 B2 -> chan_run D w B tr w2 B2.

Lemma waits_intro alts B t lo hi op c y al :
  B !! t = Some (lo, hi) -> lo <= y < hi -> alts !! y = Some al -> al_op al = op -> al_c al = Some c -> waits alts B op c y.
Proof. intros Ht Hy Hal Hop Hc. exists t, lo, hi, al. auto. Qed.

Lemma otherop_op op : is_op op -> is_op (otherop op).
Proof. intros [-> | ->]; [by right|by left]. Qed.

Lemma sent_app c tr1 tr2 : sent c (tr1 ++ tr2) = sent c tr1 ++ sent c tr2.
Proof. apply omap_app. Qed.
Lemma received_app c tr1 tr2 : received c (tr1 ++ tr2) = received c tr1 ++ received c tr2.
Proof. apply omap_app. Qed.

(** *** Who is in line *)

Lemma queued_alts_elem w y :
  y ∈ queued_alts w <-> exists c x op ar, w_chans w !! c = Some x /\ chanarray x op = Some ar /\ y ∈ ar.
Proof.
  unfold queued_alts. rewrite list_elem_of_In, in_concat. setoid_rewrite in_map_iff. setoid_rewrite <- list_elem_of_In. split.
  - intros (l & ([c x] & <- & Hx%elem_of_map_to_list) & Hy). cbn in Hy. apply elem_of_app in Hy as [Hy|Hy].
    + by exists c, x, CHANSND, (c_asend x).
    + by exists c, x, CHANRCV, (c_arecv x).
  - intros (c & x & op & ar & Hx & Har & Hy). exists (c_asend x ++ c_arecv x). split.
    + exists (c, x). split; [done|]. by apply elem_of_map_to_list.
    + destruct (chanarray_Some _ _ _ Har) as [-> | ->]; injection Har as <-; set_solver.
Qed.

Lemma queued_alts_inv w B Q y : chan_inv w B Q ->
  y ∈ queued_alts w <-> exists t lo hi al, B !! t = Some (lo, hi) /\ lo <= y < hi /\ w_alts w !! y = Some al /\ is_op (al_op al).
Proof.
  intros H. rewrite queued_alts_elem. split.
  - intros (c & x & op & ar & Hx & Har & Hy). destruct (ci_arrays _ _ _ H c x op ar Hx Har) as [_ Hin].
    apply Hin in Hy as (t & lo & hi & al & Ht & Hy & Hal & <- & _). exists t, lo, hi, al. split_and!; try done; try lia. by eapply chanarray_Some.
  - intros (t & lo & hi & al & Ht & Hy & Hal & Hop). destruct (ci_blocked _ _ _ H t lo hi Ht) as (_ & Hen & _).
    destruct (Hen y Hy) as (al' & Hal' & _ & Ho). rewrite Hal in Hal'. injection Hal' as <-.
    destruct Ho as [E|(_ & c & x & Hc & Hx & _)]; [by destruct Hop as [E'|E']; rewrite E' in E|].
    destruct (is_op_array x _ Hop) as [ar Har]. exists c, x, (al_op al), ar. split_and!; try done.
    apply (ci_arrays _ _ _ H c x _ ar Hx Har). by eapply waits_intro.
Qed.

Lemma in_line_elem w lo hi : in_line w (lo, hi) = true <-> exists y, lo <= y < hi /\ y ∈ queued_alts w.
Proof.
  unfold in_line. rewrite existsb_exists. cbn. setoid_rewrite <- list_elem_of_In. setoid_rewrite andb_true_iff.
  setoid_rewrite Z.leb_le. setoid_rewrite Z.ltb_lt. naive_solver.
Qed.

(** A thread is in line if one of its alternatives sends or receives. *)
Lemma in_line_inv w B Q u lo hi : chan_inv w B Q -> B !! u = Some (lo, hi) ->
  in_line w (lo, hi) = true <-> exists y al, lo <= y < hi /\ w_alts w !! y = Some al /\ is_op (al_op al).
Proof.
  intros H Hu. rewrite in_line_elem. setoid_rewrite (queued_alts_inv w B Q _ H). split.
  - intros (y & Hy & t & lo' & hi' & al & _ & _ & Hal & Hop). by exists y, al.
  - intros (y & al & Hy & Hal & Hop). exists y. split; [done|]. by exists u, lo, hi, al.
Qed.

Lemma waits_on w B Q w1 B1 Q1 u r : chan_inv w B Q -> chan_inv w1 B1 Q1 -> w_alts w1 = w_alts w ->
  B !! u = Some r -> B1 !! u = Some r -> taken_off w w1 r = false.
Proof.
  intros H H1 Ea Hu Hu1. destruct r as [lo hi]. unfold taken_off. apply andb_false_iff. rewrite negb_false_iff.
  destruct (in_line w (lo, hi)) eqn:E; [right|by left]. apply (in_line_inv _ _ _ u _ _ H Hu) in E.
  apply (in_line_inv _ _ _ u _ _ H1 Hu1). by rewrite Ea.
Qed.

Lemma is_served w B Q w1 Q1 u lo hi y al : chan_inv w B Q -> chan_inv w1 (delete u B) Q1 ->
  B !! u = Some (lo, hi) -> lo <= y < hi -> w_alts w !! y = Some al -> is_op (al_op al) -> taken_off w w1 (lo, hi) = true.
Proof.
  intros H H1 Hu Hy Hal Hop. unfold taken_off. apply andb_true_iff. split; [by eapply in_line_inv; [..|exists y, al]|].
  apply negb_true_iff, not_true_is_false. rewrite in_line_elem. intros (z & Hz & Hin). apply (queued_alts_inv _ _ _ _ H1) in Hin.
  destruct Hin as (t & lo' & hi' & _ & [Hne Ht]%delete_Some & Hz' & _). apply Hne. by eapply (ci_ranges _ _ _ H).
Qed.

(** *** One call *)

Section step.
Context (w : world) (B : gmap Z (Z * Z)) (Q : gmap lid (list Z)) (t a : Z) (n : nat) (canblock : bool).
Context (w1 : world) (B1 : gmap Z (Z * Z)) (Q1 : gmap lid (list Z)).
Hypotheses (H : chan_inv w B Q) (Hcall : call_ok w B Q t a n canblock) (H1 : chan_inv w1 B1 Q1) (F : frame w w1).

Lemma nobody_served r : (forall u ur, B !! u = Some ur -> B1 !! u = Some ur) ->
  served_by w w1 B = ∅ /\ waiting_after w w1 B t a r = match r with Blocks n => <[t := (a, a + Z.of_nat n)]> B | _ => B end.
Proof using H H1 F.
  intros Hsub. assert (forall u ur, B !! u = Some ur -> taken_off w w1 ur = false) as Hno.
  { intros u ur Hu. eapply waits_on; [exact H|exact H1|apply F|exact Hu|by apply Hsub]. }
  split.
  - apply map_empty. intros u. apply map_lookup_filter_None. right. intros ur Hu. cbn. by rewrite (Hno u).
  - unfold waiting_after. rewrite map_filter_id; [done|]. intros u ur Hu. cbn. by eapply Hno.
Qed.

Lemma one_served u lo hi y al i : B1 = delete u B -> B !! u = Some (lo, hi) -> lo <= y < hi -> w_alts w !! y = Some al -> is_op (al_op al) ->
  served_by w w1 B = {[ u := (lo, hi) ]} /\ waiting_after w w1 B t a (Returns i) = delete u B.
Proof using H H1 F.
  intros -> Hu Hy Hal Hop. pose proof (is_served _ _ _ _ _ _ _ _ _ _ H H1 Hu Hy Hal Hop) as Hs.
  assert (forall v vr, B !! v = Some vr -> taken_off w w1 vr = bool_decide (v = u)) as Ht.
  { intros v vr Hv. case_bool_decide as E; [subst v; congruence|]. eapply waits_on; [exact H|exact H1|apply F|exact Hv|]. by rewrite lookup_delete_ne. }
  split; apply map_eq; intros v; apply option_eq; intros vr.
  - unfold served_by. rewrite map_lookup_filter_Some, lookup_singleton_Some. cbn. split.
    + intros [Hv E]. rewrite (Ht v vr Hv) in E. apply bool_decide_eq_true in E as ->. split; congruence.
    + intros [<- <-]. done.
  - unfold waiting_after. rewrite map_lookup_filter_Some, lookup_delete_Some. cbn. split.
    + intros [Hv E]. rewrite (Ht v vr Hv) in E. apply bool_decide_eq_false in E. by split; [congruence|].
    + intros [Hne Hv]. split; [done|]. rewrite (Ht v vr Hv). apply bool_decide_eq_false. congruence.
Qed.
End step.

(** What the events of one alternative are. *)
Lemma moved_sent w w1 y al c x c' : w_alts w !! y = Some al -> al_c al = Some c -> w_chans w !! c = Some x ->
  sent c' (moved w w1 y) = if decide (c = c') then map (fun s => value (w_mem w) s (c_elemsize x)) (sending al) else [].
Proof.
  intros Hal Hc Hx. unfold moved, sending. rewrite Hal, Hc, Hx.
  destruct (al_op al =? CHANSND), (al_op al =? CHANRCV); cbn; by destruct (decide (c = c')).
Qed.

Lemma moved_received w w1 y al c x c' : w_alts w !! y = Some al -> is_op (al_op al) -> al_c al = Some c -> w_chans w !! c = Some x ->
  received c' (moved w w1 y) =
    if decide (c = c') then map (fun r => (fun o => value (w_mem w1) (Some o) (c_elemsize x)) <$> r) (receiving al) else [].
Proof.
  intros Hal Hop Hc Hx. unfold moved, receiving. rewrite Hal, Hc, Hx. by destruct Hop as [-> | ->]; cbn; destruct (decide (c = c')).
Qed.

(** A transfer to at most one object: what is found there afterwards is the element. *)
Lemma transfer_seen w w1 c x ss rs sn rc :
  transfer w w1 c ss rs sn rc -> w_chans w !! c = Some x -> (length rs <= 1)%nat -> Forall (fun r => room (w_mem w) r (c_elemsize x)) rs ->
  Forall2 sees (map (fun r => (fun o => value (w_mem w1) (Some o) (c_elemsize x)) <$> r) rs) rc.
Proof.
  intros (y & y' & Hy & _ & _ & _ & Hl & Hlen & _ & Em & _) Hx Hrs Hroom. rewrite Hx in Hy. injection Hy as <-.
  destruct rs as [|r [|]]; [by destruct rc|destruct rc as [|v [|]]; try done|cbn in Hrs; lia]. constructor; [|constructor].
  rewrite Forall_singleton in Hlen. rewrite Forall_singleton in Hroom. cbn in Em. destruct r as [o|]; [|done]. cbn. rewrite Em, <- Hlen.
  apply value_delivered. by rewrite Hlen.
Qed.

Lemma transfer_others w w1 c ss rs sn rc c' x : transfer w w1 c ss rs sn rc -> c <> c' -> w_chans w !! c' = Some x -> chan_wf x ->
  exists x', w_chans w1 !! c' = Some x' /\ contents x' = contents x.
Proof.
  intros (_ & _ & _ & _ & _ & _ & _ & _ & _ & _ & Hrest) Hne Hx Hw. specialize (Hrest c').
  rewrite !lookup_delete_ne, Hx in Hrest by done. destruct (w_chans w1 !! c') as [x'|]; [|done]. exists x'. split; [done|].
  by apply (same_chan_wf x x').
Qed.

(** The elements of the channels before and after. *)
Definition flows w w1 (ev : list chan_event) : Prop := forall c x, w_chans w !! c = Some x ->
  exists x' rc, w_chans w1 !! c = Some x' /\ contents x ++ sent c ev = rc ++ contents x' /\ Forall2 sees (received c ev) rc.

Lemma flows_same w w1 : (forall c x, w_chans w !! c = Some x -> chan_wf x) -> same_chans (w_chans w) (w_chans w1) -> flows w w1 [].
Proof.
  intros Hw Hm c x Hx. specialize (Hm c). rewrite Hx in Hm. destruct (w_chans w1 !! c) as [x'|]; [|done]. exists x', [].
  split_and!; [done| |constructor]. cbn. rewrite app_nil_r. symmetry. by eapply same_chan_wf, Hw.
Qed.

Lemma flows_app w w1 w2 ev1 ev2 : flows w w1 ev1 -> flows w1 w2 ev2 -> flows w w2 (ev1 ++ ev2).
Proof.
  intros F1 F2 c x Hx. destruct (F1 c x Hx) as (x1 & r1 & Hx1 & E1 & S1). destruct (F2 c x1 Hx1) as (x2 & r2 & Hx2 & E2 & S2).
  exists x2, (r1 ++ r2). rewrite sent_app, received_app. split_and!; [done| |by apply Forall2_app].
  by rewrite app_assoc, E1, <- app_assoc, E2, app_assoc.
Qed.

(** The alternatives [ys] of a transfer account for its elements. *)
Lemma flows_transfer w w1 c x (als : list (Z * Alt)) sn rc :
  (forall c x, w_chans w !! c = Some x -> chan_wf x) -> w_chans w !! c = Some x ->
  Forall (fun p => w_alts w !! p.1 = Some p.2 /\ is_op (al_op p.2) /\ al_c p.2 = Some c /\ room (w_mem w) (al_v p.2) (c_elemsize x)) als ->
  transfer w w1 c (concat (map (fun p => sending p.2) als)) (concat (map (fun p => receiving p.2) als)) sn rc ->
  (length (concat (map (fun p => receiving p.2) als)) <= 1)%nat ->
  flows w w1 (concat (map (fun p => moved w w1 p.1) als)).
Proof.
  intros Hw Hx Hals T Hone c' x1 Hx1.
  assert (forall c1, sent c1 (concat (map (fun p => moved w w1 p.1) als)) =
      if decide (c = c1) then map (fun s => value (w_mem w) s (c_elemsize x)) (concat (map (fun p => sending p.2) als)) else []) as Es.
  { intros c1. clear T Hone. induction Hals as [|[y al] als (Hal & Hop & Hc & _) Hals IH]; [by destruct (decide _)|]. cbn [map concat fst snd].
    rewrite sent_app, IH, (moved_sent _ _ _ _ _ _ _ Hal Hc Hx). destruct (decide (c = c1)); [by rewrite map_app|done]. }
  assert (forall c1, received c1 (concat (map (fun p => moved w w1 p.1) als)) =
      if decide (c = c1) then map (fun r => (fun o => value (w_mem w1) (Some o) (c_elemsize x)) <$> r) (concat (map (fun p => receiving p.2) als)) else []) as Er.
  { intros c1. clear T Hone Es. induction Hals as [|[y al] als (Hal & Hop & Hc & _) Hals IH]; [by destruct (decide _)|]. cbn [map concat fst snd].
    rewrite received_app, IH, (moved_received _ _ _ _ _ _ _ Hal Hop Hc Hx). destruct (decide (c = c1)); [by rewrite map_app|done]. }
  rewrite Es, Er. destruct (decide (c = c')) as [->|Hne].
  - rewrite Hx in Hx1. injection Hx1 as <-. pose proof T as (y & y' & Hy & Hy' & _ & Esn & _ & _ & Hflow & _).
    rewrite Hx in Hy. injection Hy as <-. exists y', rc. rewrite <- Esn. split_and!; try done. eapply transfer_seen; [exact T|exact Hx|exact Hone|].
    clear -Hals. induction Hals as [|[y al] als (_ & _ & _ & Hr) Hals IH]; cbn; [constructor|]. apply Forall_app. split; [|done].
    unfold receiving. destruct (al_op al =? CHANRCV); [by apply Forall_singleton|constructor].
  - destruct (transfer_others _ _ _ _ _ _ _ c' x1 T Hne Hx1 (Hw _ _ Hx1)) as (x' & Hx' & E). exists x', [].
    rewrite app_nil_r, E. by split_and!.
Qed.

(** One call: the state is sound again, the threads that wait are those that the memory says, and
    the elements of every channel are accounted for. *)
Lemma call_step w B Q t a n canblock rnd1 rnd2 r w1 :
  chan_inv w B Q -> call_ok w B Q t a n canblock -> chanalt_locked a n canblock rnd1 rnd2 w = Done r w1 ->
  exists ev B1 Q1, answered w B Q t a n canblock w1 ev B1 Q1 r /\ chan_inv w1 B1 Q1 /\ dom Q1 = dom Q /\
    waiting_after w w1 B t a r = B1 /\ flows w w1 (call_events w w1 B a r).
Proof.
  intros H Hc E. destruct (chanalt_locked_ok w B Q t a n canblock H Hc rnd1 rnd2) as (r1 & w1' & ev & B1 & Q1 & E1 & H1 & F & A).
  rewrite E in E1. injection E1 as <- <-. exists ev, B1, Q1. split; [exact A|]. split; [exact H1|]. pose proof (ci_chans _ _ _ H) as Hw.
  destruct A as [i al c sn rc B1 Q1 Hi Hal Hop Hcc Hex|_ _ ->|m _ _ Hm Em].
  - destruct (ca_entries _ _ _ _ _ _ _ Hc (a + i)) as (al' & Hal' & _ & Ho); [lia|]. rewrite Hal in Hal'. injection Hal' as <-.
    destruct Ho as [E0|(_ & c' & x & Hc' & Hx & Hroom)]; [by destruct Hop as [E'|E']; rewrite E' in E0|].
    rewrite Hcc in Hc'. injection Hc' as <-. unfold call_events. destruct (Z.leb_spec 0 i); [|lia].
    destruct Hex as [_ T _|u lo hi y ao th ts Hu Hy Hao Hoo Hoc T Hth Hk Hcore _].
    + destruct (nobody_served w B Q t a w1 B Q H H1 F (Returns i)) as [-> ->]; [done|]. split_and!; try done.
      rewrite map_to_list_empty. cbn. rewrite app_nil_r. pose proof (flows_transfer w w1 c x [(a + i, al)] sn rc Hw Hx) as Hf.
      cbn in Hf. rewrite !app_nil_r in Hf. apply Hf; [by apply Forall_singleton|exact T|]. unfold receiving. by destruct (_ =? _); cbn; lia.
    + assert (is_op (al_op ao)) as Hopo by (rewrite Hoo; by apply otherop_op).
      destruct (one_served w B Q t a w1 (delete u B) _ H H1 F u lo hi y ao i) as [-> ->]; try done.
      split_and!; [by eapply insert_dom|done|]. rewrite map_to_list_singleton. cbn. rewrite app_nil_r.
      specialize (Hcore u). rewrite lookup_insert_eq in Hcore. destruct (w_threads w1 !! u) as [th1|]; [|done]. injection Hcore as _ -> _ _. cbn.
      destruct (ci_blocked _ _ _ H u lo hi Hu) as (_ & Hen & _). destruct (Hen y Hy) as (ao' & Hao' & _ & Ho). rewrite Hao in Hao'. injection Hao' as <-.
      assert (room (w_mem w) (al_v ao) (c_elemsize x)) as Hro.
      { destruct Ho as [E0|(_ & c' & x' & Ec & Ex & Hr)]; [by destruct Hopo as [E'|E']; rewrite E' in E0|congruence]. }
      pose proof (flows_transfer w w1 c x [(a + i, al); (y, ao)] sn rc Hw Hx) as Hf. cbn in Hf. rewrite !app_nil_r in Hf.
      apply Hf; [apply Forall_cons; split; [done|by apply Forall_singleton]|exact T|]. unfold receiving. rewrite Hoo. by destruct Hop as [-> | ->].
  - destruct (nobody_served w B Q t a w B Q H H1 F (Returns (-1))) as [Es Ew]; [done|]. rewrite Ew. split_and!; try done.
    unfold call_events. rewrite Es, map_to_list_empty. by apply flows_same.
  - assert (forall u ur, B !! u = Some ur -> <[t := (a, a + Z.of_nat n)]> B !! u = Some ur) as Hsub.
    { intros u ur Hu. rewrite lookup_insert_ne; [done|]. pose proof (ca_out _ _ _ _ _ _ _ Hc). congruence. }
    destruct (nobody_served w B Q t a _ _ Q H H1 F (Blocks n) Hsub) as [Es Ew]. rewrite Ew. split_and!; try done.
    unfold call_events. rewrite Es, map_to_list_empty. apply flows_same; [done|]. by rewrite Em.
Qed.

Lemma chan_run_ok D w B tr w' B' : chan_run D w B tr w' B' -> chan_inv w B (queues_of D w) ->
  chan_inv w' B' (queues_of D w') /\ flows w w' tr.
Proof.
  induction 1 as [w B|w B t a n canblock rnd1 rnd2 r w1 tr w2 B2 Hc E R IH|w B w1 tr w2 B2 O R IH]; intros H.
  - split; [done|]. apply flows_same; [apply (ci_chans _ _ _ H)|done].
  - destruct (call_step _ _ _ _ _ _ _ _ _ _ _ H Hc E) as (ev & B1 & Q1 & _ & H1 & Hd & Eb & Hf). rewrite Eb in IH.
    rewrite queues_of_dom in Hd. rewrite <- (queues_of_ok D w1 Q1 (ci_queued _ _ _ H1) Hd) in H1.
    destruct (IH H1) as [H2 Hf2]. split; [done|]. by eapply flows_app.
  - destruct IH as [H2 Hf]; [by eapply chan_inv_outside|]. split; [done|].
    intros c x Hx. apply Hf. by rewrite (ou_chans _ _ _ _ _ O).
Qed.

Lemma chan_inv_queues w B Q : chan_inv w B Q -> chan_inv w B (queues_of (dom Q) w).
Proof. intros H. by rewrite (queues_of_ok _ w Q (ci_queued _ _ _ H) eq_refl). Qed.
