(* ===== verification/ChanProps.v ===== *)
(** * What channels promise

    Runs of calls of [chanalt] by any threads, with other code running in between: elements
    come out of a channel in the order in which they went in, none is lost or doubled, nobody
    waits who could be served, and a call that waited returns the alternative that executed. *)

From S2P Require Import Prelude Thread Chan ThreadRep ThreadLock ThreadQueues ChanRep ChanWait ChanExec ChanRun.

Implicit Types (w : world) (B : gmap Z (Z * Z)) (Q : gmap lid (list Z)) (x : Channel).

(** ** A whole call *)

Lemma alt_length_ok w cb n : forall fuel a,
  (forall y, a <= y < a + Z.of_nat n -> exists al, w_alts w !! y = Some al /\ (al_op al = CHANNOP \/ is_op (al_op al))) ->
  (exists e, w_alts w !! (a + Z.of_nat n) = Some e /\ al_op e = if (cb : bool) then CHANEND else CHANNOBLK) -> (n < fuel)%nat ->
  alt_length fuel a w = Done (n, if cb then CHANEND else CHANNOBLK) w.
Proof.
  induction n as [|n IH]; intros [|fuel] a Hen (e & He & Hop) Hf; [lia| |lia|]; cbn [alt_length].
  - rewrite Z.add_0_r in He. erewrite tm_bind_Done by (by apply alt_Done). rewrite Hop. by destruct cb.
  - destruct (Hen a) as (al & Hal & Ho); [lia|]. erewrite tm_bind_Done by (by apply alt_Done).
    assert ((al_op al =? CHANEND) || (al_op al =? CHANNOBLK) = false) as -> by (destruct Ho as [->|[-> | ->]]; done).
    assert (alt_length fuel (a + 1) w = Done (n, if cb then CHANEND else CHANNOBLK) w) as E; [|by erewrite tm_bind_Done by exact E].
    apply IH; [intros y Hy; apply Hen; lia| |lia].
    exists e. replace (a + 1 + Z.of_nat n) with (a + Z.of_nat (S n)) by lia. done.
Qed.

Definition owned (a : Z) (n : nat) (t : Z) (alts : gmap Z Alt) (y : Z) : option Alt :=
  if bool_decide (a <= y < a + Z.of_nat n) then (fun al => al <| al_thread := Some t |>) <$> alts !! y else alts !! y.

Lemma set_owner_ok t n : forall w a, (forall y, a <= y < a + Z.of_nat n -> is_Some (w_alts w !! y)) ->
  exists m, set_owner n a t w = Done tt (w <| w_alts := m |>) /\ forall y, m !! y = owned a n t (w_alts w) y.
Proof.
  induction n as [|n IH]; intros w a Hen.
  - exists (w_alts w). split; [done|]. intros y. unfold owned. rewrite bool_decide_eq_false_2 by lia. done.
  - destruct (Hen a) as [al Hal]; [lia|]. cbn [set_owner]. erewrite tm_bind_Done by (by apply set_alt_Done).
    destruct (IH (w <| w_alts := <[a := al <| al_thread := Some t |>]> (w_alts w) |>) (a + 1)) as (m & E & Hm).
    { intros y Hy. cbn. rewrite lookup_insert_ne by lia. apply Hen. lia. }
    exists m. split; [exact E|]. intros y. rewrite Hm. unfold owned. cbn. destruct (decide (y = a)) as [->|Hne].
    + rewrite bool_decide_eq_false_2, bool_decide_eq_true_2, lookup_insert_eq by lia. by rewrite Hal.
    + rewrite lookup_insert_ne by done. destruct (decide (a + 1 <= y < a + 1 + Z.of_nat n)).
      * rewrite !bool_decide_eq_true_2 by lia. done.
      * rewrite !bool_decide_eq_false_2 by lia. done.
Qed.

(** The state in which thread [t], running in proc [p], calls [chanalt]. *)
Record calls w B Q (p t a : Z) (n : nat) (canblock : bool) : Prop := mkCalls {
  cl_proc : exists pr, w_procs w !! p = Some pr /\ p_thread pr = Some t;
  cl_thread : exists th ts, w_threads w !! t = Some th /\ th_exiting th = false /\ Q !! (th_proc th, Runqueue) = Some ts;
  cl_idle : idle_in Q t;
  cl_out : B !! t = None;
  cl_entries : forall y, a <= y < a + Z.of_nat n -> exists al, w_alts w !! y = Some al /\
    (al_op al = CHANNOP \/ is_op (al_op al) /\
     exists c x, al_c al = Some c /\ w_chans w !! c = Some x /\ room (w_mem w) (al_v al) (c_elemsize x));
  cl_end : exists e, w_alts w !! (a + Z.of_nat n) = Some e /\ al_op e = if canblock then CHANEND else CHANNOBLK;
  cl_new : forall u lo hi y, B !! u = Some (lo, hi) -> a <= y <= a + Z.of_nat n -> ~ lo <= y <= hi;
  cl_apart : forall y al c z ao, a <= y < a + Z.of_nat n -> w_alts w !! y = Some al -> al_c al = Some c ->
    waits (w_alts w) B (otherop (al_op al)) c z -> w_alts w !! z = Some ao -> al_v al = None \/ al_v al <> al_v ao;
  cl_lock : w_qlocks w !! chanlock = Some (mkQLock None) /\ Q !! (chanlock, Waiting) = Some [] }.

(** After the preparation, with the lock: only fields of the call itself have changed. *)
Definition prepared w (t a : Z) (n : nat) w0 : Prop :=
  w_chans w0 = w_chans w /\ w_mem w0 = w_mem w /\ w_procs w0 = w_procs w /\ w_lists w0 = w_lists w /\
  (forall y, w_alts w0 !! y = owned a n t (w_alts w) y) /\
  (exists th, w_threads w !! t = Some th /\ w_threads w0 = <[t := th <| th_alt := Some a |>]> (w_threads w)) /\
  w_qlocks w0 = <[chanlock := mkQLock (Some t)]> (w_qlocks w).

Section call.
Context (w : world) (B : gmap Z (Z * Z)) (Q : gmap lid (list Z)) (p t a : Z) (n : nat) (canblock : bool).
Hypotheses (H : chan_inv w B Q) (Hc : calls w B Q p t a n canblock).

Lemma owned_outside alts u lo hi y : B !! u = Some (lo, hi) -> lo <= y <= hi -> owned a n t alts y = alts !! y.
Proof using All.
  intros Hu Hy. unfold owned. rewrite bool_decide_eq_false_2; [done|]. intros Ha. apply (cl_new _ _ _ _ _ _ _ _ Hc u lo hi y Hu); lia.
Qed.

Lemma prepared_ok w0 : prepared w t a n w0 -> chan_inv w0 B Q /\ call_ok w0 B Q t a n canblock.
Proof using All.
  intros (Ec & Em & Ep & El & Ea & (th & Hth & Et) & Eq). pose proof Hc as [_ (th' & ts & Hth' & Hex & Hk) Hid Hout Hen Hend Hnew Hap _].
  rewrite Hth in Hth'. injection Hth' as <-.
  assert (outside B w Q w0 Q) as O.
  { constructor; try done.
    - intros u lo hi y Hu Hy. rewrite Ea. by eapply owned_outside.
    - intros u lo hi y al k _ _ _. by rewrite Em.
    - intros u r Hu. rewrite Et, lookup_insert_ne by congruence. done.
    - destruct (ci_queued _ _ _ H) as [Hl Ho]. constructor; [|done]. intros k us Hus. destruct (Hl k us Hus) as (l & E & Hi).
      exists l. rewrite El, Et. split; [done|]. by apply is_list_alt.
    - intros u [lo hi] Hu. by apply (ci_blocked _ _ _ H) in Hu as (_ & _ & _ & _ & ?). }
  split; [by eapply chan_inv_outside|]. constructor; try done.
  - exists (th <| th_alt := Some a |>), ts. by rewrite Et, lookup_insert_eq.
  - intros y Hy. destruct (Hen y Hy) as (al & Hal & Ho). exists (al <| al_thread := Some t |>). split_and!.
    + rewrite Ea. unfold owned. rewrite bool_decide_eq_true_2 by lia. by rewrite Hal.
    + done.
    + rewrite Ec, Em. exact Ho.
  - destruct Hend as (e & He & Hop). exists e. rewrite Ea. unfold owned. by rewrite bool_decide_eq_false_2 by lia.
  - intros y al c z ao Hy Hal Hcc Hw Hao. rewrite Ea in Hal. unfold owned in Hal. rewrite bool_decide_eq_true_2 in Hal by lia.
    destruct (w_alts w !! y) as [al0|] eqn:E0; [|done]. injection Hal as <-. apply (waits_outside _ _ _ _ _ _ _ _ O) in Hw.
    pose proof Hw as (u & lo & hi & ao' & Hu & Hz & Hao' & _).
    rewrite Ea, (owned_outside _ u lo hi) in Hao by (done || lia). by eapply (Hap y al0 c z ao).
Qed.

Lemma chanalt_begin_ok : exists w0, chanalt_begin p a w = Done (n, canblock) w0 /\
  prepared w t a n (w0 <| w_qlocks := <[chanlock := mkQLock (Some t)]> (w_qlocks w0) |>) /\ w_qlocks w0 = w_qlocks w.
Proof using All.
  pose proof Hc as [(pr & Hp & Ht) (th & ts & Hth & _) _ _ Hen Hend _ _ _]. unfold chanalt_begin.
  assert (n < S (size (w_alts w)))%nat as Hf.
  { assert (n <= size (w_alts w))%nat; [|lia]. apply (alts_size _ a). intros y Hy. destruct (Hen y Hy) as (al & Hal & _). by exists al. }
  erewrite tm_bind_Done by done. erewrite tm_bind_Done.
  2:{ apply (alt_length_ok w canblock n); [|done|exact Hf]. intros y Hy. destruct (Hen y Hy) as (al & Hal & Ho). exists al. tauto. }
  trun. rewrite Ht. erewrite tm_bind_Done by done. cbn [fst snd].
  destruct (set_owner_ok t n w a) as (m & E & Hm). { intros y Hy. destruct (Hen y Hy) as (al & Hal & _). by exists al. }
  erewrite tm_bind_Done by exact E. trun. eexists. split; [by destruct canblock|]. split; [|done]. split_and!; try done. by exists th.
Qed.

(** The lock and the current thread do not matter to the channels. *)
Lemma chan_inv_procs w1 B1 Q1 l m :
  chan_inv w1 B1 Q1 -> chan_inv (w1 <| w_qlocks := l |>) B1 Q1 /\ chan_inv (w1 <| w_qlocks := l |> <| w_procs := m |>) B1 Q1.
Proof.
  intros H1. pose proof H1 as [Hq _ _ _ Hb _].
  assert (forall w2, w_chans w2 = w_chans w1 -> w_alts w2 = w_alts w1 -> w_mem w2 = w_mem w1 -> w_threads w2 = w_threads w1 ->
    w_lists w2 = w_lists w1 -> outside B1 w1 Q1 w2 Q1) as O.
  { intros w2 E1 E2 E3 E4 E5. constructor; try done.
    - by rewrite E2.
    - by rewrite E3.
    - by rewrite E4.
    - by eapply queued_ext.
    - intros u [lo hi] Hu. by apply Hb in Hu as (_ & _ & _ & _ & ?). }
  split; eapply chan_inv_outside; [exact H1|by apply O|exact H1|by apply O].
Qed.

Lemma answered_queue w0 w1 ev B' Q' r k :
  answered w0 B Q t a n canblock w1 ev B' Q' r -> snd k <> Runqueue -> Q' !! k = Q !! k.
Proof.
  intros A Hk. destruct A as [i al c sn rc B' Q' _ _ _ _ Hex| |]; [|done..]. destruct Hex; [done|].
  apply lookup_insert_ne. by intros <-.
Qed.

Lemma chanalt_ok rnd1 rnd2 :
  exists w0 w1 w' r ev B' Q', chanalt p a rnd1 rnd2 w = Done r w' /\
    prepared w t a n w0 /\ answered w0 B Q t a n canblock w1 ev B' Q' r /\ chan_inv w' B' Q' /\
    w_qlocks w' !! chanlock = Some (mkQLock None) /\ Q' !! (chanlock, Waiting) = Some [] /\
    w' = (match r with Blocks _ => released p | _ => id end) (w1 <| w_qlocks := <[chanlock := mkQLock None]> (w_qlocks w1) |>).
Proof using All.
  destruct chanalt_begin_ok as (wb & Eb & Hprep & Eq). set (w0 := wb <| w_qlocks := _ |>) in Hprep.
  destruct (prepared_ok w0 Hprep) as [H0 Hcall].
  destruct (chanalt_locked_ok w0 B Q t a n canblock H0 Hcall rnd1 rnd2) as (r & w1 & ev & B' & Q' & El & H1 & F & A).
  pose proof Hc as [(pr & Hp & Ht) (th & ts & Hth & Hex & _) _ _ _ _ _ _ [Hl Hlq]].
  pose proof Hprep as (_ & _ & Ep & _ & _ & (th' & Hth' & Et) & _). rewrite Hth in Hth'. injection Hth' as <-.
  destruct F as (_ & Fp & Fq & _). assert (Q' !! (chanlock, Waiting) = Some []) as Hlq' by (by rewrite (answered_queue _ _ _ _ _ _ _ A)).
  assert (w_qlocks w1 !! chanlock = Some (mkQLock (Some t))) as Hl1 by (rewrite Fq; apply lookup_insert_eq).
  set (w2 := w1 <| w_qlocks := <[chanlock := mkQLock None]> (w_qlocks w1) |>).
  assert (threadqunlock chanlock w1 = Done tt w2) as Eu by (by eapply threadqunlock_nobody; [apply (ci_queued _ _ _ H1)|..]).
  exists w0, w1, ((match r with Blocks _ => released p | _ => id end) w2), r, ev, B', Q'.
  assert (w_procs w2 !! p = Some pr) as Hp2 by (change (w_procs w1 !! p = Some pr); by rewrite Fp, Ep).
  assert (chanalt_unlock p r w1 = Done r ((match r with Blocks _ => released p | _ => id end) w2)) as Ec.
  { unfold chanalt_unlock. erewrite tm_bind_Done by exact Eu. destruct r as [i|k|k b]; [done| |done].
    inversion A; subst. erewrite tm_bind_Done; [done|].
    eapply (_threadswitch_ok _ _ pr t (th <| th_alt := Some a |>)); [exact Hp2|exact Ht| |exact Hex].
    transitivity (w_threads w0 !! t); [done|]. rewrite Et. apply lookup_insert_eq. }
  split_and!; try done.
  - unfold chanalt. erewrite tm_bind_Done by exact Eb. cbn [fst snd].
    assert (threadqlock p chanlock true wb = Done Locked w0) as Elk.
    { eapply (threadqlock_free wb p t pr); [by rewrite <- Hp, <- Ep|done|rewrite Eq; exact Hl|done]. }
    erewrite tm_bind_Done by exact Elk. cbv iota. by erewrite tm_bind_Done by exact El.
  - destruct r; [by apply (chan_inv_procs w1 B' Q' _ ∅)| |by apply (chan_inv_procs w1 B' Q' _ ∅)].
    unfold released. rewrite Hp2. by apply chan_inv_procs.
  - destruct r; cbn; rewrite ?lookup_insert_eq; try done. unfold released. rewrite Hp2. cbn. apply lookup_insert_eq.
Qed.
End call.

(** ** The theorems *)

(** C12: A thread that runs in proc [p], with the lock of the channels free and nobody waiting for
    it, calls [chanalt]: the call executes one alternative that can proceed and returns its
    index; when none can, it returns -1 if the array ends with [CHANNOBLK] and else waits, as
    [answered] says; the lock is free again, and the channels are sound again. *)
Theorem chanalt_correct w B Q p t a n canblock rnd1 rnd2 :
  chan_inv w B Q -> calls w B Q p t a n canblock ->
  exists w0 w1 w' r ev B' Q', chanalt p a rnd1 rnd2 w = Done r w' /\
    prepared w t a n w0 /\ answered w0 B Q t a n canblock w1 ev B' Q' r /\ chan_inv w' B' Q' /\
    w_qlocks w' !! chanlock = Some (mkQLock None) /\ Q' !! (chanlock, Waiting) = Some [] /\
    w' = (match r with Blocks _ => released p | _ => id end) (w1 <| w_qlocks := <[chanlock := mkQLock None]> (w_qlocks w1) |>).
Proof. intros H Hc. by apply chanalt_ok. Qed.


(** C17: In any run of the code, never do two threads wait for each other on a channel, and with a
    buffer a thread waits to send only while the buffer is full and to receive only while it is
    empty. *)
Theorem no_missed_rendezvous w B Q tr w' B' :
  chan_inv w B Q -> chan_run (dom Q) w B tr w' B' ->
  forall c x y, w_chans w' !! c = Some x ->
  (waits (w_alts w') B' CHANSND c y -> 0 < c_bufsize x -> c_nbuf x = c_bufsize x) /\
  (waits (w_alts w') B' CHANRCV c y -> 0 < c_bufsize x -> c_nbuf x = 0) /\
  (forall z t1 t2 lo1 hi1 lo2 hi2, B' !! t1 = Some (lo1, hi1) -> lo1 <= y < hi1 -> B' !! t2 = Some (lo2, hi2) -> lo2 <= z < hi2 ->
    waits (w_alts w') B' CHANSND c y -> waits (w_alts w') B' CHANRCV c z -> t1 = t2).
Proof.
  intros H R. destruct (chan_run_ok _ _ _ _ _ _ R (chan_inv_queues _ _ _ H)) as [H' _]. intros c x y Hx.
  destruct (ci_fair _ _ _ H' c x Hx) as (F1 & F2 & F3). pose proof (cw_size x (ci_chans _ _ _ H' c x Hx)).
  split_and!; [intros Hy Hb; by eapply F1|intros Hy Hb; by eapply F2|].
  intros z t1 t2 lo1 hi1 lo2 hi2 H1 Hy H2 Hz Wy Wz. destruct (decide (c_bufsize x = 0)) as [E|].
  - destruct (F3 E y z Wy Wz) as (t & lo & hi & Ht & Hy' & Hz'). transitivity t; [|symmetry]; by eapply (ci_ranges _ _ _ H').
  - specialize (F1 ltac:(lia) y Wy). specialize (F2 ltac:(lia) z Wz). lia.
Qed.

(** What it means that the alternative [al] of a call executed with the alternative [ao] of a
    thread that waited: one element goes in from the sender, and one comes out to the receiver,
    the same one unless there are others in the buffer. *)
Definition exchanged w w1 (al ao : Alt) : Prop :=
  exists c x x' v, al_c al = Some c /\ al_c ao = Some c /\ al_op ao = otherop (al_op al) /\ w_chans w !! c = Some x /\ w_chans w1 !! c = Some x' /\
    let '(from, to) := if al_op al =? CHANSND then (al, ao) else (ao, al) in
    contents x ++ [value (w_mem w) (al_v from) (c_elemsize x)] = v :: contents x' /\ w_mem w1 = delivered (w_mem w) (al_v to) v.

Lemma executed_exchanged w B Q al c w1 sn rc B1 Q1 u lo hi :
  is_op (al_op al) -> al_c al = Some c -> executed w B Q al c w1 sn rc B1 Q1 -> B !! u = Some (lo, hi) -> B1 !! u = None ->
  exists y ao th ts, lo <= y < hi /\ w_alts w !! y = Some ao /\ exchanged w w1 al ao /\ w_threads w !! u = Some th /\
    Q1 !! (th_proc th, Runqueue) = Some (ts ++ [u]) /\ core <$> w_threads w1 !! u = Some (core (th <| th_alt := Some y |>)).
Proof.
  intros Hop Hcc [_ _ _|u' lo' hi' y ao th ts Hu' Hy Hao Ho Hoc T Hth Hk Hcore _] Hu Hout; [by rewrite Hu in Hout|].
  assert (u' = u) as ->. { destruct (decide (u' = u)); [done|]. by rewrite lookup_delete_ne, Hu in Hout. }
  rewrite Hu in Hu'. injection Hu' as <- <-. specialize (Hcore u). rewrite lookup_insert_eq in Hcore.
  exists y, ao, th, ts. rewrite lookup_insert_eq. split_and!; try done; try lia.
  destruct T as (x & x' & Hx & Hx' & _ & Es & Hl & _ & Hf & Em & _). unfold sending, receiving in *. rewrite Ho in Es, Hl, Em.
  destruct Hop as [E|E]; rewrite E in Es, Hl, Em; cbn in Es, Hl, Em; destruct rc as [|v [|]]; try done; cbn in Em;
    exists c, x, x', v; rewrite E; cbn; subst sn; split_and!; try done; by rewrite <- E.
Qed.

(** C26: The code serves a thread [u] that waits with [n] alternatives, in a call of another thread
    that returns [j]: then an alternative [i] of [u] executed with the alternative [j] of the
    caller, [u] is on the run queue of its proc, and when it runs again, in whatever state, its
    own call returns [i]. *)
Theorem woken_returns w B Q t a m canblock rnd1 rnd2 r w1 u lo n :
  chan_inv w B Q -> call_ok w B Q t a m canblock -> chanalt_locked a m canblock rnd1 rnd2 w = Done r w1 ->
  B !! u = Some (lo, lo + Z.of_nat n) -> waiting_after w w1 B t a r !! u = None ->
  exists i j al ao, r = Returns j /\ 0 <= j < Z.of_nat m /\ 0 <= i < Z.of_nat n /\
    w_alts w !! (a + j) = Some al /\ w_alts w !! (lo + i) = Some ao /\ exchanged w w1 al ao /\
    (exists ts, queue_of w1 (home w u, Runqueue) = ts ++ [u]) /\
    forall p pr w2, core <$> w_threads w2 !! u = core <$> w_threads w1 !! u -> w_procs w2 !! p = Some pr -> p_thread pr = Some u ->
      chanalt_end p lo n w2 = Done i w2.
Proof.
  intros H Hc E Hu Hout. destruct (call_step _ _ _ _ _ _ _ _ _ _ _ H Hc E) as (ev & B1 & Q1 & A & H1 & _ & Eb & _). rewrite Eb in Hout.
  destruct A as [j al c sn rc B1 Q1 Hj Hal Hop Hcc Hex|_ _ _|k _ _ _ _]; [|by rewrite Hu in Hout|].
  2:{ rewrite lookup_insert_ne, Hu in Hout; [done|]. pose proof (ca_out _ _ _ _ _ _ _ Hc). congruence. }
  destruct (executed_exchanged _ _ _ _ _ _ _ _ _ _ u _ _ Hop Hcc Hex Hu Hout) as (y & ao & th & ts & Hy & Hao & Hx & Hth & Hk & Hcore1).
  exists (y - lo), j, al, ao. replace (lo + (y - lo)) with y by lia. split_and!; try done; try lia.
  - exists ts. unfold home. rewrite Hth. eapply queue_of_ok; [apply (ci_queued _ _ _ H1)|done].
  - intros p pr w2 Hcore Hp Ht. rewrite Hcore1 in Hcore. destruct (w_threads w2 !! u) as [th2|] eqn:E2; [|done]. injection Hcore as _ Halt _ _.
    unfold chanalt_end. trun. rewrite Ht. erewrite tm_bind_Done by done. trun. rewrite Halt. erewrite tm_bind_Done by done.
    destruct (Z.ltb_spec y lo), (Z.leb_spec (lo + Z.of_nat n) y); try lia. done.
Qed.

(** ** Two threads *)

(** Threads 1 and 2 in procs 10 and 20, a channel 5 without and a channel 6 with a buffer.
    Thread 1 has an array at 100: receive from channel 5; thread 2 one at 200: send on channel
    5 or 6. With [ready], both have prepared their calls. *)
Definition ex_thread (p : Z) (a : option Z) : _Thread := mkThread None None p a false false.
Definition ex_queues : gmap lid (list Z) := {[ (10, Runqueue) := []; (20, Runqueue) := []; (chanlock, Waiting) := [] ]}.

Definition ex_world (ready : bool) (second : Alt) : world :=
  let own (t : Z) := if ready then Some t else None in
  mkWorld {[ 1 := ex_thread 10 (own 100); 2 := ex_thread 20 (own 200) ]}
  {[ 10 := mkProc (Some 1) None None 1 0 true false; 20 := mkProc (Some 2) None None 1 0 false false ]}
  {[ (10, Runqueue) := mkThreadlist None None; (20, Runqueue) := mkThreadlist None None; (chanlock, Waiting) := mkThreadlist None None ]}
  {[ chanlock := mkQLock None ]} ∅ ∅
  {[ 5 := mkChannel 0 2 [] 0 0 [] []; 6 := mkChannel 2 2 [0; 0; 0; 0] 0 0 [] [] ]}
  {[ 100 := mkAlt (Some 5) (Some 50) CHANRCV (own 1); 101 := second; 102 := mkAlt None None CHANEND None;
     200 := mkAlt (Some 5) (Some 60) CHANSND (own 2); 201 := mkAlt (Some 6) None CHANSND (own 2); 202 := mkAlt None None CHANEND None ]}
  {[ 50 := [0; 0]; 60 := [7; 8] ]} [10; 20] 2 0.

Definition ex_nop := mkAlt None None CHANNOP (Some 1).

Lemma ex_waits alts op c y : ~ waits alts ∅ op c y.
Proof. intros (t & lo & hi & al & Ht & _). by rewrite lookup_empty in Ht. Qed.

Lemma ex_chan_inv b a : chan_inv (ex_world b a) ∅ ex_queues.
Proof.
  constructor.
  - constructor.
    + intros k ts Hk. unfold ex_queues in Hk. rewrite !lookup_insert_Some, lookup_singleton_Some in Hk.
      exists (mkThreadlist None None). cbn. assert (ts = []) as -> by (destruct Hk as [[_ <-]|[_ [[_ <-]|[_ [_ <-]]]]]; done).
      split; [|by split_and!; [..|apply NoDup_nil_2|]]. rewrite !lookup_insert_Some, lookup_singleton_Some. tauto.
    + intros k1 k2 ts1 ts2 t Hk _ Ht. unfold ex_queues in Hk. rewrite !lookup_insert_Some, lookup_singleton_Some in Hk.
      assert (ts1 = []) as -> by (destruct Hk as [[_ <-]|[_ [[_ <-]|[_ [_ <-]]]]]; done). by apply elem_of_nil in Ht.
  - intros c x Hx. cbn in Hx. rewrite !lookup_insert_Some, lookup_singleton_Some in Hx.
    destruct Hx as [[_ <-]|[_ [_ <-]]]; constructor; cbn; lia.
  - intros c x op ar Hx Har. cbn in Hx. rewrite !lookup_insert_Some, lookup_singleton_Some in Hx.
    assert (ar = []) as ->.
    { destruct Hx as [[_ <-]|[_ [_ <-]]]; unfold chanarray in Har; cbn in Har; destruct (op =? CHANSND), (op =? CHANRCV); congruence. }
    split; [apply NoDup_nil_2|]. intros y. split; [by intros ?%elem_of_nil|by intros ?%ex_waits].
  - intros t1 t2 l1 h1 l2 h2 y Ht. by rewrite lookup_empty in Ht.
  - intros t lo hi Ht. by rewrite lookup_empty in Ht.
  - intros c x _. split_and!; [by intros _ y ?%ex_waits..|by intros _ y z ?%ex_waits].
Qed.

Lemma chan_ex_idle t : idle_in ex_queues t.
Proof.
  intros k ts Hk. unfold ex_queues in Hk. rewrite !lookup_insert_Some, lookup_singleton_Some in Hk.
  assert (ts = []) as -> by (destruct Hk as [[_ <-]|[_ [[_ <-]|[_ [_ <-]]]]]; done). apply not_elem_of_nil.
Qed.

Lemma ex_calls : calls (ex_world false ex_nop) ∅ ex_queues 10 1 100 2 true.
Proof.
  constructor; try done.
  - by eexists.
  - by eexists _, _.
  - apply chan_ex_idle.
  - intros y Hy. assert (y = 100 \/ y = 101) as [-> | ->] by lia; (eexists; split; [reflexivity|]); [right|by left].
    split; [by right|]. exists 5. eexists. split_and!; try reflexivity. by exists [0; 0].
  - by eexists.
  - intros y al c z ao _ _ _ ?%ex_waits. done.
Qed.

Lemma chanalt_correct_witness :
  exists w0 w1 w' r ev B' Q', chanalt 10 100 0 0 (ex_world false ex_nop) = Done r w' /\
    prepared (ex_world false ex_nop) 1 100 2 w0 /\ answered w0 ∅ ex_queues 1 100 2 true w1 ev B' Q' r /\ chan_inv w' B' Q' /\
    w_qlocks w' !! chanlock = Some (mkQLock None) /\ Q' !! (chanlock, Waiting) = Some [] /\
    w' = (match r with Blocks _ => released 10 | _ => id end) (w1 <| w_qlocks := <[chanlock := mkQLock None]> (w_qlocks w1) |>).
Proof. apply (chanalt_correct (ex_world false ex_nop) ∅ ex_queues 10 1 100 2 true 0 0); [apply ex_chan_inv|apply ex_calls]. Defined.

(** Thread 1 waits, then thread 2 sends. *)
Definition ex_chans : gmap Z Channel := {[ 5 := mkChannel 0 2 [] 0 0 [] [100]; 6 := mkChannel 2 2 [0; 0; 0; 0] 0 0 [] [] ]}.
Definition ex_world1 : world := (ex_world true ex_nop) <| w_chans := ex_chans |>.
Definition chan_ex_waiting : gmap Z (Z * Z) := {[ 1 := (100, 102) ]}.

Lemma ex_call1 : call_ok (ex_world true ex_nop) ∅ ex_queues 1 100 2 true.
Proof.
  constructor; try done.
  - by eexists _, _.
  - apply chan_ex_idle.
  - intros y Hy. assert (y = 100 \/ y = 101) as [-> | ->] by lia; (eexists; split; [reflexivity|]); (split; [done|]); [right|by left].
    split; [by right|]. exists 5. eexists. split_and!; try reflexivity. by exists [0; 0].
  - by eexists.
  - intros y al c z ao _ _ _ ?%ex_waits. done.
Qed.

Lemma ex_blocks : chanalt_locked 100 2 true 0 0 (ex_world true ex_nop) = Done (Blocks 2) ex_world1.
Proof. reflexivity. Qed.

Lemma ex_inv1 : chan_inv ex_world1 chan_ex_waiting ex_queues.
Proof.
  destruct (call_step _ _ _ _ _ _ _ _ _ _ _ (ex_chan_inv true ex_nop) ex_call1 ex_blocks) as (ev & B1 & Q1 & A & H1 & _).
  inversion A; subst. done.
Qed.

Lemma ex_call2 : call_ok ex_world1 chan_ex_waiting ex_queues 2 200 2 true.
Proof.
  constructor; try done.
  - by eexists _, _.
  - apply chan_ex_idle.
  - intros y Hy. assert (y = 200 \/ y = 201) as [-> | ->] by lia; (eexists; split; [reflexivity|]); (split; [done|]); right.
    + split; [by left|]. exists 5. eexists. split_and!; try reflexivity. by exists [7; 8].
    + split; [by left|]. exists 6. eexists. by split_and!; try reflexivity.
  - by eexists.
  - intros u lo hi y Hu Hy. unfold chan_ex_waiting in Hu. apply lookup_singleton_Some in Hu as [_ [= <- <-]]. lia.
  - intros y al c z ao Hy Hal Hc (u & lo & hi & al' & Hu & Hz & Hal' & Ho & Hc') Hao.
    unfold chan_ex_waiting in Hu. apply lookup_singleton_Some in Hu as [_ [= <- <-]].
    assert (y = 200 \/ y = 201) as [-> | ->] by lia; injection Hal as <-; injection Hc as <-; [|by left].
    assert (z = 100 \/ z = 101) as [-> | ->] by lia; injection Hao as <-; [by right|]. injection Hal' as <-. done.
Qed.

Definition ex_world2 : world := Eval vm_compute in
  match chanalt_locked 200 2 true 0 0 ex_world1 with Done _ w => w | Stop _ => ex_world1 end.

Lemma ex_serves : chanalt_locked 200 2 true 0 0 ex_world1 = Done (Returns 0) ex_world2.
Proof. vm_compute. reflexivity. Qed.

(** Two bytes go from thread 2 to thread 1. *)
Definition ex_events : list chan_event := [Sent 5 [7; 8]; Received 5 (Some [7; 8])].

Lemma ex_queues_of : queues_of (dom ex_queues) (ex_world true ex_nop) = ex_queues /\ queues_of (dom ex_queues) ex_world1 = ex_queues.
Proof. split; apply queues_of_ok; done || apply (ci_queued _ _ _ (ex_chan_inv true ex_nop)) || apply (ci_queued _ _ _ ex_inv1). Qed.

(** What the two calls did, by evaluation. *)
Lemma ex_call1_did :
  call_events (ex_world true ex_nop) ex_world1 ∅ 100 (Blocks 2) = [] /\
  waiting_after (ex_world true ex_nop) ex_world1 ∅ 1 100 (Blocks 2) = chan_ex_waiting.
Proof. split; vm_compute; reflexivity. Qed.

Lemma ex_call2_did :
  call_events ex_world1 ex_world2 chan_ex_waiting 200 (Returns 0) = ex_events /\
  waiting_after ex_world1 ex_world2 chan_ex_waiting 2 200 (Returns 0) = ∅.
Proof. split; vm_compute; reflexivity. Qed.

Lemma ex_start tr w B : chan_run (dom ex_queues) ex_world1 chan_ex_waiting tr w B -> chan_run (dom ex_queues) (ex_world true ex_nop) ∅ tr w B.
Proof.
  intros R. rewrite <- (proj2 ex_call1_did) in R. change tr with ([] ++ tr). rewrite <- (proj1 ex_call1_did).
  eapply run_call; [|exact ex_blocks|exact R]. rewrite (proj1 ex_queues_of). apply ex_call1.
Qed.

Lemma ex_run1 : chan_run (dom ex_queues) (ex_world true ex_nop) ∅ [] ex_world1 chan_ex_waiting.
Proof. apply ex_start, run_end. Qed.

Lemma ex_run : chan_run (dom ex_queues) (ex_world true ex_nop) ∅ ex_events ex_world2 ∅.
Proof.
  apply ex_start. rewrite <- (app_nil_r ex_events), <- (proj1 ex_call2_did).
  eapply run_call; [|exact ex_serves|rewrite (proj2 ex_call2_did); apply run_end]. rewrite (proj2 ex_queues_of). apply ex_call2.
Qed.


Lemma no_missed_rendezvous_witness : chan_ex_waiting !! 1 = Some (100, 102) /\ waits (w_alts ex_world1) chan_ex_waiting CHANRCV 5 100 /\
  forall x y, w_chans ex_world1 !! 6 = Some x -> waits (w_alts ex_world1) chan_ex_waiting CHANSND 6 y -> 0 < c_bufsize x -> c_nbuf x = c_bufsize x.
Proof.
  split; [reflexivity|]. split; [exists 1, 100, 102; by eexists|]. intros x y Hx.
  apply (no_missed_rendezvous _ _ _ [] ex_world1 chan_ex_waiting (ex_chan_inv true ex_nop) ex_run1); exact Hx.
Defined.

Lemma woken_returns_witness : exists i j al ao, Returns 0 = Returns j /\ 0 <= j < 2 /\ 0 <= i < 2 /\
    w_alts ex_world1 !! (200 + j) = Some al /\ w_alts ex_world1 !! (100 + i) = Some ao /\ exchanged ex_world1 ex_world2 al ao /\
    (exists ts, queue_of ex_world2 (home ex_world1 1, Runqueue) = ts ++ [1]) /\
    forall p pr w2, core <$> w_threads w2 !! 1 = core <$> w_threads ex_world2 !! 1 -> w_procs w2 !! p = Some pr -> p_thread pr = Some 1 ->
      chanalt_end p 100 2 w2 = Done i w2.
Proof. exact (woken_returns ex_world1 chan_ex_waiting ex_queues 2 200 2 true 0 0 (Returns 0) ex_world2 1 100 2 ex_inv1 ex_call2 ex_serves eq_refl eq_refl). Defined.

(** A call that may not wait and finds nothing to do returns -1, not the index of the entry
    [CHANNOBLK], which is 1 here. *)
Theorem alt_noblk_returns :
  let w := (ex_world true ex_nop) <| w_alts := <[101 := mkAlt None None CHANNOBLK None]> (w_alts (ex_world true ex_nop)) |> in
  match chanalt 10 100 0 0 w with Done r _ => r = Returns (-1) | _ => False end.
Proof. reflexivity. Qed.

(** A nil channel is never ready and is not queued; but taking the alternatives of a thread
    back reads through it. Thread 1 receives from channel 5 or sends on no channel; the send
    of thread 2 on channel 5 then crashes. *)
Theorem alt_nil_channel :
  let w := ex_world true (mkAlt None None CHANSND (Some 1)) in
  match chanalt_locked 100 2 true 0 0 w with Done r w1 => r = Blocks 2 /\ chanalt_locked 200 2 true 0 0 w1 = Stop Crash | _ => False end.
Proof. split; reflexivity. Qed.
