(* ===== verification/RwlockProps.v ===== *)
(** * Locks for readers and writers

    The lock [RWLock] against its specification: who holds it, for reading or for writing, and
    who waits, in which order. *)

From S2P Require Import Prelude Thread ThreadRep ThreadLock.

Implicit Types (w : world) (Q : gmap lid (list Z)).

(** ** The specification *)

Record rwspec := mkRw { rs_readers : list Z; rs_writer : option Z; rs_rwait : list Z; rs_wwait : list Z }.

Inductive rwop := RLock | CanRLock | WLock | CanWLock | RUnlock | WUnlock.

Definition remove1 (t : Z) (l : list Z) : list Z :=
  match list_find (eq t) l with Some (i, _) => delete i l | None => l end.

(** The first writer that waits gets a lock that nobody holds. *)
Definition to_writer (s : rwspec) : rwspec * list Z :=
  match rs_readers s, rs_wwait s with
  | [], u :: ws => (mkRw [] (Some u) (rs_rwait s) ws, [u])
  | _, _ => (s, [])
  end.

(** What a call by thread [t] returns, the state then, and the threads that are made ready; a
    thread unlocks only what it holds. *)
Definition rw_spec (t : Z) (op : rwop) (s : rwspec) : option (option lockres * rwspec * list Z) :=
  match op with
  | RLock | CanRLock =>
    match rs_writer s, rs_wwait s with
    | None, [] => Some (Some Locked, mkRw (t :: rs_readers s) None (rs_rwait s) [], [])
    | _, _ =>
      match op with
      | RLock => Some (Some Waits, mkRw (rs_readers s) (rs_writer s) (rs_rwait s ++ [t]) (rs_wwait s), [])
      | _ => Some (Some Refused, s, [])
      end
    end
  | WLock | CanWLock =>
    match rs_writer s, rs_readers s with
    | None, [] => Some (Some Locked, mkRw [] (Some t) (rs_rwait s) (rs_wwait s), [])
    | _, _ =>
      match op with
      | WLock => Some (Some Waits, mkRw (rs_readers s) (rs_writer s) (rs_rwait s) (rs_wwait s ++ [t]), [])
      | _ => Some (Some Refused, s, [])
      end
    end
  | RUnlock =>
    if decide (t ∈ rs_readers s) then
      let '(s', woken) := to_writer (mkRw (remove1 t (rs_readers s)) (rs_writer s) (rs_rwait s) (rs_wwait s)) in
      Some (None, s', woken)
    else None
  | WUnlock =>
    if decide (rs_writer s = Some t) then
      let '(s', woken) := to_writer (mkRw (rs_rwait s) None [] (rs_wwait s)) in Some (None, s', rs_rwait s ++ woken)
    else None
  end.

(** A writer excludes readers, and nobody waits for a lock that he could have. *)
Definition rw_ok (s : rwspec) : Prop :=
  (rs_writer s <> None -> rs_readers s = []) /\
  (rs_writer s = None -> rs_readers s = [] -> rs_wwait s = []) /\
  (rs_writer s = None -> rs_wwait s = [] -> rs_rwait s = []).

Lemma to_writer_ok s : rs_writer s = None -> rs_rwait s = [] \/ rs_wwait s <> [] -> rw_ok (fst (to_writer s)).
Proof.
  intros Hw Hr. unfold to_writer, rw_ok. destruct s as [rd wr rw ww]. cbn in *. subst.
  destruct rd, ww; cbn; split_and!; try done; intros; destruct Hr; done.
Qed.

Lemma remove1_length t l : t ∈ l -> S (length (remove1 t l)) = length l.
Proof.
  intros Ht. unfold remove1. destruct (list_find_elem_of (eq t) l t Ht eq_refl) as [[i u] E]. rewrite E.
  apply list_find_Some in E as (Hi & _). apply lookup_lt_Some in Hi as Hl. rewrite length_delete; [lia|]. by exists u.
Qed.

Lemma rw_spec_ok t op s r s' woken : rw_ok s -> rw_spec t op s = Some (r, s', woken) -> rw_ok s'.
Proof.
  intros (H1 & H2 & H3) E. destruct s as [rd wr rw ww]. cbn in *. destruct op; cbn in E.
  - destruct wr, ww; injection E as <- <- <-; unfold rw_ok; cbn in *; split_and!; intros; try done; auto; by destruct ww.
  - destruct wr, ww; injection E as <- <- <-; unfold rw_ok; cbn in *; split_and!; intros; try done; auto; by destruct ww.
  - destruct wr, rd; injection E as <- <- <-; unfold rw_ok; cbn in *; split_and!; intros; try done; auto; by destruct ww.
  - destruct wr, rd; injection E as <- <- <-; unfold rw_ok; cbn in *; split_and!; intros; try done; auto; by destruct ww.
  - destruct (decide (t ∈ rd)) as [Hin|]; [|done]. destruct (to_writer _) as [s1 wk] eqn:Ew. injection E as <- <- <-.
    change s1 with (fst (s1, wk)). rewrite <- Ew. assert (wr = None) as ->.
    { destruct wr; [|done]. rewrite H1 in Hin by done. by apply elem_of_nil in Hin. }
    apply to_writer_ok; [done|]. cbn. destruct ww; [left; auto|by right].
  - destruct (decide (wr = Some t)) as [->|]; [|done]. destruct (to_writer _) as [s1 wk] eqn:Ew. injection E as <- <- <-.
    change s1 with (fst (s1, wk)). rewrite <- Ew. by apply to_writer_ok; [|left].
Qed.

(** ** The code *)

Definition rw_exec (p l : Z) (op : rwop) : tm (option lockres) :=
  match op with
  | RLock => r ← threadrlock p l true; mret (Some r)
  | CanRLock => r ← threadrlock p l false; mret (Some r)
  | WLock => r ← threadwlock p l true; mret (Some r)
  | CanWLock => r ← threadwlock p l false; mret (Some r)
  | RUnlock => threadrunlock l;; mret None
  | WUnlock => threadwunlock l;; mret None
  end.

(** The lock at [l] is in the state [s]. *)
Definition rw_rep w Q (l : Z) (s : rwspec) : Prop :=
  w_rwlocks w !! l = Some (mkRWLock (len (rs_readers s)) (rs_writer s)) /\
  Q !! (l, Rwaiting) = Some (rs_rwait s) /\ Q !! (l, Wwaiting) = Some (rs_wwait s).

Lemma rwlock_Done l w x : w_rwlocks w !! l = Some x -> rwlock_at l w = Done x w.
Proof. unfold rwlock_at. by intros ->. Qed.
Lemma set_rwlock_Done l f w x :
  w_rwlocks w !! l = Some x -> set_rwlock l f w = Done tt (w <| w_rwlocks := <[l := f x]> (w_rwlocks w) |>).
Proof. unfold set_rwlock. by intros ->. Qed.

(** Links and the lock [l] have changed, and nothing else. *)
Definition rw_changed (l : Z) w w' : Prop :=
  (forall u, core <$> w_threads w' !! u = core <$> w_threads w !! u) /\
  (exists x, w' = w <| w_rwlocks := <[l := x]> (w_rwlocks w) |> <| w_threads := w_threads w' |> <| w_lists := w_lists w' |>).

Lemma relinked_changed l w w' x : w_rwlocks w !! l = Some x -> relinked w w' -> rw_changed l w w'.
Proof. intros Hx [C E]. split; [done|]. exists x. by rewrite (insert_id (w_rwlocks w)) by done. Qed.

Lemma rw_changed_trans l w1 w2 w3 : rw_changed l w1 w2 -> rw_changed l w2 w3 -> rw_changed l w1 w3.
Proof.
  intros [C1 [x1 E1]] [C2 [x2 E2]]. split; [intros u; by rewrite C2|]. exists x2. rewrite E2.
  assert (w_rwlocks w2 = <[l := x1]> (w_rwlocks w1)) as -> by (by rewrite E1). rewrite insert_insert_eq. rewrite E1 at 1. done.
Qed.

Lemma set_changed l w f x : w_rwlocks w !! l = Some x -> rw_changed l w (w <| w_rwlocks := <[l := f x]> (w_rwlocks w) |>).
Proof. intros Hx. split; [done|]. by eexists. Qed.

Lemma changed_home l w w' : rw_changed l w w' -> forall t, home w' t = home w t.
Proof.
  intros [C _] t. specialize (C t). unfold home. destruct (w_threads w !! t), (w_threads w' !! t); try done. by injection C.
Qed.

(** The first thread of a queue is taken off, the lock is changed, and the thread is made ready. *)
Lemma wake_set w Q k t ts l f x :
  queued w Q -> homes w Q -> Q !! k = Some (t :: ts) -> snd k <> Runqueue -> w_rwlocks w !! l = Some x ->
  exists w1 w2 w', delthread k t w = Done tt w1 /\ set_rwlock l f w1 = Done tt w2 /\ _threadready t w2 = Done tt w' /\
    queued w' (made_ready (home w) [t] (<[k := ts]> Q)) /\ homes w' (made_ready (home w) [t] (<[k := ts]> Q)) /\
    w_rwlocks w' !! l = Some (f x) /\ rw_changed l w w'.
Proof.
  intros H Hh Hk Hne Hx. destruct (queued_thread w Q k _ t H Hk) as [th Hth]; [by left|]. destruct (Hh t th Hth) as [us Hus].
  destruct (delthread_ok w Q k [] t ts H Hk) as (w1 & E1 & H1 & R1 & Hid). cbn [app] in *.
  destruct (relinked_thread _ _ _ _ R1 Hth) as (th1 & Hth1 & Hc). injection Hc as Hp _ _ _.
  assert (w_rwlocks w1 !! l = Some x) as Hx1 by (destruct R1 as [_ ->]; exact Hx).
  set (w2 := w1 <| w_rwlocks := <[l := f x]> (w_rwlocks w1) |>).
  assert (<[k := ts]> Q !! (th_proc th1, Runqueue) = Some us) as Hus1 by (rewrite Hp, lookup_insert_ne; [done|by intros ->]).
  destruct (_threadready_ok w2 (<[k := ts]> Q) t th1 us) as (w' & E' & H' & R'); [by eapply queued_ext; [..|exact H1]|done|done|done|].
  assert (made_ready (home w) [t] (<[k := ts]> Q) = <[(th_proc th1, Runqueue) := us ++ [t]]> (<[k := ts]> Q)) as EQ.
  { cbn. unfold home. rewrite Hth, <- Hp. symmetry. by apply (insert_alter _ _ us (fun us => us ++ [t])). }
  exists w1, w2, w'. rewrite EQ. split_and!; try done.
  - by apply set_rwlock_Done.
  - eapply relinked_homes; [exact R'|]. assert (homes w1 Q) as Hh1 by (by eapply relinked_homes).
    eapply (homes_more w2 Q); [|exact Hh1]. intros j Hj. by do 2 apply insert_more.
  - destruct R' as [_ ->]. cbn. apply lookup_insert_eq.
  - eapply rw_changed_trans; [by eapply relinked_changed|]. eapply rw_changed_trans; [by eapply set_changed|].
    eapply relinked_changed; [|exact R']. apply lookup_insert_eq.
Qed.

Lemma grant_writer_ok w Q l s :
  queued w Q -> homes w Q -> rw_rep w Q l s ->
  let '(s', wk) := to_writer s in
  exists w', grant_writer l w = Done tt w' /\ let Q' := made_ready (home w) wk (<[(l, Wwaiting) := rs_wwait s']> Q) in
    queued w' Q' /\ homes w' Q' /\ rw_rep w' Q' l s' /\ rw_changed l w w'.
Proof.
  intros H Hh (Hl & Hr & Hw). unfold grant_writer. erewrite tm_bind_Done by (by apply rwlock_Done).
  destruct (tlist_head _ _ _ _ H Hw) as (y & Ey & Hy). erewrite tm_bind_Done by exact Ey. rewrite Hy.
  destruct s as [rd wr rw ww]. unfold to_writer. cbn [rs_readers rs_writer rs_rwait rs_wwait rw_readers] in *.
  destruct ww as [|u ws]; cbn [head]; [|destruct rd as [|v rd]; cbn [length Z.of_nat]].
  - assert (<[(l, Wwaiting) := []]> Q = Q) as EQ by (by apply insert_id).
    destruct rd; exists w; cbn [made_ready foldl rs_wwait]; rewrite EQ; split_and!; try done; by eapply relinked_changed.
  - destruct (wake_set w Q (l, Wwaiting) u ws l (fun x => x <| rw_writer := Some u |>) (mkRWLock 0 wr) H Hh Hw) as (w1 & w2 & w' & E1 & E2 & E3 & H' & Hh' & Hx' & C);
      [done|exact Hl|].
    exists w'. split_and!; try done.
    + change (Z.of_nat 0 =? 0) with true. cbv iota. erewrite tm_bind_Done by exact E1. by erewrite tm_bind_Done by exact E2.
    + split_and!; [exact Hx'|..]; cbn [rs_rwait rs_wwait]; rewrite made_ready_ne by done.
      * by rewrite lookup_insert_ne.
      * apply lookup_insert_eq.
  - exists w. cbn [made_ready foldl rs_wwait]. rewrite (insert_id Q) by done.
    destruct (Z.eqb_spec (Z.pos (Pos.of_succ_nat (length rd))) 0); [done|]. split_and!; try done. by eapply relinked_changed.
Qed.

Lemma grant_readers_ok l rw : forall fuel w Q rd wr ww,
  queued w Q -> homes w Q -> rw_rep w Q l (mkRw rd wr rw ww) -> (length rw < fuel)%nat ->
  exists w', grant_readers fuel l w = Done tt w' /\ let Q' := made_ready (home w) rw (<[(l, Rwaiting) := []]> Q) in
    queued w' Q' /\ homes w' Q' /\ rw_rep w' Q' l (mkRw (rd ++ rw) wr [] ww) /\ rw_changed l w w'.
Proof.
  induction rw as [|t rw IH]; intros [|fuel] w Q rd wr ww H Hh (Hl & Hr & Hw) Hf; cbn in Hf; try lia; cbn [grant_readers];
    cbn [rs_readers rs_writer rs_rwait rs_wwait] in *;
    destruct (tlist_head _ _ _ _ H Hr) as (y & Ey & Hy); erewrite tm_bind_Done by exact Ey; rewrite Hy; cbn [head].
  - exists w. cbn [made_ready foldl]. rewrite app_nil_r, (insert_id Q) by done. split_and!; try done. by eapply relinked_changed.
  - destruct (wake_set w Q (l, Rwaiting) t rw l (fun x => x <| rw_readers := rw_readers x + 1 |>) (mkRWLock (len rd) wr) H Hh Hr)
      as (w1 & w2 & w3 & E1 & E2 & E3 & H3 & Hh3 & Hx3 & C3); [done|exact Hl|].
    erewrite tm_bind_Done by exact E1. erewrite tm_bind_Done by exact E2. erewrite tm_bind_Done by exact E3.
    destruct (IH fuel w3 _ (rd ++ [t]) wr ww H3 Hh3) as (w' & E & H' & Hh' & Hrep & C); [|lia|].
    { split_and!; cbn [rs_readers rs_writer rs_rwait rs_wwait].
      - rewrite Hx3. assert (len (rd ++ [t]) = len rd + 1) as -> by (rewrite length_app; cbn; lia). done.
      - by rewrite made_ready_ne, lookup_insert_eq.
      - by rewrite made_ready_ne, lookup_insert_ne. }
    exists w'. split; [exact E|]. cbv zeta in *.
    rewrite (made_ready_ext _ (home w)) in H', Hh', Hrep by (by eapply changed_home).
    rewrite <- made_ready_insert, insert_insert_eq, <- made_ready_app in H', Hh', Hrep by done. rewrite <- app_assoc in Hrep.
    split_and!; try apply Hrep; try done. by eapply rw_changed_trans.
Qed.

(** ** Refinement *)

(** The queues after an operation. *)
Definition rw_queues w Q (l : Z) (s' : rwspec) (woken : list Z) : gmap lid (list Z) :=
  made_ready (home w) woken (<[(l, Rwaiting) := rs_rwait s']> (<[(l, Wwaiting) := rs_wwait s']> Q)).

Section refine.
Context (w : world) (Q : gmap lid (list Z)) (l p t : Z) (s : rwspec).
Hypotheses (H : queued w Q) (Hh : homes w Q) (Hpr : procs_ok w) (Hrep : rw_rep w Q l s) (Hrun : running w Q p t).

(** What is to be shown of a call that returns [r]. *)
Definition rw_done (op : rwop) (r : option lockres) (s' : rwspec) (woken : list Z) : Prop :=
  exists w', rw_exec p l op w = Done r w' /\ let Q' := rw_queues w Q l s' woken in queued w' Q' /\ homes w' Q' /\ rw_rep w' Q' l s'.

Lemma rw_same_queues s' : rs_rwait s' = rs_rwait s -> rs_wwait s' = rs_wwait s -> rw_queues w Q l s' [] = Q.
Proof using All.
  destruct Hrep as (_ & Hr & Hw). intros E1 E2. unfold rw_queues. rewrite E1, E2. cbn. by rewrite (insert_id Q), insert_id.
Qed.

(** The lock changes and no queue does. *)
Lemma rw_set_only op r s' x :
  rs_rwait s' = rs_rwait s -> rs_wwait s' = rs_wwait s -> x = mkRWLock (len (rs_readers s')) (rs_writer s') ->
  rw_exec p l op w = Done r (w <| w_rwlocks := <[l := x]> (w_rwlocks w) |>) -> rw_done op r s' [].
Proof using All.
  intros E1 E2 -> E. eexists. split; [exact E|]. rewrite rw_same_queues by done. destruct Hrep as (_ & Hr & Hw).
  split_and!; [by eapply queued_ext; [..|exact H]|done|]. split_and!; [apply lookup_insert_eq|by rewrite E1|by rewrite E2].
Qed.

Lemma rw_refused op : rw_exec p l op w = Done (Some Refused) w -> rw_done op (Some Refused) s [].
Proof using All. intros E. exists w. rewrite rw_same_queues by done. by split_and!. Qed.

Lemma rw_waits_reading (m : tm lockres) s' :
  m w = wait_on p (l, Rwaiting) w -> s' = mkRw (rs_readers s) (rs_writer s) (rs_rwait s ++ [t]) (rs_wwait s) ->
  if single w then (r ← m; mret (Some r)) w = Stop Abort
  else exists w', (r ← m; mret (Some r)) w = Done (Some Waits) w' /\
    let Q' := rw_queues w Q l s' [] in queued w' Q' /\ homes w' Q' /\ rw_rep w' Q' l s'.
Proof using All.
  intros Em ->. destruct Hrep as (Hl & Hr & Hw). pose proof (waits_ok w Q p t _ _ H Hh Hpr Hrun Hr) as Hwt.
  destruct (single w); [unfold mbind, tm_bind; by rewrite Em, Hwt|]. destruct Hwt as (w' & E & H' & Hh' & Erw & _).
  exists w'. unfold rw_queues. cbn. rewrite (insert_id Q) by done. split_and!; try done.
  - erewrite tm_bind_Done; [done|]. by rewrite Em.
  - split_and!; [by rewrite Erw|apply lookup_insert_eq|by rewrite lookup_insert_ne].
Qed.

Lemma rw_waits_writing (m : tm lockres) s' :
  m w = wait_on p (l, Wwaiting) w -> s' = mkRw (rs_readers s) (rs_writer s) (rs_rwait s) (rs_wwait s ++ [t]) ->
  if single w then (r ← m; mret (Some r)) w = Stop Abort
  else exists w', (r ← m; mret (Some r)) w = Done (Some Waits) w' /\
    let Q' := rw_queues w Q l s' [] in queued w' Q' /\ homes w' Q' /\ rw_rep w' Q' l s'.
Proof using All.
  intros Em ->. destruct Hrep as (Hl & Hr & Hw). pose proof (waits_ok w Q p t _ _ H Hh Hpr Hrun Hw) as Hwt.
  destruct (single w); [unfold mbind, tm_bind; by rewrite Em, Hwt|]. destruct Hwt as (w' & E & H' & Hh' & Erw & _).
  exists w'. unfold rw_queues. cbn. rewrite (insert_id (<[(l, Wwaiting) := _]> Q)) by (by rewrite lookup_insert_ne). split_and!; try done.
  - erewrite tm_bind_Done; [done|]. by rewrite Em.
  - split_and!; [by rewrite Erw|by rewrite lookup_insert_ne|apply lookup_insert_eq].
Qed.

(** What each function reads first. *)
Lemma threadrlock_eq block : threadrlock p l block w =
  match rs_writer s, rs_wwait s with
  | None, [] => Done Locked (w <| w_rwlocks := <[l := mkRWLock (len (rs_readers s) + 1) None]> (w_rwlocks w) |>)
  | _, _ => (if block then wait_on p (l, Rwaiting) else mret Refused) w
  end.
Proof using H Hrep.
  destruct Hrep as (Hl & Hr & Hw). unfold threadrlock. erewrite tm_bind_Done by (by apply rwlock_Done).
  destruct (tlist_head _ _ _ _ H Hw) as (y & Ey & Hy). erewrite tm_bind_Done by exact Ey. rewrite Hy.
  change (rw_writer (mkRWLock (len (rs_readers s)) (rs_writer s))) with (rs_writer s).
  destruct (rs_writer s) as [u|] eqn:Ew, (rs_wwait s) as [|v ws]; try done. cbn [head]. by erewrite tm_bind_Done by (by apply set_rwlock_Done).
Qed.

Lemma threadwlock_eq block : threadwlock p l block w =
  match rs_writer s, rs_readers s with
  | None, [] => Done Locked (w <| w_rwlocks := <[l := mkRWLock 0 (Some t)]> (w_rwlocks w) |>)
  | _, _ => (if block then wait_on p (l, Wwaiting) else mret Refused) w
  end.
Proof using H Hrep Hrun.
  destruct Hrep as (Hl & Hr & Hw). destruct Hrun as (x & th & Hp & Ht & _). unfold threadwlock. erewrite tm_bind_Done by (by apply rwlock_Done).
  change (rw_writer (mkRWLock (len (rs_readers s)) (rs_writer s))) with (rs_writer s).
  change (rw_readers (mkRWLock (len (rs_readers s)) (rs_writer s))) with (len (rs_readers s)).
  destruct (rs_writer s) as [u|] eqn:Ew, (rs_readers s) as [|v rd] eqn:Er; try done.
  change (len [] =? 0) with true. cbv iota. unfold threadnow. erewrite tm_bind_Done by (by erewrite tm_bind_Done by (by apply proc_Done)).
  rewrite Ht. by erewrite tm_bind_Done by (by apply set_rwlock_Done).
Qed.

Lemma runlock_done s' woken : rw_spec t RUnlock s = Some (None, s', woken) -> rw_done RUnlock None s' woken.
Proof using All.
  cbn [rw_spec]. destruct (decide (t ∈ rs_readers s)) as [Hin|]; [|done]. destruct (to_writer _) as [s1 wk] eqn:Ew.
  intros [= <- <-]. pose proof Hrep as (Hl & Hr & Hw). set (s0 := mkRw _ _ _ _) in Ew.
  set (w0 := w <| w_rwlocks := <[l := mkRWLock (len (rs_readers s) - 1) (rs_writer s)]> (w_rwlocks w) |>).
  assert (rw_rep w0 Q l s0) as Hrep0.
  { split_and!; [|done|done]. assert (len (rs_readers s0) = len (rs_readers s) - 1) as ->; [|apply lookup_insert_eq].
    pose proof (remove1_length t _ Hin) as El. change (rs_readers s0) with (remove1 t (rs_readers s)). clear -El. lia. }
  pose proof (grant_writer_ok w0 Q l s0) as Hg. rewrite Ew in Hg.
  destruct Hg as (w' & E & H' & Hh' & Hr' & _); [by eapply queued_ext; [..|exact H]|done|done|].
  assert (rs_rwait s1 = rs_rwait s) as Er.
  { unfold to_writer in Ew. subst s0. cbn in Ew. destruct (remove1 _ _), (rs_wwait s); by injection Ew as <- _. }
  exists w'. unfold rw_queues. rewrite (insert_insert_ne Q), Er, (insert_id Q) by done. split_and!; try done.
  cbn [rw_exec]. erewrite tm_bind_Done; [done|]. unfold threadrunlock. erewrite tm_bind_Done by (by apply set_rwlock_Done). exact E.
Qed.

Lemma wunlock_done s' woken : rw_ok s -> rw_spec t WUnlock s = Some (None, s', woken) -> rw_done WUnlock None s' woken.
Proof using All.
  intros (Hex & _). cbn [rw_spec]. destruct (decide (rs_writer s = Some t)) as [Hwr|]; [|done]. destruct (to_writer _) as [s1 wk] eqn:Ew.
  intros [= <- <-]. pose proof Hrep as (Hl & Hr & Hw). rewrite Hwr in Hex, Hl. rewrite (Hex ltac:(done)) in Hl.
  set (w0 := w <| w_rwlocks := <[l := mkRWLock 0 None]> (w_rwlocks w) |>).
  assert (rw_rep w0 Q l (mkRw [] None (rs_rwait s) (rs_wwait s))) as Hrep0 by (split_and!; [apply lookup_insert_eq|done|done]).
  pose proof (queue_size _ _ _ _ H Hr) as Hsz.
  destruct (grant_readers_ok l (rs_rwait s) (S (size (w_threads w0))) w0 Q [] None (rs_wwait s)) as (w1 & E1 & H1 & Hh1 & Hr1 & C1);
    [by eapply queued_ext; [..|exact H]|done|done|apply Nat.lt_succ_r; exact Hsz|]. cbn [app] in Hr1.
  pose proof (grant_writer_ok w1 _ l _ H1 Hh1 Hr1) as Hg. rewrite Ew in Hg. destruct Hg as (w' & E & H' & Hh' & Hr' & _).
  assert (rs_rwait s1 = []) as Er. { unfold to_writer in Ew. cbn in Ew. destruct (rs_rwait s), (rs_wwait s); by injection Ew as <- _. }
  assert (made_ready (home w1) wk (<[(l, Wwaiting) := rs_wwait s1]> (made_ready (home w0) (rs_rwait s) (<[(l, Rwaiting) := []]> Q)))
    = rw_queues w Q l s1 (rs_rwait s ++ wk)) as EQ.
  { unfold rw_queues. rewrite Er, made_ready_app, <- (made_ready_insert (home w0)), (insert_insert_ne Q) by done.
    rewrite (made_ready_ext (home w1) (home w)); [done|]. intros u. by rewrite (changed_home _ _ _ C1). }
  rewrite EQ in *. exists w'. split_and!; try done.
  assert ((grant_readers (S (size (w_threads w0))) l;; grant_writer l) w0 = Done tt w') as Eg by (by erewrite tm_bind_Done by exact E1).
  cbn [rw_exec]. erewrite tm_bind_Done; [done|]. unfold threadwunlock. erewrite tm_bind_Done by (by apply set_rwlock_Done).
  erewrite tm_bind_Done by (apply rwlock_Done, lookup_insert_eq). exact Eg.
Qed.

Lemma rw_refines_ok op r s' woken :
  rw_ok s -> rw_spec t op s = Some (r, s', woken) ->
  if match r with Some Waits => single w | _ => false end then rw_exec p l op w = Stop Abort else rw_done op r s' woken.
Proof using All.
  intros Hok E. destruct op; cbn [rw_spec] in E.
  - pose proof (threadrlock_eq true) as El. destruct (rs_writer s) eqn:Ew, (rs_wwait s) eqn:Eq; injection E as <- <- <-.
    3:{ eapply rw_set_only; [done..|reflexivity|]. cbn [rw_exec]. erewrite tm_bind_Done by exact El.
        assert (len (rs_readers s) + 1 = len (t :: rs_readers s)) as -> by (cbn [length]; lia). done. }
    all: eapply rw_waits_reading; [exact El|by rewrite Ew, Eq].
  - pose proof (threadrlock_eq false) as El. destruct (rs_writer s) eqn:Ew, (rs_wwait s) eqn:Eq; injection E as <- <- <-.
    3:{ eapply rw_set_only; [done..|reflexivity|]. cbn [rw_exec]. erewrite tm_bind_Done by exact El.
        assert (len (rs_readers s) + 1 = len (t :: rs_readers s)) as -> by (cbn [length]; lia). done. }
    all: apply rw_refused; cbn [rw_exec]; by erewrite tm_bind_Done by exact El.
  - pose proof (threadwlock_eq true) as El. destruct (rs_writer s) eqn:Ew, (rs_readers s) eqn:Eq; injection E as <- <- <-.
    3:{ eapply rw_set_only; [done|done|reflexivity|]. cbn [rw_exec]. by erewrite tm_bind_Done by exact El. }
    all: eapply rw_waits_writing; [exact El|by rewrite Ew, Eq].
  - pose proof (threadwlock_eq false) as El. destruct (rs_writer s) eqn:Ew, (rs_readers s) eqn:Eq; injection E as <- <- <-.
    3:{ eapply rw_set_only; [done|done|reflexivity|]. cbn [rw_exec]. by erewrite tm_bind_Done by exact El. }
    all: apply rw_refused; cbn [rw_exec]; by erewrite tm_bind_Done by exact El.
  - assert (r = None) as ->. { destruct (decide (t ∈ rs_readers s)); [|done]. destruct (to_writer _). by injection E as <- _ _. }
    by apply runlock_done.
  - assert (r = None) as ->. { destruct (decide (rs_writer s = Some t)); [|done]. destruct (to_writer _). by injection E as <- _ _. }
    by apply wunlock_done.
Qed.
End refine.

(** ** The theorems *)

(** C31: Every operation of a running thread on the lock returns what the specification returns,
    changes the lock and its queues as it says, and makes exactly the threads ready that got
    the lock; only waiting with no other thread is a deadlock and aborts. The new state again
    excludes readers and writers from each other and keeps nobody waiting for a free lock. *)
Theorem rwlock_refines w Q l p t s op r s' woken :
  queued w Q -> homes w Q -> procs_ok w -> rw_rep w Q l s -> running w Q p t -> rw_ok s -> rw_spec t op s = Some (r, s', woken) ->
  rw_ok s' /\
  if match r with Some Waits => single w | _ => false end then rw_exec p l op w = Stop Abort
  else exists w', rw_exec p l op w = Done r w' /\
    let Q' := rw_queues w Q l s' woken in queued w' Q' /\ homes w' Q' /\ rw_rep w' Q' l s'.
Proof. intros H Hh Hpr Hrep Hrun Hok E. split; [by eapply rw_spec_ok|by apply (rw_refines_ok w Q l p t s)]. Qed.

(** Runs: operations of running threads on the lock at [l], each unlocking only what it holds,
    and code that leaves this lock and its queues alone. *)
Inductive rw_run (l : Z) : world -> gmap lid (list Z) -> rwspec -> world -> gmap lid (list Z) -> rwspec -> Prop :=
| rw_end w Q s : rw_run l w Q s w Q s
| rw_op w Q s p t op r s1 woken r' w1 w2 Q2 s2 :
    procs_ok w -> running w Q p t -> rw_spec t op s = Some (r, s1, woken) -> rw_exec p l op w = Done r' w1 ->
    rw_run l w1 (rw_queues w Q l s1 woken) s1 w2 Q2 s2 -> rw_run l w Q s w2 Q2 s2
| rw_other w Q s w1 Q1 w2 Q2 s2 :
    queued w1 Q1 -> homes w1 Q1 -> w_rwlocks w1 !! l = w_rwlocks w !! l ->
    Q1 !! (l, Rwaiting) = Q !! (l, Rwaiting) -> Q1 !! (l, Wwaiting) = Q !! (l, Wwaiting) ->
    rw_run l w1 Q1 s w2 Q2 s2 -> rw_run l w Q s w2 Q2 s2.

Lemma rw_run_inv l w Q s w' Q' s' : rw_run l w Q s w' Q' s' ->
  queued w Q -> homes w Q -> rw_rep w Q l s -> rw_ok s -> rw_rep w' Q' l s' /\ rw_ok s'.
Proof.
  induction 1 as [w Q s|w Q s p t op r s1 woken r' w1 w2 Q2 s2 Hpr Hrun E Ex R IH|w Q s w1 Q1 w2 Q2 s2 Hq Hho El Er Ew R IH];
    intros H Hh Hrep Hok; [done| |].
  - pose proof (rw_refines_ok w Q l p t s H Hh Hpr Hrep Hrun op r s1 woken Hok E) as Hr.
    destruct (match r with Some Waits => single w | _ => false end); [by rewrite Ex in Hr|].
    destruct Hr as (w3 & E3 & H3 & Hh3 & Hr3). rewrite Ex in E3. injection E3 as <- <-.
    apply IH; try done. by eapply rw_spec_ok.
  - apply IH; try done. destruct Hrep as (? & ? & ?). split_and!; congruence.
Qed.

(** C14: In every state of a run: a lock that has a writer has no readers, and if it has neither,
    nobody waits for it; readers wait only for a writer who has it or waits for it. *)
Theorem rwlock_exclusion l w Q s w' Q' s' x :
  queued w Q -> homes w Q -> rw_rep w Q l s -> rw_ok s -> rw_run l w Q s w' Q' s' -> w_rwlocks w' !! l = Some x ->
  (rw_writer x <> None -> rw_readers x = 0) /\
  (rw_writer x = None -> rw_readers x = 0 -> Q' !! (l, Wwaiting) = Some [] /\ Q' !! (l, Rwaiting) = Some []) /\
  (rw_writer x = None -> Q' !! (l, Rwaiting) <> Some [] -> Q' !! (l, Wwaiting) <> Some []).
Proof.
  intros H Hh Hrep Hok R Hx. destruct (rw_run_inv _ _ _ _ _ _ _ R H Hh Hrep Hok) as ((Hl & Hr & Hw) & H1 & H2 & H3).
  rewrite Hx in Hl. injection Hl as ->. destruct s' as [rd wr rw ww]. cbn in *. split_and!.
  - intros Hwr. by rewrite H1.
  - intros -> E0. assert (rd = []) as -> by (destruct rd; [done|cbn in E0; lia]). rewrite H2 in * by done. by rewrite H3 in *.
  - intros -> Hne E. rewrite Hw in E. injection E as ->. apply Hne. by rewrite Hr, H3.
Qed.

(** ** On a lock *)

Definition free_lock := mkRw [] None [] [].

Lemma free_rep : rw_rep lock_world lock_queues 30 free_lock.
Proof. by split_and!. Qed.

Lemma rwlock_refines_witness :
  exists w', rw_exec 10 30 WLock lock_world = Done (Some Locked) w' /\ rw_rep w' (rw_queues lock_world lock_queues 30 (mkRw [] (Some 1) [] []) []) 30 (mkRw [] (Some 1) [] []).
Proof.
  destruct (rwlock_refines lock_world lock_queues 30 10 1 free_lock WLock (Some Locked) (mkRw [] (Some 1) [] []) []) as [_ (w' & E & _ & _ & Hr)];
    [apply lock_queued|apply lock_homes|apply lock_procs|apply free_rep|apply lock_running|done|reflexivity|].
  by exists w'.
Defined.

Lemma rwlock_exclusion_witness : exists w' Q' s', rw_run 30 lock_world lock_queues free_lock w' Q' s' /\ rs_writer s' = Some 1 /\
  forall x, w_rwlocks w' !! 30 = Some x -> rw_writer x <> None -> rw_readers x = 0.
Proof.
  destruct (rw_refines_ok lock_world lock_queues 30 10 1 free_lock lock_queued lock_homes lock_procs free_rep (proj1 lock_running)
    WLock (Some Locked) (mkRw [] (Some 1) [] []) []) as (w' & E & _ & _ & _); [done|reflexivity|].
  exists w', (rw_queues lock_world lock_queues 30 (mkRw [] (Some 1) [] []) []), (mkRw [] (Some 1) [] []).
  assert (rw_run 30 lock_world lock_queues free_lock w' (rw_queues lock_world lock_queues 30 (mkRw [] (Some 1) [] []) []) (mkRw [] (Some 1) [] [])) as R.
  { eapply (rw_op _ _ _ _ 10 1 WLock); [apply lock_procs|apply lock_running|reflexivity|exact E|apply rw_end]. }
  split; [exact R|]. split; [done|]. intros x Hx.
  exact (proj1 (rwlock_exclusion 30 lock_world lock_queues free_lock w' _ _ x lock_queued lock_homes free_rep ltac:(done) R Hx)).
Defined.
