(* ===== verification/QlockProps.v ===== *)
(** * Locks in the order of arrival, rendezvous and turns

    Runs of operations on a [QLock]: the critical sections of its holders do not overlap, and
    those who wait get it in the order in which they came. Then what [rwakeup] and [rsleep] do,
    what [procnext] chooses, and that threads that yield take turns. *)

From S2P Require Import Prelude Thread ThreadRep ThreadLock ThreadQueues.

Implicit Types (w : world) (Q : gmap lid (list Z)) (D : gset lid).

(** ** The specification of a lock *)

(** The owner, whether the call that got him the lock has returned, and those who wait. *)
Record qspec := mkQ { qs_owner : option Z; qs_back : bool; qs_waiting : list Z }.

(** [Resume] is what a thread does that had to wait, when it runs again. *)
Inductive qop := Lock | TryLock | Unlock | Resume.

Definition q_spec (t : Z) (op : qop) (s : qspec) : option (option lockres * qspec * list Z) :=
  match op with
  | Lock =>
    match qs_owner s with
    | None => Some (Some Locked, mkQ (Some t) true (qs_waiting s), [])
    | Some _ => Some (Some Waits, mkQ (qs_owner s) (qs_back s) (qs_waiting s ++ [t]), [])
    end
  | TryLock =>
    match qs_owner s with
    | None => Some (Some Locked, mkQ (Some t) true (qs_waiting s), [])
    | Some _ => Some (Some Refused, s, [])
    end
  | Unlock =>
    if decide (qs_owner s = Some t /\ qs_back s = true) then
      match qs_waiting s with
      | u :: us => Some (None, mkQ (Some u) false us, [u])
      | [] => Some (None, mkQ None true [], [])
      end
    else None
  | Resume =>
    if decide (qs_owner s = Some t /\ qs_back s = false) then Some (Some Locked, mkQ (Some t) true (qs_waiting s), []) else None
  end.

(** The thread is in a call that has not returned. *)
Definition pending (s : qspec) : list Z := match qs_owner s with Some o => if qs_back s then [] else [o] | None => [] end ++ qs_waiting s.

(** Which operation a thread may perform: it calls when it is in no call, unlocks what it holds,
    and goes on with a call that it is in. *)
Definition q_may (t : Z) (op : qop) (s : qspec) : Prop :=
  match op with
  | Lock | TryLock => t ∉ pending s
  | Unlock => qs_owner s = Some t /\ qs_back s = true
  | Resume => t ∈ pending s
  end.

Definition q_ok (s : qspec) : Prop := qs_owner s = None -> qs_waiting s = [].

(** ** The code *)

Definition q_exec (p l : Z) (op : qop) : tm (option lockres) :=
  match op with
  | Lock => r ← threadqlock p l true; mret (Some r)
  | TryLock => r ← threadqlock p l false; mret (Some r)
  | Unlock => threadqunlock l;; mret None
  | Resume => r ← threadqlock_end p l; mret (Some r)
  end.

Definition q_rep w Q (l : Z) (s : qspec) : Prop :=
  w_qlocks w !! l = Some (mkQLock (qs_owner s)) /\ Q !! (l, Waiting) = Some (qs_waiting s).

Definition q_queues w Q (l : Z) (s' : qspec) (woken : list Z) : gmap lid (list Z) :=
  made_ready (home w) woken (<[(l, Waiting) := qs_waiting s']> Q).

Section refine.
Context (w : world) (Q : gmap lid (list Z)) (l p t : Z) (s : qspec).
Hypotheses (H : queued w Q) (Hh : homes w Q) (Hpr : procs_ok w) (Hrep : q_rep w Q l s) (Hrun : running w Q p t) (Hok : q_ok s).

Definition q_done (op : qop) (r : option lockres) (s' : qspec) (woken : list Z) : Prop :=
  exists w', q_exec p l op w = Done r w' /\ let Q' := q_queues w Q l s' woken in queued w' Q' /\ homes w' Q' /\ q_rep w' Q' l s'.

(** A step that leaves the queues alone. *)
Lemma q_set_only op r s' w' :
  qs_waiting s' = qs_waiting s -> q_exec p l op w = Done r w' -> w_threads w' = w_threads w -> w_lists w' = w_lists w ->
  w_qlocks w' !! l = Some (mkQLock (qs_owner s')) -> q_done op r s' [].
Proof using H Hh Hrep.
  intros E E1 Et El Eq. destruct Hrep as (_ & Hw). exists w'. unfold q_queues. cbn. rewrite E, (insert_id Q) by done. split_and!; try done.
  - by eapply queued_ext.
  - intros u th. rewrite Et. apply Hh.
  - by split; [|rewrite E].
Qed.

Lemma lock_free op : op = Lock \/ op = TryLock -> qs_owner s = None -> q_done op (Some Locked) (mkQ (Some t) true (qs_waiting s)) [].
Proof using All.
  intros Hop E. pose proof Hrep as (Hl & _). destruct Hrun as (x & th & Hp & Ht & _).
  assert (forall b, threadqlock p l b w = Done Locked (w <| w_qlocks := <[l := mkQLock (Some t)]> (w_qlocks w) |>)) as El.
  { intros b. eapply (threadqlock_free w p t x Hp Ht l); [exact Hl|done]. }
  apply (q_set_only _ _ _ (w <| w_qlocks := <[l := mkQLock (Some t)]> (w_qlocks w) |>)); [done| |done|done|apply lookup_insert_eq].
  by destruct Hop as [-> | ->]; cbn [q_exec]; erewrite tm_bind_Done by exact (El _).
Qed.

Lemma lock_wait o : qs_owner s = Some o ->
  if single w then q_exec p l Lock w = Stop Abort
  else q_done Lock (Some Waits) (mkQ (qs_owner s) (qs_back s) (qs_waiting s ++ [t])) [].
Proof using All.
  intros E. destruct Hrep as (Hl & Hw). pose proof (waits_ok w Q p t _ _ H Hh Hpr Hrun Hw) as Hwt.
  pose proof (threadqlock_owned p w l _ o true Hl E) as El. cbv iota in El.
  destruct (single w); [cbn [q_exec]; unfold mbind, tm_bind; by rewrite El, Hwt|]. destruct Hwt as (w' & Ew & H' & Hh' & _ & Eq).
  exists w'. split; [|split; [exact H'|split; [exact Hh'|split; [by rewrite Eq|apply lookup_insert_eq]]]].
  cbn [q_exec]. erewrite tm_bind_Done; [done|]. by rewrite El.
Qed.

Lemma unlock_ok r s' woken : q_spec t Unlock s = Some (r, s', woken) -> q_done Unlock r s' woken.
Proof using H Hh Hrep.
  cbn [q_spec]. destruct (decide (qs_owner s = Some t /\ qs_back s = true)) as [[Eo _]|]; [|done]. pose proof Hrep as (Hl & Hw).
  destruct (qs_waiting s) as [|u us] eqn:Ews; intros [= <- <- <-].
  - pose proof (threadqunlock_nobody w Q l _ t H Hl Eo Hw) as Eu.
    apply (q_set_only _ _ _ (w <| w_qlocks := <[l := mkQLock None]> (w_qlocks w) |>)); [done| |done|done|apply lookup_insert_eq].
    cbn [q_exec]. by erewrite tm_bind_Done by exact Eu.
  - destruct (queued_thread w Q _ _ u H Hw) as [th Hth]; [by left|]. destruct (Hh u th Hth) as [rs Hrs].
    destruct (threadqunlock_next w Q l _ t u us th rs H Hl Eo Hw Hth Hrs) as (w' & Eu & H' & R).
    assert (q_queues w Q l (mkQ (Some u) false us) [u] = <[(th_proc th, Runqueue) := rs ++ [u]]> (<[(l, Waiting) := us]> Q)) as EQ.
    { unfold q_queues. cbn. unfold home. rewrite Hth. symmetry. apply (insert_alter _ _ rs (fun us => us ++ [u])). by rewrite lookup_insert_ne. }
    exists w'. split; [cbn [q_exec]; by erewrite tm_bind_Done by exact Eu|]. cbv zeta. rewrite EQ. split; [exact H'|]. split; [|split].
    + eapply relinked_homes; [exact R|]. eapply (homes_more w); [|exact Hh]. intros j Hj. by do 2 apply insert_more.
    + destruct R as [_ ->]. apply lookup_insert_eq.
    + rewrite lookup_insert_ne by done. apply lookup_insert_eq.
Qed.

Lemma unlock_frame w' :
  qs_owner s = Some t -> threadqunlock l w = Done tt w' ->
  w_procs w' = w_procs w /\ forall u, core <$> w_threads w' !! u = core <$> w_threads w !! u.
Proof using H Hh Hrep.
  intros Eo E. pose proof Hrep as (Hl & Hw). destruct (qs_waiting s) as [|u us].
  - rewrite (threadqunlock_nobody w Q l _ t H Hl Eo Hw) in E. by injection E as <-.
  - destruct (queued_thread w Q _ _ u H Hw) as [th Hth]; [by left|]. destruct (Hh u th Hth) as [rs Hrs].
    destruct (threadqunlock_next w Q l _ t u us th rs H Hl Eo Hw Hth Hrs) as (w2 & Eu & _ & R). rewrite E in Eu. injection Eu as <-.
    pose proof R as [C Ew]. split; [by rewrite Ew|exact C].
Qed.

(** A thread that runs is on no queue: if it is in a call, the lock is his. *)
Lemma running_owns : t ∈ pending s -> qs_owner s = Some t /\ qs_back s = false.
Proof using All.
  destruct Hrep as (_ & Hw). destruct Hrun as (x & th & _ & _ & _ & _ & Hid). specialize (Hid _ _ Hw). unfold pending.
  destruct (qs_owner s) as [o|], (qs_back s); rewrite ?elem_of_app, ?list_elem_of_singleton; set_solver.
Qed.

Lemma resume_ok : t ∈ pending s -> q_done Resume (Some Locked) (mkQ (Some t) true (qs_waiting s)) [].
Proof using All.
  intros Hp. destruct (running_owns Hp) as [Eo _]. destruct Hrep as (Hl & Hw). destruct Hrun as (x & th & Hpp & Ht & _).
  apply (q_set_only _ _ _ w); [done| |done|done|by rewrite Hl, Eo]. cbn [q_exec]. unfold threadqlock_end, threadnow.
  erewrite tm_bind_Done; [done|]. erewrite tm_bind_Done by (by apply qlock_Done). erewrite tm_bind_Done by (by erewrite tm_bind_Done by (by apply proc_Done)).
  rewrite Ht. change (q_owner (mkQLock (qs_owner s))) with (qs_owner s). rewrite Eo. by destruct (decide (Some t = Some t)).
Qed.

Lemma q_refines_ok op : q_may t op s ->
  exists r s' woken, q_spec t op s = Some (r, s', woken) /\ q_ok s' /\
    if match r with Some Waits => single w | _ => false end then q_exec p l op w = Stop Abort else q_done op r s' woken.
Proof using All.
  intros Hmay. destruct op; cbn [q_spec q_may] in *.
  - destruct (qs_owner s) as [o|] eqn:Eo; do 3 eexists; (split; [reflexivity|]).
    + split; [done|]. pose proof (lock_wait o Eo) as Hw. by rewrite Eo in Hw.
    + split; [done|]. apply lock_free; auto.
  - destruct (qs_owner s) as [o|] eqn:Eo; do 3 eexists; (split; [reflexivity|]).
    + split; [done|]. destruct Hrep as (Hl & _). apply (q_set_only _ _ _ w); [done| |done|done|done]. cbn [q_exec].
      erewrite tm_bind_Done; [done|]. by erewrite threadqlock_owned.
    + split; [done|]. apply lock_free; auto.
  - destruct (decide (qs_owner s = Some t /\ qs_back s = true)) as [Hd|]; [|done]. pose proof unlock_ok as Hu. cbn [q_spec] in Hu.
    destruct (decide (qs_owner s = Some t /\ qs_back s = true)); [|done].
    destruct (qs_waiting s) as [|u us]; do 3 eexists; (split; [reflexivity|]); (split; [done|]); by apply Hu.
  - destruct (running_owns Hmay) as [Eo Eb]. destruct (decide (qs_owner s = Some t /\ qs_back s = false)); [|tauto].
    do 3 eexists. split; [reflexivity|]. split; [done|]. by apply resume_ok.
Qed.
End refine.

(** ** Runs *)

(** What happens to the lock: a thread gets it at once, or begins to wait, or gets it after
    waiting, or gives it back. The events of an operation are read off its result. *)
Inductive qevent := Gets (t : Z) | Queues (t : Z) | GetsAfter (t : Z) | Gives (t : Z).

Definition q_event (t : Z) (op : qop) (r : option lockres) : list qevent :=
  match op, r with
  | Unlock, _ => [Gives t]
  | Resume, Some Locked => [GetsAfter t]
  | Resume, _ => []
  | _, Some Locked => [Gets t]
  | _, Some Waits => [Queues t]
  | _, _ => []
  end.

(** The lock as its users see it: the thread whose call got the lock and returned, and the
    threads whose call waits and has not returned, in the order in which they called. *)
Record qview := mkView { v_holder : option Z; v_calls : list Z }.

Definition q_next (t : Z) (op : qop) (r : option lockres) (v : qview) : qview :=
  match op, r with
  | Unlock, _ => mkView None (v_calls v)
  | Resume, Some Locked => mkView (Some t) (filter (fun u => u <> t) (v_calls v))
  | Resume, _ => v
  | _, Some Locked => mkView (Some t) (v_calls v)
  | _, Some Waits => mkView (v_holder v) (v_calls v ++ [t])
  | _, _ => v
  end.

(** What the users owe: a thread calls when it is in no call, unlocks when it holds the lock,
    and goes on with the call it is in. *)
Definition v_may (t : Z) (op : qop) (v : qview) : Prop :=
  match op with
  | Lock | TryLock => t ∉ v_calls v
  | Unlock => v_holder v = Some t
  | Resume => t ∈ v_calls v
  end.

(** Operations of running threads on the lock at [l], as the code executes them, and code that
    leaves this lock alone, such as the scheduler. Which thread runs, whom an operation makes
    ready and what it returns is up to the code. *)
Inductive q_run D (l : Z) : world -> qview -> list qevent -> world -> qview -> Prop :=
| q_end w v : q_run D l w v [] w v
| q_call w v p t op r w1 tr w2 v2 :
    procs_ok w -> running w (queues_of D w) p t -> v_may t op v -> q_exec p l op w = Done r w1 ->
    q_run D l w1 (q_next t op r v) tr w2 v2 -> q_run D l w v (q_event t op r ++ tr) w2 v2
| q_other w v w1 tr w2 v2 :
    queued w1 (queues_of D w1) -> homes w1 (queues_of D w1) -> w_qlocks w1 !! l = w_qlocks w !! l ->
    queue_of w1 (l, Waiting) = queue_of w (l, Waiting) -> q_run D l w1 v tr w2 v2 -> q_run D l w v tr w2 v2.

(** Nobody gets a lock that another has. *)
Fixpoint exclusive (holder : option Z) (tr : list qevent) : Prop :=
  match tr with
  | [] => True
  | Gets t :: tr | GetsAfter t :: tr => holder = None /\ exclusive (Some t) tr
  | Gives t :: tr => holder = Some t /\ exclusive None tr
  | Queues _ :: tr => exclusive holder tr
  end.

Definition holder (s : qspec) : option Z := if qs_back s then qs_owner s else None.
Definition view (s : qspec) : qview := mkView (holder s) (pending s).

Definition came (tr : list qevent) : list Z := omap (fun e => match e with Queues t => Some t | _ => None end) tr.
Definition served (tr : list qevent) : list Z := omap (fun e => match e with GetsAfter t => Some t | _ => None end) tr.

Lemma view_may t op s : v_may t op (view s) -> q_may t op s.
Proof. destruct op; cbn; try done. unfold holder. by destruct (qs_back s). Qed.

Lemma remove_head (t : Z) ws : t ∉ ws -> filter (fun u => u <> t) (t :: ws) = ws.
Proof.
  intros Ht. rewrite filter_cons_False by (by intros []). induction ws as [|u ws IH]; [done|].
  apply not_elem_of_cons in Ht as [Hu Ht]. rewrite filter_cons_True by done. by rewrite IH.
Qed.

(** What an operation does to the users' view. *)
Lemma q_spec_view t op s r s1 woken tr :
  q_ok s -> t ∉ qs_waiting s -> q_spec t op s = Some (r, s1, woken) ->
  view s1 = q_next t op r (view s) /\ (exclusive (holder s1) tr -> exclusive (holder s) (q_event t op r ++ tr)) /\
  pending s ++ came (q_event t op r) = served (q_event t op r) ++ pending s1.
Proof.
  intros Hok Ht E. destruct s as [ow bk ws]. unfold q_ok, view, holder, pending in *. cbn in *. destruct op; cbn in E.
  - destruct ow as [o|]; injection E as <- <- <-; cbn; [|rewrite Hok by done; by destruct bk]. rewrite <- app_assoc. split_and!; [done| |done]. by destruct bk.
  - destruct ow as [o|]; injection E as <- <- <-; cbn; [by rewrite app_nil_r|]. rewrite Hok by done. by destruct bk.
  - destruct (decide (ow = Some t /\ bk = true)) as [[-> ->]|]; [|done]. destruct ws; injection E as <- <- <-; cbn; [done|].
    by rewrite app_nil_r.
  - destruct (decide (ow = Some t /\ bk = false)) as [[-> ->]|]; [|done]. injection E as <- <- <-. cbn. rewrite app_nil_r.
    split_and!; [|done|done]. f_equal. symmetry. exact (remove_head t ws Ht).
Qed.

Lemma q_queues_dom w Q l s woken ts : Q !! (l, Waiting) = Some ts -> dom (q_queues w Q l s woken) = dom Q.
Proof. intros Hk. unfold q_queues. rewrite made_ready_dom. by eapply insert_dom. Qed.

(** The lock in memory is sound, and as its users see it. *)
Definition q_sound D (l : Z) w (v : qview) (s : qspec) : Prop :=
  queued w (queues_of D w) /\ homes w (queues_of D w) /\ q_rep w (queues_of D w) l s /\ q_ok s /\ v = view s.

(** One operation of a run. *)
Lemma q_step D l w v s p t op r w1 tr :
  q_sound D l w v s -> procs_ok w -> running w (queues_of D w) p t -> v_may t op v -> q_exec p l op w = Done r w1 ->
  exists s1, q_sound D l w1 (q_next t op r v) s1 /\ (exclusive (v_holder (q_next t op r v)) tr -> exclusive (v_holder v) (q_event t op r ++ tr)) /\
    v_calls v ++ came (q_event t op r) = served (q_event t op r) ++ v_calls (q_next t op r v).
Proof.
  intros (H & Hh & Hrep & Hok & ->) Hpr Hrun Hmay%view_may Ex.
  destruct (q_refines_ok w _ l p t s H Hh Hpr Hrep Hrun Hok op Hmay) as (r1 & s1 & wk & Es & Hok' & Hd).
  destruct (match r1 with Some Waits => single w | _ => false end); [by rewrite Ex in Hd|].
  destruct Hd as (w' & E' & H1 & H2 & H3). rewrite Ex in E'. injection E' as <- <-. pose proof Hrep as [_ Hw].
  assert (queues_of D w1 = q_queues w (queues_of D w) l s1 wk) as EQ.
  { apply queues_of_ok; [exact H1|]. by rewrite (q_queues_dom _ _ _ _ _ _ Hw), queues_of_dom. }
  assert (t ∉ qs_waiting s) as Ht by (destruct Hrun as (x & th & _ & _ & _ & _ & Hid); exact (Hid _ _ Hw)).
  destruct (q_spec_view t op s r s1 wk tr Hok Ht Es) as (Ev & He & Hp). exists s1. unfold q_sound. rewrite EQ, <- Ev. by split_and!.
Qed.

Lemma q_run_ok D l w v tr w' v' : q_run D l w v tr w' v' -> forall s, q_sound D l w v s ->
  exclusive (v_holder v) tr /\ v_calls v ++ came tr = served tr ++ v_calls v' /\ exists s', q_sound D l w' v' s'.
Proof.
  induction 1 as [w v|w v p t op r w1 tr w2 v2 Hpr Hrun Hmay Ex R IH|w v w1 tr w2 v2 Hq Hho El Ew R IH]; intros s Hs.
  - cbn. rewrite app_nil_r. eauto.
  - destruct (q_step _ _ _ _ _ _ _ _ _ _ tr Hs Hpr Hrun Hmay Ex) as (s1 & Hs1 & He & Hc). destruct (IH s1 Hs1) as (Hex & Hp & Hrest).
    split_and!; [by apply He| |done]. unfold came, served in *. rewrite !omap_app, (app_assoc (v_calls v)), Hc, <- !app_assoc. by rewrite Hp.
  - apply (IH s). destruct Hs as (H & Hh & [Hl Hw] & Hok & ->). unfold q_sound, q_rep. rewrite El. split_and!; try done.
    apply queues_of_lookup in Hw as [HD Hw]. apply queues_of_lookup. split; [done|congruence].
Qed.

Lemma q_sound_start l w Q s : queued w Q -> homes w Q -> q_rep w Q l s -> q_ok s -> q_sound (dom Q) l w (view s) s.
Proof. intros H Hh Hr Hok. unfold q_sound. by rewrite (queues_of_ok _ w Q H eq_refl). Qed.

(** The scheduler leaves the lock alone. *)
Lemma procnext_other D l w p x r w1 :
  queued w (queues_of D w) -> homes w (queues_of D w) -> w_procs w !! p = Some x ->
  (p, Runqueue) ∈ D -> (p, Idlequeue) ∈ D -> (l, Waiting) ∈ D -> procnext p w = Done r w1 ->
  queued w1 (queues_of D w1) /\ homes w1 (queues_of D w1) /\ w_qlocks w1 !! l = w_qlocks w !! l /\
  queue_of w1 (l, Waiting) = queue_of w (l, Waiting).
Proof.
  intros H Hh Hp Hr Hi Hl E.
  assert (forall k, k ∈ D -> queues_of D w !! k = Some (queue_of w k)) as HD by (intros k Hk; by apply queues_of_lookup).
  pose proof (procnext_ok w _ p x _ _ H Hp (HD _ Hr) (HD _ Hi)) as Hn. destruct (pick _ _ _ _) as [[r' rs'] ids'].
  destruct Hn as (w' & E' & H' & R). rewrite E in E'. injection E' as -> ->.
  assert (w_threads (dispatched p r' w') = w_threads w' /\ w_lists (dispatched p r' w') = w_lists w' /\ w_qlocks (dispatched p r' w') = w_qlocks w')
    as (Et & El & Eq) by (unfold dispatched; by destruct r', (w_procs w' !! p)).
  set (Q1 := <[(p, Runqueue) := rs']> _) in H'. assert (queued (dispatched p r' w') Q1) as H1 by (by eapply queued_ext).
  assert (queues_of D (dispatched p r' w') = Q1) as EQ.
  { apply queues_of_ok; [done|]. unfold Q1. erewrite !insert_dom; [apply queues_of_dom|by apply HD|by rewrite lookup_insert_ne by done; apply HD]. }
  rewrite EQ. split_and!; [done| | |].
  - intros t th. rewrite Et. intros Ht. eapply homes_more; [|eapply relinked_homes; [exact R|exact Hh]|exact Ht]. intros j Hj. by do 2 apply insert_more.
  - rewrite Eq. by destruct R as [_ ->].
  - eapply queue_of_ok; [exact H1|]. unfold Q1. rewrite !lookup_insert_ne by done. by apply HD.
Qed.

(** ** The theorems on locks *)

(** C9: In any run, the lock is never given to a thread while another has it: between the return of
    the call that gets it and the call that gives it back, no other call gets it. *)
Theorem qlock_mutex l w Q s tr w' v' :
  queued w Q -> homes w Q -> q_rep w Q l s -> q_ok s -> q_run (dom Q) l w (view s) tr w' v' -> exclusive (holder s) tr.
Proof. intros H Hh Hrep Hok R. by apply (q_run_ok _ _ _ _ _ _ _ R s), q_sound_start. Qed.

(** C23: The threads that wait for the lock get it in the order in which they began to wait: in
    any run of the code, those who were in a call and those who came to wait are, in this
    order, those whose call returned and those who are in a call at the end; and the latter are
    the owner in memory, if its call has not returned, and then the queue in memory. *)
Theorem qlock_fifo l w Q s tr w' v' :
  queued w Q -> homes w Q -> q_rep w Q l s -> q_ok s -> q_run (dom Q) l w (view s) tr w' v' ->
  pending s ++ came tr = served tr ++ v_calls v' /\
  exists s', v' = view s' /\ w_qlocks w' !! l = Some (mkQLock (qs_owner s')) /\ queue_of w' (l, Waiting) = qs_waiting s'.
Proof.
  intros H Hh Hrep Hok R. destruct (q_run_ok _ _ _ _ _ _ _ R s) as (_ & Hp & s' & _ & _ & [Hl Hw] & _ & Hv); [by apply q_sound_start|].
  split; [exact Hp|]. exists s'. apply queues_of_lookup in Hw as [_ Hw]. by split_and!.
Qed.

(** C32: Every operation that a running thread may perform returns, unless it waits where no other
    thread runs; a thread that waited and runs again owns the lock, and its check succeeds. *)
Theorem qlock_progress w Q l p t s op :
  queued w Q -> homes w Q -> procs_ok w -> q_rep w Q l s -> running w Q p t -> q_ok s -> q_may t op s ->
  exists r s' woken, q_spec t op s = Some (r, s', woken) /\
    if match r with Some Waits => single w | _ => false end then q_exec p l op w = Stop Abort
    else exists w', q_exec p l op w = Done r w' /\
      let Q' := q_queues w Q l s' woken in queued w' Q' /\ homes w' Q' /\ q_rep w' Q' l s'.
Proof.
  intros H Hh Hpr Hrep Hrun Hok Hmay. destruct (q_refines_ok w Q l p t s H Hh Hpr Hrep Hrun Hok op Hmay) as (r & s' & wk & E & _ & Hd).
  by exists r, s', wk.
Qed.

(** ** The scheduler *)

(** [procnext] takes the thread that [pick] says, and leaves the queues that [pick] says. *)
Theorem procnext_refines w Q p x run idle :
  queued w Q -> w_procs w !! p = Some x -> Q !! (p, Runqueue) = Some run -> Q !! (p, Idlequeue) = Some idle ->
  let '(r, run', idle') := pick (p_pinthread x) (p_nthread x) run idle in
  exists w', procnext p w = Done r (dispatched p r w') /\
    queued w' (<[(p, Runqueue) := run']> (<[(p, Idlequeue) := idle']> Q)) /\ relinked w w'.
Proof. apply procnext_ok. Qed.

(** A thread yields, and the proc goes on with the next one. *)
Definition yield_turn (p : Z) : tm picked := threadyield p;; procnext p.
Fixpoint yields (n : nat) (p : Z) : tm unit :=
  match n with O => mret tt | S n => yield_turn p;; yields n p end.

(** Thread [t] runs in proc [p], no thread is pinned, and [rs] are ready. *)
Record turn w Q (p t : Z) (rs : list Z) : Prop := mkTurn {
  tu_queued : queued w Q;
  tu_proc : exists x, w_procs w !! p = Some x /\ p_thread x = Some t /\ p_pinthread x = None;
  tu_threads : forall u, u ∈ t :: rs -> exists th, w_threads w !! u = Some th /\ th_proc th = p /\ th_exiting th = false;
  tu_idle : idle_in Q t;
  tu_run : Q !! (p, Runqueue) = Some rs;
  tu_idles : exists ids, Q !! (p, Idlequeue) = Some ids }.

Lemma idle_after w Q k u us : queued w Q -> Q !! k = Some (u :: us) -> idle_in (<[k := us]> Q) u.
Proof.
  intros H Hk j ts. destruct (decide (j = k)) as [->|Hj].
  - rewrite lookup_insert_eq. intros [= <-]. destruct (qd_list _ _ H _ _ Hk) as (l & _ & _ & _ & [Hu _]%NoDup_cons & _). done.
  - rewrite lookup_insert_ne by done. intros Hts Hu. apply Hj. eapply (qd_one _ _ H); [exact Hts|exact Hk|exact Hu|by left].
Qed.

Lemma yield_turn_ok w Q p t rs u us :
  turn w Q p t rs -> rs ++ [t] = u :: us -> exists w' Q', yield_turn p w = Done (Next u) w' /\ turn w' Q' p u us.
Proof.
  intros [H (x & Hp & Ht & Hpin) Hths Hid Hr (ids & Hi)] E. destruct (Hths t) as (th & Hth & Htp & Hex); [by left|].
  assert (Q !! (th_proc th, Runqueue) = Some rs) as Hr' by (by rewrite Htp).
  destruct (_threadready_ok w Q t th rs H Hid Hth Hr') as (w1 & E1 & H1 & R1). rewrite Htp, E in H1.
  set (Q1 := <[(p, Runqueue) := u :: us]> Q) in *. set (w2 := released p w1).
  assert (w_procs w1 !! p = Some x) as Hp1 by (destruct R1 as [_ ->]; exact Hp).
  destruct (relinked_thread _ _ _ _ R1 Hth) as (th1 & Hth1 & Hc1). injection Hc1 as _ _ Hex1 _.
  assert (_threadswitch p w1 = Done tt w2) as E2 by (by eapply _threadswitch_ok; [..|rewrite Hex1]).
  assert (w_procs w2 !! p = Some (x <| p_thread := None |>)) as Hp2.
  { unfold w2, released. rewrite Hp1. apply lookup_insert_eq. }
  destruct (released_same p w1) as (Et & El & _). fold w2 in Et, El.
  pose proof (procnext_ok w2 Q1 p (x <| p_thread := None |>) (u :: us) ids) as Hn. change (p_pinthread (x <| p_thread := None |>)) with (p_pinthread x) in Hn.
  rewrite Hpin in Hn. cbn [pick] in Hn. destruct Hn as (w3 & E3 & H3 & R3);
    [by eapply queued_ext|done|apply lookup_insert_eq|unfold Q1; by rewrite lookup_insert_ne|].
  assert (<[(p, Runqueue) := us]> (<[(p, Idlequeue) := ids]> Q1) = <[(p, Runqueue) := us]> Q1) as EQ.
  { rewrite (insert_id Q1); [done|]. unfold Q1. by rewrite lookup_insert_ne. }
  rewrite EQ in H3. assert (w_procs w3 !! p = Some (x <| p_thread := None |>)) as Hp3 by (destruct R3 as [_ ->]; exact Hp2).
  exists (dispatched p (Next u) w3), (<[(p, Runqueue) := us]> Q1). split.
  - unfold yield_turn, threadyield. erewrite tm_bind_Done by (erewrite tm_bind_Done by (by apply proc_Done); rewrite Ht; erewrite tm_bind_Done by done; erewrite tm_bind_Done by exact E1; erewrite tm_bind_Done by exact E2; done).
    exact E3.
  - unfold dispatched. rewrite Hp3. constructor.
    + by eapply queued_ext; [..|exact H3].
    + eexists. split; [apply lookup_insert_eq|done].
    + intros v Hv. rewrite <- E in Hv. destruct (Hths v) as (thv & Hv0 & Hvp & Hvx); [set_solver|].
      destruct (relinked_thread _ _ _ _ R1 Hv0) as (thv1 & Hv1 & Hcv). rewrite <- Et in Hv1.
      destruct (relinked_thread _ _ _ _ R3 Hv1) as (thv3 & Hv3 & Hcv3). exists thv3. split; [exact Hv3|].
      injection Hcv as ? _ ? _. injection Hcv3 as ? _ ? _. split; congruence.
    + apply (idle_after w1 Q1); [done|apply lookup_insert_eq].
    + apply lookup_insert_eq.
    + exists ids. rewrite lookup_insert_ne by done. unfold Q1. by rewrite lookup_insert_ne.
Qed.

(** C33: Threads that yield take turns: each ready thread runs after as many yields as there are
    threads before it in the queue, and the others then are behind it in their order. *)
Theorem yield_round_robin p k : forall w Q t rs u,
  turn w Q p t rs -> (t :: rs) !! k = Some u ->
  exists w' Q', yields k p w = Done tt w' /\ turn w' Q' p u (drop (S k) (t :: rs) ++ take k (t :: rs)).
Proof.
  induction k as [|k IH]; intros w Q t rs u H Hk.
  - injection Hk as <-. exists w, Q. cbn. rewrite drop_0, app_nil_r. done.
  - cbn in Hk. destruct rs as [|v rs]; [done|]. destruct (yield_turn_ok w Q p t (v :: rs) v (rs ++ [t]) H eq_refl) as (w1 & Q1 & E1 & H1).
    destruct (IH w1 Q1 v (rs ++ [t]) u H1) as (w' & Q' & E' & H').
    { change (((v :: rs) ++ [t]) !! k = Some u). rewrite lookup_app_l by (by eapply lookup_lt_Some). done. }
    exists w', Q'. cbn [yields]. split; [by erewrite tm_bind_Done by exact E1|].
    apply lookup_lt_Some in Hk. cbn in Hk. cbn [drop take] in *.
    assert (take k (v :: rs ++ [t]) = take k (v :: rs)) as Etk by (change (v :: rs ++ [t]) with ((v :: rs) ++ [t]); by rewrite take_app_le by (cbn; lia)).
    rewrite Etk, drop_app_le, <- app_assoc in H' by lia. exact H'.
Qed.

(** ** Sleep and wakeup *)

(** Two steps known together, and the rest. *)
Lemma tm_assoc_run {A} w w1 (m1 m2 : tm unit) (k : tm A) : (m1;; m2) w = Done tt w1 -> (m1;; m2;; k) w = k w1.
Proof.
  unfold mbind, tm_bind. destruct (m1 w) as [[] w2|]; [|done]. intros E. by rewrite E.
Qed.

Lemma rwakeup_loop_ok r all ts : forall fuel w Q i,
  queued w Q -> homes w Q -> Q !! (r, Waiting) = Some ts -> (length ts < fuel)%nat -> 0 <= i -> (all = false -> i <= 1) ->
  let n := if all then length ts else Nat.min (Z.to_nat (1 - i)) (length ts) in
  exists w', threadrwakeup_loop fuel r all i w = Done (i + Z.of_nat n) w' /\
    let Q' := made_ready (home w) (take n ts) (<[(r, Waiting) := drop n ts]> Q) in queued w' Q' /\ homes w' Q' /\ relinked w w'.
Proof.
  induction ts as [|t ts IH]; intros [|fuel] w Q i H Hh Hk Hf Hi Ha; cbn [length] in Hf; try lia; cbn [threadrwakeup_loop].
  - assert ((if all then length [] else Nat.min (Z.to_nat (1 - i)) (length [])) = 0%nat) as -> by (destruct all; cbn; lia).
    cbv zeta. cbn [take drop made_ready foldl]. rewrite Z.add_0_r, (insert_id Q) by done. exists w. split; [|done].
    destruct ((i =? 1) && negb all); [done|]. destruct (tlist_head _ _ _ _ H Hk) as (y & Ey & Hy). erewrite tm_bind_Done by exact Ey. by rewrite Hy.
  - destruct ((i =? 1) && negb all) eqn:Estop.
    { apply andb_true_iff in Estop as [->%Z.eqb_eq Eall%negb_true_iff]. rewrite Eall. cbv zeta. exists w.
      cbn [Nat.min Z.to_nat Z.sub Z.add Z.opp Z.pos_sub take drop made_ready foldl]. rewrite (insert_id Q) by done. done. }
    destruct (tlist_head _ _ _ _ H Hk) as (y & Ey & Hy). erewrite tm_bind_Done by exact Ey. rewrite Hy. cbn [head].
    destruct (wake_first w Q (r, Waiting) t ts H Hh Hk) as (w1 & E1 & H1 & R1); [done|].
    set (Q1 := made_ready (home w) [t] (<[(r, Waiting) := ts]> Q)) in *.
    assert (homes w1 Q1) as Hh1.
    { eapply homes_more; [|eapply relinked_homes; [exact R1|exact Hh]]. intros j Hj. by apply made_ready_more, insert_more. }
    assert (Q1 !! (r, Waiting) = Some ts) as Hk1 by (unfold Q1; rewrite made_ready_ne by done; apply lookup_insert_eq).
    assert (all = false -> i = 0) as Hi0.
    { intros ->. rewrite andb_true_r in Estop. apply Z.eqb_neq in Estop. specialize (Ha eq_refl). lia. }
    destruct (IH fuel w1 Q1 (i + 1) H1 Hh1 Hk1) as (w' & E' & H' & Hh' & R'); [lia|lia|intros Hf'; specialize (Hi0 Hf'); lia|].
    set (n1 := if all then length ts else _) in *. cbv zeta.
    assert ((if all then length (t :: ts) else Nat.min (Z.to_nat (1 - i)) (length (t :: ts))) = S n1) as ->.
    { unfold n1. destruct all; [done|]. rewrite Hi0 by done. done. }
    assert (made_ready (home w1) (take n1 ts) (<[(r, Waiting) := drop n1 ts]> Q1)
      = made_ready (home w) (take (S n1) (t :: ts)) (<[(r, Waiting) := drop (S n1) (t :: ts)]> Q)) as EQ.
    { cbn [take drop]. unfold Q1. rewrite <- made_ready_insert, insert_insert_eq by done.
      rewrite (made_ready_ext (home w1) (home w)) by (by eapply relinked_home). change (t :: take n1 ts) with ([t] ++ take n1 ts). by rewrite made_ready_app. }
    cbv zeta in H', Hh'. rewrite EQ in H', Hh'. exists w'. split_and!; try done; [|by etransitivity].
    rewrite (tm_assoc_run w w1 _ _ _ E1), E'. f_equal. lia.
Qed.

(** [rwakeup] makes the first thread that sleeps ready, [rwakeupall] all of them in their order,
    and the result is how many. *)
Theorem rwakeup_wakes w Q r all ts :
  queued w Q -> homes w Q -> Q !! (r, Waiting) = Some ts ->
  let woken := if all : bool then ts else take 1 ts in
  exists w', threadrwakeup r all w = Done (len woken) w' /\
    queued w' (made_ready (home w) woken (<[(r, Waiting) := drop (length woken) ts]> Q)) /\ relinked w w'.
Proof.
  intros H Hh Hk. pose proof (queue_size _ _ _ _ H Hk) as Hsz.
  destruct (rwakeup_loop_ok r all ts (S (size (w_threads w))) w Q 0 H Hh Hk) as (w' & E & H' & _ & R); [lia|done|done|].
  exists w'. unfold threadrwakeup. erewrite tm_bind_Done by done. rewrite E. destruct all; cbv zeta in *.
  - rewrite firstn_all, Z.add_0_l in *. by split_and!.
  - assert (Nat.min (Z.to_nat (1 - 0)) (length ts) = length (take 1 ts)) as En by (rewrite length_take; done). rewrite En in *.
    assert (take (length (take 1 ts)) ts = take 1 ts) as Et by (by destruct ts). rewrite Et in H'. by split_and!.
Qed.

(** [rsleep] with the lock held queues the thread, gives the lock to the next thread that waits
    for it, and leaves the proc: no wakeup can come in between. *)
Theorem rsleep_sleeps w Q p t r l s s' woken ts :
  queued w Q -> homes w Q -> procs_ok w -> running w Q p t -> w_rendez w !! r = Some (mkRendez l) -> r <> l ->
  Q !! (r, Waiting) = Some ts -> q_rep w Q l s -> q_spec t Unlock s = Some (None, s', woken) ->
  if single w then threadrsleep p r w = Stop Abort
  else exists w', threadrsleep p r w = Done tt w' /\
    queued w' (q_queues w (<[(r, Waiting) := ts ++ [t]]> Q) l s' woken) /\ q_rep w' (q_queues w (<[(r, Waiting) := ts ++ [t]]> Q) l s' woken) l s' /\
    exists x, w_procs w' !! p = Some x /\ p_thread x = None.
Proof.
  intros H Hh Hpr (x & th & Hp & Ht & Hth & He & Hid) Hr Hne Hk Hrep Es. unfold threadrsleep.
  erewrite tm_bind_Done by (by apply singlethreaded_ok). destruct (single w); [done|].
  assert (rendez_at r w = Done (mkRendez l) w) as Er by (unfold rendez_at; by rewrite Hr). erewrite tm_bind_Done by exact Er.
  unfold threadnow. erewrite tm_bind_Done by (by erewrite tm_bind_Done by (by apply proc_Done)). rewrite Ht. erewrite tm_bind_Done by done.
  destruct (addthread_ok w Q _ ts t th H Hk Hid Hth) as (w1 & E1 & H1 & R1). erewrite tm_bind_Done by exact E1.
  set (Q1 := <[(r, Waiting) := ts ++ [t]]> Q) in *.
  assert (homes w1 Q1) as Hh1 by (eapply relinked_homes; [exact R1|]; eapply homes_more; [|exact Hh]; intros j; apply insert_more).
  assert (q_rep w1 Q1 l s) as Hrep1.
  { destruct Hrep as [Hl Hw]. split; [destruct R1 as [_ ->]; exact Hl|]. unfold Q1. rewrite lookup_insert_ne; [done|]. congruence. }
  destruct (unlock_ok w1 Q1 l p t s H1 Hh1 Hrep1 None s' woken Es) as (w2 & E2 & H2 & Hh2 & Hr2).
  assert (q_queues w1 Q1 l s' woken = q_queues w Q1 l s' woken) as EQ.
  { unfold q_queues. apply made_ready_ext. by eapply relinked_home. }
  rewrite EQ in *. change (r_l (mkRendez l)) with l. cbn [q_exec] in E2.
  destruct (threadqunlock l w1) as [[] w3|] eqn:E3; [|by unfold mbind, tm_bind in E2; rewrite E3 in E2].
  erewrite tm_bind_Done in E2 by exact E3. injection E2 as ->. erewrite tm_bind_Done by exact E3.
  assert (qs_owner s = Some t) as Eo by (cbn [q_spec] in Es; destruct (decide (qs_owner s = Some t /\ qs_back s = true)) as [[? _]|]; done).
  destruct (unlock_frame w1 Q1 l t s H1 Hh1 Hrep1 w2 Eo E3) as [Ep Hcore].
  assert (w_procs w2 !! p = Some x) as Hp2 by (rewrite Ep; destruct R1 as [_ ->]; exact Hp).
  destruct (relinked_thread _ _ _ _ R1 Hth) as (th1 & Hth1 & Hc1). specialize (Hcore t). rewrite Hth1 in Hcore.
  destruct (w_threads w2 !! t) as [th2|] eqn:Hth2; [|done]. injection Hcore as _ _ Hx2 _. injection Hc1 as _ _ Hx1 _.
  exists (released p w2). destruct (released_same p w2) as (Et & El & _ & Eq & _). split_and!.
  - eapply _threadswitch_ok; [exact Hp2|exact Ht|exact Hth2|congruence].
  - by eapply queued_ext.
  - destruct Hr2 as [Hl2 Hw2]. split; [by rewrite Eq|done].
  - eexists. unfold released. rewrite Hp2. split; [apply lookup_insert_eq|done].
Qed.

(** ** On locks and threads *)

Definition free := mkQ None true [].

Lemma free_lock_rep : q_rep lock_world lock_queues 30 free.
Proof. by split. Qed.

(** Threads 1, 2 and 3 in procs of their own, and a lock at 30: 1 gets it, 2 and 3 wait, 1 gives
    it back, the scheduler of proc 20 goes on with 2, and its call returns. *)
Definition qx_lists : list lid :=
  [(10, Runqueue); (10, Idlequeue); (20, Runqueue); (20, Idlequeue); (40, Runqueue); (40, Idlequeue); (30, Waiting)].

Definition qx_world : world := mkWorld
  {[ 1 := mkThread None None 10 None false true; 2 := mkThread None None 20 None false false; 3 := mkThread None None 40 None false false ]}
  {[ 10 := mkProc (Some 1) None None 1 0 true false; 20 := mkProc (Some 2) None None 1 0 false false; 40 := mkProc (Some 3) None None 1 0 false false ]}
  (list_to_map (map (fun k => (k, mkThreadlist None None)) qx_lists))
  {[ 30 := mkQLock None ]} ∅ ∅ ∅ ∅ ∅ [10; 20; 40] 3 0.

Definition qx_queues : gmap lid (list Z) := list_to_map (map (fun k => (k, [])) qx_lists).

Lemma qx_queued : queued qx_world qx_queues.
Proof.
  constructor; [|by intros k1 k2 ts1 ts2 t [-> _]%const_map_lookup _ ?%elem_of_nil].
  intros k ts [-> Hk]%const_map_lookup. exists (mkThreadlist None None). split; [by apply const_map_Some|].
  by split_and!; [..|apply NoDup_nil_2|].
Qed.

Lemma qx_homes : homes qx_world qx_queues.
Proof.
  intros t th Ht. cbn [qx_world w_threads] in Ht. rewrite !lookup_insert_Some, lookup_singleton_Some in Ht.
  destruct Ht as [[_ <-]|[_ [[_ <-]|[_ [_ <-]]]]]; by eexists.
Qed.

Definition after {A} (r : tres A) w : world := match r with Done _ w1 => w1 | Stop _ => w end.
Definition qx1 : world := Eval vm_compute in after (q_exec 10 30 Lock qx_world) qx_world.
Definition qx2 : world := Eval vm_compute in after (q_exec 20 30 Lock qx1) qx1.
Definition qx3 : world := Eval vm_compute in after (q_exec 40 30 Lock qx2) qx2.
Definition qx4 : world := Eval vm_compute in after (q_exec 10 30 Unlock qx3) qx3.
Definition qx5 : world := Eval vm_compute in after (procnext 20 qx4) qx4.

Lemma idle_decide Q t : bool_decide (map_Forall (fun _ ts => t ∉ ts) Q) = true -> idle_in Q t.
Proof. apply bool_decide_eq_true_1. Qed.

Ltac qx_call p t op r w1 :=
  eapply (q_call _ _ _ _ p t op r w1);
  [by intros ?
  |do 2 eexists; do 4 (split; [vm_compute; reflexivity|]); apply idle_decide; vm_compute; reflexivity
  |first [reflexivity | cbn [v_may]; apply (bool_decide_eq_true_1 _); vm_compute; reflexivity]
  |vm_compute; reflexivity|].

Definition qx_trace : list qevent := [Gets 1; Queues 2; Queues 3; Gives 1; GetsAfter 2].

Lemma qx_start : q_sound (dom qx_queues) 30 qx_world (view free) free.
Proof. by apply q_sound_start; [apply qx_queued|apply qx_homes|split|]. Qed.

Lemma qx_before : q_run (dom qx_queues) 30 qx_world (view free) [Gets 1; Queues 2; Queues 3; Gives 1] qx4 (mkView None [2; 3]).
Proof.
  qx_call 10 1 Lock (Some Locked) qx1. qx_call 20 2 Lock (Some Waits) qx2. qx_call 40 3 Lock (Some Waits) qx3.
  qx_call 10 1 Unlock (@None lockres) qx4. apply q_end.
Qed.

Lemma qx_run : q_run (dom qx_queues) 30 qx_world (view free) qx_trace qx5 (mkView (Some 2) [3]).
Proof.
  destruct (q_run_ok _ _ _ _ _ _ _ qx_before free qx_start) as (_ & _ & s & H & Hh & _).
  destruct (procnext_other (dom qx_queues) 30 qx4 20 (mkProc None None None 1 0 false false) (Next 2) qx5) as (H1 & H2 & H3 & H4); try done;
    [exact (bool_decide_unpack _ I)..|].
  qx_call 10 1 Lock (Some Locked) qx1. qx_call 20 2 Lock (Some Waits) qx2. qx_call 40 3 Lock (Some Waits) qx3.
  qx_call 10 1 Unlock (@None lockres) qx4. eapply q_other; [exact H1|exact H2|exact H3|exact H4|].
  qx_call 20 2 Resume (Some Locked) qx5. apply q_end.
Qed.

Lemma qlock_mutex_witness : q_run (dom qx_queues) 30 qx_world (view free) qx_trace qx5 (mkView (Some 2) [3]) /\ exclusive None qx_trace.
Proof.
  split; [exact qx_run|].
  exact (qlock_mutex 30 qx_world qx_queues free qx_trace qx5 _ qx_queued qx_homes (conj eq_refl eq_refl) ltac:(done) qx_run).
Defined.

Lemma qlock_fifo_witness : [] ++ [2; 3] = [2] ++ [3] /\ queue_of qx5 (30, Waiting) = [3] /\
  exists s', mkView (Some 2) [3] = view s' /\ w_qlocks qx5 !! 30 = Some (mkQLock (qs_owner s')) /\ queue_of qx5 (30, Waiting) = qs_waiting s'.
Proof.
  destruct (qlock_fifo 30 qx_world qx_queues free qx_trace qx5 _ qx_queued qx_homes (conj eq_refl eq_refl) ltac:(done) qx_run) as [E1 E2].
  split; [exact E1|]. split; [reflexivity|exact E2].
Defined.

Lemma qlock_progress_witness : exists r s' woken, q_spec 1 Lock free = Some (r, s', woken) /\
  if match r with Some Waits => single lock_world | _ => false end then q_exec 10 30 Lock lock_world = Stop Abort
  else exists w', q_exec 10 30 Lock lock_world = Done r w' /\
    let Q' := q_queues lock_world lock_queues 30 s' woken in queued w' Q' /\ homes w' Q' /\ q_rep w' Q' 30 s'.
Proof.
  apply (qlock_progress lock_world lock_queues 30 10 1 free Lock lock_queued lock_homes lock_procs free_lock_rep (proj1 lock_running));
    [done|apply not_elem_of_nil].
Defined.

Lemma procnext_refines_witness : exists w', procnext 10 lock_world = Done (Next 3) (dispatched 10 (Next 3) w') /\
  queued w' (<[(10, Runqueue) := []]> (<[(10, Idlequeue) := []]> lock_queues)) /\ relinked lock_world w'.
Proof. apply (procnext_refines lock_world lock_queues 10 (mkProc (Some 1) None None 2 0 true false) [3] [] lock_queued); reflexivity. Defined.

Lemma ex_turn : turn lock_world lock_queues 10 1 [3].
Proof.
  constructor; [apply lock_queued| | | |reflexivity|exists []; reflexivity].
  - exists (mkProc (Some 1) None None 2 0 true false). done.
  - intros u [->|[->|?%elem_of_nil]%elem_of_cons]%elem_of_cons; [| |done].
    + exists (mkThread None None 10 None false true). done.
    + exists (mkThread None None 10 None false false). done.
  - destruct lock_running as [(x & th & _ & _ & _ & _ & ?) _]. done.
Qed.

Lemma yield_round_robin_witness : exists w' Q', yields 1 10 lock_world = Done tt w' /\ turn w' Q' 10 3 [1].
Proof. apply (yield_round_robin 10 1 lock_world lock_queues 1 [3] 3 ex_turn). reflexivity. Defined.

Lemma rwakeup_wakes_witness : exists w', threadrwakeup 31 true lock_world = Done 0 w' /\ relinked lock_world w'.
Proof.
  destruct (rwakeup_wakes lock_world lock_queues 31 true [] lock_queued lock_homes) as (w' & E & _ & R); [reflexivity|]. by exists w'.
Defined.
