(* ===== verification/Regexec.v ===== *)
(** * Running regular expressions: [libregexp/regexec.c] and [regaux.c]

    A program as [regcomp.c] makes it, and the machine that runs it on a string: two arrays of
    threads, for this character and for the next. Pointers to instructions are indices into the
    program, pointers into the string offsets from its beginning [bol]. *)

From S2P Require Import Prelude Fcall Utf.
#[local] Set Primitive Projections.

(** ** Programs *)

Definition NSUBEXP : Z := 128.

(** The types of instructions; operators are their own priority. *)
Definition RUNE : Z := 0x7F.
Definition OPERATOR : Z := 0x80.
Definition START : Z := 0x80.
Definition RBRA : Z := 0x81.
Definition LBRA : Z := 0x82.
Definition OR : Z := 0x83.
Definition CAT : Z := 0x84.
Definition STAR : Z := 0x85.
Definition PLUS : Z := 0x86.
Definition QUEST : Z := 0x87.
Definition ANY : Z := 0xC0.
Definition ANYNL : Z := 0xC1.
Definition NOP : Z := 0xC2.
Definition BOL : Z := 0xC3.
Definition EOL : Z := 0xC4.
Definition CCLASS : Z := 0xC5.
Definition NCCLASS : Z := 0xC6.
Definition END : Z := 0xFF.

(** The ranges of a class: [spans] up to [end], in pairs. *)
Definition Reclass : Type := list (Z * Z).

(** [ri_u1] is the rune, the number of the subexpression, the index of the class or the right
    branch; [ri_u2] is the left branch or the next instruction. *)
Record Reinst := mkReinst { ri_type : Z; ri_u1 : option Z; ri_u2 : option Z }.

Record Reprog := mkReprog { startinst : Z; rp_class : list Reclass; firstinst : list Reinst }.

(** ** Matches and threads *)

Record Resub := mkResub { sp : option Z; ep : option Z }.

Definition nosub : Resub := mkResub None None.

Definition Resublist : Type := list Resub.

Record Relist := mkRelist { rl_inst : option Z; rl_se : Resublist }.

(** The addresses of a string are above nil. *)
Definition ptr_lt (a b : option Z) : bool :=
  match a, b with
  | Some x, Some y => x <? y
  | None, Some _ => true
  | _, None => false
  end.

(** How a run ends: it goes on, it returns -1 because an array is full, it accesses memory
    outside of an object, or it does not end. *)
Inductive ran (A : Type) := Ran (a : A) | Full | Fault | Loops.
Arguments Ran {A}.
Arguments Full {A}.
Arguments Fault {A}.
Arguments Loops {A}.

#[global] Instance ran_ret : MRet ran := fun A a => Ran a.
#[global] Instance ran_bind : MBind ran := fun A B k m =>
  match m with Ran a => k a | Full => Full | Fault => Fault | Loops => Loops end.

Definition valid {A} (o : option A) : ran A := match o with Some a => Ran a | None => Fault end.

(** [m[i]] of a list of subexpressions. *)
Definition sub (se : Resublist) (i : Z) : ran Resub := valid (load1 se i).
Definition set_sub (se : Resublist) (i : Z) (f : Resub -> Resub) : ran Resublist :=
  x ← sub se i; Ran (<[Z.to_nat i := f x]> se).

(** ** [regaux.c] *)

(** [if(ms > 1) p->se = *sep; else p->se.m[0] = sep->m[0];] *)
Definition copy_se (ms : Z) (sep old : Resublist) : ran Resublist :=
  if 1 <? ms then Ran sep else x ← sub sep 0; set_sub old 0 (fun _ => x).

(** Adds to the array [l], from [lp] on, and returns the new end as an index from [lp] when the
    instruction was not there. *)
Fixpoint _renewthread (l : list Relist) (ip ms : Z) (sep : Resublist) : ran (list Relist * option Z) :=
  match l with
  | [] => Fault
  | p :: rest =>
    match rl_inst p with
    | Some i =>
      if i =? ip then
        x ← sub sep 0;
        y ← sub (rl_se p) 0;
        if ptr_lt (sp x) (sp y) then
          se ← copy_se ms sep (rl_se p); Ran (p <| rl_se := se |> :: rest, None)
        else Ran (l, None)
      else
        r ← _renewthread rest ip ms sep; Ran (p :: fst r, option_map Z.succ (snd r))
    | None =>
      se ← copy_se ms sep (rl_se p);
      match rest with
      | [] => Fault
      | q :: rest => Ran (mkRelist (Some ip) se :: q <| rl_inst := None |> :: rest, Some 1)
      end
    end
  end.

(** [if(ms > 1) memset(&p->se, 0, sizeof(p->se)); p->se.m[0].s.sp = sp;] *)
Definition empty_se (ms s : Z) (old : Resublist) : ran Resublist :=
  set_sub (if 1 <? ms then replicate (Z.to_nat NSUBEXP) nosub else old) 0
    (fun x => x <| sp := Some s |>).

Fixpoint _renewemptythread (l : list Relist) (ip ms s : Z) : ran (list Relist) :=
  match l with
  | [] => Fault
  | p :: rest =>
    match rl_inst p with
    | Some i =>
      if i =? ip then
        y ← sub (rl_se p) 0;
        if ptr_lt (Some s) (sp y) then se ← empty_se ms s (rl_se p); Ran (p <| rl_se := se |> :: rest)
        else Ran l
      else r ← _renewemptythread rest ip ms s; Ran (p :: r)
    | None =>
      se ← empty_se ms s (rl_se p);
      match rest with
      | [] => Fault
      | q :: rest => Ran (mkRelist (Some ip) se :: q <| rl_inst := None |> :: rest)
      end
    end
  end.

(** [mp] holds the matches that are returned, [ms] of them. *)
Definition _renewmatch (mp : list Resub) (ms : Z) (se : Resublist) : ran (list Resub) :=
  if ms <=? 0 then Ran mp
  else
    m ← sub mp 0;
    x ← sub se 0;
    if match sp m with None => true | Some _ => false end || ptr_lt (sp x) (sp m)
       || (bool_decide (sp x = sp m) && ptr_lt (ep m) (ep x))
    then Ran (take (Z.to_nat (Z.min ms NSUBEXP)) se ++
              replicate (Z.to_nat (ms - NSUBEXP)) nosub ++ drop (Z.to_nat ms) mp)
    else Ran mp.

(** ** [regexec1] *)

(** The fields of [Reljunk] but for the arrays. *)
Record Reljunk := mkReljunk { starttype : Z; startchar : Z; starts : Z; j_eol : option Z }.

(** What the threads of one character change: the next array, whether there is a match, and
    the matches, when there is room for them. *)
Record mach := mkMach { nl : list Relist; matched : bool; mp : option (list Resub) }.

Section run.
Context (progp : Reprog) (ms : Z).

(** The pointer that [_renewthread] returns is the mark before the end of its array. *)
Definition room (l : list Relist) (r : option Z) : ran unit :=
  if bool_decide (r = Some (len l - 2)) then Full else Ran tt.

Definition fetch (inst : option Z) : ran Reinst :=
  i ← valid inst; valid (load1 (firstinst progp) i).

Definition in_class (c : Reclass) (r : Z) : bool :=
  existsb (fun x => (fst x <=? r) && (r <=? snd x)) c.

(** [if(_renewthread(nl, inst->u2.next, ms, &tlp->se)==nle) return -1;] *)
Definition advance (i : Reinst) (se : Resublist) (m : mach) : ran mach :=
  next ← valid (ri_u2 i);
  r ← _renewthread (nl m) next ms se;
  room (nl m) (snd r);;
  Ran (m <| nl := fst r |>).

Section char.
(** The position, the rune there, whether a line begins there, whether one ends there. *)
Context (s r : Z) (bol eol : bool).

(** The thread at the head of [l], at the instruction [inst]. *)
Fixpoint run_thread (fuel : nat) (inst : option Z) (l : list Relist) (m : mach) :
    ran (list Relist * mach) :=
  match fuel with
  | O => Loops
  | S fuel =>
    i ← fetch inst;
    t ← valid (head l);
    let t_ := tail l in
    if ri_type i =? RUNE then
      if bool_decide (ri_u1 i = Some r) then m ← advance i (rl_se t) m; Ran (l, m) else Ran (l, m)
    else if ri_type i =? LBRA then
      k ← valid (ri_u1 i);
      se ← set_sub (rl_se t) k (fun x => x <| sp := Some s |>);
      run_thread fuel (ri_u2 i) (t <| rl_se := se |> :: t_) m
    else if ri_type i =? RBRA then
      k ← valid (ri_u1 i);
      se ← set_sub (rl_se t) k (fun x => x <| ep := Some s |>);
      run_thread fuel (ri_u2 i) (t <| rl_se := se |> :: t_) m
    else if ri_type i =? ANY then
      if negb (r =? 10) then m ← advance i (rl_se t) m; Ran (l, m) else Ran (l, m)
    else if ri_type i =? ANYNL then m ← advance i (rl_se t) m; Ran (l, m)
    else if ri_type i =? BOL then if bol then run_thread fuel (ri_u2 i) l m else Ran (l, m)
    else if ri_type i =? EOL then if eol then run_thread fuel (ri_u2 i) l m else Ran (l, m)
    else if ri_type i =? CCLASS then
      k ← valid (ri_u1 i); c ← valid (load1 (rp_class progp) k);
      if in_class c r then m ← advance i (rl_se t) m; Ran (l, m) else Ran (l, m)
    else if ri_type i =? NCCLASS then
      k ← valid (ri_u1 i); c ← valid (load1 (rp_class progp) k);
      if in_class c r then Ran (l, m) else m ← advance i (rl_se t) m; Ran (l, m)
    else if ri_type i =? OR then
      right ← valid (ri_u1 i);
      x ← _renewthread l right ms (rl_se t);
      room l (snd x);;
      run_thread fuel (ri_u2 i) (fst x) m
    else if ri_type i =? END then
      se ← set_sub (rl_se t) 0 (fun x => x <| ep := Some s |>);
      mp' ← match mp m with Some p => p ← _renewmatch p ms se; Ran (Some p) | None => Ran None end;
      Ran (t <| rl_se := se |> :: t_, m <| matched := true |> <| mp := mp' |>)
    else Ran (l, m)
  end.

(** [for(tlp=tl; tlp->inst; tlp++)]; a thread goes along the instructions once at most. *)
Fixpoint run_list (fuel : nat) (l : list Relist) (m : mach) : ran (list Relist * mach) :=
  match fuel with
  | O => Loops
  | S fuel =>
    t ← valid (head l);
    match rl_inst t with
    | None => Ran (l, m)
    | Some i =>
      x ← run_thread (S (length (firstinst progp))) (Some i) l m;
      y ← run_list fuel (tail (fst x)) (snd x);
      t ← valid (head (fst x));
      Ran (t :: fst y, snd y)
    end
  end.

End char.
End run.

(** [nl->inst = 0] *)
Definition clear_list (l : list Relist) : ran (list Relist) :=
  match l with [] => Fault | p :: rest => Ran (p <| rl_inst := None |> :: rest) end.

Definition no_threads (l : list Relist) : bool :=
  match l with p :: _ => match rl_inst p with None => true | Some _ => false end | [] => false end.

(** [utfrune(s, c)], as an offset from [bol]. *)
Definition utfrune_at (text : bytes) (s c : Z) : ran (option Z) :=
  p ← valid (utfrune (drop (Z.to_nat s) text) c); Ran (option_map (Z.add s) p).

Section exec.
Context (progp : Reprog) (ms : Z) (j : Reljunk) (text : bytes).

(** The fast check for the first character: where to go on, or nothing when the run returns. *)
Definition skip (checkstart : bool) (s : Z) : ran (option Z) :=
  if negb checkstart then Ran (Some s)
  else if starttype j =? RUNE then
    p ← utfrune_at text s (startchar j);
    Ran (if bool_decide (Some s = j_eol j) then None else p)
  else if starttype j =? BOL then
    if s =? 0 then Ran (Some s)
    else
      p ← utfrune_at text s 10;
      Ran (if bool_decide (Some s = j_eol j) then None else option_map Z.succ p)
  else Ran (Some s).

Definition rune_at (s : Z) : ran (Z * Z) :=
  r ← valid (load1 text s);
  if r <? Runeself then Ran (r, 1) else valid (chartorune (drop (Z.to_nat s) text)).

(** [s == bol || *(s-1) == '\n'] *)
Definition at_bol (s : Z) : ran bool :=
  if s =? 0 then Ran true else c ← valid (load1 text (s - 1)); Ran (c =? 10).

(** The loop over the characters. [tl] is the array that is run, [nl m] the other one. *)
Fixpoint regexec1_loop (fuel : nat) (checkstart : bool) (s : Z) (tl : list Relist) (m : mach) :
    ran (bool * option (list Resub)) :=
  match fuel with
  | O => Loops
  | S fuel =>
    p ← skip checkstart s;
    match p with
    | None => Ran (matched m, mp m)
    | Some s =>
      x ← rune_at s;
      let r := fst x in
      nl0 ← clear_list (nl m);
      tl0 ← if matched m then Ran tl else _renewemptythread tl (startinst progp) ms s;
      b ← at_bol s;
      let e := bool_decide (Some s = j_eol j) || (r =? 0) || (r =? 10) in
      y ← run_list progp ms s r b e (length tl0) tl0 (m <| nl := nl0 |>);
      let m := snd y in
      if bool_decide (Some s = j_eol j) then Ran (matched m, mp m)
      else if r =? 0 then Ran (matched m, mp m)
      else regexec1_loop fuel (negb (starttype j =? 0) && no_threads (nl m)) (s + snd x)
             (nl m) (m <| nl := fst y |>)
    end
  end.

(** The result is -1 ([Full]), or whether there is a match, with the matches. *)
Definition regexec1 (mp : option (list Resub)) (relist0 relist1 : list Relist) :
    ran (bool * option (list Resub)) :=
  let mp := option_map (fun l => replicate (Z.to_nat ms) nosub ++ drop (Z.to_nat ms) l) mp in
  l0 ← clear_list relist0;
  l1 ← clear_list relist1;
  regexec1_loop (S (length text)) (negb (starttype j =? 0)) (starts j) l0 (mkMach l1 false mp).

End exec.

Definition LISTSIZE : Z := 10.
Definition BIGLISTSIZE : Z := 25 * LISTSIZE.

(** [regexec] up to the runs: where they start and end, and the test of the first instruction. *)
Definition exec_junk (progp : Reprog) (mp : option (list Resub)) (ms : Z) : ran Reljunk :=
  x ← match mp with Some l => if 0 <? ms then sub l 0 else Ran nosub | None => Ran nosub end;
  let st := match sp x with Some s => s | None => 0 end in
  i ← valid (load1 (firstinst progp) (startinst progp));
  c ← if ri_type i =? RUNE then valid (ri_u1 i) else Ran Runeself;
  Ran (if c <? Runeself then mkReljunk RUNE c st (ep x)
       else mkReljunk (if ri_type i =? BOL then BOL else 0) 0 st (ep x)).

(** [regexec2]: larger arrays from [malloc], unless there is no memory for them. *)
Definition regexec2 (progp : Reprog) (ms : Z) (j : Reljunk) (text : bytes) (mp : option (list Resub))
    (heap : option (list Relist * list Relist)) : ran (bool * option (list Resub)) :=
  match heap with
  | Some h => regexec1 progp ms j text mp (fst h) (snd h)
  | None => Full
  end.

(** [stack] and [heap] are the memory of the arrays, with what there is in it; with the large
    ones the run starts again. *)
Definition regexec (progp : Reprog) (text : bytes) (mp : option (list Resub)) (ms : Z)
    (stack : list Relist * list Relist) (heap : option (list Relist * list Relist)) :
    ran (bool * option (list Resub)) :=
  j ← exec_junk progp mp ms;
  match regexec1 progp ms j text mp (fst stack) (snd stack) with
  | Full => regexec2 progp ms j text mp heap
  | r => r
  end.
