(* ===== verification/Regcomp.v ===== *)
(** * Compiling regular expressions: [libregexp/regcomp.c]

    The lexical analysis, the classes of characters, and the parser by priorities, which keeps a
    stack of operators and one of operands and emits the instructions of a program. The static
    variables of the file are the state [comp]; pointers to instructions and classes are indices;
    a stack is a list with its top first. *)

From S2P Require Import Prelude Fcall Utf Regexec.
From stdpp Require Import strings.
#[local] Open Scope Z_scope.
#[local] Set Primitive Projections.

(** ** State *)

Record Node := mkNode { first : Z; last : Z }.

Definition NSTACK : Z := 20.
Definition NCLASS : Z := 128.
Definition NCCRUNE : Z := 64.

(** [co_ators] holds [atorstack] and [subidstack] together; [co_insts] are the instructions
    before [freep], of which [co_room] can be allocated; [co_classes] are those before
    [nclass]. *)
Record rcomp := mkComp {
  co_ands : list Node; co_ators : list (Z * Z); cursubid : Z; lastwasand : bool; nbra : Z;
  exprp : bytes; lexdone : bool; co_classes : list Reclass; co_insts : list Reinst; co_room : Z;
  yyrune : Z; yyclassp : Z }.

(** A function returns, calls [rcerror], which leaves the compiler by [longjmp], or accesses
    memory outside of an object. *)
Inductive rcres (A : Type) := Rc (a : A) (st : rcomp) | Rcerror (s : string) | Rcfault.
Arguments Rc {A}.
Arguments Rcerror {A}.
Arguments Rcfault {A}.

Definition rcm (A : Type) : Type := rcomp -> rcres A.

#[global] Instance rcm_ret : MRet rcm := fun A a st => Rc a st.
#[global] Instance rcm_bind : MBind rcm := fun A B k m st =>
  match m st with Rc a st => k a st | Rcerror s => Rcerror s | Rcfault => Rcfault end.

Definition rcerror {A} (s : string) : rcm A := fun _ => Rcerror s.
Definition rcfault {A} : rcm A := fun _ => Rcfault.
Definition static {A} (f : rcomp -> A) : rcm A := fun st => Rc (f st) st.
Definition assign (f : rcomp -> rcomp) : rcm unit := fun st => Rc tt (f st).

(** [regerr2] and [cant] *)
Definition regerr2 {A} (s : string) (c : Z) : rcm A :=
  rcerror (s ++ String (Ascii.ascii_of_nat (Z.to_nat c)) EmptyString)%string.
Definition cant {A} (s : string) : rcm A := rcerror ("can't happen: " ++ s)%string.

(** ** Instructions and stacks *)

Definition newinst (t : Z) : rcm Z :=
  prg ← static co_insts;
  n ← static co_room;
  if len prg <? n then
    assign (fun st => st <| co_insts := prg ++ [mkReinst t None None] |>);; mret (len prg)
  else rcfault.

(** [i->u1 = v] and [i->u2.next = v] *)
Definition set_u1 (i v : Z) : rcm unit :=
  prg ← static co_insts;
  match load1 prg i with
  | Some x => assign (fun st => st <| co_insts := <[Z.to_nat i := x <| ri_u1 := Some v |>]> prg |>)
  | None => rcfault
  end.
Definition set_u2 (i v : Z) : rcm unit :=
  prg ← static co_insts;
  match load1 prg i with
  | Some x => assign (fun st => st <| co_insts := <[Z.to_nat i := x <| ri_u2 := Some v |>]> prg |>)
  | None => rcfault
  end.

Definition pushand (f l : Z) : rcm unit :=
  s ← static co_ands;
  if NSTACK <=? len s then cant "operand stack overflow"
  else assign (fun st => st <| co_ands := mkNode f l :: s |>).

Definition pushator (t : Z) : rcm unit :=
  s ← static co_ators;
  n ← static cursubid;
  if NSTACK <=? len s then cant "operator stack overflow"
  else assign (fun st => st <| co_ators := (t, n) :: s |>).

Definition popand (op : Z) : rcm Node :=
  s ← static co_ands;
  match s with
  | [] => regerr2 "missing operand for " op
  | n :: s => assign (fun st => st <| co_ands := s |>);; mret n
  end.

(** One operator of [evaluntil], with the number of its subexpression; [true] when the function
    returns. *)
Definition evaluate (op subid : Z) : rcm bool :=
  if op =? LBRA then
    op1 ← popand 40;
    inst2 ← newinst RBRA;
    set_u1 inst2 subid;;
    set_u2 (last op1) inst2;;
    inst1 ← newinst LBRA;
    set_u1 inst1 subid;;
    set_u2 inst1 (first op1);;
    pushand inst1 inst2;;
    mret true
  else if op =? OR then
    op2 ← popand 124;
    op1 ← popand 124;
    inst2 ← newinst NOP;
    set_u2 (last op2) inst2;;
    set_u2 (last op1) inst2;;
    inst1 ← newinst OR;
    set_u1 inst1 (first op1);;
    set_u2 inst1 (first op2);;
    pushand inst1 inst2;;
    mret false
  else if op =? CAT then
    op2 ← popand 0;
    op1 ← popand 0;
    set_u2 (last op1) (first op2);;
    pushand (first op1) (last op2);;
    mret false
  else if op =? STAR then
    op2 ← popand 42;
    inst1 ← newinst OR;
    set_u2 (last op2) inst1;;
    set_u1 inst1 (first op2);;
    pushand inst1 inst1;;
    mret false
  else if op =? PLUS then
    op2 ← popand 43;
    inst1 ← newinst OR;
    set_u2 (last op2) inst1;;
    set_u1 inst1 (first op2);;
    pushand (first op2) inst1;;
    mret false
  else if op =? QUEST then
    op2 ← popand 63;
    inst1 ← newinst OR;
    inst2 ← newinst NOP;
    set_u2 inst1 inst2;;
    set_u1 inst1 (first op2);;
    set_u2 (last op2) inst2;;
    pushand inst1 inst2;;
    mret false
  else rcerror "unknown operator in evaluntil".

(** The loop, along the stack of operators; [atorp[-1]] of an empty stack is not in it. *)
Fixpoint evaluntil_loop (pri : Z) (ators : list (Z * Z)) : rcm unit :=
  match ators with
  | [] => if pri =? RBRA then cant "operator stack underflow" else rcfault
  | (op, subid) :: ators =>
    if (pri =? RBRA) || (pri <=? op) then
      assign (fun st => st <| co_ators := ators |>);;
      done ← evaluate op subid;
      if (done : bool) then mret tt else evaluntil_loop pri ators
    else mret tt
  end.

Definition evaluntil (pri : Z) : rcm unit := s ← static co_ators; evaluntil_loop pri s.

(** [operator] of any operator but the left bracket, which calls it for [CAT]. *)
Definition operator_eval (t : Z) : rcm unit :=
  evaluntil t;;
  (if t =? RBRA then mret tt else pushator t);;
  assign (fun st => st <| lastwasand := (t =? STAR) || (t =? QUEST) || (t =? PLUS) || (t =? RBRA) |>).

Definition operator (t : Z) : rcm unit :=
  (if t =? RBRA then
     n ← static nbra;
     assign (fun st => st <| nbra := n - 1 |>);;
     if n - 1 <? 0 then rcerror "unmatched right paren" else mret tt
   else mret tt);;
  if t =? LBRA then
    n ← static cursubid;
    assign (fun st => st <| cursubid := n + 1 |>);;
    (if NSUBEXP <=? n + 1 then rcerror "too many subexpressions" else mret tt);;
    assign (fun st => st <| nbra := nbra st + 1 |>);;
    b ← static lastwasand;
    (if (b : bool) then operator_eval CAT else mret tt);;
    pushator LBRA;;
    assign (fun st => st <| lastwasand := false |>)
  else operator_eval t.

Definition operand (t : Z) : rcm unit :=
  b ← static lastwasand;
  (if (b : bool) then operator CAT else mret tt);;
  i ← newinst t;
  (if (t =? CCLASS) || (t =? NCCLASS) then c ← static yyclassp; set_u1 i c else mret tt);;
  (if t =? RUNE then r ← static yyrune; set_u1 i r else mret tt);;
  pushand i i;;
  assign (fun st => st <| lastwasand := true |>).

(** ** Lexical analysis *)

Definition newclass : rcm Z :=
  cs ← static co_classes;
  if NCLASS <=? len cs then rcerror "too many character classes; increase Reprog.class size"
  else assign (fun st => st <| co_classes := cs ++ [[]] |>);; mret (len cs).

(** [exprp += chartorune(rp, exprp)] *)
Definition exprrune : rcm Z :=
  s ← static exprp;
  match chartorune s with
  | Some (r, n) => assign (fun st => st <| exprp := drop (Z.to_nat n) s |>);; mret r
  | None => rcfault
  end.

(** Whether the character is quoted, and the character. *)
Definition nextc : rcm (bool * Z) :=
  d ← static lexdone;
  if (d : bool) then mret (true, 0)
  else
    r ← exprrune;
    if r =? 92 then r ← exprrune; mret (true, r)
    else
      (if r =? 0 then assign (fun st => st <| lexdone := true |>) else mret tt);;
      mret (false, r).

(** The loop that reads the ranges; [r] holds those before [ep], the last one first. *)
Fixpoint class_spans (fuel : nat) (r : list (Z * Z)) (quoted : bool) (rune : Z) : rcm (list (Z * Z)) :=
  match fuel with
  | O => rcfault
  | S fuel =>
    if NCCRUNE - 1 <=? 2 * len r then rcerror "char class too large; increase Reclass.spans size"
    else if rune =? 0 then rcerror "malformed '[]'"
    else if negb quoted && (rune =? 93) then mret r
    else if negb quoted && (rune =? 45) then
      match r with
      | [] => rcerror "malformed '[]'"
      | (lo, _) :: r =>
        x ← nextc;
        if negb (fst x) && (snd x =? 93) || (snd x =? 0) then rcerror "malformed '[]'"
        else y ← nextc; class_spans fuel ((lo, snd x) :: r) (fst y) (snd y)
      end
    else y ← nextc; class_spans fuel ((rune, rune) :: r) (fst y) (snd y)
  end.

(** One turn of the sort: the least start comes to the front by exchanges. *)
Fixpoint sort_turn (p : Z * Z) (l : list (Z * Z)) : (Z * Z) * list (Z * Z) :=
  match l with
  | [] => (p, [])
  | np :: l =>
    if fst np <? fst p then let x := sort_turn np l in (fst x, p :: snd x)
    else let x := sort_turn p l in (fst x, np :: snd x)
  end.

Fixpoint sort_spans (n : nat) (l : list (Z * Z)) : list (Z * Z) :=
  match n, l with
  | S n, p :: l => let x := sort_turn p l in fst x :: sort_spans n (snd x)
  | _, _ => l
  end.

(** Overlapping and adjacent ranges become one; [np] is the one that is written. *)
Fixpoint merge_spans (np : Z * Z) (l : list (Z * Z)) : list (Z * Z) :=
  match l with
  | [] => [np]
  | p :: l =>
    if fst p <=? wrap 32 (snd np + 1) then
      merge_spans (if snd np <=? snd p then (fst np, snd p) else np) l
    else np :: merge_spans p l
  end.

(** A turn of the loop takes at least one of the 32 ranges or a range and a byte. *)
Definition bldcclass : rcm Z :=
  c ← newclass;
  assign (fun st => st <| yyclassp := c |>);;
  x ← nextc;
  y ← (if negb (fst x) && (snd x =? 94) then x ← nextc; mret (NCCLASS, [(10, 10)], x)
       else mret (CCLASS, [], x));
  let '(type, r, x) := y in
  n ← static (fun st => length (exprp st));
  r ← class_spans (S (S n)) r (fst x) (snd x);
  let spans := match sort_spans (length r) (rev r) with [] => [] | p :: l => merge_spans p l end in
  assign (fun st => st <| co_classes := <[Z.to_nat c := spans]> (co_classes st) |>);;
  mret type.

Definition lex (literal : bool) (dot_type : Z) : rcm Z :=
  x ← nextc;
  let r := snd x in
  assign (fun st => st <| yyrune := r |>);;
  if literal || fst x then mret (if r =? 0 then END else RUNE)
  else if r =? 0 then mret END
  else if r =? 42 then mret STAR
  else if r =? 63 then mret QUEST
  else if r =? 43 then mret PLUS
  else if r =? 124 then mret OR
  else if r =? 46 then mret dot_type
  else if r =? 40 then mret LBRA
  else if r =? 41 then mret RBRA
  else if r =? 94 then mret BOL
  else if r =? 36 then mret EOL
  else if r =? 91 then bldcclass
  else mret RUNE.

(** ** The whole *)

(** [while(target->type == NOP) target = target->u2.next;] *)
Fixpoint skip_nops (fuel : nat) (prg : list Reinst) (target : option Z) : option Z :=
  match fuel with
  | O => None
  | S fuel =>
    t ← target;
    i ← load1 prg t;
    if ri_type i =? NOP then skip_nops fuel prg (ri_u2 i) else Some t
  end.

(** The loop of [optimize] over [n] instructions from [k] on, up to [END]. The program keeps its
    indices when it is moved to a smaller place. *)
Fixpoint optimize (n k : nat) (prg : list Reinst) : option (list Reinst) :=
  match n with
  | O => None
  | S n =>
    i ← prg !! k;
    if ri_type i =? END then Some prg
    else
      t ← skip_nops (S (length prg)) prg (ri_u2 i);
      optimize n (S k) (<[k := i <| ri_u2 := Some t |>]> prg)
  end.

(** [while((token = lex(literal, dot_type)) != END)] *)
Fixpoint regcomp1_loop (fuel : nat) (literal : bool) (dot_type : Z) : rcm unit :=
  match fuel with
  | O => rcfault
  | S fuel =>
    token ← lex literal dot_type;
    if token =? END then mret tt
    else
      (if (token .& 0xC0) =? OPERATOR then operator token else operand token);;
      regcomp1_loop fuel literal dot_type
  end.

(** Everything after the first call of [malloc] and up to [optimize]: the first instruction. *)
Definition regcomp1_body (fuel : nat) (literal : bool) (dot_type : Z) : rcm Z :=
  pushator (START - 1);;
  regcomp1_loop fuel literal dot_type;;
  evaluntil START;;
  operand END;;
  evaluntil START;;
  n ← static nbra;
  (if n =? 0 then mret tt else rcerror "unmatched left paren");;
  s ← static co_ands;
  match s with n :: _ => mret (first n) | [] => rcfault end.

Definition regcomp1_start (s : bytes) : rcomp :=
  mkComp [] [] 0 false 0 s false [] [] (5 + 6 * strlen s) 0 0.

(** The program, the message of [regerror], or an access outside of an object. *)
Inductive compiled := Program (p : Reprog) | Error (s : string) | Invalid.

Definition regcomp1 (s : bytes) (literal : bool) (dot_type : Z) : compiled :=
  match regcomp1_body (S (length s)) literal dot_type (regcomp1_start s) with
  | Rc start st =>
    match optimize (length (co_insts st)) 0 (co_insts st) with
    | Some prg => Program (mkReprog start (co_classes st) prg)
    | None => Invalid
    end
  | Rcerror e => Error e
  | Rcfault => Invalid
  end.

Definition regcomp (s : bytes) : compiled := regcomp1 s false ANY.
Definition regcomplit (s : bytes) : compiled := regcomp1 s true ANY.
Definition regcompnl (s : bytes) : compiled := regcomp1 s false ANYNL.
