(* ===== verification/RegexecRun.v ===== *)
(** * What a thread does on a character

    The instructions as an automaton on the positions of a string, and what the threads of
    [regexec1] do at one position: they follow every path without a character, and put every
    instruction that is reached over the character in the next array. *)

From S2P Require Import Prelude Fcall Utf Regexec.

(** ** The automaton *)

(** The instructions that follow [i] without a character, where a line begins and ends as
    [bol] and [eol] say. *)
Definition succs (bol eol : bool) (i : Reinst) : list Z :=
  let next := option_list (ri_u2 i) in
  if ri_type i =? LBRA then next
  else if ri_type i =? RBRA then next
  else if ri_type i =? BOL then if bol then next else []
  else if ri_type i =? EOL then if eol then next else []
  else if ri_type i =? OR then option_list (ri_u1 i) ++ next
  else [].

(** Whether [i] takes the rune [r]. *)
Definition takes (classes : list Reclass) (i : Reinst) (r : Z) : bool :=
  let class := u ← ri_u1 i; load1 classes u in
  if ri_type i =? RUNE then bool_decide (ri_u1 i = Some r)
  else if ri_type i =? ANY then negb (r =? 10)
  else if ri_type i =? ANYNL then true
  else if ri_type i =? CCLASS then from_option (fun c => in_class c r) false class
  else if ri_type i =? NCCLASS then from_option (fun c => negb (in_class c r)) false class
  else false.

(** ** Arrays of threads *)

Definition se_ok (se : Resublist) : Prop := len se = NSUBEXP.

(** The threads of an array, an instruction and the start of the match each. *)
Inductive threads : list Relist -> list (Z * Z) -> Prop :=
| threads_nil q rest : rl_inst q = None -> Forall (fun t => se_ok (rl_se t)) (q :: rest) ->
  threads (q :: rest) []
| threads_cons t pc x y se l ts :
    rl_inst t = Some pc -> rl_se t = mkResub (Some x) y :: se -> se_ok (rl_se t) -> threads l ts ->
      threads (t :: l) ((pc, x) :: ts).

Fixpoint add_thread (pc x : Z) (ts : list (Z * Z)) : list (Z * Z) :=
  match ts with
  | [] => [(pc, x)]
  | (q, y) :: ts => if q =? pc then (q, Z.min x y) :: ts else (q, y) :: add_thread pc x ts
  end.

(** [ts] has a thread at [pc] that started at [x] or before. *)
Definition dom (ts : list (Z * Z)) (pc x : Z) : Prop := exists y, y <= x /\ (pc, y) ∈ ts.

Lemma dom_app ts us pc x : dom (ts ++ us) pc x <-> dom ts pc x \/ dom us pc x.
Proof. unfold dom. setoid_rewrite elem_of_app. naive_solver. Qed.

Lemma dom_cons q y ts pc x : dom ((q, y) :: ts) pc x <-> (pc = q /\ y <= x) \/ dom ts pc x.
Proof. unfold dom. setoid_rewrite elem_of_cons. naive_solver. Qed.

Lemma dom_weaken ts pc x y : dom ts pc x -> x <= y -> dom ts pc y.
Proof. intros (z & ? & ?) ?. exists z. split; [lia|done]. Qed.

Lemma dom_add pc x ts q y : dom (add_thread pc x ts) q y <-> (q = pc /\ x <= y) \/ dom ts q y.
Proof.
  induction ts as [|[p z] ts IH]; cbn [add_thread].
  - rewrite dom_cons. unfold dom. set_solver.
  - destruct (Z.eqb_spec p pc) as [->|]; rewrite !dom_cons; [|naive_solver].
    split; [intros [[-> ?]|?]; [|auto]|intros [[-> ?]|[[-> ?]|?]]; [left; split; [done|lia]..|auto]].
    destruct (Z.min_spec x z) as [[_ E]|[_ E]]; rewrite E in *; auto.
Qed.

Lemma elem_add pc x ts q y : (q, y) ∈ add_thread pc x ts -> (q, y) = (pc, x) \/ (q, y) ∈ ts.
Proof.
  induction ts as [|[p z] ts IH]; cbn [add_thread]; [set_solver|].
  destruct (Z.eqb_spec p pc) as [->|].
  - intros [[= -> ->]|?]%elem_of_cons; [|set_solver].
    destruct (Z.min_spec x z) as [[_ ->]|[_ ->]]; set_solver.
  - intros [?|?%IH]%elem_of_cons; set_solver.
Qed.

Lemma add_pcs pc x ts : map fst (add_thread pc x ts) =
  if bool_decide (pc ∈ map fst ts) then map fst ts else map fst ts ++ [pc].
Proof.
  induction ts as [|[p z] ts IH]; cbn [add_thread map fst]; [done|].
  destruct (Z.eqb_spec p pc) as [->|Hne]; cbn [map fst].
  - rewrite bool_decide_eq_true_2 by set_solver. done.
  - rewrite IH.
    destruct (bool_decide_reflect (pc ∈ map fst ts));
      [rewrite bool_decide_eq_true_2 by set_solver; done|].
    rewrite bool_decide_eq_false_2 by set_solver. done.
Qed.

Lemma threads_ok l ts : threads l ts -> Forall (fun t => se_ok (rl_se t)) l.
Proof. induction 1; [done|by constructor]. Qed.

Lemma threads_length l ts : threads l ts -> (length ts < length l)%nat.
Proof. induction 1; cbn in *; lia. Qed.

Lemma threads_nil_inv l : threads l [] -> exists q rest, l = q :: rest /\ rl_inst q = None.
Proof. inversion 1. eauto. Qed.

Lemma valid_inv {T} (o : option T) a : valid o = Ran a -> o = Some a.
Proof. destruct o; [|done]. by intros [= ->]. Qed.

Lemma ran_bind_inv {A B} (m : ran A) (k : A -> ran B) b : m ≫= k = Ran b -> exists a, m = Ran a /\
  k a = Ran b.
Proof. destruct m; try done. intros E. by exists a. Qed.

Lemma copy_se_ok ms x y se old z old' :
  se_ok (mkResub (Some x) y :: se) -> se_ok (z :: old') -> old = z :: old' ->
  exists y' se', copy_se ms (mkResub (Some x) y :: se) old = Ran (mkResub (Some x) y' :: se') /\
    se_ok (mkResub (Some x) y' :: se').
Proof.
  intros H H' ->. unfold copy_se. destruct (1 <? ms); [eauto|]. exists y, old'. split; [done|].
  unfold se_ok in *. cbn in *. lia.
Qed.

Lemma se_ok_cons se : se_ok se -> exists z old, se = z :: old.
Proof. destruct se; [done|eauto]. Qed.

(** [_renewthread] adds a thread, or keeps the one with the earlier start; it fails only when the
    array has no place for the new thread and the end. *)
Lemma renewthread_ok ms x y se : se_ok (mkResub (Some x) y :: se) -> forall l ts pc,
  threads l ts ->
  (exists l', _renewthread l pc ms (mkResub (Some x) y :: se) =
    Ran (l', if bool_decide (pc ∈ map fst ts) then None else Some (len ts + 1)) /\
    length l' = length l /\ threads l' (add_thread pc x ts)) \/
  (length l < length ts + 2)%nat /\ pc ∉ map fst ts /\
    _renewthread l pc ms (mkResub (Some x) y :: se) = Fault.
Proof.
  intros Hse l ts pc H.
  induction H as [q rest Hq Hf|t q z y' se' l ts Ht Hs Hok Hl IH]; cbn [_renewthread].
  - rewrite Hq. inversion Hf as [|? ? Hq' Hrest]; subst. destruct (se_ok_cons _ Hq') as (z & old & Eo).
    destruct (copy_se_ok ms x y se (rl_se q) z old Hse) as (y1 & se1 & -> & H1);
      [by rewrite <- Eo|done|].
    cbn [mbind ran_bind].
    destruct rest as [|p rest]; [right; split_and!; [cbn; lia|set_solver|done]|]. left. eexists.
    split; [done|]. split; [done|].
    cbn [add_thread]. inversion Hrest; subst. eapply threads_cons; [done|done|done|].
    apply threads_nil; [done|by constructor].
  - rewrite Ht. cbn [map fst]. destruct (Z.eqb_spec q pc) as [->|Hne].
    + left. rewrite bool_decide_eq_true_2 by set_solver. rewrite Hs.
      cbn [sub valid load1 lookup list_lookup mbind ran_bind Z.leb Z.compare sp ptr_lt Z.to_nat].
      cbn [add_thread]. rewrite Z.eqb_refl. destruct (Z.ltb_spec x z).
      * destruct (copy_se_ok ms x y se (rl_se t) (mkResub (Some z) y') se' Hse) as (y1 & se1 & E1 & H1);
          [by rewrite <- Hs|done|].
        rewrite Hs in E1.
        change (sub (mkResub (Some x) y :: se) 0) with (Ran (mkResub (Some x) y)). cbn [mbind ran_bind].
        change (sub (mkResub (Some z) y' :: se') 0) with (Ran (mkResub (Some z) y')).
        cbn [mbind ran_bind sp ptr_lt].
        rewrite (proj2 (Z.ltb_lt x z)) by done. rewrite E1. cbn [mbind ran_bind]. eexists.
        split_and!; [done..|].
        rewrite Z.min_l by lia. by eapply threads_cons.
      * change (sub (mkResub (Some x) y :: se) 0) with (Ran (mkResub (Some x) y)). cbn [mbind ran_bind].
        change (sub (mkResub (Some z) y' :: se') 0) with (Ran (mkResub (Some z) y')).
        cbn [mbind ran_bind sp ptr_lt].
        rewrite (proj2 (Z.ltb_ge x z)) by done. eexists. split_and!; [done..|].
        rewrite Z.min_r by lia. by eapply threads_cons.
    + cbn [add_thread]. rewrite (proj2 (Z.eqb_neq q pc)) by done.
      destruct IH as [(l' & E & El & IH)|(Hlen & Hpc & E)].
      * left. rewrite E. cbn [mbind ran_bind fst snd]. exists (t :: l').
        split_and!; [|cbn; lia|by eapply threads_cons].
        do 2 f_equal. destruct (bool_decide_reflect (pc ∈ map fst ts)).
        -- rewrite bool_decide_eq_true_2 by set_solver. done.
        -- rewrite bool_decide_eq_false_2 by set_solver. cbn [option_map length]. f_equal. lia.
      * right. rewrite E. split_and!; [cbn; lia|set_solver|done].
Qed.

Lemma empty_se_ok ms s old : se_ok old ->
  exists y se, empty_se ms s old = Ran (mkResub (Some s) y :: se) /\ se_ok (mkResub (Some s) y :: se).
Proof.
  intros H. destruct (se_ok_cons _ H) as (z & old' & ->). unfold empty_se. destruct (1 <? ms).
  - exists None, (replicate 127 nosub). by split.
  - exists (ep z), old'. split; [done|]. unfold se_ok in *. cbn [length] in *. lia.
Qed.

Lemma renewemptythread_ok ms s : forall l ts pc, threads l ts ->
  (exists l', _renewemptythread l pc ms s = Ran l' /\ length l' = length l /\
    threads l' (add_thread pc s ts)) \/
  (length l < length ts + 2)%nat /\ pc ∉ map fst ts /\ _renewemptythread l pc ms s = Fault.
Proof.
  intros l ts pc H.
  induction H as [q rest Hq Hf|t q z y' se' l ts Ht Hs Hok Hl IH]; cbn [_renewemptythread].
  - rewrite Hq. inversion Hf as [|? ? Hq' Hrest]; subst.
    destruct (empty_se_ok ms s _ Hq') as (y & se & -> & Hse). cbn [mbind ran_bind].
    destruct rest as [|p rest]; [right; split_and!; [cbn; lia|set_solver|done]|]. left. eexists.
    split; [done|]. split; [done|].
    cbn [add_thread]. inversion Hrest; subst. eapply threads_cons; [done|done|done|].
    apply threads_nil; [done|by constructor].
  - rewrite Ht. cbn [map fst add_thread]. destruct (Z.eqb_spec q pc) as [->|Hne].
    + left. rewrite Hs. change (sub (mkResub (Some z) y' :: se') 0) with (Ran (mkResub (Some z) y')).
      cbn [mbind ran_bind sp ptr_lt]. destruct (Z.ltb_spec s z).
      * rewrite <- Hs. destruct (empty_se_ok ms s _ Hok) as (y & se & -> & Hse). eexists.
        split_and!; [done..|]. rewrite Z.min_l by lia. by eapply threads_cons.
      * eexists. split_and!; [done..|]. rewrite Z.min_r by lia. by eapply threads_cons.
    + destruct IH as [(l' & -> & El & IH)|(Hlen & Hpc & ->)].
      * left. exists (t :: l'). split_and!; [done|cbn; lia|by eapply threads_cons].
      * right. split_and!; [cbn; lia|set_solver|done].
Qed.

(** ** The best match so far *)

Definition upd_best (best : option (Z * Z)) (x s : Z) : option (Z * Z) :=
  match best with
  | None => Some (x, s)
  | Some (b, e) => if (x <? b) || (x =? b) && (e <? s) then Some (x, s) else best
  end.

(** The best match starts before [x], or starts there and ends at [e] or later. *)
Definition best_le (best : option (Z * Z)) (x e : Z) : Prop :=
  exists b f, best = Some (b, f) /\ (b < x \/ b = x /\ e <= f).

Lemma upd_best_le best x s : best_le (upd_best best x s) x s.
Proof.
  destruct best as [[b e]|]; cbn [upd_best]; [|exists x, s; split; [done|lia]].
  destruct (_ || _) eqn:E; [exists x, s; split; [done|lia]|exists b, e; split; [done|]].
  apply orb_false_iff in E as [E1%Z.ltb_ge E2]. destruct (Z.eqb_spec x b); [|lia]. apply Z.ltb_ge in E2.
  lia.
Qed.

Lemma upd_best_mono best x s y f : best_le best y f -> best_le (upd_best best x s) y f.
Proof.
  intros (b & e & -> & H). cbn [upd_best].
  destruct (_ || _) eqn:E; [exists x, s|exists b, e]; (split; [done|]); [|done].
  apply orb_true_iff in E as [E%Z.ltb_lt|[E1%Z.eqb_eq E2%Z.ltb_lt]%andb_true_iff]; lia.
Qed.

Definition best_sub (best : option (Z * Z)) : Resub :=
  match best with Some (b, e) => mkResub (Some b) (Some e) | None => nosub end.

(** The first of the matches that are returned is the best one. *)
Definition mp_ok (ms : Z) (mp : option (list Resub)) (best : option (Z * Z)) : Prop :=
  match mp with Some l => 0 < ms -> exists rest, l = best_sub best :: rest | None => True end.

Lemma renewmatch_ok ms l best x s se : mp_ok ms (Some l) best -> exists l',
  _renewmatch l ms (mkResub (Some x) (Some s) :: se) = Ran l' /\ mp_ok ms (Some l') (upd_best best x s).
Proof.
  intros H. unfold _renewmatch.
  destruct (Z.leb_spec ms 0) as [Hms|Hms]; [exists l; split; [done|]; cbn; lia|].
  destruct (H Hms) as (rest & ->). change (sub (best_sub best :: rest) 0) with (Ran (best_sub best)).
  change (sub (mkResub (Some x) (Some s) :: se) 0) with (Ran (mkResub (Some x) (Some s))).
  cbn [mbind ran_bind sp ep].
  assert (exists k, Z.to_nat (Z.min ms NSUBEXP) = S k) as [k Ek]
    by (exists (pred (Z.to_nat (Z.min ms NSUBEXP))); unfold NSUBEXP; lia).
  rewrite Ek. destruct best as [[b e]|]; cbn [best_sub sp ep ptr_lt upd_best orb].
  - replace (bool_decide (Some x = Some b)) with (x =? b)
      by (destruct (Z.eqb_spec x b) as [->|];
        [by rewrite bool_decide_eq_true_2|by rewrite bool_decide_eq_false_2 by congruence]).
    destruct (_ || _); eexists; (split; [done|]); intros _; [by eexists|by eexists].
  - eexists. split; [done|]. intros _. by eexists.
Qed.

(** ** One thread *)

Section char.
Context (progp : Reprog) (ms s r : Z) (bol eol : bool).

Definition inst_at (pc : Z) : option Reinst := load1 (firstinst progp) pc.

(** Brackets do not use the entry of the whole match. *)
Definition brackets_ok : Prop := forall pc i, inst_at pc = Some i -> ri_type i = LBRA \/
  ri_type i = RBRA -> ri_u1 i <> Some 0.

Record mach_ok (m : mach) (ns : list (Z * Z)) (best : option (Z * Z)) : Prop := mkMachOk {
  mo_nl : threads (nl m) ns;
  mo_matched : matched m = match best with Some _ => true | None => false end;
  mo_mp : mp_ok ms (mp m) best }.

(** What there is to do after the instruction [q] was executed for a match from [y] is done: its
    successors are among [ts], what it reaches over the character in [ns], a match in [best]. *)
Definition executed (ts ns : list (Z * Z)) (best : option (Z * Z)) (q y : Z) : Prop :=
  exists i, inst_at q = Some i /\
    (forall q', q' ∈ succs bol eol i -> dom ts q' y) /\
    (takes (rp_class progp) i r = true -> forall q', ri_u2 i = Some q' -> dom ns q' y) /\
    (ri_type i = END -> best_le best y s).

(** More is there than before. *)
Record grows (ts ns : list (Z * Z)) (best : option (Z * Z)) (ts' ns' : list (Z * Z))
  (best' : option (Z * Z)) : Prop := mkGrows {
  gr_ts : forall q y, dom ts q y -> dom ts' q y;
  gr_ns : forall q y, dom ns q y -> dom ns' q y;
  gr_best : forall y f, best_le best y f -> best_le best' y f }.

Lemma grows_refl ts ns best : grows ts ns best ts ns best.
Proof. by constructor. Qed.

Lemma grows_trans ts ns best ts1 ns1 best1 ts2 ns2 best2 :
  grows ts ns best ts1 ns1 best1 -> grows ts1 ns1 best1 ts2 ns2 best2 -> grows ts ns best ts2 ns2 best2.
Proof. intros [] []. constructor; auto. Qed.

Lemma executed_mono ts ns best ts' ns' best' q y :
  (forall q y, dom ts q y -> dom ts' q y) -> (forall q y, dom ns q y -> dom ns' q y) ->
    (forall y f, best_le best y f -> best_le best' y f) ->
  executed ts ns best q y -> executed ts' ns' best' q y.
Proof. intros H1 H2 H3 (i & Hi & Hs & Ht & He). exists i. split_and!; eauto. Qed.

(** ** The cases of an instruction *)

Lemma set_sub_ok x y0 se k f se' : set_sub (mkResub (Some x) y0 :: se) k f = Ran se' -> k <> 0 ->
  exists y1 se1, se' = mkResub (Some x) y1 :: se1 /\ length se1 = length se.
Proof.
  unfold set_sub, sub, load1. intros E Hk. destruct (Z.leb_spec 0 k); [|done].
  replace (Z.to_nat k) with (S (Z.to_nat (k - 1))) in E by lia. cbn in E.
  destruct (se !! Z.to_nat (k - 1)); [|done]. cbn in E. injection E as <-. do 2 eexists. split; [done|].
  apply length_insert.
Qed.

(** The operand of the instruction is what its type needs. *)
Definition operand_ok (i : Reinst) : Prop :=
  (ri_type i = LBRA \/ ri_type i = RBRA -> exists k, ri_u1 i = Some k /\ 0 < k < NSUBEXP) /\
  (ri_type i = CCLASS \/ ri_type i = NCCLASS -> exists k c, ri_u1 i = Some k /\
    load1 (rp_class progp) k = Some c) /\
  (ri_type i = OR -> exists k, ri_u1 i = Some k).

(** The cases of one instruction of the thread at the head of [t :: l]. *)
Inductive thread_view (fuel : nat) (i : Reinst) (t : Relist) (l : list Relist) (m : mach) : ran
  (list Relist * mach) -> Prop :=
| view_stop : succs bol eol i = [] -> takes (rp_class progp) i r = false -> ri_type i <> END ->
  thread_view fuel i t l m (Ran (t :: l, m))
| view_take : succs bol eol i = [] -> takes (rp_class progp) i r = true -> ri_type i <> END ->
    thread_view fuel i t l m (m ← advance ms i (rl_se t) m; Ran (t :: l, m))
| view_next se : succs bol eol i = option_list (ri_u2 i) -> takes (rp_class progp) i r = false ->
    ri_type i = LBRA \/ ri_type i = RBRA \/ ri_type i = BOL \/ ri_type i = EOL ->
      sp <$> head se = sp <$> head (rl_se t) -> length se = length (rl_se t) ->
    thread_view fuel i t l m (run_thread progp ms s r bol eol fuel (ri_u2 i)
      (t <| rl_se := se |> :: l) m)
| view_or right : ri_u1 i = Some right -> succs bol eol i = right :: option_list (ri_u2 i) ->
  takes (rp_class progp) i r = false -> ri_type i = OR ->
    thread_view fuel i t l m (x ← _renewthread (t :: l) right ms (rl_se t); room (t :: l) (snd x);;
      run_thread progp ms s r bol eol fuel (ri_u2 i) (fst x) m)
| view_end : succs bol eol i = [] -> takes (rp_class progp) i r = false -> ri_type i = END ->
    thread_view fuel i t l m (se ← set_sub (rl_se t) 0 (fun x => x <| ep := Some s |>);
      mp' ← match mp m with Some p => p ← _renewmatch p ms se; Ran (Some p) | None => Ran None end;
      Ran (t <| rl_se := se |> :: l, m <| matched := true |> <| mp := mp' |>))
| view_fault : ~ operand_ok i -> thread_view fuel i t l m Fault.

(** Facts on the successors and runes of an instruction of a known type. *)
Ltac by_type E := unfold takes, succs; rewrite E; done.

Lemma bracket_view fuel i t l m f : (forall k, ri_u1 i = Some k -> k <> 0) -> ri_type i = LBRA \/
  ri_type i = RBRA -> se_ok (rl_se t) ->
  (exists x y se, rl_se t = mkResub (Some x) y :: se) ->
  thread_view fuel i t l m (k ← valid (ri_u1 i); se ← set_sub (rl_se t) k f;
    run_thread progp ms s r bol eol fuel (ri_u2 i) (t <| rl_se := se |> :: l) m).
Proof.
  intros Hb Hty Hok (x & y & se & Hse). destruct (ri_u1 i) as [k|] eqn:Ek; cbn [valid mbind ran_bind].
  - rewrite Hse. destruct (set_sub _ k f) as [se'| | |] eqn:E.
    + destruct (set_sub_ok _ _ _ _ _ _ E (Hb k eq_refl)) as (y1 & se1 & -> & El). cbn [mbind ran_bind].
      apply view_next; [destruct Hty as [E'|E']; by_type E'..|tauto|by rewrite Hse|rewrite Hse; cbn;
        lia].
    + exfalso. unfold set_sub, sub, valid in E. by destruct (load1 _ _).
    + apply view_fault. intros ((k' & Ek' & Hk) & _); [done|]. rewrite Ek in Ek'. injection Ek' as <-.
      unfold set_sub, sub, load1 in E. rewrite (proj2 (Z.leb_le 0 k)) in E by lia. rewrite Hse in Hok.
      unfold se_ok in Hok.
      destruct (lookup_lt_is_Some_2 (mkResub (Some x) y :: se) (Z.to_nat k)) as [z Ez]; [lia|].
      rewrite Ez in E. done.
    + exfalso. unfold set_sub, sub, valid in E. by destruct (load1 _ _).
  - apply view_fault. intros ((k' & Ek' & _) & _); [done|]. by rewrite Ek in Ek'.
Qed.

Lemma class_view fuel i t l m (g : bool -> bool) :
  ri_type i = CCLASS \/ ri_type i = NCCLASS ->
    (forall k c, ri_u1 i = Some k -> load1 (rp_class progp) k = Some c ->
      takes (rp_class progp) i r = g (in_class c r)) ->
  thread_view fuel i t l m (k ← valid (ri_u1 i); c ← valid (load1 (rp_class progp) k);
    if g (in_class c r) then m ← advance ms i (rl_se t) m; Ran (t :: l, m) else Ran (t :: l, m)).
Proof.
  intros Hty Ht.
  assert (succs bol eol i = [] /\ ri_type i <> END) as [Hs He]
    by (destruct Hty as [E|E]; split; by_type E).
  destruct (ri_u1 i) as [k|] eqn:Ek; cbn [valid mbind ran_bind].
  - destruct (load1 (rp_class progp) k) as [c|] eqn:Ec; cbn [valid mbind ran_bind].
    + specialize (Ht k c eq_refl Ec).
      destruct (g (in_class c r)); [by apply view_take|by apply view_stop].
    + apply view_fault. intros (_ & (k' & c & Ek' & Ec') & _); [done|]. rewrite Ek in Ek'.
      injection Ek' as <-. by rewrite Ec in Ec'.
  - apply view_fault. intros (_ & (k' & c & Ek' & _) & _); [done|]. by rewrite Ek in Ek'.
Qed.

Lemma run_thread_view fuel pc i t l m : inst_at pc = Some i ->
  (ri_type i = LBRA \/ ri_type i = RBRA -> ri_u1 i <> Some 0) ->
  se_ok (rl_se t) -> (exists x y se, rl_se t = mkResub (Some x) y :: se) ->
  thread_view fuel i t l m (run_thread progp ms s r bol eol (S fuel) (Some pc) (t :: l) m).
Proof.
  intros Hi Hb Hok Hse. cbn [run_thread]. unfold fetch. cbn [valid mbind ran_bind].
  unfold inst_at in Hi. rewrite Hi. cbn [valid mbind ran_bind head tail].
  assert (forall b : bool, takes (rp_class progp) i r = b -> succs bol eol i = [] -> ri_type i <> END ->
    thread_view fuel i t l m (if b then m ← advance ms i (rl_se t) m;
      Ran (t :: l, m) else Ran (t :: l, m))) as Hchar.
  { intros [] ? ? ?; [by apply view_take|by apply view_stop]. }
  assert (forall b : bool, ri_type i = BOL \/ ri_type i = EOL ->
    succs bol eol i = (if b then option_list (ri_u2 i) else []) ->
    thread_view fuel i t l m (if b then run_thread progp ms s r bol eol fuel (ri_u2 i)
      (t :: l) m else Ran (t :: l, m))) as Hpos.
  { intros [] Hty Hs; [|apply view_stop; [done|destruct Hty as [E|E]; by_type E..]].
    change (t :: l) with (t <| rl_se := rl_se t |> :: l).
    apply view_next; [done|destruct Hty as [E|E]; by_type E|tauto|done..]. }
  destruct (Z.eqb_spec (ri_type i) RUNE) as [E|H1]; [apply Hchar; by_type E|].
  destruct (Z.eqb_spec (ri_type i) LBRA) as [E|H2];
    [apply bracket_view; auto; intros k Ek ->; rewrite Ek in Hb; tauto|].
  destruct (Z.eqb_spec (ri_type i) RBRA) as [E|H3];
    [apply bracket_view; auto; intros k Ek ->; rewrite Ek in Hb; tauto|].
  destruct (Z.eqb_spec (ri_type i) ANY) as [E|H4]; [apply Hchar; by_type E|].
  destruct (Z.eqb_spec (ri_type i) ANYNL) as [E|H5]; [apply (Hchar true); by_type E|].
  destruct (Z.eqb_spec (ri_type i) BOL) as [E|H6]; [apply Hpos; [by left|by_type E]|].
  destruct (Z.eqb_spec (ri_type i) EOL) as [E|H7]; [apply Hpos; [by right|by_type E]|].
  destruct (Z.eqb_spec (ri_type i) CCLASS) as [E|H8].
  { apply (class_view _ _ _ _ _ (fun b => b)); [by left|]. intros k c Ek Ec. unfold takes.
    rewrite E, Ek. cbn [mbind option_bind]. by rewrite Ec. }
  destruct (Z.eqb_spec (ri_type i) NCCLASS) as [E|H9].
  { replace (thread_view _ _ _ _ _) with (thread_view fuel i t l m) by done.
    eapply eq_rect; [apply (class_view _ _ _ _ _ negb)|].
    - by right.
    - intros k c Ek Ec. unfold takes. rewrite E, Ek. cbn [mbind option_bind]. by rewrite Ec.
    - destruct (ri_u1 i) as [z|]; [|done]. cbn [valid mbind ran_bind].
      destruct (load1 (rp_class progp) z) as [c|]; [|done]. cbn [valid mbind ran_bind].
      by destruct (in_class c r). }
  destruct (Z.eqb_spec (ri_type i) OR) as [E|H10].
  { destruct (ri_u1 i) as [k|] eqn:Ek; cbn [valid mbind ran_bind];
      [|apply view_fault; intros (_ & _ & (k & Ek')); [done|by rewrite Ek in Ek']].
    apply view_or; [done| |by_type E|done]. unfold succs. by rewrite E, Ek. }
  destruct (Z.eqb_spec (ri_type i) END) as [E|H11]; [apply view_end; by_type E|].
  assert (forall k : Z, ri_type i <> k -> (ri_type i =? k) = false) as Hk
    by (intros k; apply Z.eqb_neq).
  apply view_stop; [| |done]; unfold succs, takes; by rewrite !Hk by done.
Qed.

Lemma threads_head t l pc x ts : threads (t :: l) ((pc, x) :: ts) -> se_ok (rl_se t) /\
  exists y se, rl_se t = mkResub (Some x) y :: se.
Proof. inversion 1; subst. eauto. Qed.

Lemma threads_set_se t l pc x ts se : threads (t :: l) ((pc, x) :: ts) ->
  sp <$> head se = sp <$> head (rl_se t) -> length se = length (rl_se t) ->
  threads (t <| rl_se := se |> :: l) ((pc, x) :: ts).
Proof.
  inversion 1 as [|? ? ? y se' ? ? Ht Hse Hok Hl]; subst. rewrite Hse. intros Hh Hlen.
  destruct se as [|[a b] se]; [done|]. injection Hh as ->.
  eapply threads_cons; [done|done| |done]. unfold se_ok in *. rewrite Hse in Hok. cbn [rl_se upd] in *.
  rewrite Hlen. exact Hok.
Qed.

Lemma run_thread_next fuel o l m l' m' : run_thread progp ms s r bol eol fuel o l m = Ran (l', m') ->
  exists pc, o = Some pc.
Proof. destruct fuel, o; try done. eauto. Qed.

(** ** What a thread has done *)

(** Where matches come from: [P] holds of the instructions that are reached here, [N] of those
    that are reached over the character, [A] of the matches. *)
Context (P N A : Z -> Z -> Prop).

Record origin (ts ns : list (Z * Z)) (best : option (Z * Z)) : Prop := mkOrigin {
  og_ts : forall q y, (q, y) ∈ ts -> P q y;
  og_ns : forall q y, (q, y) ∈ ns -> N q y;
  og_best : forall b e, best = Some (b, e) -> A b e }.

Record closed : Prop := mkClosed {
  cl_eps : forall q y i q', P q y -> inst_at q = Some i -> q' ∈ succs bol eol i -> P q' y;
  cl_take : forall q y i q', P q y -> inst_at q = Some i -> takes (rp_class progp) i r = true ->
    ri_u2 i = Some q' -> N q' y;
  cl_end : forall q y i, P q y -> inst_at q = Some i -> ri_type i = END -> A y s }.

Lemma advance_ok i x y se m ns best m' :
  mach_ok m ns best -> se_ok (mkResub (Some x) y :: se) ->
    advance ms i (mkResub (Some x) y :: se) m = Ran m' ->
  exists next, ri_u2 i = Some next /\ mach_ok m' (add_thread next x ns) best /\
    length (nl m') = length (nl m).
Proof.
  intros [Hn Hm Hp] Hse E. unfold advance in E. apply ran_bind_inv in E as (next & En & E).
  destruct (ri_u2 i) as [n|] eqn:Eu; [|done]. injection En as ->. exists next. split; [done|].
  apply ran_bind_inv in E as ([l' ret] & Er & E). apply ran_bind_inv in E as (u & Ero & [= <-]).
  destruct (renewthread_ok ms x y se Hse (nl m) ns next Hn) as [(l1 & E1 & El & Ht)|(_ & _ & E1)];
    rewrite E1 in Er; [|done].
  injection Er as <- <-. split; [by constructor|done].
Qed.

(** The thread at the head of [l] is at [pc0] and started at [x]; it has executed from [pc] on. *)
Definition thread_done (l l' : list Relist) (m m' : mach) (pc0 x pc : Z) (ts ns : list (Z * Z))
  (best : option (Z * Z)) : Prop :=
  exists ts' ns' best' (E : list (Z * Z)), threads l' ((pc0, x) :: ts') /\ mach_ok m' ns' best' /\
    length l' = length l /\ length (nl m') = length (nl m) /\
    grows ts ns best ts' ns' best' /\ (pc, x) ∈ E /\
    (forall q y, (q, y) ∈ E -> executed (E ++ (pc0, x) :: ts') ns' best' q y) /\
    (P pc x -> origin ts ns best -> origin (E ++ ts') ns' best').

(** An instruction at which the thread ends. *)
Lemma thread_stops l m pc0 x pc ts ns best i :
  threads l ((pc0, x) :: ts) -> mach_ok m ns best -> inst_at pc = Some i ->
  succs bol eol i = [] -> takes (rp_class progp) i r = false -> ri_type i <> END ->
  thread_done l l m m pc0 x pc ts ns best.
Proof.
  intros Hl Hm Hi Hs Ht He. exists ts, ns, best, [(pc, x)].
  split_and!; [done..|apply grows_refl|by left| |].
  - intros q y [= -> ->]%list_elem_of_singleton. exists i.
    split_and!; [done|rewrite Hs; set_solver|by rewrite Ht|done].
  - intros HP [Ho1 Ho2 Ho3]. constructor; [|done..].
    intros q y [[= -> ->]%list_elem_of_singleton|?]%elem_of_app; auto.
Qed.

(** An instruction that takes the character. *)
Lemma thread_takes l m m' pc0 x y0 se t pc ts ns best i :
  closed -> threads (t :: l) ((pc0, x) :: ts) -> rl_se t = mkResub (Some x) y0 :: se ->
    se_ok (rl_se t) -> mach_ok m ns best -> inst_at pc = Some i ->
  succs bol eol i = [] -> takes (rp_class progp) i r = true -> ri_type i <> END ->
  advance ms i (rl_se t) m = Ran m' ->
  thread_done (t :: l) (t :: l) m m' pc0 x pc ts ns best.
Proof.
  intros Hc Hl Et Hse Hm Hi Hs Ht He E. rewrite Et in *.
  destruct (advance_ok _ _ _ _ _ _ _ _ Hm Hse E) as (next & En & Hm' & Hlen).
  exists ts, (add_thread next x ns), best, [(pc, x)]. split_and!; [done..| |by left| |].
  - constructor; [done| |done]. intros. apply dom_add. auto.
  - intros q y [= -> ->]%list_elem_of_singleton. exists i.
    split_and!; [done|rewrite Hs; set_solver| |done].
    intros _ q' Eq. rewrite En in Eq. injection Eq as ->. apply dom_add. left. split; [done|lia].
  - intros HP [Ho1 Ho2 Ho3]. constructor; [| |done].
    + intros q y [[= -> ->]%list_elem_of_singleton|?]%elem_of_app; auto.
    + intros q y [[= -> ->]|?]%elem_add; [by eapply (cl_take Hc)|auto].
Qed.

(** An instruction from which the thread goes on to the next, after it has changed [ts]. *)
Lemma thread_goes_on l l1 l' m m' pc0 x pc next ts ts1 ns best i :
  closed -> inst_at pc = Some i -> ri_u2 i = Some next ->
  (forall q', q' ∈ succs bol eol i -> q' = next \/ dom ((pc0, x) :: ts1) q' x) ->
    next ∈ succs bol eol i ->
  takes (rp_class progp) i r = false -> ri_type i <> END ->
  (forall q y, dom ts q y -> dom ts1 q y) ->
    (forall q y, (q, y) ∈ ts1 -> (q, y) ∈ ts \/ y = x /\ q ∈ succs bol eol i) ->
  length l1 = length l ->
  thread_done l1 l' m m' pc0 x next ts1 ns best -> thread_done l l' m m' pc0 x pc ts ns best.
Proof.
  intros Hc Hi Hn Hs Hs' Ht He Hmono Hnew Hlen
    (ts' & ns' & best' & E & Hl' & Hm' & El & Em & [G1 G2 G3] & HE & Hex & Ho).
  exists ts', ns', best', ((pc, x) :: E).
  split_and!; [done..|congruence|done|constructor; auto|by left| |].
  - intros q y [[= -> ->]|Hq]%elem_of_cons.
    + exists i. split_and!; [done| |by rewrite Ht|done]. intros q' Hq'. cbn [app]. apply dom_cons.
      right. apply dom_app.
      destruct (Hs q' Hq') as [->|Hd]; [left; exists x; split; [lia|done]|]. right.
      apply dom_cons in Hd as [?|Hd]; apply dom_cons; auto.
    + eapply executed_mono; [..|by apply Hex]; [|done..]. intros q' y' Hd. cbn [app]. apply dom_cons.
      by right.
  - intros HP HO. destruct Ho as [Ho1 Ho2 Ho3].
    + by eapply (cl_eps Hc).
    + destruct HO as [HO1 HO2 HO3]. constructor; [|done..].
      intros q y [?|[-> ?]]%Hnew; [auto|by eapply (cl_eps Hc)].
    + constructor; [|done..]. intros q y. cbn [app]. intros [[= -> ->]|?]%elem_of_cons; auto.
Qed.

(** An instruction that ends a match. *)
Lemma thread_ends l m m' pc0 x y0 se t pc ts ns best i mp' :
  closed -> threads (t :: l) ((pc0, x) :: ts) -> rl_se t = mkResub (Some x) y0 :: se ->
    mach_ok m ns best -> inst_at pc = Some i ->
  succs bol eol i = [] -> takes (rp_class progp) i r = false -> ri_type i = END ->
  m' = m <| matched := true |> <| mp := mp' |> -> mp_ok ms mp' (upd_best best x s) ->
  thread_done (t :: l) (t <| rl_se := mkResub (Some x) (Some s) :: se |> :: l) m m' pc0 x pc ts ns best.
Proof.
  intros Hc Hl Et [Hn _ _] Hi Hs Ht He -> Hmp. exists ts, ns, (upd_best best x s), [(pc, x)].
  inversion Hl as [|? ? ? ? ? ? ? Hpc Et' Hok Hl']; subst. rewrite Et in Et'. injection Et' as <- <-.
  split_and!; [| |done..| |by left| |].
  - eapply threads_cons; [exact Hpc|done| |done]. rewrite Et in Hok. unfold se_ok in *. cbn in *. lia.
  - constructor; [done| |done]. destruct best as [[]|]; [|done]. cbn. by destruct (_ || _).
  - constructor; [done..|]. intros. by apply upd_best_mono.
  - intros q y [= -> ->]%list_elem_of_singleton. exists i.
    split_and!; [done|rewrite Hs; set_solver|by rewrite Ht|intros _; apply upd_best_le].
  - intros HP [Ho1 Ho2 Ho3]. constructor; [|done|].
    + intros q y [[= -> ->]%list_elem_of_singleton|?]%elem_of_app; auto.
    + intros b e E. assert (A x s) by (by eapply (cl_end Hc)).
      destruct best as [[b' e']|]; cbn in E; [destruct (_ || _)|]; injection E as <- <-; auto.
Qed.

Lemma run_thread_ok : brackets_ok -> closed -> forall fuel pc l m l' m' pc0 x ts ns best,
  run_thread progp ms s r bol eol fuel (Some pc) l m = Ran (l', m') ->
  threads l ((pc0, x) :: ts) -> mach_ok m ns best -> thread_done l l' m m' pc0 x pc ts ns best.
Proof.
  intros Hb Hc fuel.
  induction fuel as [|fuel IH]; intros pc l m l' m' pc0 x ts ns best E Hl Hm; [done|].
  destruct l as [|t l]; [inversion Hl|]. destruct (threads_head _ _ _ _ _ Hl) as (Hok & y0 & se & Hse).
  destruct (inst_at pc) as [i|] eqn:Hi;
    [|unfold inst_at in Hi; cbn [run_thread] in E; unfold fetch in E; cbn [valid mbind ran_bind] in E;
      by rewrite Hi in E].
  destruct (run_thread_view fuel pc i t l m Hi (Hb pc i Hi) Hok ltac:(eauto))
    as [Hs Ht He|Hs Ht He|se' Hs Ht Hty Hh Hlen|right Hr Hs Ht Hty|Hs Ht He|]; [..|done].
  - injection E as <- <-. by eapply thread_stops.
  - apply ran_bind_inv in E as (m1 & Ea & [= <- <-]). by eapply thread_takes.
  - destruct (run_thread_next _ _ _ _ _ _ E) as (next & Hn). rewrite Hn in *. cbn [option_list] in Hs.
    eapply (thread_goes_on _ (t <| rl_se := se' |> :: l) _ _ _ _ _ _ next _ ts _ _ i); try done;
      [rewrite Hs; set_solver..|destruct Hty as [H|[H|[H|H]]]; by_type H|by left|].
    eapply IH; [exact E| |done]. by apply threads_set_se.
  - apply ran_bind_inv in E as ([l1 ret] & E1 & E). apply ran_bind_inv in E as (_ & _ & E).
    destruct (run_thread_next _ _ _ _ _ _ E) as (next & Hn). rewrite Hn in *. cbn [option_list] in Hs.
    rewrite Hse in E1.
    destruct (renewthread_ok ms x y0 se ltac:(by rewrite <- Hse) (t :: l) _ right Hl)
      as [(l2 & E2 & El & Hl2)|(_ & _ & E2)]; rewrite E2 in E1; [|done].
    injection E1 as <- <-. cbn [add_thread] in Hl2.
    set (ts1 := if pc0 =? right then ts else add_thread right x ts).
    assert (threads l2 ((pc0, x) :: ts1)) as Hl3
      by (unfold ts1; destruct (pc0 =? right); [rewrite Z.min_id in Hl2|]; exact Hl2).
    eapply (thread_goes_on _ l2 _ _ _ _ _ _ next _ ts1 _ _ i); try done.
    + rewrite Hs. intros q' [->|[->|?%elem_of_nil]%elem_of_cons]%elem_of_cons; [right|by left|done].
      apply dom_cons. unfold ts1.
      destruct (Z.eqb_spec pc0 right) as [->|]; [left; split; [done|lia]|right]. apply dom_add. left.
      split; [done|lia].
    + rewrite Hs. set_solver.
    + by_type Hty.
    + intros q y Hd. unfold ts1. destruct (pc0 =? right); [done|]. apply dom_add. auto.
    + intros q y Hq. unfold ts1 in Hq. destruct (pc0 =? right); [by left|].
      apply elem_add in Hq as [[= -> ->]|?]; [|by left]. right. rewrite Hs. split; [done|set_solver].
    + by eapply IH.
  - rewrite Hse in E.
    change (set_sub (mkResub (Some x) y0 :: se) 0 (fun x => x <| ep := Some s |>)) with
      (Ran (mkResub (Some x) (Some s) :: se)) in E.
    cbn [mbind ran_bind] in E. apply ran_bind_inv in E as (mp' & E1 & [= <- <-]).
    eapply thread_ends; try done. destruct (mp m) as [pm|] eqn:Em; [|injection E1 as <-; done].
    apply ran_bind_inv in E1 as (pm' & E1 & [= <-]). pose proof (mo_mp _ _ _ Hm) as Hmp.
    rewrite Em in Hmp.
    destruct (renewmatch_ok ms pm best x s se Hmp) as (pm2 & E2 & Hmp2). rewrite E2 in E1.
    by injection E1 as <-.
Qed.

(** ** All threads *)

(** Everything that is reached from the threads [ts] without a character is executed. *)
Definition list_done (l' : list Relist) (m m' : mach) (ts ns : list (Z * Z))
  (best : option (Z * Z)) : Prop :=
  exists ns' best' (E : list (Z * Z)), mach_ok m' ns' best' /\ length (nl m') = length (nl m) /\
    (forall q y, dom ts q y -> dom E q y) /\ (forall q y, (q, y) ∈ E -> executed E ns' best' q y) /\
    (forall q y, dom ns q y -> dom ns' q y) /\ (forall y f, best_le best y f -> best_le best' y f) /\
    (origin ts ns best -> origin E ns' best').

Lemma run_list_ok : brackets_ok -> closed -> forall fuel l m l' m' ts ns best,
  run_list progp ms s r bol eol fuel l m = Ran (l', m') -> threads l ts -> mach_ok m ns best ->
  list_done l' m m' ts ns best /\ length l' = length l /\ Forall (fun t => se_ok (rl_se t)) l'.
Proof.
  intros Hb Hc fuel. induction fuel as [|fuel IH]; intros l m l' m' ts ns best E Hl Hm; [done|].
  cbn [run_list] in E.
  inversion Hl as [q rest Hq Hf|t pc0 x y0 se l0 ts0 Ht Hse Hok Hl0]; subst;
    cbn [head valid mbind ran_bind] in E.
  - rewrite Hq in E. injection E as <- <-. split_and!; [|done..]. exists ns, best, [].
    split_and!; [done..|set_solver|done|done|done].
  - rewrite Ht in E. apply ran_bind_inv in E as ([l1 m1] & E1 & E).
    apply ran_bind_inv in E as ([l2 m2] & E2 & E).
    apply ran_bind_inv in E as (t1 & Et1%valid_inv & [= <- <-]). cbn [fst snd] in *.
    destruct (run_thread_ok Hb Hc _ _ _ _ _ _ _ _ _ _ _ E1 Hl Hm)
      as (ts1 & ns1 & best1 & F1 & Hl1 & Hm1 & El1 & En1 & [G1 G2 G3] & HF1 & Hex1 & Ho1).
    inversion Hl1 as [|t2 ? ? y2 se2 l3 ? Ht2 Hse2 Hok2 Hl3]; subst. cbn [tail head] in *.
    injection Et1 as <-.
    destruct (IH _ _ _ _ _ _ _ E2 Hl3 Hm1)
      as ((ns2 & best2 & F2 & Hm2 & En2 & Hd2 & Hex2 & Hn2 & Hb2 & Ho2) & El2 & Hf2).
    split_and!; [|cbn in *; lia|by constructor].
    assert (forall q y, dom (F1 ++ (pc0, x) :: ts1) q y -> dom (F1 ++ F2) q y) as Hup.
    { intros q y. rewrite !dom_app, dom_cons. intros [?|[[-> ?]|?]]; [auto|left; by exists x|auto]. }
    exists ns2, best2, (F1 ++ F2). split_and!; [done|congruence| | |auto|auto|].
    + intros q y [[-> ?]|?]%dom_cons; apply Hup, dom_app; right; apply dom_cons; auto.
    + intros q y [Hq|Hq]%elem_of_app.
      * eapply executed_mono; [exact Hup| | |by apply Hex1]; auto.
      * eapply executed_mono; [..|by apply Hex2]; [|done..]. intros. apply dom_app. auto.
    + intros [O1 O2 O3].
      destruct Ho1 as [P1 P2 P3]; [apply O1; by left|constructor; [|done..]; intros; apply O1;
        by right|].
      destruct Ho2 as [Q1 Q2 Q3]; [constructor; [|done..]; intros; apply P1, elem_of_app; auto|].
      constructor; [|done..]. intros q y [?|?]%elem_of_app; [apply P1, elem_of_app; auto|auto].
Qed.
End char.
