(* ===== verification/RegexecProps.v ===== *)
(** * The leftmost and longest match

    A run of [regexec1] on a whole string: it finds a match exactly when the automaton of the
    program has one, and then the leftmost, and of those the longest. *)

From S2P Require Import Prelude Fcall Utf UtfString Regexec RegexecRun.

Section text.
Context (progp : Reprog) (ms : Z) (j : Reljunk) (text post : bytes).

(** ** Matches of the automaton *)

Definition live (s r n : Z) : Prop := rune_at text s = Ran (r, n) /\ r <> 0 /\ Some s <> j_eol j.

Definition line_ends (s r : Z) : bool := bool_decide (Some s = j_eol j) || (r =? 0) || (r =? 10).

(** The positions of the string: where its runes begin, from the start of the search on. *)
Inductive boundary : Z -> Prop :=
| boundary_start : boundary (starts j)
| boundary_next s r n : boundary s -> live s r n -> boundary (s + n).

(** The instruction [pc] is reached at [s] on a path that starts at [x]. *)
Inductive reach (x : Z) : Z -> Z -> Prop :=
| reach_start : boundary x -> reach x (startinst progp) x
| reach_eps pc s i r n b q :
    reach x pc s -> inst_at progp pc = Some i -> rune_at text s = Ran (r, n) -> at_bol text s = Ran b ->
    q ∈ succs b (line_ends s r) i -> reach x q s
| reach_take pc s i r n q :
    reach x pc s -> inst_at progp pc = Some i -> live s r n -> takes (rp_class progp) i r = true ->
      ri_u2 i = Some q ->
    reach x q (s + n).

(** The string from [x] to [e] matches. *)
Definition accept (x e : Z) : Prop :=
  exists q i, reach x q e /\ inst_at progp q = Some i /\ ri_type i = END.

(** The match that starts first, and of these the longest one. *)
Definition leftmost_longest (best : option (Z * Z)) : Prop :=
  (forall b e, best = Some (b, e) -> accept b e) /\ forall x e, accept x e -> best_le best x e.

(** ** Positions *)

(** The string that begins at [s]. *)
Definition at_string (s : Z) (t : bytes) : Prop :=
  0 <= s /\ drop (Z.to_nat s) text = t ++ 0 :: post /\ is_string t.

Context (Hpost : is_bytes post) (t0 : bytes) (Hstart : at_string (starts j) t0).

Lemma rune_at_ok s t : at_string s t -> exists r n, rune_at text s = Ran (r, n) /\ 0 < n /\
  (t = [] /\ r = 0 \/ r <> 0 /\ exists b t' ps, t = b ++ t' /\ n = len b /\ at_string (s + n) t' /\
    pieces t ((r, b) :: ps)).
Proof.
  intros (Hs & Hd & Ht). assert (load1 text s = (t ++ 0 :: post) !! 0%nat) as El.
  { unfold load1. rewrite (proj2 (Z.leb_le 0 s)) by done. by rewrite <- Hd, lookup_drop, Nat.add_0_r. }
  unfold rune_at. rewrite El, Hd. destruct (pieces_total t Ht) as (ps & Hps).
  destruct ps as [|[r b] ps].
  - inversion Hps; subst. exists 0, 1. split; [done|]. split; [lia|]. by left.
  - destruct (pieces_step _ _ _ _ post Hps Ht Hpost)
      as (t' & k & Et & Hps' & Ht' & _ & Hb & Hd' & Hc & Hk & Hk0 & Hcase).
    exists r, (len b). split.
    + rewrite Hk. cbn [valid mbind ran_bind]. destruct Hcase as [(-> & -> & ->)|[-> _]]; [done|].
      by rewrite Hc.
    + split; [lia|]. right. split; [destruct Hcase as [(_ & -> & _)|[_ ?]]; [done|lia]|].
      exists b, t', ps. split_and!; [done..| |done].
      split; [lia|]. split; [|done].
      by rewrite <- Hd', <- Hd, drop_drop, Z2Nat.inj_add, Nat2Z.id by lia.
Qed.

Lemma live_det s r n r' n' : live s r n -> live s r' n' -> r = r' /\ n = n'.
Proof. intros (E & _) (E' & _). rewrite E in E'. by injection E'. Qed.

Lemma boundary_string s : boundary s -> exists t, at_string s t.
Proof.
  induction 1 as [|s r n _ (t & Ht) (E & Hr & _)]; [by exists t0|].
  destruct (rune_at_ok s t Ht) as (r' & n' & E' & _ & [[_ ->]|(_ & b & t' & ps & _ & _ & H & _)]);
    rewrite E in E'; injection E' as -> ->; [done|by exists t'].
Qed.

Lemma live_pos s r n : boundary s -> live s r n -> 0 < n.
Proof.
  intros (t & Ht)%boundary_string (E & _). destruct (rune_at_ok s t Ht) as (r' & n' & E' & Hn & _).
  rewrite E in E'. by injection E' as -> ->.
Qed.

Lemma boundary_ge s : boundary s -> starts j <= s.
Proof. induction 1 as [|s r n Hb IH Hl]; [lia|]. pose proof (live_pos _ _ _ Hb Hl). lia. Qed.

(** There is no position within a rune. *)
Lemma boundary_within k : forall b a r n, (Z.to_nat (a + b) < k)%nat -> boundary b -> live b r n ->
  boundary a -> b < a -> b + n <= a.
Proof.
  induction k as [|k IH]; intros b a r n Hk Hb Hl Ha Hlt; [lia|]. pose proof (boundary_ge _ Hb).
  pose proof (proj1 Hstart).
  destruct Ha as [|a r1 n1 Ha Hl1]; [lia|]. pose proof (live_pos _ _ _ Ha Hl1).
  pose proof (boundary_ge _ Ha).
  destruct (Z.lt_trichotomy b a) as [?|[->|?]].
  - assert (b + n <= a); [|lia]. eapply IH; eauto; lia.
  - destruct (live_det _ _ _ _ _ Hl Hl1) as [-> ->]. lia.
  - assert (a + n1 <= b); [|lia]. eapply IH; eauto; lia.
Qed.

Lemma boundary_between b a r n : boundary b -> live b r n -> boundary a -> b < a -> b + n <= a.
Proof. apply (boundary_within (S (Z.to_nat (a + b)))). lia. Qed.

Lemma boundary_unique a b r n r' n' : boundary a -> boundary b -> live a r n -> live b r' n' ->
  a + n = b + n' -> a = b.
Proof.
  intros Ha Hb Hla Hlb E. pose proof (live_pos _ _ _ Ha Hla). pose proof (live_pos _ _ _ Hb Hlb).
  destruct (Z.lt_trichotomy a b) as [?|[?|?]]; [|done|].
  - pose proof (boundary_between _ _ _ _ Ha Hla Hb ltac:(done)). lia.
  - pose proof (boundary_between _ _ _ _ Hb Hlb Ha ltac:(done)). lia.
Qed.

Lemma reach_boundary x pc s : reach x pc s -> boundary x /\ boundary s /\ x <= s.
Proof.
  induction 1 as [|pc s i r n b q H IH|pc s i r n q H IH Hi Hl Ht Hq]; [split_and!; [done..|lia]|done|].
  destruct IH as (? & Hs & ?). pose proof (live_pos _ _ _ Hs Hl). split_and!; [done| |lia].
  by eapply boundary_next.
Qed.

Lemma accept_boundary x e : accept x e -> boundary x /\ boundary e /\ x <= e.
Proof. intros (q & i & H & _). by eapply reach_boundary. Qed.

Lemma stopped_last s : boundary s -> (forall r n, ~ live s r n) -> forall e, boundary e -> e <= s.
Proof.
  intros Hs Hno e He. induction He as [|e r n He IH Hl]; [by apply boundary_ge|].
  destruct (Z.le_gt_cases (e + n) s); [done|]. exfalso.
  destruct (Z.eq_dec e s) as [->|]; [by eapply Hno|].
  pose proof (boundary_between _ _ _ _ He Hl Hs ltac:(lia)). lia.
Qed.

(** ** The invariant of the loop *)

(** The instruction [q] is reached at [s] over the character before it. *)
Definition arrives (x q s : Z) : Prop :=
  exists pc s' i r n, reach x pc s' /\ inst_at progp pc = Some i /\ live s' r n /\
    takes (rp_class progp) i r = true /\ ri_u2 i = Some q /\ s = s' + n.

(** A match from [x] can still be better. *)
Definition tracked (best : option (Z * Z)) (x : Z) : Prop :=
  match best with Some (b, _) => x <= b | None => True end.

Record loop_inv (s : Z) (ts : list (Z * Z)) (best : option (Z * Z)) : Prop := mkLoopInv {
  li_boundary : boundary s;
  li_sound : forall q x, (q, x) ∈ ts -> reach x q s;
  li_best : forall b e, best = Some (b, e) -> accept b e /\ e < s;
  li_complete : forall x q, tracked best x -> arrives x q s -> dom ts q x;
  li_accept : forall x e, accept x e -> e < s -> best_le best x e }.

(** The threads with that of a match that starts here. *)
Definition with_start (s : Z) (ts : list (Z * Z)) (best : option (Z * Z)) : list (Z * Z) :=
  match best with Some _ => ts | None => add_thread (startinst progp) s ts end.

(** What holds after the threads were run at [s]. *)
Record ran_at (s r : Z) (bol : bool) (ts ns : list (Z * Z)) (best best' : option (Z * Z)) : Prop :=
  mkRanAt {
  ra_exec : exists E, (forall q y, dom (with_start s ts best) q y -> dom E q y) /\
    forall q y, (q, y) ∈ E -> executed progp s r bol (line_ends s r) E ns best' q y;
  ra_mono : forall y f, best_le best y f -> best_le best' y f;
  ra_sound : forall q x n, (q, x) ∈ ns -> live s r n -> reach x q (s + n);
  ra_best : forall b e, best' = Some (b, e) -> accept b e /\ e <= s }.

Lemma tracked_mono best best' x : (forall y f, best_le best y f -> best_le best' y f) ->
  tracked best' x -> tracked best x.
Proof.
  intros H Hx. destruct best as [[b e]|]; [|done].
  destruct (H b e) as (b' & e' & -> & Hb); [exists b, e; split; [done|lia]|]. cbn in *. lia.
Qed.

(** Everything that is reached at [s] was executed, perhaps for a match that starts earlier. *)
Lemma all_executed s r n bol ts ns best best' E :
  loop_inv s ts best -> rune_at text s = Ran (r, n) -> at_bol text s = Ran bol ->
  (forall q y, dom (with_start s ts best) q y -> dom E q y) ->
  (forall q y, (q, y) ∈ E -> executed progp s r bol (line_ends s r) E ns best' q y) ->
  forall x q s', reach x q s' -> s' = s -> tracked best x -> dom E q x.
Proof.
  intros H Er Eb Hst Hex x q s' R.
  assert (forall q x, dom ts q x -> dom (with_start s ts best) q x) as Hts.
  { intros. unfold with_start. destruct best; [done|]. apply dom_add. by right. }
  induction R as [Hx|pc s' i r' n' b q R IH Hi Er' Eb' Hq|pc s' i r' n' q R IH Hi Hl Ht Hq];
    intros Es Htr; subst.
  - apply Hst. unfold with_start.
    destruct best as [[b e]|] eqn:Eb0; [|apply dom_add; left; split; [done|lia]].
    destruct (li_best _ _ _ H b e eq_refl) as [Ha ?]. apply accept_boundary in Ha as (_ & _ & ?).
    cbn in Htr. lia.
  - rewrite Er in Er'. injection Er' as <- <-. rewrite Eb in Eb'. injection Eb' as <-.
    destruct (IH eq_refl Htr) as (y & Hy & HE). destruct (Hex _ _ HE) as (i' & Hi' & Hs & _).
    rewrite Hi in Hi'. injection Hi' as <-.
    eapply dom_weaken; [by apply Hs|done].
  - apply Hst, Hts, (li_complete _ _ _ H); [done|]. by exists pc, s', i, r', n'.
Qed.

Lemma best_le_weaken best x y e : best_le best x e -> x <= y -> best_le best y e.
Proof. intros (b & f & -> & H) ?. exists b, f. split; [done|]. lia. Qed.

Lemma ran_accepts s r n bol ts ns best best' :
  loop_inv s ts best -> rune_at text s = Ran (r, n) -> at_bol text s = Ran bol ->
    ran_at s r bol ts ns best best' ->
  forall x e, accept x e -> e <= s -> best_le best' x e.
Proof.
  intros H Er Eb [(E & Hst & Hex) Hm _ _] x e Ha He.
  destruct (Z.eq_dec e s) as [->|]; [|apply Hm; apply (li_accept _ _ _ H); [done|lia]].
  destruct Ha as (q & i & R & Hi & Hend).
  assert (tracked best x \/ ~ tracked best x) as [Htr|Htr]
    by (destruct best as [[b f]|]; cbn; lia || by left).
  - destruct (all_executed _ _ _ _ _ _ _ _ _ H Er Eb Hst Hex _ _ _ R eq_refl Htr) as (y & Hy & HE).
    destruct (Hex _ _ HE) as (i' & Hi' & _ & _ & Hb). rewrite Hi in Hi'. injection Hi' as <-.
    eapply best_le_weaken; [by apply Hb|done].
  - apply Hm. destruct best as [[b f]|]; [|done]. cbn in Htr. exists b, f. split; [done|lia].
Qed.

Lemma ran_next s r n bol ts ns best best' :
  loop_inv s ts best -> live s r n -> at_bol text s = Ran bol -> ran_at s r bol ts ns best best' ->
    loop_inv (s + n) ns best'.
Proof.
  intros H Hl Eb Hr. pose proof (li_boundary _ _ _ H) as Hs. pose proof (live_pos _ _ _ Hs Hl) as Hn.
  pose proof (proj1 Hl) as Er.
  pose proof Hr as [(E & Hst & Hex) Hm Hsnd Hbest]. constructor.
  - by eapply boundary_next.
  - intros q x Hq. by eapply Hsnd.
  - intros b e Eq. destruct (Hbest b e Eq). split; [done|lia].
  - intros x q Htr (pc & s' & i & r' & n' & R & Hi & Hl' & Ht & Hq & Es).
    assert (s' = s) as ->. { symmetry. eapply boundary_unique; [exact Hs| |exact Hl|exact Hl'|exact Es].
    by apply reach_boundary in R as (_ & ? & _). }
    destruct (live_det _ _ _ _ _ Hl Hl') as [<- <-].
    destruct (all_executed _ _ _ _ _ _ _ _ _ H Er Eb Hst Hex _ _ _ R eq_refl
      (tracked_mono _ _ _ Hm Htr)) as (y & Hy & HE).
    destruct (Hex _ _ HE) as (i' & Hi' & _ & Hk & _). rewrite Hi in Hi'. injection Hi' as <-.
    eapply dom_weaken; [by apply Hk|done].
  - intros x e Ha He. eapply ran_accepts; eauto. apply accept_boundary in Ha as (_ & He' & _).
    destruct (Z.le_gt_cases e s); [done|]. pose proof (boundary_between _ _ _ _ Hs Hl He' ltac:(lia)).
    lia.
Qed.

Lemma ran_last s r n bol ts ns best best' :
  loop_inv s ts best -> rune_at text s = Ran (r, n) -> (forall r n, ~ live s r n) ->
    at_bol text s = Ran bol -> ran_at s r bol ts ns best best' ->
  leftmost_longest best'.
Proof.
  intros H Er Hno Eb Hr. split; [intros b e E; by destruct (ra_best _ _ _ _ _ _ _ Hr b e E)|].
  intros x e Ha. eapply ran_accepts; eauto. apply accept_boundary in Ha as (_ & He & _).
  by apply (stopped_last s); [apply H|..].
Qed.

(** ** A turn of the loop *)

Context (Hbra : brackets_ok progp).

Lemma start_threads s tl ts best m tl0 : threads tl ts ->
  matched m = match best with Some _ => true | None => false end ->
  (if matched m then Ran tl else _renewemptythread tl (startinst progp) ms s) = Ran tl0 ->
  threads tl0 (with_start s ts best) /\ length tl0 = length tl.
Proof.
  intros Ht -> E. unfold with_start. destruct best; [by injection E as <-|].
  destruct (renewemptythread_ok ms s tl ts (startinst progp) Ht) as [(l' & E' & ? & ?)|(_ & _ & E')];
    rewrite E' in E; [|done].
  by injection E as <-.
Qed.

Lemma cleared_threads l l' : clear_list l = Ran l' -> Forall (fun t => se_ok (rl_se t)) l ->
  threads l' [] /\ length l' = length l.
Proof.
  destruct l as [|q l]; [done|]. intros [= <-] H. inversion H; subst. split; [|done].
  apply threads_nil; [done|by constructor].
Qed.

Lemma turn_ok s r n bol tl ts best m tl0 nl0 l' m' :
  loop_inv s ts best -> rune_at text s = Ran (r, n) -> at_bol text s = Ran bol ->
  threads tl ts -> Forall (fun t => se_ok (rl_se t)) (nl m) -> clear_list (nl m) = Ran nl0 ->
  matched m = match best with Some _ => true | None => false end -> mp_ok ms (mp m) best ->
  (if matched m then Ran tl else _renewemptythread tl (startinst progp) ms s) = Ran tl0 ->
  run_list progp ms s r bol (line_ends s r) (length tl0) tl0 (m <| nl := nl0 |>) = Ran (l', m') ->
  exists ns best', ran_at s r bol ts ns best best' /\ mach_ok ms m' ns best' /\
    Forall (fun t => se_ok (rl_se t)) l'.
Proof.
  intros H Er Eb Ht Hf Hcl Hm Hmp Hst Hrun. destruct (start_threads _ _ _ _ _ _ Ht Hm Hst) as [Ht0 _].
  destruct (cleared_threads _ _ Hcl Hf) as [Hn0 _].
  assert (closed progp s r bol (line_ends s r) (fun q y => reach y q s)
    (fun q y => forall n, live s r n -> reach y q (s + n)) (fun y e => accept y e /\ e <= s)) as Hc.
  { constructor.
    - intros q y i q' R Hi Hq. by eapply reach_eps.
    - intros q y i q' R Hi Htk Hq n' Hl. by eapply reach_take.
    - intros q y i R Hi He. split; [by exists q, i|lia]. }
  destruct (run_list_ok progp ms s r bol (line_ends s r) _ _ _ Hbra Hc _ _ _ _ _ _ [] best Hrun Ht0)
    as ((ns & best' & E & Hm' & _ & Hd & Hex & _ & Hb & Ho) & _ & Hf').
  { by constructor. }
  exists ns, best'. split_and!; [|done|done]. destruct Ho as [O1 O2 O3].
  { constructor; [|by intros ? ? ?%elem_of_nil|].
    - intros q y Hq. unfold with_start in Hq. destruct best; [by apply (li_sound _ _ _ H)|].
      apply elem_add in Hq as [[= -> ->]|Hq]; [|by apply (li_sound _ _ _ H)].
      apply reach_start, (li_boundary _ _ _ H).
    - intros b e Eq. destruct (li_best _ _ _ H b e Eq). split; [done|lia]. }
  constructor; [by exists E|done|..].
  - intros q x n' Hq Hl. by apply O2.
  - exact O3.
Qed.

(** ** The fast check for the first character *)

(** The test of the first character is that of the first instruction, and there is no end mark. *)
Definition check_ok : Prop :=
  starttype j = 0 \/
  starttype j = RUNE /\ j_eol j = None /\ 0 < startchar j < Runeself /\
  exists i, inst_at progp (startinst progp) = Some i /\ ri_type i = RUNE /\
    ri_u1 i = Some (startchar j).

Section first.
Context (c : Z) (i0 : Reinst) (Hi0 : inst_at progp (startinst progp) = Some i0)
  (Hty : ri_type i0 = RUNE) (Hc : ri_u1 i0 = Some c).

(** Without threads, nothing happens where the first character is another one. *)
Lemma idle_ran s r n bol best : loop_inv s [] best -> rune_at text s = Ran (r, n) -> r <> c ->
  ran_at s r bol [] [] best best.
Proof.
  intros H Er Hr. constructor; [|done|by intros ? ? ? ?%elem_of_nil|].
  - exists (with_start s [] best). split; [done|]. intros q y Hq. unfold with_start in *.
    destruct best; [by apply elem_of_nil in Hq|].
    apply list_elem_of_singleton in Hq as [= -> ->]. exists i0. unfold succs, takes. rewrite Hty, Hc.
    split_and!; [done|cbn; set_solver| |done].
    cbn. rewrite bool_decide_eq_false_2; [done|congruence].
  - intros b e E. destruct (li_best _ _ _ H b e E). split; [done|lia].
Qed.

Lemma at_bol_ok s t : at_string s t -> s <= len text -> exists b, at_bol text s = Ran b.
Proof.
  intros (Hs & _) Hle. unfold at_bol. destruct (Z.eqb_spec s 0); [eauto|]. unfold load1.
  rewrite (proj2 (Z.leb_le 0 (s - 1))) by lia.
  destruct (lookup_lt_is_Some_2 text (Z.to_nat (s - 1))) as [x ->]; [lia|]. cbn. eauto.
Qed.

Lemma at_string_length s t : at_string s t -> s <= len text.
Proof.
  intros (Hs & E & _). destruct (Z.le_gt_cases s (len text)); [done|]. rewrite drop_ge in E by lia.
  by destruct t.
Qed.

Lemma skip_pieces best ps : j_eol j = None -> forall s t, pieces t ps -> at_string s t ->
  loop_inv s [] best -> c <> 0 ->
  match find_rune c ps with Some k => loop_inv (s + k) [] best /\
    0 <= k | None => leftmost_longest best end.
Proof.
  intros He. induction ps as [|[r b] ps IH]; intros s t Hps Hs H Hc0; cbn [find_rune].
  - inversion Hps; subst.
    destruct (rune_at_ok s [] Hs) as (r & n & Er & Hn & [[_ ->]|(_ & b & t' & ps & Et & -> & _)]);
      [|by destruct b].
    destruct (at_bol_ok s [] Hs (at_string_length _ _ Hs)) as [bol Eb].
    eapply (ran_last s 0 n bol [] []);
      [exact H|exact Er| |exact Eb|eapply idle_ran; [done|exact Er|congruence]].
    intros r' n' (Er' & Hr' & _). rewrite Er in Er'. injection Er' as <- <-. done.
  - destruct Hs as (Hs0 & Hd & Ht).
    destruct (pieces_step _ _ _ _ post Hps Ht Hpost) as (t' & k & Et & Hps' & Ht' & _ & Hb & Hd' & _).
    destruct (rune_at_ok s t ltac:(done))
      as (r' & n & Er & Hn & [[-> _]|(Hr & b1 & t1 & ps1 & Et1 & -> & Hs1 & Hp1)]);
        [destruct b; [cbn in Hb; lia|done]|].
    destruct (pieces_head _ _ _ _ post Hps Ht Hpost) as (? & _ & _ & _ & _ & Ec).
    destruct (pieces_head _ _ _ _ post Hp1 Ht Hpost) as (? & _ & _ & _ & _ & Ec').
    rewrite Ec in Ec'. injection Ec' as <- El.
    destruct (Z.eqb_spec r c) as [->|Hne]; [rewrite Z.add_0_r; split; [done|lia]|].
    destruct (at_bol_ok s t ltac:(done)) as [bol Eb]; [by eapply at_string_length|].
    assert (loop_inv (s + len b1) [] best) as H1.
    { eapply ran_next; [exact H| |exact Eb|by eapply idle_ran].
      split_and!; [exact Er|done|by rewrite He]. }
    assert (t1 = t') as ->. { subst t. apply app_inj_1 in Et1 as [_ ->]; [done|lia]. }
    specialize (IH _ _ Hps' Hs1 H1 Hc0). destruct (find_rune c ps); cbn [option_map]; [|exact IH].
    replace (s + (len b + z)) with (s + len b1 + z) by lia. split; [apply IH|]. lia.
Qed.
End first.

Lemma skip_ok check s ts best p : check_ok -> loop_inv s ts best -> (check = true -> ts = []) ->
  skip j text check s = Ran p ->
  match p with Some s' => loop_inv s' ts best | None => leftmost_longest best end.
Proof.
  intros Hck H Hts E. unfold skip in E. destruct check; cbn [negb] in E; [|by injection E as <-].
  rewrite (Hts eq_refl) in *. destruct Hck as [E0|(Ety & He & Hsc & i0 & Hi0 & Ht0 & Hu)].
  - rewrite E0 in E. cbn in E. by injection E as <-.
  - rewrite Ety, He in E. cbn [Z.eqb RUNE Pos.eqb] in E. apply ran_bind_inv in E as (q & Eq & [= <-]).
    unfold utfrune_at in Eq. apply ran_bind_inv in Eq as (k & Ek%valid_inv & [= <-]).
    destruct (boundary_string s (li_boundary _ _ _ H)) as (t & Hs).
    destruct (pieces_total t (proj2 (proj2 Hs))) as (ps & Hps).
    unfold utfrune in Ek. rewrite (proj2 (Z.ltb_lt _ _)) in Ek by apply Hsc.
    destruct Hs as (Hs0 & Hd & Ht).
    rewrite Hd, (strchr_pieces ps) in Ek by (done || apply Hsc). injection Ek as <-.
    pose proof (skip_pieces (startchar j) i0 Hi0 Ht0 Hu best ps He s t Hps ltac:(done) H ltac:(lia))
      as Hsk.
    destruct (find_rune (startchar j) ps); cbn [option_map]; [|exact Hsk]. apply Hsk.
Qed.

Lemma no_threads_nil l ts : threads l ts -> no_threads l = true -> ts = [].
Proof. destruct 1 as [|t pc x y se l ts Ht]; [done|]. cbn. by rewrite Ht. Qed.

Lemma loop_ok fuel : check_ok -> forall check s tl m rv mp' ts best,
  regexec1_loop progp ms j text fuel check s tl m = Ran (rv, mp') -> loop_inv s ts best ->
    threads tl ts -> Forall (fun t => se_ok (rl_se t)) (nl m) ->
  matched m = match best with Some _ => true | None => false end -> mp_ok ms (mp m) best ->
    (check = true -> ts = []) ->
  exists best', leftmost_longest best' /\ rv = match best' with Some _ => true | None => false end /\
    mp_ok ms mp' best'.
Proof.
  intros Hck.
  induction fuel as [|fuel IH]; intros check s tl m rv mp' ts best E H Ht Hf Hm Hmp Hts; [done|].
  cbn [regexec1_loop] in E. apply ran_bind_inv in E as (p & Ep & E).
  apply (skip_ok check s ts best p) in Ep; [|done..].
  destruct p as [s'|]; [|injection E as <- <-; by exists best]. clear s H. rename s' into s, Ep into H.
  apply ran_bind_inv in E as ([r n] & Er & E). cbn [fst snd] in E.
  apply ran_bind_inv in E as (nl0 & Hcl & E).
  apply ran_bind_inv in E as (tl0 & Hst & E). apply ran_bind_inv in E as (bol & Eb & E).
  apply ran_bind_inv in E as ([l' m'] & Hrun & E). cbn [fst snd] in E.
  destruct (turn_ok s r n bol tl ts best m tl0 nl0 l' m' H Er Eb Ht Hf Hcl Hm Hmp Hst Hrun)
    as (ns & best' & Hran & [Hn' Hm' Hmp'] & Hf').
  assert ((forall r n, ~ live s r n) -> Ran (matched m', mp m') = Ran (rv, mp') ->
    exists best', leftmost_longest best' /\ rv = match best' with Some _ => true | None => false end /\
      mp_ok ms mp' best') as Hend.
  { intros Hno [= <- <-]. exists best'. split_and!; [|done..]. by eapply ran_last. }
  destruct (bool_decide_reflect (Some s = j_eol j)) as [He|He].
  { apply Hend; [|done]. by intros r' n' (_ & _ & ?). }
  destruct (Z.eqb_spec r 0) as [->|Hr].
  { apply Hend; [|done]. intros r' n' (Er' & Hr' & _). rewrite Er in Er'. injection Er' as <- <-.
    done. }
  eapply IH; [exact E| |exact Hn'|exact Hf'|exact Hm'|exact Hmp'|].
  - eapply ran_next; [exact H|by split_and!|exact Eb|exact Hran].
  - intros [_ Hno]%andb_true_iff. by eapply no_threads_nil.
Qed.

(** The arrays hold lists of as many subexpressions as the code declares. *)
Definition arrays_ok (l : list Relist) : Prop := Forall (fun t => se_ok (rl_se t)) l.

Lemma start_inv : loop_inv (starts j) [] None.
Proof.
  constructor; [constructor|by intros ? ? ?%elem_of_nil|done| |].
  - intros x q _ (pc & s & i & r & n & R & _ & Hl & _ & _ & Es).
    apply reach_boundary in R as (_ & Hs & _).
    pose proof (boundary_ge _ Hs). pose proof (live_pos _ _ _ Hs Hl). lia.
  - intros x e Ha He. apply accept_boundary in Ha as (_ & Hb & _). pose proof (boundary_ge _ Hb). lia.
Qed.

Lemma clear_mp_ok mp0 : mp_ok ms
  (option_map (fun l => replicate (Z.to_nat ms) nosub ++ drop (Z.to_nat ms) l) mp0) None.
Proof.
  destruct mp0 as [l|]; [|done]. intros Hms.
  exists (replicate (Z.to_nat (ms - 1)) nosub ++ drop (Z.to_nat ms) l).
  by replace (Z.to_nat ms) with (S (Z.to_nat (ms - 1))) at 1 by lia.
Qed.

Lemma regexec1_ok mp0 l0 l1 rv mp' : check_ok -> arrays_ok l0 -> arrays_ok l1 ->
  regexec1 progp ms j text mp0 l0 l1 = Ran (rv, mp') ->
  exists best, leftmost_longest best /\ rv = match best with Some _ => true | None => false end /\
    mp_ok ms mp' best.
Proof.
  intros Hck H0 H1 E. unfold regexec1 in E. apply ran_bind_inv in E as (a0 & E0 & E).
  apply ran_bind_inv in E as (a1 & E1 & E).
  destruct (cleared_threads _ _ E0 H0) as [Ha0 _]. destruct (cleared_threads _ _ E1 H1) as [Ha1 _].
  eapply (loop_ok _ Hck _ _ _ _ _ _ [] None);
    [exact E|apply start_inv|exact Ha0|by eapply threads_ok|done|apply clear_mp_ok|done].
Qed.
End text.
