(* ===== verification/RegexecRoom.v ===== *)
(** * Runs that return

    How much room the threads of a program need: with a weight for every instruction that counts
    the threads that one thread there can add, arrays that hold the weight of the whole program
    are never full, and the run returns. *)

From S2P Require Import Prelude Fcall Utf UtfString Regexec RegexecRun RegexecProps.

Section room.
Context (progp : Reprog) (w : Z -> Z).

(** The weight of a list of instructions, and of the program. *)
Definition wsum (pcs : list Z) : Z := foldr (fun pc n => w pc + n) 0 pcs.
Definition weight : Z := wsum (seqZ 0 (len (firstinst progp))).

(** The pointers of the program are in it, and an instruction weighs more than those that the
    thread there executes before it ends. *)
Record prog_ok : Prop := mkProgOk {
  po_operand : forall pc i, inst_at progp pc = Some i -> operand_ok progp i;
  po_next : forall pc i, inst_at progp pc = Some i -> ri_type i <> END -> exists q, ri_u2 i = Some q /\
    is_Some (inst_at progp q);
  po_right : forall pc i q, inst_at progp pc = Some i -> ri_type i = OR -> ri_u1 i = Some q ->
    is_Some (inst_at progp q);
  po_start : is_Some (inst_at progp (startinst progp));
  po_pos : forall pc, 1 <= w pc;
  po_chain : forall pc i q, inst_at progp pc = Some i -> ri_type i = LBRA \/ ri_type i = RBRA \/
    ri_type i = BOL \/ ri_type i = EOL ->
    ri_u2 i = Some q -> w q + 1 <= w pc;
  po_or : forall pc i q q', inst_at progp pc = Some i -> ri_type i = OR -> ri_u1 i = Some q ->
    ri_u2 i = Some q' -> w q + w q' <= w pc }.

Context (Hok : prog_ok).

Lemma wsum_cons a l : wsum (a :: l) = w a + wsum l.
Proof. done. Qed.

Lemma wsum_app l k : wsum (l ++ k) = wsum l + wsum k.
Proof. induction l as [|a l IH]; [done|]. cbn [app]. rewrite !wsum_cons. lia. Qed.

Lemma wsum_len l : len l <= wsum l.
Proof.
  induction l as [|a l IH]; [done|]. pose proof (po_pos Hok a). rewrite wsum_cons. cbn [length]. lia.
Qed.

Lemma wsum_submseteq l k : l ⊆+ k -> wsum l <= wsum k.
Proof.
  induction 1 as [|a l k _ IH|a b l|a l k _ IH|l k m _ IH1 _ IH2]; rewrite ?wsum_cons; try lia.
  pose proof (po_pos Hok a). lia.
Qed.

Lemma inst_at_range pc : is_Some (inst_at progp pc) -> pc ∈ seqZ 0 (len (firstinst progp)).
Proof.
  intros [i Hi]. unfold inst_at, load1 in Hi. destruct (Z.leb_spec 0 pc); [|done].
  apply lookup_lt_Some in Hi. apply elem_of_seqZ. lia.
Qed.

(** Threads at different instructions. *)
Definition apart (ts : list (Z * Z)) : Prop := NoDup (map fst ts) /\
  Forall (fun pc => is_Some (inst_at progp pc)) (map fst ts).

Lemma apart_weight ts : apart ts -> wsum (map fst ts) <= weight.
Proof.
  intros [H1 H2]. apply wsum_submseteq, NoDup_submseteq; [done|]. intros pc Hpc.
  rewrite Forall_forall in H2. by apply inst_at_range, H2.
Qed.

Lemma apart_length ts : apart ts -> len ts <= weight.
Proof.
  intros H. pose proof (apart_weight ts H). pose proof (wsum_len (map fst ts)). rewrite length_map in *.
  lia.
Qed.

Lemma apart_add pc x ts : apart ts -> is_Some (inst_at progp pc) -> apart (add_thread pc x ts).
Proof.
  intros [H1 H2] Hpc. unfold apart. rewrite add_pcs.
  destruct (bool_decide_reflect (pc ∈ map fst ts)); [done|]. split.
  - apply NoDup_app. split_and!; [done|set_solver|apply NoDup_singleton].
  - apply Forall_app. split; [done|by constructor].
Qed.

(** The number of lighter instructions, which bounds the way of a thread. *)
Definition below (pc : Z) : nat :=
  length (filter (fun q => w q < w pc) (seqZ 0 (len (firstinst progp)))).

Lemma below_lt q pc : is_Some (inst_at progp q) -> w q < w pc -> (below q < below pc)%nat.
Proof.
  intros Hq%inst_at_range Hlt. unfold below. set (l := seqZ 0 _) in *.
  induction l as [|a l IH]; [by apply elem_of_nil in Hq|].
  assert (forall k : list Z, (length (filter (fun x => w x < w q)%Z k) <= length
    (filter (fun x => w x < w pc)%Z k))%nat) as Hmono.
  { intros k. induction k as [|b k IHk]; [done|]. rewrite !filter_cons. repeat case_decide; cbn; lia. }
  rewrite !filter_cons. apply elem_of_cons in Hq as [->|Hq].
  - rewrite decide_False, decide_True by lia. cbn. pose proof (Hmono l). lia.
  - specialize (IH Hq). repeat case_decide; cbn; lia.
Qed.

Lemma below_max pc : (below pc <= length (firstinst progp))%nat.
Proof. unfold below. etransitivity; [apply length_filter|]. rewrite length_seqZ. lia. Qed.

Section char.
Context (ms s r : Z) (bol eol : bool).

(** What a run leaves: the threads [ts] that follow in the array, and the next array. *)
Record leaves (l' : list Relist) (m m' : mach) (pc0 x : Z) (ts' : list (Z * Z)) (L : nat) : Prop :=
  mkLeaves {
  lv_threads : threads l' ((pc0, x) :: ts');
  lv_len : length l' = L;
  lv_sum : wsum (map fst ts') + 1 <= Z.of_nat L - 3;
  lv_valid : Forall (fun pc => is_Some (inst_at progp pc)) (map fst ts');
  lv_mach : exists ns' best', mach_ok ms m' ns' best' /\ apart ns';
  lv_nl : length (nl m') = length (nl m) }.

Lemma advance_runs i q x y se m ns best :
  mach_ok ms m ns best -> apart ns -> weight <= len (nl m) - 3 -> se_ok (mkResub (Some x) y :: se) ->
    ri_u2 i = Some q -> is_Some (inst_at progp q) ->
  exists m', advance ms i (mkResub (Some x) y :: se) m = Ran m' /\
    mach_ok ms m' (add_thread q x ns) best /\ length (nl m') = length (nl m).
Proof.
  intros Hm Hap Hw Hse Hq Hi. pose proof (apart_add q x ns Hap Hi) as Hap'.
  pose proof (apart_length _ Hap) as Hl. pose proof (apart_length _ Hap') as Hl'.
  assert (exists m', advance ms i (mkResub (Some x) y :: se) m = Ran m') as [m' E].
  { unfold advance. rewrite Hq. cbn [valid mbind ran_bind].
    destruct (renewthread_ok ms x y se Hse (nl m) ns q (mo_nl _ _ _ _ Hm))
      as [(l1 & -> & El & Ht)|(Hlt & _)]; [|lia].
    cbn [mbind ran_bind snd fst]. unfold room. rewrite bool_decide_eq_false_2; [by eexists|].
    rewrite <- (length_map fst), add_pcs in Hl'. destruct (bool_decide (q ∈ map fst ns)); [done|].
    rewrite length_app, length_map in Hl'. cbn in Hl'. intros [= ?]. lia. }
  exists m'. split; [done|].
  destruct (advance_ok ms i x y se m ns best m' Hm Hse E) as (next & En & ? & ?). rewrite Hq in En.
  by injection En as <-.
Qed.

Lemma run_thread_runs fuel : forall pc l m pc0 x ts ns best,
  threads l ((pc0, x) :: ts) -> mach_ok ms m ns best -> apart ns -> weight <= len (nl m) - 3 ->
    is_Some (inst_at progp pc) -> (below pc < fuel)%nat ->
  Forall (fun pc => is_Some (inst_at progp pc)) (map fst ts) -> wsum (map fst ts) + w pc <= len l - 3 ->
  exists l' m' ts', run_thread progp ms s r bol eol fuel (Some pc) l m = Ran (l', m') /\
    leaves l' m m' pc0 x ts' (length l).
Proof.
  induction fuel as [|fuel IH]; intros pc l m pc0 x ts ns best Hl Hm Hap Hw Hpc Hf Hts Hsum; [lia|].
  destruct l as [|t l]; [inversion Hl|]. destruct (threads_head _ _ _ _ _ Hl) as (Hse0 & y0 & se & Hse).
  pose proof (po_pos Hok pc) as Hp1.
  destruct Hpc as [i Hi]. pose proof (po_operand Hok pc i Hi) as Hop.
  assert (ri_type i = LBRA \/ ri_type i = RBRA -> ri_u1 i <> Some 0) as Hb
    by (intros H; destruct Hop as ((k & -> & ?) & _); [done|congruence || intros [= ->]; lia]).
  destruct (run_thread_view progp ms s r bol eol fuel pc i t l m Hi Hb Hse0 ltac:(eauto))
    as [Hs Ht He|Hs Ht He|se' Hs Ht Hty Hh Hlen|right Hr Hs Ht Hty|Hs Ht He|]; [..|done].
  - exists (t :: l), m, ts. split; [done|]. constructor; [done..|lia|done|by eauto|done].
  - destruct (po_next Hok pc i Hi He) as (q & Hq & Hqi). rewrite Hse in *.
    destruct (advance_runs i q x y0 se m ns best Hm Hap Hw Hse0 Hq Hqi) as (m' & -> & Hm' & En).
    exists (t :: l), m', ts. split; [done|]. constructor; [done..|lia|done| |done].
    exists (add_thread q x ns), best. split; [done|by apply apart_add].
  - destruct (po_next Hok pc i Hi) as (q & Hq & Hqi); [by destruct Hty as [->|[->|[->| ->]]]|].
    rewrite Hq. pose proof (po_chain Hok pc i q Hi Hty Hq).
    destruct (IH q (t <| rl_se := se' |> :: l) m pc0 x ts ns best) as (l' & m' & ts' & E & Hlv);
      try done; [by apply threads_set_se|..|cbn in *; lia|eauto].
    pose proof (below_lt q pc Hqi ltac:(lia)). lia.
  - destruct (po_next Hok pc i Hi) as (q & Hq & Hqi); [by rewrite Hty|].
    pose proof (po_or Hok pc i right q Hi Hty Hr Hq). pose proof (po_pos Hok right).
    pose proof (po_pos Hok q).
    pose proof (wsum_len (map fst ts)) as Hlen. rewrite length_map in Hlen.
    pose proof (po_right Hok pc i right Hi Hty Hr) as Hri.
    rewrite Hse.
    destruct (renewthread_ok ms x y0 se ltac:(by rewrite <- Hse) (t :: l) _ right Hl)
      as [(l2 & -> & El & Hl2)|(Hlt & _)]; [|cbn in *; lia].
    cbn [mbind ran_bind fst snd]. unfold room.
    rewrite bool_decide_eq_false_2 by (destruct (bool_decide _); [done|]; cbn in *; intros [= ?]; lia).
    cbn [mbind ran_bind]. cbn [add_thread] in Hl2.
    set (ts1 := if pc0 =? right then ts else add_thread right x ts).
    assert (threads l2 ((pc0, x) :: ts1)) as Hl3
      by (unfold ts1; destruct (pc0 =? right); [rewrite Z.min_id in Hl2|]; exact Hl2).
    assert (wsum (map fst ts1) <= wsum (map fst ts) + w right /\
      Forall (fun pc => is_Some (inst_at progp pc)) (map fst ts1)) as [Hs1 Hv1].
    { unfold ts1. destruct (pc0 =? right); [split; [lia|done]|]. rewrite add_pcs.
      destruct (bool_decide _); [split; [lia|done]|]. rewrite wsum_app. cbn [wsum foldr]. split; [lia|].
      apply Forall_app. split; [done|by constructor]. }
    rewrite Hq. rewrite <- El. eapply IH; try done; [|rewrite El; lia].
    pose proof (below_lt q pc Hqi ltac:(lia)). lia.
  - rewrite Hse.
    change (set_sub (mkResub (Some x) y0 :: se) 0 (fun x => x <| ep := Some s |>)) with
      (Ran (mkResub (Some x) (Some s) :: se)).
    cbn [mbind ran_bind].
    assert (exists mp', match mp m with Some p => p ← _renewmatch p ms
      (mkResub (Some x) (Some s) :: se); Ran (Some p) | None => Ran None end = Ran mp' /\
        mp_ok ms mp' (upd_best best x s)) as (mp' & -> & Hmp).
    { pose proof (mo_mp _ _ _ _ Hm) as Hmp. destruct (mp m) as [pm|]; [|by exists None].
      destruct (renewmatch_ok ms pm best x s se Hmp) as (pm' & -> & Hmp'). by exists (Some pm'). }
    cbn [mbind ran_bind]. do 2 eexists. exists ts. split; [done|].
    constructor; [|done|cbn in *; lia|done| |done].
    + apply threads_set_se; [done|by rewrite Hse|by rewrite Hse].
    + exists ns, (upd_best best x s). split; [|done]. constructor; [apply Hm| |done].
      destruct best as [[]|]; [|done]. cbn. by destruct (_ || _).
Qed.

Lemma run_list_runs fuel : forall l m ts ns best,
  threads l ts -> mach_ok ms m ns best -> apart ns -> weight <= len (nl m) - 3 ->
    (length l <= fuel)%nat ->
  Forall (fun pc => is_Some (inst_at progp pc)) (map fst ts) -> wsum (map fst ts) <= len l - 3 ->
  exists l' m', run_list progp ms s r bol eol fuel l m = Ran (l', m') /\ length l' = length l /\
    length (nl m') = length (nl m) /\
    exists ns' best', mach_ok ms m' ns' best' /\ apart ns'.
Proof.
  induction fuel as [|fuel IH]; intros l m ts ns best Hl Hm Hap Hw Hf Hts Hsum;
    [pose proof (threads_length _ _ Hl); lia|].
  cbn [run_list].
  destruct Hl as [q rest Hq Hfa|t pc x y se l ts Ht Hse Hse0 Hl]; cbn [head valid mbind ran_bind].
  - rewrite Hq. exists (q :: rest), m. split_and!; [done..|]. by exists ns, best.
  - rewrite Ht. cbn [map fst] in *. inversion Hts; subst. rewrite wsum_cons in Hsum.
    destruct (run_thread_runs (S (length (firstinst progp))) pc (t :: l) m pc x ts ns best)
      as (l1 & m1 & ts1 & -> & [Hl1 El1 Hs1 Hv1 (ns1 & best1 & Hm1 & Hap1) En1]); try done.
    { by eapply threads_cons. } { pose proof (below_max pc). lia. } { lia. }
    cbn [mbind ran_bind fst snd]. inversion Hl1 as [|t1 ? ? y1 se1 l2 ? Ht1 Hse1 Hse2 Hl2]; subst.
    cbn [tail head] in *.
    destruct (IH l2 m1 ts1 ns1 best1) as (l3 & m3 & -> & El3 & En3 & Hm3); try done;
      [by rewrite En1|cbn in *; lia|cbn in *; lia|].
    cbn [mbind ran_bind fst snd valid]. do 2 eexists. split_and!; [done|cbn in *; lia|congruence|done].
Qed.
End char.

Lemma threads_det l ts : threads l ts -> forall ts', threads l ts' -> ts = ts'.
Proof.
  induction 1 as [q rest Hq _|t pc x y se l ts Ht Hse _ _ IH]; intros ts' H'; inversion H'; subst;
    try congruence.
  rewrite Hse in *. simplify_eq. f_equal. auto.
Qed.

Section text.
Context (ms : Z) (j : Reljunk) (text post t0 : bytes) (Hpost : is_bytes post)
  (Hstart : at_string text post (starts j) t0).

Lemma brackets : brackets_ok progp.
Proof.
  intros pc i Hi Hty. destruct (po_operand Hok pc i Hi) as ((k & -> & ?) & _); [done|]. intros [= ->].
  lia.
Qed.

Lemma skip_runs check s : check_ok progp j -> boundary j text s ->
  exists p, skip j text check s = Ran p.
Proof.
  intros Hck Hs. unfold skip. destruct check; cbn [negb]; [|eauto].
  destruct Hck as [->|(-> & He & Hsc & _)]; [cbn; eauto|]. cbn [Z.eqb RUNE Pos.eqb].
  destruct (boundary_string _ _ _ Hpost _ Hstart s Hs) as (t & Hs0 & Hd & Ht).
  destruct (pieces_total t Ht) as (ps & Hps).
  unfold utfrune_at, utfrune. rewrite (proj2 (Z.ltb_lt _ _)) by apply Hsc.
  rewrite Hd, (strchr_pieces ps) by (done || apply Hsc). cbn. eauto.
Qed.

Lemma skip_ge check s p : check_ok progp j -> boundary j text s -> skip j text check s = Ran (Some p) ->
  s <= p.
Proof.
  intros Hck Hs E. unfold skip in E. destruct check; cbn [negb] in E; [|injection E as ->; lia].
  destruct Hck as [E0|(Ety & He & Hsc & _)]; [rewrite E0 in E; injection E as ->; lia|].
  rewrite Ety, He in E. cbn [Z.eqb RUNE Pos.eqb] in E.
  apply ran_bind_inv in E as (q & Eq & [= ->]). unfold utfrune_at in Eq.
  apply ran_bind_inv in Eq as (k & Ek%valid_inv & Eq).
  destruct (boundary_string _ _ _ Hpost _ Hstart s Hs) as (t & Hs0 & Hd & Ht).
  destruct (pieces_total t Ht) as (ps & Hps).
  unfold utfrune in Ek. rewrite (proj2 (Z.ltb_lt _ _)) in Ek by apply Hsc.
  rewrite Hd, (strchr_pieces ps) in Ek by (done || apply Hsc). injection Ek as <-.
  assert (forall ps k, find_rune (startchar j) ps = Some k -> 0 <= k) as Hk.
  { clear. induction ps as [|[r b] ps IH]; intros k E; cbn in E; [done|].
    destruct (r =? _); [injection E as <-; lia|].
    destruct (find_rune _ ps) as [z|]; [|done]. injection E as <-. specialize (IH z eq_refl). lia. }
  destruct (find_rune (startchar j) ps) as [z|] eqn:Ez; [|done]. injection Eq as <-.
  specialize (Hk _ _ Ez). lia.
Qed.

Lemma loop_runs fuel : check_ok progp j -> forall check s tl m ts best,
  loop_inv progp j text s ts best -> threads tl ts -> apart ts ->
    Forall (fun t => se_ok (rl_se t)) (nl m) ->
  weight <= len tl - 3 -> weight <= len (nl m) - 3 -> len text - s < Z.of_nat fuel ->
  matched m = match best with Some _ => true | None => false end -> mp_ok ms (mp m) best ->
    (check = true -> ts = []) ->
  exists x, regexec1_loop progp ms j text fuel check s tl m = Ran x.
Proof.
  intros Hck.
  induction fuel as [|fuel IH]; intros check s tl m ts best H Ht Hap Hf Hw1 Hw2 Hfu Hm Hmp Hts.
  { destruct (boundary_string _ _ _ Hpost _ Hstart s (li_boundary _ _ _ _ _ _ H)) as (t & Hs).
    pose proof (at_string_length _ _ _ _ Hs). lia. }
  cbn [regexec1_loop]. destruct (skip_runs check s Hck (li_boundary _ _ _ _ _ _ H)) as (p & Ep).
  rewrite Ep. cbn [mbind ran_bind].
  destruct p as [s'|]; [|eauto]. pose proof (skip_ge _ _ _ Hck (li_boundary _ _ _ _ _ _ H) Ep) as Hge.
  pose proof (skip_ok progp j text post Hpost t0 Hstart brackets check s ts best _ Hck H Hts Ep) as H'.
  clear H. rename H' into H.
  destruct (boundary_string _ _ _ Hpost _ Hstart s' (li_boundary _ _ _ _ _ _ H)) as (t & Hs).
  destruct (rune_at_ok _ _ Hpost s' t Hs) as (r & n & Er & Hn & _). rewrite Er.
  cbn [mbind ran_bind fst snd].
  pose proof (at_string_length _ _ _ _ Hs) as Hle. destruct (at_bol_ok _ _ s' t Hs Hle) as (bol & Eb).
  pose proof (po_pos Hok (startinst progp)). pose proof (apart_length _ Hap).
  assert (exists nl0, clear_list (nl m) = Ran nl0) as (nl0 & Hcl)
    by (destruct (nl m); [cbn in *; lia|by eexists]).
  rewrite Hcl. cbn [mbind ran_bind].
  destruct (cleared_threads _ _ Hcl Hf) as [Hn0 Eln0].
  assert (exists tl0, (if matched m then Ran tl else _renewemptythread tl (startinst progp) ms s') =
    Ran tl0) as (tl0 & Hst).
  { destruct (matched m); [eauto|].
    destruct (renewemptythread_ok ms s' tl ts (startinst progp) Ht) as [(l' & -> & _)|(? & _)];
      [eauto|lia].
    }
  rewrite Hst, Eb. cbn [mbind ran_bind].
  destruct (start_threads progp ms s' tl ts best m tl0 Ht Hm Hst) as [Ht0 El0].
  assert (apart (with_start progp s' ts best)) as Hap0
    by (unfold with_start; destruct best; [done|]; apply apart_add, (po_start Hok); done).
  destruct (run_list_runs ms s' r bol (line_ends j s' r) (length tl0) tl0 (m <| nl := nl0 |>)
    (with_start progp s' ts best) [] best)
    as (l' & m' & Erun & El' & En' & ns' & best1 & Hm1 & Hap1); try done.
  { by split; [constructor|]. } { cbn [nl upd]. rewrite Eln0. lia. } { apply Hap0.
    } { pose proof (apart_weight _ Hap0). lia. }
  cbv zeta. change (bool_decide (Some s' = j_eol j) || (r =? 0) || (r =? 10)) with (line_ends j s' r).
  match goal with |- context [run_list ?a ?b ?c ?d ?e ?f ?g ?h ?i] => replace
    (run_list a b c d e f g h i) with (Ran (l', m')) by (symmetry; exact Erun) end.
  cbn [mbind ran_bind fst snd].
  destruct (turn_ok progp ms j text brackets s' r n bol tl ts best m tl0 nl0 l' m' H Er Eb Ht Hf Hcl Hm
    Hmp Hst Erun) as (ns & best' & Hran & [Hn' Hm' Hmp'] & Hf').
  destruct (bool_decide_reflect (Some s' = j_eol j)) as [He|He]; [eauto|].
  destruct (Z.eqb_spec r 0) as [->|Hr]; [eauto|].
  eapply (IH _ _ _ _ ns best'); [|exact Hn'| |exact Hf'|cbn [nl upd] in En'; rewrite En', Eln0; lia|cbn;
    lia|lia|exact Hm'|exact Hmp'|].
  - eapply (ran_next progp j text post Hpost t0 Hstart); [exact H|by split_and!|exact Eb|exact Hran].
  - rewrite (threads_det _ _ Hn' _ (mo_nl _ _ _ _ Hm1)). done.
  - intros [_ Hno]%andb_true_iff. by eapply no_threads_nil.
Qed.

Lemma regexec1_runs mp0 l0 l1 : check_ok progp j -> arrays_ok l0 -> arrays_ok l1 ->
  weight <= len l0 - 3 -> weight <= len l1 - 3 ->
  exists x, regexec1 progp ms j text mp0 l0 l1 = Ran x.
Proof.
  intros Hck H0 H1 Hw0 Hw1. pose proof (apart_length []) as Hw. cbn in Hw.
  assert (0 <= weight) by (apply Hw; split; constructor).
  unfold regexec1. destruct l0 as [|a0 l0]; [cbn in *; lia|]. destruct l1 as [|a1 l1]; [cbn in *; lia|].
  cbn [clear_list mbind ran_bind].
  destruct (cleared_threads (a0 :: l0) _ eq_refl H0) as [Ha0 _].
  destruct (cleared_threads (a1 :: l1) _ eq_refl H1) as [Ha1 _].
  eapply (loop_runs _ Hck _ _ _ _ [] None);
    [by eapply start_inv|exact Ha0|by split;
      constructor|by eapply threads_ok|done|done| |done|apply clear_mp_ok|done].
  pose proof (proj1 Hstart). lia.
Qed.
End text.
End room.
