(* ===== verification/RegexLang.v ===== *)
(** * Regular expressions and the code for them

    What a regular expression matches, on the positions of a string; the shape of the code that
    [regcomp.c] emits for it; and the proof that code of this shape matches the same. *)

From S2P Require Import Prelude Fcall Utf UtfString Regexec RegexecRun RegexecProps.

(** ** Regular expressions *)

Inductive re :=
| Chr (c : Z)
| Dot (nl : bool)
| Class (neg : bool) (spans : Reclass)
| Bol
| Eol
| Cat (e1 e2 : re)
| Alt (e1 e2 : re)
| Star (e : re)
| Plus (e : re)
| Opt (e : re)
| Group (e : re).

(** Whether an expression for one character takes the rune [r]; a negated class does not take
    a newline. *)
Definition re_takes (e : re) (r : Z) : bool :=
  match e with
  | Chr c => r =? c
  | Dot nl => nl || negb (r =? 10)
  | Class neg spans => if neg then negb (r =? 10) && negb (in_class spans r) else in_class spans r
  | _ => false
  end.

Definition is_char (e : re) : bool := match e with Chr _ | Dot _ | Class _ _ => true | _ => false end.

Section matches.
Context (j : Reljunk) (text : bytes).

(** The string from [s] to [s'] matches [e]. *)
Inductive matches : re -> Z -> Z -> Prop :=
| m_char e s r n : is_char e = true -> live j text s r n -> re_takes e r = true -> matches e s (s + n)
| m_bol s : at_bol text s = Ran true -> matches Bol s s
| m_eol s r n : rune_at text s = Ran (r, n) -> line_ends j s r = true -> matches Eol s s
| m_cat e1 e2 s s1 s2 : matches e1 s s1 -> matches e2 s1 s2 -> matches (Cat e1 e2) s s2
| m_left e1 e2 s s1 : matches e1 s s1 -> matches (Alt e1 e2) s s1
| m_right e1 e2 s s1 : matches e2 s s1 -> matches (Alt e1 e2) s s1
| m_star_end e s : matches (Star e) s s
| m_star_more e s s1 s2 : matches e s s1 -> matches (Star e) s1 s2 -> matches (Star e) s s2
| m_plus e s s1 s2 : matches e s s1 -> matches (Star e) s1 s2 -> matches (Plus e) s s2
| m_opt_none e s : matches (Opt e) s s
| m_opt_some e s s1 : matches e s s1 -> matches (Opt e) s s1
| m_group e s s1 : matches e s s1 -> matches (Group e) s s1.

Lemma matches_boundary e s s' : matches e s s' -> boundary j text s -> boundary j text s'.
Proof. induction 1; auto. intros. by eapply boundary_next. Qed.

(** ** Steps of code that may have no-operations *)

Context (prg : list Reinst) (classes : list Reclass).

Definition succs_nop (bol eol : bool) (i : Reinst) : list Z :=
  if ri_type i =? NOP then option_list (ri_u2 i) else succs bol eol i.

Inductive step : Z * Z -> Z * Z -> Prop :=
| step_eps pc s i r n b q :
    load1 prg pc = Some i -> rune_at text s = Ran (r, n) -> at_bol text s = Ran b ->
      q ∈ succs_nop b (line_ends j s r) i ->
    step (pc, s) (q, s)
| step_take pc s i r n q :
    load1 prg pc = Some i -> live j text s r n -> takes classes i r = true -> ri_u2 i = Some q ->
      step (pc, s) (q, s + n).

(** ** The shape of code *)

Definition next (l x : Z) : Prop := exists i, load1 prg l = Some i /\ ri_u2 i = Some x.

(** The instruction for an expression without parts. *)
Definition atom_inst (i : Reinst) (e : re) : Prop :=
  match e with
  | Chr c => ri_type i = RUNE /\ ri_u1 i = Some c
  | Dot nl => ri_type i = (if nl then ANYNL else ANY)
  | Class neg spans => ri_type i = (if neg then NCCLASS else CCLASS) /\ exists k c, ri_u1 i = Some k /\
    load1 classes k = Some c /\
      forall r, in_class c r = (neg && (r =? 10)) || in_class spans r
  | Bol => ri_type i = BOL
  | Eol => ri_type i = EOL
  | _ => False
  end.

(** The instructions from [lo] to [hi] are code for the expression, which begins at [f] and goes
    on where the instruction [l] says. *)
Inductive frag : Z -> Z -> Z -> Z -> re -> Prop :=
| f_atom lo i e : load1 prg lo = Some i -> atom_inst i e -> frag lo (lo + 1) lo lo e
| f_cat lo mid hi f1 l1 f2 l2 e1 e2 :
    frag lo mid f1 l1 e1 -> frag mid hi f2 l2 e2 -> next l1 f2 -> frag lo hi f1 l2 (Cat e1 e2)
| f_alt lo mid hi f1 l1 f2 l2 e1 e2 u1 u2 :
    frag lo mid f1 l1 e1 -> frag mid hi f2 l2 e2 -> next l1 hi -> next l2 hi ->
    load1 prg hi = Some (mkReinst NOP u1 u2) ->
      load1 prg (hi + 1) = Some (mkReinst OR (Some f1) (Some f2)) ->
    frag lo (hi + 2) (hi + 1) hi (Alt e1 e2)
| f_star lo hi f l e u2 :
    frag lo hi f l e -> next l hi -> load1 prg hi = Some (mkReinst OR (Some f) u2) ->
      frag lo (hi + 1) hi hi (Star e)
| f_plus lo hi f l e u2 :
    frag lo hi f l e -> next l hi -> load1 prg hi = Some (mkReinst OR (Some f) u2) ->
      frag lo (hi + 1) f hi (Plus e)
| f_opt lo hi f l e u1 u2 :
    frag lo hi f l e -> next l (hi + 1) -> load1 prg hi = Some (mkReinst OR (Some f) (Some (hi + 1))) ->
    load1 prg (hi + 1) = Some (mkReinst NOP u1 u2) -> frag lo (hi + 2) hi (hi + 1) (Opt e)
| f_group lo hi f l e k u2 :
    frag lo hi f l e -> next l hi -> 0 < k < NSUBEXP ->
      load1 prg hi = Some (mkReinst RBRA (Some k) u2) ->
    load1 prg (hi + 1) = Some (mkReinst LBRA (Some k) (Some f)) ->
      frag lo (hi + 2) (hi + 1) hi (Group e).

Lemma frag_range lo hi f l e : frag lo hi f l e -> lo <= f < hi /\ lo <= l < hi.
Proof. induction 1; lia. Qed.

Lemma next_fun l x y : next l x -> next l y -> x = y.
Proof.
  intros (i & Hi & Hx) (i' & Hi' & Hy). rewrite Hi in Hi'. injection Hi' as <-. rewrite Hx in Hy.
  by injection Hy.
Qed.

(** ** Code takes the matches *)

Context (Hpos : forall s, boundary j text s -> exists r n b, rune_at text s = Ran (r, n) /\
  at_bol text s = Ran b).

Lemma eps_step pc q s i : boundary j text s -> load1 prg pc = Some i ->
  (forall bol eol, q ∈ succs_nop bol eol i) -> step (pc, s) (q, s).
Proof. intros Hs Hi Hq. destruct (Hpos s Hs) as (r & n & b & Er & Eb). by eapply step_eps. Qed.

Lemma atom_type e i : atom_inst i e -> ri_type i <> NOP /\ ri_type i <> END /\ ri_type i <> OR /\
  ri_type i <> LBRA /\ ri_type i <> RBRA.
Proof.
  destruct e as [c|[]|[] spans| | | | | | | |]; cbn; try done;
    [intros [-> _]|intros ->|intros ->|intros [-> _]|intros [-> _]|intros ->|intros ->]; done.
Qed.

Lemma atom_takes e i r : atom_inst i e -> takes classes i r = re_takes e r.
Proof.
  destruct e as [c|[]|[] spans| | | | | | | |]; cbn; try done.
  - intros [Et Eu]. unfold takes. rewrite Et, Eu. cbn.
    destruct (Z.eqb_spec r c) as [->|];
      [by rewrite bool_decide_eq_true_2|by rewrite bool_decide_eq_false_2 by congruence].
  - intros Et. unfold takes. by rewrite Et.
  - intros Et. unfold takes. by rewrite Et.
  - intros (Et & k & c & Ek & Ec & Hc). unfold takes. rewrite Et, Ek. cbn. rewrite Ec. cbn.
    rewrite Hc, negb_orb. by destruct (in_class _ _).
  - intros (Et & k & c & Ek & Ec & Hc). unfold takes. rewrite Et, Ek. cbn. rewrite Ec. cbn.
    by rewrite Hc.
  - intros Et. unfold takes. by rewrite Et.
  - intros Et. unfold takes. by rewrite Et.
Qed.

(** A step without a character, by evaluation of the instruction. *)
Ltac eps_to q := eapply (eps_step _ q); [done..|intros; cbn; first [by left|right; by left]].

Lemma loop_complete hi f e x :
  (forall s s', boundary j text s -> matches e s s' -> rtc step (f, s) (hi, s')) ->
  load1 prg hi = Some (mkReinst OR (Some f) (Some x)) ->
  forall e' s s', matches e' s s' -> e' = Star e -> boundary j text s -> rtc step (hi, s) (x, s').
Proof.
  intros He Ho e' s s' M.
  induction M as [? ? ? ? Hch| | | | | |e0 s|e0 s s1 s2 M1 _ M2 IHM| | | |]; intros Ee Hs; try done;
    [by subst|injection Ee as ->|injection Ee as ->].
  - apply rtc_once. eps_to x.
  - eapply rtc_l; [eps_to f|]. etransitivity; [by apply He|]. apply IHM; [done|].
    by eapply matches_boundary.
Qed.

Lemma atom_complete lo i e : load1 prg lo = Some i -> atom_inst i e -> forall x, next lo x ->
  forall s s', boundary j text s -> matches e s s' -> step (lo, s) (x, s').
Proof.
  intros Hi Ha x (i' & Hi' & Hx) s s' Hs M. rewrite Hi in Hi'. injection Hi' as <-.
  pose proof (atom_takes e i) as Htk. destruct (Hpos s Hs) as (r0 & n0 & b & Er & Eb).
  destruct M as [e s r n Hch Hl Ht|s Hb|s r n Hr He| | | | | | | | |]; cbn in Ha; try done.
  - eapply step_take; [exact Hi|done| |done]. by rewrite Htk.
  - eapply step_eps; [done..|]. unfold succs_nop, succs. rewrite Ha, Hx. cbn. rewrite Eb in Hb.
    injection Hb as ->. by left.
  - eapply step_eps; [done..|]. unfold succs_nop, succs. rewrite Ha, Hx. cbn. rewrite Hr in Er.
    injection Er as <- <-. rewrite He. by left.
Qed.

(** The next instruction after one that is known. *)
Ltac known H Hx := destruct Hx as (i & Hi & Hx); rewrite H in Hi; injection Hi as <-; cbn in Hx; subst.

Lemma frag_complete lo hi f l e : frag lo hi f l e -> forall x, next l x ->
  forall s s', boundary j text s -> matches e s s' -> rtc step (f, s) (x, s').
Proof.
  induction 1 as [lo i e Hi Ha|lo mid hi f1 l1 f2 l2 e1 e2 F1 IH1 F2 IH2 N1
    |lo mid hi f1 l1 f2 l2 e1 e2 u1 u2 F1 IH1 F2 IH2 N1 N2 Hn Ho
    |lo hi f l e u2 F IH N Ho|lo hi f l e u2 F IH N Ho|lo hi f l e u1 u2 F IH N Ho Hn|lo hi f l e k u2
      F IH N Hk Hr Hl];
    intros x Hx s s' Hs M; [apply rtc_once; by eapply atom_complete|..];
      assert (boundary j text s') as Hs' by (by eapply matches_boundary).
  - inversion M as [? ? ? ? Hch| | |? ? ? s1 ? M1 M2| | | | | | | |]; subst; [done|].
    etransitivity; [by eapply IH1|]. eapply IH2; eauto. by eapply matches_boundary.
  - known Hn Hx. assert (step (hi, s') (x, s')) as Hlast by eps_to x.
    inversion M as [? ? ? ? Hch| | | |? ? ? ? M1|? ? ? ? M1| | | | | |]; subst; [done|..].
    + eapply rtc_l; [eps_to f1|]. eapply rtc_r; [by eapply IH1|done].
    + eapply rtc_l; [eps_to f2|]. eapply rtc_r; [by eapply IH2|done].
  - known Ho Hx. eapply loop_complete; eauto.
  - known Ho Hx. inversion M as [? ? ? ? Hch| | | | | | | |? ? s1 ? M1 M2| | |]; subst; [done|].
    etransitivity; [by eapply IH|].
    eapply loop_complete; eauto. by eapply matches_boundary.
  - known Hn Hx. assert (step (hi + 1, s') (x, s')) as Hlast by eps_to x.
    inversion M as [? ? ? ? Hch| | | | | | | | |? ?|? ? ? M1|]; subst; [done|..].
    + eapply rtc_l; [eps_to (hi + 1)|]. by apply rtc_once.
    + eapply rtc_l; [eps_to f|]. eapply rtc_r; [by eapply IH|done].
  - known Hr Hx. inversion M as [? ? ? ? Hch| | | | | | | | | | |? ? ? M1]; subst; [done|].
    eapply rtc_l; [eps_to f|]. eapply rtc_r; [by eapply IH|]. eps_to x.
Qed.

(** ** Code takes nothing else *)

(** A path of [n] steps from [a] to [b], last step first removed. *)
Abbreviation path := (nsteps step).

Lemma path_first n a b : path n a b -> a <> b -> exists c m, n = S m /\ step a c /\ path m c b.
Proof. destruct 1 as [|n a c b Hs Hp]; [done|]. intros _. by exists c, n. Qed.

Lemma step_inv pc s i q : step (pc, s) q -> load1 prg pc = Some i ->
  (exists r n b x, rune_at text s = Ran (r, n) /\ at_bol text s = Ran b /\
    x ∈ succs_nop b (line_ends j s r) i /\ q = (x, s)) \/
  (exists r n x, live j text s r n /\ takes classes i r = true /\ ri_u2 i = Some x /\ q = (x, s + n)).
Proof.
  intros Hs Hi.
  inversion Hs as [? ? i' r n b x Hi' Hr Hb Hx|? ? i' r n x Hi' Hl Ht Hx]; subst; rewrite Hi in Hi';
    injection Hi' as <-; [left|right]; eauto 10.
Qed.

(** A step from a branch or a no-operation. *)
Lemma or_step pc s f x q : step (pc, s) q -> load1 prg pc = Some (mkReinst OR (Some f) (Some x)) ->
  q = (f, s) \/ q = (x, s).
Proof.
  intros Hs Hi.
  destruct (step_inv _ _ _ _ Hs Hi) as [(r & n & b & y & _ & _ & Hy & ->)|(r & n & y & _ & Ht & _)];
    [|done].
  cbn in Hy. apply elem_of_cons in Hy as [->|[->|?%elem_of_nil]%elem_of_cons]; auto. done.
Qed.

Lemma plain_step pc s t u x q : step (pc, s) q -> load1 prg pc = Some (mkReinst t u (Some x)) ->
  t = NOP \/ t = LBRA \/ t = RBRA -> q = (x, s).
Proof.
  intros Hs Hi Ht.
  destruct (step_inv _ _ _ _ Hs Hi) as [(r & n & b & y & _ & _ & Hy & ->)|(r & n & y & _ & Htk & _)].
  - destruct Ht as [->|[->| ->]]; cbn in Hy; apply list_elem_of_singleton in Hy as ->; done.
  - destruct Ht as [->|[->| ->]]; done.
Qed.

Lemma plain_path pc t u x pc' k : load1 prg pc = Some (mkReinst t u (Some x)) -> t = NOP \/ t = LBRA \/
  t = RBRA -> pc <> pc' ->
  forall n s, path n (pc, s) (pc', k) -> exists m, (m < n)%nat /\ path m (x, s) (pc', k).
Proof.
  intros Hi Ht Hne n s Hp.
  destruct (path_first _ _ _ Hp) as (c & m & -> & Hs & Hp'); [by intros [= <- _]|].
  rewrite (plain_step _ _ _ _ _ _ Hs Hi Ht) in Hp'. exists m. split; [lia|done].
Qed.

Lemma atom_sound lo i e s q : load1 prg lo = Some i -> atom_inst i e -> step (lo, s) q ->
  forall x, next lo x -> exists s', matches e s s' /\ q = (x, s').
Proof.
  intros Hi Ha Hs x (i' & Hi' & Hx). rewrite Hi in Hi'. injection Hi' as <-.
  destruct (atom_type e i Ha) as (Hn & _ & Ho & Hlb & Hrb).
  destruct (step_inv _ _ _ _ Hs Hi)
    as [(r & n & b & y & Hr & Hb & Hy & ->)|(r & n & y & Hl & Ht & Hy & ->)].
  - unfold succs_nop in Hy. rewrite (proj2 (Z.eqb_neq _ _) Hn) in Hy. exists s.
    assert (exists bb, y ∈ (if bb : bool then option_list (ri_u2 i) else []) /\
      (bb = true -> matches e s s)) as (bb & Hy' & Hm).
    { destruct e as [c|[]|[] spans| | | | | | | |]; cbn in Ha; try done; unfold succs in Hy.
      1, 4, 5: destruct Ha as [Ha _]. all: rewrite Ha in Hy. 1-5: by apply elem_of_nil in Hy.
      - cbn in Hy. exists b. split; [done|]. intros ->. by apply m_bol.
      - cbn in Hy. exists (line_ends j s r). split; [done|]. intros E. by eapply m_eol. }
    destruct bb; [|by apply elem_of_nil in Hy']. rewrite Hx in Hy'.
    apply list_elem_of_singleton in Hy' as ->. auto.
  - rewrite Hx in Hy. injection Hy as <-. exists (s + n). split; [|done].
    rewrite (atom_takes e i r Ha) in Ht. apply m_char with r; [by destruct e|done..].
Qed.

Definition inside (lo hi pc : Z) : Prop := lo <= pc < hi.

(** From the branch of a loop, a path that leaves the loop goes around it and on. *)
Lemma loop_sound hi f e x lo pc' k :
  (forall n s, path n (f, s) (pc', k) -> exists s1 m, (m < n)%nat /\ matches e s s1 /\
    path m (hi, s1) (pc', k)) ->
  load1 prg hi = Some (mkReinst OR (Some f) (Some x)) -> ~ inside lo (hi + 1) pc' -> lo <= hi ->
  forall n s, path n (hi, s) (pc', k) -> exists s1 m, (m < n)%nat /\ matches (Star e) s s1 /\
    path m (x, s1) (pc', k).
Proof.
  intros He Ho Hout Hlo n. induction (lt_wf n) as [n _ IH]. intros s Hp.
  destruct (path_first _ _ _ Hp) as (c & m & -> & Hs & Hp');
    [intros [= <- _]; unfold inside in Hout; lia|].
  destruct (or_step _ _ _ _ _ Hs Ho) as [-> | ->].
  - destruct (He _ _ Hp') as (s1 & m1 & Hm1 & M1 & Hp1).
    destruct (IH m1 ltac:(lia) s1 Hp1) as (s2 & m2 & Hm2 & M2 & Hp2).
    exists s2, m2. split_and!; [lia|by eapply m_star_more|done].
  - exists s, m. split_and!; [lia|apply m_star_end|done].
Qed.

Lemma frag_sound lo hi f l e : frag lo hi f l e -> forall x, next l x ->
  forall pc' k, ~ inside lo hi pc' ->
  forall n s, path n (f, s) (pc', k) -> exists s1 m, (m < n)%nat /\ matches e s s1 /\
    path m (x, s1) (pc', k).
Proof.
  induction 1 as [lo i e Hi Ha|lo mid hi f1 l1 f2 l2 e1 e2 F1 IH1 F2 IH2 N1
    |lo mid hi f1 l1 f2 l2 e1 e2 u1 u2 F1 IH1 F2 IH2 N1 N2 Hn Ho
    |lo hi f l e u2 F IH N Ho|lo hi f l e u2 F IH N Ho|lo hi f l e u1 u2 F IH N Ho Hn|lo hi f l e k0 u2
      F IH N Hk Hr Hl];
    intros x Hx pc' k Hout n s Hp; unfold inside in Hout.
  - destruct (path_first _ _ _ Hp) as (c & m & -> & Hs & Hp'); [intros [= <- _]; lia|].
    destruct (atom_sound _ _ _ _ _ Hi Ha Hs x Hx) as (s' & M & ->). exists s', m.
    split_and!; [lia|done..].
  - pose proof (frag_range _ _ _ _ _ F1). pose proof (frag_range _ _ _ _ _ F2).
    destruct (IH1 _ N1 pc' k ltac:(unfold inside; lia) n s Hp) as (s1 & m1 & Hm1 & M1 & Hp1).
    destruct (IH2 _ Hx pc' k ltac:(unfold inside; lia) m1 s1 Hp1) as (s2 & m2 & Hm2 & M2 & Hp2).
    exists s2, m2. split_and!; [lia|by eapply m_cat|done].
  - pose proof (frag_range _ _ _ _ _ F1). pose proof (frag_range _ _ _ _ _ F2). known Hn Hx.
    destruct (path_first _ _ _ Hp) as (c & m & -> & Hs & Hp'); [intros [= <- _]; lia|].
    pose proof (plain_path _ _ _ _ pc' k Hn ltac:(auto) ltac:(lia)) as Hnop.
    destruct (or_step _ _ _ _ _ Hs Ho) as [-> | ->].
    + destruct (IH1 _ N1 pc' k ltac:(unfold inside; lia) m s Hp') as (s1 & m1 & Hm1 & M1 & Hp1).
      destruct (Hnop _ _ Hp1) as (m2 & ? & ?).
      exists s1, m2. split_and!; [lia|by apply m_left|done].
    + destruct (IH2 _ N2 pc' k ltac:(unfold inside; lia) m s Hp') as (s1 & m1 & Hm1 & M1 & Hp1).
      destruct (Hnop _ _ Hp1) as (m2 & ? & ?).
      exists s1, m2. split_and!; [lia|by apply m_right|done].
  - pose proof (frag_range _ _ _ _ _ F). known Ho Hx.
    eapply (loop_sound hi f e x lo); [|done|unfold inside; lia|lia|done].
    apply IH; [done|unfold inside; lia].
  - pose proof (frag_range _ _ _ _ _ F). known Ho Hx.
    assert (~ inside lo hi pc') as Hout' by (unfold inside; lia).
    destruct (IH _ N pc' k Hout' n s Hp) as (s1 & m1 & Hm1 & M1 & Hp1).
    destruct (loop_sound hi f e x lo pc' k
      (IH _ N pc' k Hout') Ho ltac:(unfold inside; lia) ltac:(lia) m1 s1 Hp1)
        as (s2 & m2 & Hm2 & M2 & Hp2).
    exists s2, m2. split_and!; [lia|by eapply m_plus|done].
  - pose proof (frag_range _ _ _ _ _ F). known Hn Hx.
    destruct (path_first _ _ _ Hp) as (c & m & -> & Hs & Hp'); [intros [= <- _]; lia|].
    pose proof (plain_path _ _ _ _ pc' k Hn ltac:(auto) ltac:(lia)) as Hnop.
    destruct (or_step _ _ _ _ _ Hs Ho) as [-> | ->].
    + destruct (IH _ N pc' k ltac:(unfold inside; lia) m s Hp') as (s1 & m1 & Hm1 & M1 & Hp1).
      destruct (Hnop _ _ Hp1) as (m2 & ? & ?).
      exists s1, m2. split_and!; [lia|by apply m_opt_some|done].
    + destruct (Hnop _ _ Hp') as (m2 & ? & ?). exists s, m2. split_and!; [lia|apply m_opt_none|done].
  - pose proof (frag_range _ _ _ _ _ F). known Hr Hx.
    destruct (plain_path _ _ _ _ pc' k Hl ltac:(auto) ltac:(lia) _ _ Hp) as (m & Hm & Hp').
    destruct (IH _ N pc' k ltac:(unfold inside; lia) m s Hp') as (s1 & m1 & Hm1 & M1 & Hp1).
    destruct (plain_path _ _ _ _ pc' k Hr ltac:(auto) ltac:(lia) _ _ Hp1) as (m2 & Hm2 & Hp2).
    exists s1, m2. split_and!; [lia|by apply m_group|done].
Qed.
End matches.
