(* ===== verification/RegexCode.v ===== *)
(** * Programs without no-operations

    The instructions of the code for an expression, what [optimize] makes of them, and the
    matches of the program that results. *)

From S2P Require Import Prelude Fcall Utf UtfString Regexec RegexecRun RegexecProps Regcomp.
From S2P Require Import RegexLang.
#[local] Open Scope Z_scope.

Section code.
Context (prg : list Reinst) (classes : list Reclass).

(** ** The instructions of code *)

Definition bracket_ok (i : Reinst) : Prop := ri_type i = LBRA \/ ri_type i = RBRA ->
  exists k, ri_u1 i = Some k /\ 0 < k < NSUBEXP.

Definition not_nop (q : Z) : Prop := exists i, load1 prg q = Some i /\ ri_type i <> NOP.

(** The instruction at [pc] is one of the code from [lo] to [hi]: it goes on within the code,
    unless it is the last; a no-operation goes forward or to another instruction. *)
Definition inst_ok (lo hi l pc : Z) : Prop :=
  exists i, load1 prg pc = Some i /\ ri_type i <> END /\ bracket_ok i /\
    (ri_type i = OR -> exists q, ri_u1 i = Some q /\ not_nop q) /\
    (pc <> l -> exists q, ri_u2 i = Some q /\ lo <= q < hi /\ (ri_type i = NOP -> pc < q \/ not_nop q)).

Lemma frag_first lo hi f l e : frag prg classes lo hi f l e -> not_nop f.
Proof.
  induction 1 as [lo i e Hi Ha| |lo mid hi f1 l1 f2 l2 e1 e2 u1 u2| | |lo hi f l e u1 u2
    |lo hi f l e k u2]; try done; [|by eexists..].
  exists i. split; [done|]. by apply (atom_type classes) in Ha as (? & _).
Qed.

(** The instruction goes on to [x], where the code around it ends. *)
Lemma inst_ok_next lo hi lo' hi' l l' x pc : inst_ok lo hi l pc -> next prg l x -> lo' <= lo ->
  hi <= hi' -> lo' <= x < hi' ->
  (l < x \/ not_nop x) -> inst_ok lo' hi' l' pc.
Proof.
  intros (i & Hi & He & Hb & Ho & Hn) (i' & Hi' & Hx) Hlo Hhi Hr Hnx. exists i. split_and!; [done..|].
  intros _.
  destruct (Z.eq_dec pc l) as [->|Hne].
  - rewrite Hi in Hi'. injection Hi' as <-. exists x. split_and!; [done|lia..|]. auto.
  - destruct (Hn Hne) as (q & Hq & ? & ?). exists q. split_and!; [done|lia..|done].
Qed.

Lemma inst_ok_wider lo hi lo' hi' l pc : inst_ok lo hi l pc -> lo' <= lo -> hi <= hi' ->
  inst_ok lo' hi' l pc.
Proof.
  intros (i & Hi & He & Hb & Ho & Hn) Hlo Hhi. exists i. split_and!; [done..|]. intros Hne.
  destruct (Hn Hne) as (q & Hq & ? & ?). exists q. split_and!; [done|lia..|done].
Qed.

(** An instruction that the compiler adds. *)
Lemma inst_ok_new lo hi l pc i : load1 prg pc = Some i -> ri_type i <> END -> bracket_ok i ->
  (ri_type i = OR -> exists q, ri_u1 i = Some q /\ not_nop q) ->
  (pc <> l -> ri_type i <> NOP /\ exists q, ri_u2 i = Some q /\ lo <= q < hi) -> inst_ok lo hi l pc.
Proof.
  intros Hi He Hb Ho Hn. exists i. split_and!; [done..|]. intros Hne.
  destruct (Hn Hne) as (Ht & q & Hq & ?). exists q. split_and!; [done|lia..|done].
Qed.

Ltac new_inst H := eapply inst_ok_new; [exact H|done|intros [?|?]; first [done|by eexists]|
  first [done|intros _; eexists; split; [done|by eapply frag_first]]|first [done|intros _; split;
    [done|eexists; split; [done|lia]]]].

Lemma frag_inst lo hi f l e : frag prg classes lo hi f l e -> forall pc, lo <= pc < hi ->
  inst_ok lo hi l pc.
Proof.
  induction 1 as [lo i e Hi Ha|lo mid hi f1 l1 f2 l2 e1 e2 F1 IH1 F2 IH2 N1
    |lo mid hi f1 l1 f2 l2 e1 e2 u1 u2 F1 IH1 F2 IH2 N1 N2 Hn Ho
    |lo hi f l e u2 F IH N Ho|lo hi f l e u2 F IH N Ho|lo hi f l e u1 u2 F IH N Ho Hn|lo hi f l e k u2
      F IH N Hk Hr Hl]; intros pc Hpc.
  - replace pc with lo by lia. apply (atom_type classes) in Ha as (? & ? & ? & ? & ?).
    eapply inst_ok_new; [exact Hi|done|intros [?|?]; done|done|done].
  - pose proof (frag_range _ _ _ _ _ _ _ F1). pose proof (frag_range _ _ _ _ _ _ _ F2).
    destruct (Z.lt_ge_cases pc mid).
    + eapply inst_ok_next; [apply IH1; lia|exact N1|lia..|right; by eapply frag_first].
    + eapply inst_ok_wider; [apply IH2; lia|lia..].
  - pose proof (frag_range _ _ _ _ _ _ _ F1). pose proof (frag_range _ _ _ _ _ _ _ F2).
    destruct (Z.lt_ge_cases pc mid); [|destruct (Z.lt_ge_cases pc hi)].
    + eapply inst_ok_next; [apply IH1; lia|exact N1|lia..].
    + eapply inst_ok_next; [apply IH2; lia|exact N2|lia..].
    + destruct (Z.eq_dec pc hi) as [->|]; [new_inst Hn|]. replace pc with (hi + 1) by lia. new_inst Ho.
  - pose proof (frag_range _ _ _ _ _ _ _ F).
    destruct (Z.lt_ge_cases pc hi); [eapply inst_ok_next; [apply IH; lia|exact N|lia..]|].
    replace pc with hi by lia. new_inst Ho.
  - pose proof (frag_range _ _ _ _ _ _ _ F).
    destruct (Z.lt_ge_cases pc hi); [eapply inst_ok_next; [apply IH; lia|exact N|lia..]|].
    replace pc with hi by lia. new_inst Ho.
  - pose proof (frag_range _ _ _ _ _ _ _ F).
    destruct (Z.lt_ge_cases pc hi); [eapply inst_ok_next; [apply IH; lia|exact N|lia..]|].
    destruct (Z.eq_dec pc hi) as [->|]; [new_inst Ho|]. replace pc with (hi + 1) by lia. new_inst Hn.
  - pose proof (frag_range _ _ _ _ _ _ _ F).
    destruct (Z.lt_ge_cases pc hi); [eapply inst_ok_next; [apply IH; lia|exact N|lia..]|].
    destruct (Z.eq_dec pc hi) as [->|]; [new_inst Hr|]. replace pc with (hi + 1) by lia. new_inst Hl.
Qed.

(** ** Successors, again *)

(** Whether an instruction goes on to the next without a character. *)
Definition goes (bol eol : bool) (t : Z) : bool :=
  (t =? LBRA) || (t =? RBRA) || (t =? BOL) && bol || (t =? EOL) && eol || (t =? OR).

Lemma succs_eq bol eol i : succs bol eol i =
  (if ri_type i =? OR then option_list (ri_u1 i) else []) ++
    (if goes bol eol (ri_type i) then option_list (ri_u2 i) else []).
Proof.
  unfold succs, goes. destruct (Z.eqb_spec (ri_type i) LBRA) as [->|]; [done|].
  destruct (Z.eqb_spec (ri_type i) RBRA) as [->|]; [done|].
  destruct (Z.eqb_spec (ri_type i) BOL) as [->|]; [by destruct bol|].
  destruct (Z.eqb_spec (ri_type i) EOL) as [->|]; [by destruct eol|].
  by destruct (ri_type i =? OR).
Qed.

Lemma succs_nop_eq bol eol i : succs_nop bol eol i =
  (if ri_type i =? OR then option_list (ri_u1 i) else []) ++
    (if (ri_type i =? NOP) || goes bol eol (ri_type i) then option_list (ri_u2 i) else []).
Proof. unfold succs_nop. destruct (Z.eqb_spec (ri_type i) NOP) as [->|]; [done|]. apply succs_eq. Qed.

(** ** The end of a chain of no-operations *)

Inductive res : Z -> Z -> Prop :=
| res_here q : not_nop q -> res q q
| res_nop q i q' t : load1 prg q = Some i -> ri_type i = NOP -> ri_u2 i = Some q' -> res q' t ->
  res q t.

Lemma res_not_nop q t : res q t -> not_nop t.
Proof. by induction 1. Qed.

Lemma res_det q t t' : res q t -> res q t' -> t = t'.
Proof.
  intros H. revert t'.
  induction H as [q (i & Hi & Hn)|q i q' t Hi Hn Hq _ IH]; intros t' H';
    inversion H' as [? Hq'|? i' q'' ? Hi' Hn' Hq'' R]; subst.
  - done.
  - rewrite Hi in Hi'. by injection Hi' as <-.
  - destruct Hq' as (i' & Hi' & ?). rewrite Hi in Hi'. by injection Hi' as <-.
  - rewrite Hi in Hi'. injection Hi' as <-. rewrite Hq in Hq''. injection Hq'' as <-. auto.
Qed.

(** The whole program: the code up to [END], which is the last instruction. *)
Record whole (hi : Z) : Prop := mkWhole {
  wh_len : len prg = hi + 1;
  wh_end : exists i, load1 prg hi = Some i /\ ri_type i = END;
  wh_inst : forall pc, 0 <= pc < hi -> inst_ok 0 (hi + 1) hi pc }.

Context (hi : Z) (Hwh : whole hi).

Lemma load1_range {A} (l : list A) x a : load1 l x = Some a -> 0 <= x < len l /\
  l !! Z.to_nat x = Some a.
Proof.
  unfold load1. destruct (Z.leb_spec 0 x); [|done]. intros E. pose proof (lookup_lt_Some _ _ _ E).
  split; [lia|done].
Qed.

Lemma whole_inst pc i : load1 prg pc = Some i -> pc <> hi -> ri_type i <> END /\ bracket_ok i /\
  (ri_type i = OR -> exists q, ri_u1 i = Some q /\ not_nop q) /\
  exists q, ri_u2 i = Some q /\ 0 <= q < hi + 1 /\ (ri_type i = NOP -> pc < q \/ not_nop q).
Proof.
  intros Hi Hne. apply load1_range in Hi as Hr. destruct Hr as [Hr _]. pose proof (wh_len _ Hwh).
  destruct (wh_inst _ Hwh pc ltac:(lia)) as (i' & Hi' & ? & ? & ? & Hn). rewrite Hi in Hi'.
  injection Hi' as <-. split_and!; [done..|]. auto.
Qed.

Lemma end_inst i : load1 prg hi = Some i -> ri_type i = END.
Proof. destruct (wh_end _ Hwh) as (i' & Hi' & ?). rewrite Hi'. by intros [= <-]. Qed.

(** An instruction after the loop of [optimize] has passed it. *)
Definition optimized (i i' : Reinst) : Prop :=
  exists q t, ri_u2 i = Some q /\ res q t /\ i' = i <| ri_u2 := Some t |>.

(** [prg'] is the program whose first [k] instructions the loop has passed. *)
Definition partly (k : Z) (prg' : list Reinst) : Prop :=
  length prg' = length prg /\ (forall pc, k <= pc -> load1 prg' pc = load1 prg pc) /\
  forall pc i, pc < k -> load1 prg pc = Some i -> exists i', load1 prg' pc = Some i' /\ optimized i i'.

Lemma partly_inst k prg' pc i' : partly k prg' -> load1 prg' pc = Some i' -> k <= hi ->
  exists i, load1 prg pc = Some i /\ ri_type i' = ri_type i /\
  (i' = i \/ optimized i i').
Proof.
  intros (Hl & Hge & Hlt) Hi' Hk. destruct (Z.lt_ge_cases pc k) as [Hpc|Hpc].
  - apply load1_range in Hi' as Hr. destruct (lookup_lt_is_Some_2 prg (Z.to_nat pc)) as [i Hi]; [lia|].
    assert (load1 prg pc = Some i) as Hi1 by (unfold load1; by rewrite (proj2 (Z.leb_le 0 pc)) by lia).
    destruct (Hlt pc i Hpc Hi1) as (i1 & E & Ho). rewrite Hi' in E. injection E as <-. exists i.
    split; [done|]. split; [|by right]. by destruct Ho as (q & t & _ & _ & ->).
  - rewrite Hge in Hi' by done. exists i'. auto.
Qed.

Lemma skip_nops_ok k prg' : partly k prg' -> k <= hi -> forall fuel q, 0 <= q < hi + 1 ->
  hi + 1 - q < Z.of_nat fuel ->
  exists t, skip_nops fuel prg' (Some q) = Some t /\ res q t.
Proof.
  intros Hp Hk fuel. induction fuel as [|fuel IH]; intros q Hq Hf; [lia|].
  cbn [skip_nops mbind option_bind].
  pose proof (wh_len _ Hwh). pose proof (proj1 Hp) as Hl.
  destruct (lookup_lt_is_Some_2 prg' (Z.to_nat q)) as [i' Hi']; [lia|].
  assert (load1 prg' q = Some i') as E by (unfold load1; by rewrite (proj2 (Z.leb_le 0 q)) by lia).
  rewrite E. cbn [mbind option_bind].
  destruct (partly_inst _ _ _ _ Hp E Hk) as (i & Hi & Et & Hcase). rewrite Et.
  destruct (Z.eqb_spec (ri_type i) NOP) as [Hn|Hn];
    [|exists q; split; [done|]; constructor; by exists i].
  assert (q <> hi) as Hne by (intros ->; rewrite (end_inst i Hi) in Hn; done).
  destruct (whole_inst q i Hi Hne) as (_ & _ & _ & q' & Hq' & Hr & Hnx). specialize (Hnx Hn).
  assert (forall t, not_nop t -> 0 <= t < hi + 1 -> skip_nops fuel prg' (Some t) = Some t) as Hstop.
  { intros t (it & Hit & Htn) Ht. destruct fuel as [|fuel']; [lia|]. cbn [skip_nops mbind option_bind].
    destruct (lookup_lt_is_Some_2 prg' (Z.to_nat t)) as [j Hj]; [lia|].
    assert (load1 prg' t = Some j) as Ej by (unfold load1; by rewrite (proj2 (Z.leb_le 0 t)) by lia).
    rewrite Ej. cbn [mbind option_bind].
    destruct (partly_inst _ _ _ _ Hp Ej Hk) as (j' & Hj' & Etj & _). rewrite Hit in Hj'.
    injection Hj' as <-. rewrite Etj. by rewrite (proj2 (Z.eqb_neq _ _) Htn). }
  destruct Hcase as [-> |(q1 & t & Hq1 & R & ->)].
  - rewrite Hq'. destruct Hnx as [Hlt|Hnn].
    + destruct (IH q') as (t & Et' & R); [lia|lia|]. exists t. split; [done|]. by eapply res_nop.
    + exists q'. split; [by apply Hstop|]. eapply res_nop; [done..|]. by constructor.
  - rewrite Hq' in Hq1. injection Hq1 as <-. exists t. pose proof (res_not_nop _ _ R) as Hnt.
    split; [|by eapply res_nop]. cbn [ri_u2 upd].
    apply Hstop; [done|]. destruct Hnt as (it & Hit & _). apply load1_range in Hit as [? _]. lia.
Qed.

Lemma optimize_ok n : forall k prg', partly (Z.of_nat k) prg' -> Z.of_nat k <= hi ->
  Z.of_nat n = hi + 1 - Z.of_nat k ->
  exists prg'', optimize n k prg' = Some prg'' /\ partly hi prg''.
Proof.
  induction n as [|n IH]; intros k prg' Hp Hk Hn; [lia|]. cbn [optimize].
  pose proof (wh_len _ Hwh) as Hlen. pose proof Hp as (Hl & Hge & Hlt).
  destruct (lookup_lt_is_Some_2 prg' k) as [i Hi]; [lia|]. rewrite Hi. cbn [mbind option_bind].
  assert (load1 prg (Z.of_nat k) = Some i) as Hi1. { rewrite <- Hge by lia. unfold load1.
  rewrite (proj2 (Z.leb_le 0 _)) by lia. by rewrite Nat2Z.id. }
  destruct (Z.eq_dec (Z.of_nat k) hi) as [Hkh|Hkh].
  - rewrite Hkh in Hi1. rewrite (end_inst i Hi1). cbn. exists prg'. split; [done|]. by rewrite <- Hkh.
  - destruct (whole_inst _ _ Hi1 Hkh) as (He & _ & _ & q & Hq & Hr & _).
    rewrite (proj2 (Z.eqb_neq _ _) He), Hq.
    destruct (skip_nops_ok _ _ Hp Hk (S (length prg')) q Hr ltac:(lia)) as (t & -> & R).
    cbn [mbind option_bind]. apply IH; [|lia..].
    split; [by rewrite length_insert|]. split.
    + intros pc Hpc. unfold load1. destruct (Z.leb_spec 0 pc); [|done].
      rewrite list_lookup_insert_ne by lia.
      specialize (Hge pc ltac:(lia)). unfold load1 in Hge.
      by rewrite (proj2 (Z.leb_le 0 pc)) in Hge by lia.
    + intros pc i0 Hpc Hi0. destruct (Z.eq_dec pc (Z.of_nat k)) as [->|].
      * rewrite Hi1 in Hi0. injection Hi0 as <-. exists (i <| ri_u2 := Some t |>).
        split; [|by exists q, t].
        unfold load1. rewrite (proj2 (Z.leb_le 0 _)), Nat2Z.id by lia. apply list_lookup_insert_eq. lia.
      * destruct (Hlt pc i0 ltac:(lia) Hi0) as (i1 & E & Ho). exists i1. split; [|done].
        apply load1_range in Hi0 as [? _].
        unfold load1 in *. rewrite (proj2 (Z.leb_le 0 pc)) in * by lia.
        by rewrite list_lookup_insert_ne by lia.
Qed.

(** ** The program matches what the code matches *)

Section text.
Context (j : Reljunk) (text : bytes) (start : Z) (prg' : list Reinst) (Hopt : partly hi prg')
  (Hstart : not_nop start).
Context (Hpos : forall s, boundary j text s -> exists r n b, rune_at text s = Ran (r, n) /\
  at_bol text s = Ran b).
Context (Hreach : forall x pc s, reach (mkReprog start classes prg') j text x pc s ->
  boundary j text s).

Abbreviation P := (mkReprog start classes prg').

Lemma opt_inst pc i' : inst_at P pc = Some i' -> exists i, load1 prg pc = Some i /\
  ri_type i' = ri_type i /\ ri_u1 i' = ri_u1 i /\ (i' = i /\ pc = hi \/ optimized i i').
Proof.
  intros Hi'. unfold inst_at in Hi'. cbn in Hi'.
  destruct (partly_inst hi prg' pc i' Hopt Hi' ltac:(lia)) as (i & Hi & Et & Hcase). exists i.
  split_and!; [done..| |].
  - destruct Hcase as [-> |(q & t & _ & _ & ->)]; done.
  - destruct Hcase as [-> |Ho]; [|by right]. destruct (Z.eq_dec pc hi) as [->|Hne]; [by left|]. right.
    apply load1_range in Hi as Hr. pose proof (wh_len _ Hwh). destruct Hopt as (_ & _ & Hlt).
    destruct (Hlt pc i ltac:(lia) Hi) as (i1 & E & Ho). rewrite Hi' in E. by injection E as <-.
Qed.

Lemma inst_opt pc i : load1 prg pc = Some i -> pc <> hi -> exists i', inst_at P pc = Some i' /\
  ri_type i' = ri_type i /\ ri_u1 i' = ri_u1 i /\ optimized i i'.
Proof.
  intros Hi Hne. apply load1_range in Hi as Hr. pose proof (wh_len _ Hwh).
  destruct Hopt as (_ & _ & Hlt).
  destruct (Hlt pc i ltac:(lia) Hi) as (i' & E & Ho). exists i'.
  split_and!; [done|by destruct Ho as (q & t & _ & _ & ->)..|done].
Qed.

Lemma nop_steps q t s : boundary j text s -> res q t -> rtc (step j text prg classes) (q, s) (t, s).
Proof.
  intros Hs. induction 1 as [|q i q' t Hi Hn Hq _ IH]; [done|]. eapply rtc_l; [|exact IH].
  eapply eps_step; [done..|].
  intros. unfold succs_nop. rewrite Hn, Hq. by left.
Qed.

(** A step of the program is one of the code and then no-operations. *)
Lemma reach_steps x pc s : reach P j text x pc s -> rtc (step j text prg classes) (start, x) (pc, s).
Proof.
  intros R.
  induction R as [|pc s i' r n b q R IH Hi' Er Eb Hq|pc s i' r n q R IH Hi' Hl Ht Hq]; [done|..];
    (etransitivity; [exact IH|]); destruct (opt_inst _ _ Hi') as (i & Hi & Et & Eu & Hcase).
  - rewrite succs_eq, Et, Eu in Hq. apply elem_of_app in Hq as [Hq|Hq].
    + apply rtc_once. eapply step_eps; [done..|]. rewrite succs_nop_eq.
      destruct (_ =? OR); [|set_solver]. apply elem_of_app. by left.
    + destruct Hcase as [[-> _]|(q0 & t & Hq0 & Rt & ->)].
      * apply rtc_once. eapply step_eps; [done..|]. rewrite succs_nop_eq. apply elem_of_app. right.
        by destruct (goes _ _ _); destruct (_ =? NOP); cbn; set_solver.
      * cbn [ri_u2 upd] in Hq. destruct (goes _ _ _) eqn:Eg; [|set_solver].
        apply list_elem_of_singleton in Hq as ->.
        eapply rtc_l; [eapply (step_eps _ _ _ _ _ _ _ _ _ _ q0); [done..|]|by apply nop_steps;
          [eapply Hreach|]].
        rewrite succs_nop_eq, Hq0, Eg. apply elem_of_app. right. rewrite orb_true_r. by left.
  - assert (takes classes i r = true) as Ht0
      by (unfold takes in *; cbn [rp_class] in *; by rewrite Et, Eu in Ht).
    destruct Hcase as [[-> ->]|(q0 & t & Hq0 & Rt & ->)];
      [apply end_inst in Hi; unfold takes in Ht; by rewrite Hi in Ht|].
    cbn [ri_u2 upd] in Hq. injection Hq as <-. eapply rtc_l; [by eapply step_take|].
    apply nop_steps; [|done]. eapply boundary_next; [by eapply Hreach|done].
Qed.

(** A path of the code is one of the program, up to the no-operations at its end. *)
Lemma steps_reach x pc s : boundary j text x -> rtc (step j text prg classes) (start, x) (pc, s) ->
  exists t, res pc t /\ reach P j text x t s.
Proof.
  intros Hx.
  apply (rtc_ind_r (fun b => exists t, res (fst b) t /\ reach P j text x t (snd b)) (start, x)).
  - exists start. split; by constructor.
  - intros [pc0 s0] [pc1 s1] _ Hst (t & Rt & Rr). cbn [fst snd] in *.
    inversion Hst as [? ? i r n b q Hi Er Eb Hq|? ? i r n q Hi Hl Htk Hq]; subst;
      [rewrite succs_nop_eq in Hq|];
      (inversion Rt as [? (i1 & Hi1 & Hnn)|? i1 q1 ? Hi1 Hn1 Hq1 Rt']; subst; rewrite Hi in Hi1;
        injection Hi1 as <-).
    + assert (t <> hi) as Hne. { intros ->. apply end_inst in Hi. rewrite Hi in Hq. cbn in Hq.
      by apply elem_of_nil in Hq. }
      destruct (inst_opt _ _ Hi Hne) as (i' & Hi' & Et & Eu & (q0 & t' & Hq0 & R' & ->)).
      rewrite (proj2 (Z.eqb_neq _ _) Hnn), orb_false_l in Hq.
      apply elem_of_app in Hq as [Hq|Hq].
      * destruct (Z.eqb_spec (ri_type i) OR) as [Ho|]; [|set_solver].
        destruct (whole_inst _ _ Hi Hne) as (_ & _ & Hor & _). destruct (Hor Ho) as (q' & Eq' & Hnq).
        rewrite Eq' in Hq. apply list_elem_of_singleton in Hq as ->. exists q'.
        split; [by constructor|]. eapply reach_eps; [done..|]. rewrite succs_eq, Et, Eu, Ho, Eq'.
        by left.
      * destruct (goes _ _ _) eqn:Eg; [|set_solver]. rewrite Hq0 in Hq.
        apply list_elem_of_singleton in Hq as ->. exists t'. split; [done|].
        eapply reach_eps; [done..|]. rewrite succs_eq, Et, Eg. apply elem_of_app. right. by left.
    + rewrite Hn1, Hq1 in Hq. cbn in Hq. apply list_elem_of_singleton in Hq as ->. by exists t.
    + assert (t <> hi) as Hne. { intros ->. apply end_inst in Hi. unfold takes in Htk.
      by rewrite Hi in Htk. }
      destruct (inst_opt _ _ Hi Hne) as (i' & Hi' & Et & Eu & (q0 & t' & Hq0 & R' & ->)).
      rewrite Hq in Hq0. injection Hq0 as <-.
      exists t'. split; [done|]. eapply reach_take; [done..| |done]. exact Htk.
    + unfold takes in Htk. by rewrite Hn1 in Htk.
Qed.
End text.
End code.

(** ** The program for an expression *)

Lemma frag_whole prg classes hi f l e i : frag prg classes 0 hi f l e -> next prg l hi ->
  len prg = hi + 1 -> load1 prg hi = Some i -> ri_type i = END -> whole prg hi.
Proof.
  intros F N Hl Hi He. pose proof (frag_range _ _ _ _ _ _ _ F). constructor; [done|by exists i|].
  intros pc Hpc.
  eapply inst_ok_next; [by eapply frag_inst|exact N|lia..|]. right. exists i. split; [done|].
  by rewrite He.
Qed.

Lemma end_stays j text prg classes hi i s q : load1 prg hi = Some i -> ri_type i = END ->
  ~ step j text prg classes (hi, s) q.
Proof.
  intros Hi He Hs.
  destruct (step_inv _ _ _ _ _ _ _ _ Hs Hi)
    as [(r & n & b & x & _ & _ & Hx & _)|(r & n & x & _ & Ht & _)].
  - unfold succs_nop, succs in Hx. rewrite He in Hx. by apply elem_of_nil in Hx.
  - unfold takes in Ht. by rewrite He in Ht.
Qed.

Section text.
Context (j : Reljunk) (text post t0 : bytes) (Hpost : is_bytes post)
  (Hstart : at_string text post (starts j) t0).

Lemma positions s : boundary j text s -> exists r n b, rune_at text s = Ran (r, n) /\
  at_bol text s = Ran b.
Proof.
  intros (t & Ht)%(boundary_string _ _ _ Hpost _ Hstart).
  destruct (rune_at_ok _ _ Hpost s t Ht) as (r & n & Er & _).
  destruct (at_bol_ok _ _ s t Ht (at_string_length _ _ _ _ Ht)) as (b & Eb). by exists r, n, b.
Qed.

Lemma code_accepts prg classes hi f l e i prg' x k :
  frag prg classes 0 hi f l e -> next prg l hi -> len prg = hi + 1 -> load1 prg hi = Some i ->
    ri_type i = END -> partly prg hi prg' ->
  accept (mkReprog f classes prg') j text x k <-> boundary j text x /\ matches j text e x k.
Proof.
  intros F N Hl Hi He Hp. pose proof (frag_whole _ _ _ _ _ _ _ F N Hl Hi He) as Hw.
  pose proof (frag_first _ _ _ _ _ _ _ F) as Hf.
  pose proof (frag_range _ _ _ _ _ _ _ F) as Hfr.
  pose proof (reach_boundary (mkReprog f classes prg') j text post Hpost t0 Hstart) as Hrb. split.
  - intros (q & i' & R & Hi' & He'). split; [by apply Hrb in R as (? & _)|].
    destruct (opt_inst _ classes hi Hw f prg' Hp q i' Hi') as (i0 & Hi0 & Et & _). rewrite He' in Et.
    assert (q = hi) as ->. { destruct (Z.eq_dec q hi); [done|].
    destruct (whole_inst _ _ Hw q i0 Hi0 ltac:(done)) as (Hne & _). congruence. }
    apply (reach_steps _ _ _ Hw j text f prg' Hp Hf positions) in R;
      [|intros ? ? ? H; by apply Hrb in H as (_ & ? & _)].
    apply rtc_nsteps in R as (n & R).
    destruct (frag_sound _ _ _ _ _ _ _ _ _ F hi N hi k ltac:(unfold inside; lia) n x R)
      as (s1 & m & _ & M & R').
    inversion R' as [|? ? ? ? Hst]; subst; [done|]. exfalso. by eapply end_stays.
  - intros [Hx M]. pose proof (frag_complete _ _ _ _ positions _ _ _ _ _ F hi N x k Hx M) as R.
    destruct (steps_reach _ _ _ Hw j text f prg' Hp Hf positions
      (fun _ _ _ H => proj1 (proj2 (Hrb _ _ _ H))) x hi k Hx R) as (t & Rt & Rr).
    assert (t = hi) as ->. { inversion Rt as [|? i1 ? ? Hi1 Hn1]; subst; [done|]. rewrite Hi in Hi1.
    injection Hi1 as <-. by rewrite He in Hn1. }
    exists hi, i. split_and!; [done| |done]. destruct Hp as (_ & Hge & _). unfold inst_at.
    cbn [firstinst]. rewrite Hge; [done|lia].
Qed.
End text.

(** ** Code stays code *)

(** [prg'] has the instructions of [prg] from [lo] to [hi], but for where [l] goes on. *)
Definition same_code (prg prg' : list Reinst) (lo hi l : Z) : Prop :=
  forall pc i, lo <= pc < hi -> load1 prg pc = Some i -> exists i', load1 prg' pc = Some i' /\
    ri_type i' = ri_type i /\ ri_u1 i' = ri_u1 i /\ (pc <> l -> ri_u2 i' = ri_u2 i).

Lemma same_code_inst prg prg' lo hi l pc i : same_code prg prg' lo hi l -> lo <= pc < hi -> pc <> l ->
  load1 prg pc = Some i -> load1 prg' pc = Some i.
Proof.
  intros H Hpc Hne Hi. destruct (H pc i Hpc Hi) as ([t1 a1 b1] & -> & Et & Eu & Hn).
  specialize (Hn Hne). destruct i as [t a b]. cbn in *. by subst.
Qed.

Lemma same_code_next prg prg' lo hi l pc x : same_code prg prg' lo hi l -> lo <= pc < hi -> pc <> l ->
  next prg pc x -> next prg' pc x.
Proof. intros H Hpc Hne (i & Hi & Hx). exists i. split; [by eapply same_code_inst|done]. Qed.

Lemma same_code_last prg prg' lo hi l t u v : same_code prg prg' lo hi l -> lo <= l < hi ->
  load1 prg l = Some (mkReinst t u v) -> exists v', load1 prg' l = Some (mkReinst t u v').
Proof.
  intros H Hl Hi. destruct (H l _ Hl Hi) as ([t1 a1 b1] & -> & Et & Eu & _). cbn in *. subst.
  by eexists.
Qed.

Lemma same_code_part prg prg' lo hi l lo' hi' l' : same_code prg prg' lo hi l -> lo <= lo' ->
  hi' <= hi -> (lo' <= l < hi' -> l = l') -> same_code prg prg' lo' hi' l'.
Proof.
  intros H Hlo Hhi Hl pc i Hpc Hi. destruct (H pc i ltac:(lia) Hi) as (i' & ? & ? & ? & Hn). exists i'.
  split_and!; [done..|].
  intros Hne. apply Hn. intros ->. apply Hne, Hl. lia.
Qed.

Lemma frag_same prg prg' classes lo hi f l e : frag prg classes lo hi f l e ->
  same_code prg prg' lo hi l -> frag prg' classes lo hi f l e.
Proof.
  induction 1 as [lo i e Hi Ha|lo mid hi f1 l1 f2 l2 e1 e2 F1 IH1 F2 IH2 N1
    |lo mid hi f1 l1 f2 l2 e1 e2 u1 u2 F1 IH1 F2 IH2 N1 N2 Hn Ho
    |lo hi f l e u2 F IH N Ho|lo hi f l e u2 F IH N Ho|lo hi f l e u1 u2 F IH N Ho Hn|lo hi f l e k u2
      F IH N Hk Hr Hl]; intros H;
    try pose proof (frag_range _ _ _ _ _ _ _ F1); try pose proof (frag_range _ _ _ _ _ _ _ F2);
      try pose proof (frag_range _ _ _ _ _ _ _ F).
  - destruct (H lo i ltac:(lia) Hi) as (i' & Hi' & Et & Eu & _). eapply f_atom; [done|].
    unfold atom_inst in *. by rewrite Et, Eu.
  - eapply f_cat; [apply IH1; eapply same_code_part; [exact H|lia..]|apply IH2; eapply same_code_part;
      [exact H|lia..]|eapply same_code_next; [exact H|lia|lia|done]].
  - destruct (same_code_last _ _ _ _ _ _ _ _ H ltac:(lia) Hn) as (v' & Hn').
    eapply f_alt; [apply IH1; eapply same_code_part; [exact H|lia..]|apply IH2; eapply same_code_part;
      [exact H|lia..]|eapply same_code_next; [exact H|lia|lia|done]..|done|].
    eapply same_code_inst; [exact H|lia|lia|done].
  - destruct (same_code_last _ _ _ _ _ _ _ _ H ltac:(lia) Ho) as (v' & Ho').
    eapply f_star; [apply IH; eapply same_code_part; [exact H|lia..]|eapply same_code_next;
      [exact H|lia|lia|done]|done].
  - destruct (same_code_last _ _ _ _ _ _ _ _ H ltac:(lia) Ho) as (v' & Ho').
    eapply f_plus; [apply IH; eapply same_code_part; [exact H|lia..]|eapply same_code_next;
      [exact H|lia|lia|done]|done].
  - destruct (same_code_last _ _ _ _ _ _ _ _ H ltac:(lia) Hn) as (v' & Hn').
    eapply f_opt; [apply IH; eapply same_code_part; [exact H|lia..]|eapply same_code_next;
      [exact H|lia|lia|done]|eapply same_code_inst; [exact H|lia|lia|done]|done].
  - destruct (same_code_last _ _ _ _ _ _ _ _ H ltac:(lia) Hr) as (v' & Hr').
    eapply f_group; [apply IH; eapply same_code_part; [exact H|lia..]|eapply same_code_next;
      [exact H|lia|lia|done]|done|done|eapply same_code_inst; [exact H|lia|lia|done]].
Qed.
