(* ===== verification/RegcompParse.v ===== *)
(** * The parser by priorities

    What the stacks of [regcomp.c] hold while the tokens of an expression come in: operands are
    pieces of code one after the other, and the operators that wait are evaluated, when the next
    one comes, to the code for the expression. *)

From S2P Require Import Prelude Fcall Utf UtfString Regexec RegexecRun RegexecProps Regcomp.
From S2P Require Import RegexLang RegexCode.
From stdpp Require Import strings.
#[local] Open Scope Z_scope.
#[local] Set Primitive Projections.

(** ** States *)

(** Everything but the stacks and the code. *)
Record ctx := mkCtx {
  k_sub : Z; k_and : bool; k_bra : Z; k_expr : bytes; k_done : bool; k_classes : list Reclass;
    k_rune : Z; k_class : Z }.

Definition st_of (A : list Node) (O : list (Z * Z)) (P : list Reinst) (R : Z) (k : ctx) : rcomp :=
  mkComp A O (k_sub k) (k_and k) (k_bra k) (k_expr k) (k_done k) (k_classes k) P R (k_rune k)
    (k_class k).

Lemma rcm_bind_Rc {A B} (m : rcm A) (f : A -> rcm B) st a st' : m st = Rc a st' ->
  (m ≫= f) st = f a st'.
Proof. intros E. unfold mbind, rcm_bind. by rewrite E. Qed.

(** Runs one call of a monadic function. *)
Ltac rc E := erewrite rcm_bind_Rc; [|exact E].
Ltac rcl E := erewrite rcm_bind_Rc; [|apply E; lia].

Definition patch (P : list Reinst) (i v : Z) : list Reinst :=
  match load1 P i with Some x => <[Z.to_nat i := x <| ri_u2 := Some v |>]> P | None => P end.

Lemma load1_patch P i v x : load1 (patch P i v) x =
  if x =? i then (fun y => y <| ri_u2 := Some v |>) <$> load1 P x else load1 P x.
Proof.
  unfold patch.
  destruct (load1 P i) as [y|] eqn:E; [|destruct (Z.eqb_spec x i) as [->|]; [by rewrite E|done]].
  apply load1_range in E as [Hr E]. unfold load1. destruct (Z.leb_spec 0 x); [|by destruct (x =? i)].
  destruct (Z.eqb_spec x i) as [->|].
  - rewrite E. cbn. apply list_lookup_insert_eq. lia.
  - apply list_lookup_insert_ne. lia.
Qed.

Lemma length_patch P i v : length (patch P i v) = length P.
Proof. unfold patch. destruct (load1 P i); [apply length_insert|done]. Qed.

Lemma load1_lt {A} (P : list A) x : 0 <= x < len P -> exists a, load1 P x = Some a.
Proof.
  intros. unfold load1. rewrite (proj2 (Z.leb_le 0 x)) by lia.
  destruct (lookup_lt_is_Some_2 P (Z.to_nat x)) as [a ->]; [lia|]. eauto.
Qed.

Lemma load1_app_l {A} (P Q : list A) x : x < len P -> load1 (P ++ Q) x = load1 P x.
Proof. intros. unfold load1. destruct (Z.leb_spec 0 x); [|done]. apply lookup_app_l. lia. Qed.

Lemma load1_app_r {A} (P Q : list A) x : len P <= x -> load1 (P ++ Q) x = load1 Q (x - len P).
Proof.
  intros. unfold load1. rewrite !(proj2 (Z.leb_le 0 _)) by lia. rewrite lookup_app_r by lia. f_equal.
  lia.
Qed.

Lemma load1_new {A} (P : list A) a : load1 (P ++ [a]) (len P) = Some a.
Proof. rewrite load1_app_r by lia. by rewrite Z.sub_diag. Qed.

Section state.
Context (A : list Node) (O : list (Z * Z)) (R : Z) (k : ctx).

Lemma newinst_run P t : len P < R ->
  newinst t (st_of A O P R k) = Rc (len P) (st_of A O (P ++ [mkReinst t None None]) R k).
Proof. intros H. unfold newinst, mbind, rcm_bind, static. cbn. by rewrite (proj2 (Z.ltb_lt _ _)). Qed.

Lemma set_u2_run P i v : 0 <= i < len P ->
  set_u2 i v (st_of A O P R k) = Rc tt (st_of A O (patch P i v) R k).
Proof.
  intros H. unfold set_u2, patch, mbind, rcm_bind, static. cbn.
  by destruct (load1_lt P i H) as (x & ->).
Qed.

Lemma insert_at (P Q : list Reinst) x y : <[Z.to_nat (len P) := y]> (P ++ x :: Q) = P ++ y :: Q.
Proof. rewrite Nat2Z.id, insert_app_r_alt, Nat.sub_diag by lia. done. Qed.

Lemma set_u1_new P Q i v n : n = len P ->
  set_u1 n v (st_of A O (P ++ i :: Q) R k) = Rc tt (st_of A O (P ++ i <| ri_u1 := Some v |> :: Q) R k).
Proof.
  intros ->. unfold set_u1, mbind, rcm_bind, static. cbn [co_insts st_of].
  rewrite load1_app_r, Z.sub_diag by lia. change (load1 (i :: Q) 0) with (Some i). unfold assign.
  by rewrite insert_at.
Qed.

Lemma set_u2_new P Q i v n : n = len P ->
  set_u2 n v (st_of A O (P ++ i :: Q) R k) = Rc tt (st_of A O (P ++ i <| ri_u2 := Some v |> :: Q) R k).
Proof.
  intros ->. unfold set_u2, mbind, rcm_bind, static. cbn [co_insts st_of].
  rewrite load1_app_r, Z.sub_diag by lia. change (load1 (i :: Q) 0) with (Some i). unfold assign.
  by rewrite insert_at.
Qed.

Lemma pushand_run P f l : len A < NSTACK ->
  pushand f l (st_of A O P R k) = Rc tt (st_of (mkNode f l :: A) O P R k).
Proof. intros H. unfold pushand, mbind, rcm_bind, static. cbn. by rewrite (proj2 (Z.leb_gt _ _)). Qed.

Lemma popand_run P n op : popand op (st_of (n :: A) O P R k) = Rc n (st_of A O P R k).
Proof. done. Qed.

Lemma pushator_run P t : len O < NSTACK ->
  pushator t (st_of A O P R k) = Rc tt (st_of A ((t, k_sub k) :: O) P R k).
Proof. intros H. unfold pushator, mbind, rcm_bind, static. cbn. by rewrite (proj2 (Z.leb_gt _ _)). Qed.
End state.

(** ** Evaluating an operator *)

(** The instructions before [lo] are the same. *)
Definition extends (P P' : list Reinst) (lo : Z) : Prop := forall x, x < lo -> load1 P' x = load1 P x.

Lemma extends_same P P' lo l hi l' : extends P P' lo -> hi <= lo -> same_code P P' l hi l'.
Proof. intros H Hle pc i Hpc Hi. exists i. rewrite H by lia. done. Qed.

Lemma extends_trans P P' P'' lo lo' : extends P P' lo -> extends P' P'' lo' -> lo <= lo' ->
  extends P P'' lo.
Proof. intros H H' Hle x Hx. rewrite H' by lia. by apply H. Qed.

Lemma same_code_intro P P' lo hi l :
  (forall pc, lo <= pc < hi -> pc <> l -> load1 P' pc = load1 P pc) ->
  (lo <= l < hi -> exists v, load1 P' l = (fun i => i <| ri_u2 := v |>) <$> load1 P l) ->
    same_code P P' lo hi l.
Proof.
  intros H Hl pc i Hpc Hi. destruct (Z.eq_dec pc l) as [->|Hne].
  - destruct (Hl Hpc) as (v & ->). rewrite Hi. eexists. split; [done|]. done.
  - exists i. rewrite (H pc Hpc Hne). done.
Qed.

Lemma next_patch P i v : 0 <= i < len P -> next (patch P i v) i v.
Proof.
  intros H. destruct (load1_lt P i H) as (x & Hx). exists (x <| ri_u2 := Some v |>).
  by rewrite load1_patch, Z.eqb_refl, Hx.
Qed.

(** Reads an instruction of code that was patched and extended. *)
Ltac lens := rewrite ?length_patch, ?length_app, ?length_patch; cbn [length]; rewrite ?length_patch;
  lia.
Ltac loads := repeat first
  [rewrite load1_patch | rewrite load1_app_l by lens | rewrite (proj2 (Z.eqb_neq _ _)) by lens
    | rewrite Z.eqb_refl].

Section eval.
Context (CS : list Reclass) (A : list Node) (O : list (Z * Z)) (R : Z).

(** The operator [op] with the operands [n2] over [n1], or [n2] alone, makes code for [e]. *)
Definition evaluates (op v : Z) (ands : list Node) (P : list Reinst) (lo : Z) (e : re) : Prop :=
  exists P' f l, (forall k, evaluate op v (st_of (ands ++ A) O P R k) =
    Rc (op =? LBRA) (st_of (mkNode f l :: A) O P' R k)) /\
    frag P' CS lo (len P') f l e /\ extends P P' lo /\ len P <= len P' <= len P + 2.

Lemma eval_cat P v lo mid f1 l1 f2 l2 e1 e2 : frag P CS lo mid f1 l1 e1 ->
  frag P CS mid (len P) f2 l2 e2 -> len A < NSTACK -> 0 <= lo ->
  evaluates CAT v [mkNode f2 l2; mkNode f1 l1] P lo (Cat e1 e2).
Proof.
  intros F1 F2 HA Hlo. pose proof (frag_range _ _ _ _ _ _ _ F1).
  pose proof (frag_range _ _ _ _ _ _ _ F2).
  exists (patch P l1 f2), f1, l2. split; [|split; [|split; [|rewrite length_patch; lia]]].
  - intros k. unfold evaluate. cbn [Z.eqb CAT LBRA OR Pos.eqb app].
    rc (popand_run (mkNode f1 l1 :: A) O R k P (mkNode f2 l2) 0).
    rc (popand_run A O R k P (mkNode f1 l1) 0).
    cbn [first last]. rc (set_u2_run A O R k P l1 f2 ltac:(lia)).
    by rc (pushand_run A O R k (patch P l1 f2) f1 l2 HA).
  - rewrite length_patch.
    eapply f_cat; [eapply frag_same; [exact F1|]|eapply frag_same; [exact F2|]|apply next_patch; lia].
    + apply same_code_intro; [intros; by loads|]. intros _. exists (Some f2). by loads.
    + apply same_code_intro; [intros; by loads|]. intros _.
      destruct (load1_lt P l2 ltac:(lia)) as (x & Hx). exists (ri_u2 x). loads. by rewrite Hx.
  - intros x Hx. by loads.
Qed.

Lemma eval_alt P v lo mid f1 l1 f2 l2 e1 e2 : frag P CS lo mid f1 l1 e1 ->
  frag P CS mid (len P) f2 l2 e2 -> len A < NSTACK -> 0 <= lo -> len P + 2 <= R ->
  evaluates OR v [mkNode f2 l2; mkNode f1 l1] P lo (Alt e1 e2).
Proof.
  intros F1 F2 HA Hlo HR. pose proof (frag_range _ _ _ _ _ _ _ F1).
  pose proof (frag_range _ _ _ _ _ _ _ F2).
  set (P1 := P ++ [mkReinst NOP None None]). set (P2 := patch P1 l2 (len P)).
  set (P3 := patch P2 l1 (len P)).
  assert (len P3 = len P + 1) as E3 by (unfold P3, P2, P1; lens).
  assert (len P1 = len P + 1) as E1 by (unfold P1; lens).
  assert (len P2 = len P + 1) as E2 by (unfold P2; rewrite length_patch; lia).
  exists (P3 ++ [mkReinst OR (Some f1) (Some f2)]), (len P + 1), (len P).
  split; [|split; [|split; [|rewrite length_app; cbn [length]; lia]]].
  - intros k. unfold evaluate. cbn [Z.eqb OR LBRA Pos.eqb app].
    rc (popand_run (mkNode f1 l1 :: A) O R k P (mkNode f2 l2) 124).
    rc (popand_run A O R k P (mkNode f1 l1) 124).
    cbn [first last]. rc (newinst_run A O R k P NOP ltac:(lia)).
    rc (set_u2_run A O R k P1 l2 (len P) ltac:(lia)). rc (set_u2_run A O R k P2 l1 (len P) ltac:(lia)).
    rc (newinst_run A O R k P3 OR ltac:(lia)).
    rcl (set_u1_new A O R k P3 [] (mkReinst OR None None) f1).
    rcl (set_u2_new A O R k P3 [] (mkReinst OR (Some f1) None) f2).
    rc (pushand_run A O R k (P3 ++ [mkReinst OR (Some f1) (Some f2)]) (len P3) (len P) HA).
    by rewrite E3.
  - replace (len (P3 ++ _)) with (len P + 2) by (rewrite length_app; cbn [length]; lia).
    eapply (f_alt _ _ _ mid (len P) f1 l1 f2 l2 _ _ None None);
      [eapply frag_same; [exact F1|]|eapply frag_same; [exact F2|]|..].
    + apply same_code_intro; [intros; unfold P3, P2, P1; by loads|]. intros _. exists (Some (len P)).
      unfold P3, P2, P1. by loads.
    + apply same_code_intro; [intros; unfold P3, P2, P1; by loads|]. intros _. exists (Some (len P)).
      unfold P3, P2, P1. by loads.
    + destruct (load1_lt P l1 ltac:(lia)) as (x & Hx). exists (x <| ri_u2 := Some (len P) |>).
      unfold P3, P2, P1. loads. by rewrite Hx.
    + destruct (load1_lt P l2 ltac:(lia)) as (x & Hx). exists (x <| ri_u2 := Some (len P) |>).
      unfold P3, P2, P1. loads. by rewrite Hx.
    + rewrite load1_app_l by lia. unfold P3, P2. loads. apply load1_new.
    + rewrite <- E3. apply load1_new.
  - intros x Hx. unfold P3, P2, P1. by loads.
Qed.

(** The code of one operand that goes on to a new instruction. *)
Lemma patched P lo f l e Q v : frag P CS lo (len P) f l e -> 0 <= lo ->
  frag (patch P l v ++ Q) CS lo (len P) f l e /\ next (patch P l v ++ Q) l v /\
    extends P (patch P l v ++ Q) lo.
Proof.
  intros F Hlo. pose proof (frag_range _ _ _ _ _ _ _ F). split_and!.
  - eapply frag_same; [exact F|]. apply same_code_intro; [intros; by loads|]. intros _.
    exists (Some v). by loads.
  - destruct (load1_lt P l ltac:(lia)) as (x & Hx). exists (x <| ri_u2 := Some v |>). loads.
    by rewrite Hx.
  - intros x Hx. by loads.
Qed.

Lemma patch_app P Q l v : l < len P -> patch (P ++ Q) l v = patch P l v ++ Q.
Proof.
  intros Hl. unfold patch. rewrite load1_app_l by done. destruct (load1 P l) as [x|] eqn:E; [|done].
  apply load1_range in E as [? _]. rewrite insert_app_l by lia. done.
Qed.

Lemma eval_star P v lo f l e : frag P CS lo (len P) f l e -> len A < NSTACK -> 0 <= lo ->
  len P + 2 <= R -> evaluates STAR v [mkNode f l] P lo (Star e).
Proof.
  intros F HA Hlo HR. pose proof (frag_range _ _ _ _ _ _ _ F).
  destruct (patched P lo f l e [mkReinst OR (Some f) None] (len P) F Hlo) as (F' & N' & E').
  assert (len (patch P l (len P)) = len P) as El by lens.
  exists (patch P l (len P) ++ [mkReinst OR (Some f) None]), (len P), (len P).
  split; [|split; [|split; [done|rewrite length_app; cbn [length]; lia]]].
  - intros k. unfold evaluate. cbn [Z.eqb STAR CAT OR LBRA Pos.eqb app].
    rc (popand_run A O R k P (mkNode f l) 42). cbn [first last].
    rc (newinst_run A O R k P OR ltac:(lia)).
    rc (set_u2_run A O R k (P ++ [mkReinst OR None None]) l (len P) ltac:(lens)).
    rewrite patch_app by lia.
    rcl (set_u1_new A O R k (patch P l (len P)) [] (mkReinst OR None None) f).
    by rc (pushand_run A O R k (patch P l (len P) ++ [mkReinst OR (Some f) None]) (len P) (len P) HA).
  - replace (len (_ ++ _)) with (len P + 1) by (rewrite length_app; cbn [length]; lia).
    eapply f_star; [exact F'|exact N'|]. rewrite load1_app_r, El, Z.sub_diag by lia. done.
Qed.

Lemma eval_plus P v lo f l e : frag P CS lo (len P) f l e -> len A < NSTACK -> 0 <= lo ->
  len P + 2 <= R -> evaluates PLUS v [mkNode f l] P lo (Plus e).
Proof.
  intros F HA Hlo HR. pose proof (frag_range _ _ _ _ _ _ _ F).
  destruct (patched P lo f l e [mkReinst OR (Some f) None] (len P) F Hlo) as (F' & N' & E').
  assert (len (patch P l (len P)) = len P) as El by lens.
  exists (patch P l (len P) ++ [mkReinst OR (Some f) None]), f, (len P).
  split; [|split; [|split; [done|rewrite length_app; cbn [length]; lia]]].
  - intros k. unfold evaluate. cbn [Z.eqb STAR PLUS CAT OR LBRA Pos.eqb app].
    rc (popand_run A O R k P (mkNode f l) 43). cbn [first last].
    rc (newinst_run A O R k P OR ltac:(lia)).
    rc (set_u2_run A O R k (P ++ [mkReinst OR None None]) l (len P) ltac:(lens)).
    rewrite patch_app by lia.
    rcl (set_u1_new A O R k (patch P l (len P)) [] (mkReinst OR None None) f).
    by rc (pushand_run A O R k (patch P l (len P) ++ [mkReinst OR (Some f) None]) f (len P) HA).
  - replace (len (_ ++ _)) with (len P + 1) by (rewrite length_app; cbn [length]; lia).
    eapply f_plus; [exact F'|exact N'|]. rewrite load1_app_r, El, Z.sub_diag by lia. done.
Qed.

Lemma eval_group P v lo f l e : frag P CS lo (len P) f l e -> len A < NSTACK -> 0 <= lo ->
  len P + 2 <= R -> 0 < v < NSUBEXP -> evaluates LBRA v [mkNode f l] P lo (Group e).
Proof.
  intros F HA Hlo HR Hv. pose proof (frag_range _ _ _ _ _ _ _ F).
  set (Q := [mkReinst RBRA (Some v) None; mkReinst LBRA (Some v) (Some f)]).
  destruct (patched P lo f l e Q (len P) F Hlo) as (F' & N' & E').
  set (P1 := patch P l (len P) ++ [mkReinst RBRA (Some v) None]).
  assert (len (patch P l (len P)) = len P) as El by lens.
  assert (len P1 = len P + 1) as E1 by (unfold P1; lens).
  assert (patch P l (len P) ++ Q = P1 ++ [mkReinst LBRA (Some v) (Some f)]) as EQ
    by (unfold P1, Q; by rewrite <- app_assoc).
  exists (patch P l (len P) ++ Q), (len P + 1), (len P).
  split; [|split; [|split; [done|unfold Q; rewrite length_app; cbn [length]; lia]]].
  - intros k. unfold evaluate. cbn [Z.eqb LBRA Pos.eqb app].
    rc (popand_run A O R k P (mkNode f l) 40). cbn [first last].
    rc (newinst_run A O R k P RBRA ltac:(lia)).
    rcl (set_u1_new A O R k P [] (mkReinst RBRA None None) v).
    rc (set_u2_run A O R k (P ++ [mkReinst RBRA (Some v) None]) l (len P) ltac:(lens)).
    rewrite patch_app by lia. fold P1. rc (newinst_run A O R k P1 LBRA ltac:(lia)).
    rcl (set_u1_new A O R k P1 [] (mkReinst LBRA None None) v).
    rcl (set_u2_new A O R k P1 [] (mkReinst LBRA (Some v) None) f).
    rc (pushand_run A O R k (P1 ++ [mkReinst LBRA (Some v) (Some f)]) (len P1) (len P) HA).
    by rewrite EQ, E1.
  - replace (len (_ ++ _)) with (len P + 2) by (unfold Q; rewrite length_app; cbn [length]; lia).
    eapply f_group; [exact F'|exact N'|exact Hv| |].
    + rewrite EQ, load1_app_l by lia. unfold P1. rewrite load1_app_r, El, Z.sub_diag by lia. done.
    + rewrite EQ, <- E1. apply load1_new.
Qed.

Lemma eval_opt P v lo f l e : frag P CS lo (len P) f l e -> len A < NSTACK -> 0 <= lo ->
  len P + 2 <= R -> evaluates QUEST v [mkNode f l] P lo (Opt e).
Proof.
  intros F HA Hlo HR. pose proof (frag_range _ _ _ _ _ _ _ F).
  set (Q := [mkReinst OR (Some f) (Some (len P + 1)); mkReinst NOP None None]).
  destruct (patched P lo f l e Q (len P + 1) F Hlo) as (F' & N' & E').
  assert (len (patch P l (len P + 1)) = len P) as El by lens.
  exists (patch P l (len P + 1) ++ Q), (len P), (len P + 1).
  split; [|split; [|split; [done|unfold Q; rewrite length_app; cbn [length]; lia]]].
  - intros k. unfold evaluate. cbn [Z.eqb QUEST PLUS STAR CAT OR LBRA Pos.eqb app].
    rc (popand_run A O R k P (mkNode f l) 63). cbn [first last].
    rc (newinst_run A O R k P OR ltac:(lia)). set (P1 := P ++ [mkReinst OR None None]).
    assert (len P1 = len P + 1) as E1 by (unfold P1; lens).
    rc (newinst_run A O R k P1 NOP ltac:(lia)). rewrite E1.
    unfold P1. rewrite <- app_assoc. cbn [app].
    rcl (set_u2_new A O R k P [mkReinst NOP None None] (mkReinst OR None None) (len P + 1)).
    rcl (set_u1_new A O R k P [mkReinst NOP None None] (mkReinst OR None (Some (len P + 1))) f).
    rc (set_u2_run A O R k (P ++ Q) l (len P + 1) ltac:(lens)). rewrite patch_app by lia.
    by rc (pushand_run A O R k (patch P l (len P + 1) ++ Q) (len P) (len P + 1) HA).
  - replace (len (_ ++ _)) with (len P + 2) by (unfold Q; rewrite length_app; cbn [length]; lia).
    eapply f_opt; [exact F'|exact N'|..].
    + rewrite load1_app_r by lia. by replace (len P - len (patch P l (len P + 1))) with 0 by lia.
    + rewrite load1_app_r by lia. by replace (len P + 1 - len (patch P l (len P + 1))) with 1 by lia.
Qed.
End eval.

(** ** Tokens and the grammar *)

Inductive tok := TAtom (e : re) | TPost (op : Z) | TOr | TLbra | TRbra.

(** The expressions that are one token. *)
Definition is_atom (e : re) : bool :=
  match e with Chr _ | Dot _ | Class _ _ | Bol | Eol => true | _ => false end.

Definition postfix (op : Z) (e : re) : option re :=
  if op =? STAR then Some (Star e) else if op =? PLUS then Some (Plus e) else if op =? QUEST then Some
    (Opt e) else None.

(** [ts] is an expression whose operators outside of brackets have priority [l] or more; of
    operators after an operand, one that binds tighter comes first. *)
Inductive parse : Z -> list tok -> re -> Prop :=
| p_atom l e : is_atom e = true -> parse l [TAtom e] e
| p_group l ts e : parse OR ts e -> parse l (TLbra :: ts ++ [TRbra]) (Group e)
| p_post l op ts e e' : parse op ts e -> l <= op -> postfix op e = Some e' ->
  parse l (ts ++ [TPost op]) e'
| p_cat l ts1 ts2 e1 e2 : parse CAT ts1 e1 -> parse STAR ts2 e2 -> l <= CAT ->
  parse l (ts1 ++ ts2) (Cat e1 e2)
| p_alt l ts1 ts2 e1 e2 : parse OR ts1 e1 -> parse CAT ts2 e2 -> l <= OR ->
  parse l (ts1 ++ TOr :: ts2) (Alt e1 e2).

(** How high the stacks get, how many brackets there are and how much code. *)
Fixpoint ands (e : re) : Z :=
  match e with
  | Cat e1 e2 | Alt e1 e2 => Z.max (ands e1) (1 + ands e2)
  | Star e | Plus e | Opt e | Group e => ands e
  | _ => 1
  end.
Fixpoint ators (e : re) : Z :=
  match e with
  | Cat e1 e2 | Alt e1 e2 => Z.max (ators e1) (1 + ators e2)
  | Star e | Plus e | Opt e => Z.max (ators e) 1
  | Group e => 1 + ators e
  | _ => 0
  end.
Fixpoint groups (e : re) : Z :=
  match e with Cat e1 e2 | Alt e1 e2 => groups e1 + groups e2 | Star e | Plus e | Opt e => groups e |
    Group e => 1 + groups e | _ => 0 end.
Fixpoint size (e : re) : Z :=
  match e with Cat e1 e2 | Alt e1 e2 => size e1 + size e2 + 2 | Star e | Plus e | Opt e | Group e =>
    size e + 2 | _ => 1 end.

Lemma measures e : 1 <= ands e /\ 0 <= ators e /\ 0 <= groups e /\ 1 <= size e.
Proof. induction e; cbn; lia. Qed.

(** ** Lexemes *)

(** A token with the variables that the lexical analysis has set. *)
Record lexeme := mkLex { lx_code : Z; lx_rune : Z; lx_class : Z; lx_expr : bytes; lx_done : bool;
  lx_classes : list Reclass }.

Definition set_lex (x : lexeme) (st : rcomp) : rcomp :=
  st <| exprp := lx_expr x |> <| lexdone := lx_done x |> <| co_classes := lx_classes x |> <| yyrune :=
    lx_rune x |> <| yyclassp := lx_class x |>.

Definition k_lex (x : lexeme) (k : ctx) : ctx :=
  mkCtx (k_sub k) (k_and k) (k_bra k) (lx_expr x) (lx_done x) (lx_classes x) (lx_rune x) (lx_class x).

Definition act (t : Z) : rcm unit := if (t .& 0xC0) =? OPERATOR then operator t else operand t.

(** The loop of [regcomp1], on lexemes. *)
Fixpoint run (xs : list lexeme) : rcm unit :=
  match xs with [] => mret tt | x :: xs => assign (set_lex x);; act (lx_code x);; run xs end.

Section parse.
Context (CS : list Reclass).

Definition atom_code (e : re) : Z :=
  match e with
  | Chr _ => RUNE
  | Dot nl => if nl then ANYNL else ANY
  | Class neg _ => if neg then NCCLASS else CCLASS
  | Bol => BOL
  | _ => EOL
  end.

(** The lexeme is the token; [CS] are the classes of the whole program. *)
Definition lexeme_ok (x : lexeme) (t : tok) : Prop :=
  match t with
  | TAtom e => lx_code x = atom_code e /\
      match e with
      | Chr c => lx_rune x = c
      | Class neg spans => exists c, load1 CS (lx_class x) = Some c /\
        forall r, in_class c r = (neg && (r =? 10)) || in_class spans r
      | _ => True
      end
  | TPost op => lx_code x = op
  | TOr => lx_code x = OR
  | TLbra => lx_code x = LBRA
  | TRbra => lx_code x = RBRA
  end.

Definition top_lt (O : list (Z * Z)) (l : Z) : Prop :=
  match O with (op, _) :: _ => op < l | [] => False end.

Lemma evaluntil_stays A O P R k pri : top_lt O pri -> pri <> RBRA ->
  evaluntil pri (st_of A O P R k) = Rc tt (st_of A O P R k).
Proof.
  intros Ht Hne. unfold evaluntil, mbind, rcm_bind, static. cbn [co_ators st_of].
  destruct O as [|[op v] O]; [done|]. cbn in Ht. cbn [evaluntil_loop].
  rewrite (proj2 (Z.eqb_neq _ _) Hne), (proj2 (Z.leb_gt _ _)) by done. done.
Qed.

Lemma evaluntil_evaluates A O P R k pri op v B lo e P' f l : pri <= op ->
  evaluate op v (st_of (B ++ A) O P R k) = Rc (op =? LBRA) (st_of (mkNode f l :: A) O P' R k) ->
    op <> LBRA ->
  frag P' CS lo (len P') f l e ->
  evaluntil pri (st_of (B ++ A) ((op, v) :: O) P R k) =
    evaluntil pri (st_of (mkNode f l :: A) O P' R k).
Proof.
  intros Hpri E Hne F. unfold evaluntil, mbind, rcm_bind, static. cbn [co_ators st_of evaluntil_loop].
  rewrite (proj2 (Z.leb_le _ _) Hpri), orb_true_r. unfold mbind, rcm_bind, assign.
  change ((st_of (B ++ A) ((op, v) :: O) P R k) <| co_ators := O |>) with (st_of (B ++ A) O P R k).
  rewrite E.
  by rewrite (proj2 (Z.eqb_neq _ _) Hne).
Qed.

(** What there is after the tokens of [e]: when the operators of priority [pri] or more are
    evaluated, the code for [e] is the operand on top. *)
Definition parsed (l : Z) (xs : list lexeme) (A : list Node) (O : list (Z * Z)) (P : list Reinst)
  (R : Z) (k : ctx) (e : re) : Prop :=
  exists A1 O1 P1 k1 P2 f lst, run xs (st_of A O P R k) = Rc tt (st_of A1 O1 P1 R k1) /\
    k_and k1 = true /\ k_sub k1 = k_sub k + groups e /\ k_bra k1 = k_bra k /\
    (forall k' pri, pri <= l -> evaluntil pri (st_of A1 O1 P1 R k') =
      evaluntil pri (st_of (mkNode f lst :: A) O P2 R k')) /\
    frag P2 CS (len P) (len P2) f lst e /\ extends P P2 (len P) /\ len P2 <= len P + size e.

(** There is room for the expression. *)
Definition ready (l : Z) (A : list Node) (O : list (Z * Z)) (P : list Reinst) (R : Z) (k : ctx)
  (e : re) : Prop :=
  k_and k = false /\ top_lt O l /\ len A + ands e <= NSTACK /\ len O + ators e <= NSTACK /\
  0 <= k_sub k /\ k_sub k + groups e < NSUBEXP /\ 0 <= k_bra k /\ len P + size e <= R.

Lemma run_cons x xs A O P R k : run (x :: xs) (st_of A O P R k) =
  (act (lx_code x);; run xs) (st_of A O P R (k_lex x k)).
Proof. done. Qed.

Lemma run_app xs ys st st' : run xs st = Rc tt st' -> run (xs ++ ys) st = run ys st'.
Proof.
  revert st. induction xs as [|x xs IH]; intros st E; cbn [app run] in *; [by injection E as ->|].
  unfold mbind, rcm_bind in *. destruct (assign (set_lex x) st) as [[] st1|s|]; [|done..].
  destruct (act (lx_code x) st1) as [[] st2|s|]; [|done..]. by apply IH.
Qed.

Lemma atom_parsed l x e A O P R k : is_atom e = true -> lexeme_ok x (TAtom e) -> ready l A O P R k e ->
  parsed l [x] A O P R k e.
Proof.
  intros Ha [Hc Hx] (Hk & _ & HA & _ & _ & _ & _ & HR). pose proof (measures e) as (? & _ & _ & ?).
  assert (exists i, operand (lx_code x) (st_of A O P R (k_lex x k)) =
    Rc tt (st_of (mkNode (len P) (len P) :: A) O (P ++ [i]) R ((k_lex x k) <| k_and := true |>)) /\
      atom_inst CS i e) as (i & E & Hi).
  { assert (len A < NSTACK) as HA' by lia.
    assert (len P < R) as HP by (destruct e; cbn in *; lia || done).
    assert (static lastwasand (st_of A O P R (k_lex x k)) = Rc false (st_of A O P R (k_lex x k))) as Es
      by (unfold static; cbn; by rewrite Hk).
    unfold operand. rc Es. cbn match. erewrite rcm_bind_Rc by done.
    rc (newinst_run A O R (k_lex x k) P (lx_code x) HP).
    pose proof (pushand_run A O R (k_lex x k)) as Hp.
    pose proof (set_u1_new A O R (k_lex x k) P []) as Hs.
    destruct e as [c|nl|neg spans| | | | | | | |]; try done; rewrite Hc; cbn [atom_code].
    - erewrite rcm_bind_Rc by done. cbn [Z.eqb RUNE Pos.eqb].
      erewrite (rcm_bind_Rc _ (fun _ => _)); [|erewrite rcm_bind_Rc by done; by apply Hs].
      erewrite rcm_bind_Rc by (by apply Hp). eexists. split; [done|]. split; [done|]. cbn.
      by rewrite Hx.
    - destruct nl; do 2 (erewrite rcm_bind_Rc by done); erewrite rcm_bind_Rc by (by apply Hp); eexists;
        (split; [done|done]).
    - destruct Hx as (c & Ec & Hcl).
      destruct neg; (erewrite rcm_bind_Rc; [|cbn; erewrite rcm_bind_Rc by done; by apply Hs]);
        erewrite rcm_bind_Rc by done; erewrite rcm_bind_Rc by (by apply Hp); eexists; (split; [done|]);
          (split; [done|]); exists (lx_class x), c; split_and!;
            [done|done|exact Hcl|done|done|exact Hcl].
    - do 2 (erewrite rcm_bind_Rc by done). erewrite rcm_bind_Rc by (by apply Hp). eexists.
      split; [done|done].
    - do 2 (erewrite rcm_bind_Rc by done). erewrite rcm_bind_Rc by (by apply Hp). eexists.
      split; [done|done]. }
  assert ((lx_code x .& 0xC0) =? OPERATOR = false) as Hop
    by (rewrite Hc; destruct e as [|[]|[] ?| | | | | | | |]; done).
  exists (mkNode (len P) (len P) :: A), O, (P ++ [i]), ((k_lex x k) <| k_and := true |>), (P ++ [i]),
    (len P), (len P).
  assert (len (P ++ [i]) = len P + 1) as El by lens. split_and!; [|done| |done|done| | |].
  - rewrite run_cons. unfold act. rewrite Hop. by rc E.
  - cbn. destruct e; cbn in *; lia || done.
  - rewrite El. eapply f_atom; [apply load1_new|done].
  - intros y Hy. by apply load1_app_l.
  - rewrite El. lia.
Qed.

(** An operator other than a bracket, when the operators before it are evaluated. *)
Lemma operator_run t A O P R k A1 O1 P1 : t <> RBRA -> t <> LBRA -> len O < NSTACK ->
  evaluntil t (st_of A1 O1 P1 R k) = Rc tt (st_of A O P R k) ->
  operator t (st_of A1 O1 P1 R k) =
    Rc tt (st_of A ((t, k_sub k) :: O) P R
      (k <| k_and := (t =? STAR) || (t =? QUEST) || (t =? PLUS) |>)).
Proof.
  intros Hr Hl HO E. apply Z.eqb_neq in Hr, Hl. unfold operator. rewrite Hr, Hl.
  erewrite rcm_bind_Rc by done. unfold operator_eval. rc E. rewrite Hr.
  rc (pushator_run A O R k P t HO). unfold assign. by rewrite orb_false_r.
Qed.

Lemma act_operator t : (t .& 0xC0) =? OPERATOR = true -> act t = operator t.
Proof. unfold act. by intros ->. Qed.

Lemma post_op op e e' : postfix op e = Some e' -> (op = STAR /\ e' = Star e) \/
  (op = PLUS /\ e' = Plus e) \/ (op = QUEST /\ e' = Opt e).
Proof.
  unfold postfix. destruct (Z.eqb_spec op STAR) as [->|]; [intros [= <-]; auto|].
  destruct (Z.eqb_spec op PLUS) as [->|]; [intros [= <-]; auto|].
  destruct (Z.eqb_spec op QUEST) as [->|]; [intros [= <-]; auto|done].
Qed.

Lemma post_parsed l op xs x A O P R k e e' : parsed op xs A O P R k e -> lx_code x = op ->
  postfix op e = Some e' -> l <= op -> ready l A O P R k e' ->
  parsed l (xs ++ [x]) A O P R k e'.
Proof.
  intros (A1 & O1 & P1 & k1 & P2 & f & lst & E & Hk1 & Hs1 & Hb1 & Hev & F & Hex & Hlen) Hx He Hl
    (Hk & Ht & HA & HO & Hsub & Hg & Hbra & HR).
  apply post_op in He as He'.
  assert (op <> RBRA /\ op <> LBRA /\ (op .& 0xC0) =? OPERATOR = true /\
    (op =? STAR) || (op =? QUEST) || (op =? PLUS) = true) as (Hr & Hlb & Hop & Hand)
    by (destruct He' as [[-> _]|[[-> _]|[-> _]]]; done).
  assert (groups e' = groups e /\ size e' = size e + 2 /\ 1 <= ators e' /\ ands e' = ands e)
    as (Eg & Esz & Eat & Ean) by (destruct He' as [[_ ->]|[[_ ->]|[_ ->]]]; cbn; lia).
  pose proof (measures e) as (? & _).
  assert (top_lt O op) as Ht' by (destruct O as [|[o v] O]; [done|cbn in *; lia]).
  assert (evaluates CS A O R op (k_sub k1) [mkNode f lst] P2 (len P) e')
    as (P3 & f3 & l3 & Ee & F3 & Hex3 & Hlen3).
  { destruct He' as [[-> ->]|[[-> ->]|[-> ->]]]; [apply eval_star|apply eval_plus|apply eval_opt];
      done || lia.
    }
  eexists _, _, _, _, P3, f3, l3. split_and!.
  - rewrite (run_app _ _ _ _ E). rewrite run_cons, Hx, act_operator by done.
    erewrite rcm_bind_Rc; [done|].
    apply (operator_run op (mkNode f lst :: A) O P2 R (k_lex x k1) A1 O1 P1); [done|done|lia|].
    rewrite Hev by lia. by apply evaluntil_stays.
  - done.
  - cbn. rewrite Eg. done.
  - done.
  - intros k' pri Hpri. change (k_sub (k_lex x k1)) with (k_sub k1).
    apply (evaluntil_evaluates A O P2 R k' pri op (k_sub k1) [mkNode f lst] (len P) e');
      [lia|apply Ee|done|done].
  - done.
  - by eapply extends_trans; [exact Hex|exact Hex3|lia].
  - lia.
Qed.

Lemma group_parsed l x xs y A O P R k e :
  (forall O k, ready OR A O P R k e -> parsed OR xs A O P R k e) -> lx_code x = LBRA ->
    lx_code y = RBRA -> ready l A O P R k (Group e) -> parsed l (x :: xs ++ [y]) A O P R k (Group e).
Proof.
  intros IH Hx Hy (Hk & Ht & HA & HO & Hsub & Hg & Hbra & HR). cbn [ands ators groups size] in *.
  pose proof (measures e) as (? & ? & ? & ?).
  set (k0 := (k_lex x k) <| k_sub := k_sub k + 1 |> <| k_bra := k_bra k + 1 |>).
  assert (operator LBRA (st_of A O P R (k_lex x k)) =
    Rc tt (st_of A ((LBRA, k_sub k + 1) :: O) P R k0)) as Elb.
  { unfold operator. cbn [Z.eqb LBRA RBRA Pos.eqb]. do 3 (erewrite rcm_bind_Rc by done).
    cbn [cursubid st_of k_lex k_sub]. rewrite (proj2 (Z.leb_gt _ _)) by lia.
    do 2 (erewrite rcm_bind_Rc by done). erewrite rcm_bind_Rc; [|cbn [lastwasand st_of upd]; done]. cbn.
    rewrite Hk. cbn. erewrite rcm_bind_Rc by done.
    erewrite rcm_bind_Rc; [|apply (pushator_run A O R k0 P LBRA); lia]. unfold assign, k0. cbn.
    unfold st_of. cbn. by rewrite Hk. }
  destruct (IH ((LBRA, k_sub k + 1) :: O) k0)
    as (A1 & O1 & P1 & k1 & P2 & f & lst & E & Hk1 & Hs1 & Hb1 & Hev & F & Hex & Hlen).
  { unfold ready, k0. cbn [k_and k_sub k_bra k_lex upd length]. split_and!; try done; try lia. }
  assert (evaluates CS A O R LBRA (k_sub k + 1) [mkNode f lst] P2 (len P) (Group e))
    as (P3 & f3 & l3 & Ee & F3 & Hex3 & Hlen3) by (apply eval_group; done || lia).
  exists (mkNode f3 l3 :: A), O, P3,
    ((k_lex y k1) <| k_bra := k_bra k1 - 1 |> <| k_and := true |>), P3, f3, l3.
  split_and!; [|done|..].
  - rewrite run_cons, Hx, act_operator by done. rc Elb.
    rewrite (run_app _ _ _ _ E), run_cons, Hy, act_operator by done.
    erewrite rcm_bind_Rc; [done|]. unfold operator. cbn [Z.eqb LBRA RBRA Pos.eqb].
    set (k2 := (k_lex y k1) <| k_bra := k_bra k1 - 1 |>).
    assert (evaluntil RBRA (st_of A1 O1 P1 R k2) = Rc tt (st_of (mkNode f3 l3 :: A) O P3 R k2)) as Er.
    { rewrite Hev by done. unfold evaluntil. erewrite rcm_bind_Rc by done.
      cbn [co_ators st_of evaluntil_loop]. cbn [Z.eqb RBRA Pos.eqb orb].
      erewrite rcm_bind_Rc by done. erewrite rcm_bind_Rc; [|apply (Ee k2)]. done. }
    erewrite (rcm_bind_Rc _ _ _ tt (st_of A1 O1 P1 R k2)).
    + unfold operator_eval. rc Er. erewrite rcm_bind_Rc by done. done.
    + do 2 (erewrite rcm_bind_Rc by done). cbn [nbra st_of k_bra k_lex].
      rewrite (proj2 (Z.ltb_ge _ _)); [done|]. rewrite Hb1. unfold k0. cbn. lia.
  - cbn [k_sub k_lex upd groups]. rewrite Hs1. unfold k0. cbn [k_sub k_lex upd]. lia.
  - cbn [k_bra k_lex upd]. rewrite Hb1. unfold k0. cbn [k_bra k_lex upd]. lia.
  - done.
  - done.
  - by eapply extends_trans; [exact Hex|exact Hex3|lia].
  - cbn [size]. lia.
Qed.

Lemma top_lt_le O l l' : top_lt O l -> l <= l' -> top_lt O l'.
Proof. destruct O as [|[op v] O]; [done|]. cbn. lia. Qed.

Lemma binary_ready l l' A O P R k e1 e2 e : ready l A O P R k e -> e = Cat e1 e2 \/ e = Alt e1 e2 ->
  l <= l' -> ready l' A O P R k e1.
Proof.
  intros (Hk & Ht & HA & HO & Hsub & Hg & Hbra & HR) He Hl. pose proof (measures e2).
  destruct He as [-> | ->]; cbn [ands ators groups size] in *;
    (split_and!; [done|by eapply top_lt_le|lia..]).
Qed.

(** After the first operand and its operator there is room for the second one. *)
Lemma second_ready op v l l' A O P R k e1 e2 e n P2 k2 : ready l A O P R k e -> e = Cat e1 e2 \/
  e = Alt e1 e2 -> op < l' -> len P2 <= len P + size e1 ->
  k_and k2 = false -> k_sub k2 = k_sub k + groups e1 -> k_bra k2 = k_bra k ->
  ready l' (n :: A) ((op, v) :: O) P2 R k2 e2.
Proof.
  intros (Hk & Ht & HA & HO & Hsub & Hg & Hbra & HR) He Hop HP Hk2 Hs2 Hb2. pose proof (measures e1).
  unfold ready. rewrite Hs2, Hb2.
  destruct He as [-> | ->]; cbn [ands ators groups size length top_lt] in *; (split_and!; [done|lia..]).
Qed.

(** The two operands are parsed, with the operator between them on the stack. *)
Lemma binary_parsed op v l l' A O P R k e1 e2 e xs ys f1 l1 P2 k2 : 
  op = CAT /\ e = Cat e1 e2 /\ l' = STAR \/ op = OR /\ e = Alt e1 e2 /\ l' = CAT -> l <= op ->
    ready l A O P R k e ->
  frag P2 CS (len P) (len P2) f1 l1 e1 -> extends P P2 (len P) -> len P2 <= len P + size e1 ->
  k_sub k2 = k_sub k + groups e1 -> k_bra k2 = k_bra k ->
  run xs (st_of A O P R k) = run ys (st_of (mkNode f1 l1 :: A) ((op, v) :: O) P2 R k2) ->
  parsed l' ys (mkNode f1 l1 :: A) ((op, v) :: O) P2 R k2 e2 -> parsed l xs A O P R k e.
Proof.
  intros Hop Hl (Hk & Ht & HA & HO & Hsub & Hg & Hbra & HR) F1 Hx1 Hl1 Hs2 Hb2 Erun
    (A1 & O1 & P1 & k1 & P4 & f2 & l2 & E & Hk1 & Hs1 & Hb1 & Hev & F2 & Hx2 & Hl2).
  pose proof (measures e1) as (? & _). pose proof (measures e2) as (? & _).
  pose proof (frag_range _ _ _ _ _ _ _ F1). pose proof (frag_range _ _ _ _ _ _ _ F2).
  assert (frag P4 CS (len P) (len P2) f1 l1 e1) as F1'
    by (eapply frag_same; [exact F1|]; eapply extends_same; [exact Hx2|lia]).
  assert (groups e = groups e1 + groups e2 /\ size e = size e1 + size e2 + 2 /\ len A < NSTACK /\
    op <> LBRA /\ op <= l') as (Eg & Es & HA' & Hne & Hle)
    by (destruct Hop as [(-> & -> & ->)|(-> & -> & ->)]; cbn [groups size ands] in *; split_and!;
      try done; lia).
  assert (evaluates CS A O R op v [mkNode f2 l2; mkNode f1 l1] P4 (len P) e)
    as (P5 & f & lst & Ee & F & Hx & Hlen).
  { destruct Hop as [(-> & -> & _)|(-> & -> & _)];
      [eapply (eval_cat CS A O R P4 v (len P) (len P2));
        [exact F1'|exact F2|lia..]|eapply (eval_alt CS A O R P4 v (len P) (len P2));
          [exact F1'|exact F2|lia..]].
    }
  exists A1, O1, P1, k1, P5, f, lst. split_and!; [by rewrite Erun|done|lia|lia| |done| |lia].
  - intros k' pri Hpri. rewrite Hev by lia.
    apply (evaluntil_evaluates A O P4 R k' pri op v [mkNode f2 l2; mkNode f1 l1] (len P) e);
      [lia|apply Ee|done|done].
  - intros y Hy. rewrite Hx, Hx2 by lia. apply Hx1. lia.
Qed.

Lemma alt_parsed l xs x ys A O P R k e1 e2 : l <= OR -> lx_code x = OR ->
  ready l A O P R k (Alt e1 e2) ->
  parsed OR xs A O P R k e1 -> (forall A O P k, ready CAT A O P R k e2 -> parsed CAT ys A O P R k e2) ->
    parsed l (xs ++ x :: ys) A O P R k (Alt e1 e2).
Proof.
  intros Hl Hx Hr (A1 & O1 & P1 & k1 & P2 & f1 & l1 & E & Hk1 & Hs1 & Hb1 & Hev & F1 & Hx1 & Hl1) IH.
  pose proof Hr as (_ & Ht & _ & HO & _). pose proof (measures e2).
  cbn [ators] in HO.
  eapply (binary_parsed OR (k_sub k1) l CAT A O P R k e1 e2 _ _ ys f1 l1 P2
    ((k_lex x k1) <| k_and := false |>)); try done; [by right| |].
  - rewrite (run_app _ _ _ _ E), run_cons, Hx, act_operator by done. erewrite rcm_bind_Rc; [done|].
    apply (operator_run OR (mkNode f1 l1 :: A) O P2 R (k_lex x k1) A1 O1 P1); [done|done|lia|].
    rewrite Hev by done. apply evaluntil_stays; [by eapply top_lt_le|done].
  - apply IH. eapply second_ready; [exact Hr|by right|done..].
Qed.

Lemma rcm_bind_eq {X Y} (m m' : rcm X) (f : X -> rcm Y) st st' : m st = m' st' ->
  (m ≫= f) st = (m' ≫= f) st'.
Proof. intros E. unfold mbind, rcm_bind. by rewrite E. Qed.

Lemma lbra_run A O P R k n b : k_sub k = n -> k_and k = b -> operator LBRA (st_of A O P R k) =
  if NSUBEXP <=? n + 1 then Rcerror "too many subexpressions"
  else ((if b then operator CAT else mret tt);;
    (pushator LBRA;; assign (fun st => st <| lastwasand := false |>)))
    (st_of A O P R (k <| k_sub := n + 1 |> <| k_bra := k_bra k + 1 |>)).
Proof.
  intros <- <-. unfold operator. cbn [Z.eqb LBRA RBRA Pos.eqb CAT].
  unfold mbind, rcm_bind, static, assign, mret, rcm_ret. cbn [cursubid st_of].
  destruct (NSUBEXP <=? k_sub k + 1); [done|]. cbn. by destruct (k_and k).
Qed.

(** The first token of an expression after another one brings the operator in between. *)
Lemma cat_first x xs A O P R k1 A1 O1 P1 :
  (forall k', evaluntil CAT (st_of A1 O1 P1 R k') = Rc tt (st_of A O P R k')) -> k_and k1 = true ->
    len O < NSTACK ->
  (lx_code x .& 0xC0) =? OPERATOR = false \/ lx_code x = LBRA ->
  exists v, run (x :: xs) (st_of A1 O1 P1 R k1) =
    run (x :: xs) (st_of A ((CAT, v) :: O) P R (k1 <| k_and := false |>)).
Proof.
  intros Hev Hk HO Hx. destruct Hx as [Hx|Hx].
  - exists (k_sub k1). rewrite !run_cons. apply rcm_bind_eq. unfold act. rewrite Hx. unfold operand.
    assert (static lastwasand (st_of A1 O1 P1 R (k_lex x k1)) =
      Rc true (st_of A1 O1 P1 R (k_lex x k1))) as Es by (unfold static; cbn; by rewrite Hk).
    rc Es. cbn match.
    rc (operator_run CAT A O P R (k_lex x k1) A1 O1 P1 ltac:(done) ltac:(done) HO (Hev _)). done.
  - exists (k_sub k1 + 1). rewrite !run_cons. apply rcm_bind_eq. rewrite Hx, act_operator by done.
    rewrite (lbra_run _ _ _ _ (k_lex x k1) (k_sub k1) true) by done.
    rewrite (lbra_run _ _ _ _ (k_lex x _) (k_sub k1) false) by done.
    destruct (NSUBEXP <=? k_sub k1 + 1); [done|].
    set (k0 := (k_lex x k1) <| k_sub := k_sub k1 + 1 |> <| k_bra := k_bra k1 + 1 |>).
    erewrite rcm_bind_Rc; [|apply (operator_run CAT A O P R k0 A1 O1 P1); [done|done|done|apply Hev]].
    done.
Qed.
Lemma cat_parsed l xs y ys A O P R k e1 e2 : l <= CAT -> (lx_code y .& 0xC0) =? OPERATOR = false \/
  lx_code y = LBRA -> ready l A O P R k (Cat e1 e2) ->
  parsed CAT xs A O P R k e1 -> (forall A O P k, ready STAR A O P R k e2 ->
    parsed STAR (y :: ys) A O P R k e2) -> parsed l (xs ++ y :: ys) A O P R k (Cat e1 e2).
Proof.
  intros Hl Hy Hr (A1 & O1 & P1 & k1 & P2 & f1 & l1 & E & Hk1 & Hs1 & Hb1 & Hev & F1 & Hx1 & Hl1) IH.
  pose proof Hr as (_ & Ht & _ & HO & _). pose proof (measures e2).
  cbn [ators] in HO.
  destruct (cat_first y ys (mkNode f1 l1 :: A) O P2 R k1 A1 O1 P1) as (v & Er); [|done|lia|done|].
  { intros k'. rewrite Hev by done. apply evaluntil_stays; [by eapply top_lt_le|done]. }
  eapply (binary_parsed CAT v l STAR A O P R k e1 e2 _ _ (y :: ys) f1 l1 P2 (k1 <| k_and := false |>));
    try done; [by left| |].
  - by rewrite (run_app _ _ _ _ E).
  - apply IH. eapply second_ready; [exact Hr|by left|done..].
Qed.

(** What an expression can begin with. *)
Lemma parse_first l ts e : parse l ts e -> exists t ts', ts = t :: ts' /\ forall x, lexeme_ok x t ->
  (lx_code x .& 0xC0) =? OPERATOR = false \/ lx_code x = LBRA.
Proof.
  induction 1 as [l e Ha|l ts e _ _|l op ts e e' _ (t & ts' & -> & IH)
    |l ts1 ts2 e1 e2 _ (t & ts' & -> & IH)|l ts1 ts2 e1 e2 _ (t & ts' & -> & IH)].
  - eexists _, _. split; [done|]. intros x [-> _]. left. by destruct e as [|[]|[] ?| | | | | | | |].
  - eexists _, _. split; [done|]. intros x Hx. by right.
  - by eexists _, _.
  - by eexists _, _.
  - by eexists _, _.
Qed.

(** The tokens of an expression leave the code for it. *)
Lemma parse_ok R l ts e : parse l ts e -> forall xs, Forall2 lexeme_ok xs ts ->
  forall A O P k, ready l A O P R k e -> parsed l xs A O P R k e.
Proof.
  induction 1 as [l e Ha|l ts e _ IH|l op ts e e' _ IH Hl Hp|l ts1 ts2 e1 e2 H1 IH1 H2 IH2 Hl
    |l ts1 ts2 e1 e2 H1 IH1 H2 IH2 Hl]; intros xs Hxs A O P k Hr.
  - apply Forall2_cons_inv_r in Hxs as (x & xs' & Hx & ->%Forall2_nil_inv_r & ->). by apply atom_parsed.
  - apply Forall2_cons_inv_r in Hxs as (x & xs' & Hx & Hxs & ->).
    apply Forall2_app_inv_r in Hxs as (xs1 & ys & Hxs1 & Hy & ->).
    apply Forall2_cons_inv_r in Hy as (y & ys' & Hy & ->%Forall2_nil_inv_r & ->).
    apply group_parsed; try done. intros O' k' Hr'. by apply IH.
  - apply Forall2_app_inv_r in Hxs as (xs1 & ys & Hxs1 & Hy & ->).
    apply Forall2_cons_inv_r in Hy as (y & ys' & Hy & ->%Forall2_nil_inv_r & ->).
    apply (post_parsed l op _ _ _ _ _ _ _ e); try done. apply IH; [done|].
    destruct Hr as (Hk & Ht & HA & HO & Hsub & Hg & Hbra & HR).
    apply post_op in Hp. unfold ready.
    destruct Hp as [[-> ->]|[[-> ->]|[-> ->]]]; cbn [ands ators groups size] in *;
      (split_and!; [done|by eapply top_lt_le|lia..]).
  - apply Forall2_app_inv_r in Hxs as (xs1 & ys & Hxs1 & Hys & ->).
    destruct (parse_first _ _ _ H2) as (t & ts' & -> & Hf).
    apply Forall2_cons_inv_r in Hys as (y & ys' & Hy & Hys & ->).
    apply cat_parsed; [done|by apply Hf|done| |].
    + apply IH1; [done|]. eapply binary_ready; [exact Hr|by left|done].
    + intros. apply IH2; [by constructor|done].
  - apply Forall2_app_inv_r in Hxs as (xs1 & ys & Hxs1 & Hys & ->).
    apply Forall2_cons_inv_r in Hys as (y & ys' & Hy & Hys & ->). apply alt_parsed; [done|done|done| |].
    + apply IH1; [done|]. eapply binary_ready; [exact Hr|by right|done].
    + intros. by apply IH2.
Qed.
End parse.
