(* ===== verification/RegcompLex.v ===== *)
(** * The lexical analysis of regular expressions

    A class of characters holds the characters of its ranges, sorted and merged; and the loop of
    [regcomp1] gives the parser the tokens of the string. *)

From S2P Require Import Prelude Fcall Utf UtfString Regexec RegexecRun RegexecProps Regcomp.
From S2P Require Import RegexLang RegexCode RegcompParse.
From stdpp Require Import strings sorting.
#[local] Open Scope Z_scope.
#[local] Set Primitive Projections.

(** ** Classes *)

Lemma sort_turn_perm l : forall p, fst (sort_turn p l) :: snd (sort_turn p l) ≡ₚ p :: l.
Proof.
  induction l as [|q l IH]; intros p; [done|]. cbn [sort_turn].
  destruct (fst q <? fst p); cbn [fst snd].
  - rewrite Permutation_swap, (IH q). done.
  - rewrite Permutation_swap, (IH p). apply Permutation_swap.
Qed.

Lemma sort_turn_least l : forall p, Forall (fun q => fst (fst (sort_turn p l)) <= fst q) (p :: l).
Proof.
  induction l as [|q l IH]; intros p; [by repeat constructor|]. cbn [sort_turn].
  destruct (Z.ltb_spec (fst q) (fst p)); cbn [fst snd].
  - pose proof (IH q) as [H1 H2]%Forall_cons. repeat constructor; [lia|done|done].
  - pose proof (IH p) as [H1 H2]%Forall_cons. repeat constructor; [done|lia|done].
Qed.

Lemma sort_spans_perm n : forall l, sort_spans n l ≡ₚ l.
Proof.
  induction n as [|n IH]; intros [|p l]; [done..|]. cbn [sort_spans]. rewrite IH. apply sort_turn_perm.
Qed.

Lemma sort_turn_length l p : length (snd (sort_turn p l)) = length l.
Proof. pose proof (Permutation_length (sort_turn_perm l p)) as E. cbn in E. lia. Qed.

Abbreviation sorted := (StronglySorted (fun p q : Z * Z => fst p <= fst q)).

Lemma sort_spans_sorted n : forall l, (length l <= n)%nat -> sorted (sort_spans n l).
Proof.
  induction n as [|n IH]; intros [|p l] Hn; [constructor|cbn in Hn; lia|constructor|]. cbn [sort_spans].
  constructor.
  - apply IH. rewrite sort_turn_length. cbn in Hn. lia.
  - rewrite sort_spans_perm. pose proof (sort_turn_least l p) as H.
    rewrite <- (sort_turn_perm l p) in H. by apply Forall_cons in H as [_ H].
Qed.

Lemma in_class_perm l l' r : l ≡ₚ l' -> in_class l r = in_class l' r.
Proof.
  unfold in_class.
  induction 1 as [|x l l' _ IH|x y l|l1 l2 l3 _ IH1 _ IH2]; cbn;
    [done|by rewrite IH|by rewrite !orb_assoc, (orb_comm (_ && _))|congruence].
Qed.

Lemma merge_spans_in l r : forall np, Forall (fun p => 0 <= snd p <= Runemax) (np :: l) ->
  sorted (np :: l) ->
  in_class (merge_spans np l) r = in_class (np :: l) r.
Proof.
  induction l as [|p l IH]; intros np Hb Hs; [done|].
  apply Forall_cons in Hb as [Hn [Hp Hl]%Forall_cons].
  apply StronglySorted_inv in Hs as [[Hs Hpl]%StronglySorted_inv [Hnp Hnl]%Forall_cons].
  cbn [merge_spans].
  assert (wrap 32 (snd np + 1) = snd np + 1) as ->
    by (unfold wrap, Runemax in *; apply Z.mod_small; lia).
  destruct (Z.leb_spec (fst p) (snd np + 1)).
  - rewrite IH.
    + unfold in_class. cbn [existsb]. rewrite orb_assoc. f_equal.
      destruct (Z.leb_spec (snd np) (snd p)); cbn [fst snd];
        apply Bool.eq_iff_eq_true; rewrite orb_true_iff, !andb_true_iff, !Z.leb_le; lia.
    + constructor; [|done]. by destruct (_ <=? _).
    + constructor; [done|]. by destruct (_ <=? _).
  - change (in_class (np :: ?x) r) with (((fst np <=? r) && (r <=? snd np)) || in_class x r).
    rewrite IH; [done|by constructor|by constructor].
Qed.

(** What [bldcclass] makes of the ranges [r], the last one first. *)
Definition spans_of (r : list (Z * Z)) : Reclass :=
  match sort_spans (length r) (rev r) with [] => [] | p :: l => merge_spans p l end.

Lemma spans_of_in r c : Forall (fun p => 0 <= snd p <= Runemax) r ->
  in_class (spans_of r) c = in_class r c.
Proof.
  intros H. unfold spans_of.
  assert (sort_spans (length r) (rev r) ≡ₚ r) as Hp
    by (rewrite sort_spans_perm; symmetry; apply Permutation_rev).
  pose proof (sort_spans_sorted (length r) (rev r)) as Hs. rewrite length_rev in Hs.
  specialize (Hs ltac:(lia)).
  rewrite <- Hp in H. rewrite <- (in_class_perm _ _ c Hp).
  destruct (sort_spans (length r) (rev r)); [done|]. by apply merge_spans_in.
Qed.

(** ** Characters *)

(** The characters of an expression and whether they are quoted; a backslash at the end of the
    string ends the expression. *)
Fixpoint chars (rs : list Z) : list (bool * Z) :=
  match rs with
  | [] => []
  | r :: rs => if r =? 92 then match rs with [] => [] | r :: rs => (true, r) :: chars rs end else
    (false, r) :: chars rs
  end.

(** The tokens of one character that is not quoted. *)
Definition token (nl : bool) (r : Z) : tok :=
  if r =? 42 then TPost STAR
  else if r =? 63 then TPost QUEST
  else if r =? 43 then TPost PLUS
  else if r =? 124 then TOr
  else if r =? 46 then TAtom (Dot nl)
  else if r =? 40 then TLbra
  else if r =? 41 then TRbra
  else if r =? 94 then TAtom Bol
  else if r =? 36 then TAtom Eol
  else TAtom (Chr r).

(** The ranges of a class up to its bracket, and the characters after it. *)
Definition item (c : bool * Z) : Prop := c <> (false, 45) /\ c <> (false, 93).
Definition no_dash (cs : list (bool * Z)) : Prop := head cs <> Some (false, 45).

Inductive ranges : list (bool * Z) -> list (Z * Z) -> list (bool * Z) -> Prop :=
| rg_end cs : ranges ((false, 93) :: cs) [] cs
| rg_one a cs spans cs' : item a -> no_dash cs -> ranges cs spans cs' ->
  ranges (a :: cs) ((snd a, snd a) :: spans) cs'
| rg_range a b cs spans cs' : item a -> b <> (false, 93) -> no_dash cs -> ranges cs spans cs' ->
    ranges (a :: (false, 45) :: b :: cs) ((snd a, snd b) :: spans) cs'.

(** The tokens of an expression; with [lit] every character stands for itself, and with [nl] the
    dot takes a newline. A class has at most 31 ranges, the newline of a negated one included. *)
Inductive lexes (lit nl : bool) : list (bool * Z) -> list tok -> Prop :=
| lexes_end : lexes lit nl [] []
| lexes_chr c cs ts : lit || fst c = true -> lexes lit nl cs ts ->
  lexes lit nl (c :: cs) (TAtom (Chr (snd c)) :: ts)
| lexes_token r cs ts : lit = false -> r <> 91 -> lexes lit nl cs ts ->
  lexes lit nl ((false, r) :: cs) (token nl r :: ts)
| lexes_class cs spans cs' ts : lit = false -> head cs <> Some (false, 94) -> ranges cs spans cs' ->
  len spans <= 31 -> lexes lit nl cs' ts ->
    lexes lit nl ((false, 91) :: cs) (TAtom (Class false spans) :: ts)
| lexes_nclass cs spans cs' ts : lit = false -> ranges cs spans cs' -> len spans <= 30 ->
  lexes lit nl cs' ts ->
    lexes lit nl ((false, 91) :: (false, 94) :: cs) (TAtom (Class true spans) :: ts).

(** How many classes there are. *)
Fixpoint count_classes (ts : list tok) : Z :=
  match ts with [] => 0 | TAtom (Class _ _) :: ts => 1 + count_classes ts | _ :: ts => count_classes ts
    end.

Section lexer.
Context (post : bytes) (Hpost : is_bytes post).

(** The characters that are left at the pointer [exprp]. *)
Definition spells (e : bytes) (cs : list (bool * Z)) : Prop :=
  exists t ps, e = t ++ 0 :: post /\ is_string t /\ pieces t ps /\ chars (map fst ps) = cs.

Lemma piece_rune t r b ps : pieces t ((r, b) :: ps) -> is_rune r.
Proof. intros H. inversion H; subst; [done|]. unfold is_rune, Bad, Runeerror, Runemax. lia. Qed.

Lemma static_run {A} (f : rcomp -> A) st a : f st = a -> static f st = Rc a st.
Proof. by intros <-. Qed.

Lemma exprrune_ok st t r b ps : exprp st = t ++ 0 :: post -> is_string t -> pieces t ((r, b) :: ps) ->
  exists t', is_string t' /\ pieces t' ps /\ (length t' < length t)%nat /\
    exprrune st = Rc r (st <| exprp := t' ++ 0 :: post |>) /\ r <> 0.
Proof.
  intros He Ht Hps.
  destruct (pieces_step _ _ _ _ post Hps Ht Hpost)
    as (t' & k & -> & Hps' & Ht' & _ & Hb & Hd & Hc & Hk & Hk0 & Hcase).
  exists t'. split_and!; [done|done|rewrite length_app; lia| |].
  - unfold exprrune. rc (static_run exprp st _ He). by rewrite Hc, Nat2Z.id, Hd.
  - destruct Hcase as [(_ & -> & _)|[_ ?]]; [done|lia].
Qed.

Lemma exprrune_end st : exprp st = 0 :: post -> exprrune st = Rc 0 (st <| exprp := post |>).
Proof. intros He. unfold exprrune. by rc (static_run exprp st _ He). Qed.

Lemma chars_length t ps : pieces t ps -> (length (chars (map fst ps)) <= length t)%nat.
Proof.
  intros Hps. assert (length ps <= length t)%nat.
  { induction Hps; cbn [length]; [lia| |lia]. rewrite length_app. pose proof (utf8_len r). lia. }
  assert (forall n rs, length rs <= n -> length (chars rs) <= length rs)%nat as Hch.
  { induction n as [|n IH]; intros [|r rs] Hn; cbn in Hn |- *; try lia.
    destruct (r =? 92); [destruct rs as [|r' rs]; cbn in Hn |- *; [lia|]|cbn];
      specialize (IH rs ltac:(lia)); lia.
    }
  specialize (Hch _ (map fst ps) ltac:(done)). rewrite length_map in Hch. lia.
Qed.

Lemma spells_length e cs : spells e cs -> (length cs < length e)%nat.
Proof.
  intros (t & ps & -> & Ht & Hps & <-). rewrite length_app. cbn [length].
  pose proof (chars_length _ _ Hps). lia.
Qed.

Lemma nextc_ok st c cs : spells (exprp st) (c :: cs) -> lexdone st = false ->
  exists e, nextc st = Rc c (st <| exprp := e |>) /\ spells e cs /\ snd c <> 0 /\ is_rune (snd c).
Proof.
  intros (t & ps & He & Ht & Hps & Hc) Hd. destruct ps as [|[r b] ps]; [done|].
  cbn [map fst chars] in Hc.
  destruct (exprrune_ok st t r b ps He Ht Hps) as (t' & Ht' & Hps' & _ & E & Hr).
  pose proof (piece_rune _ _ _ _ Hps) as Hrr.
  pose proof (static_run lexdone st _ Hd) as Ed.
  unfold nextc. rc Ed. cbn match. rc E. destruct (Z.eqb_spec r 92) as [->|].
  - destruct ps as [|[r' b'] ps]; [done|]. cbn in Hc. injection Hc as <- <-.
    set (st1 := st <| exprp := t' ++ 0 :: post |>).
    destruct (exprrune_ok st1 t' r' b' ps eq_refl Ht' Hps') as (t2 & Ht2 & Hps2 & _ & E2 & Hr2).
    pose proof (piece_rune _ _ _ _ Hps').
    exists (t2 ++ 0 :: post). split_and!; [|by exists t2, ps|done|done]. by rc E2.
  - injection Hc as <- <-. exists (t' ++ 0 :: post). split_and!; [|by exists t', ps|done|done].
    apply Z.eqb_neq in Hr. rewrite Hr. done.
Qed.

Lemma nextc_end st : spells (exprp st) [] -> lexdone st = false ->
  exists q e d, nextc st = Rc (q, 0) (st <| exprp := e |> <| lexdone := d |>).
Proof.
  intros (t & ps & He & Ht & Hps & Hc) Hd. pose proof (static_run lexdone st _ Hd) as Ed.
  destruct ps as [|[r b] ps].
  - inversion Hps; subst. exists false, post, true. unfold nextc. rc Ed. cbn match.
    by rc (exprrune_end st He).
  - cbn [map fst chars] in Hc.
    destruct (exprrune_ok st t r b ps He Ht Hps) as (t' & Ht' & Hps' & _ & E & Hr).
    destruct (Z.eqb_spec r 92) as [->|]; [|done]. destruct ps as [|]; [|done]. inversion Hps'; subst.
    exists true, post, (lexdone st).
    unfold nextc. rc Ed. cbn match. rc E. cbn [Z.eqb Pos.eqb].
    erewrite rcm_bind_Rc; [|by apply exprrune_end]. done.
Qed.

(** ** Classes *)

Lemma ranges_first cs spans cs' : ranges cs spans cs' -> exists c cs1, cs = c :: cs1.
Proof. destruct 1; eauto. Qed.

Lemma item_plain (a : bool * Z) : a <> (false, 45) -> a <> (false, 93) ->
  negb (fst a) && (snd a =? 93) = false /\ negb (fst a) && (snd a =? 45) = false.
Proof. destruct a as [[] r]; [done|]. cbn. split; apply Z.eqb_neq; congruence. Qed.

Lemma class_spans_ok cs spans cs' : ranges cs spans cs' -> forall fuel st acc c cs1, cs = c :: cs1 ->
  spells (exprp st) cs1 -> lexdone st = false -> snd c <> 0 ->
  is_rune (snd c) -> len acc + len spans <= 31 -> (length cs < fuel)%nat ->
  exists e, class_spans fuel acc (fst c) (snd c) st = Rc (rev spans ++ acc) (st <| exprp := e |>) /\
    spells e cs' /\ Forall (fun p => 0 <= snd p <= Runemax) spans.
Proof.
  induction 1 as [cs|a cs spans cs' [Ha Ha'] Hnd Hrg IH|a b cs spans cs' [Ha Ha'] Hb Hnd Hrg IH];
    intros fuel st acc c cs1 Ecs Hsp Hd Hc Hrc Hlen Hf;
    (destruct fuel as [|fuel]; [lia|]); injection Ecs as <- <-; cbn [class_spans length] in *;
    rewrite (proj2 (Z.leb_gt _ _)) by (unfold NCCRUNE; lia); rewrite (proj2 (Z.eqb_neq _ _) Hc).
  - exists (exprp st). split_and!; [done|done|constructor].
  - assert (negb (fst a) && (snd a =? 93) = false /\ negb (fst a) && (snd a =? 45) = false) as [-> ->]
      by (by apply item_plain).
    destruct (ranges_first _ _ _ Hrg) as (c & cs1 & ->).
    destruct (nextc_ok st c cs1 Hsp Hd) as (e & E & Hsp' & Hc' & Hrc'). rc E.
    set (st1 := st <| exprp := e |>).
    destruct (IH fuel st1 ((snd a, snd a) :: acc) c cs1 eq_refl Hsp' Hd Hc' Hrc')
      as (e2 & E2 & Hsp2 & Hb2); [cbn [length]; lia|cbn in *; lia|].
    exists e2. split_and!; [|done|by constructor]. etransitivity; [exact E2|]. cbn [rev].
    by rewrite <- app_assoc.
  - assert (negb (fst a) && (snd a =? 93) = false /\ negb (fst a) && (snd a =? 45) = false) as [-> ->]
      by (by apply item_plain).
    destruct (nextc_ok st _ _ Hsp Hd) as (e & E & Hsp' & Hc' & Hrc'). rc E.
    set (st1 := st <| exprp := e |>).
    destruct (nextc_ok st1 b _ Hsp' Hd) as (e1 & E1 & Hsp1 & Hc1 & Hrc1).
    set (st2 := st1 <| exprp := e1 |>).
    destruct (ranges_first _ _ _ Hrg) as (c & cs1 & ->).
    destruct (nextc_ok st2 c cs1 Hsp1 Hd) as (e2 & E2 & Hsp2 & Hc2 & Hrc2).
    set (st3 := st2 <| exprp := e2 |>).
    destruct fuel as [|fuel]; [cbn in *; lia|]. cbn [class_spans fst snd].
    rewrite (proj2 (Z.leb_gt _ _)) by (unfold NCCRUNE; cbn [length]; lia).
    cbn [Z.eqb negb andb Pos.eqb]. rc E1.
    assert (negb (fst b) && (snd b =? 93) || (snd b =? 0) = false) as ->.
    { apply Z.eqb_neq in Hc1. rewrite Hc1, orb_false_r. destruct b as [[] r]; [done|]. cbn.
      apply Z.eqb_neq. congruence. }
    rc E2.
    destruct (IH fuel st3 ((snd a, snd b) :: acc) c cs1 eq_refl Hsp2 Hd Hc2 Hrc2)
      as (e4 & E4 & Hsp4 & Hb4); [cbn [length]; lia|cbn in *; lia|].
    exists e4. split_and!; [|done|by constructor]. etransitivity; [exact E4|]. cbn [rev].
    by rewrite <- app_assoc.
Qed.
Lemma insert_last {A} (l : list A) a b : <[Z.to_nat (len l) := b]> (l ++ [a]) = l ++ [b].
Proof. rewrite Nat2Z.id, insert_app_r_alt, Nat.sub_diag by lia. done. Qed.

(** The class that a bracket begins. *)
Lemma class_ok st neg spans cs cs' : ranges cs spans cs' ->
  spells (exprp st) (if neg : bool then (false, 94) :: cs else cs) -> lexdone st = false ->
  (neg = false -> head cs <> Some (false, 94)) -> len spans <= (if neg then 30 else 31) ->
    len (co_classes st) < NCLASS ->
  exists e c, bldcclass st = Rc (atom_code (Class neg spans))
    (st <| yyclassp := len (co_classes st) |> <| exprp := e |> <| co_classes :=
      co_classes st ++ [c] |>) /\
    spells e cs' /\ forall r, in_class c r = (neg && (r =? 10)) || in_class spans r.
Proof.
  intros Hrg Hsp Hd Hneg Hlen Hcl. set (n := len (co_classes st)).
  set (st1 := st <| co_classes := co_classes st ++ [[]] |> <| yyclassp := n |>).
  set (acc := if neg then [(10, 10)] else []). destruct (ranges_first _ _ _ Hrg) as (c & cs1 & Ecs).
  assert (exists e, (forall B (g : Z * Reclass * (bool * Z) -> rcm B),
    (x ← nextc; y ← (if negb (fst x) && (snd x =? 94) then x ← nextc;
      mret (NCCLASS, [(10, 10)], x) else mret (CCLASS, [], x)); g y) st1
    = g (atom_code (Class neg spans), acc, c) (st1 <| exprp := e |>)) /\ spells e cs1 /\ snd c <> 0 /\
      is_rune (snd c)) as (e & E & Hsp1 & Hc & Hrc).
  { subst cs. destruct neg.
    - destruct (nextc_ok st1 _ _ Hsp Hd) as (e1 & E1 & Hsp1 & _). set (st2 := st1 <| exprp := e1 |>).
      destruct (nextc_ok st2 _ _ Hsp1 Hd) as (e2 & E2 & Hsp2 & Hc2 & Hr2).
      exists e2. split_and!; [|done..]. intros B g. rc E1. cbn [fst snd negb andb Z.eqb Pos.eqb].
      apply rcm_bind_Rc. by rc E2.
    - destruct (nextc_ok st1 _ _ Hsp Hd) as (e1 & E1 & Hsp1 & Hc1 & Hr1). exists e1.
      split_and!; [|done..]. intros B g. rc E1.
      assert (negb (fst c) && (snd c =? 94) = false) as ->; [|done]. specialize (Hneg eq_refl).
      destruct c as [[] r]; [done|]. cbn in *. apply Z.eqb_neq. congruence. }
  set (st2 := st1 <| exprp := e |>). pose proof (spells_length _ _ Hsp1) as Hl.
  destruct (class_spans_ok _ _ _ Hrg (S (S (length e))) st2 acc c cs1 Ecs Hsp1 Hd Hc Hrc)
    as (e2 & E2 & Hsp2 & Hb); [unfold acc; destruct neg; cbn; lia|rewrite Ecs; cbn; lia|].
  exists e2, (spans_of (rev spans ++ acc)). split_and!; [|done|].
  - unfold bldcclass.
    erewrite (rcm_bind_Rc newclass);
      [|unfold newclass; erewrite rcm_bind_Rc by done; by rewrite (proj2 (Z.leb_gt _ _)) by exact Hcl].
    erewrite rcm_bind_Rc by done. etransitivity; [apply (E _ (fun y => let '(type, r, x) := y in _))|].
    fold st2. cbv zeta. rc (static_run (fun st => length (exprp st)) st2 _ eq_refl). rc E2.
    unfold mbind, rcm_bind, assign, mret, rcm_ret. f_equal. unfold st2, st1, n. cbn [co_classes upd].
    rewrite insert_last. done.
  - intros r.
    rewrite spans_of_in by (apply Forall_app; split;
      [by apply Forall_rev|unfold acc; destruct neg; repeat constructor; cbn; unfold Runemax; lia]).
    rewrite (in_class_perm _ (acc ++ spans)) by (by rewrite Permutation_app_comm, <- Permutation_rev).
    unfold acc. destruct neg; [|done]. cbn. f_equal.
    apply Bool.eq_iff_eq_true. rewrite andb_true_iff, !Z.leb_le, Z.eqb_eq. lia.
Qed.
(** ** Tokens *)

Definition dot (nl : bool) : Z := if nl then ANYNL else ANY.

Definition is_class (t : tok) : Z := match t with TAtom (Class _ _) => 1 | _ => 0 end.

Lemma count_cons t ts : count_classes (t :: ts) = is_class t + count_classes ts.
Proof. by destruct t as [[]| | | |]. Qed.

(** One call of [lex]: its token, and what it does to the static variables. *)
Definition lexed (lit nl : bool) (st : rcomp) (t : tok) (cs : list (bool * Z)) : Prop :=
  exists x, lex lit (dot nl) st = Rc (lx_code x) (set_lex x st) /\ spells (lx_expr x) cs /\
    lx_done x = false /\ lx_code x <> END /\
    co_classes st `prefix_of` lx_classes x /\ len (lx_classes x) = len (co_classes st) + is_class t /\
    forall CS, lx_classes x `prefix_of` CS -> lexeme_ok CS x t.

Section one.
Context (lit nl : bool) (st : rcomp) (Hd : lexdone st = false).

(** A character that is a token of its own. *)
Lemma char_lexed c cs e t code : nextc st = Rc c (st <| exprp := e |>) -> spells e cs ->
  lex lit (dot nl) st = Rc code (st <| exprp := e |> <| yyrune := snd c |>) -> code <> END ->
    is_class t = 0 ->
  lexeme_ok [] (mkLex code (snd c) (yyclassp st) e false (co_classes st)) t -> lexed lit nl st t cs.
Proof.
  intros E Hsp El Hne Hcl Hok. exists (mkLex code (snd c) (yyclassp st) e false (co_classes st)).
  cbn [lx_code lx_expr lx_done lx_classes]. split_and!; [|done|done|done|done|lia|].
  - rewrite El. unfold set_lex. cbn [lx_expr lx_done lx_classes lx_rune lx_class]. by rewrite <- Hd.
  - intros CS _. destruct t as [[]| | | |]; try done.
Qed.

Lemma chr_lexed c cs : lit || fst c = true -> spells (exprp st) (c :: cs) ->
  lexed lit nl st (TAtom (Chr (snd c))) cs.
Proof.
  intros Hl Hsp. destruct (nextc_ok st c cs Hsp Hd) as (e & E & Hsp' & Hc & _).
  eapply (char_lexed _ _ _ _ RUNE); [exact E|done| |done|done|done].
  unfold lex. rc E. erewrite rcm_bind_Rc by done. rewrite Hl. apply Z.eqb_neq in Hc. by rewrite Hc.
Qed.

Lemma token_lexed r cs : lit = false -> r <> 91 -> spells (exprp st) ((false, r) :: cs) ->
  lexed lit nl st (token nl r) cs.
Proof.
  intros Hl H91 Hsp. destruct (nextc_ok st _ cs Hsp Hd) as (e & E & Hsp' & Hc & _).
  apply Z.eqb_neq in H91, Hc. cbn [fst snd] in Hc.
  eapply (char_lexed _ _ _ _ (match token nl r with TAtom e => atom_code e | TPost op => op
    | TOr => OR | TLbra => LBRA | TRbra => RBRA end)); [exact E|done| | | |].
  - unfold lex. rc E. erewrite rcm_bind_Rc by done. rewrite Hl. cbn [fst snd orb]. rewrite Hc, H91.
    unfold token. repeat (case_match; [by destruct nl|]). done.
  - unfold token. repeat (destruct (_ =? _)); try done. by destruct nl.
  - unfold token. by repeat (destruct (_ =? _)).
  - unfold token. by repeat (destruct (_ =? _)).
Qed.

Lemma class_lexed neg spans cs cs' : lit = false -> ranges cs spans cs' ->
  spells (exprp st) ((false, 91) :: (if neg : bool then (false, 94) :: cs else cs)) ->
  (neg = false -> head cs <> Some (false, 94)) -> len spans <= (if neg then 30 else 31) ->
    len (co_classes st) < NCLASS ->
  lexed lit nl st (TAtom (Class neg spans)) cs'.
Proof.
  intros Hl Hrg Hsp Hneg Hlen Hcl. destruct (nextc_ok st _ _ Hsp Hd) as (e & E & Hsp' & Hc & _).
  set (st1 := st <| exprp := e |> <| yyrune := 91 |>).
  destruct (class_ok st1 neg spans cs cs' Hrg Hsp' Hd Hneg Hlen Hcl) as (e2 & c & E2 & Hsp2 & Hin).
  exists (mkLex (atom_code (Class neg spans)) 91 (len (co_classes st)) e2 false (co_classes st ++ [c])).
  cbn [lx_code lx_expr lx_done lx_classes]. split_and!.
  - unfold lex. rc E. erewrite rcm_bind_Rc by done. rewrite Hl. cbn [fst snd orb Z.eqb Pos.eqb].
    etransitivity; [exact E2|]. unfold set_lex, st1. cbn [lx_expr lx_done lx_classes lx_rune lx_class].
    by rewrite <- Hd.
  - done.
  - done.
  - by destruct neg.
  - by eexists.
  - rewrite length_app. cbn. lia.
  - intros CS [k ->]. split; [done|]. exists c. split; [|done]. cbn [lx_class]. rewrite <- app_assoc.
    rewrite load1_app_r, Z.sub_diag by lia. done.
Qed.
End one.
(** The parser leaves the variables of the lexical analysis. *)
Definition keeps {A} (m : rcm A) : Prop := forall st a st', m st = Rc a st' -> exprp st' = exprp st /\
  lexdone st' = lexdone st /\ co_classes st' = co_classes st.

Lemma keeps_bind {A B} (m : rcm A) (f : A -> rcm B) : keeps m -> (forall a, keeps (f a)) ->
  keeps (m ≫= f).
Proof.
  intros Hm Hf st b st' E. unfold mbind, rcm_bind in E. destruct (m st) as [a st1| |] eqn:Em; [|done..].
  destruct (Hm _ _ _ Em) as (<- & <- & <-). by eapply Hf.
Qed.

Lemma keeps_ret {A} (a : A) : keeps (mret a).
Proof. by intros st b st' [= <- <-]. Qed.
Lemma keeps_static {A} (f : rcomp -> A) : keeps (static f).
Proof. by intros st b st' [= <- <-]. Qed.
Lemma keeps_error {A} s : keeps (@rcerror A s).
Proof. by intros st a st' E. Qed.
Lemma keeps_fault {A} : keeps (@rcfault A).
Proof. by intros st a st' E. Qed.

(** Goes through a function of the parser. *)
Ltac keep := repeat first
  [assumption|match goal with |- keeps (_ ≫= _) => apply keeps_bind;
    [|intros ?] end|apply keeps_ret|apply keeps_static|apply keeps_error|apply keeps_fault
  |match goal with |- keeps (assign _) => by intros ? ? ? [= <- <-] end|case_match].

Lemma keeps_newinst t : keeps (newinst t).
Proof. unfold newinst. keep. Qed.
Lemma keeps_set_u1 i v : keeps (set_u1 i v).
Proof. unfold set_u1. keep. Qed.
Lemma keeps_set_u2 i v : keeps (set_u2 i v).
Proof. unfold set_u2. keep. Qed.
Lemma keeps_pushand f l : keeps (pushand f l).
Proof. unfold pushand, cant. keep. Qed.
Lemma keeps_pushator t : keeps (pushator t).
Proof. unfold pushator, cant. keep. Qed.
Lemma keeps_popand t : keeps (popand t).
Proof. unfold popand, regerr2. keep. Qed.

Lemma keeps_evaluate op v : keeps (evaluate op v).
Proof.
  unfold evaluate. pose proof keeps_newinst. pose proof keeps_set_u1. pose proof keeps_set_u2.
  pose proof keeps_pushand. pose proof keeps_popand.
  by repeat (destruct (_ =? _); [repeat (apply keeps_bind; [done|intros ?]); apply keeps_ret|]).
Qed.

Lemma keeps_evaluntil pri : keeps (evaluntil pri).
Proof.
  unfold evaluntil. apply keeps_bind; [apply keeps_static|]. intros ators.
  induction ators as [|[op v] ators IH]; cbn [evaluntil_loop]; unfold cant; keep. apply keeps_evaluate.
Qed.

Lemma keeps_operator_eval t : keeps (operator_eval t).
Proof. unfold operator_eval. pose proof (keeps_evaluntil t). pose proof (keeps_pushator t). keep. Qed.

Lemma keeps_operator t : keeps (operator t).
Proof.
  unfold operator. pose proof (keeps_operator_eval t). pose proof (keeps_operator_eval CAT).
  pose proof (keeps_pushator LBRA). keep.
Qed.

Lemma keeps_act t : keeps (act t).
Proof.
  unfold act, operand. pose proof (keeps_operator t). pose proof (keeps_operator CAT).
  pose proof (keeps_newinst t). pose proof keeps_set_u1. pose proof keeps_pushand.
  keep; eauto.
Qed.

(** ** The loop *)

Lemma lex_one lit nl cs t ts st : lexes lit nl cs (t :: ts) -> spells (exprp st) cs ->
  lexdone st = false -> len (co_classes st) + is_class t <= NCLASS ->
  exists cs', lexed lit nl st t cs' /\ lexes lit nl cs' ts /\ (length cs' < length cs)%nat.
Proof.
  assert (forall cs spans cs', ranges cs spans cs' -> (length cs' < length cs)%nat) as Hrl
    by (induction 1; cbn; lia).
  intros H Hsp Hd Hcl.
  inversion H as [|c cs' ? Hl Hr|r cs' ? Hl H91 Hr|cs0 spans cs' ? Hl Hh Hrg Hn Hr
    |cs0 spans cs' ? Hl Hrg Hn Hr]; subst; exists cs'.
  - split_and!; [by apply chr_lexed|done|cbn; lia].
  - split_and!; [by apply token_lexed|done|cbn; lia].
  - split_and!; [|done|pose proof (Hrl _ _ _ Hrg); cbn; lia].
    apply (class_lexed _ _ _ Hd false spans cs0); try done. cbn in Hcl. lia.
  - split_and!; [|done|pose proof (Hrl _ _ _ Hrg); cbn; lia].
    apply (class_lexed _ _ _ Hd true spans cs0); try done. cbn in Hcl. lia.
Qed.

Lemma loop_run lit nl ts : forall cs st fuel, lexes lit nl cs ts -> spells (exprp st) cs ->
  lexdone st = false -> len (co_classes st) + count_classes ts <= NCLASS ->
  (length cs < fuel)%nat ->
  exists xs xe, Forall2 (lexeme_ok (lx_classes xe)) xs ts /\ co_classes st `prefix_of` lx_classes xe /\
    regcomp1_loop fuel lit (dot nl) st = (run xs;; assign (set_lex xe)) st.
Proof.
  induction ts as [|t ts IH]; intros cs st fuel Hl Hsp Hd Hcl Hf; (destruct fuel as [|fuel]; [lia|]);
    cbn [regcomp1_loop].
  - inversion Hl; subst. destruct (nextc_end st Hsp Hd) as (q & e & d & E).
    exists [], (mkLex END 0 (yyclassp st) e d (co_classes st)). split_and!; [done|done|].
    assert (lex lit (dot nl) st = Rc END (st <| exprp := e |> <| lexdone := d |> <| yyrune := 0 |>))
      as El.
    { unfold lex. rc E. erewrite rcm_bind_Rc by done. cbn. by destruct (_ || _). }
    rc El. done.
  - rewrite count_cons in Hcl.
    assert (0 <= count_classes ts) by (clear; induction ts as [|[[]| | | |] ts IH]; cbn; lia).
    destruct (lex_one lit nl cs t ts st Hl Hsp Hd ltac:(lia))
      as (cs' & (x & E & Hsp' & Hdx & Hne & Hpre & Hlen & Hok) & Hl' & Hlt).
    assert (forall st', exprp st' = lx_expr x -> lexdone st' = false -> co_classes st' = lx_classes x ->
      exists xs xe, Forall2 (lexeme_ok (lx_classes xe)) xs ts /\
        lx_classes x `prefix_of` lx_classes xe /\
      regcomp1_loop fuel lit (dot nl) st' = (run xs;; assign (set_lex xe)) st') as Hnext.
    { intros st' He Hd' Hc'. rewrite <- Hc'.
      apply (IH cs'); [done|by rewrite He|done|rewrite Hc'; lia|lia]. }
    rc E. rewrite (proj2 (Z.eqb_neq _ _) Hne). fold (act (lx_code x)).
    destruct (act (lx_code x) (set_lex x st)) as [[] st'|err|] eqn:Ea.
    + destruct (keeps_act _ _ _ _ Ea) as (He & Hd' & Hc').
      destruct (Hnext st') as (xs & xe & Hxs & Hp & Er);
        [by rewrite He|by rewrite Hd', <- Hdx|by rewrite Hc'|].
      exists (x :: xs), xe. split_and!; [by constructor; [apply Hok|]|by etransitivity|]. rc Ea.
      rewrite Er. cbn [run]. unfold mbind, rcm_bind, assign. by rewrite Ea.
    + destruct (Hnext (set_lex x st)) as (xs & xe & Hxs & Hp & _); [done..|]. exists (x :: xs), xe.
      split_and!; [by constructor; [apply Hok|]|by etransitivity|].
      cbn [run]. unfold mbind, rcm_bind, assign. by rewrite Ea.
    + destruct (Hnext (set_lex x st)) as (xs & xe & Hxs & Hp & _); [done..|]. exists (x :: xs), xe.
      split_and!; [by constructor; [apply Hok|]|by etransitivity|].
      cbn [run]. unfold mbind, rcm_bind, assign. by rewrite Ea.
Qed.
End lexer.
