(* ===== verification/RegcompProps.v ===== *)
(** * Compiled regular expressions

    The program that [regcomp] makes of a string matches what the expression of the string says. *)

From stdpp Require Import strings.
From S2P Require Import Prelude Fcall Utf UtfString Regexec RegexecRun RegexecProps Regcomp.
From S2P Require Import RegexLang RegexCode RegcompParse RegcompLex.
#[local] Open Scope Z_scope.

(** ** The whole program *)

Section code.
Context (CS : list Reclass).

(** The code that [regcomp1] has before [optimize]. *)
Definition coded (f : Z) (prg : list Reinst) (e : re) : Prop :=
  exists hi l i, frag prg CS 0 hi f l e /\ next prg l hi /\ len prg = hi + 1 /\ load1 prg hi = Some i /\
    ri_type i = END.

(** The end of [regcomp1], when the code for the expression is the only operand. *)
Lemma finish_run P R k f l e v : frag P CS 0 (len P) f l e -> len P < R -> k_and k = true ->
  exists prg k', (operand END;; evaluntil START) (st_of [mkNode f l] [(START - 1, v)] P R k) =
    Rc tt (st_of [mkNode f (len P)] [(START - 1, v)] prg R k') /\
    coded f prg e /\ k_bra k' = k_bra k /\ k_classes k' = k_classes k.
Proof.
  intros F HR Hk. pose proof (frag_range _ _ _ _ _ _ _ F) as Hr. set (k1 := k <| k_and := false |>).
  set (k2 := k1 <| k_and := true |>).
  set (O := [(START - 1, v)]). set (P1 := P ++ [mkReinst END None None]).
  assert (operand END (st_of [mkNode f l] O P R k) =
    Rc tt (st_of [mkNode (len P) (len P); mkNode f l] ((CAT, k_sub k) :: O) P1 R k2)) as E1.
  { unfold operand. rc (static_run lastwasand (st_of [mkNode f l] O P R k) true Hk). cbn match.
    rc (operator_run CAT [mkNode f l] O P R k [mkNode f l] O P ltac:(done) ltac:(done) ltac:(done)
      ltac:(by apply evaluntil_stays)).
    rc (newinst_run [mkNode f l] ((CAT, k_sub k) :: O) R k1 P END HR).
    do 2 (erewrite rcm_bind_Rc by done).
    by rc (pushand_run [mkNode f l] ((CAT, k_sub k) :: O) R k1 P1 (len P) (len P) ltac:(done)). }
  assert (evaluntil START (st_of [mkNode (len P) (len P); mkNode f l] ((CAT, k_sub k) :: O) P1 R k2) =
    Rc tt (st_of [mkNode f (len P)] O (patch P1 l (len P)) R k2)) as E2.
  { assert (evaluate CAT (k_sub k) (st_of [mkNode (len P) (len P); mkNode f l] O P1 R k2) =
      Rc false (st_of [mkNode f (len P)] O (patch P1 l (len P)) R k2)) as Ee.
    { unfold evaluate. cbn [Z.eqb CAT LBRA OR Pos.eqb].
      rc (popand_run [mkNode f l] O R k2 P1 (mkNode (len P) (len P)) 0).
      rc (popand_run [] O R k2 P1 (mkNode f l) 0). cbn [first last].
      rc (set_u2_run [] O R k2 P1 l (len P) ltac:(unfold P1; lens)).
      by rc (pushand_run [] O R k2 (patch P1 l (len P)) f (len P) ltac:(done)). }
    unfold evaluntil. erewrite rcm_bind_Rc by done. cbn [co_ators st_of evaluntil_loop].
    rewrite (proj2 (Z.leb_le _ _)), orb_true_r by done.
    erewrite rcm_bind_Rc by done. by rc Ee. }
  exists (patch P1 l (len P)), k2. split_and!; [by rc E1| |done|done].
  destruct (patched CS P 0 f l e [mkReinst END None None] (len P) F ltac:(lia)) as (F' & N' & _).
  rewrite <- patch_app in F', N' by lia.
  exists (len P), l, (mkReinst END None None). split_and!; [exact F'|exact N'|unfold P1; lens| |done].
  unfold P1. rewrite patch_app by lia.
  rewrite <- (length_patch P l (len P)) at 2. apply load1_new.
Qed.
End code.

Lemma bind_inv {A B} (m : rcm A) (g : A -> rcm B) st b st' : (m ≫= g) st = Rc b st' ->
  exists a st1, m st = Rc a st1 /\ g a st1 = Rc b st'.
Proof. unfold mbind, rcm_bind. destruct (m st) as [a st1| |]; [eauto|done..]. Qed.

Lemma parse_size l ts e : parse l ts e -> size e + 2 <= 3 * len ts.
Proof.
  induction 1 as [l e Ha|l ts e _ IH|l op ts e e' _ IH Hl Hp|l ts1 ts2 e1 e2 _ IH1 _ IH2 _
    |l ts1 ts2 e1 e2 _ IH1 _ IH2 _]; cbn [size length]; rewrite ?length_app; cbn [length];
      rewrite ?length_app; cbn [length]; try lia.
  - by destruct e.
  - apply post_op in Hp as [[-> ->]|[[-> ->]|[-> ->]]]; cbn [size]; lia.
Qed.

Lemma lexes_length lit nl cs ts : lexes lit nl cs ts -> (length ts <= length cs)%nat.
Proof.
  assert (forall cs spans cs', ranges cs spans cs' -> (length cs' < length cs)%nat) as Hrl
    by (induction 1; cbn; lia).
  induction 1 as [| | |cs spans cs' ts _ _ Hr _ _ IH|cs spans cs' ts _ Hr _ _ IH]; cbn; try lia;
    specialize (Hrl _ _ _ Hr); lia.
Qed.

(** The expression of a string, and that it is not too large for the compiler. *)
Record expression (lit nl : bool) (t : bytes) (e : re) : Prop := mkExpression {
  ex_string : is_string t;
  ex_parse : exists ps ts, pieces t ps /\ lexes lit nl (chars (map fst ps)) ts /\ parse OR ts e /\
    count_classes ts <= NCLASS;
  ex_ands : ands e <= NSTACK;
  ex_ators : ators e < NSTACK;
  ex_groups : groups e < NSUBEXP }.

Lemma regcomp1_coded lit nl t e post : expression lit nl t e -> is_bytes post ->
  exists f st, regcomp1_body (S (length (t ++ 0 :: post))) lit (dot nl)
    (regcomp1_start (t ++ 0 :: post)) = Rc f st /\ coded (co_classes st) f (co_insts st) e.
Proof.
  intros [Ht (ps & ts & Hps & Hlx & Hpa & Hcl) HA HO Hg] Hpost. set (s := t ++ 0 :: post).
  set (R := 5 + 6 * strlen s). set (k0 := mkCtx 0 false 0 s false [] 0 0).
  set (O := [(START - 1, 0)]). set (st := st_of [] O [] R k0).
  assert (spells post (exprp st) (chars (map fst ps))) as Hsp by (by exists t, ps).
  destruct (loop_run post Hpost lit nl ts _ st (S (length s)) Hlx Hsp eq_refl)
    as (xs & xe & Hxs & _ & El); [cbn; lia|pose proof (spells_length _ _ _ Hsp) as Hl; cbn in Hl;
      fold s in Hl; lia|].
  assert (size e + 2 <= 3 * strlen s) as Hsize.
  { pose proof (parse_size _ _ _ Hpa). pose proof (lexes_length _ _ _ _ Hlx).
    pose proof (chars_length _ _ Hps).
    unfold strlen, s. rewrite c_str_nul by apply Ht. lia. }
  destruct (parse_ok (lx_classes xe) R OR ts e Hpa xs Hxs [] O [] k0)
    as (A1 & O1 & P1 & k1 & P2 & f & lst & Er & Hk1 & _ & Hb1 & Hev & F & _ & Hl2).
  { unfold ready, O, k0. cbn [k_and k_sub k_bra length top_lt]. pose proof (measures e).
    split_and!; try done; try lia. }
  destruct (finish_run (lx_classes xe) P2 R (k_lex xe k1) f lst e 0 F)
    as (prg & k' & Ef & Hc & Hb & Hcls); [unfold R; cbn in *; lia|done|].
  exists f, (st_of [mkNode f (len P2)] O prg R k'). split; [|cbn; rewrite Hcls; exact Hc].
  unfold regcomp1_body. change (regcomp1_start s) with (st_of [] [] [] R k0).
  rc (pushator_run [] [] R k0 [] (START - 1) ltac:(done)).
  assert (regcomp1_loop (S (length s)) lit (dot nl) st = Rc tt (st_of A1 O1 P1 R (k_lex xe k1))) as El'
    by (rewrite El; by rc Er).
  rc El'.
  assert (evaluntil START (st_of A1 O1 P1 R (k_lex xe k1)) =
    Rc tt (st_of [mkNode f lst] O P2 R (k_lex xe k1))) as Ev by (rewrite Hev by done;
      by apply evaluntil_stays).
  rc Ev.
  destruct (bind_inv _ _ _ _ _ Ef) as ([] & st2 & E1 & E2). rc E1. rc E2.
  rc (static_run nbra (st_of [mkNode f (len P2)] O prg R k') 0 ltac:(cbn; rewrite Hb; exact Hb1)). done.
Qed.

(** ** After [optimize] *)

(** The program is the code for the expression, with the no-operations taken out. *)
Definition implements (p : Reprog) (e : re) : Prop :=
  exists prg, coded (rp_class p) (startinst p) prg e /\ partly prg (len prg - 1) (firstinst p).

Lemma optimize_coded CS f prg e : coded CS f prg e ->
  exists prg', optimize (length prg) 0 prg = Some prg' /\ partly prg (len prg - 1) prg'.
Proof.
  intros (hi & l & i & F & N & Hl & Hi & He). pose proof (frag_whole _ _ _ _ _ _ _ F N Hl Hi He) as Hw.
  pose proof (frag_range _ _ _ _ _ _ _ F).
  destruct (optimize_ok prg hi Hw (length prg) 0 prg) as (prg' & E & Hp); [|lia..|].
  - split_and!; [done|done|]. intros pc j Hpc Hj. apply load1_range in Hj. lia.
  - exists prg'. split; [done|]. by replace (len prg - 1) with hi by lia.
Qed.

Lemma regcomp1_implements lit nl t e post : expression lit nl t e -> is_bytes post ->
  exists p, regcomp1 (t ++ 0 :: post) lit (dot nl) = Program p /\ implements p e.
Proof.
  intros He Hpost. destruct (regcomp1_coded lit nl t e post He Hpost) as (f & st & E & Hc).
  destruct (optimize_coded _ _ _ _ Hc) as (prg' & Eo & Hp).
  exists (mkReprog f (co_classes st) prg'). split; [|by exists (co_insts st)]. unfold regcomp1.
  by rewrite E, Eo.
Qed.

(** The expression of the first instruction. *)
Fixpoint starts_with (e : re) : re :=
  match e with Cat e _ | Plus e => starts_with e | _ => e end.

Lemma frag_starts prg CS lo hi f l e : frag prg CS lo hi f l e -> exists i, load1 prg f = Some i /\
  if is_atom (starts_with e) then atom_inst CS i (starts_with e) else ri_type i = OR \/
    ri_type i = LBRA.
Proof.
  induction 1 as [lo i e Hi Ha|lo mid hi f1 l1 f2 l2 e1 e2 _ IH _ _ _| | |lo hi f l e u2 _ IH _ _| |];
    cbn [starts_with is_atom]; [|exact IH| | |exact IH| |]; try (eexists; split; [done|]; cbn; tauto).
  exists i. split; [done|]. by destruct e.
Qed.

Lemma reprog_eta p : p = mkReprog (startinst p) (rp_class p) (firstinst p).
Proof. by destruct p. Qed.

Section implements.
Context (p : Reprog) (e : re) (H : implements p e).

(** The instruction [pc] of the program is that of the code, but for where it goes on. *)
Lemma implements_inst pc i' prg : coded (rp_class p) (startinst p) prg e ->
  partly prg (len prg - 1) (firstinst p) -> inst_at p pc = Some i' ->
  exists i, load1 prg pc = Some i /\ ri_type i' = ri_type i /\ ri_u1 i' = ri_u1 i /\
    (i' = i /\ pc = len prg - 1 \/ optimized prg i i').
Proof.
  intros (hi & l & i & F & N & Hl & Hi & He) Hp E.
  pose proof (frag_whole _ _ _ _ _ _ _ F N Hl Hi He) as Hw.
  replace (len prg - 1) with hi in * by lia.
  exact (opt_inst prg (rp_class p) hi Hw (startinst p) (firstinst p) Hp pc i' E).
Qed.

Lemma implements_brackets : brackets_ok p.
Proof.
  destruct H as (prg & Hc & Hp). intros pc i' Hi' Hty.
  destruct (implements_inst pc i' prg Hc Hp Hi') as (i & Hi & Et & Eu & _). rewrite Eu.
  rewrite Et in Hty.
  destruct Hc as (hi & l & ie & F & N & Hl & Hie & He).
  pose proof (frag_whole _ _ _ _ _ _ _ F N Hl Hie He) as Hw.
  destruct (Z.eq_dec pc hi) as [->|Hne];
    [rewrite Hie in Hi; injection Hi as <-; rewrite He in Hty; by destruct Hty|].
  destruct (whole_inst _ _ Hw pc i Hi Hne) as (_ & Hb & _). destruct (Hb Hty) as (k & -> & ?).
  intros [= ->]. lia.
Qed.

Lemma implements_start : exists i, inst_at p (startinst p) = Some i /\
  if is_atom (starts_with e) then atom_inst (rp_class p) i (starts_with e) else ri_type i = OR \/
    ri_type i = LBRA.
Proof.
  destruct H as (prg & Hc & Hp). pose proof Hc as (hi & l & ie & F & N & Hl & Hie & He).
  pose proof (frag_range _ _ _ _ _ _ _ F).
  destruct (frag_starts _ _ _ _ _ _ _ F) as (i & Hi & Ha). pose proof (proj1 Hp) as El.
  destruct (load1_lt (firstinst p) (startinst p)) as (i' & Hi'); [lia|].
  destruct (implements_inst _ i' prg Hc Hp Hi') as (i0 & Hi0 & Et & Eu & _). rewrite Hi in Hi0.
  injection Hi0 as <-. exists i'. split; [exact Hi'|].
  destruct (is_atom (starts_with e)); [|by rewrite Et].
  destruct (starts_with e); cbn in *; rewrite ?Et, ?Eu; done.
Qed.

Lemma implements_accepts j text post t0 x k : is_bytes post -> at_string text post (starts j) t0 ->
  accept p j text x k <-> boundary j text x /\ matches j text e x k.
Proof.
  intros Hpost Hstart. destruct H as (prg & (hi & l & i & F & N & Hl & Hi & He) & Hp).
  replace (len prg - 1) with hi in Hp by lia. rewrite (reprog_eta p). by eapply code_accepts.
Qed.
End implements.

(** ** What an expression begins with *)

Lemma parse_starts l ts e : parse l ts e -> is_atom (starts_with e) = true ->
  TAtom (starts_with e) ∈ ts.
Proof.
  induction 1 as [l e Ha|l ts e _ IH|l op ts e e' _ IH Hl Hp|l ts1 ts2 e1 e2 _ IH1 _ IH2 _
    |l ts1 ts2 e1 e2 _ IH1 _ IH2 _]; cbn [starts_with].
  - intros _. replace (starts_with e) with e by (by destruct e). by left.
  - done.
  - apply post_op in Hp as [[-> ->]|[[-> ->]|[-> ->]]]; cbn; [done| |done]. intros Ha.
    apply elem_of_app. auto.
  - intros Ha. apply elem_of_app. auto.
  - done.
Qed.

Lemma chars_from rs c : c ∈ chars rs -> snd c ∈ rs.
Proof.
  revert c.
  assert (forall n rs c, (length rs <= n)%nat -> c ∈ chars rs -> snd c ∈ rs) as Hn; [|by eauto].
  intros n.
  induction n as [|n IH]; intros [|r rs'] c Hl; cbn in Hl |- *;
    [by intros ?%elem_of_nil|lia|by intros ?%elem_of_nil|].
  destruct (r =? 92).
  - destruct rs' as [|r' rs']; [by intros ?%elem_of_nil|]. cbn in Hl.
    intros [->|Hc]%elem_of_cons; [right; by left|]. do 2 right. apply IH; [lia|done].
  - intros [->|Hc]%elem_of_cons; [by left|]. right. apply IH; [lia|done].
Qed.

Lemma lexes_chars lit nl cs ts c : lexes lit nl cs ts -> TAtom (Chr c) ∈ ts -> exists q, (q, c) ∈ cs.
Proof.
  assert (forall cs spans cs', ranges cs spans cs' -> cs' ⊆ cs) as Hrl by (induction 1; set_solver).
  induction 1 as [|x cs ts _ _ IH|r cs ts _ _ _ IH|cs spans cs' ts _ _ Hr _ _ IH
    |cs spans cs' ts _ Hr _ _ IH]; intros Hc; [by apply elem_of_nil in Hc|..];
    apply elem_of_cons in Hc as [Hc|Hc]; try done;
      try (destruct (IH Hc) as (q & Hq); exists q; pose proof (Hrl); set_solver).
  - injection Hc as ->. exists (fst x). destruct x. by left.
  - exists false. assert (r = c) as ->; [|by left]. unfold token in Hc.
    repeat (destruct (_ =? _); [done|]). by injection Hc.
Qed.
