(* ===== verification/RegcompRoom.v ===== *)
(** * The room that a compiled expression needs

    Weights for the instructions of a compiled expression: how many threads one thread there can
    add. Loops whose body can take no character have none. *)

From stdpp Require Import strings.
From S2P Require Import Prelude Fcall Utf UtfString Regexec RegexecRun RegexecProps RegexecRoom.
From S2P Require Import Regcomp RegexLang RegexCode RegcompParse RegcompLex RegcompProps.
#[local] Open Scope Z_scope.

(** Every match has a character. *)
Fixpoint solid (e : re) : bool :=
  match e with
  | Chr _ | Dot _ | Class _ _ => true
  | Bol | Eol | Star _ | Opt _ => false
  | Cat e1 e2 => solid e1 || solid e2
  | Alt e1 e2 => solid e1 && solid e2
  | Plus e | Group e => solid e
  end.

(** The bodies of loops are solid. *)
Fixpoint loops_ok (e : re) : bool :=
  match e with
  | Cat e1 e2 | Alt e1 e2 => loops_ok e1 && loops_ok e2
  | Star e | Plus e => solid e && loops_ok e
  | Opt e | Group e => loops_ok e
  | _ => true
  end.

(** The weight of the first instruction, when the one after the expression weighs [c]. *)
Fixpoint cost (e : re) (c : Z) : Z :=
  match e with
  | Chr _ | Dot _ | Class _ _ => 1
  | Bol | Eol => c + 1
  | Cat e1 e2 => cost e1 (cost e2 c)
  | Alt e1 e2 => cost e1 c + cost e2 c
  | Star e => cost e 1 + c
  | Plus e => cost e (cost e 1 + c)
  | Opt e => cost e c + c
  | Group e => cost e (c + 1) + 1
  end.

(** The weights of the instructions of the code for the expression, in order. *)
Fixpoint weights (e : re) (c : Z) : list Z :=
  match e with
  | Chr _ | Dot _ | Class _ _ => [1]
  | Bol | Eol => [c + 1]
  | Cat e1 e2 => weights e1 (cost e2 c) ++ weights e2 c
  | Alt e1 e2 => weights e1 c ++ weights e2 c ++ [1; cost e1 c + cost e2 c]
  | Star e | Plus e => weights e (cost e 1 + c) ++ [cost e 1 + c]
  | Opt e => weights e c ++ [cost e c + c; 1]
  | Group e => weights e (c + 1) ++ [c + 1; cost e (c + 1) + 1]
  end.

(** The weight of the program for the expression. *)
Definition re_weight (e : re) : Z := foldr Z.add 1 (weights e 1).

Lemma cost_pos e : forall c, 1 <= c -> 1 <= cost e c.
Proof.
  induction e; cbn; intros c' Hc; eauto with lia.
  all: try (specialize (IHe1 c' Hc); specialize (IHe2 c' Hc); lia).
  all: try (specialize (IHe c' Hc); lia). all: try (apply IHe; specialize (IHe 1 ltac:(lia)); lia).
  specialize (IHe 1 ltac:(lia)); lia. specialize (IHe (c' + 1) ltac:(lia)); lia.
Qed.

Lemma solid_cost e : solid e = true -> forall c c', cost e c = cost e c'.
Proof.
  induction e as [| | | | |e1 IH1 e2 IH2|e1 IH1 e2 IH2|e IH|e IH|e IH|e IH]; cbn; try done;
    intros Hs c c'.
  - apply orb_true_iff in Hs as [Hs|Hs]; [by apply IH1|]. by rewrite (IH2 Hs c c').
  - apply andb_true_iff in Hs as [H1 H2]. by rewrite (IH1 H1 c c'), (IH2 H2 c c').
  - by apply IH.
  - by rewrite (IH Hs (c + 1) (c' + 1)).
Qed.

Lemma weights_pos e : forall c, 1 <= c -> Forall (fun x => 1 <= x) (weights e c).
Proof.
  induction e as [| | | | |e1 IH1 e2 IH2|e1 IH1 e2 IH2|e IH|e IH|e IH|e IH]; cbn; intros c' Hc;
    repeat first [apply Forall_app; split|constructor; [|]|constructor]; try apply IH1; try apply IH2;
      try apply IH;
    try apply cost_pos; try pose proof (cost_pos e1 c' Hc); try pose proof (cost_pos e2 c' Hc);
      try pose proof (cost_pos e c' Hc); try pose proof (cost_pos e 1 ltac:(lia));
        try pose proof (cost_pos e (c' + 1) ltac:(lia)); lia.
Qed.

Section code.
Context (prg : list Reinst) (CS : list Reclass) (w : Z -> Z).

(** The instruction weighs enough, for where it goes on without the no-operations. *)
Definition heavy (pc : Z) : Prop := forall i, load1 prg pc = Some i ->
  (ri_type i = LBRA \/ ri_type i = RBRA \/ ri_type i = BOL \/ ri_type i = EOL ->
    forall q t, ri_u2 i = Some q -> res prg q t -> w t + 1 <= w pc) /\
  (ri_type i = OR -> forall q q' t, ri_u1 i = Some q -> ri_u2 i = Some q' -> res prg q' t ->
    w q + w t <= w pc).

(** The weights of the instructions from [lo] on. *)
Definition weighs (lo : Z) (ws : list Z) : Prop := forall k x, ws !! k = Some x ->
  w (lo + Z.of_nat k) = x.

Lemma weighs_app lo ws ws' : weighs lo (ws ++ ws') -> weighs lo ws /\ weighs (lo + len ws) ws'.
Proof.
  intros H. split.
  - intros k x Hk. apply H. rewrite lookup_app_l; [done|]. by eapply lookup_lt_Some.
  - intros k x Hk. replace (lo + len ws + Z.of_nat k) with (lo + Z.of_nat (length ws + k)) by lia.
    apply H.
    rewrite lookup_app_r by lia. by replace (length ws + k - length ws)%nat with k by lia.
Qed.

Lemma frag_length lo hi f l e : frag prg CS lo hi f l e -> forall c, len (weights e c) = hi - lo.
Proof.
  induction 1 as [lo i e Hi Ha|lo mid hi f1 l1 f2 l2 e1 e2 _ IH1 _ IH2 _
    |lo mid hi f1 l1 f2 l2 e1 e2 u1 u2 _ IH1 _ IH2 _ _ _ _|lo hi f l e u2 _ IH _ _|lo hi f l e u2 _ IH
      _ _|lo hi f l e u1 u2 _ IH _ _ _|lo hi f l e k u2 _ IH _ _ _ _];
    intros c; cbn [weights]; [destruct e; cbn in Ha |- *; try done; lia|..]; rewrite ?length_app;
      cbn [length]; rewrite ?Nat2Z.inj_add, ?IH1, ?IH2, ?IH; lia.
Qed.

Lemma res_first q t : not_nop prg q -> res prg q t -> t = q.
Proof. intros H R. eapply res_det; [exact R|by constructor]. Qed.

Lemma res_nop q t u1 x : load1 prg q = Some (mkReinst NOP u1 (Some x)) -> res prg q t -> res prg x t.
Proof.
  intros Hq R.
  inversion R as [? (i & Hi & Hn)|? i q' ? Hi Hn Hq' R']; subst; rewrite Hq in Hi; injection Hi as <-;
    [done|].
  cbn in Hq'. by injection Hq' as <-.
Qed.

(** An instruction whose fields are known. *)
Lemma heavy_or pc a b x : load1 prg pc = Some (mkReinst OR (Some a) b) ->
  (forall q t, b = Some q -> res prg q t -> w t = x) -> w a + x <= w pc -> heavy pc.
Proof.
  intros Hi Hx Hw i Hi'. rewrite Hi in Hi'. injection Hi' as <-. split; [by intros [?|[?|[?|?]]]|].
  intros _ q q' t [= <-] Hq' R. cbn in Hq'. rewrite (Hx q' t Hq' R). done.
Qed.

Lemma heavy_nop pc u1 u2 : load1 prg pc = Some (mkReinst NOP u1 u2) -> heavy pc.
Proof.
  intros Hi i Hi'. rewrite Hi in Hi'. injection Hi' as <-. split; [by intros [?|[?|[?|?]]]|done].
Qed.

Lemma heavy_chain pc i x : load1 prg pc = Some i -> ri_type i <> OR ->
  (forall q t, ri_u2 i = Some q -> res prg q t -> w t = x) -> x + 1 <= w pc -> heavy pc.
Proof.
  intros Hi Hne Hx Hw i' Hi'. rewrite Hi in Hi'. injection Hi' as <-. split; [|done]. intros _ q t Hq R.
  rewrite (Hx q t Hq R). done.
Qed.

(** The weight after a piece of code. *)
Definition after (l c : Z) : Prop := forall i q t, load1 prg l = Some i -> ri_u2 i = Some q ->
  res prg q t -> w t = c.

Lemma after_next l x c : next prg l x -> (forall t, res prg x t -> w t = c) -> after l c.
Proof.
  intros (i & Hi & Hx) H i' q t Hi' Hq R. rewrite Hi in Hi'. injection Hi' as <-. rewrite Hx in Hq.
  injection Hq as <-. auto.
Qed.

Lemma after_nop l c u1 u2 t : load1 prg l = Some (mkReinst NOP u1 u2) -> after l c -> res prg l t ->
  w t = c.
Proof.
  intros Hl Ha R.
  inversion R as [? (i & Hi & Hn)|? i q' ? Hi Hn Hq' R']; subst; rewrite Hl in Hi; injection Hi as <-;
    [done|].
  by eapply Ha.
Qed.

Lemma weighs_code lo hi f l e c ws : frag prg CS lo hi f l e -> weighs lo (weights e c ++ ws) ->
  weighs lo (weights e c) /\ weighs hi ws.
Proof.
  intros F [H1 H2]%weighs_app. rewrite (frag_length _ _ _ _ _ F) in H2.
  by replace (lo + (hi - lo)) with hi in H2 by lia.
Qed.

(** The branch of a loop whose body is solid. *)
Lemma loop_heavy lo hi f l e u2 c : frag prg CS lo hi f l e ->
  (forall c, loops_ok e = true -> weighs lo (weights e c) -> after l c -> w f = cost e c /\
    forall pc, lo <= pc < hi -> heavy pc) ->
  next prg l hi -> load1 prg hi = Some (mkReinst OR (Some f) u2) -> solid e = true ->
    loops_ok e = true ->
  weighs lo (weights e (cost e 1 + c) ++ [cost e 1 + c]) -> after hi c ->
  w f = cost e (cost e 1 + c) /\ w hi = cost e 1 + c /\ forall pc, lo <= pc < hi + 1 -> heavy pc.
Proof.
  intros F IH N Ho Hs Hl Hw Haf. apply (weighs_code _ _ _ _ _ _ _ F) in Hw as [Hw1 Hw].
  pose proof (Hw 0%nat _ eq_refl) as Ew. rewrite Z.add_0_r in Ew.
  destruct (IH _ Hl Hw1) as [E1 H1].
  { eapply after_next; [exact N|]. intros t R. rewrite (res_first hi t); [done|by eexists|done]. }
  split_and!; [done|done|]. intros pc Hpc.
  assert (lo <= pc < hi \/ pc = hi) as [?| ->] by lia; [by apply H1|].
  eapply (heavy_or _ _ _ c); [exact Ho|intros q t; by apply (Haf _ q t Ho)|].
  rewrite Ew, E1, (solid_cost e Hs _ 1). lia.
Qed.

Lemma atom_heavy lo i e c : load1 prg lo = Some i -> atom_inst CS i e -> weighs lo (weights e c) ->
  after lo c ->
  w lo = cost e c /\ forall pc, lo <= pc < lo + 1 -> heavy pc.
Proof.
  intros Hi Ha Hw Haf.
  assert (w lo = cost e c) as Ew by (rewrite <- (Z.add_0_r lo); apply (Hw 0%nat); by destruct e).
  split; [done|]. intros pc Hpc. replace pc with lo by lia.
  destruct (atom_type _ _ _ Ha) as (_ & _ & Ho & Hlb & Hrb).
  assert (e = Bol \/ e = Eol \/ ri_type i <> BOL /\ ri_type i <> EOL) as [->|[->|[? ?]]].
  { destruct e as [c'|[]|[] sp| | | | | | | |]; cbn in Ha; try done;
      [destruct Ha as [-> _]|rewrite Ha|rewrite Ha|destruct Ha as [-> _]|destruct Ha as [-> _]|by left
        |by right; left]; right; right; done.
    }
  1, 2: eapply (heavy_chain lo i c); [done|done|intros q t; by apply Haf|rewrite Ew; cbn; lia].
  intros i' Hi'. rewrite Hi in Hi'. injection Hi' as <-. split; [|done]. by intros [?|[?|[?|?]]].
Qed.

Lemma frag_heavy lo hi f l e : frag prg CS lo hi f l e -> forall c, loops_ok e = true ->
  weighs lo (weights e c) -> after l c ->
  w f = cost e c /\ forall pc, lo <= pc < hi -> heavy pc.
Proof.
  induction 1 as [lo i e Hi Ha|lo mid hi f1 l1 f2 l2 e1 e2 F1 IH1 F2 IH2 N1
    |lo mid hi f1 l1 f2 l2 e1 e2 u1 u2 F1 IH1 F2 IH2 N1 N2 Hn Ho
    |lo hi f l e u2 F IH N Ho|lo hi f l e u2 F IH N Ho|lo hi f l e u1 u2 F IH N Ho Hn|lo hi f l e k u2
      F IH N Hk Hr Hl];
    intros c Hlo Hw Haf; cbn [loops_ok weights cost] in *.
  - by eapply atom_heavy.
  - apply andb_true_iff in Hlo as [Hl1 Hl2]. apply weighs_app in Hw as [Hw1 Hw2].
    rewrite (frag_length _ _ _ _ _ F1) in Hw2. replace (lo + (mid - lo)) with mid in Hw2 by lia.
    destruct (IH2 c Hl2 Hw2 Haf) as [E2 H2]. destruct (IH1 (cost e2 c) Hl1 Hw1) as [E1 H1].
    { eapply after_next; [exact N1|]. intros t R.
      rewrite (res_first f2 t); [done|by eapply frag_first|done]. }
    split; [done|]. intros pc Hpc. destruct (Z.lt_ge_cases pc mid); [apply H1|apply H2]; lia.
  - apply andb_true_iff in Hlo as [Hl1 Hl2]. apply (weighs_code _ _ _ _ _ _ _ F1) in Hw as [Hw1 Hw].
    apply (weighs_code _ _ _ _ _ _ _ F2) in Hw as [Hw2 Hw].
    assert (forall t, res prg hi t -> w t = c) as Hnop by (intros t R; by eapply after_nop).
    destruct (IH1 c Hl1 Hw1) as [E1 H1]; [by eapply after_next|].
    destruct (IH2 c Hl2 Hw2) as [E2 H2]; [by eapply after_next|].
    pose proof (Hw 1%nat _ eq_refl) as Ew. change (Z.of_nat 1) with 1 in Ew. split; [done|].
    intros pc Hpc.
    assert (lo <= pc < mid \/ mid <= pc < hi \/ pc = hi \/ pc = hi + 1) as [?|[?|[->| ->]]] by lia;
      [by apply H1|by apply H2|by eapply heavy_nop|].
    eapply (heavy_or _ _ _ (cost e2 c)); [exact Ho| |lia]. intros q t [= <-] R.
    by rewrite (res_first f2 t (frag_first _ _ _ _ _ _ _ F2) R).
  - apply andb_true_iff in Hlo as [Hs Hl].
    destruct (loop_heavy _ _ _ _ _ _ _ F IH N Ho Hs Hl Hw Haf) as (_ & Ew & Hh). done.
  - apply andb_true_iff in Hlo as [Hs Hl].
    destruct (loop_heavy _ _ _ _ _ _ _ F IH N Ho Hs Hl Hw Haf) as (Ew & _ & Hh). done.
  - apply (weighs_code _ _ _ _ _ _ _ F) in Hw as [Hw1 Hw].
    assert (forall t, res prg (hi + 1) t -> w t = c) as Hnop by (intros t R; by eapply after_nop).
    destruct (IH c Hlo Hw1) as [E1 H1]; [by eapply after_next|]. pose proof (Hw 0%nat _ eq_refl) as Ew.
    rewrite Z.add_0_r in Ew. split; [done|]. intros pc Hpc.
    assert (lo <= pc < hi \/ pc = hi \/ pc = hi + 1) as [?|[->| ->]] by lia;
      [by apply H1| |by eapply heavy_nop].
    eapply (heavy_or _ _ _ c); [exact Ho| |lia]. intros q t [= <-] R. auto.
  - apply (weighs_code _ _ _ _ _ _ _ F) in Hw as [Hw1 Hw]. pose proof (Hw 0%nat _ eq_refl) as Ew0.
    pose proof (Hw 1%nat _ eq_refl) as Ew1. change (Z.of_nat 1) with 1 in Ew1. rewrite Z.add_0_r in Ew0.
    destruct (IH (c + 1) Hlo Hw1) as [E1 H1].
    { eapply after_next; [exact N|]. intros t R. rewrite (res_first hi t); [done|by eexists|done]. }
    split; [done|]. intros pc Hpc.
    assert (lo <= pc < hi \/ pc = hi \/ pc = hi + 1) as [?|[->| ->]] by lia; [by apply H1|..].
    + eapply (heavy_chain hi _ c); [exact Hr|done|intros q t; by apply (Haf _ q t Hr)|lia].
    + eapply (heavy_chain (hi + 1) _ (cost e (c + 1))); [exact Hl|done| |lia]. intros q t [= <-] R.
      by rewrite (res_first f t (frag_first _ _ _ _ _ _ _ F) R).
Qed.
Lemma frag_class lo hi f l e : frag prg CS lo hi f l e -> forall pc i, lo <= pc < hi ->
  load1 prg pc = Some i -> ri_type i = CCLASS \/ ri_type i = NCCLASS ->
  exists k c, ri_u1 i = Some k /\ load1 CS k = Some c.
Proof.
  induction 1 as [lo i0 e Hi Ha|lo mid hi f1 l1 f2 l2 e1 e2 F1 IH1 F2 IH2 N1
    |lo mid hi f1 l1 f2 l2 e1 e2 u1 u2 F1 IH1 F2 IH2 N1 N2 Hn Ho
    |lo hi f l e u2 F IH N Ho|lo hi f l e u2 F IH N Ho|lo hi f l e u1 u2 F IH N Ho Hn|lo hi f l e k u2
      F IH N Hk Hr Hl]; intros pc i Hpc Hpi Hty.
  - replace pc with lo in Hpi by lia. rewrite Hi in Hpi. injection Hpi as <-.
    destruct e as [c'|[]|neg sp| | | | | | | |]; cbn in Ha; try done.
    4: destruct Ha as (_ & k & c & Hk & Hc & _); by exists k, c. 1: destruct Ha as [Ha _].
    all: rewrite Ha in Hty; by destruct Hty.
  - destruct (Z.lt_ge_cases pc mid); [eapply IH1|eapply IH2]; eauto; lia.
  - assert (lo <= pc < mid \/ mid <= pc < hi \/ pc = hi \/ pc = hi + 1) as [?|[?|[->| ->]]] by lia;
      [by eapply IH1|by eapply IH2|rewrite Hn in Hpi|rewrite Ho in Hpi]; injection Hpi as <-;
        by destruct Hty.
  - assert (lo <= pc < hi \/ pc = hi) as [?| ->] by lia; [by eapply IH|rewrite Ho in Hpi];
      injection Hpi as <-; by destruct Hty.
  - assert (lo <= pc < hi \/ pc = hi) as [?| ->] by lia; [by eapply IH|rewrite Ho in Hpi];
      injection Hpi as <-; by destruct Hty.
  - assert (lo <= pc < hi \/ pc = hi \/ pc = hi + 1) as [?|[->| ->]] by lia;
      [by eapply IH|rewrite Ho in Hpi|rewrite Hn in Hpi]; injection Hpi as <-; by destruct Hty.
  - assert (lo <= pc < hi \/ pc = hi \/ pc = hi + 1) as [?|[->| ->]] by lia;
      [by eapply IH|rewrite Hr in Hpi|rewrite Hl in Hpi]; injection Hpi as <-; by destruct Hty.
Qed.
End code.

(** ** Compiled programs *)

Definition weight_of (e : re) (pc : Z) : Z := default 1 (load1 (weights e 1) pc).

Lemma weight_total e n : n = len (weights e 1) + 1 -> wsum (weight_of e) (seqZ 0 n) = re_weight e.
Proof.
  intros ->.
  assert (forall l, wsum (weight_of e) l = foldr Z.add 0 (map (weight_of e) l)) as Ew
    by (intros l; unfold wsum; induction l as [|a l IH]; cbn; [done|by rewrite IH]).
  rewrite Ew.
  assert (map (weight_of e) (seqZ 0 (len (weights e 1) + 1)) = weights e 1 ++ [1]) as ->.
  { apply list_eq. intros i. rewrite list_lookup_fmap.
    destruct (decide (i < length (weights e 1) + 1)%nat) as [Hi|Hi].
    - rewrite lookup_seqZ_lt by lia. cbn [fmap option_fmap option_map]. rewrite Z.add_0_l.
      unfold weight_of, load1. rewrite (proj2 (Z.leb_le _ _)), Nat2Z.id by lia.
      destruct (decide (i < length (weights e 1))%nat) as [Hlt|].
      + rewrite lookup_app_l by done. destruct (lookup_lt_is_Some_2 _ _ Hlt) as [x ->]. done.
      + rewrite lookup_app_r by lia. replace (i - length (weights e 1))%nat with 0%nat by lia.
        by rewrite lookup_ge_None_2 by lia.
    - rewrite lookup_seqZ_ge by lia. rewrite lookup_ge_None_2; [done|]. rewrite length_app. cbn. lia. }
  unfold re_weight. by rewrite foldr_app.
Qed.

Lemma weight_of_weighs e : weighs (weight_of e) 0 (weights e 1).
Proof.
  intros k x Hk. unfold weight_of, load1. rewrite (proj2 (Z.leb_le _ _)) by lia.
  by rewrite Z.add_0_l, Nat2Z.id, Hk.
Qed.

Lemma weight_of_pos e pc : 1 <= weight_of e pc.
Proof.
  unfold weight_of, load1. destruct (0 <=? pc); [|done]. pose proof (weights_pos e 1 ltac:(lia)) as H.
  rewrite Forall_lookup in H.
  destruct (weights e 1 !! Z.to_nat pc) as [x|] eqn:E; [|done]. cbn. by eapply H.
Qed.

(** An instruction of the program but the last one goes on where that of the code does. *)
Lemma implements_next p e prg hi ie : coded (rp_class p) (startinst p) prg e ->
  partly prg (len prg - 1) (firstinst p) ->
  len prg = hi + 1 -> load1 prg hi = Some ie -> ri_type ie = END ->
    forall pc i', inst_at p pc = Some i' ->
  ri_type i' = END \/ exists i q t, load1 prg pc = Some i /\ 0 <= pc < hi /\ ri_type i' = ri_type i /\
    ri_u1 i' = ri_u1 i /\
    ri_u2 i = Some q /\ res prg q t /\ ri_u2 i' = Some t.
Proof.
  intros Hc Hp Hl Hie He pc i' Hi'.
  destruct (implements_inst p e pc i' prg Hc Hp Hi')
    as (i & Hi & Et & Eu & [[-> Epc]|(q & t & Hq & R & E')]).
  - left. replace pc with hi in Hi by lia. rewrite Hie in Hi. by injection Hi as <-.
  - destruct (Z.eq_dec pc hi) as [->|]; [left; rewrite Hie in Hi; injection Hi as <-; by rewrite Et|].
    right. exists i, q, t.
    apply load1_range in Hi as Hi2. split_and!; try done; try lia. by rewrite E'.
Qed.

Lemma implements_ok p e : implements p e -> loops_ok e = true -> prog_ok p (weight_of e) /\
  weight p (weight_of e) = re_weight e.
Proof.
  intros (prg & Hc & Hp) Hlo. pose proof Hc as (hi & l & ie & F & N & Hl & Hie & He).
  pose proof (frag_whole _ _ _ _ _ _ _ F N Hl Hie He) as Hw.
  pose proof (frag_range _ _ _ _ _ _ _ F) as Hr. pose proof (frag_length _ _ _ _ _ _ _ F 1) as Hlen.
  pose proof (proj1 Hp) as El.
  assert (forall t, not_nop prg t -> is_Some (inst_at p t)) as Hin.
  { intros t (i & Hi & _). apply load1_range in Hi as [Ht _].
    destruct (load1_lt (firstinst p) t) as (i' & Hi'); [lia|]. by exists i'. }
  destruct (frag_heavy prg (rp_class p) (weight_of e) 0 hi (startinst p) l e F 1 Hlo
    (weight_of_weighs e)) as [Ef Hh].
  { eapply after_next; [exact N|]. intros t R.
    rewrite (res_first prg hi t); [|exists ie; split; [done|by rewrite He]|done].
    unfold weight_of, load1. rewrite (proj2 (Z.leb_le _ _)) by lia. by rewrite lookup_ge_None_2 by lia.
    }
  pose proof (implements_next p e prg hi ie Hc Hp Hl Hie He) as Hinst.
  split; [|unfold weight; apply weight_total; lia]. constructor.
  - intros pc i' Hi'.
    destruct (Hinst pc i' Hi') as [E|(i & q & t & Hi & Hpc & Et & Eu & Hq & R & Hq')];
      [split_and!; rewrite E; [by intros [|]..|done]|].
    destruct (whole_inst _ _ Hw pc i Hi ltac:(lia)) as (_ & Hb & Hor & _). unfold operand_ok.
    rewrite Et, Eu. split_and!; [done| |].
    + intros Hty. by eapply frag_class.
    + intros Hty. destruct (Hor Hty) as (k & ? & _). by exists k.
  - intros pc i' Hi' Hne.
    destruct (Hinst pc i' Hi') as [E|(i & q & t & Hi & Hpc & Et & Eu & Hq & R & Hq')]; [done|].
    exists t. split; [done|]. apply Hin. by eapply res_not_nop.
  - intros pc i' q' Hi' Hty Hq'.
    destruct (Hinst pc i' Hi') as [E|(i & q & t & Hi & Hpc & Et & Eu & Hq & R & _)];
      [by rewrite E in Hty|].
    destruct (whole_inst _ _ Hw pc i Hi ltac:(lia)) as (_ & _ & Hor & _).
    destruct (Hor ltac:(congruence)) as (k & Ek & Hk). apply Hin. congruence.
  - apply Hin. by eapply frag_first.
  - apply weight_of_pos.
  - intros pc i' q' Hi' Hty Hq'.
    destruct (Hinst pc i' Hi') as [E|(i & q & t & Hi & Hpc & Et & Eu & Hq & R & Hq2)];
      [rewrite E in Hty; by destruct Hty as [|[|[|]]]|].
    rewrite Hq2 in Hq'. injection Hq' as <-. rewrite Et in Hty. by eapply (proj1 (Hh pc Hpc i Hi)).
  - intros pc i' q1 q' Hi' Hty Hq1 Hq'.
    destruct (Hinst pc i' Hi') as [E|(i & q & t & Hi & Hpc & Et & Eu & Hq & R & Hq2)];
      [by rewrite E in Hty|].
    rewrite Hq2 in Hq'. injection Hq' as <-. rewrite Et in Hty. rewrite Eu in Hq1.
    by eapply (proj2 (Hh pc Hpc i Hi)).
Qed.
