(* ===== verification/RegexpProps.v ===== *)
(** * Regular expressions, from the string to the match

    The theorems on [libregexp]: what [regcomp] makes of an expression, what [regexec] finds with
    it, when it returns, and where it does not do what the expression says. *)

From stdpp Require Import strings.
From S2P Require Import Prelude Fcall Utf UtfString Regexec RegexecRun RegexecProps RegexecRoom.
From S2P Require Import Regcomp RegexLang RegexCode RegcompParse RegcompLex RegcompProps.
From S2P Require Import RegcompRoom.
#[local] Open Scope Z_scope.

(** ** Searching for an expression *)

(** Searches of which the check of the first character is right: the expression does not begin
    with the start of a line, and no end is given to one that begins with an ASCII character. *)
Definition searchable (e : re) (eol : option Z) : Prop :=
  starts_with e <> Bol /\ (eol = None \/ forall c, starts_with e = Chr c -> Runeself <= c).

Lemma expression_chr lit nl t e c : expression lit nl t e -> starts_with e = Chr c -> 0 < c.
Proof.
  intros [Ht (ps & ts & Hps & Hlx & Hpa & _) _ _ _] Hs. pose proof (parse_starts _ _ _ Hpa) as Hin.
  rewrite Hs in Hin.
  destruct (lexes_chars _ _ _ _ _ Hlx (Hin eq_refl)) as (q & Hq). apply chars_from in Hq. cbn in Hq.
  clear - Ht Hps Hq.
  induction Hps as [|r t ps Hr _ IH|b t ps Hn _ IH]; cbn in Hq; [by apply elem_of_nil in Hq|..];
    destruct Ht as [Hb Hz]; apply elem_of_cons in Hq as [->|Hq].
  - destruct (Z.eq_dec r 0) as [->|]; [|unfold is_rune in Hr; lia]. apply Forall_app in Hz as [Hz _].
    by inversion Hz.
  - apply IH; [|done]. apply Forall_app in Hb as [_ ?], Hz as [_ ?]. by split.
  - done.
  - apply IH; [|done]. apply Forall_cons in Hb as [_ ?], Hz as [_ ?]. by split.
Qed.

Lemma searchable_check p e mp ms j : implements p e -> (forall c, starts_with e = Chr c -> 0 < c) ->
  exec_junk p mp ms = Ran j -> searchable e (j_eol j) -> check_ok p j.
Proof.
  intros Hp Hc E [Hbol Heol]. destruct (implements_start p e Hp) as (i & Hi & Ha).
  unfold exec_junk in E. apply ran_bind_inv in E as (x & _ & E).
  apply ran_bind_inv in E as (i' & Ei%valid_inv & E). unfold inst_at in Hi. rewrite Hi in Ei.
  injection Ei as <-. apply ran_bind_inv in E as (c & Ec & [= <-]).
  destruct (Z.eqb_spec (ri_type i) RUNE) as [Ety|Ety].
  - apply valid_inv in Ec. destruct (Z.ltb_spec c Runeself) as [Hlt|Hge].
    + right. assert (starts_with e = Chr c) as Es.
      { destruct (is_atom (starts_with e)) eqn:Eat; [|rewrite Ety in Ha; by destruct Ha].
        destruct (starts_with e) as [c'|[]|[] sp| | | | | | | |]; cbn in Ha; rewrite ?Ety in Ha;
          try done; try (by destruct Ha).
        destruct Ha as [_ Eu]. congruence. }
      split_and!; [done| |by apply Hc|done|by exists i]. cbn [j_eol] in *.
      destruct Heol as [?|H]; [done|]. specialize (H c Es). lia.
    + left. cbn. by rewrite Ety.
  - left. injection Ec as <-. cbn. destruct (Z.eqb_spec (ri_type i) BOL) as [Eb|]; [|done]. exfalso.
    apply Hbol.
    destruct (is_atom (starts_with e)) eqn:Eat; [|rewrite Eb in Ha; by destruct Ha].
    by destruct (starts_with e) as [c'|[]|[] sp| | | | | | | |]; cbn in Ha; rewrite ?Eb in Ha; try done;
      try (by destruct Ha).
Qed.

(** The match that begins first, and of these the longest one. *)
Definition found (e : re) (j : Reljunk) (text : bytes) (best : option (Z * Z)) : Prop :=
  (forall b k, best = Some (b, k) -> boundary j text b /\ matches j text e b k) /\
  forall x k, boundary j text x -> matches j text e x k -> best_le best x k.

Lemma leftmost_found p e j text post t0 best : implements p e -> is_bytes post ->
  at_string text post (starts j) t0 ->
  leftmost_longest p j text best <-> found e j text best.
Proof.
  intros Hp Hpost Hst.
  pose proof (fun x k => implements_accepts p e Hp j text post t0 x k Hpost Hst) as Ha.
  split; intros [H1 H2]; split.
  - intros b k Hb. by apply Ha, H1.
  - intros x k Hx Hm. by apply H2, Ha.
  - intros b k Hb. by apply Ha, H1.
  - intros x k [Hx Hm]%Ha. by apply H2.
Qed.

Lemma implements_finds p e text post t0 mp ms j stack heap rv mp' :
  implements p e -> (forall c, starts_with e = Chr c -> 0 < c) -> exec_junk p mp ms = Ran j ->
    at_string text post (starts j) t0 -> is_bytes post -> searchable e (j_eol j) ->
  arrays_ok (fst stack) -> arrays_ok (snd stack) ->
    (forall h, heap = Some h -> arrays_ok (fst h) /\ arrays_ok (snd h)) ->
  regexec p text mp ms stack heap = Ran (rv, mp') ->
  exists best, found e j text best /\ rv = match best with Some _ => true | None => false end /\
    mp_ok ms mp' best.
Proof.
  intros Hp Hc Hj Hst Hpost Hs Ha0 Ha1 Hh E. pose proof (searchable_check _ _ _ _ _ Hp Hc Hj Hs) as Hck.
  pose proof (implements_brackets p e Hp) as Hb.
  assert (forall l0 l1, arrays_ok l0 -> arrays_ok l1 -> regexec1 p ms j text mp l0 l1 = Ran (rv, mp') ->
    exists best, found e j text best /\ rv = match best with Some _ => true | None => false end /\
      mp_ok ms mp' best) as Hrun.
  { intros l0 l1 H0 H1 E1.
    destruct (regexec1_ok p ms j text post Hpost t0 Hst Hb mp l0 l1 rv mp' Hck H0 H1 E1)
      as (best & Hl & Hr).
    exists best. split; [|done]. by eapply leftmost_found. }
  unfold regexec in E. rewrite Hj in E. cbn [mbind ran_bind] in E.
  destruct (regexec1 p ms j text mp (fst stack) (snd stack)) as [x| | |] eqn:E1; [|..]; try done.
  - injection E as ->. exact (Hrun _ _ Ha0 Ha1 E1).
  - unfold regexec2 in E. destruct heap as [h|]; [|done]. destruct (Hh h eq_refl) as [H0 H1].
    exact (Hrun _ _ H0 H1 E).
Qed.

(** The arrays are those of the stack or of the heap. *)
Definition arrays (n : Z) (l : list Relist * list Relist) : Prop :=
  len (fst l) = n /\ len (snd l) = n /\ arrays_ok (fst l) /\ arrays_ok (snd l).

Lemma implements_runs p e text post t0 mp ms j l n :
  implements p e -> (forall c, starts_with e = Chr c -> 0 < c) -> exec_junk p mp ms = Ran j ->
    at_string text post (starts j) t0 -> is_bytes post -> searchable e (j_eol j) ->
  loops_ok e = true -> re_weight e <= n - 3 -> arrays n l ->
    exists x, regexec1 p ms j text mp (fst l) (snd l) = Ran x.
Proof.
  intros Hp Hc Hj Hst Hpost Hs Hlo Hw (E0 & E1 & H0 & H1).
  destruct (implements_ok p e Hp Hlo) as [Hok Ew].
  pose proof (searchable_check _ _ _ _ _ Hp Hc Hj Hs) as Hck.
  eapply (regexec1_runs p (weight_of e) Hok ms j text post t0); try done; rewrite Ew; lia.
Qed.

(** ** The theorems *)

(** C25: [bldcclass] reads a class of characters up to its bracket, when the ranges fit: the class
    that it adds holds exactly the characters of the ranges, and the newline if it is negated,
    although the ranges were sorted and merged. *)
Theorem bldcclass_correct post st neg spans cs cs' :
  is_bytes post -> ranges cs spans cs' ->
    spells post (exprp st) (if neg : bool then (false, 94) :: cs else cs) -> lexdone st = false ->
  (neg = false -> head cs <> Some (false, 94)) -> len spans <= (if neg then 30 else 31) ->
    len (co_classes st) < NCLASS ->
  exists e c, bldcclass st = Rc (if neg then NCCLASS else CCLASS)
      (st <| yyclassp := len (co_classes st) |> <| exprp := e |> <| co_classes :=
        co_classes st ++ [c] |>) /\
    spells post e cs' /\ forall r, in_class c r = (neg && (r =? 10)) || in_class spans r.
Proof. intros Hp. exact (class_ok post Hp st neg spans cs cs'). Qed.

(** [regcompnl] or [regcomp]: whether [.] takes the newline too. *)
Definition regcomp_nl (nl : bool) (s : bytes) : compiled := if nl then regcompnl s else regcomp s.

Lemma regcomp_nl_1 nl s : regcomp_nl nl s = regcomp1 s false (dot nl).
Proof. by destruct nl. Qed.

(** C4: [regcomp] and [regcompnl] of a string that is an expression return a program, and the
    program takes exactly what the expression matches, from every position of every string. The
    expressions are those that fit the stacks of the compiler and have, of several postfix
    operators in a row, [?] before [+] before [*]. *)
Theorem regcomp_correct nl t e post : expression false nl t e -> is_bytes post ->
  exists p, regcomp_nl nl (t ++ 0 :: post) = Program p /\
    forall j text tpost t0 x k, is_bytes tpost -> at_string text tpost (starts j) t0 ->
      accept p j text x k <-> boundary j text x /\ matches j text e x k.
Proof.
  intros He Hpost. destruct (regcomp1_implements false nl t e post He Hpost) as (p & Ep & Hp). exists p.
  split; [by rewrite regcomp_nl_1|].
  intros j text tpost t0 x k Ht Hst. by eapply implements_accepts.
Qed.

(** [regexec1] with any program, when it returns: there is a match exactly when the automaton
    has one, and the first element of [mp] is then the leftmost and of these the longest one. *)
Theorem regexec1_leftmost_longest progp ms j text post t0 mp relist0 relist1 rv mp' :
  is_bytes post -> at_string text post (starts j) t0 -> brackets_ok progp -> check_ok progp j ->
    arrays_ok relist0 -> arrays_ok relist1 ->
  regexec1 progp ms j text mp relist0 relist1 = Ran (rv, mp') ->
  exists best, leftmost_longest progp j text best /\
    rv = match best with Some _ => true | None => false end /\ mp_ok ms mp' best.
Proof.
  intros Hpost Hst Hb.
  exact (regexec1_ok progp ms j text post Hpost t0 Hst Hb mp relist0 relist1 rv mp').
Qed.

(** C5: [regexec] with an expression compiled by [regcomp] or [regcompnl], when it returns, has found
    the leftmost and longest match of the expression from the start of the search on, or there
    is none; provided that the expression is [searchable]: it does not begin with [^], and no end
    is given for the search if it begins with an ASCII character. *)
Theorem regexec_finds nl t e tpost p text post t0 mp ms j stack heap rv mp' :
  expression false nl t e -> is_bytes tpost -> regcomp_nl nl (t ++ 0 :: tpost) = Program p ->
  exec_junk p mp ms = Ran j -> at_string text post (starts j) t0 -> is_bytes post ->
    searchable e (j_eol j) ->
  arrays LISTSIZE stack -> (forall h, heap = Some h -> arrays BIGLISTSIZE h) ->
  regexec p text mp ms stack heap = Ran (rv, mp') ->
  exists best, found e j text best /\ rv = match best with Some _ => true | None => false end /\
    mp_ok ms mp' best.
Proof.
  intros He Htp Ep Hj Hst Hpost Hs (_ & _ & H0 & H1) Hh E.
  destruct (regcomp1_implements false nl t e tpost He Htp) as (p' & Ep' & Hp). rewrite <- regcomp_nl_1, Ep in Ep'.
  injection Ep' as <-.
  eapply implements_finds; try done; [intros c; by eapply expression_chr|]. intros h Hs'.
  by destruct (Hh h Hs') as (_ & _ & ?).
Qed.

(** C10: when the bodies of its loops take characters, its weight fits the arrays of the stack and it
    is [searchable] (it does not begin with [^], and no end is given for the search if it begins
    with an ASCII character), [regexec] of a compiled expression returns, with the leftmost and
    longest match. *)
Theorem regexec_returns nl t e tpost p text post t0 mp ms j stack heap :
  expression false nl t e -> is_bytes tpost -> regcomp_nl nl (t ++ 0 :: tpost) = Program p ->
  exec_junk p mp ms = Ran j -> at_string text post (starts j) t0 -> is_bytes post ->
    searchable e (j_eol j) ->
  loops_ok e = true -> re_weight e <= LISTSIZE - 3 -> arrays LISTSIZE stack ->
  exists rv mp' best, regexec p text mp ms stack heap = Ran (rv, mp') /\
    found e j text best /\ rv = match best with Some _ => true | None => false end /\ mp_ok ms mp' best.
Proof.
  intros He Htp Ep Hj Hst Hpost Hs Hlo Hw Ha.
  destruct (regcomp1_implements false nl t e tpost He Htp) as (p' & Ep' & Hp). rewrite <- regcomp_nl_1, Ep in Ep'.
  injection Ep' as <-.
  assert (forall c, starts_with e = Chr c -> 0 < c) as Hc by (intros c; by eapply expression_chr).
  destruct (implements_runs p e text post t0 mp ms j stack LISTSIZE) as ([rv mp'] & E); try done.
  assert (regexec p text mp ms stack None = Ran (rv, mp')) as E0
    by (unfold regexec; rewrite Hj; cbn [mbind ran_bind]; by rewrite E).
  destruct Ha as (_ & _ & H0 & H1).
  destruct (implements_finds p e text post t0 mp ms j stack None rv mp') as (best & Hb); try done.
  exists rv, mp', best. split; [|done]. unfold regexec. rewrite Hj. cbn [mbind ran_bind]. by rewrite E.
Qed.

(** C24: with the arrays of [regexec2] the run returns, with the leftmost and longest match, for every
    compiled expression of weight up to 247 whose loops take characters and which is [searchable]:
    it does not begin with [^], and no end is given for the search if it begins with an ASCII
    character. *)
Theorem regexec2_returns nl t e tpost p text post t0 mp ms j heap :
  expression false nl t e -> is_bytes tpost -> regcomp_nl nl (t ++ 0 :: tpost) = Program p ->
  exec_junk p mp ms = Ran j -> at_string text post (starts j) t0 -> is_bytes post ->
    searchable e (j_eol j) ->
  loops_ok e = true -> re_weight e <= BIGLISTSIZE - 3 -> arrays BIGLISTSIZE heap ->
  exists rv mp' best, regexec2 p ms j text mp (Some heap) = Ran (rv, mp') /\
    found e j text best /\ rv = match best with Some _ => true | None => false end /\ mp_ok ms mp' best.
Proof.
  intros He Htp Ep Hj Hst Hpost Hs Hlo Hw Ha.
  destruct (regcomp1_implements false nl t e tpost He Htp) as (p' & Ep' & Hp). rewrite <- regcomp_nl_1, Ep in Ep'.
  injection Ep' as <-.
  assert (forall c, starts_with e = Chr c -> 0 < c) as Hc by (intros c; by eapply expression_chr).
  destruct (implements_runs p e text post t0 mp ms j heap BIGLISTSIZE) as ([rv mp'] & E); try done.
  destruct Ha as (_ & _ & H0 & H1).
  destruct (regexec1_ok p ms j text post Hpost t0 Hst (implements_brackets p e Hp) mp (fst heap)
    (snd heap) rv mp' (searchable_check _ _ _ _ _ Hp Hc Hj Hs) H0 H1 E) as (best & Hl & Hr & Hm).
  exists rv, mp', best. split_and!; try done. by eapply leftmost_found.
Qed.

(** ** Witnesses *)

(** [[b-da]+x] and [(a|b)*c] *)
Definition ex_class : bytes := [91; 98; 45; 100; 97; 93; 43; 120].
Definition ex_class_re : re := Cat (Plus (Class false [(98, 100); (97, 97)])) (Chr 120).
Definition ex_alt : bytes := [40; 97; 124; 98; 41; 42; 99].
Definition ex_alt_re : re := Cat (Star (Group (Alt (Chr 97) (Chr 98)))) (Chr 99).

Lemma bytes_string t : forallb (fun b => (0 <? b) && (b <? 256)) t = true -> is_string t.
Proof.
  intros H.
  split; apply Forall_forall; intros b Hb; rewrite forallb_forall in H; apply list_elem_of_In in Hb;
    specialize (H b Hb);
    apply andb_true_iff in H as [H1%Z.ltb_lt H2%Z.ltb_lt]; [unfold in_u; lia|lia].
Qed.

Lemma pieces_ascii t : forallb (fun b => (0 <? b) && (b <? 128)) t = true ->
  pieces t (map (fun b => (b, [b])) t).
Proof.
  intros H. assert (t = utf8s t) as E.
  { induction t as [|b t IH]; [done|]. cbn in H.
    apply andb_true_iff in H as [[H1%Z.ltb_lt H2%Z.ltb_lt]%andb_true_iff H].
    rewrite utf8s_cons, utf8_low by lia. cbn. by f_equal; apply IH. }
  rewrite E at 1. assert (map (fun b => (b, [b])) t = map (fun b => (b, utf8 b)) t) as ->.
  { apply list_eq. intros i. rewrite !list_lookup_fmap. destruct (t !! i) as [b|] eqn:Eb; [|done].
    cbn. apply list_elem_of_lookup_2, list_elem_of_In in Eb.
    rewrite forallb_forall in H. specialize (H b Eb). apply andb_true_iff in H as [_ H2%Z.ltb_lt].
    by rewrite utf8_low. }
  apply pieces_utf8s, Forall_forall. intros b Hb%list_elem_of_In. rewrite forallb_forall in H.
  specialize (H b Hb).
  apply andb_true_iff in H as [H1%Z.ltb_lt H2%Z.ltb_lt]. unfold is_rune, Runemax. lia.
Qed.

Lemma ex_class_ok : expression false false ex_class ex_class_re.
Proof.
  constructor; [by apply bytes_string| |done..]. eexists _, _. split_and!; [by apply pieces_ascii| | |].
  - cbn. eapply (lexes_class _ _ _ [(98, 100); (97, 97)]); [done|done| |cbn; lia|].
    + apply (rg_range (false, 98) (false, 100)); [done|done|done|].
      apply (rg_one (false, 97)); [done|done|]. apply rg_end.
    + apply (lexes_token _ _ 43); [done|done|]. apply (lexes_token _ _ 120); [done|done|].
      apply lexes_end.
  - apply (p_cat _ [_; _] [_]); [|by apply p_atom|done].
    by apply (p_post _ PLUS [_] (Class false [(98, 100); (97, 97)])); [apply p_atom|..].
  - done.
Qed.

Lemma ex_alt_ok : expression false false ex_alt ex_alt_re.
Proof.
  constructor; [by apply bytes_string| |done..]. eexists _, _. split_and!; [by apply pieces_ascii| | |].
  - cbn. repeat (apply lexes_token; [done|done|]). apply lexes_end.
  - apply (p_cat _ [_; _; _; _; _; _] [_]); [|by apply p_atom|done].
    apply (p_post _ STAR [_; _; _; _; _] (Group (Alt (Chr 97) (Chr 98)))); [|done|done].
    apply (p_group _ [_; _; _]). by apply (p_alt _ [_] [_]); [apply p_atom|apply p_atom|].
  - done.
Qed.

Definition no_se : Resublist := replicate (Z.to_nat NSUBEXP) nosub.
Definition relists (n : Z) : list Relist * list Relist :=
  (replicate (Z.to_nat n) (mkRelist None no_se), replicate (Z.to_nat n) (mkRelist None no_se)).

Lemma relists_ok n : 0 <= n -> arrays n (relists n).
Proof.
  intros Hn. unfold arrays, relists, arrays_ok. cbn [fst snd]. rewrite length_replicate.
  split_and!; [lia|lia|by apply Forall_replicate..].
Qed.

Lemma bldcclass_correct_witness :
  let st := regcomp1_start [98; 45; 100; 97; 93; 0] in
  exists e c, bldcclass st = Rc CCLASS
    (st <| yyclassp := 0 |> <| exprp := e |> <| co_classes := [c] |>) /\ spells [] e [] /\
    forall r, in_class c r = in_class [(98, 100); (97, 97)] r.
Proof.
  intros st.
  refine (bldcclass_correct [] st false [(98, 100); (97, 97)] [(false, 98); (false, 45); (false, 100);
    (false, 97); (false, 93)] [] _ _ _ _ _ _ _); [by apply Forall_nil| | |done|done|done|done].
  - apply (rg_range (false, 98) (false, 100)); [done|done|done|].
    apply (rg_one (false, 97)); [done|done|]. apply rg_end.
  - exists [98; 45; 100; 97; 93], (map (fun b => (b, [b])) [98; 45; 100; 97; 93]).
    split_and!; [done|by apply bytes_string|by apply pieces_ascii|done].
Defined.

Lemma regcomp_correct_witness : exists p, regcomp (ex_class ++ [0]) = Program p /\
  forall j text tpost t0 x k, is_bytes tpost -> at_string text tpost (starts j) t0 ->
    accept p j text x k <-> boundary j text x /\ matches j text ex_class_re x k.
Proof.
apply (regcomp_correct false ex_class ex_class_re []); [apply ex_class_ok|by apply Forall_nil].
Defined.

Definition program_of (s : bytes) : Reprog :=
  match regcomp s with Program p => p | _ => mkReprog 0 [] [] end.

(** [zabcx], searched from its start. *)
Definition ex_text : bytes := [122; 97; 98; 99; 120; 0].
Definition ex_junk : Reljunk := mkReljunk 0 0 0 None.

Lemma ex_text_ok : at_string ex_text [] (starts ex_junk) [122; 97; 98; 99; 120].
Proof. split_and!; [done|done|by apply bytes_string]. Qed.

Lemma regexec1_leftmost_longest_witness : exists best, leftmost_longest
  (program_of (ex_alt ++ [0])) ex_junk ex_text best /\
  true = match best with Some _ => true | None => false end /\
    mp_ok 1 (Some [mkResub (Some 1) (Some 4)]) best.
Proof.
  refine (regexec1_leftmost_longest (program_of (ex_alt ++ [0])) 1 ex_junk ex_text [] _ (Some [nosub])
    (fst (relists 250)) (snd (relists 250)) true _ _ ex_text_ok _ _ _ _ _).
  - by apply Forall_nil.
  - intros pc i Hi Hty. unfold inst_at, load1 in Hi. destruct (0 <=? pc); [|done].
    generalize dependent (Z.to_nat pc). intros n Hn.
    do 9 (destruct n as [|n]; [vm_compute in Hn; injection Hn as <-; by destruct Hty|]).
    by vm_compute in Hn.
  - by left.
  - by apply (relists_ok 250).
  - by apply (relists_ok 250).
  - by vm_compute.
Defined.

Lemma regexec_finds_witness : exists best, found ex_alt_re ex_junk ex_text best /\
  true = match best with Some _ => true | None => false end /\
    mp_ok 1 (Some [mkResub (Some 1) (Some 4)]) best.
Proof.
  refine (regexec_finds false ex_alt ex_alt_re [] (program_of (ex_alt ++ [0])) ex_text [] _
    (Some [nosub]) 1 ex_junk (relists LISTSIZE)
      (Some (relists BIGLISTSIZE)) true _ ex_alt_ok _ _ _ ex_text_ok _ _ _ _ _).
  - by apply Forall_nil.
  - by vm_compute.
  - by vm_compute.
  - by apply Forall_nil.
  - split; [done|by left].
  - by apply relists_ok.
  - intros h [= <-]. by apply relists_ok.
  - by vm_compute.
Defined.

Lemma regexec_returns_witness : exists rv mp' best, regexec (program_of (ex_class ++ [0])) ex_text
  (Some [nosub]) 1 (relists LISTSIZE) None = Ran (rv, mp') /\
  found ex_class_re ex_junk ex_text best /\ rv = match best with Some _ => true | None => false end /\
    mp_ok 1 mp' best.
Proof.
  apply (regexec_returns false ex_class ex_class_re []
    (program_of (ex_class ++ [0])) ex_text [] [122; 97; 98; 99; 120] (Some [nosub]) 1 ex_junk
      (relists LISTSIZE) None); try done.
  - apply ex_class_ok.
  - apply ex_text_ok.
  - split; [done|by left].
  - by apply relists_ok.
Defined.

Lemma regexec2_returns_witness : exists rv mp' best, regexec2
  (program_of (ex_alt ++ [0])) 1 ex_junk ex_text (Some [nosub]) (Some (relists BIGLISTSIZE)) =
    Ran (rv, mp') /\
  found ex_alt_re ex_junk ex_text best /\ rv = match best with Some _ => true | None => false end /\
    mp_ok 1 mp' best.
Proof.
  apply (regexec2_returns false ex_alt ex_alt_re []
    (program_of (ex_alt ++ [0])) ex_text [] [122; 97; 98; 99; 120] (Some [nosub]) 1 ex_junk
      (relists BIGLISTSIZE)); try done.
  - apply ex_alt_ok.
  - apply ex_text_ok.
  - split; [done|by left].
  - by apply relists_ok.
Defined.

(** ** Where the code does something else *)

(** The run of an expression on a string, with the arrays that [regexec] has. *)
Definition grep (s text : bytes) (mp : Resub) : ran (bool * option (list Resub)) :=
  regexec (program_of (s ++ [0])) (text ++ [0]) (Some [mp]) 1 (relists LISTSIZE)
    (Some (relists BIGLISTSIZE)).

(** [(b*|a)*] on the empty string: a loop around a loop that can take nothing adds threads until
    both arrays are full, since a thread that was run is not found again. *)
Theorem nested_loop_full : grep [40; 98; 42; 124; 97; 41; 42] [] nosub = Full.
Proof. by vm_compute. Qed.

(** [^b] does not find the line [b] after an empty first line: the check of the first character
    looks for the next newline from the start of a line on. *)
Theorem bol_after_empty_line : grep [94; 98] [10; 98] nosub = Ran (false, Some [nosub]) /\
  matches (mkReljunk BOL 0 0 None) [10; 98; 0] (Cat Bol (Chr 98)) 1 2.
Proof.
  split; [by vm_compute|]. eapply m_cat; [by apply m_bol|].
  apply (m_char _ _ _ 1 98 1); [done|by split_and!|done].
Qed.

(** [aaaaa|aaaaa|.....] on [baa] and a newline: the first thread of a character is added without a
    test, and the threads after it are added past the mark, over the end of the array. *)
Theorem start_thread_overrun : grep [97; 97; 97; 97; 97; 124; 97; 97; 97; 97; 97; 124; 46; 46; 46; 46;
  46] [98; 97; 97; 10] nosub = Fault.
Proof. by vm_compute. Qed.

(** [b] on [aab], when the search ends after the first character: the check of the first character
    goes on beyond the end, and a match there is found. *)
Theorem search_past_end : grep [98] [97; 97; 98] (mkResub (Some 0) (Some 1)) =
  Ran (true, Some [mkResub (Some 2) (Some 3)]).
Proof. by vm_compute. Qed.

(** [[^-a]] is no error, as [[-a]] is: the range from the newline that a negated class holds to [a] is
    left out. *)
Theorem negated_dash : regcomp [91; 94; 45; 97; 93; 0] =
  Program (mkReprog 0 [[(10, 97)]] [mkReinst NCCLASS (Some 0) (Some 1); mkReinst END None None]) /\
  regcomp [91; 45; 97; 93; 0] = Error "malformed '[]'".
Proof. split; by vm_compute. Qed.

(** [regcomplit] does not treat all characters literally: a backslash quotes the next one, and
    the expression [\.] is the one character [.]. *)
Theorem regcomplit_quotes : regcomplit [92; 46; 0] = regcomplit [46; 0] /\
  regcomplit [46; 0] = Program (mkReprog 0 [] [mkReinst RUNE (Some 46) (Some 1); mkReinst END None None]).
Proof. split; by vm_compute. Qed.
