(* ===== verification/Regsub.v ===== *)
(** * Substitution: [libregexp/regsub.c]

    [regsub] copies a string with the matches of the last [regexec] put in, as far as the
    destination has room. *)

From S2P Require Import Prelude Fcall Utf Regexec.

(** ** The code *)

Section regsub.
(** The string that the matches point into, the matches and their number, and [ep], the last place
    of the destination. The state is the destination and the offset [dp] in it. *)
Context (text : bytes) (mp : option (list Resub)) (ms ep : Z).

(** [if(dp < ep) *dp++ = b;] *)
Definition put (b : option Z) (x : bytes * Z) : option (bytes * Z) :=
  if snd x <? ep then c ← b; d ← store (fst x) (snd x) [c]; Some (d, snd x + 1) else Some x.

(** The loop from [ssp] on over [n] characters. *)
Fixpoint put_match (n : nat) (ssp : Z) (x : bytes * Z) : option (bytes * Z) :=
  match n with
  | O => Some x
  | S n => x ← put (load1 text ssp) x; put_match n (ssp + 1) x
  end.

Definition put_sub (i : Z) (x : bytes * Z) : option (bytes * Z) :=
  match mp with
  | None => Some x
  | Some l =>
    m ← load1 l i;
    match sp m with
    | Some s => if i <? ms then put_match
      (Z.to_nat (match Regexec.ep m with Some e => e - s | None => 0 end)) s x else Some x
    | None => Some x
    end
  end.

(** The loop over the source; the character after a backslash is taken with it, but for the end. *)
Fixpoint regsub_loop (src : bytes) (x : bytes * Z) : option (bytes * Z) :=
  match src with
  | [] => None
  | c :: src =>
    if c =? 0 then Some x
    else if c =? 92 then
      match src with
      | [] => None
      | c :: src =>
        if (48 <=? c) && (c <=? 57) then x ← put_sub (c - 48) x; regsub_loop src x
        else if c =? 92 then x ← put (Some 92) x; regsub_loop src x
        else if c =? 0 then Some x
        else x ← put (Some c) x; regsub_loop src x
      end
    else if c =? 38 then x ← put_sub 0 x; regsub_loop src x
    else x ← put (Some c) x; regsub_loop src x
  end.
End regsub.

(** The destination after the call; nothing when an access is outside of its object. *)
Definition regsub (src : bytes) (dp : bytes) (dlen : Z) (text : bytes) (mp : option (list Resub))
  (ms : Z) : option bytes :=
  x ← regsub_loop text mp ms (dlen - 1) src (dp, 0); store (fst x) (snd x) [0].

(** ** What it means *)

Section spec.
Context (text : bytes) (mp : option (list Resub)) (ms : Z).

(** The text of a match. *)
Definition match_text (m : Resub) : bytes :=
  match sp m, ep m with
  | Some s, Some e => take (Z.to_nat (e - s)) (drop (Z.to_nat s) text)
  | _, _ => []
  end.

Definition sub_text (i : Z) : bytes :=
  match mp with
  | Some l => match load1 l i with Some m => if i <? ms then match_text m else [] | None => [] end
  | None => []
  end.

(** The source with the matches put in. *)
Fixpoint expand (src : bytes) : bytes :=
  match src with
  | [] => []
  | c :: src =>
    if c =? 92 then
      match src with
      | [] => []
      | c :: src => (if (48 <=? c) && (c <=? 57) then sub_text (c - 48) else [c]) ++ expand src
      end
    else (if c =? 38 then sub_text 0 else [c]) ++ expand src
  end.

(** The matches that the source names. *)
Fixpoint named (src : bytes) : list Z :=
  match src with
  | [] => []
  | c :: src =>
    if c =? 92 then
      match src with
      | [] => []
      | c :: src => (if (48 <=? c) && (c <=? 57) then [c - 48] else []) ++ named src
      end
    else (if c =? 38 then [0] else []) ++ named src
  end.

(** The [i]th match has an element, and if it counts it is in the text. *)
Definition match_ok (i : Z) : Prop :=
  match mp with
  | None => True
  | Some l => exists m, load1 l i = Some m /\
    (i < ms -> match sp m, ep m with Some s, Some e => 0 <= s <= e /\ e <= len text | _, _ => True end)
  end.

(** The matches that the source names are all right. *)
Definition matches_ok (src : bytes) : Prop := Forall match_ok (named src).
End spec.

(** ** Proof *)

Section proof.
Context (text : bytes) (mp : option (list Resub)) (ms dlen : Z) (d : bytes) (Hlen : 0 < dlen <= len d).

(** The destination when [u] is to be written. *)
Definition written (u : bytes) : bytes * Z :=
  let v := take (Z.to_nat (dlen - 1)) u in (v ++ drop (length v) d, len v).

Lemma put_ok u b : put (dlen - 1) (Some b) (written u) = Some (written (u ++ [b])).
Proof.
  unfold put, written. cbn [fst snd]. rewrite length_take. set (n := Z.to_nat (dlen - 1)).
  destruct (Z.ltb_spec (Z.of_nat (Nat.min n (length u))) (dlen - 1)) as [H|H].
  - rewrite (take_ge u), (take_ge (u ++ [b])) by (rewrite ?length_app; cbn; lia).
    cbn [mbind option_bind].
    replace (Nat.min n (length u)) with (length u) by lia.
    destruct (drop (length u) d) as [|x rest] eqn:E;
      [apply (f_equal length) in E; rewrite length_drop in E; cbn in E; lia|].
    rewrite (store_app u [x] [b] rest) by done. cbn [mbind option_bind]. rewrite length_app.
    cbn [length].
    replace (drop (length u + 1) d) with rest by (rewrite <- drop_drop, E; done). rewrite <- app_assoc.
    do 2 f_equal. lia.
  - rewrite (take_app_le u [b]) by lia. rewrite length_take. done.
Qed.

Lemma put_match_ok n : forall s u, 0 <= s -> s + Z.of_nat n <= len text ->
  put_match text (dlen - 1) n s (written u) = Some (written (u ++ take n (drop (Z.to_nat s) text))).
Proof.
  induction n as [|n IH]; intros s u Hs Hn; cbn [put_match]; [by rewrite app_nil_r|].
  destruct (load1_Some text s ltac:(lia)) as (c & Hc). rewrite Hc, put_ok. cbn [mbind option_bind].
  rewrite IH by lia.
  apply load1_inv in Hc as [_ Hc]. rewrite (drop_S _ _ _ Hc). cbn [take]. rewrite <- app_assoc.
  by replace (Z.to_nat (s + 1)) with (S (Z.to_nat s)) by lia.
Qed.

Lemma put_sub_ok i u : match_ok text mp ms i ->
  put_sub text mp ms (dlen - 1) i (written u) = Some (written (u ++ sub_text text mp ms i)).
Proof using Hlen.
  unfold put_sub, sub_text, match_ok. destruct mp as [l|]; [|by rewrite app_nil_r].
  intros (m & Em & Hm). rewrite Em. cbn [mbind option_bind].
  unfold match_text. destruct (sp m) as [s|]; [|destruct (i <? ms); by rewrite app_nil_r].
  destruct (Z.ltb_spec i ms); [|by rewrite app_nil_r].
  destruct (ep m) as [e|]; [|by rewrite app_nil_r]. specialize (Hm ltac:(lia)). apply put_match_ok; lia.
Qed.

Lemma regsub_loop_ok post n : forall src u, (length src <= n)%nat -> Forall (fun b => b <> 0) src -> matches_ok text mp ms src ->
  regsub_loop text mp ms (dlen - 1) (src ++ 0 :: post) (written u) =
    Some (written (u ++ expand text mp ms src)).
Proof using Hlen.
  induction n as [|n IH]; intros [|c src] u Hn Hz Hok; try (cbn in Hn; lia); [by rewrite app_nil_r..|].
  apply Forall_cons in Hz as [Hc Hz]. cbn [length] in Hn. unfold matches_ok in Hok. cbn [named] in Hok. cbn [app regsub_loop expand].
  rewrite (proj2 (Z.eqb_neq _ _) Hc). destruct (Z.eqb_spec c 92) as [->|Hbs].
  - destruct src as [|c' src]; [by rewrite app_nil_r|]. apply Forall_cons in Hz as [Hc' Hz].
    apply Forall_app in Hok as [Hm Hok]. cbn [length] in Hn. cbn [app]. destruct ((48 <=? c') && (c' <=? 57)).
    + apply Forall_cons in Hm as [Hm _]. rewrite put_sub_ok by done.
      cbn [mbind option_bind]. rewrite IH by (done || lia). by rewrite <- app_assoc.
    + rewrite (proj2 (Z.eqb_neq _ _) Hc').
      destruct (Z.eqb_spec c' 92) as [->|]; rewrite put_ok; cbn [mbind option_bind];
        rewrite IH by (done || lia); by rewrite <- app_assoc.
  - apply Forall_app in Hok as [Hm Hok]. destruct (Z.eqb_spec c 38) as [->|].
    + apply Forall_cons in Hm as [Hm _]. rewrite put_sub_ok by done. cbn [mbind option_bind]. rewrite IH by (done || lia). by rewrite <- app_assoc.
    + rewrite put_ok. cbn [mbind option_bind]. rewrite IH by (done || lia). by rewrite <- app_assoc.
Qed.
End proof.

(** C38: [regsub] writes the source with the matches put in, cut to the destination and ended by a
    NUL, and nothing after it; provided that every match that the source names has an element in
    the array, even those from [ms] on, which count as empty, and lies in the text. *)
Theorem regsub_expands src post d dlen text mp ms :
  Forall (fun b => b <> 0) src -> 0 < dlen <= len d -> matches_ok text mp ms src ->
  regsub (src ++ 0 :: post) d dlen text mp ms =
    let u := take (Z.to_nat (dlen - 1)) (expand text mp ms src) in Some
      (u ++ 0 :: drop (S (length u)) d).
Proof.
  intros Hz Hlen Hok. unfold regsub.
  assert ((d, 0) = written dlen d []) as -> by (unfold written; by rewrite take_nil).
  rewrite (regsub_loop_ok text mp ms dlen d Hlen post (length src) src [] ltac:(done) Hz Hok).
  cbn [mbind option_bind app]. unfold written. cbn [fst snd]. set (u := take _ _).
  assert (length u <= Z.to_nat (dlen - 1))%nat by (unfold u; rewrite length_take; lia).
  destruct (drop (length u) d) as [|x rest] eqn:E;
    [apply (f_equal length) in E; rewrite length_drop in E; cbn in E; lia|].
  rewrite (store_app u [x] [0] rest) by done. replace (drop (S (length u)) d) with rest; [done|].
  replace (S (length u)) with (length u + 1)%nat by lia. by rewrite <- drop_drop, E.
Qed.

(** [<&-\1\2>] with the matches of [b(c)] in [abcd], of which two count, into eight bytes. *)
Lemma regsub_expands_witness :
  regsub ([60; 38; 45; 92; 49; 92; 50; 62] ++ [0]) (replicate 8 7) 8 [97; 98; 99; 100; 0]
    (Some [mkResub (Some 1) (Some 3); mkResub (Some 2) (Some 3); nosub]) 2
    = Some [60; 98; 99; 45; 99; 62; 0; 7].
Proof.
  apply (regsub_expands [60; 38; 45; 92; 49; 92; 50; 62] [] (replicate 8 7) 8 [97; 98; 99; 100; 0]
    (Some [mkResub (Some 1) (Some 3); mkResub (Some 2) (Some 3); nosub]) 2);
    [by repeat constructor|cbn; lia|].
  apply Forall_cons; split; [|apply Forall_cons; split; [|apply Forall_cons; split; [|constructor]]]; eexists; (split; [reflexivity|]); cbn; lia.
Defined.

(** The element that a digit names is read before its number is compared with [ms]. *)
Theorem regsub_reads_past : regsub [92; 57; 0] (replicate 8 7) 8 [97; 0]
  (Some [mkResub (Some 0) (Some 1)]) 1 = None.
Proof. done. Qed.
